(* ===== verification/_CoqProject ===== *)
-Q . S2P
Prelude.v
Constants.v
JsText.v
JsValue.v
Json.v
Base64.v
Authority.v
Wordlist.v
RateLimit.v
Protocol.v
Messages.v
Wire.v
Limits.v
PublicManifest.v
Bytes.v
Chunks.v
Crypto.v
SealedJson.v
Pake.v
Auth.v
SecureChannel.v
Establish.v
TransferControl.v
Async.v
FileStat.v
FileSystem.v
ControlWaiter.v
ReceiverState.v
Receiver.v
ReceiverInv.v
ReceiverSteps.v
ReceiverHandlers.v
ReceiverProps.v
ReceiverRun.v
Publish.v
PublishProps.v
PublishRun.v
SendPlan.v
Files.v
FilesProps.v
Sender.v
SenderInv.v
SenderSteps.v
SenderFiles.v
SenderProps.v
SenderRun.v
FilesRun.v
Policy.v
Admission.v
Ice.v
HttpRequest.v
ServerConfig.v
ServerConfigProps.v
StaticPath.v
HttpServer.v
Signals.v
SignalingClient.v
SignalWait.v
WireSignals.v
WireSignalsProps.v
WireSignalsRun.v
Session.v
SessionInv.v
SessionProps.v
ServerState.v
Server.v
ServerInv.v
ServerCluster.v
ServerHandlers.v
ServerRequests.v
ServerProps.v
System.v
