(* ===== verification/Prelude.v ===== *)
(** * p2p-transfer: a verification development of the shared protocol code, the
    signalling server and the command line client.

    ** The program

    p2p-transfer sends files between two machines over a WebRTC data channel.
    A signalling server ([src/server/]) pairs a sender with the receiver whose
    code it was told, and relays their messages; the two sides run CPace on the
    code, confirm the keys, and seal with them everything that must not be seen
    or changed by the server: the manifest, the WebRTC signals, the control
    messages and the file chunks ([src/shared/security.ts]).  The transfer
    engine ([src/cli/transfer.ts]) then sends the chunks of each file, checks
    their hashes on both sides and publishes a received file under its name
    only after its whole content has been verified.

    ** The files

    Foundations.  [Prelude]: strings as UTF-16 code units, [result], bytes,
    list and map lemmas, tactics.  [Constants]: shared/constants.ts.  [JsText],
    [JsValue], [Json]: what the source uses of JavaScript's strings, untrusted
    values and JSON text.  [Async]: cooperative tasks of the event loop, their
    weakest preconditions and the invariant theorem for all interleavings.

    Shared protocol code.  [Base64] and [Bytes] (the binary helpers of
    security.ts), [Authority] (authority.ts), [Wordlist] (wordlist.ts),
    [Protocol], [Messages] and [Wire] (messages.ts: types, validators,
    serializer and frame parser), [Limits] (limits.ts), [PublicManifest]
    (public-manifest.ts), [Chunks] (chunks.ts), [TransferControl]
    (transfer.ts).

    Cryptographic layer (security.ts).  [Crypto]: the primitives as classes
    with laws.  [SealedJson], [Pake], [Auth], [SecureChannel]: sealing, key
    exchange, tags, channels.  [Establish]: cli/secure.ts, the exchange run to
    its end.

    Signalling server (src/server/).  [RateLimit] (rate-limit.ts), [Policy]
    (policy.ts), [Admission] (capacity.ts, waiting.ts, prepair-attempts.ts,
    session-expiry.ts, close-reason.ts and shared/signaling-backpressure.ts),
    [ServerState] and [Server] (index.ts: its maps and its callbacks),
    [ServerInv], [ServerCluster], [ServerHandlers], [ServerRequests] (the
    invariant and that each callback keeps it), [ServerProps] (the theorems).
    [System] puts the server together with the program's own serializer and
    public manifest check.  [Ice] (shared/ice.ts), [HttpRequest]
    (request-headers.ts), [ServerConfig], [ServerConfigProps] (config.ts),
    [StaticPath] (static-path.ts) and [HttpServer] (security-headers.ts and the
    HTTP side of index.ts): configuration and HTTP.

    Signalling client and sessions (src/cli/).  [Signals]:
    shared/signal-queue.ts and shared/signal-replay.ts.  [SignalingClient]:
    the class of signaling.ts (its handler throws on "error" messages, which
    ends the real process; the sessions of [Session] go on after one, so they
    have the runs of the real ones and more); [SignalWait]: [waitForMessage] and
    [waitForPairAccept].  [WireSignals], [WireSignalsProps],
    [WireSignalsRun]: [wireSignals] of index.ts, its invariant, and an exchange
    of offer and answer.  [Session]: [recv] and [send] of index.ts with
    interrupt.ts; [SessionInv] (the invariant of both), [SessionProps].

    Files (src/cli/).  [FileSystem]: the calls of node:fs as programs under
    interference and failures.  [Publish], [PublishProps], [PublishRun]:
    [publishPartFile] and [digestFilePath] of transfer.ts.  [Files],
    [FilesProps], [FilesRun]: [buildManifest] and [reserveOutputFile] of
    files.ts.

    Transfer engine (src/cli/).  [FileStat]: the checks of files.ts and
    transfer.ts on paths, identities and stat results.  [ReceiverState] and
    [Receiver]: [receiveFiles] with its closures as tasks; [ReceiverInv],
    [ReceiverSteps], [ReceiverHandlers] (the invariant, a lemma per function),
    [ReceiverProps] (the theorems), [ReceiverRun] (an honest transfer, and the
    witnesses).  [ControlWaiter]: shared/control-waiter.ts.  [SendPlan],
    [Sender]: [sendFiles]; [SenderInv], [SenderSteps], [SenderFiles] (what may
    be sent, and that nothing else is), [SenderProps] (the theorems),
    [SenderRun] (a transfer from end to end, and the witnesses).

    ** How state and operations correspond

    A definition has the name of the function it translates.  Fallible code is
    in [result], whose [Err] carries the message of the thrown [Error].  A
    number that the code has checked to be a safe integer is a [Z].  The server
    is a record ([ServerState.Server]) whose maps are [gmap]s; peers and
    sessions, which the source shares by reference and mutates, are entries of
    stores under ids, so an alias is an id.  A callback is a program of a state
    monad with exceptions, which logs what it does to the sockets.  The
    receiver is a record ([ReceiverState]) shared by all its closures; each
    closure is a tree of steps and awaited operations ([Async.task]), whose
    answers are arbitrary.  The tasks interleave at every await.  [Sender],
    [WireSignals] and [Session] are built in the same way; a session also keeps
    a log of what others can see of it ([CliEvent]), over which its theorems
    are stated.  The file programs are trees of file system calls ([io]), and
    others may act before each call.

    ** What is proved

    - Validators: they accept exactly the values that have the shape of messages
      or manifests within the limits, no other properties among them; what the server accepted the client accepts;
      names that reach the file system are safe, collision names distinct.
    - Codecs: base64, JSON frames, chunk frames, sealed values and codes round
      trip, and only canonical encodings are accepted.
    - Keys: two sides with the same code agree; a side that returns keys has
      verified the peer's confirmation; tags and nonces cannot be moved from
      one statement or chunk to another; wiped keys do nothing.
    - Sessions: the receiver announces its consent once, after the user agreed
      to the manifest that was sealed under confirmed keys, and receives only
      that; the sender offers and sends only after a verified consent to what
      it sealed; every end closes the connections and wipes the keys there are (a
      body still running then may finish an exchange afterwards).
      The signals between consent and transfer reach [wireSignals] in order,
      only authentic ones have an effect, and honest sides exchange offer and
      answer.
    - Server configuration and HTTP: a configuration of a public deployment is
      safe; TURN credentials go only to clients that may have them; the client
      address is not one the client can choose; paths of URLs stay below the
      web root; upgrades and replies follow the documented rules.
    - Files: publishing and reserving touch nothing but their own names and
      files, whatever fails and whatever others do, and publishing succeeds
      when nothing fails; prepared manifests describe the files that were read.
    - Server: every callback terminates without an exception, the maps stay
      linked, resources stay bounded, a message is relayed only to the other
      peer of its session and only if an abstract protocol over histories
      allows it, guessing of codes is bounded, expired sessions are removed.
    - Receiver: in every reachable state a file that was acknowledged was
      verified; it resolves only after every file was; success and failure
      messages exclude each other; its queues are bounded; with an honest
      sender and operations that succeed it completes with the sent bytes.
    - Sender: in every reachable state what was sent follows the plan, chunk
      hashes included, and only after the acknowledgements it needs; it ends
      with its channels and handles released; a complete run of it, delivered
      to the receiver, makes that one complete with the same contents.

    ** Fuel and bounds

    [Server.send] runs with one unit of fuel per live session and one more: a
    nested send has ended or removed a session, so the fuel is never used up
    ([server_callbacks_complete]).  [Json.parse] has fuel linear in the text
    ([parse_fuel_enough]).  The clean-up loop of the receiver has fuel 257, over
    the 100 files a manifest can have.  The loop over mismatched prefixes of
    [verifiedReadyState] has no bound in the code: its fuel is arbitrary, and
    out of fuel the task waits for ever, so every finite run is covered.
    [copyLoop], [digestLoop] and the streams of [Files] have one unit more than
    the size they must not pass, and every round reads a byte or ends; where no
    size is known the file may grow as it is read, and the fuel is arbitrary.
    [wireSignals] drains its queue with fuel 257, over its 256 candidates
    ([DRAIN_FUEL]).  A receiver session makes at most nine attempts
    ([recvBound]): three pair requests with three confirmations each; the
    loops recur on the number of further ones.  Numbers are unbounded integers
    only where the code has checked that they are safe; 32-bit fields and bytes wrap
    as the code writes them.

    ** What is not modelled

    - Parameters with laws: WebCrypto AES-GCM, HMAC, HKDF, SHA-256, CPace, the
      URL parser, [toLowerCase] outside ASCII, number literals that are not safe
      integers, the BIP-39 list.  Nothing is assumed of an attacker.
    - Of [await] on a promise that is already settled no interleaving is
      modelled; an untrusted value is a tree, so the [seen] sets against cycles
      have no counterpart; the overwriting of local buffers is not visible.
    - File operations of the receiver answer anything; that a channel accepts a
      message is a parameter.  Progress output and logging are left out.
    - The file system has POSIX paths and arbitrary times, and does not use the
      number of a removed file again.
    - In a session the wait for [withInterrupt]'s clean-up is any time; the
      native peer connection and the user answer anything.  Wiping the keys
      while [wireSignals] runs is modelled in [Session], not in [WireSignals].
    - Not translated, because they are terminal, browser, network or process
      input and output around this code: argument parsing, prompts and printing
      of cli/index.ts, [ensureOutputDir], the URL of the server and late socket
      errors of the client, the WebRTC and WebSocket drivers with the sending of
      local candidates, reading the files of the web root ([serveStatic] after
      its path check) and web-asset-integrity.ts, server start-up and shutdown
      of the process, the dependency self-checks, the web client (web/main.ts)
      and the release scripts. *)
From Stdlib Require Export ZArith Lia Ascii String.
From stdpp Require Export base numbers list gmap strings pretty sorting.

#[global] Set Default Proof Using "Type".

(** ** Strings

    A JavaScript string is a sequence of UTF-16 code units, each in
    [0, 65535]; the development writes it [list Z]. *)
Abbreviation jsstr := (list Z).

(** A literal of the source as its code units (the literals of the source are
    ASCII). *)
Fixpoint js (s : string) : jsstr :=
  match s with
  | EmptyString => []
  | String a r => Z.of_N (N_of_ascii a) :: js r
  end.

(** The decimal text of an integer, [String(z)] and template interpolation. *)
Definition jsInt (z : Z) : jsstr := js (pretty z).

(** ** Fallible code: a value, or a thrown [Error] with its message. *)
Inductive result (A : Type) : Type :=
| Ok (a : A)
| Err (message : jsstr).
Arguments Ok {A} a.
Arguments Err {A} message.

#[export] Instance result_ret : MRet result := @Ok.
#[export] Instance result_bind : MBind result := λ A B f r,
  match r with Ok a => f a | Err m => Err m end.
#[export] Instance result_fmap : FMap result := λ A B f r,
  match r with Ok a => Ok (f a) | Err m => Err m end.

(** [throw new Error("...")] with a constant message. *)
Definition throw {A} (message : string) : result A := Err (js message).

(** [if (!(b)) throw new Error(message)]. *)
Definition check (b : bool) (message : string) : result unit :=
  if b then Ok tt else throw message.

Definition is_ok {A} (r : result A) : bool := match r with Ok _ => true | Err _ => false end.

(** ** Stateful code over a state [S]: it completes with a value, throws, or
    runs out of the recursion fuel given to it. *)
Inductive outcome (S A : Type) : Type :=
| Done (a : A) (s : S)
| Raised (message : jsstr) (s : S)
| OutOfFuel.
Arguments Done {S A} a s.
Arguments Raised {S A} message s.
Arguments OutOfFuel {S A}.

Definition ST (S A : Type) : Type := S → outcome S A.

#[export] Instance st_ret S : MRet (ST S) := λ A a s, Done a s.
#[export] Instance st_bind S : MBind (ST S) := λ A B f m s,
  match m s with
  | Done a s' => f a s'
  | Raised e s' => Raised e s'
  | OutOfFuel => OutOfFuel
  end.

#[export] Instance st_fmap S : FMap (ST S) := λ A B f m, m ≫= λ a, mret (f a).

Definition st_get {S} : ST S S := λ s, Done s s.
Definition st_modify {S} (f : S → S) : ST S () := λ s, Done () (f s).
Definition st_lift {S A} (r : result A) : ST S A := λ s,
  match r with Ok a => Done a s | Err e => Raised e s end.
Definition st_when {S} (b : bool) (m : ST S ()) : ST S () := if b then m else mret ().

(** [try { m } catch (e) { h(e) }] *)
Definition st_catch {S A} (m : ST S A) (h : jsstr → ST S A) : ST S A := λ s,
  match m s with Raised e s' => h e s' | r => r end.

(** Running a list of commands in order. *)
Fixpoint st_iter {S A} (f : A → ST S ()) (l : list A) : ST S () :=
  match l with
  | [] => mret ()
  | x :: r => f x ≫= λ _, st_iter f r
  end.

(** ** Reachability: the reflexive transitive closure of a labelled step. *)
Section Runs.
Context {S L : Type} (step : S → L → S → Prop).

Inductive run : S → list L → S → Prop :=
| run_nil s : run s [] s
| run_cons s l s' tr s'' : step s l s' → run s' tr s'' → run s (l :: tr) s''.

End Runs.

(** ** Weakest preconditions of [ST]: [wp m Q s] says that [m] started in [s]
    completes, without throwing and within its fuel, in a result satisfying
    [Q]. *)
Definition wp {S A} (m : ST S A) (Q : A → S → Prop) (s : S) : Prop :=
  match m s with Done a s' => Q a s' | _ => False end.

Create HintDb p2p discriminated.
Create HintDb wpdb.
Create Rewrite HintDb p2p.

Section WpRules.
Context {S : Type}.
Implicit Types s : S.

Lemma wp_ret {A} (a : A) Q s : Q a s → wp (mret a) Q s.
Proof. done. Qed.

Lemma wp_bind {A B} (m : ST S A) (f : A → ST S B) Q s :
  wp m (λ a s', wp (f a) Q s') s → wp (m ≫= f) Q s.
Proof. unfold wp, mbind, st_bind. by destruct (m s). Qed.

Lemma wp_mono {A} (m : ST S A) (P Q : A → S → Prop) s :
  wp m P s → (∀ a s', P a s' → Q a s') → wp m Q s.
Proof. unfold wp. destruct (m s); naive_solver. Qed.

Lemma wp_get Q s : Q s s → wp st_get Q s.
Proof. done. Qed.

Lemma wp_modify f (Q : unit → S → Prop) s : Q () (f s) → wp (st_modify f) Q s.
Proof. done. Qed.

Lemma wp_when b (m : ST S ()) (Q : unit → S → Prop) s :
  (b = true → wp m Q s) → (b = false → Q () s) → wp (st_when b m) Q s.
Proof. destruct b; naive_solver. Qed.

Lemma wp_lift_ok {A} (a : A) Q s : Q a s → wp (st_lift (Ok a)) Q s.
Proof. done. Qed.

Lemma wp_iter {A} (f : A → ST S ()) (I : S → Prop) (l : list A) s :
  (∀ x s', x ∈ l → I s' → wp (f x) (λ _ s'', I s'') s') →
  I s → wp (st_iter f l) (λ _ s', I s') s.
Proof.
  revert s. induction l as [|x l IH]; intros s Hf HI; [done|].
  apply wp_bind. eapply wp_mono; [apply Hf; [left|done]|].
  intros ? s' HI'. apply IH; [|done]. intros y s'' ??. apply Hf; [by right|done].
Qed.

Lemma wp_conj {A} (m : ST S A) (P Q : A → S → Prop) s :
  wp m P s → wp m Q s → wp m (λ a s', P a s' ∧ Q a s') s.
Proof. unfold wp. by destruct (m s). Qed.

Lemma wp_inv {A} (m : ST S A) Q s : wp m Q s → ∃ a s', m s = Done a s' ∧ Q a s'.
Proof. unfold wp. destruct (m s); naive_solver. Qed.

Lemma wp_intro {A} (m : ST S A) (Q : A → S → Prop) s a s' :
  m s = Done a s' → Q a s' → wp m Q s.
Proof. unfold wp. by intros ->. Qed.

End WpRules.

#[export] Hint Resolve wp_ret wp_get wp_modify wp_lift_ok : wpdb.

(** The same with a postcondition [E] for the thrown errors: the code completes
    in [Q] or throws in [E], and does not run out of fuel. *)
Definition wpe {S A} (m : ST S A) (Q : A → S → Prop) (E : jsstr → S → Prop) (s : S) : Prop :=
  match m s with Done a s' => Q a s' | Raised e s' => E e s' | OutOfFuel => False end.

Section WpeRules.
Context {S : Type}.
Implicit Types (s : S) (E : jsstr → S → Prop).

Lemma wpe_ret {A} (a : A) Q E s : Q a s → wpe (mret a) Q E s.
Proof. done. Qed.

Lemma wpe_bind {A B} (m : ST S A) (f : A → ST S B) Q E s :
  wpe m (λ a s', wpe (f a) Q E s') E s → wpe (m ≫= f) Q E s.
Proof. unfold wpe, mbind, st_bind. by destruct (m s). Qed.

Lemma wpe_fmap {A B} (m : ST S A) (f : A → B) Q E s :
  wpe m (λ a s', Q (f a) s') E s → wpe (f <$> m) Q E s.
Proof. unfold wpe, fmap, st_fmap, mbind, st_bind. by destruct (m s). Qed.

Lemma wpe_mono {A} (m : ST S A) (P Q : A → S → Prop) (D E : jsstr → S → Prop) s :
  wpe m P D s → (∀ a s', P a s' → Q a s') → (∀ e s', D e s' → E e s') → wpe m Q E s.
Proof. unfold wpe. destruct (m s); naive_solver. Qed.

Lemma wpe_get Q E s : Q s s → wpe st_get Q E s.
Proof. done. Qed.

Lemma wpe_modify f (Q : unit → S → Prop) E s : Q () (f s) → wpe (st_modify f) Q E s.
Proof. done. Qed.

Lemma wpe_lift {A} (r : result A) Q E s :
  match r with Ok a => Q a s | Err e => E e s end → wpe (st_lift r) Q E s.
Proof. by destruct r. Qed.

Lemma wpe_when b (m : ST S ()) (Q : unit → S → Prop) E s :
  (b = true → wpe m Q E s) → (b = false → Q () s) → wpe (st_when b m) Q E s.
Proof. destruct b; naive_solver. Qed.

Lemma wpe_catch {A} (m : ST S A) (h : jsstr → ST S A) Q E s :
  wpe m Q (λ e s', wpe (h e) Q E s') s → wpe (st_catch m h) Q E s.
Proof. unfold wpe, st_catch. by destruct (m s). Qed.

(** What a computation that satisfies [wpe] can do. *)
Lemma wpe_done {A} (m : ST S A) Q E s a s' : wpe m Q E s → m s = Done a s' → Q a s'.
Proof. unfold wpe. intros H Hm. by rewrite Hm in H. Qed.

Lemma wpe_raised {A} (m : ST S A) Q E s e s' : wpe m Q E s → m s = Raised e s' → E e s'.
Proof. unfold wpe. intros H Hm. by rewrite Hm in H. Qed.

Lemma wpe_wp {A} (m : ST S A) Q s : wpe m Q (λ _ _, False) s → wp m Q s.
Proof. unfold wpe, wp. by destruct (m s). Qed.

End WpeRules.

Ltac wpe_step :=
  lazymatch goal with
  | |- wpe (mbind _ _) _ _ _ => apply wpe_bind
  | |- wpe (fmap _ _) _ _ _ => apply wpe_fmap
  | |- wpe (mret _) _ _ _ => apply wpe_ret
  | |- wpe st_get _ _ _ => apply wpe_get
  | |- wpe (st_modify _) _ _ _ => apply wpe_modify
  | |- wpe (st_lift _) _ _ _ => apply wpe_lift; cbv iota beta
  | |- wpe (st_when _ _) _ _ _ => apply wpe_when; intros ?
  | |- wpe (st_catch _ _) _ _ _ => apply wpe_catch
  | |- wpe (if ?b then _ else _) _ _ _ => destruct b eqn:?
  | |- wpe (match ?b with _ => _ end) _ _ _ => destruct b eqn:?
  end.
Ltac wpe_steps := repeat (wpe_step; cbv beta).

Section RunRules.
Context {S L : Type} (step : S → L → S → Prop).

Lemma run_app s tr1 s' tr2 s'' :
  run step s tr1 s' → run step s' tr2 s'' → run step s (tr1 ++ tr2) s''.
Proof. induction 1; simpl; eauto using run. Qed.

(** An invariant of every step holds of every reachable state. *)
Lemma run_invariant (I : S → Prop) s tr s' :
  (∀ a l b, I a → step a l b → I b) → I s → run step s tr s' → I s'.
Proof. intros Hstep HI. induction 1; eauto. Qed.

End RunRules.

(** ** Tactics *)

(** Split boolean conjunctions in the hypotheses and turn the boolean
    arithmetic comparisons and [bool_decide]s into propositions. *)
Ltac bool_hyps :=
  repeat match goal with
  | H : (_ && _) = true |- _ => apply andb_true_iff in H as [? ?]
  | H : (_ || _) = false |- _ => apply orb_false_iff in H as [? ?]
  | H : negb _ = true |- _ => apply negb_true_iff in H
  | H : negb _ = false |- _ => apply negb_false_iff in H
  | H : (_ <=? _)%Z = true |- _ => apply Z.leb_le in H
  | H : (_ <=? _)%Z = false |- _ => apply Z.leb_gt in H
  | H : (_ <? _)%Z = true |- _ => apply Z.ltb_lt in H
  | H : (_ <? _)%Z = false |- _ => apply Z.ltb_ge in H
  | H : (_ =? _)%Z = true |- _ => apply Z.eqb_eq in H
  | H : (_ =? _)%Z = false |- _ => apply Z.eqb_neq in H
  | H : (_ =? _)%nat = true |- _ => apply Nat.eqb_eq in H
  | H : (_ =? _)%nat = false |- _ => apply Nat.eqb_neq in H
  | H : (_ <=? _)%nat = true |- _ => apply Nat.leb_le in H
  | H : (_ <=? _)%nat = false |- _ => apply Nat.leb_gt in H
  | H : (_ <? _)%nat = true |- _ => apply Nat.ltb_lt in H
  | H : (_ <? _)%nat = false |- _ => apply Nat.ltb_ge in H
  | H : bool_decide _ = true |- _ => apply bool_decide_eq_true in H
  | H : bool_decide _ = false |- _ => apply bool_decide_eq_false in H
  end.

(** Case on the scrutinees of a [result] or boolean computation in [H]. *)
Ltac case_in H :=
  repeat (first
    [ discriminate H
    | match type of H with
      | context [match ?x with _ => _ end] =>
        lazymatch x with
        | context [match _ with _ => _ end] => fail
        | _ => destruct x eqn:?
        end
      end ]; simpl in H).

(** One step of symbolic execution of [ST] code. *)
Ltac wp_step :=
  lazymatch goal with
  | |- wp (mbind _ _) _ _ => apply wp_bind
  | |- wp (mret _) _ _ => apply wp_ret
  | |- wp st_get _ _ => apply wp_get
  | |- wp (st_modify _) _ _ => apply wp_modify
  | |- wp (st_when _ _) _ _ => apply wp_when; intros ?
  | |- wp (st_lift (Ok _)) _ _ => apply wp_lift_ok
  | |- wp (if ?b then _ else _) _ _ => destruct b eqn:?
  | |- wp (match ?b with _ => _ end) _ _ => destruct b eqn:?
  end.
Ltac wp_steps := repeat (wp_step; cbv beta).

(** ** Generic lemmas *)

Lemma js_app s t : js (s +:+ t) = js s ++ js t.
Proof. induction s; simpl; [done|]. by f_equal. Qed.

Lemma js_inj s t : js s = js t → s = t.
Proof.
  revert t. induction s as [|a s IH]; intros [|b t] H; simplify_eq/=; [done|].
  f_equal; [|by apply IH].
  rewrite <-(ascii_N_embedding a), <-(ascii_N_embedding b). f_equal. lia.
Qed.

#[global] Arguments js : simpl never.

#[export] Instance js_Inj : Inj (=) (=) js.
Proof. intros ??. apply js_inj. Qed.

#[export] Instance jsInt_Inj : Inj (=) (=) jsInt.
Proof. intros x y H. unfold jsInt in H. by apply js_inj, pretty_Z_inj in H. Qed.

Lemma result_bind_ok {A B} (r : result A) (f : A → result B) b :
  r ≫= f = Ok b ↔ ∃ a, r = Ok a ∧ f a = Ok b.
Proof.
  destruct r as [a|m]; cbn; split.
  - eauto.
  - by intros (? & [= ->] & ?).
  - done.
  - by intros (? & ? & ?).
Qed.

#[export] Instance Ok_Inj {A} : Inj (=) (=) (@Ok A).
Proof. by intros ?? [= ->]. Qed.

Lemma check_ok b m : check b m = Ok () ↔ b = true.
Proof. by destruct b. Qed.

Lemma check_bind_ok {A} b m (k : result A) a : (check b m ≫= λ _, k) = Ok a ↔ b = true ∧ k = Ok a.
Proof. destruct b; simpl; split; [done|by intros []|done|by intros []]. Qed.

Lemma unit_bind_ok {A} (r : result ()) (k : result A) a : (r ≫= λ _, k) = Ok a ↔ r = Ok () ∧ k = Ok a.
Proof. destruct r as [[]|e]; simpl; split; [done|by intros []|done|by intros []]. Qed.

#[export] Hint Rewrite @check_ok @result_bind_ok : p2p.

Lemma filter_all {A} (P : A → Prop) `{!∀ x, Decision (P x)} (l : list A) :
  Forall P l → filter P l = l.
Proof.
  induction 1 as [|x l HP ? IH]; [done|].
  rewrite filter_cons_True by done. by rewrite IH.
Qed.

Lemma filter_none {A} (P : A → Prop) `{!∀ x, Decision (P x)} (l : list A) :
  Forall (λ x, ¬ P x) l → filter P l = [].
Proof.
  induction 1 as [|x l HP ? IH]; [done|].
  by rewrite filter_cons_False.
Qed.

(** ** Sums over finite maps *)
Section MapSum.
Context {A : Type}.
Implicit Types (f : A → Z) (m : gmap jsstr A).

Definition msum f m : Z := map_fold (λ _ x n, (f x + n)%Z) 0%Z m.

Lemma msum_empty f : msum f ∅ = 0%Z.
Proof. apply map_fold_empty. Qed.

Lemma msum_insert f m k x : m !! k = None → msum f (<[k:=x]> m) = (f x + msum f m)%Z.
Proof. intros. apply (map_fold_insert_L (λ _ x n, (f x + n)%Z)); [|done]. intros. lia. Qed.

Lemma msum_delete f m k x : m !! k = Some x → msum f m = (f x + msum f (delete k m))%Z.
Proof. intros. apply (map_fold_delete_L (λ _ x n, (f x + n)%Z)); [|done]. intros. lia. Qed.

Lemma msum_update f m k x y : m !! k = Some x → msum f (<[k:=y]> m) = (f y - f x + msum f m)%Z.
Proof.
  intros Hk. rewrite <-insert_delete_eq, msum_insert by apply lookup_delete_eq.
  rewrite (msum_delete f m k x) by done. lia.
Qed.

Lemma msum_nonneg f m : (∀ x, 0 <= f x)%Z → (0 <= msum f m)%Z.
Proof.
  intros Hf. induction m as [|k x m Hk IH] using map_ind; [by rewrite msum_empty|].
  rewrite msum_insert by done. specialize (Hf x). lia.
Qed.

Lemma msum_lookup_le f m k x : (∀ x, 0 <= f x)%Z → m !! k = Some x → (f x <= msum f m)%Z.
Proof.
  intros Hf Hk. rewrite (msum_delete f m k x) by done. pose proof (msum_nonneg f (delete k m) Hf). lia.
Qed.

Lemma msum_size m : msum (λ _, 1%Z) m = Z.of_nat (size m).
Proof.
  induction m as [|k x m Hk IH] using map_ind; [done|].
  rewrite msum_insert, map_size_insert_None by done. lia.
Qed.

End MapSum.
