(* ===== verification/Constants.v ===== *)
(** * Constants: the protocol and resource limits of [src/shared/constants.ts].

    Every numeric constant of the file, under its own name and with its own
    arithmetic.  [DEFAULT_SERVER_URL] is a string; [DEFAULT_ICE_SERVERS], a
    default configuration value, is in [ServerConfig]. *)
From S2P Require Import Prelude.
#[local] Open Scope Z_scope.

Definition PROTOCOL_VERSION : Z := 10.
Definition DEFAULT_SERVER_URL : jsstr := js "ws://127.0.0.1:8787/v1/ws".
Definition CODE_TTL_MS : Z := 10 * 60 * 1000.
Definition SESSION_TTL_MS : Z := 60 * 60 * 1000.
Definition MAX_FILE_BYTES : Z := 1024 * 1024 * 1024.
Definition MAX_FILES_PER_SESSION : Z := 100.
Definition MAX_FILE_NAME_CHARS : Z := 1024.
Definition MAX_MIME_CHARS : Z := 255.
Definition BROWSER_BLOB_FALLBACK_PEAK_MEMORY_BUDGET_BYTES : Z := 128 * 1024 * 1024.
Definition BROWSER_BLOB_FALLBACK_MAX_BYTES : Z := 32 * 1024 * 1024.
Definition MAX_OUTPUT_NAME_ATTEMPTS : Z := 256.
Definition CHUNK_SIZE : Z := 16 * 1024.
Definition DATA_CHANNEL_BUFFER_HIGH : Z := 8 * 1024 * 1024.
Definition DATA_CHANNEL_BUFFER_LOW : Z := 2 * 1024 * 1024.
Definition RECEIVE_QUEUE_MAX_BYTES : Z := DATA_CHANNEL_BUFFER_HIGH * 4.
Definition RECEIVE_QUEUE_MAX_MESSAGES : Z := 4096.
Definition CONNECT_TIMEOUT_MS : Z := 45 * 1000.
Definition PAKE_TIMEOUT_MS : Z := CONNECT_TIMEOUT_MS * 2 + 15 * 1000.
Definition PAIR_TIMEOUT_MS : Z := 5 * 60 * 1000.
Definition TRANSFER_CONTROL_TIMEOUT_MS : Z := 60 * 1000.
Definition SIGNALING_MAX_PAYLOAD_BYTES : Z := 256 * 1024.
Definition SIGNALING_MAX_BUFFERED_BYTES : Z := 1024 * 1024.
Definition ENCRYPTED_JSON_MAX_CHARS : Z := 192 * 1024.
Definition SIGNALING_MAX_MESSAGES_PER_MINUTE : Z := 240.
Definition SIGNALING_MAX_BAD_MESSAGES : Z := 3.
Definition SIGNALING_MAX_CONNECTIONS_PER_IP : Z := 32.
Definition SIGNALING_MAX_CONNECTION_ATTEMPTS_PER_MINUTE : Z := 120.
Definition SIGNALING_MAX_WAITING_CODES : Z := 10000.
Definition SIGNALING_MAX_SESSIONS : Z := 10000.
Definition SIGNALING_IDLE_TIMEOUT_MS : Z := 60 * 1000.
Definition SIGNALING_HEARTBEAT_INTERVAL_MS : Z := 30 * 1000.
Definition SIGNALING_CLOSE_GRACE_MS : Z := 5 * 1000.
Definition RECEIVER_MAX_PREPAIR_ATTEMPTS : Z := 3.
Definition MAX_QUEUED_ICE_CANDIDATES : Z := 256.
Definition SIGNALING_MAX_ICE_CANDIDATES_PER_PEER : Z := 512.
Definition MAX_BUFFERED_SIGNAL_MESSAGES : Z := 300.
Definition STATIC_MAX_FILE_BYTES : Z := 10 * 1024 * 1024.
Definition STATIC_MAX_IN_FLIGHT_BYTES : Z := 64 * 1024 * 1024.
Definition STATIC_MAX_REQUESTS_PER_MINUTE : Z := 300.
Definition TURN_REST_SECRET_MIN_BYTES : Z := 32.
Definition HTTP_HEADERS_TIMEOUT_MS : Z := 15 * 1000.
Definition HTTP_REQUEST_TIMEOUT_MS : Z := 30 * 1000.
Definition HTTP_KEEP_ALIVE_TIMEOUT_MS : Z := 5 * 1000.
Definition HTTP_MAX_HEADERS_COUNT : Z := 64.
Definition ICE_CONFIG_MAX_REQUESTS_PER_MINUTE : Z := 60.
Definition TURN_REST_CREDENTIALS_MAX_ISSUES_PER_MINUTE : Z := 20.

(** [Number.MAX_SAFE_INTEGER] and [Number.isSafeInteger] on an integer. *)
Definition MAX_SAFE_INTEGER : Z := 2 ^ 53 - 1.
Definition isSafeInteger (z : Z) : bool := (- MAX_SAFE_INTEGER <=? z) && (z <=? MAX_SAFE_INTEGER).
Definition isSafeNonNegativeInteger (z : Z) : bool := isSafeInteger z && (0 <=? z).
Definition isSafePositiveInteger (z : Z) : bool := isSafeInteger z && (0 <? z).

Lemma isSafeNonNegativeInteger_spec z :
  isSafeNonNegativeInteger z = true ↔ 0 <= z <= MAX_SAFE_INTEGER.
Proof. unfold isSafeNonNegativeInteger, isSafeInteger, MAX_SAFE_INTEGER. split; intros H; bool_hyps; [lia|].
  rewrite !andb_true_iff, !Z.leb_le. lia.
Qed.
