(* ===== verification/JsText.v ===== *)
(** * JsText: what the source uses of JavaScript's strings.

    Iteration by code point, UTF-8 lengths, the Unicode classes of the
    regular expressions, trimming and the index functions.  [toLowerCase] is
    the one function that needs the full Unicode case tables: it is a class
    parameter with its documented behaviour on ASCII.

    The UTF-8 length functions are those of the source (the same text is
    copied in several of its files); the theorems relate them to the length of
    the bytes a [TextEncoder] produces. *)
From S2P Require Import Prelude.
From S2P Require Import Constants.
#[local] Open Scope Z_scope.

(** [s.length] *)
Definition jslen (s : jsstr) : Z := Z.of_nat (length s).

Definition isHighSurrogate (c : Z) : bool := (0xd800 <=? c) && (c <=? 0xdbff).
Definition isLowSurrogate (c : Z) : bool := (0xdc00 <=? c) && (c <=? 0xdfff).

(** [for (const char of s)]: the code points, each as its one or two units. *)
Fixpoint chars (s : jsstr) : list jsstr :=
  match s with
  | [] => []
  | c :: r =>
    match r with
    | d :: r' => if isHighSurrogate c && isLowSurrogate d then [c; d] :: chars r' else [c] :: chars r
    | [] => [[c]]
    end
  end.

(** [char.codePointAt(0)] of a character of [chars] *)
Definition codePointAt0 (char : jsstr) : Z :=
  match char with
  | [c; d] => (c - 0xd800) * 1024 + (d - 0xdc00) + 0x10000
  | c :: _ => c
  | [] => 0
  end.

Definition codePoints (s : jsstr) : list Z := map codePointAt0 (chars s).

(** ** UTF-8 *)

(** The bytes [TextEncoder] writes for a code point (a lone surrogate is
    written as U+FFFD). *)
Definition utf8EncodePoint (cp : Z) : list Z :=
  let cp := if (0xd800 <=? cp) && (cp <=? 0xdfff) then 0xfffd else cp in
  if cp <? 0x80 then [cp]
  else if cp <? 0x800 then [0xc0 + cp / 64; 0x80 + cp mod 64]
  else if cp <? 0x10000 then [0xe0 + cp / 4096; 0x80 + (cp / 64) mod 64; 0x80 + cp mod 64]
  else [0xf0 + cp / 262144; 0x80 + (cp / 4096) mod 64; 0x80 + (cp / 64) mod 64; 0x80 + cp mod 64].

(** [new TextEncoder().encode(s)] *)
Definition utf8Encode (s : jsstr) : list Z := concat (map utf8EncodePoint (codePoints s)).

(** [utf8ByteLength] of [limits.ts] *)
Fixpoint utf8ByteLength (value : jsstr) : Z :=
  match value with
  | [] => 0
  | code :: r =>
    if code <? 0x80 then 1 + utf8ByteLength r
    else if code <? 0x800 then 2 + utf8ByteLength r
    else
      match r with
      | next :: r' =>
        if isHighSurrogate code && isLowSurrogate next then 4 + utf8ByteLength r'
        else 3 + utf8ByteLength r
      | [] => 3
      end
  end.

(** [utf8ByteLengthExceeds]: the same count, stopping once it passes the limit. *)
Fixpoint utf8ExceedsFrom (value : jsstr) (bytes maxBytes : Z) : bool :=
  match value with
  | [] => false
  | code :: r =>
    if code <? 0x80 then (maxBytes <? bytes + 1) || utf8ExceedsFrom r (bytes + 1) maxBytes
    else if code <? 0x800 then (maxBytes <? bytes + 2) || utf8ExceedsFrom r (bytes + 2) maxBytes
    else
      match r with
      | next :: r' =>
        if isHighSurrogate code && isLowSurrogate next
        then (maxBytes <? bytes + 4) || utf8ExceedsFrom r' (bytes + 4) maxBytes
        else (maxBytes <? bytes + 3) || utf8ExceedsFrom r (bytes + 3) maxBytes
      | [] => maxBytes <? bytes + 3
      end
  end.

Definition utf8ByteLengthExceeds (value : jsstr) (maxBytes : Z) : bool :=
  utf8ExceedsFrom value 0 maxBytes.

(** ** Character classes *)

Definition inRanges (ranges : list (Z * Z)) (cp : Z) : bool :=
  existsb (λ '(lo, hi), (lo <=? cp) && (cp <=? hi)) ranges.

(** \p{Cc} *)
Definition isCc : Z → bool := inRanges [(0, 0x1f); (0x7f, 0x9f)].

(** \p{Cf} *)
Definition isCf : Z → bool := inRanges
  [(0xad, 0xad); (0x600, 0x605); (0x61c, 0x61c); (0x6dd, 0x6dd); (0x70f, 0x70f); (0x890, 0x891);
   (0x8e2, 0x8e2); (0x180e, 0x180e); (0x200b, 0x200f); (0x202a, 0x202e); (0x2060, 0x2064);
   (0x2066, 0x206f); (0xfeff, 0xfeff); (0xfff9, 0xfffb); (0x110bd, 0x110bd); (0x110cd, 0x110cd);
   (0x13430, 0x1343f); (0x1bca0, 0x1bca3); (0x1d173, 0x1d17a); (0xe0001, 0xe0001); (0xe0020, 0xe007f)].

Definition isCcCf (cp : Z) : bool := isCc cp || isCf cp.

(** White space of [trim] and of the class \s *)
Definition isSpace : Z → bool := inRanges
  [(0x9, 0xd); (0x20, 0x20); (0xa0, 0xa0); (0x1680, 0x1680); (0x2000, 0x200a); (0x2028, 0x2029);
   (0x202f, 0x202f); (0x205f, 0x205f); (0x3000, 0x3000); (0xfeff, 0xfeff)].

(** /[\p{Cc}\p{Cf}]/u.test(s) *)
Definition hasControlOrFormat (s : jsstr) : bool := existsb isCcCf (codePoints s).

Definition isDigit (c : Z) : bool := (48 <=? c) && (c <=? 57).
Definition isLower (c : Z) : bool := (97 <=? c) && (c <=? 122).
Definition isUpper (c : Z) : bool := (65 <=? c) && (c <=? 90).
Definition isAlpha (c : Z) : bool := isLower c || isUpper c.

(** ** Strings *)

Fixpoint dropWhile (f : Z → bool) (s : jsstr) : jsstr :=
  match s with
  | [] => []
  | c :: r => if f c then dropWhile f r else s
  end.

Fixpoint takeWhile (f : Z → bool) (s : jsstr) : jsstr :=
  match s with
  | [] => []
  | c :: r => if f c then c :: takeWhile f r else []
  end.

Definition dropWhileEnd (f : Z → bool) (s : jsstr) : jsstr := reverse (dropWhile f (reverse s)).

(** [s.trim()] *)
Definition trim (s : jsstr) : jsstr := dropWhileEnd isSpace (dropWhile isSpace s).

Definition startsWith (p s : jsstr) : bool := bool_decide (take (length p) s = p).
Definition endsWith (p s : jsstr) : bool := bool_decide (drop (length s - length p) s = p).

(** [s.slice(a, b)] for [0 <= a <= b] *)
Definition slice (a b : Z) (s : jsstr) : jsstr := take (Z.to_nat (b - a)) (drop (Z.to_nat a) s).

(** [s.indexOf(c)] of a one-unit string *)
Fixpoint indexFrom (c : Z) (s : jsstr) (i : Z) : Z :=
  match s with
  | [] => -1
  | d :: r => if decide (d = c) then i else indexFrom c r (i + 1)
  end.
Definition indexOf (c : Z) (s : jsstr) : Z := indexFrom c s 0.

(** [s.lastIndexOf(c)] of a one-unit string *)
Fixpoint lastIndexFrom (c : Z) (s : jsstr) (i found : Z) : Z :=
  match s with
  | [] => found
  | d :: r => lastIndexFrom c r (i + 1) (if decide (d = c) then i else found)
  end.
Definition lastIndexOf (c : Z) (s : jsstr) : Z := lastIndexFrom c s 0 (-1).

Definition includesUnit (c : Z) (s : jsstr) : bool := bool_decide (c ∈ s).

(** [s.split(c)] of a one-unit separator *)
Fixpoint splitOn (c : Z) (s : jsstr) : list jsstr :=
  match s with
  | [] => [[]]
  | d :: r =>
    match splitOn c r with
    | [] => [[]]
    | w :: ws => if decide (d = c) then [] :: w :: ws else (d :: w) :: ws
    end
  end.

(** [parts.join(sep)] *)
Fixpoint joinWith (sep : jsstr) (l : list jsstr) : jsstr :=
  match l with
  | [] => []
  | [x] => x
  | x :: r => x ++ sep ++ joinWith sep r
  end.

Definition asciiLowerUnit (c : Z) : Z := if isUpper c then c + 32 else c.

(** [Number(s)] of a string of decimal digits *)
Definition decimalValue (s : jsstr) : Z := fold_left (λ n c, n * 10 + (c - 48)) s 0.

Definition allDigits (s : jsstr) : bool := negb (bool_decide (s = [])) && forallb isDigit s.

(** [s.toLowerCase()]; on ASCII strings it lowers the letters, and an ASCII
    unit in front is mapped by itself. *)
Class JsCase := {
  toLowerCase : jsstr → jsstr;
  toLowerCase_ascii s : Forall (λ c, 0 <= c < 128) s → toLowerCase s = map asciiLowerUnit s;
  toLowerCase_head c s : 0 <= c < 128 → head (toLowerCase (c :: s)) = Some (asciiLowerUnit c)
}.

(** A case mapping that only knows ASCII, for the witnesses. *)
Definition asciiCase : JsCase.
Proof. by refine {| toLowerCase := map asciiLowerUnit |}. Defined.

(** ** Lemmas *)

Definition pointBytes (cp : Z) : Z :=
  if cp <? 0x80 then 1 else if cp <? 0x800 then 2 else if cp <? 0x10000 then 3 else 4.

Lemma length_utf8EncodePoint cp : Z.of_nat (length (utf8EncodePoint cp)) = pointBytes cp.
Proof.
  unfold utf8EncodePoint, pointBytes.
  destruct ((0xd800 <=? cp) && (cp <=? 0xdfff)) eqn:E; bool_hyps.
  - rewrite (proj2 (Z.ltb_ge cp 0x80)), (proj2 (Z.ltb_ge cp 0x800)), (proj2 (Z.ltb_lt cp 0x10000)) by lia.
    done.
  - by repeat case_match.
Qed.

Lemma jsstr_ind2 (P : jsstr → Prop) :
  P [] → (∀ c, P [c]) → (∀ c d r, P r → P (d :: r) → P (c :: d :: r)) → ∀ s, P s.
Proof.
  intros H0 H1 H2 s. assert (P s ∧ ∀ c, P (c :: s)) as [??]; [|done].
  induction s as [|d r [IH1 IH2]]; split; auto.
Qed.

Lemma chars_cons2 c d r :
  chars (c :: d :: r) = if isHighSurrogate c && isLowSurrogate d then [c; d] :: chars r else [c] :: chars (d :: r).
Proof. done. Qed.

Lemma codePoints_unit c s : 0 <= c < 0xd800 → c ∈ s → c ∈ codePoints s.
Proof.
  intros Hc. remember (length s) as n eqn:Hn. revert s Hn. induction n as [n IH] using (well_founded_induction lt_wf); intros s -> Hin.
  destruct s as [|d [|e r]]; [by apply not_elem_of_nil in Hin|by apply list_elem_of_singleton in Hin as ->; left|]. unfold codePoints. rewrite chars_cons2.
  destruct (isHighSurrogate d && isLowSurrogate e) eqn:Es; cbn [map].
  - unfold isHighSurrogate, isLowSurrogate in Es. bool_hyps. rewrite !elem_of_cons in Hin. destruct Hin as [->|[->|Hin]]; [lia..|]. right. apply (IH (length r)); cbn [length]; [lia|done..].
  - apply elem_of_cons in Hin as [->|Hin]; [by left|]. right. apply (IH (length (e :: r))); cbn [length]; [lia|done..].
Qed.

Lemma codePoint_pair c d :
  isHighSurrogate c = true → isLowSurrogate d = true → 0x10000 <= codePointAt0 [c; d].
Proof. unfold isHighSurrogate, isLowSurrogate, codePointAt0. intros; bool_hyps. lia. Qed.

(** A code point of the basic plane is a unit of the string. *)
Lemma codePoints_inv cp s : cp ∈ codePoints s → cp < 0x10000 → cp ∈ s.
Proof.
  intros Hin Hlt. unfold codePoints in Hin. induction s as [|c|c d r IH1 IH2] using jsstr_ind2.
  - by apply not_elem_of_nil in Hin.
  - apply list_elem_of_singleton in Hin as ->. by left.
  - rewrite chars_cons2 in Hin. destruct (isHighSurrogate c && isLowSurrogate d) eqn:Es; cbn [map] in Hin; apply elem_of_cons in Hin as [Hc|Hin].
    + apply andb_true_iff in Es as [Hh Hl]. pose proof (codePoint_pair c d Hh Hl). lia.
    + right. right. auto.
    + rewrite Hc. by left.
    + right. auto.
Qed.

Definition wf_units (s : jsstr) : Prop := Forall (λ c, 0 <= c <= 0xffff) s.

Lemma utf8Encode_cons char s t :
  chars s = char :: chars t →
  Z.of_nat (length (utf8Encode s)) = pointBytes (codePointAt0 char) + Z.of_nat (length (utf8Encode t)).
Proof.
  intros E. unfold utf8Encode, codePoints. rewrite E. simpl.
  rewrite length_app, Nat2Z.inj_add, length_utf8EncodePoint. done.
Qed.

Lemma utf8ByteLength_cons2 c d r :
  utf8ByteLength (c :: d :: r) =
    if c <? 0x80 then 1 + utf8ByteLength (d :: r)
    else if c <? 0x800 then 2 + utf8ByteLength (d :: r)
    else if isHighSurrogate c && isLowSurrogate d then 4 + utf8ByteLength r
    else 3 + utf8ByteLength (d :: r).
Proof. done. Qed.

Lemma utf8ExceedsFrom_cons2 c d r bytes maxBytes :
  utf8ExceedsFrom (c :: d :: r) bytes maxBytes =
    if c <? 0x80 then (maxBytes <? bytes + 1) || utf8ExceedsFrom (d :: r) (bytes + 1) maxBytes
    else if c <? 0x800 then (maxBytes <? bytes + 2) || utf8ExceedsFrom (d :: r) (bytes + 2) maxBytes
    else if isHighSurrogate c && isLowSurrogate d
         then (maxBytes <? bytes + 4) || utf8ExceedsFrom r (bytes + 4) maxBytes
         else (maxBytes <? bytes + 3) || utf8ExceedsFrom (d :: r) (bytes + 3) maxBytes.
Proof. done. Qed.

(** The source's UTF-8 length is the number of bytes an encoder writes. *)
Theorem utf8ByteLength_encode (s : jsstr) :
  wf_units s → utf8ByteLength s = Z.of_nat (length (utf8Encode s)).
Proof.
  induction s as [|c|c d r IH1 IH2] using jsstr_ind2; intros Hwf; [done| |].
  - inversion_clear Hwf. rewrite (utf8Encode_cons [c] [c] []) by done. simpl.
    unfold pointBytes, utf8Encode. simpl. repeat case_match; bool_hyps; lia.
  - inversion_clear Hwf as [|?? Hc Hdr]. inversion Hdr as [|?? Hd Hr]; subst.
    rewrite utf8ByteLength_cons2.
    destruct (isHighSurrogate c && isLowSurrogate d) eqn:E.
    + rewrite (utf8Encode_cons [c; d] (c :: d :: r) r) by (simpl; by rewrite E).
      apply andb_true_iff in E as [E1 E2]. pose proof (codePoint_pair c d E1 E2).
      unfold isHighSurrogate in E1. bool_hyps.
      rewrite (proj2 (Z.ltb_ge c 0x80)), (proj2 (Z.ltb_ge c 0x800)) by lia.
      unfold pointBytes. rewrite !(proj2 (Z.ltb_ge (codePointAt0 _) _)) by lia. rewrite IH1 by done. lia.
    + rewrite (utf8Encode_cons [c] (c :: d :: r) (d :: r)) by (simpl; by rewrite E).
      rewrite <-IH2 by done. unfold pointBytes. simpl. repeat case_match; bool_hyps; lia.
Qed.

Lemma utf8ByteLength_encode_witness :
  wf_units [97; 0xe9; 0x20ac; 0xd83d; 0xde00] ∧
  utf8ByteLength [97; 0xe9; 0x20ac; 0xd83d; 0xde00] = 10 ∧
  utf8ByteLength [97; 0xe9; 0x20ac; 0xd83d; 0xde00] =
    Z.of_nat (length (utf8Encode [97; 0xe9; 0x20ac; 0xd83d; 0xde00])).
Proof.
  assert (wf_units [97; 0xe9; 0x20ac; 0xd83d; 0xde00]) by (repeat constructor; lia).
  split; [done|]. split; [reflexivity|]. by apply (utf8ByteLength_encode [97; 0xe9; 0x20ac; 0xd83d; 0xde00]).
Defined.

Lemma utf8ByteLength_nonneg s : 0 <= utf8ByteLength s.
Proof.
  induction s as [|c|c d r IH1 IH2] using jsstr_ind2; [done| |].
  - cbn. repeat case_match; lia.
  - rewrite utf8ByteLength_cons2. repeat case_match; lia.
Qed.

Lemma utf8ExceedsFrom_spec s bytes maxBytes :
  bytes <= maxBytes → utf8ExceedsFrom s bytes maxBytes = (maxBytes <? bytes + utf8ByteLength s).
Proof.
  revert bytes. induction s as [|c|c d r IH1 IH2] using jsstr_ind2; intros bytes Hb.
  - simpl. symmetry. apply Z.ltb_ge. lia.
  - cbn. repeat case_match; rewrite ?orb_false_r; f_equal; lia.
  - assert (Hstep : ∀ t n, (∀ b, b <= maxBytes → utf8ExceedsFrom t b maxBytes = (maxBytes <? b + utf8ByteLength t)) →
      (maxBytes <? bytes + n) || utf8ExceedsFrom t (bytes + n) maxBytes =
      (maxBytes <? bytes + (n + utf8ByteLength t))).
    { intros t n Ht. pose proof (utf8ByteLength_nonneg t).
      destruct (maxBytes <? bytes + n) eqn:E; bool_hyps; simpl.
      - symmetry. apply Z.ltb_lt. lia.
      - rewrite Ht by lia. f_equal. lia. }
    rewrite utf8ExceedsFrom_cons2, utf8ByteLength_cons2. repeat case_match; by apply Hstep.
Qed.

(** The early exit is exact. *)
Lemma utf8ByteLengthExceeds_spec s maxBytes :
  0 <= maxBytes → utf8ByteLengthExceeds s maxBytes = (maxBytes <? utf8ByteLength s).
Proof. intros. unfold utf8ByteLengthExceeds. by rewrite utf8ExceedsFrom_spec. Qed.

Lemma utf8ByteLength_ge_length s : jslen s <= utf8ByteLength s.
Proof.
  unfold jslen. induction s as [|c|c d r IH1 IH2] using jsstr_ind2; [done| |].
  - cbn. repeat case_match; lia.
  - rewrite utf8ByteLength_cons2. simpl length in *. repeat case_match; lia.
Qed.

(** ** Decimal texts *)

Definition digits (s : jsstr) : Prop := Forall (λ c, isDigit c = true) s.

Lemma pretty_N_char_digit x : isDigit (Z.of_N (N_of_ascii (pretty_N_char x))) = true.
Proof. destruct x as [|[[[[]|[]|]|[[]|[]|]|]|[[[]|[]|]|[[]|[]|]|]|]]; reflexivity. Qed.

Lemma pretty_N_go_digits x s : digits (js s) → digits (js (pretty_N_go x s)).
Proof.
  revert s. induction (N.lt_wf_0 x) as [x _ IH]; intros s Hs.
  destruct (decide (0 < x)%N) as [Hx|Hx].
  - rewrite pretty_N_go_step by done. apply IH; [by apply N.div_lt|].
    simpl. constructor; [apply pretty_N_char_digit|done].
  - assert (x = 0%N) as -> by lia. done.
Qed.

Lemma pretty_N_go_length k x s :
  (x < 10 ^ N.of_nat k)%N → (length (js (pretty_N_go x s)) <= k + length (js s))%nat.
Proof.
  revert x s. induction k as [|k IH]; intros x s Hx.
  - change (10 ^ N.of_nat 0)%N with 1%N in Hx. assert (x = 0%N) as -> by lia. done.
  - destruct (decide (0 < x)%N) as [Hp|Hp].
    + rewrite pretty_N_go_step by done.
      etrans; [apply IH|simpl; lia].
      rewrite Nat2N.inj_succ, N.pow_succ_r' in Hx. apply N.Div0.div_lt_upper_bound. lia.
    + assert (x = 0%N) as -> by lia. rewrite pretty_N_go_0. lia.
Qed.

(** The decimal text of a natural number below [10^k] is at most [k] digits. *)
Lemma jsInt_digits n : 0 <= n → digits (jsInt n) ∧ jsInt n ≠ [].
Proof.
  intros Hn. assert (Hne : digits (jsInt n)).
  { unfold jsInt, pretty, pretty_Z. destruct n as [|n|n]; [|..|lia].
    - simpl. by repeat constructor.
    - unfold pretty, pretty_positive, pretty, pretty_N. case_decide; [done|].
      apply pretty_N_go_digits. constructor. }
  split; [done|]. intros E. destruct n as [|n|n]; [done| |lia].
  unfold jsInt, pretty, pretty_Z, pretty, pretty_positive, pretty, pretty_N in E.
  case_decide; [done|]. rewrite pretty_N_go_step in E by lia.
  assert (∀ x s, (length (js s) <= length (js (pretty_N_go x s)))%nat) as Hmono.
  { intros x. induction (N.lt_wf_0 x) as [x _ IH]; intros s.
    destruct (decide (0 < x)%N) as [Hx|Hx].
    - rewrite pretty_N_go_step by done. etrans; [|apply IH, N.div_lt; [done|lia]]. simpl. lia.
    - by assert (x = 0%N) as -> by lia. }
  specialize (Hmono (N.pos n / 10)%N (String (pretty_N_char (N.pos n mod 10)) "")).
  rewrite E in Hmono. simpl in Hmono. lia.
Qed.

Lemma jsInt_length k n :
  (0 < k)%nat → 0 <= n < 10 ^ Z.of_nat k → (length (jsInt n) <= k)%nat.
Proof.
  intros Hk Hn. unfold jsInt, pretty, pretty_Z. destruct n as [|n|n]; [simpl; lia| |lia].
  unfold pretty, pretty_positive, pretty, pretty_N. case_decide; [simpl; lia|].
  etrans; [apply (pretty_N_go_length k)|simpl; lia].
  apply N2Z.inj_lt. rewrite N2Z.inj_pow, nat_N_Z. simpl. lia.
Qed.

(** A positive integer is written without a leading zero. *)
Lemma pretty_N_go_head x s :
  (0 < x)%N → ∃ c r, js (pretty_N_go x s) = c :: r ∧ isDigit c = true ∧ c ≠ 48.
Proof.
  revert s. induction (N.lt_wf_0 x) as [x _ IH]; intros s Hx.
  rewrite pretty_N_go_step by done.
  destruct (decide (0 < x / 10)%N) as [Hq|Hq].
  - apply IH; [by apply N.div_lt|done].
  - assert (Hz : (x / 10 = 0)%N) by (by apply N.le_0_r, N.nlt_ge). rewrite Hz, pretty_N_go_0.
    assert (Hlt : (x < 10)%N) by (by apply N.div_small_iff).
    rewrite N.mod_small by done.
    eexists _, _. split; [reflexivity|]. split; [apply pretty_N_char_digit|].
    destruct x as [|p]; [lia|]. by destruct p as [[[[]|[]|]|[[]|[]|]|]|[[[]|[]|]|[[]|[]|]|]|].
Qed.

Lemma jsInt_pos_head p : ∃ c r, jsInt (Zpos p) = c :: r ∧ isDigit c = true ∧ c ≠ 48.
Proof.
  unfold jsInt, pretty, pretty_Z, pretty, pretty_positive, pretty, pretty_N.
  case_decide; [done|]. by apply pretty_N_go_head.
Qed.

Lemma jsInt_neg p : jsInt (Zneg p) = 45 :: jsInt (Zpos p).
Proof. done. Qed.

Lemma takeWhile_app_stop f s c r :
  Forall (λ c, f c = true) s → f c = false → takeWhile f (s ++ c :: r) = s ∧ dropWhile f (s ++ c :: r) = c :: r.
Proof.
  intros Hs Hc. induction Hs as [|d s Hd Hs [IH1 IH2]]; simpl; [by rewrite Hc|].
  rewrite Hd. split; [by f_equal|done].
Qed.

(** ** Splitting and joining *)

Lemma joinWith_cons sep x l :
  joinWith sep (x :: l) = match l with [] => x | _ => x ++ sep ++ joinWith sep l end.
Proof. by destruct l. Qed.

Lemma splitOn_nonempty c s : splitOn c s ≠ [].
Proof. destruct s as [|d s]; [done|]. simpl. destruct (splitOn c s); [done|]. by case_decide. Qed.

Lemma joinWith_splitOn c s : joinWith [c] (splitOn c s) = s.
Proof.
  induction s as [|d s IH]; [done|]. simpl. pose proof (splitOn_nonempty c s).
  destruct (splitOn c s) as [|w ws] eqn:E; [done|]. case_decide as Hd.
  - subst d. rewrite joinWith_cons. cbn [app]. f_equal. exact IH.
  - rewrite joinWith_cons in *. by destruct ws; simpl in *; f_equal.
Qed.

Lemma splitOn_part c s w : w ∈ splitOn c s → c ∉ w.
Proof.
  revert w. induction s as [|d s IH]; intros w; simpl.
  - rewrite list_elem_of_singleton. intros ->. apply not_elem_of_nil.
  - destruct (splitOn c s) as [|x ws] eqn:E; [by apply splitOn_nonempty in E|].
    case_decide; rewrite ?elem_of_cons; intros Hw.
    + destruct Hw as [-> | Hw]; [apply not_elem_of_nil|]. apply IH. by rewrite elem_of_cons.
    + destruct Hw as [-> | Hw]; [|apply IH; rewrite elem_of_cons; auto].
      rewrite not_elem_of_cons. split; [congruence|]. apply IH. left.
Qed.

Lemma splitOn_app c w s : c ∉ w → splitOn c (w ++ c :: s) = w :: splitOn c s.
Proof.
  induction w as [|d w IH]; intros Hw; simpl.
  - destruct (splitOn c s) eqn:E; [by apply splitOn_nonempty in E|]. by rewrite decide_True.
  - rewrite not_elem_of_cons in Hw. destruct Hw as [Hd Hw]. rewrite IH by done. by rewrite decide_False.
Qed.

Lemma splitOn_single c w : c ∉ w → splitOn c w = [w].
Proof.
  induction w as [|d w IH]; intros Hw; [done|]. simpl. rewrite not_elem_of_cons in Hw. destruct Hw as [Hd Hw].
  rewrite IH by done. by rewrite decide_False.
Qed.

(** ** Decimal values *)

Lemma decimalValue_app s c : decimalValue (s ++ [c]) = decimalValue s * 10 + (c - 48).
Proof. unfold decimalValue. by rewrite fold_left_app. Qed.

Lemma decimalValue_nonneg s : digits s → 0 <= decimalValue s.
Proof.
  induction s as [|c s IH] using rev_ind; [done|]. intros Hd. apply Forall_app in Hd as [Hs Hc].
  inversion_clear Hc as [|?? Hd _]. rewrite decimalValue_app. unfold isDigit in Hd. bool_hyps.
  specialize (IH Hs). lia.
Qed.

Lemma decimalValue_pos c s : digits (c :: s) → c ≠ 48 → 0 < decimalValue (c :: s).
Proof.
  intros Hd Hc. induction s as [|d s IH] using rev_ind.
  - inversion_clear Hd as [|?? H _]. unfold isDigit, decimalValue in *. bool_hyps. simpl. lia.
  - change (c :: s ++ [d]) with ((c :: s) ++ [d]) in *. apply Forall_app in Hd as [Hs Hx].
    inversion_clear Hx as [|?? H _]. rewrite decimalValue_app. unfold isDigit in H. bool_hyps.
    specialize (IH Hs). lia.
Qed.

Lemma pretty_N_char_unit k : (k < 10)%N → Z.of_N (N_of_ascii (pretty_N_char k)) = 48 + Z.of_N k.
Proof. destruct k as [|[[[[]|[]|]|[[]|[]|]|]|[[[]|[]|]|[[]|[]|]|]|]]; simpl; try reflexivity; lia. Qed.

Lemma js_cons a r : js (String a r) = Z.of_N (N_of_ascii a) :: js r.
Proof. done. Qed.

Lemma pretty_N_go_decimalValue c s t :
  digits (c :: s) → c ≠ 48 → js (pretty_N_go (Z.to_N (decimalValue (c :: s))) t) = (c :: s) ++ js t.
Proof.
  intros Hd Hc. revert t. induction s as [|d s IH] using rev_ind; intros t.
  - pose proof (decimalValue_pos c [] Hd Hc). inversion_clear Hd as [|?? H0 _]. unfold decimalValue, isDigit in *. bool_hyps.
    cbn [fold_left] in *. rewrite pretty_N_go_step by lia. rewrite N.div_small, N.mod_small by lia.
    rewrite pretty_N_go_0. rewrite js_cons. cbn [app]. rewrite pretty_N_char_unit by lia. f_equal. lia.
  - change (c :: s ++ [d]) with ((c :: s) ++ [d]) in *. pose proof Hd as Hall.
    apply Forall_app in Hd as [Hs Hx]. inversion_clear Hx as [|?? H _].
    pose proof (decimalValue_pos c s Hs Hc). rewrite decimalValue_app. unfold isDigit in H. bool_hyps.
    set (v := decimalValue (c :: s)) in *.
    assert (Hk : Z.to_N (v * 10 + (d - 48)) = (10 * Z.to_N v + Z.to_N (d - 48))%N) by lia.
    rewrite Hk, pretty_N_go_step by lia.
    rewrite <-(N.div_unique (10 * Z.to_N v + Z.to_N (d - 48)) 10 (Z.to_N v) (Z.to_N (d - 48))) by lia.
    rewrite <-(N.mod_unique (10 * Z.to_N v + Z.to_N (d - 48)) 10 (Z.to_N v) (Z.to_N (d - 48))) by lia.
    rewrite IH by done. rewrite <-app_assoc. rewrite js_cons. cbn [app]. rewrite pretty_N_char_unit by lia.
    do 2 f_equal. f_equal. lia.
Qed.

(** Decimal texts without a leading zero and integers correspond. *)
Lemma jsInt_decimalValue c s : digits (c :: s) → c ≠ 48 → jsInt (decimalValue (c :: s)) = c :: s.
Proof.
  intros Hd Hc. pose proof (decimalValue_pos c s Hd Hc) as Hp. pose proof (pretty_N_go_decimalValue c s "" Hd Hc) as Hg.
  destruct (decimalValue (c :: s)) as [|p|p]; [lia| |lia].
  unfold jsInt, pretty, pretty_Z, pretty, pretty_positive, pretty, pretty_N. case_decide; [done|].
  simpl in Hg. rewrite Hg. by rewrite app_nil_r.
Qed.

Lemma decimalValue_jsInt n : 0 <= n → decimalValue (jsInt n) = n.
Proof.
  intros Hn. destruct n as [|p|p]; [done| |lia]. apply (inj jsInt).
  destruct (jsInt_digits (Zpos p)) as [Hd _]; [lia|]. destruct (jsInt_pos_head p) as (c & r & E & _ & H48).
  rewrite E in *. by apply jsInt_decimalValue.
Qed.

(** ** Cutting strings *)

Lemma chars_concat s : concat (chars s) = s.
Proof.
  induction s as [|c|c d r IH1 IH2] using jsstr_ind2; [done..|].
  rewrite chars_cons2. case_match; cbn [concat app]; by rewrite ?IH1, ?IH2.
Qed.

Lemma utf8ByteLength_low d t : isLowSurrogate d = true → utf8ByteLength (d :: t) = 3 + utf8ByteLength t.
Proof.
  unfold isLowSurrogate. intros; bool_hyps. destruct t as [|e t].
  - simpl. repeat case_match; bool_hyps; lia.
  - rewrite utf8ByteLength_cons2. unfold isHighSurrogate. rewrite (proj2 (Z.leb_gt d 0xdbff)) by lia.
    rewrite andb_false_r. simpl. repeat case_match; bool_hyps; lia.
Qed.

(** Joining can only pair surrogates up. *)
Lemma utf8ByteLength_app_le s t : utf8ByteLength (s ++ t) <= utf8ByteLength s + utf8ByteLength t.
Proof.
  induction s as [|c|c d r IH1 IH2] using jsstr_ind2; [simpl; lia| |].
  - destruct t as [|d t]; [rewrite app_nil_r; simpl; lia|]. cbn [app]. rewrite utf8ByteLength_cons2.
    destruct (isHighSurrogate c && isLowSurrogate d) eqn:E.
    + apply andb_true_iff in E as [Ec Ed]. rewrite (utf8ByteLength_low d t Ed). unfold isHighSurrogate in Ec. bool_hyps.
      cbn [utf8ByteLength]. repeat case_match; lia.
    + change (utf8ByteLength [c]) with (if c <? 0x80 then 1 else if c <? 0x800 then 2 else 3).
      repeat case_match; lia.
  - cbn [app] in *. rewrite !utf8ByteLength_cons2. repeat case_match; lia.
Qed.

Lemma dropWhile_suffix f s : ∃ t, s = t ++ dropWhile f s ∧ Forall (λ c, f c = true) t.
Proof.
  induction s as [|c s (t & E & Ht)]; simpl; [by exists []|]. destruct (f c) eqn:Ef; [|by exists []].
  exists (c :: t). split; [simpl; by f_equal|by constructor].
Qed.

Lemma dropWhile_head f s c r : dropWhile f s = c :: r → f c = false.
Proof. induction s as [|d s IH]; simpl; [done|]. destruct (f d) eqn:Ef; [done|]. by intros [= -> ->]. Qed.

Lemma dropWhileEnd_prefix f s : ∃ t, s = dropWhileEnd f s ++ t ∧ Forall (λ c, f c = true) t.
Proof.
  unfold dropWhileEnd. destruct (dropWhile_suffix f (reverse s)) as (t & E & Ht). exists (reverse t).
  split; [|by apply Forall_reverse]. rewrite <-reverse_app, <-E. by rewrite reverse_involutive.
Qed.

(** The units of a cut string are units of the string. *)
Lemma Forall_dropWhile (P : Z → Prop) f s : Forall P s → Forall P (dropWhile f s).
Proof. intros H. destruct (dropWhile_suffix f s) as (t & E & _). rewrite E in H. by apply Forall_app in H as [_ ?]. Qed.
Lemma Forall_dropWhileEnd (P : Z → Prop) f s : Forall P s → Forall P (dropWhileEnd f s).
Proof. intros H. destruct (dropWhileEnd_prefix f s) as (t & E & _). rewrite E in H. by apply Forall_app in H as [? _]. Qed.
Lemma Forall_takeWhile (P : Z → Prop) f s : Forall P s → Forall P (takeWhile f s).
Proof. induction 1; simpl; [constructor|]. case_match; by constructor. Qed.
Lemma takeWhile_dropWhile f s : takeWhile f s ++ dropWhile f s = s.
Proof. induction s as [|c s IH]; simpl; [done|]. case_match; simpl; [by f_equal|done]. Qed.
Lemma takeWhile_all f s : Forall (λ c, f c = true) (takeWhile f s).
Proof. induction s; simpl; [constructor|]. destruct (f _) eqn:?; by constructor. Qed.
Lemma dropWhile_none f s : Forall (λ c, f c = false) s → dropWhile f s = s.
Proof. destruct 1 as [|c s Hc _]; [done|]. simpl. by rewrite Hc. Qed.
Lemma dropWhileEnd_none f s : Forall (λ c, f c = false) s → dropWhileEnd f s = s.
Proof. intros. unfold dropWhileEnd. rewrite dropWhile_none by (by apply Forall_reverse). apply reverse_involutive. Qed.
Lemma takeWhile_id f s : Forall (λ c, f c = true) s → takeWhile f s = s.
Proof. induction 1 as [|c s Hc _ IH]; [done|]. simpl. by rewrite Hc, IH. Qed.
Lemma Forall_slice (P : Z → Prop) a b s : Forall P s → Forall P (slice a b s).
Proof. intros. unfold slice. by apply Forall_take, Forall_drop. Qed.

#[export] Hint Resolve Forall_dropWhile Forall_dropWhileEnd Forall_takeWhile Forall_slice : p2p.

Lemma notIn_ranges l c : Forall (λ '(lo, hi), c < lo ∨ hi < c) l → inRanges l c = false.
Proof.
  induction 1 as [|[lo hi] l Hc _ IH]; [done|]. unfold inRanges in *. simpl. rewrite IH, orb_false_r.
  apply andb_false_iff. rewrite !Z.leb_gt. lia.
Qed.

Lemma isSpace_ascii c : 32 < c < 160 → isSpace c = false.
Proof. intros. apply notIn_ranges. repeat constructor; lia. Qed.

Lemma utf8ByteLength_ascii s : Forall (λ c, 0 <= c < 128) s → utf8ByteLength s = jslen s.
Proof.
  unfold jslen. induction 1 as [|c s Hc Hs IH]; [done|]. simpl. rewrite (proj2 (Z.ltb_lt c 0x80)) by lia. lia.
Qed.
