(* ===== verification/JsValue.v ===== *)
(** * JsValue: untrusted JavaScript values and the property checks made on them.

    The validators of the source ([messages.ts], [limits.ts],
    [public-manifest.ts], [transfer.ts], [security.ts]) take a value of type
    [unknown] and read it only through [typeof], [Array.isArray],
    [Object.getPrototypeOf], [Reflect.ownKeys] and property descriptors.  A
    value is a finite tree with exactly that information.  A cyclic object is
    not such a tree: the source's [seen] sets, which only reject those, have no
    counterpart. *)
From S2P Require Import Prelude.
From S2P Require Import Constants.
From S2P Require Import JsText.
#[local] Open Scope Z_scope.

(** A number: an integer below 10^21 in magnitude (the ones [String] writes
    with plain digits; negative zero is zero), another finite number with the
    text [String] gives it, or NaN or an infinity. *)
Inductive jsnum :=
| NInt (z : Z)
| NReal (text : jsstr)
| NNotFinite.
#[export] Instance jsnum_eq_dec : EqDecision jsnum.
Proof. solve_decision. Defined.

(** The values whose [typeof] is "function", "symbol" or "bigint". *)
Inductive opaque := OFunction | OSymbol | OBigInt.
#[export] Instance opaque_eq_dec : EqDecision opaque.
Proof. solve_decision. Defined.

(** A property key, and what [getOwnPropertyDescriptor] says of a property. *)
Inductive key := KStr (s : jsstr) | KSym (id : Z).
#[export] Instance key_eq_dec : EqDecision key.
Proof. solve_decision. Defined.

Inductive prop (A : Type) :=
| PData (enumerable : bool) (value : A)
| PAccessor (enumerable : bool).
Arguments PData {A} enumerable value.
Arguments PAccessor {A} enumerable.

(** [Object.getPrototypeOf]: [Object.prototype], [null] or anything else. *)
Inductive proto := ObjectPrototype | NullPrototype | OtherPrototype.

(** A value.  An array lists its slots in index order, a hole being [None]; an
    object lists its own properties in the order of [Reflect.ownKeys], each
    key once. *)
#[warnings="-register-all"]
Inductive jsval :=
| JUndefined
| JNull
| JBool (b : bool)
| JNum (n : jsnum)
| JStr (s : jsstr)
| JOther (o : opaque)
| JArr (items : list (option (prop jsval)))
| JObj (p : proto) (props : list (key * prop jsval)).

Abbreviation jint z := (JNum (NInt z)).
Abbreviation jstr s := (JStr (js s)).

(** A plain object or array literal of the source, or of [JSON.parse]. *)
Definition obj (props : list (jsstr * jsval)) : jsval :=
  JObj ObjectPrototype (map (λ kv, (KStr kv.1, PData true kv.2)) props).
Definition arr (items : list jsval) : jsval := JArr (map (λ v, Some (PData true v)) items).

(** ** Reading properties *)

(** The own properties of an array: its slots and [length]. *)
Fixpoint arrayProps (index : Z) (items : list (option (prop jsval))) : list (key * prop jsval) :=
  match items with
  | [] => []
  | Some p :: r => (KStr (jsInt index), p) :: arrayProps (index + 1) r
  | None :: r => arrayProps (index + 1) r
  end.

Definition ownProps (v : jsval) : list (key * prop jsval) :=
  match v with
  | JObj _ props => props
  | JArr items => arrayProps 0 items ++ [(KStr (js "length"), PData false (jint (Z.of_nat (length items))))]
  | _ => []
  end.

(** [Object.getOwnPropertyDescriptor(value, key)] on an object's properties *)
Fixpoint getOwnProperty (k : key) (props : list (key * prop jsval)) : option (prop jsval) :=
  match props with
  | [] => None
  | (k', p) :: r => if decide (k = k') then Some p else getOwnProperty k r
  end.

Definition isObjectLike (v : jsval) : bool :=
  match v with JArr _ | JObj _ _ => true | _ => false end.

(** [ownDataValue] *)
Definition ownDataValue (v : jsval) (k : jsstr) : jsval :=
  match getOwnProperty (KStr k) (ownProps v) with
  | Some (PData _ value) => value
  | _ => JUndefined
  end.

(** [ownArrayDataValue] *)
Definition ownArrayDataValue (v : jsval) (index : Z) : jsval := ownDataValue v (jsInt index).

(** [!descriptor || !descriptor.enumerable || !("value" in descriptor)], negated *)
Definition enumerableData (p : prop jsval) : bool :=
  match p with PData e _ => e | PAccessor _ => false end.

(** [hasOnlyDataProperties] *)
Definition hasOnlyDataProperties (v : jsval) : bool :=
  forallb (λ kp, enumerableData kp.2) (ownProps v).

(** [isObject] of [messages.ts], [isPlainRecord] of [limits.ts] and
    [isPlainObject] of [security.ts] and [transfer.ts] *)
Definition isObject (v : jsval) : bool :=
  match v with
  | JObj (ObjectPrototype | NullPrototype) _ => hasOnlyDataProperties v
  | _ => false
  end.

(** [hasOnlyKeys] *)
Definition hasOnlyKeys (v : jsval) (allowed : list jsstr) : bool :=
  forallb (λ kp,
    match kp.1 with
    | KStr k => bool_decide (k ∈ allowed) && enumerableData kp.2
    | KSym _ => false
    end) (ownProps v).

(** [hasOwnKey], and [hasOwnProperty.call(value, key)] *)
Definition hasOwnKey (v : jsval) (k : jsstr) : bool :=
  match getOwnProperty (KStr k) (ownProps v) with Some _ => true | None => false end.

(** [Object.getOwnPropertySymbols(value).length > 0] *)
Definition hasSymbols (v : jsval) : bool :=
  existsb (λ kp, match kp.1 with KSym _ => true | KStr _ => false end) (ownProps v).

(** ** Typed views *)

(** [v === "literal"] *)
Definition isLit (v : jsval) (s : jsstr) : bool :=
  match v with JStr t => bool_decide (t = s) | _ => false end.
Definition isUndefined (v : jsval) : bool := match v with JUndefined => true | _ => false end.
Definition isNullish (v : jsval) : bool := match v with JUndefined | JNull => true | _ => false end.

(** [typeof v === "number" && Number.isSafeInteger(v) && lo <= v && v <= hi],
    for bounds that are safe integers *)
Definition isIntegerIn (lo hi : Z) (v : jsval) : bool :=
  match v with jint z => (lo <=? z) && (z <=? hi) | _ => false end.

(** [isSafeNonNegativeInteger] of [messages.ts] *)
Definition isSafeNonNegative (v : jsval) : bool := isIntegerIn 0 MAX_SAFE_INTEGER v.

(** A fold over the data properties of a tree of values; [combine] gets the key
    of the property, if it has one. *)
Section Fold.
Context {A : Type} (leaf : A) (combine : option key → A → A → A) (finish : A → A).

Fixpoint jsonFold (v : jsval) : A :=
  match v with
  | JArr items =>
    finish ((fix go items :=
      match items with
      | [] => leaf
      | Some (PData _ x) :: r => combine None (jsonFold x) (go r)
      | _ :: r => go r
      end) items)
  | JObj _ props =>
    finish ((fix go props :=
      match props with
      | [] => leaf
      | (k, PData _ x) :: r => combine (Some k) (jsonFold x) (go r)
      | _ :: r => go r
      end) props)
  | _ => leaf
  end.

Lemma jsonFold_arr l : jsonFold (arr l) = finish (foldr (λ v, combine None (jsonFold v)) leaf l).
Proof.
  unfold arr. simpl. f_equal. match goal with |- ?f _ = _ => set (go := f) end.
  induction l as [|v l IH]; [done|]. simpl. by rewrite <-IH.
Qed.

Lemma jsonFold_obj l :
  jsonFold (obj l) = finish (foldr (λ kv, combine (Some (KStr kv.1)) (jsonFold kv.2)) leaf l).
Proof.
  unfold obj. simpl. f_equal. match goal with |- ?f _ = _ => set (go := f) end.
  induction l as [|v l IH]; [done|]. simpl. by rewrite <-IH.
Qed.

End Fold.

(** The arrays and objects of a tree, its height, and whether it has no object
    with a [toJSON] property. *)
Definition jsonNodes : jsval → Z := jsonFold 0 (λ _ a b, a + b) (λ n, n + 1).
Definition jsonHeight : jsval → Z := jsonFold 0 (λ _ a b, Z.max (a + 1) b) id.
Definition noToJSON : jsval → bool :=
  jsonFold true (λ k a b, negb (bool_decide (k = Some (KStr (js "toJSON")))) && a && b) id.

(** ** Lemmas *)

Lemma getOwnProperty_app k l1 l2 :
  getOwnProperty k (l1 ++ l2) =
    match getOwnProperty k l1 with Some p => Some p | None => getOwnProperty k l2 end.
Proof. induction l1 as [|[k' p] l1 IH]; simpl; [done|]. by case_decide. Qed.

Lemma arrayProps_lookup items start i :
  start <= i →
  getOwnProperty (KStr (jsInt i)) (arrayProps start items) =
    match items !! Z.to_nat (i - start) with Some o => o | None => None end.
Proof.
  revert start. induction items as [|o items IH]; intros start Hi; [done|].
  destruct (decide (i = start)) as [->|Hne].
  - rewrite Z.sub_diag. simpl. destruct o as [p|]; simpl.
    + by rewrite decide_True.
    + assert (H : ∀ l s, start < s → getOwnProperty (KStr (jsInt start)) (arrayProps s l) = None).
      { clear. induction l as [|[p|] l IH]; intros s Hs; simpl; [done| |by apply IH; lia].
        rewrite decide_False by (intros [= H%(inj jsInt)]; lia). apply IH. lia. }
      apply H. lia.
  - replace (Z.to_nat (i - start)) with (S (Z.to_nat (i - (start + 1)))) by lia. simpl.
    destruct o as [p|]; simpl; rewrite ?decide_False by (intros [= H%(inj jsInt)]; lia); apply IH; lia.
Qed.

Lemma digits_not_length z : jsInt z ≠ js "length".
Proof.
  destruct z as [|p|p]; [done| |by rewrite jsInt_neg].
  intros H. destruct (jsInt_pos_head p) as (c & r & E & Hc & _).
  rewrite E in H. by injection H as -> _.
Qed.

(** Reading a slot of an array by its index. *)
Lemma ownArrayDataValue_arr items i :
  0 <= i →
  ownArrayDataValue (JArr items) i =
    match items !! Z.to_nat i with Some (Some (PData _ v)) => v | _ => JUndefined end.
Proof.
  intros Hi. unfold ownArrayDataValue, ownDataValue. cbn [ownProps].
  rewrite getOwnProperty_app, arrayProps_lookup by done. rewrite Z.sub_0_r.
  destruct (items !! Z.to_nat i) as [[[]|]|]; try done; simpl;
    rewrite decide_False by (intros [= H]; by apply digits_not_length in H); done.
Qed.

Lemma ownArrayDataValue_literal items i :
  0 <= i → ownArrayDataValue (arr items) i = default JUndefined (items !! Z.to_nat i).
Proof.
  intros. unfold arr. rewrite ownArrayDataValue_arr, list_lookup_fmap by done.
  by destruct (items !! Z.to_nat i).
Qed.

Lemma isIntegerIn_spec lo hi v : isIntegerIn lo hi v = true ↔ ∃ z, v = jint z ∧ lo <= z <= hi.
Proof.
  split.
  - destruct v as [| | |[]| | | |]; simpl; intros H; try done. bool_hyps. eauto.
  - intros (z & -> & ?). simpl. apply andb_true_iff. rewrite !Z.leb_le. lia.
Qed.

Lemma isLit_spec v s : isLit v s = true ↔ v = JStr s.
Proof.
  split.
  - destruct v; simpl; intros H; try done. bool_hyps. by subst.
  - intros ->. simpl. by apply bool_decide_eq_true.
Qed.

#[export] Hint Rewrite isIntegerIn_spec isLit_spec : p2p.

(** *** Literals *)

Lemma isObject_literal l : isObject (obj l) = true.
Proof.
  unfold obj, isObject, hasOnlyDataProperties. simpl. induction l as [|[k v] l IH]; [done|]. simpl. done.
Qed.

Lemma jsonHeight_arr l : jsonHeight (arr l) = foldr (λ v n, Z.max (jsonHeight v + 1) n) 0 l.
Proof. unfold jsonHeight. by rewrite jsonFold_arr. Qed.

Lemma jsonHeight_obj l : jsonHeight (obj l) = foldr (λ kv n, Z.max (jsonHeight kv.2 + 1) n) 0 l.
Proof. unfold jsonHeight. by rewrite jsonFold_obj. Qed.

Lemma noToJSON_arr l : noToJSON (arr l) = foldr (λ v b, noToJSON v && b) true l.
Proof. unfold noToJSON. rewrite jsonFold_arr. simpl. done. Qed.

Lemma noToJSON_obj l :
  noToJSON (obj l) = foldr (λ kv b, negb (bool_decide (kv.1 = js "toJSON")) && noToJSON kv.2 && b) true l.
Proof.
  unfold noToJSON. rewrite jsonFold_obj. unfold id. induction l as [|kv l IH]; [done|]. cbn [foldr]. rewrite IH.
  assert (∀ k, Some (KStr k) = Some (KStr (js "toJSON")) ↔ k = js "toJSON") as Hk by (split; congruence).
  by rewrite (bool_decide_ext _ _ (Hk kv.1)).
Qed.

Lemma foldr_max_ge {A} (f : A → Z) l x : x ∈ l → f x <= foldr (λ x n, Z.max (f x) n) 0 l.
Proof. induction 1; simpl; lia. Qed.

Lemma literal_plain l : isObject (obj l) = true ∧ hasSymbols (obj l) = false.
Proof.
  split; [apply isObject_literal|]. unfold obj, hasSymbols. simpl. induction l as [|[k v] l IH]; [done|]. simpl. done.
Qed.

Lemma literal_toJSON_iff l :
  noToJSON (obj l) = true ↔ hasOwnKey (obj l) (js "toJSON") = false ∧ Forall (λ kv, noToJSON kv.2 = true) l.
Proof.
  rewrite noToJSON_obj. unfold hasOwnKey, obj. simpl. induction l as [|[k v] l IH]; [by split; [by split|]|].
  cbn [foldr map getOwnProperty fst snd]. rewrite !andb_true_iff, negb_true_iff, bool_decide_eq_false, Forall_cons, IH.
  cbn [snd]. destruct (decide (KStr (js "toJSON") = KStr k)) as [Hk|Hk].
  - injection Hk as <-. naive_solver.
  - assert (k ≠ js "toJSON") by congruence. naive_solver.
Qed.

Lemma literal_toJSON l : noToJSON (obj l) = true → hasOwnKey (obj l) (js "toJSON") = false.
Proof. by intros [? _]%literal_toJSON_iff. Qed.

Lemma noToJSON_arr_iff l : noToJSON (arr l) = true ↔ Forall (λ v, noToJSON v = true) l.
Proof.
  rewrite noToJSON_arr. induction l as [|v l IH]; [done|]. cbn [foldr]. by rewrite andb_true_iff, Forall_cons, IH.
Qed.

Lemma arr_toJSON l : hasOwnKey (arr l) (js "toJSON") = false.
Proof.
  unfold hasOwnKey, arr. cbn [ownProps]. rewrite getOwnProperty_app. simpl.
  assert (∀ i, getOwnProperty (KStr (js "toJSON")) (arrayProps i (map (λ v, Some (PData true v)) l)) = None) as ->; [|done].
  induction l as [|v l IH]; intros i; [done|]. simpl. rewrite decide_False; [apply IH|].
  intros [= E]. destruct i as [|p|p]; [done| |by rewrite jsInt_neg in E].
  destruct (jsInt_pos_head p) as (c & r & E' & Hc & _). rewrite E' in E. by injection E as <- _.
Qed.

(** Heights below a bound. *)
Lemma foldr_max_le {A} (f : A → Z) l d m :
  d + foldr (λ x n, Z.max (f x + 1) n) 0 l <= m ↔ d <= m ∧ Forall (λ x, d + 1 + f x <= m) l.
Proof.
  induction l as [|x l IH]; cbn [foldr]; [rewrite Forall_nil; intuition lia|]. rewrite Forall_cons.
  set (n := foldr _ 0 l) in *. assert (d + Z.max (f x + 1) n <= m ↔ d + 1 + f x <= m ∧ d + n <= m) as -> by lia.
  rewrite IH. tauto.
Qed.
