(* ===== verification/Json.v ===== *)
(** * Json: JSON text and UTF-8 frames.

    [JSON.stringify] of a string, the text of a value, [JSON.parse], and
    [TextDecoder] with [fatal: true], over the values of [JsValue]; and the
    round trips between them.  [JSON.parse] is a recursive descent parser with
    fuel; [parse_fuel_enough] shows that the fuel it is started with never
    decides its result.  The value of a number literal is a class parameter
    with its behaviour on safe integers. *)
From S2P Require Import Prelude.
From S2P Require Import Constants.
From S2P Require Import JsText.
From S2P Require Import JsValue.
#[local] Open Scope Z_scope.

(** The number a JSON number literal denotes. *)
Class JsNumbers := {
  numberOfText : jsstr → jsnum;
  numberOfText_int z : isSafeInteger z = true → numberOfText (jsInt z) = NInt z
}.

(** ** UTF-8 decoding *)

Definition isContinuation (b : Z) : bool := (0x80 <=? b) && (b <=? 0xbf).
Definition isSurrogate (cp : Z) : bool := (0xd800 <=? cp) && (cp <=? 0xdfff).

(** The code units of a code point. *)
Definition unitsOf (cp : Z) : jsstr :=
  if cp <? 0x10000 then [cp] else [0xd800 + (cp - 0x10000) / 1024; 0xdc00 + (cp - 0x10000) mod 1024].

(** The strict decoder: overlong forms, surrogates, values above U+10FFFF and
    truncated sequences are errors. *)
Fixpoint utf8DecodeUnits (bytes : list Z) : option jsstr :=
  match bytes with
  | [] => Some []
  | a :: r =>
    if (0 <=? a) && (a <? 0x80) then app [a] <$> utf8DecodeUnits r
    else if (0xc2 <=? a) && (a <=? 0xdf) then
      match r with
      | b :: r =>
        if isContinuation b then app [(a - 0xc0) * 64 + (b - 0x80)] <$> utf8DecodeUnits r else None
      | _ => None
      end
    else if (0xe0 <=? a) && (a <=? 0xef) then
      match r with
      | b :: c :: r =>
        let cp := (a - 0xe0) * 4096 + (b - 0x80) * 64 + (c - 0x80) in
        if isContinuation b && isContinuation c && (0x800 <=? cp) && negb (isSurrogate cp)
        then app [cp] <$> utf8DecodeUnits r else None
      | _ => None
      end
    else if (0xf0 <=? a) && (a <=? 0xf4) then
      match r with
      | b :: c :: d :: r =>
        let cp := (a - 0xf0) * 262144 + (b - 0x80) * 4096 + (c - 0x80) * 64 + (d - 0x80) in
        if isContinuation b && isContinuation c && isContinuation d && (0x10000 <=? cp) && (cp <=? 0x10ffff)
        then app (unitsOf cp) <$> utf8DecodeUnits r else None
      | _ => None
      end
    else None
  end.

(** [new TextDecoder("utf-8", { fatal: true }).decode(bytes)]; a leading byte
    order mark is dropped. *)
Definition utf8Decode (bytes : list Z) : option jsstr :=
  match bytes with
  | 0xef :: 0xbb :: 0xbf :: r => utf8DecodeUnits r
  | _ => utf8DecodeUnits bytes
  end.

(** ** JSON text *)

Definition hexDigit (d : Z) : Z := if d <? 10 then 48 + d else 87 + d.
Definition hex4 (c : Z) : jsstr :=
  [hexDigit (c / 4096); hexDigit ((c / 256) mod 16); hexDigit ((c / 16) mod 16); hexDigit (c mod 16)].

(** One character inside [JSON.stringify(s)]. *)
Definition jsonEscape (char : jsstr) : jsstr :=
  match char with
  | [c] =>
    if c =? 34 then [92; 34] else if c =? 92 then [92; 92]
    else if c =? 8 then [92; 98] else if c =? 9 then [92; 116] else if c =? 10 then [92; 110]
    else if c =? 12 then [92; 102] else if c =? 13 then [92; 114]
    else if (c <? 0x20) || isSurrogate c then [92; 117] ++ hex4 c
    else [c]
  | _ => char
  end.

(** [JSON.stringify(s)] of a string *)
Definition jsonQuote (s : jsstr) : jsstr := [34] ++ concat (map jsonEscape (chars s)) ++ [34].

#[global] Arguments jsonQuote : simpl never.

(** [String(n)] of a finite number *)
Definition numText (n : jsnum) : option jsstr :=
  match n with NInt z => Some (jsInt z) | NReal t => Some t | NNotFinite => None end.

(** The text of a value that JSON can write; [None] for [undefined] and for
    values it cannot. *)
Fixpoint jsonText (v : jsval) : option jsstr :=
  match v with
  | JNull => Some (js "null")
  | JBool b => Some (js (if b then "true" else "false"))
  | JNum n => numText n
  | JStr s => Some (jsonQuote s)
  | JUndefined | JOther _ => None
  | JArr items =>
    texts ← (fix go items :=
      match items with
      | [] => Some []
      | Some (PData _ x) :: r => t ← jsonText x; ts ← go r; Some (t :: ts)
      | _ => None
      end) items;
    Some ([91] ++ joinWith [44] texts ++ [93])
  | JObj _ props =>
    texts ← (fix go props :=
      match props with
      | [] => Some []
      | (KStr k, PData true x) :: r => t ← jsonText x; ts ← go r; Some ((jsonQuote k ++ [58] ++ t) :: ts)
      | _ => None
      end) props;
    Some ([123] ++ joinWith [44] texts ++ [125])
  end.

(** ** [JSON.parse] *)

Definition isJsonSpace (c : Z) : bool := (c =? 32) || (c =? 9) || (c =? 10) || (c =? 13).
Abbreviation skipSpace := (dropWhile isJsonSpace).

Definition hexValue (c : Z) : option Z :=
  if isDigit c then Some (c - 48)
  else if (97 <=? c) && (c <=? 102) then Some (c - 87)
  else if (65 <=? c) && (c <=? 70) then Some (c - 55)
  else None.

Definition unescape (e : Z) : option Z :=
  if (e =? 34) || (e =? 92) || (e =? 47) then Some e
  else if e =? 98 then Some 8 else if e =? 102 then Some 12 else if e =? 110 then Some 10
  else if e =? 114 then Some 13 else if e =? 116 then Some 9 else None.

(** A string, after its opening quote. *)
Fixpoint parseString (s : jsstr) : option (jsstr * jsstr) :=
  match s with
  | [] => None
  | c :: r =>
    if c =? 34 then Some ([], r)
    else if c =? 92 then
      match r with
      | e :: r1 =>
        if e =? 117 then
          match r1 with
          | h1 :: h2 :: h3 :: h4 :: r2 =>
            a ← hexValue h1; b ← hexValue h2; c ← hexValue h3; d ← hexValue h4;
            '(t, rest) ← parseString r2; Some ((a * 4096 + b * 256 + c * 16 + d) :: t, rest)
          | _ => None
          end
        else u ← unescape e; '(t, rest) ← parseString r1; Some (u :: t, rest)
      | [] => None
      end
    else if c <? 0x20 then None
    else '(t, rest) ← parseString r; Some (c :: t, rest)
  end.

(** The text of a number literal and what follows it. *)
Definition spanDigits (s : jsstr) : jsstr * jsstr := (takeWhile isDigit s, dropWhile isDigit s).

Definition numberSign (s : jsstr) : jsstr * jsstr :=
  match s with c :: r => if c =? 45 then ([45], r) else ([], s) | [] => ([], s) end.

Definition numberInt (s : jsstr) : option (jsstr * jsstr) :=
  match spanDigits s with
  | ([], _) => None
  | ((c :: _ :: _) as ds, r) => if c =? 48 then None else Some (ds, r)
  | (ds, r) => Some (ds, r)
  end.

Definition numberFraction (s : jsstr) : option (jsstr * jsstr) :=
  match s with
  | c :: r =>
    if c =? 46 then match spanDigits r with ([], _) => None | (ds, r') => Some (46 :: ds, r') end
    else Some ([], s)
  | [] => Some ([], [])
  end.

Definition numberExponent (s : jsstr) : option (jsstr * jsstr) :=
  match s with
  | c :: r =>
    if (c =? 101) || (c =? 69) then
      let '(sign, r) :=
        match r with d :: r' => if (d =? 43) || (d =? 45) then ([d], r') else ([], r) | [] => ([], r) end in
      match spanDigits r with ([], _) => None | (ds, r') => Some (c :: sign ++ ds, r') end
    else Some ([], s)
  | [] => Some ([], [])
  end.

Definition parseNumberText (s : jsstr) : option (jsstr * jsstr) :=
  let '(sign, s) := numberSign s in
  '(int, s) ← numberInt s; '(frac, s) ← numberFraction s; '(expo, s) ← numberExponent s;
  Some (sign ++ int ++ frac ++ expo, s).

(** A literal word. *)
Definition parseWord (w : string) (v : jsval) (s : jsstr) : option (jsval * jsstr) :=
  if startsWith (js w) s then Some (v, drop (String.length w) s) else None.

(** A member of an object: a repeated key takes the later value. *)
Definition addMember (props : list (key * prop jsval)) (k : jsstr) (v : jsval) : list (key * prop jsval) :=
  if decide (KStr k ∈ map fst props)
  then map (λ kp, if decide (kp.1 = KStr k) then (kp.1, PData true v) else kp) props
  else props ++ [(KStr k, PData true v)].

Section Parser.
Context `{JsNumbers}.

Fixpoint parseValue (fuel : nat) (s : jsstr) : option (jsval * jsstr) :=
  match fuel with
  | O => None
  | S fuel =>
    match skipSpace s with
    | [] => None
    | c :: r =>
      if c =? 123 then
        match skipSpace r with
        | d :: r' => if d =? 125 then Some (JObj ObjectPrototype [], r') else parseMembers fuel [] (d :: r')
        | [] => None
        end
      else if c =? 91 then
        match skipSpace r with
        | d :: r' => if d =? 93 then Some (JArr [], r') else parseElements fuel [] (d :: r')
        | [] => None
        end
      else if c =? 34 then '(t, rest) ← parseString r; Some (JStr t, rest)
      else if c =? 110 then parseWord "null" JNull (c :: r)
      else if c =? 116 then parseWord "true" (JBool true) (c :: r)
      else if c =? 102 then parseWord "false" (JBool false) (c :: r)
      else '(t, rest) ← parseNumberText (c :: r); Some (JNum (numberOfText t), rest)
    end
  end
with parseMembers (fuel : nat) (props : list (key * prop jsval)) (s : jsstr) : option (jsval * jsstr) :=
  match fuel with
  | O => None
  | S fuel =>
    match s with
    | c :: r =>
      if c =? 34 then
        '(k, r) ← parseString r;
        match skipSpace r with
        | d :: r =>
          if d =? 58 then
            '(v, r) ← parseValue fuel r;
            let props := addMember props k v in
            match skipSpace r with
            | e :: r =>
              if e =? 44 then parseMembers fuel props (skipSpace r)
              else if e =? 125 then Some (JObj ObjectPrototype props, r) else None
            | [] => None
            end
          else None
        | [] => None
        end
      else None
    | [] => None
    end
  end
with parseElements (fuel : nat) (items : list (option (prop jsval))) (s : jsstr) : option (jsval * jsstr) :=
  match fuel with
  | O => None
  | S fuel =>
    '(v, r) ← parseValue fuel s;
    let items := items ++ [Some (PData true v)] in
    match skipSpace r with
    | e :: r =>
      if e =? 44 then parseElements fuel items r
      else if e =? 93 then Some (JArr items, r) else None
    | [] => None
    end
  end.

(** [JSON.parse(text)]; [None] when it throws. *)
Definition jsonParse (text : jsstr) : option jsval :=
  match parseValue (2 * length text + 2) text with
  | Some (v, rest) => match skipSpace rest with [] => Some v | _ => None end
  | None => None
  end.

End Parser.

(** ** The parser's fuel *)

Lemma length_dropWhile f s : (length (dropWhile f s) <= length s)%nat.
Proof. induction s; simpl; [done|]. case_match; simpl; lia. Qed.

Lemma parseString_shorter s t r : parseString s = Some (t, r) → (length r < length s)%nat.
Proof.
  remember (length s) as n eqn:Hn. revert s t r Hn.
  induction (lt_wf n) as [n _ IH]; intros s t r -> Hp.
  destruct s as [|c s]; [done|]. cbn in Hp.
  repeat case_match; simplify_option_eq; repeat case_match; simplify_eq; simpl in *; try lia;
    match goal with
    | E : parseString ?u = Some _ |- _ => apply (IH (length u)) in E; simpl in *; lia
    end.
Qed.

Lemma numberSign_shorter s : (length (numberSign s).2 <= length s)%nat.
Proof. unfold numberSign. repeat case_match; simpl; lia. Qed.

Lemma numberInt_shorter s t r : numberInt s = Some (t, r) → (length r < length s)%nat.
Proof.
  unfold numberInt, spanDigits. intros E.
  assert (Hlen : ∀ u, takeWhile isDigit u ≠ [] → (length (dropWhile isDigit u) < length u)%nat).
  { intros [|c u]; simpl; [done|]. destruct (isDigit c); [|done].
    intros _. pose proof (length_dropWhile isDigit u). simpl. lia. }
  assert (r = dropWhile isDigit s ∧ takeWhile isDigit s ≠ []) as [-> ?]; [|by apply Hlen].
  destruct (takeWhile isDigit s) as [|c [|d ds]]; simplify_eq; [done|]. case_match; by simplify_eq.
Qed.

Lemma numberFraction_shorter s t r : numberFraction s = Some (t, r) → (length r <= length s)%nat.
Proof.
  unfold numberFraction, spanDigits. intros E. repeat case_match; simplify_eq; simpl; try lia.
  match goal with |- context [dropWhile isDigit ?u] => pose proof (length_dropWhile isDigit u) end. lia.
Qed.

Lemma numberExponent_shorter s t r : numberExponent s = Some (t, r) → (length r <= length s)%nat.
Proof.
  unfold numberExponent, spanDigits. intros E. destruct s as [|c s]; [by simplify_eq|].
  destruct (_ || _); [|simplify_eq; lia].
  set (sr := match s with [] => _ | _ => _ end) in E.
  assert (Hsr : (length sr.2 <= length s)%nat) by (subst sr; clear; destruct s as [|d s]; simpl; [lia|]; destruct ((d =? 43) || (d =? 45)); simpl; lia).
  destruct sr as [sg u]. simpl in Hsr. pose proof (length_dropWhile isDigit u).
  destruct (takeWhile isDigit u); simplify_eq. simpl. lia.
Qed.

Lemma parseNumberText_shorter s t r : parseNumberText s = Some (t, r) → (length r < length s)%nat.
Proof.
  unfold parseNumberText. destruct (numberSign s) as [sg s1] eqn:E1. intros E.
  pose proof (numberSign_shorter s) as H1. rewrite E1 in H1. simpl in H1.
  destruct (numberInt s1) as [[i s2]|] eqn:E2; [|done]. simpl in E.
  destruct (numberFraction s2) as [[f s3]|] eqn:E3; [|done]. simpl in E.
  destruct (numberExponent s3) as [[e s4]|] eqn:E4; [|done]. simplify_eq/=.
  apply numberInt_shorter in E2. apply numberFraction_shorter in E3. apply numberExponent_shorter in E4. lia.
Qed.

Lemma parseWord_shorter w v s x r :
  (0 < String.length w)%nat → parseWord w v s = Some (x, r) → s ≠ [] → (length r < length s)%nat.
Proof.
  unfold parseWord. intros Hw E Hs. case_match; simplify_eq. rewrite length_drop.
  destruct s; simpl in *; [done|]. lia.
Qed.

Section Fuel.
Context `{JsNumbers}.

(** Every parser leaves strictly less text than it was given. *)
Lemma parse_shorter fuel :
  (∀ s v r, parseValue fuel s = Some (v, r) → (length r < length s)%nat) ∧
  (∀ props s v r, parseMembers fuel props s = Some (v, r) → (length r < length s)%nat) ∧
  (∀ items s v r, parseElements fuel items s = Some (v, r) → (length r < length s)%nat).
Proof.
  induction fuel as [|fuel (IHv & IHm & IHe)]; [done|]. split; [|split].
  - intros s v r E. cbn in E. pose proof (length_dropWhile isJsonSpace s) as Hs.
    destruct (skipSpace s) as [|c s']; [done|]. simpl in Hs.
    pose proof (length_dropWhile isJsonSpace s') as Hs'.
    repeat match type of E with (if ?b then _ else _) = _ => destruct b end.
    + destruct (skipSpace s') as [|d u]; [done|]. simpl in Hs'. case_match; simplify_eq; [lia|].
      apply IHm in E. simpl in E. lia.
    + destruct (skipSpace s') as [|d u]; [done|]. simpl in Hs'. case_match; simplify_eq; [lia|].
      apply IHe in E. simpl in E. lia.
    + destruct (parseString s') as [[t u]|] eqn:Ep; simplify_eq/=. apply parseString_shorter in Ep. lia.
    + apply parseWord_shorter in E; simpl in *; [lia|lia|done].
    + apply parseWord_shorter in E; simpl in *; [lia|lia|done].
    + apply parseWord_shorter in E; simpl in *; [lia|lia|done].
    + destruct (parseNumberText (c :: s')) as [[t u]|] eqn:Ep; simplify_eq/=.
      apply parseNumberText_shorter in Ep. simpl in Ep. lia.
  - intros props s v r E. cbn in E. destruct s as [|c s']; [done|]. case_match; [|done].
    destruct (parseString s') as [[k u]|] eqn:Ep; [|done]. simpl in E. apply parseString_shorter in Ep.
    pose proof (length_dropWhile isJsonSpace u). destruct (skipSpace u) as [|d u1]; [done|]. simpl in *.
    case_match; [|done]. destruct (parseValue fuel u1) as [[x u2]|] eqn:Ev; [|done]. simpl in E. apply IHv in Ev.
    pose proof (length_dropWhile isJsonSpace u2). destruct (skipSpace u2) as [|e u3]; [done|]. simpl in *.
    pose proof (length_dropWhile isJsonSpace u3).
    case_match; [apply IHm in E; lia|]. case_match; simplify_eq. lia.
  - intros items s v r E. cbn in E. destruct (parseValue fuel s) as [[x u2]|] eqn:Ev; [|done].
    simpl in E. apply IHv in Ev.
    pose proof (length_dropWhile isJsonSpace u2). destruct (skipSpace u2) as [|e u3]; [done|]. simpl in *.
    case_match; [apply IHe in E; lia|]. case_match; simplify_eq. lia.
Qed.

Lemma parse_fuel f :
  (∀ g s, (2 * length s + 1 <= f)%nat → (2 * length s + 1 <= g)%nat → parseValue f s = parseValue g s) ∧
  (∀ g props s, (2 * length s + 1 <= f)%nat → (2 * length s + 1 <= g)%nat →
     parseMembers f props s = parseMembers g props s) ∧
  (∀ g items s, (2 * length s + 2 <= f)%nat → (2 * length s + 2 <= g)%nat →
     parseElements f items s = parseElements g items s).
Proof.
  induction f as [|f (IHv & IHm & IHe)]; [split; [|split]; intros; lia|]. split; [|split].
  - intros [|g] s Hf Hg; [lia|]. cbn [parseValue]. pose proof (length_dropWhile isJsonSpace s) as Hs.
    destruct (skipSpace s) as [|c s']; [done|]. simpl in Hs.
    pose proof (length_dropWhile isJsonSpace s') as Hs'. case_match.
    { destruct (skipSpace s') as [|d u]; [done|]. simpl in Hs'. case_match; [done|]. apply IHm; simpl; lia. }
    case_match; [|done].
    destruct (skipSpace s') as [|d u]; [done|]. simpl in Hs'. case_match; [done|]. apply IHe; simpl; lia.
  - intros [|g] props s Hf Hg; [lia|]. cbn [parseMembers]. destruct s as [|c s']; [done|]. case_match; [|done].
    destruct (parseString s') as [[k u]|] eqn:Ep; [|done]. simpl in *. apply parseString_shorter in Ep.
    pose proof (length_dropWhile isJsonSpace u). destruct (skipSpace u) as [|d u1]; [done|]. simpl in *.
    case_match; [|done]. rewrite (IHv g u1) by lia.
    destruct (parseValue g u1) as [[x u2]|] eqn:Ev; [|done]. simpl. apply parse_shorter in Ev.
    pose proof (length_dropWhile isJsonSpace u2). destruct (skipSpace u2) as [|e u3]; [done|]. simpl in *.
    pose proof (length_dropWhile isJsonSpace u3). case_match; [|done]. apply IHm; lia.
  - intros [|g] items s Hf Hg; [lia|]. cbn [parseElements]. rewrite (IHv g s) by lia.
    destruct (parseValue g s) as [[x u2]|] eqn:Ev; [|done]. simpl. apply parse_shorter in Ev.
    pose proof (length_dropWhile isJsonSpace u2). destruct (skipSpace u2) as [|e u3]; [done|]. simpl in *.
    case_match; [|done]. apply IHe; lia.
Qed.

(** With any larger fuel [JSON.parse] gives the same answer. *)
Lemma parse_fuel_enough fuel s :
  (2 * length s + 1 <= fuel)%nat → parseValue fuel s = parseValue (2 * length s + 2) s.
Proof. intros. apply parse_fuel; lia. Qed.

End Fuel.

(** ** Round trips *)

(** *** Strings *)

Lemma hexValue_hexDigit d : 0 <= d < 16 → hexValue (hexDigit d) = Some d.
Proof.
  intros Hd. unfold hexDigit, hexValue, isDigit. destruct (d <? 10) eqn:E; bool_hyps.
  - rewrite (proj2 (Z.leb_le 48 _)), (proj2 (Z.leb_le _ 57)) by lia. simpl. f_equal. lia.
  - rewrite (proj2 (Z.leb_gt (87 + d) 57)) by lia. rewrite andb_false_r.
    rewrite (proj2 (Z.leb_le 97 _)), (proj2 (Z.leb_le _ 102)) by lia. simpl. f_equal. lia.
Qed.

Lemma parseString_hex c s :
  0 <= c <= 0xffff →
  parseString ([92; 117] ++ hex4 c ++ s) = '(t, rest) ← parseString s; Some (c :: t, rest).
Proof.
  intros Hc. unfold hex4. simpl.
  assert (c / 4096 < 16) by (apply Z.div_lt_upper_bound; lia).
  assert (0 <= c / 4096) by (apply Z.div_pos; lia).
  rewrite !hexValue_hexDigit by (try apply Z.mod_pos_bound; lia). simpl.
  destruct (parseString s) as [[t rest]|]; [|done]. simpl. do 3 f_equal.
  pose proof (Z.div_mod c 16). pose proof (Z.div_mod (c / 16) 16). pose proof (Z.div_mod (c / 256) 16).
  rewrite (Z.div_div c 16 16) in * by lia. rewrite (Z.div_div c 256 16) in * by lia.
  change (16 * 16) with 256 in *. change (256 * 16) with 4096 in *. lia.
Qed.

Lemma parseString_plain c s :
  c ≠ 34 → c ≠ 92 → 0x20 <= c → parseString (c :: s) = '(t, rest) ← parseString s; Some (c :: t, rest).
Proof.
  intros. simpl. rewrite (proj2 (Z.eqb_neq c 34)), (proj2 (Z.eqb_neq c 92)) by done.
  by rewrite (proj2 (Z.ltb_ge c 0x20)).
Qed.

Lemma parseString_unit c s :
  0 <= c <= 0xffff →
  parseString (jsonEscape [c] ++ s) = '(t, rest) ← parseString s; Some (c :: t, rest).
Proof.
  intros Hc. unfold jsonEscape.
  destruct (Z.eqb_spec c 34) as [->|?]; [done|]. destruct (Z.eqb_spec c 92) as [->|?]; [done|].
  destruct (Z.eqb_spec c 8) as [->|?]; [done|]. destruct (Z.eqb_spec c 9) as [->|?]; [done|].
  destruct (Z.eqb_spec c 10) as [->|?]; [done|]. destruct (Z.eqb_spec c 12) as [->|?]; [done|].
  destruct (Z.eqb_spec c 13) as [->|?]; [done|].
  destruct ((c <? 0x20) || isSurrogate c) eqn:E.
  - rewrite <-app_assoc. by apply parseString_hex.
  - bool_hyps. by apply parseString_plain.
Qed.

Lemma parseString_pair c d s :
  isHighSurrogate c = true → isLowSurrogate d = true →
  parseString (jsonEscape [c; d] ++ s) = '(t, rest) ← parseString s; Some (c :: d :: t, rest).
Proof.
  unfold isHighSurrogate, isLowSurrogate. intros; bool_hyps. cbn [jsonEscape app].
  rewrite parseString_plain, parseString_plain by lia. by destruct (parseString s) as [[]|].
Qed.

(** Reading back a quoted string. *)
Lemma parseString_quote s rest :
  wf_units s → parseString (concat (map jsonEscape (chars s)) ++ 34 :: rest) = Some (s, rest).
Proof.
  induction s as [|c|c d r IH1 IH2] using jsstr_ind2; intros Hwf; [done| |].
  - inversion_clear Hwf. simpl chars. cbn [map concat]. rewrite app_nil_r. by rewrite parseString_unit.
  - inversion_clear Hwf as [|?? Hc Hdr]. inversion Hdr as [|?? Hd Hr]; subst. rewrite chars_cons2.
    destruct (isHighSurrogate c && isLowSurrogate d) eqn:E; cbn [map concat]; rewrite <-app_assoc.
    + apply andb_true_iff in E as [??]. by rewrite parseString_pair, IH1.
    + rewrite parseString_unit by done. by rewrite IH2.
Qed.

(** *** Numbers *)

(** What may follow a number inside a JSON text. *)
Definition delimited (rest : jsstr) : Prop :=
  match rest with [] => True | c :: _ => c = 44 ∨ c = 93 ∨ c = 125 end.

Lemma span_digits s rest :
  digits s → delimited rest → spanDigits (s ++ rest) = (s, rest).
Proof.
  intros Hs Hr. unfold spanDigits. destruct rest as [|c rest].
  - rewrite app_nil_r. induction Hs as [|d s Hd Hs IH]; [done|]. simpl. rewrite Hd. by injection IH as -> ->.
  - destruct (takeWhile_app_stop isDigit s c rest Hs) as [-> ->]; [|done]. by destruct Hr as [-> | [-> | ->]].
Qed.

Lemma delimited_no_tail rest :
  delimited rest → numberFraction rest = Some ([], rest) ∧ numberExponent rest = Some ([], rest).
Proof. destruct rest as [|c rest]; [done|]. by intros [-> | [-> | ->]]. Qed.

Lemma jsInt_head z : ∃ c r, jsInt z = c :: r ∧ (c = 45 ∨ 48 <= c <= 57).
Proof.
  destruct z as [|p|p]; [exists 48, []; split; [done|lia]| |exists 45, (jsInt (Zpos p)); split; [done|lia]].
  destruct (jsInt_pos_head p) as (c & r & -> & Hc & _). exists c, r. split; [done|].
  unfold isDigit in Hc. bool_hyps. lia.
Qed.

Lemma parseNumberText_int z rest :
  delimited rest → parseNumberText (jsInt z ++ rest) = Some (jsInt z, rest).
Proof.
  intros Hr. destruct (delimited_no_tail rest Hr) as [Hf He].
  assert (Hpos : ∀ n, 0 <= n → ∃ c ds, jsInt n = c :: ds ∧ c ≠ 45 ∧ numberInt (jsInt n ++ rest) = Some (jsInt n, rest)).
  { intros n Hn. destruct (jsInt_digits n Hn) as [Hd Hne]. unfold numberInt. rewrite span_digits by done.
    destruct n as [|p|p]; [by eexists _, _|..|lia].
    destruct (jsInt_pos_head p) as (c & r & E & Hc & H48). rewrite E in *.
    eexists _, _. split; [done|]. split; [by intros ->|].
    destruct r; [done|]. by rewrite (proj2 (Z.eqb_neq c 48)). }
  assert (Hsign : ∀ sg n, 0 <= n →
    ('(int, s) ← numberInt (jsInt n ++ rest); '(frac, s) ← numberFraction s; '(expo, s) ← numberExponent s;
      Some (sg ++ int ++ frac ++ expo, s)) = Some (sg ++ jsInt n, rest)).
  { intros sg n Hn. destruct (Hpos n Hn) as (_ & _ & _ & _ & ->). simpl. rewrite Hf. simpl. rewrite He. simpl.
    by rewrite app_nil_r. }
  unfold parseNumberText. destruct (decide (0 <= z)) as [Hz|Hz].
  - destruct (Hpos z Hz) as (c & ds & E & Hc & _). specialize (Hsign [] z Hz). rewrite E in *.
    unfold numberSign. cbn [app] in *. by rewrite (proj2 (Z.eqb_neq c 45)).
  - destruct z as [|p|p]; [lia..|]. rewrite jsInt_neg. cbn [app]. by apply (Hsign [45]).
Qed.

(** *** Values *)

(** The values that JSON text can carry without loss: plain objects with
    distinct keys, arrays without holes, and numbers that are safe integers. *)
Inductive jsonData : jsval → Prop :=
| jd_null : jsonData JNull
| jd_bool b : jsonData (JBool b)
| jd_int z : isSafeInteger z = true → jsonData (jint z)
| jd_str s : wf_units s → jsonData (JStr s)
| jd_arr l : (∀ v, v ∈ l → jsonData v) → jsonData (arr l)
| jd_obj l : NoDup l.*1 → (∀ k v, (k, v) ∈ l → wf_units k) → (∀ k v, (k, v) ∈ l → jsonData v) → jsonData (obj l).

(** A literal object, by its members; [json_obj] proves that it is data when its keys are literals. *)
Lemma jsonData_obj l : NoDup l.*1 → Forall (λ kv, wf_units kv.1 ∧ jsonData kv.2) l → jsonData (obj l).
Proof. intros Hnd Hl. rewrite Forall_forall in Hl. apply jd_obj; [done|..]; intros k v Hin; by apply (Hl (k, v)). Qed.

Lemma wf_js s : wf_units (js s).
Proof.
  unfold wf_units. induction s as [|a s IH]; [constructor|]. rewrite js_cons. constructor; [|done].
  pose proof (N_ascii_bounded a). lia.
Qed.
#[export] Hint Resolve wf_js jd_null jd_bool jd_str : p2p.

Ltac json_members := repeat (apply Forall_cons; split; [split; [apply wf_js|cbn [snd]]|]); try (apply Forall_nil; exact I).
Ltac json_obj := apply jsonData_obj; [apply (bool_decide_unpack _); vm_compute; exact I|json_members; eauto with p2p].

Definition memberText (kv : jsstr * jsval) : option jsstr :=
  t ← jsonText kv.2; Some (jsonQuote kv.1 ++ [58] ++ t).

Lemma jsonText_arr l : jsonText (arr l) = ts ← mapM jsonText l; Some ([91] ++ joinWith [44] ts ++ [93]).
Proof.
  unfold arr. simpl. match goal with |- ?f _ ≫= _ = _ => set (go := f) end.
  assert (go (map (λ v, Some (PData true v)) l) = mapM jsonText l) as ->; [|done].
  induction l as [|v l IH]; [done|]. simpl. destruct (jsonText v); [|done]. simpl. by rewrite IH.
Qed.

Lemma jsonText_obj l : jsonText (obj l) = ts ← mapM memberText l; Some ([123] ++ joinWith [44] ts ++ [125]).
Proof.
  unfold obj. simpl. match goal with |- ?f _ ≫= _ = _ => set (go := f) end.
  assert (go (map (λ kv, (KStr kv.1, PData true kv.2)) l) = mapM memberText l) as ->; [|done].
  induction l as [|[k v] l IH]; [done|].
  change (mapM memberText ((k, v) :: l)) with (t ← memberText (k, v); ts ← mapM memberText l; mret (t :: ts)).
  rewrite <-IH. unfold memberText. simpl. by destruct (jsonText v).
Qed.

Lemma joinWith_head sep c r ts : ∃ u, joinWith sep ((c :: r) :: ts) = c :: u.
Proof. destruct ts; simpl; eauto. Qed.

Lemma jsonQuote_app s u : jsonQuote s ++ u = 34 :: concat (map jsonEscape (chars s)) ++ 34 :: u.
Proof. unfold jsonQuote. simpl. by rewrite <-app_assoc. Qed.

Section RoundTrip.
Context `{JsNumbers}.

Ltac len_lia := repeat (progress (rewrite ?length_app in *; cbn [length app] in *)); lia.

(** A text that starts a value, and is read back as it in any context. *)
Definition reads (v : jsval) (t : jsstr) : Prop :=
  (∃ c r, t = c :: r ∧ isJsonSpace c = false ∧ c ≠ 93 ∧ c ≠ 125) ∧
  ∀ fuel rest, delimited rest → (2 * length (t ++ rest) + 1 <= fuel)%nat →
    parseValue fuel (t ++ rest) = Some (v, rest).

Lemma reads_elements l ts acc fuel rest :
  Forall2 reads l ts → l ≠ [] →
  (2 * length (joinWith [44%Z] ts ++ 93%Z :: rest) + 2 <= fuel)%nat →
  parseElements fuel acc (joinWith [44] ts ++ 93 :: rest) =
    Some (JArr (acc ++ map (λ v, Some (PData true v)) l), rest).
Proof.
  intros Hl. revert acc fuel. induction Hl as [|v t l ts [_ Hv] Hl IH]; intros acc fuel Hne Hf; [done|].
  destruct fuel as [|fuel]; [lia|]. cbn [parseElements]. rewrite joinWith_cons in *.
  destruct Hl as [|v' t' l ts Hv' Hl].
  - rewrite Hv; [done|by right; left|len_lia].
  - rewrite <-!app_assoc in *. rewrite Hv; [|by left|len_lia]. cbn -[joinWith length].
    rewrite IH; [|done|]. { by rewrite <-app_assoc. }
    len_lia.
Qed.

Lemma reads_members l ts acc fuel rest :
  Forall2 (λ kv t, ∃ tv, t = jsonQuote kv.1 ++ [58] ++ tv ∧ wf_units kv.1 ∧ reads kv.2 tv) l ts → l ≠ [] →
  NoDup (map (λ kv : jsstr * jsval, KStr kv.1) l) → (∀ kv, kv ∈ l → KStr kv.1 ∉ map fst acc) →
  (2 * length (joinWith [44%Z] ts ++ 125%Z :: rest) + 1 <= fuel)%nat →
  parseMembers fuel acc (joinWith [44] ts ++ 125 :: rest) =
    Some (JObj ObjectPrototype (acc ++ map (λ kv, (KStr kv.1, PData true kv.2)) l), rest).
Proof.
  intros Hl. revert acc fuel.
  induction Hl as [|[k v] t l ts (tv & -> & Hk & _ & Hv) Hl IH]; intros acc fuel Hne Hnd Hacc Hf; [done|].
  destruct fuel as [|fuel]; [lia|]. rewrite joinWith_cons in *. inversion_clear Hnd as [|?? Hkl Hnd'].
  assert (Hadd : addMember acc k v = acc ++ [(KStr k, PData true v)]).
  { unfold addMember. rewrite decide_False; [done|]. apply (Hacc (k, v)). left. }
  cbn [fst snd] in *.
  destruct Hl as [|kv' t' l ts Hv' Hl]; rewrite <-!app_assoc in *; rewrite jsonQuote_app in *;
    cbn -[joinWith length jsonQuote] in Hf |- *; rewrite parseString_quote by done; cbn -[joinWith length jsonQuote].
  - rewrite Hv; [|by right; right|len_lia]. cbn -[joinWith length]. by rewrite Hadd.
  - rewrite Hv; [|by left|len_lia]. cbn -[joinWith length jsonQuote].
    rewrite Hadd. destruct Hv' as (tv' & -> & ?).
    set (next := joinWith [44] ((jsonQuote kv'.1 ++ [58] ++ tv') :: ts)) in *.
    assert (∃ u, next = 34 :: u) as [u Hu] by apply joinWith_head.
    assert (skipSpace (next ++ 125 :: rest) = next ++ 125 :: rest) as -> by by rewrite Hu.
    rewrite IH; [by rewrite <-app_assoc|done|done| |].
    + intros kv Hkv. rewrite map_app, elem_of_app. simpl. rewrite list_elem_of_singleton. intros [Hin|Heq].
      * eapply Hacc; [by right|done].
      * apply Hkl. rewrite list_elem_of_fmap. eauto.
    + len_lia.
Qed.

Lemma reads_arr l :
  Forall (λ v, ∃ t, jsonText v = Some t ∧ reads v t) l →
  ∃ t, jsonText (arr l) = Some t ∧ reads (arr l) t.
Proof.
  intros Hl. assert (∃ ts, mapM jsonText l = Some ts ∧ Forall2 reads l ts) as (ts & Hts & Hall).
  { induction Hl as [|v l (t & Ht & Hr) Hl (ts & Hts & Hall)]; [by exists []; split|].
    exists (t :: ts). simpl. rewrite Ht. simpl. rewrite Hts. auto. }
  rewrite jsonText_arr, Hts. simpl. eexists. split; [done|]. split; [by eexists _, _|].
  intros [|fuel] rest Hr Hf; [simpl in Hf; lia|]. cbn -[joinWith length]. rewrite <-app_assoc. cbn -[joinWith length].
  inversion Hall as [|v t l' ts' [(c & r & -> & Hsp & H93 & _) Hv] Hl']; subst; [done|].
  destruct (joinWith_head [44] c r ts') as [u Hu].
  pose proof (reads_elements _ _ [] fuel rest Hall) as He. rewrite Hu in He, Hf |- *. cbn [app] in *.
  cbn [dropWhile]. rewrite Hsp. rewrite (proj2 (Z.eqb_neq c 93)) by done. apply He; [done|len_lia].
Qed.

Lemma reads_obj l :
  NoDup l.*1 → Forall (λ kv, wf_units kv.1 ∧ ∃ t, jsonText kv.2 = Some t ∧ reads kv.2 t) l →
  ∃ t, jsonText (obj l) = Some t ∧ reads (obj l) t.
Proof.
  intros Hnd Hl.
  assert (∃ ts, mapM memberText l = Some ts ∧
    Forall2 (λ kv t, ∃ tv, t = jsonQuote kv.1 ++ [58] ++ tv ∧ wf_units kv.1 ∧ reads kv.2 tv) l ts) as (ts & Hts & Hall).
  { clear Hnd. induction Hl as [|[k v] l (Hk & t & Ht & Hr) Hl (ts & Hts & Hall)]; [by exists []; split|].
    simpl in Ht. exists ((jsonQuote k ++ [58] ++ t) :: ts). split.
    - change (mapM memberText ((k, v) :: l)) with (t ← memberText (k, v); ts ← mapM memberText l; mret (t :: ts)).
      assert (memberText (k, v) = Some (jsonQuote k ++ [58] ++ t)) as -> by (unfold memberText; simpl; by rewrite Ht).
      simpl. by rewrite Hts.
    - constructor; [|done]. by exists t. }
  rewrite jsonText_obj, Hts. simpl. eexists. split; [done|]. split; [by eexists _, _|].
  intros [|fuel] rest Hr Hf; [simpl in Hf; lia|]. cbn -[joinWith length]. rewrite <-app_assoc. cbn -[joinWith length].
  assert (Hkeys : NoDup (map (λ kv : jsstr * jsval, KStr kv.1) l)).
  { replace (map (λ kv : jsstr * jsval, KStr kv.1) l) with (KStr <$> l.*1) by by rewrite <-list_fmap_compose.
    apply NoDup_fmap_2; [by intros ?? [= ->]|done]. }
  pose proof (reads_members _ _ [] fuel rest Hall) as He.
  inversion Hall as [|kv t l' ts' (tv & -> & _) Hl']; subst; [done|].
  destruct (joinWith_head [44] 34 (concat (map jsonEscape (chars kv.1)) ++ 34 :: [58] ++ tv) ts') as [u Hu].
  rewrite <-jsonQuote_app in Hu.
  rewrite Hu in He, Hf |- *. cbn [app] in *. cbn [dropWhile]. simpl. apply He; [done|done|set_solver|len_lia].
Qed.

Lemma data_reads v : jsonData v → ∃ t, jsonText v = Some t ∧ reads v t.
Proof.
  induction 1 as [|b|z Hz|s Hs|l Hl IH|l Hnd Hk Hl IH].
  - eexists. split; [done|]. split; [by eexists _, _|]. intros [|fuel] rest Hr Hf; [simpl in Hf; lia|done].
  - eexists. split; [done|]. split; [destruct b; by eexists _, _|].
    intros [|fuel] rest Hr Hf; [simpl in Hf; lia|]. by destruct b.
  - exists (jsInt z). split; [done|]. destruct (jsInt_head z) as (c & r & E & Hc). split.
    { exists c, r. split; [done|]. unfold isJsonSpace. repeat (rewrite (proj2 (Z.eqb_neq c _)) by lia).
      split; [done|lia]. }
    intros [|fuel] rest Hr Hf; [simpl in Hf; lia|]. rewrite E in *. cbn [parseValue app].
    unfold isJsonSpace. simpl. repeat (rewrite (proj2 (Z.eqb_neq c _)) by lia). simpl.
    repeat (rewrite (proj2 (Z.eqb_neq c _)) by lia). change (c :: r ++ rest) with ((c :: r) ++ rest).
    rewrite <-E, parseNumberText_int by done. simpl.
    by rewrite numberOfText_int.
  - eexists. split; [done|]. split; [by eexists _, _|]. intros [|fuel] rest Hr Hf; [simpl in Hf; lia|].
    rewrite jsonQuote_app. cbn. by rewrite parseString_quote.
  - apply reads_arr. by apply Forall_forall.
  - apply reads_obj; [done|]. apply Forall_forall. intros [k v] Hkv. split; [by eapply Hk|by eapply IH].
Qed.

(** Every such value survives being written and read. *)
Lemma parse_jsonText v t : jsonData v → jsonText v = Some t → jsonParse t = Some v.
Proof.
  intros Hv Ht. destruct (data_reads v Hv) as (t' & E & _ & Hr). rewrite E in Ht. injection Ht as ->.
  unfold jsonParse. specialize (Hr (2 * length t + 2)%nat []). rewrite app_nil_r in Hr.
  by rewrite Hr by (done || lia).
Qed.

End RoundTrip.

(** *** UTF-8 *)

(** Text without lone surrogates. *)
Inductive scalarText : jsstr → Prop :=
| scalar_nil : scalarText []
| scalar_unit c s : 0 <= c <= 0xffff → isSurrogate c = false → scalarText s → scalarText (c :: s)
| scalar_pair c d s :
    isHighSurrogate c = true → isLowSurrogate d = true → scalarText s → scalarText (c :: d :: s).

Lemma scalarText_app s t : scalarText s → scalarText t → scalarText (s ++ t).
Proof. induction 1; simpl; auto using scalarText. Qed.

Lemma scalarText_ascii s : Forall (λ c, 0 <= c < 128) s → scalarText s.
Proof.
  induction 1; constructor; auto; [lia|]. unfold isSurrogate. apply andb_false_iff. left. apply Z.leb_gt. lia.
Qed.

Lemma isContinuation_low x : 0 <= x < 64 → isContinuation (128 + x) = true.
Proof. intros. unfold isContinuation. apply andb_true_iff. rewrite !Z.leb_le. lia. Qed.

Ltac z_cases :=
  repeat match goal with
  | |- context [(?a <=? ?b)%Z] =>
      first [rewrite (proj2 (Z.leb_le a b)) by lia | rewrite (proj2 (Z.leb_gt a b)) by lia]
  | |- context [(?a <? ?b)%Z] =>
      first [rewrite (proj2 (Z.ltb_lt a b)) by lia | rewrite (proj2 (Z.ltb_ge a b)) by lia]
  end.

Lemma decode_unit c bytes :
  0 <= c <= 0xffff → isSurrogate c = false →
  utf8DecodeUnits (utf8EncodePoint c ++ bytes) = app [c] <$> utf8DecodeUnits bytes.
Proof.
  intros Hc Hs. unfold utf8EncodePoint. unfold isSurrogate in Hs. rewrite Hs.
  pose proof (Z.mod_pos_bound c 64). pose proof (Z.mod_pos_bound (c / 64) 64).
  pose proof (Z.div_mod c 64). pose proof (Z.div_mod (c / 64) 64).
  assert (c / 64 / 64 = c / 4096) as Hq by (rewrite Z.div_div by lia; done).
  destruct (c <? 0x80) eqn:E1; bool_hyps.
  { cbn [app utf8DecodeUnits]. z_cases. done. }
  destruct (c <? 0x800) eqn:E2; bool_hyps.
  { cbn [app utf8DecodeUnits]. z_cases. cbn [andb]. rewrite isContinuation_low by lia.
    do 2 f_equal. f_equal. lia. }
  z_cases. cbn [app utf8DecodeUnits]. z_cases. cbn [andb]. rewrite !isContinuation_low by lia.
  replace ((224 + c / 4096 - 224) * 4096 + (128 + c / 64 mod 64 - 128) * 64 + (128 + c mod 64 - 128)) with c by lia.
  unfold isSurrogate. rewrite Hs. z_cases. done.
Qed.

Lemma decode_pair c d bytes :
  isHighSurrogate c = true → isLowSurrogate d = true →
  utf8DecodeUnits (utf8EncodePoint (codePointAt0 [c; d]) ++ bytes) = app [c; d] <$> utf8DecodeUnits bytes.
Proof.
  unfold isHighSurrogate, isLowSurrogate. intros; bool_hyps. cbn [codePointAt0].
  set (p := (c - 0xd800) * 1024 + (d - 0xdc00) + 0x10000).
  assert (0x10000 <= p <= 0x10ffff) by lia.
  pose proof (Z.mod_pos_bound p 64). pose proof (Z.mod_pos_bound (p / 64) 64).
  pose proof (Z.mod_pos_bound (p / 4096) 64).
  pose proof (Z.div_mod p 64). pose proof (Z.div_mod (p / 64) 64). pose proof (Z.div_mod (p / 4096) 64).
  assert (p / 64 / 64 = p / 4096) by (rewrite Z.div_div by lia; done).
  assert (p / 4096 / 64 = p / 262144) by (rewrite Z.div_div by lia; done).
  unfold utf8EncodePoint. z_cases. cbn [andb]. z_cases. cbn [app utf8DecodeUnits]. z_cases. cbn [andb].
  rewrite !isContinuation_low by lia.
  replace ((240 + p / 262144 - 240) * 262144 + (128 + p / 4096 mod 64 - 128) * 4096 +
    (128 + p / 64 mod 64 - 128) * 64 + (128 + p mod 64 - 128)) with p by lia.
  z_cases. cbn [andb]. f_equal. f_equal. unfold unitsOf. z_cases.
  assert ((p - 0x10000) / 1024 = c - 0xd800) as ->.
  { symmetry. apply (Z.div_unique _ _ _ (d - 0xdc00)); [left; lia|]. unfold p. lia. }
  assert ((p - 0x10000) mod 1024 = d - 0xdc00) as ->.
  { symmetry. apply (Z.mod_unique _ _ (c - 0xd800)); [left; lia|]. unfold p. lia. }
  replace (55296 + (c - 55296)) with c by lia. replace (56320 + (d - 56320)) with d by lia. done.
Qed.

Lemma chars_unit c s : isHighSurrogate c = false → chars (c :: s) = [c] :: chars s.
Proof. intros Hc. destruct s; [done|]. rewrite chars_cons2. by rewrite Hc. Qed.

Lemma decodeUnits_encode s : scalarText s → utf8DecodeUnits (utf8Encode s) = Some s.
Proof.
  induction 1 as [|c s Hc Hs _ IH|c d s Hc Hd _ IH]; [done|..]; unfold utf8Encode, codePoints in *.
  - rewrite chars_unit.
    + cbn [map concat]. cbn [codePointAt0]. rewrite decode_unit, IH by done. done.
    + unfold isSurrogate, isHighSurrogate in *. destruct (0xd800 <=? c) eqn:?; [|done]. simpl in *.
      bool_hyps. apply Z.leb_gt. lia.
  - rewrite chars_cons2, Hc, Hd. cbn [andb map concat]. rewrite decode_pair, IH by done. done.
Qed.

(** The bytes of a text without lone surrogates (and without a byte order
    mark) decode to the text. *)
Lemma utf8Decode_encode c s :
  0 <= c < 128 → scalarText (c :: s) → utf8Decode (utf8Encode (c :: s)) = Some (c :: s).
Proof.
  intros Hc Hs. rewrite <-(decodeUnits_encode (c :: s)) by done.
  assert (∃ r, utf8Encode (c :: s) = c :: r) as [r ->].
  { unfold utf8Encode, codePoints. rewrite chars_unit by (unfold isHighSurrogate; by z_cases).
    cbn [map concat codePointAt0]. unfold utf8EncodePoint. z_cases. cbn [andb]. z_cases. eauto. }
  unfold utf8Decode. destruct c as [|p|p]; try done. destruct p; try done; repeat case_match; try done; lia.
Qed.

(** JSON text has no lone surrogates. *)
Lemma hexDigit_ascii d : 0 <= d < 16 → 0 <= hexDigit d < 128.
Proof. unfold hexDigit. case_match; lia. Qed.

Lemma hex4_ascii c : 0 <= c <= 0xffff → Forall (λ c, 0 <= c < 128) ([92; 117] ++ hex4 c).
Proof.
  intros Hc. assert (c / 4096 < 16) by (apply Z.div_lt_upper_bound; lia).
  assert (0 <= c / 4096) by (apply Z.div_pos; lia).
  repeat constructor; try lia; apply hexDigit_ascii; try done; apply Z.mod_pos_bound; lia.
Qed.

Lemma jsonEscape_unit_scalar c : 0 <= c <= 0xffff → scalarText (jsonEscape [c]).
Proof.
  intros Hc. unfold jsonEscape.
  repeat (case_match; [apply scalarText_ascii; first [by apply hex4_ascii | repeat constructor; lia]|]).
  bool_hyps. by constructor; [..|constructor].
Qed.

Lemma concat_escape_scalar s : wf_units s → scalarText (concat (map jsonEscape (chars s))).
Proof.
  induction s as [|c|c d r IH1 IH2] using jsstr_ind2; intros Hwf; [constructor| |].
  - inversion_clear Hwf. simpl chars. cbn [map concat]. rewrite app_nil_r. by apply jsonEscape_unit_scalar.
  - inversion_clear Hwf as [|?? Hc Hdr]. inversion Hdr as [|?? Hd Hr]; subst. rewrite chars_cons2.
    destruct (isHighSurrogate c && isLowSurrogate d) eqn:E; cbn [map concat]; apply scalarText_app; auto.
    + apply andb_true_iff in E as [??]. by constructor; [..|constructor].
    + by apply jsonEscape_unit_scalar.
Qed.

Lemma jsonQuote_scalar s : wf_units s → scalarText (jsonQuote s).
Proof.
  intros. unfold jsonQuote. apply scalarText_app; [by apply scalarText_ascii; repeat constructor|].
  apply scalarText_app; [by apply concat_escape_scalar|]. by apply scalarText_ascii; repeat constructor.
Qed.

Lemma joinWith_scalar sep ts : scalarText sep → Forall scalarText ts → scalarText (joinWith sep ts).
Proof.
  intros Hs. induction 1 as [|t ts Ht Hts IH]; [constructor|]. rewrite joinWith_cons.
  destruct ts; auto using scalarText_app.
Qed.

Lemma jsInt_ascii z : Forall (λ c, 0 <= c < 128) (jsInt z).
Proof.
  assert (H : ∀ n, 0 <= n → Forall (λ c, 0 <= c < 128) (jsInt n)).
  { intros n Hn. destruct (jsInt_digits n Hn) as [Hd _]. eapply Forall_impl; [exact Hd|].
    unfold isDigit. intros c Hc. bool_hyps. lia. }
  destruct z as [|p|p]; [apply H; lia|apply H; lia|]. rewrite jsInt_neg. constructor; [lia|apply H; lia].
Qed.

Lemma jsonText_scalar v t : jsonData v → jsonText v = Some t → scalarText t.
Proof.
  intros Hv. revert t. induction Hv as [|b|z Hz|s Hs|l Hl IH|l Hnd Hk Hl IH]; intros t Ht.
  - injection Ht as <-. apply scalarText_ascii. by repeat constructor.
  - injection Ht as <-. apply scalarText_ascii. by destruct b; repeat constructor.
  - injection Ht as <-. apply scalarText_ascii, jsInt_ascii.
  - injection Ht as <-. by apply jsonQuote_scalar.
  - rewrite jsonText_arr in Ht. destruct (mapM jsonText l) as [ts|] eqn:E; simplify_eq/=.
    apply (scalarText_app [91]); [by apply scalarText_ascii; repeat constructor|].
    apply scalarText_app; [|by apply scalarText_ascii; repeat constructor].
    apply joinWith_scalar; [by apply scalarText_ascii; repeat constructor|].
    apply mapM_Some_1 in E. apply Forall_forall. intros t Ht.
    apply list_elem_of_lookup_1 in Ht as [i Hi]. destruct (Forall2_lookup_r _ _ _ _ _ E Hi) as (v & Hv & ?).
    eapply IH; [by eapply list_elem_of_lookup_2|done].
  - rewrite jsonText_obj in Ht. destruct (mapM memberText l) as [ts|] eqn:E; simplify_eq/=.
    apply (scalarText_app [123]); [by apply scalarText_ascii; repeat constructor|].
    apply scalarText_app; [|by apply scalarText_ascii; repeat constructor].
    apply joinWith_scalar; [by apply scalarText_ascii; repeat constructor|].
    apply mapM_Some_1 in E. apply Forall_forall. intros t Ht.
    apply list_elem_of_lookup_1 in Ht as [i Hi]. destruct (Forall2_lookup_r _ _ _ _ _ E Hi) as ([k v] & Hv & Hm).
    unfold memberText in Hm. simpl in Hm. destruct (jsonText v) as [tv|] eqn:Ev; simplify_eq/=.
    apply list_elem_of_lookup_2 in Hv.
    apply (scalarText_app (jsonQuote k) (58 :: tv)); [by eapply jsonQuote_scalar, Hk|].
    apply (scalarText_app [58]); [by apply scalarText_ascii; repeat constructor|]. by eapply IH.
Qed.

Lemma scalarText_wf s : scalarText s → wf_units s.
Proof.
  induction 1 as [|c s Hc _ _ IH|c d s Hc Hd _ IH]; [constructor|by constructor|].
  unfold isHighSurrogate, isLowSurrogate in *. bool_hyps. constructor; [lia|]. constructor; [lia|done].
Qed.

(** An instance of the number interface: integers in plain decimal notation;
    every other literal keeps its text. *)
Definition decimalText (s : jsstr) : Z :=
  match s with c :: r => if c =? 45 then - decimalValue r else decimalValue s | [] => 0 end.

Definition decimalNumbers : JsNumbers.
Proof.
  refine {| numberOfText s := if decide (jsInt (decimalText s) = s) then NInt (decimalText s) else NReal s |}.
  intros z _. assert (decimalText (jsInt z) = z) as ->; [|by rewrite decide_True].
  destruct (decide (0 <= z)) as [Hz|Hz].
  - pose proof (decimalValue_jsInt z Hz) as Hv. destruct (jsInt_digits z Hz) as [Hd _].
    destruct (jsInt_head z) as (c & r & E & Hc). rewrite E in *. unfold decimalText.
    inversion_clear Hd as [|?? Hdc _]. unfold isDigit in Hdc. bool_hyps. by rewrite (proj2 (Z.eqb_neq c 45)) by lia.
  - destruct z as [|p|p]; [lia..|]. rewrite jsInt_neg. simpl. rewrite decimalValue_jsInt by lia. done.
Defined.

(** ** The text determines the value *)

Lemma obj_inj l l' : obj l = obj l' → l = l'.
Proof.
  unfold obj. intros E. injection E as E. revert l' E. induction l as [|[k v] l IH]; intros [|[k' v'] l'] E; try done.
  cbn [map] in E. injection E as -> -> E. f_equal. by apply IH.
Qed.

Lemma jsonText_inj v w t : jsonData v → jsonData w → jsonText v = Some t → jsonText w = Some t → v = w.
Proof.
  intros Hv Hw Ev Ew. assert (Some v = Some w) as [= ->]; [|done].
  by rewrite <-(@parse_jsonText decimalNumbers v t), <-(@parse_jsonText decimalNumbers w t).
Qed.

Lemma utf8Encode_inj s t : scalarText s → scalarText t → utf8Encode s = utf8Encode t → s = t.
Proof. intros Hs Ht E. assert (Some s = Some t) as [= ->]; [|done]. by rewrite <-(decodeUnits_encode s), <-(decodeUnits_encode t), E. Qed.

(** [JSON.stringify(v)] of an object, and the bytes of its text *)
Definition jsonStringify (v : jsval) : jsstr := default [] (jsonText v).

Lemma jsonStringify_text v : jsonData v → jsonText v = Some (jsonStringify v).
Proof. intros Hv. destruct (@data_reads decimalNumbers v Hv) as (t & Ht & _). unfold jsonStringify. by rewrite Ht. Qed.

Lemma jsonStringify_inj v w :
  jsonData v → jsonData w → utf8Encode (jsonStringify v) = utf8Encode (jsonStringify w) → v = w.
Proof.
  intros Hv Hw E. pose proof (jsonStringify_text v Hv) as Ev. pose proof (jsonStringify_text w Hw) as Ew.
  apply (jsonText_inj v w (jsonStringify v)); [done..|]. rewrite Ew. f_equal.
  symmetry. apply utf8Encode_inj; [by apply (jsonText_scalar v)|by apply (jsonText_scalar w)|done].
Qed.

(** The fields of a plain object of JSON data. *)
Lemma data_object v : jsonData v → isObject v = true → ∃ l, v = obj l ∧ Forall (λ kv, jsonData kv.2) l.
Proof.
  intros Hv Ho. destruct Hv as [| | | | |l Hnd Hk Hl]; try done. exists l. split; [done|].
  apply Forall_forall. intros [k v] Hin. by eapply Hl.
Qed.

Lemma data_field v k : jsonData v → isObject v = true → ownDataValue v k = JUndefined ∨ jsonData (ownDataValue v k).
Proof.
  intros Hv Ho. destruct (data_object v Hv Ho) as (l & -> & Hl). clear Hv Ho. unfold ownDataValue, obj, ownProps.
  induction Hl as [|[k' x] l Hx _ IH]; [by left|]. cbn [map getOwnProperty fst snd]. case_decide; [by right|done].
Qed.
