(* ===== verification/Base64.v ===== *)
(** * Base64: the base64 functions of [src/shared/security.ts] and the checks
    of [src/shared/messages.ts] (the two files hold the same text).

    [bytesToBase64] is the standard encoding that [Buffer.toString("base64")]
    and [btoa] give.  The theorems show that the accepted texts are exactly the
    encodings: decoding inverts encoding, and encoding inverts decoding, so no
    two accepted texts stand for the same bytes. *)
From S2P Require Import Prelude.
From S2P Require Import Constants.
From S2P Require Import JsText.
#[local] Open Scope Z_scope.

Definition BASE64_DECODE_MAX_CHARS : Z := ENCRYPTED_JSON_MAX_CHARS.

(** [base64Index] *)
Definition base64Index (code : Z) : Z :=
  if (65 <=? code) && (code <=? 90) then code - 65
  else if (97 <=? code) && (code <=? 122) then code - 71
  else if (48 <=? code) && (code <=? 57) then code + 4
  else if code =? 43 then 62
  else if code =? 47 then 63
  else -1.

(** [A-Za-z0-9+/] *)
Definition isBase64Unit (c : Z) : bool :=
  isUpper c || isLower c || isDigit c || (c =? 43) || (c =? 47).

(** The regular expression [CANONICAL_BASE64] *)
Fixpoint CANONICAL_BASE64 (s : jsstr) : bool :=
  match s with
  | [] => true
  | a :: b :: c :: d :: r =>
    if isBase64Unit a && isBase64Unit b && isBase64Unit c && isBase64Unit d then CANONICAL_BASE64 r
    else match r with
         | [] => isBase64Unit a && isBase64Unit b && (d =? 61) && ((c =? 61) || isBase64Unit c)
         | _ => false
         end
  | _ => false
  end.

(** [hasCanonicalBase64Padding] *)
Definition hasCanonicalBase64Padding (value : jsstr) : bool :=
  let at_end n := default (-1) (value !! (length value - n)%nat) in
  if endsWith [61; 61] value then Z.land (base64Index (at_end 3%nat)) 0x0f =? 0
  else if endsWith [61] value then Z.land (base64Index (at_end 2%nat)) 0x03 =? 0
  else true.

(** [isCanonicalBase64] of security.ts *)
Definition isCanonicalBase64 (value : jsstr) : bool :=
  if (jslen value =? 0) || negb (jslen value mod 4 =? 0) then false
  else CANONICAL_BASE64 value && hasCanonicalBase64Padding value.

(** [base64DecodedByteLength] of messages.ts *)
Definition base64DecodedByteLength (value : jsstr) : Z :=
  let padding := if endsWith [61; 61] value then 2 else if endsWith [61] value then 1 else 0 in
  (jslen value / 4) * 3 - padding.

(** [isBase64EncodedBytes] and [isBoundedCanonicalBase64] of messages.ts, on a string *)
Definition isBase64EncodedBytes (value : jsstr) (decodedBytes : Z) : bool :=
  (jslen value mod 4 =? 0) && CANONICAL_BASE64 value && hasCanonicalBase64Padding value &&
  (base64DecodedByteLength value =? decodedBytes).

Definition isBoundedCanonicalBase64 (value : jsstr) (minChars maxChars : Z) : bool :=
  (minChars <=? jslen value) && (jslen value <=? maxChars) && (jslen value mod 4 =? 0) &&
  CANONICAL_BASE64 value && hasCanonicalBase64Padding value.

(** The character of a six-bit value. *)
Definition base64Unit (i : Z) : Z :=
  if i <? 26 then i + 65 else if i <? 52 then i + 71 else if i <? 62 then i - 4
  else if i =? 62 then 43 else 47.

(** [Buffer.from(bytes).toString("base64")] *)
Fixpoint base64Text (bytes : list Z) : jsstr :=
  match bytes with
  | [] => []
  | [a] => [base64Unit (a / 4); base64Unit (a mod 4 * 16); 61; 61]
  | [a; b] => [base64Unit (a / 4); base64Unit (a mod 4 * 16 + b / 16); base64Unit (b mod 16 * 4); 61]
  | a :: b :: c :: r =>
    [base64Unit (a / 4); base64Unit (a mod 4 * 16 + b / 16); base64Unit (b mod 16 * 4 + c / 64); base64Unit (c mod 64)]
    ++ base64Text r
  end.

(** [bytesToBase64] *)
Definition bytesToBase64 (bytes : list Z) : jsstr := base64Text bytes.

(** [Buffer.from(value, "base64")] on a canonical text *)
Fixpoint base64Decode (s : jsstr) : list Z :=
  match s with
  | a :: b :: c :: d :: r =>
    let x := base64Index a in let y := base64Index b in let z := base64Index c in let w := base64Index d in
    if c =? 61 then [x * 4 + y / 16]
    else if d =? 61 then [x * 4 + y / 16; y mod 16 * 16 + z / 4]
    else [x * 4 + y / 16; y mod 16 * 16 + z / 4; z mod 4 * 64 + w] ++ base64Decode r
  | _ => []
  end.

(** [base64ToBytes] *)
Definition base64ToBytes (value : jsstr) : result (list Z) :=
  if BASE64_DECODE_MAX_CHARS <? jslen value then throw "Invalid base64 payload."
  else if negb (isCanonicalBase64 value) then throw "Invalid base64 payload."
  else Ok (base64Decode value).

(** ** Lemmas *)

#[local] Ltac Zify.zify_post_hook ::= Z.to_euclidean_division_equations.

Definition bytes (l : list Z) : Prop := Forall (λ b, 0 <= b < 256) l.

Lemma base64Unit_valid i : 0 <= i < 64 → isBase64Unit (base64Unit i) = true ∧ base64Index (base64Unit i) = i ∧ base64Unit i ≠ 61.
Proof.
  intros Hi. assert (Hall : Forall (λ i, isBase64Unit (base64Unit i) = true ∧ base64Index (base64Unit i) = i ∧ base64Unit i ≠ 61)
    (map Z.of_nat (seq 0 64))) by (repeat constructor; done).
  rewrite Forall_forall in Hall. apply Hall. rewrite list_elem_of_fmap. exists (Z.to_nat i). split; [lia|].
  apply elem_of_seq. lia.
Qed.

Lemma base64Index_valid c : isBase64Unit c = true → 0 <= base64Index c < 64 ∧ base64Unit (base64Index c) = c ∧ c ≠ 61.
Proof.
  intros H. assert (Hc : 43 <= c <= 122).
  { unfold isBase64Unit, isUpper, isLower, isDigit in H. rewrite !orb_true_iff, !andb_true_iff in H.
    rewrite !Z.leb_le, !Z.eqb_eq in H. lia. }
  assert (Hall : Forall (λ c, implb (isBase64Unit c) ((0 <=? base64Index c) && (base64Index c <? 64) &&
    (base64Unit (base64Index c) =? c) && negb (c =? 61)) = true) (seqZ 43 80)) by (repeat constructor).
  rewrite Forall_forall in Hall. specialize (Hall c). rewrite elem_of_seqZ, H in Hall. cbn [implb] in Hall.
  specialize (Hall ltac:(lia)). bool_hyps. split_and!; done || lia.
Qed.

(** The accepted texts, group by group. *)
Inductive canonical : jsstr → Prop :=
| canonical_nil : canonical []
| canonical_two a b :
    isBase64Unit a = true → isBase64Unit b = true → Z.land (base64Index b) 15 = 0 → canonical [a; b; 61; 61]
| canonical_three a b c :
    isBase64Unit a = true → isBase64Unit b = true → isBase64Unit c = true → Z.land (base64Index c) 3 = 0 →
    canonical [a; b; c; 61]
| canonical_four a b c d r :
    isBase64Unit a = true → isBase64Unit b = true → isBase64Unit c = true → isBase64Unit d = true →
    canonical r → canonical (a :: b :: c :: d :: r).

Lemma endsWith_app p l s : (length p <= length s)%nat → endsWith p (l ++ s) = endsWith p s.
Proof.
  intros Hl. unfold endsWith. rewrite length_app, drop_app_ge by lia.
  by replace (length l + length s - length p - length l)%nat with (length s - length p)%nat by lia.
Qed.

Lemma hasCanonicalBase64Padding_app l s :
  (4 <= length s)%nat → hasCanonicalBase64Padding (l ++ s) = hasCanonicalBase64Padding s.
Proof.
  intros Hl. unfold hasCanonicalBase64Padding. rewrite !endsWith_app by (simpl; lia).
  assert (∀ n, (n <= 4)%nat → (l ++ s) !! (length (l ++ s) - n)%nat = s !! (length s - n)%nat) as Hat.
  { intros n Hn. rewrite length_app, lookup_app_r by lia. f_equal. lia. }
  by rewrite !Hat by lia.
Qed.

Lemma canonical_length s : canonical s → (length s `mod` 4 = 0)%nat.
Proof.
  induction 1 as [| | |a b c d r _ _ _ _ _ IH]; try done.
  replace (length (a :: b :: c :: d :: r)) with (length r + 1 * 4)%nat by (simpl; lia).
  by rewrite Nat.Div0.mod_add.
Qed.

Lemma canonical_regex s : canonical s → CANONICAL_BASE64 s = true ∧ hasCanonicalBase64Padding s = true.
Proof.
  induction 1 as [|a b Ha Hb Hl|a b c Ha Hb Hc Hl|a b c d r Ha Hb Hc Hd Hr [IH1 IH2]].
  - done.
  - split; [simpl; by rewrite Ha, Hb|]. unfold hasCanonicalBase64Padding. simpl. by rewrite Hl.
  - split; [simpl; rewrite Ha, Hb, Hc; simpl; by rewrite orb_true_r|]. destruct (base64Index_valid c Hc) as (_ & _ & Hne).
    unfold hasCanonicalBase64Padding, endsWith. simpl. rewrite bool_decide_false by congruence. simpl. by rewrite Hl.
  - split; [simpl; by rewrite Ha, Hb, Hc, Hd|]. destruct r as [|e r'].
    + destruct (base64Index_valid d Hd) as (_ & _ & Hne). unfold hasCanonicalBase64Padding, endsWith. simpl.
      by rewrite !bool_decide_false by congruence.
    + change (a :: b :: c :: d :: e :: r') with ([a; b; c; d] ++ e :: r').
      rewrite hasCanonicalBase64Padding_app; [done|].
      apply canonical_length in Hr. destruct r' as [|? [|? [|? ?]]]; simpl in *; try done; lia.
Qed.

Lemma regex_canonical s : CANONICAL_BASE64 s = true → hasCanonicalBase64Padding s = true → canonical s.
Proof.
  remember (length s) as n eqn:Hn. revert s Hn. induction (lt_wf n) as [n _ IH]. intros s -> Hr Hp.
  destruct s as [|a [|b [|c [|d r]]]]; try done; [constructor|]. simpl in Hr.
  destruct (isBase64Unit a && isBase64Unit b && isBase64Unit c && isBase64Unit d) eqn:E.
  - bool_hyps. constructor; auto. apply (IH (length r)); [simpl; lia|done|done|].
    destruct r as [|e [|f [|g [|h r]]]]; try done.
  - destruct r; [|done]. rewrite !andb_true_iff, orb_true_iff, !Z.eqb_eq in Hr. destruct Hr as (((Ha & Hb) & ->) & [-> | Hc]).
    + unfold hasCanonicalBase64Padding in Hp. simpl in Hp. bool_hyps. by constructor.
    + destruct (base64Index_valid c Hc) as (_ & _ & Hne). unfold hasCanonicalBase64Padding, endsWith in Hp. simpl in Hp.
      rewrite bool_decide_false in Hp by congruence. simpl in Hp. bool_hyps. by constructor.
Qed.

Ltac unit_eq :=
  match goal with
  | |- _ :: _ = _ :: _ => f_equal; unit_eq
  | H : base64Unit (base64Index ?x) = ?x |- base64Unit _ = ?x =>
    transitivity (base64Unit (base64Index x)); [f_equal; lia|exact H]
  | |- _ => done
  end.

Ltac bytes_lia := unfold bytes in *; rewrite ?Forall_cons, ?Forall_nil; split_and!; first [done|lia].

(** Encoding inverts decoding: an accepted text is the encoding of its bytes. *)
Lemma base64Text_decode s : canonical s → base64Text (base64Decode s) = s ∧ bytes (base64Decode s).
Proof.
  assert (H15 : ∀ x, Z.land x 15 = x mod 16) by (intros; by apply (Z.land_ones x 4)).
  assert (H3 : ∀ x, Z.land x 3 = x mod 4) by (intros; by apply (Z.land_ones x 2)).
  induction 1 as [|a b Ha Hb Hl|a b c Ha Hb Hc Hl|a b c d r Ha Hb Hc Hd Hr [IH1 IH2]]; [by split; [|constructor]|..];
    rewrite ?H15, ?H3 in *; repeat match goal with
    | H : isBase64Unit _ = true |- _ => apply base64Index_valid in H as (? & ? & ?)
    end; cbn [base64Decode]; repeat (rewrite (proj2 (Z.eqb_neq _ 61)) by done); cbn [Z.eqb Pos.eqb].
  - split; [|bytes_lia]. cbn [base64Text]. unit_eq.
  - split; [|bytes_lia]. cbn [base64Text]. unit_eq.
  - cbn [app]. split; [|bytes_lia]. cbn [base64Text app]. rewrite IH1. unit_eq.
Qed.

(** Decoding inverts encoding, and every encoding is accepted. *)
Lemma base64Decode_text l : bytes l → base64Decode (base64Text l) = l ∧ canonical (base64Text l).
Proof.
  assert (H15 : ∀ x, Z.land x 15 = x mod 16) by (intros; by apply (Z.land_ones x 4)).
  assert (H3 : ∀ x, Z.land x 3 = x mod 4) by (intros; by apply (Z.land_ones x 2)).
  remember (length l) as n eqn:Hn. revert l Hn. induction (lt_wf n) as [n _ IH]. intros l -> Hb.
  destruct l as [|a [|b [|c r]]]; [by split; [|constructor]|..]; unfold bytes in Hb; rewrite ?Forall_cons in Hb;
    destruct_and?; cbn [base64Text].
  - destruct (base64Unit_valid (a / 4)) as (? & E1 & ?); [lia|].
    destruct (base64Unit_valid (a mod 4 * 16)) as (? & E2 & ?); [lia|].
    split; [cbn; rewrite E1, E2; f_equal; lia|]. constructor; try done. rewrite E2, H15. lia.
  - destruct (base64Unit_valid (a / 4)) as (? & E1 & ?); [lia|].
    destruct (base64Unit_valid (a mod 4 * 16 + b / 16)) as (? & E2 & ?); [lia|].
    destruct (base64Unit_valid (b mod 16 * 4)) as (? & E3 & ?); [lia|].
    split.
    + cbn [base64Decode]. rewrite (proj2 (Z.eqb_neq _ 61)) by done. cbn [Z.eqb Pos.eqb]. rewrite E1, E2, E3.
      f_equal; [lia|]. f_equal. lia.
    + constructor; try done. rewrite E3, H3. lia.
  - destruct (base64Unit_valid (a / 4)) as (? & E1 & ?); [lia|].
    destruct (base64Unit_valid (a mod 4 * 16 + b / 16)) as (? & E2 & ?); [lia|].
    destruct (base64Unit_valid (b mod 16 * 4 + c / 64)) as (? & E3 & ?); [lia|].
    destruct (base64Unit_valid (c mod 64)) as (? & E4 & ?); [lia|].
    destruct (IH (length r)) with (l := r) as [IH1 IH2]; [simpl; lia|done|done|]. cbn [app]. split.
    + cbn [base64Decode]. rewrite !(proj2 (Z.eqb_neq _ 61)) by done. rewrite E1, E2, E3, E4, IH1. cbn [app].
      f_equal; [lia|]. f_equal; [lia|]. f_equal. lia.
    + by constructor.
Qed.

Lemma isCanonicalBase64_spec s : isCanonicalBase64 s = true ↔ canonical s ∧ s ≠ [].
Proof.
  unfold isCanonicalBase64, jslen. split.
  - intros H. case_match; [done|]. bool_hyps. split; [by apply regex_canonical|]. by intros ->.
  - intros [Hc Hne]. pose proof (canonical_length s Hc) as Hl. apply canonical_regex in Hc as [-> ->].
    assert (Z.of_nat (length s) mod 4 = 0) as -> by (change 4 with (Z.of_nat 4); rewrite <-Nat2Z.inj_mod; by rewrite Hl).
    destruct s; [done|]. simpl. done.
Qed.

Lemma base64ToBytes_inv value l :
  base64ToBytes value = Ok l → bytesToBase64 l = value ∧ bytes l ∧ l ≠ [].
Proof.
  unfold base64ToBytes. intros H. case_match; [done|]. destruct (isCanonicalBase64 value) eqn:E; [|done].
  simpl in H. simplify_eq. apply isCanonicalBase64_spec in E as [Hc Hne].
  destruct (base64Text_decode value Hc) as [Ht Hb]. split_and!; [done|done|].
  intros Hnil. rewrite Hnil in Ht. simpl in Ht. congruence.
Qed.

(** The base64 texts the code accepts are exactly the encodings of byte
    strings, one text for each: a decoded text is the encoding of its bytes, so
    a peer cannot write the same share, tag or sealed payload in two ways. *)
Theorem base64ToBytes_canonical value l :
  base64ToBytes value = Ok l → bytesToBase64 l = value ∧ bytes l ∧ l ≠ [].
Proof. apply base64ToBytes_inv. Qed.


Lemma base64_decode_encode l :
  bytes l → l ≠ [] → jslen (bytesToBase64 l) <= BASE64_DECODE_MAX_CHARS → base64ToBytes (bytesToBase64 l) = Ok l.
Proof.
  intros Hb Hne Hlen. destruct (base64Decode_text l Hb) as [Hd Hc]. unfold base64ToBytes, bytesToBase64 in *.
  rewrite (proj2 (Z.ltb_ge _ _)) by done.
  rewrite (proj2 (isCanonicalBase64_spec _)); [by rewrite Hd|]. split; [done|]. intros E. rewrite E in Hd. done.
Qed.

(** Bytes survive being written in base64 and read back, up to the size
    limit of an encrypted payload. *)
Theorem base64_roundtrip l :
  bytes l → l ≠ [] → jslen (bytesToBase64 l) <= BASE64_DECODE_MAX_CHARS → base64ToBytes (bytesToBase64 l) = Ok l.
Proof. apply base64_decode_encode. Qed.

(** The units of an encoding are printable ASCII. *)
Lemma base64Unit_printable c : isBase64Unit c = true → 33 <= c <= 126.
Proof. unfold isBase64Unit, isAlpha, isLower, isUpper, isDigit. rewrite !orb_true_iff, !andb_true_iff, !Z.leb_le, !Z.eqb_eq. lia. Qed.

Lemma base64_printable l : bytes l → Forall (λ c, 33 <= c <= 126) (bytesToBase64 l).
Proof.
  intros [_ Hc]%base64Decode_text. unfold bytesToBase64.
  induction Hc; repeat (constructor; [first [by apply base64Unit_printable|lia]|]); done.
Qed.

Lemma base64_wf l : bytes l → wf_units (bytesToBase64 l).
Proof. intros H%base64_printable. eapply Forall_impl; [exact H|]. cbv beta. lia. Qed.

(** The length of an encoding. *)
Lemma base64Text_length l : jslen (base64Text l) = (Z.of_nat (length l) + 2) / 3 * 4.
Proof.
  unfold jslen. remember (length l) as n eqn:Hn. revert l Hn. induction (lt_wf n) as [n _ IH]. intros l ->.
  destruct l as [|a [|b [|c r]]]; [done..|]. cbn [base64Text]. rewrite length_app.
  rewrite Nat2Z.inj_add, (IH (length r)) by (simpl; lia || done). simpl length. lia.
Qed.

Lemma base64ToBytes_canonical_witness :
  base64ToBytes (js "AQID/w==") = Ok [1; 2; 3; 255] ∧
  is_ok (base64ToBytes (js "AQID/x==")) = false ∧
  (bytesToBase64 [1; 2; 3; 255] = js "AQID/w==" ∧ bytes [1; 2; 3; 255] ∧ [1; 2; 3; 255] ≠ []).
Proof.
  split; [reflexivity|]. split; [reflexivity|].
  apply (base64ToBytes_canonical (js "AQID/w==")). reflexivity.
Defined.

Lemma base64_roundtrip_witness :
  base64ToBytes (bytesToBase64 [0; 16; 131; 16; 81]) = Ok [0; 16; 131; 16; 81].
Proof. apply (base64_roundtrip [0; 16; 131; 16; 81]); [repeat constructor; lia|done|vm_compute; discriminate]. Defined.

(** *** The checks of messages.ts *)

Lemma base64DecodedByteLength_spec s :
  canonical s → base64DecodedByteLength s = Z.of_nat (length (base64Decode s)).
Proof.
  induction 1 as [|a b Ha Hb Hl|a b c Ha Hb Hc Hl|a b c d r Ha Hb Hc Hd Hr IH]; unfold base64DecodedByteLength.
  - done.
  - done.
  - destruct (base64Index_valid c Hc) as (_ & _ & Hne). cbn [base64Decode]. rewrite (proj2 (Z.eqb_neq c 61)) by done.
    cbn [Z.eqb Pos.eqb]. unfold endsWith. simpl. rewrite bool_decide_false by congruence. done.
  - destruct (base64Index_valid c Hc) as (_ & _ & Hc61). destruct (base64Index_valid d Hd) as (_ & _ & Hd61).
    cbn [base64Decode]. rewrite (proj2 (Z.eqb_neq c 61)), (proj2 (Z.eqb_neq d 61)) by done.
    rewrite length_app, Nat2Z.inj_add, <-IH. unfold base64DecodedByteLength.
    assert (Hlen : jslen (a :: b :: c :: d :: r) = jslen r + 4) by (unfold jslen; simpl length; lia).
    pose proof (canonical_length r Hr) as Hmod. rewrite Hlen. cbn [length].
    destruct r as [|e r'].
    + unfold endsWith. simpl. by rewrite !bool_decide_false by congruence.
    + assert (4 <= length (e :: r'))%nat by (destruct r' as [|? [|? [|? ?]]]; simpl in *; try done; lia).
      change (a :: b :: c :: d :: e :: r') with ([a; b; c; d] ++ e :: r').
      rewrite !endsWith_app by (simpl in *; lia). repeat case_match; lia.
Qed.

(** A text passes [isBase64EncodedBytes] exactly when it encodes that many bytes. *)
Lemma isBase64EncodedBytes_spec s n :
  isBase64EncodedBytes s n = true ↔ ∃ l, bytes l ∧ Z.of_nat (length l) = n ∧ s = bytesToBase64 l.
Proof.
  unfold isBase64EncodedBytes, bytesToBase64. split.
  - intros H. bool_hyps. assert (Hc : canonical s) by by apply regex_canonical.
    exists (base64Decode s). destruct (base64Text_decode s Hc) as [Ht Hb]. rewrite <-base64DecodedByteLength_spec by done.
    done.
  - intros (l & Hb & Hn & ->). destruct (base64Decode_text l Hb) as [Hd Hc].
    rewrite base64DecodedByteLength_spec, Hd, Hn, Z.eqb_refl by done. destruct (canonical_regex _ Hc) as [-> ->].
    pose proof (canonical_length _ Hc) as Hl. unfold jslen. change 4 with (Z.of_nat 4).
    by rewrite <-Nat2Z.inj_mod, Hl.
Qed.

Lemma isBoundedCanonicalBase64_spec s lo hi :
  isBoundedCanonicalBase64 s lo hi = true ↔ ∃ l, bytes l ∧ lo <= jslen s <= hi ∧ s = bytesToBase64 l.
Proof.
  unfold isBoundedCanonicalBase64, bytesToBase64. split.
  - intros H. bool_hyps. assert (Hc : canonical s) by by apply regex_canonical.
    exists (base64Decode s). by destruct (base64Text_decode s Hc) as [Ht Hb].
  - intros (l & Hb & Hn & ->). destruct (base64Decode_text l Hb) as [Hd Hc].
    destruct (canonical_regex _ Hc) as [-> ->].
    pose proof (canonical_length _ Hc) as Hl. rewrite !andb_true_iff, !Z.leb_le, Z.eqb_eq. split_and!; try lia; try done.
    unfold jslen. change 4 with (Z.of_nat 4). by rewrite <-Nat2Z.inj_mod, Hl.
Qed.
