(* ===== verification/Authority.v ===== *)
(** * Authority: hosts, ports and authorities ([src/shared/authority.ts]).

    The WHATWG URL parser behind [new URL(...)] is not part of the source: it
    is a class, and every statement here holds whatever it answers.  The one
    question asked of it here is whether a bracketed text is an IPv6 host. *)
From S2P Require Import Prelude.
From S2P Require Import Constants.
From S2P Require Import JsText.
#[local] Open Scope Z_scope.

(** What the source reads of [new URL(text)]; parsing is [None] when it throws. *)
Record Url := {
  url_protocol : jsstr;
  url_username : jsstr;
  url_password : jsstr;
  url_hostname : jsstr;
  url_host : jsstr;
  url_port : jsstr;
  url_pathname : jsstr;
  url_search : jsstr;
  url_hash : jsstr;
  url_href : jsstr;
  url_origin : jsstr
}.
Class UrlParser := { parseUrl : jsstr → option Url }.

Definition colon : Z := 58.
Definition dot : Z := 46.
Definition hyphen : Z := 45.
Definition lbracket : Z := 91.
Definition rbracket : Z := 93.

Definition MAX_AUTHORITY_CHARS : Z := 255.

(** [UNSAFE_AUTHORITY_CHARS.test(s)] *)
Definition hasUnsafeAuthorityChars (s : jsstr) : bool :=
  existsb (λ cp, isCcCf cp || isSpace cp || bool_decide (cp ∈ [44; 47; 92; 64])) (codePoints s).

(** [isValidHostname] *)
Definition isHostLabel (label : jsstr) : bool :=
  (0 <? jslen label) && (jslen label <=? 63) &&
  forallb (λ c, isAlpha c || isDigit c || (c =? hyphen)) label &&
  negb (startsWith [hyphen] label) && negb (endsWith [hyphen] label).

Definition isValidHostname (host : jsstr) : bool :=
  if (jslen host =? 0) || (253 <? jslen host) || bool_decide (host = [dot]) || endsWith [dot] host then false
  else forallb isHostLabel (splitOn dot host).

(** [isAmbiguousNumericHost] *)
Definition isHexUnit (c : Z) : bool := isDigit c || ((97 <=? c) && (c <=? 102)) || ((65 <=? c) && (c <=? 70)).

Definition isAmbiguousNumericHost (host : jsstr) : bool :=
  allDigits host ||
  (let parts := splitOn dot host in
   (2 <=? Z.of_nat (length parts)) && (Z.of_nat (length parts) <=? 4) && forallb allDigits parts) ||
  match host with
  | z :: x :: r => (z =? 48) && ((x =? 120) || (x =? 88)) && negb (bool_decide (r = [])) && forallb isHexUnit r
  | _ => false
  end.

(** [/^(?:0|[1-9]\d{0,2})$/.test(part) && Number(part) <= 255] *)
Definition isOctet (part : jsstr) : bool :=
  match part with
  | [] => false
  | c :: r =>
    (if c =? 48 then bool_decide (r = [])
     else (49 <=? c) && (c <=? 57) && (Z.of_nat (length r) <=? 2) && forallb isDigit r) &&
    (decimalValue part <=? 255)
  end.

(** [isStrictDottedIpv4] *)
Definition isStrictDottedIpv4 (host : jsstr) : bool :=
  let parts := splitOn dot host in
  (Z.of_nat (length parts) =? 4) && forallb isOctet parts.

(** [isValidPort] *)
Definition isValidPort (port : jsstr) : bool :=
  allDigits port && (jslen port <=? 5) && (1 <=? decimalValue port) && (decimalValue port <=? 65535).

(** [authorityInputAllowed] *)
Definition authorityInputAllowed (authority : jsstr) : bool :=
  (0 <? jslen authority) && (jslen authority <=? MAX_AUTHORITY_CHARS) && negb (hasUnsafeAuthorityChars authority).

(** [ParsedAuthority] and [splitAuthority] *)
Record ParsedAuthority := { pa_name : jsstr; pa_port : option jsstr }.

Definition splitAuthority (authority : jsstr) : option ParsedAuthority :=
  if negb (authorityInputAllowed authority) then None
  else if startsWith [lbracket] authority then
    let close := indexOf rbracket authority in
    if close <=? 1 then None
    else
      let name := slice 0 (close + 1) authority in
      let rest := slice (close + 1) (jslen authority) authority in
      if decide (rest = []) then Some {| pa_name := name; pa_port := None |}
      else if negb (startsWith [colon] rest) || negb (isValidPort (slice 1 (jslen rest) rest)) then None
      else Some {| pa_name := name; pa_port := Some (slice 1 (jslen rest) rest) |}
  else
    let firstColon := indexOf colon authority in
    if firstColon =? -1 then Some {| pa_name := authority; pa_port := None |}
    else if negb (firstColon =? lastIndexOf colon authority) then None
    else
      let name := slice 0 firstColon authority in
      let port := slice (firstColon + 1) (jslen authority) authority in
      if negb (isValidPort port) then None else Some {| pa_name := name; pa_port := Some port |}.

Section Hosts.
Context `{UrlParser, JsCase}.

Definition isBracketedHost (url : jsstr) : bool :=
  match parseUrl url with
  | Some parsed =>
    startsWith [lbracket] (url_hostname parsed) && endsWith [rbracket] (url_hostname parsed) &&
    includesUnit colon (url_hostname parsed)
  | None => false
  end.

(** [isRawIpv6Address] *)
Definition isRawIpv6Address (host : jsstr) : bool :=
  if negb (includesUnit colon host) || includesUnit lbracket host || includesUnit rbracket host then false
  else isBracketedHost (js "http://[" ++ host ++ [rbracket]).

(** [isValidBracketedIpv6] *)
Definition isValidBracketedIpv6 (host : jsstr) : bool := isBracketedHost (js "http://" ++ host).

(** [isValidHostNameOrIp] *)
Definition isValidHostNameOrIp (host : jsstr) : bool :=
  if bool_decide (host = []) || (253 <? jslen host) then false
  else if isStrictDottedIpv4 host || isRawIpv6Address host then true
  else if includesUnit colon host || includesUnit lbracket host || includesUnit rbracket host then false
  else if isAmbiguousNumericHost host then false
  else isValidHostname host.

(** The match of a bracketed host name: the text between the brackets, which
    holds no line terminator. *)
Definition isLineTerminator (c : Z) : bool := (c =? 10) || (c =? 13) || (c =? 0x2028) || (c =? 0x2029).
Definition unbracket (hostname : jsstr) : option jsstr :=
  if startsWith [lbracket] hostname && endsWith [rbracket] hostname && (2 <=? jslen hostname) then
    let inner := slice 1 (jslen hostname - 1) hostname in
    if existsb isLineTerminator inner then None else Some inner
  else None.

(** [isValidOriginHostname] *)
Definition isValidOriginHostname (hostname : jsstr) : bool :=
  if (jslen hostname =? 0) || (MAX_AUTHORITY_CHARS <? jslen hostname) then false
  else match unbracket hostname with
       | Some inner => isRawIpv6Address inner
       | None => isValidHostNameOrIp hostname
       end.

(** [isValidAuthority] *)
Definition isValidAuthority (authority : jsstr) : bool :=
  if negb (authorityInputAllowed authority) then false
  else match splitAuthority authority with
       | None => false
       | Some parsed =>
         if startsWith [lbracket] (pa_name parsed) && endsWith [rbracket] (pa_name parsed)
         then isValidBracketedIpv6 (pa_name parsed)
         else isValidHostNameOrIp (pa_name parsed)
       end.

(** [isLoopbackAuthority] *)
Definition isLoopbackAuthority (authority : jsstr) : bool :=
  match splitAuthority authority with
  | None => false
  | Some parsed =>
    let lower := toLowerCase (pa_name parsed) in
    let host := default lower (unbracket lower) in
    if bool_decide (host = js "localhost") || bool_decide (host = js "::1") then true
    else
      let parts := splitOn dot host in
      (Z.of_nat (length parts) =? 4) && bool_decide (parts !! 0%nat = Some (js "127")) && forallb isOctet parts
  end.

End Hosts.

(** ** Theorems *)

Lemma indexFrom_spec c s i :
  0 <= i →
  (indexFrom c s i = -1 ∧ c ∉ s) ∨
  (∃ k, indexFrom c s i = i + Z.of_nat k ∧ s !! k = Some c ∧ c ∉ take k s).
Proof.
  revert i. induction s as [|d s IH]; intros i Hi; simpl; [left; split; [done|apply not_elem_of_nil]|].
  case_decide as E.
  - right. exists 0%nat. subst. simpl. split_and!; [lia|done|apply not_elem_of_nil].
  - destruct (IH (i + 1)) as [[-> Hn]|(k & -> & Hk & Hn)]; [lia|left|right].
    + split; [done|]. by rewrite not_elem_of_cons.
    + exists (S k). split_and!; [lia|done|]. simpl. by rewrite not_elem_of_cons.
Qed.

Lemma slice_split a s : 0 <= a <= jslen s → slice 0 a s ++ slice a (jslen s) s = s.
Proof.
  unfold slice, jslen. intros Ha. rewrite Z.sub_0_r. simpl. rewrite drop_0.
  rewrite (take_ge (drop _ _)) by (rewrite length_drop; lia). apply take_drop.
Qed.

Lemma slice_cons a c s :
  0 <= a → s !! Z.to_nat a = Some c → slice a (jslen s) s = c :: slice (a + 1) (jslen s) s.
Proof.
  unfold slice, jslen. intros Ha Hs. pose proof (lookup_lt_Some _ _ _ Hs).
  rewrite !take_ge by (rewrite length_drop; lia). rewrite (drop_S _ _ _ Hs). do 2 f_equal. lia.
Qed.

Lemma startsWith_unit c s : startsWith [c] s = true ↔ ∃ r, s = c :: r.
Proof.
  unfold startsWith. rewrite bool_decide_eq_true. split.
  - destruct s as [|d s]; [done|]. simpl. rewrite take_0. intros [= ->]. eauto.
  - intros [r ->]. simpl. by rewrite take_0.
Qed.

Lemma slice_tail c s : slice 1 (jslen (c :: s)) (c :: s) = s.
Proof. unfold slice, jslen. apply take_ge. simpl. lia. Qed.

(** Splitting an authority loses nothing and never misreads a port: the
    name, and if there is one a colon and the port, are the authority again;
    the port is a decimal number between 1 and 65535; and the name is either in
    brackets or holds no colon. *)
Theorem splitAuthority_sound authority p :
  splitAuthority authority = Some p →
  authority = pa_name p ++ match pa_port p with Some port => colon :: port | None => [] end ∧
  (∀ port, pa_port p = Some port → digits port ∧ 1 <= decimalValue port <= 65535) ∧
  (startsWith [lbracket] (pa_name p) = true ∨ colon ∉ pa_name p).
Proof.
  assert (Hport : ∀ port, isValidPort port = true → digits port ∧ 1 <= decimalValue port <= 65535).
  { unfold isValidPort, allDigits. intros port H. bool_hyps. split; [|lia].
    apply Forall_forall. intros c Hc. by apply (proj1 (forallb_forall isDigit port) H3), list_elem_of_In. }
  unfold splitAuthority. intros H. destruct (negb (authorityInputAllowed authority)) eqn:Hall; [done|].
  destruct (startsWith [lbracket] authority) eqn:Hb.
  - destruct (indexOf rbracket authority <=? 1) eqn:Hclose; [done|]. bool_hyps.
    unfold indexOf in *. destruct (indexFrom_spec rbracket authority 0) as [[E _]|(k & E & Hk & _)]; [lia|lia|].
    rewrite E in *. set (a := 0 + Z.of_nat k + 1) in *. pose proof (lookup_lt_Some _ _ _ Hk).
    assert (Ha : 0 <= a <= jslen authority) by (unfold jslen; lia).
    pose proof (slice_split a authority Ha) as Hsplit.
    assert (Hname : startsWith [lbracket] (slice 0 a authority) = true).
    { apply startsWith_unit in Hb as [r ->]. apply startsWith_unit. unfold slice. rewrite Z.sub_0_r.
      simpl. destruct (Z.to_nat a) eqn:?; [lia|]. simpl. eauto. }
    case_decide as Hrest; simplify_eq/=.
    + rewrite Hrest in Hsplit. split_and!; [done|done|by left].
    + destruct (slice a (jslen authority) authority) as [|c rest] eqn:Er; [done|].
      destruct (startsWith [colon] (c :: rest)) eqn:Ec; [|done]. rewrite slice_tail in H.
      destruct (isValidPort rest) eqn:Ep; [|done]. simplify_eq/=.
      apply startsWith_unit in Ec as [r [= -> ->]]. split_and!; [done|naive_solver|by left].
  - unfold indexOf in *. destruct (indexFrom_spec colon authority 0) as [[E Hn]|(k & E & Hk & Hn)]; [lia|..];
      rewrite E in H.
    + simplify_eq/=. rewrite app_nil_r. split_and!; [done|done|by right].
    + rewrite (proj2 (Z.eqb_neq _ (-1))) in H by lia. rewrite Z.add_0_l in H.
      destruct (negb (Z.of_nat k =? lastIndexOf colon authority)); [done|].
      destruct (isValidPort (slice (Z.of_nat k + 1) (jslen authority) authority)) eqn:Ep; [|done]. simplify_eq/=.
      pose proof (lookup_lt_Some _ _ _ Hk).
      assert (Ha : 0 <= Z.of_nat k <= jslen authority) by (unfold jslen; lia). split_and!.
      * rewrite <-(slice_cons (Z.of_nat k)) by (lia || by rewrite Nat2Z.id). by rewrite slice_split.
      * naive_solver.
      * right. unfold slice. rewrite Z.sub_0_r, Nat2Z.id. simpl. by rewrite drop_0.
Qed.

Lemma splitAuthority_sound_witness :
  splitAuthority (js "example.org:8443") = Some {| pa_name := js "example.org"; pa_port := Some (js "8443") |} ∧
  js "example.org:8443" = js "example.org" ++ colon :: js "8443".
Proof.
  split; [reflexivity|].
  exact (proj1 (splitAuthority_sound (js "example.org:8443")
    {| pa_name := js "example.org"; pa_port := Some (js "8443") |} eq_refl)).
Defined.

(** *** Dotted addresses *)

Lemma isOctet_spec part : isOctet part = true ↔ ∃ n, 0 <= n <= 255 ∧ part = jsInt n.
Proof.
  split.
  - intros H. exists (decimalValue part). unfold isOctet in H. destruct part as [|c r]; [done|].
    destruct (c =? 48) eqn:E48; bool_hyps; [by subst|].
    assert (Hd : digits (c :: r)).
    { constructor; [unfold isDigit; apply andb_true_iff; rewrite !Z.leb_le; lia|].
      apply Forall_forall. intros x Hx. by apply (proj1 (forallb_forall isDigit r) H1), list_elem_of_In. }
    split; [|by rewrite jsInt_decimalValue]. pose proof (decimalValue_nonneg (c :: r) Hd). lia.
  - intros (n & Hn & ->). destruct n as [|p|p]; [done| |lia].
    destruct (jsInt_digits (Zpos p)) as [Hd _]; [lia|]. pose proof (jsInt_length 3 (Zpos p) ltac:(lia) ltac:(lia)) as Hl.
    pose proof (decimalValue_jsInt (Zpos p) ltac:(lia)) as Hv.
    destruct (jsInt_pos_head p) as (c & r & E & Hc & H48). rewrite E in *. unfold isOctet. rewrite Hv.
    inversion_clear Hd as [|?? Hcd Hr]. unfold isDigit in Hc. bool_hyps.
    rewrite (proj2 (Z.eqb_neq c 48)) by done. rewrite !andb_true_iff, !Z.leb_le. simpl in Hl.
    split_and!; [lia|lia|lia| |lia]. apply forallb_forall. intros x Hx.
    unfold digits in Hr. rewrite Forall_forall in Hr. by apply Hr, list_elem_of_In.
Qed.

(** The texts that count as a dotted IPv4 address. *)
Lemma isStrictDottedIpv4_spec host :
  isStrictDottedIpv4 host = true ↔
  ∃ a b c d, Forall (λ n, 0 <= n <= 255) [a; b; c; d] ∧
    host = joinWith [dot] [jsInt a; jsInt b; jsInt c; jsInt d].
Proof.
  unfold isStrictDottedIpv4. split.
  - intros H. pose proof (joinWith_splitOn dot host) as Hj.
    apply andb_true_iff in H as [Hl H]. apply Z.eqb_eq in Hl.
    destruct (splitOn dot host) as [|a [|b [|c [|d [|? ?]]]]]; cbn [length] in Hl; try lia. simpl in H. bool_hyps.
    repeat match goal with H : isOctet _ = true |- _ => apply isOctet_spec in H as (? & ? & ->) end.
    eexists _, _, _, _. split; [|by rewrite <-Hj]. rewrite !Forall_cons. split_and!; try lia. by apply Forall_nil.
  - intros (a & b & c & d & Hall & ->). rewrite !Forall_cons in Hall. destruct_and!.
    assert (Hdot : ∀ n, 0 <= n <= 255 → dot ∉ jsInt n).
    { intros n Hn Hin. destruct (jsInt_digits n) as [Hd _]; [lia|]. unfold digits in Hd.
      rewrite Forall_forall in Hd. by apply Hd in Hin. }
    cbn [joinWith app]. rewrite !splitOn_app, splitOn_single by auto. cbn [length forallb].
    rewrite !(proj2 (isOctet_spec _)) by eauto. done.
Qed.

(** A parser that refuses every URL. *)
Definition noUrls : UrlParser := {| parseUrl _ := None |}.
