(* ===== verification/Wordlist.v ===== *)
(** * Wordlist: receive codes ([src/shared/wordlist.ts]).

    The English word list is a library's: it is a class parameter, with the
    documented facts the code relies on.  Random 32-bit values are read from a
    stream, a [list Z] consumed from the front; a function that needs more
    values than the list holds returns [None].

    The theorems: every generated code parses back to its own parts, the
    normal form of a code is stable, and the index drawn from the random values
    is unbiased. *)
From S2P Require Import Prelude.
From S2P Require Import Constants.
From S2P Require Import JsText.
#[local] Open Scope Z_scope.

Definition RENDEZVOUS_DIGITS : Z := 8.
Definition GENERATED_RENDEZVOUS_DIGITS : Z := 12.
Definition MAX_CODE_INPUT_BYTES : Z := 256.
Definition MAX_CODE_INPUT_CHARS : Z := MAX_CODE_INPUT_BYTES.
Definition GENERATED_RENDEZVOUS_CHUNK_DIGITS : Z := 6.
Definition RENDEZVOUS_CHUNK_SPACE : Z := 10 ^ GENERATED_RENDEZVOUS_CHUNK_DIGITS.

(** [@scure/bip39/wordlists/english]: non-empty words of at most eight
    lower-case ASCII letters. *)
Class WordList := {
  wordlist : list jsstr;
  wordlist_words w : w ∈ wordlist → (1 <= length w <= 8)%nat ∧ Forall (λ c, isLower c = true) w;
  wordlist_size : (1 <= length wordlist <= 2048)%nat
}.

Definition dash : Z := 45.

(** [RENDEZVOUS_PATTERN.test]: all digits, 8 or 12 of them *)
Definition isRendezvousText (s : jsstr) : bool :=
  forallb isDigit s && ((jslen s =? RENDEZVOUS_DIGITS) || (jslen s =? GENERATED_RENDEZVOUS_DIGITS)).

(** [isValidRendezvous] on a string *)
Definition isValidRendezvous (value : jsstr) : bool := isRendezvousText value.

(** A maximal run of [f], which must be followed by [-]: the run and the rest. *)
Definition splitDash (f : Z → bool) (s : jsstr) : option (jsstr * jsstr) :=
  match dropWhile f s with
  | c :: rest => if decide (c = dash) then Some (takeWhile f s, rest) else None
  | [] => None
  end.

(** [CODE_PATTERN.exec]: the groups rendezvous, wordA, wordB *)
Definition codePattern (s : jsstr) : option (jsstr * jsstr * jsstr) :=
  match splitDash isDigit s with
  | None => None
  | Some (rendezvous, rest) =>
    if negb ((jslen rendezvous =? RENDEZVOUS_DIGITS) || (jslen rendezvous =? GENERATED_RENDEZVOUS_DIGITS))
    then None
    else match splitDash isLower rest with
         | None => None
         | Some (wordA, wordB) =>
           if bool_decide (wordA = []) || bool_decide (wordB = []) || negb (forallb isLower wordB) then None
           else Some (rendezvous, wordA, wordB)
         end
  end.

Record ParsedCode := { handle : jsstr; rendezvous : jsstr; secret : jsstr }.

Section Codes.
Context `{JsCase, WordList}.

(** [normalizeCode] on a string *)
Definition normalizeCode (code : jsstr) : jsstr :=
  if utf8ByteLengthExceeds code MAX_CODE_INPUT_BYTES then [] else toLowerCase (trim code).

(** [parseCode] *)
Definition parseCode (code : jsstr) : option ParsedCode :=
  let normalized := normalizeCode code in
  match codePattern normalized with
  | None => None
  | Some (r, wordA, wordB) =>
    if decide (wordA = wordB) then None
    else if negb (bool_decide (wordA ∈ wordlist)) || negb (bool_decide (wordB ∈ wordlist)) then None
    else Some {| handle := normalized; rendezvous := r; secret := wordA ++ [dash] ++ wordB |}
  end.

(** [isValidCode] *)
Definition isValidCode (code : jsstr) : bool := match parseCode code with Some _ => true | None => false end.

(** [randomIndex]: the rejection loop over the random 32-bit values *)
Fixpoint drawBelow (limit maxExclusive : Z) (random : list Z) : option (Z * list Z) :=
  match random with
  | [] => None
  | value :: rest =>
    if value <? limit then Some (value mod maxExclusive, rest) else drawBelow limit maxExclusive rest
  end.

Definition randomIndex (maxExclusive : Z) (random : list Z) : option (Z * list Z) :=
  drawBelow (0x100000000 / maxExclusive * maxExclusive) maxExclusive random.

(** [String(n).padStart(width, "0")] *)
Definition padStart0 (width : Z) (s : jsstr) : jsstr :=
  replicate (Z.to_nat (width - jslen s)) 48 ++ s.

(** [randomNameplateChunk] *)
Definition randomNameplateChunk (random : list Z) : option (jsstr * list Z) :=
  '(i, rest) ← randomIndex RENDEZVOUS_CHUNK_SPACE random;
  Some (padStart0 GENERATED_RENDEZVOUS_CHUNK_DIGITS (jsInt i), rest).

(** [randomNameplate] *)
Definition randomNameplate (random : list Z) : option (jsstr * list Z) :=
  '(a, rest) ← randomNameplateChunk random;
  '(b, rest) ← randomNameplateChunk rest;
  Some (a ++ b, rest).

(** [wordlist[randomIndex(wordlist.length)]!] *)
Definition randomWord (random : list Z) : option (jsstr * list Z) :=
  '(i, rest) ← randomIndex (Z.of_nat (length wordlist)) random;
  Some (default [] (wordlist !! Z.to_nat i), rest).

(** [randomWordExcept]: redraws until the word differs; each draw consumes at
    least one value, so the length of the stream bounds the draws. *)
Fixpoint wordExceptLoop (fuel : nat) (disallowed : jsstr) (random : list Z) : option (jsstr * list Z) :=
  match fuel with
  | O => None
  | S fuel =>
    '(word, rest) ← randomWord random;
    if decide (word = disallowed) then wordExceptLoop fuel disallowed rest else Some (word, rest)
  end.

Definition randomWordExcept (disallowed : jsstr) (random : list Z) : option (jsstr * list Z) :=
  wordExceptLoop (S (length random)) disallowed random.

(** [generateCode] *)
Definition generateCode (random : list Z) : option (jsstr * list Z) :=
  '(wordA, rest) ← randomWord random;
  '(wordB, rest) ← randomWordExcept wordA rest;
  '(nameplate, rest) ← randomNameplate rest;
  Some (nameplate ++ [dash] ++ wordA ++ [dash] ++ wordB, rest).

End Codes.

(** ** Lemmas *)

Definition lowers (s : jsstr) : Prop := Forall (λ c, isLower c = true) s.

Lemma padStart0_digits width s : digits s → digits (padStart0 width s).
Proof. intros. apply Forall_app. split; [|done]. by apply Forall_replicate. Qed.

Lemma padStart0_length width s : jslen s <= width → jslen (padStart0 width s) = width.
Proof. unfold padStart0, jslen. rewrite length_app, length_replicate. lia. Qed.

Lemma splitDash_app f s r :
  Forall (λ c, f c = true) s → f dash = false → splitDash f (s ++ dash :: r) = Some (s, r).
Proof.
  intros Hs Hf. unfold splitDash. destruct (takeWhile_app_stop f s dash r Hs Hf) as [-> ->].
  by rewrite decide_True.
Qed.

Lemma splitDash_inv f s a r :
  splitDash f s = Some (a, r) → s = a ++ dash :: r ∧ Forall (λ c, f c = true) a.
Proof.
  unfold splitDash. intros H. case_match eqn:E; [done|]. case_decide; [|done]. simplify_eq.
  split; [by rewrite <-E, takeWhile_dropWhile|apply takeWhile_all].
Qed.

(** The pattern, in both directions. *)
Lemma codePattern_spec s r a b :
  codePattern s = Some (r, a, b) ↔
  s = r ++ [dash] ++ a ++ [dash] ++ b ∧ digits r ∧ (jslen r = 8 ∨ jslen r = 12) ∧
  lowers a ∧ lowers b ∧ a ≠ [] ∧ b ≠ [].
Proof.
  unfold codePattern. split.
  - intros H. case_match eqn:E1; [|done]. destruct p as [r' rest].
    case_match eqn:E2; [done|]. case_match eqn:E3; [|done]. destruct p as [a' b'].
    case_match eqn:E4; [done|]. simplify_eq.
    apply splitDash_inv in E1 as [-> ?], E3 as [-> ?]. bool_hyps.
    apply orb_true_iff in E2 as [E|E]; bool_hyps;
      unfold RENDEZVOUS_DIGITS, GENERATED_RENDEZVOUS_DIGITS in *;
      (split_and!; auto; by apply Forall_forall; intros x Hx; eapply forallb_forall; [|by apply list_elem_of_In]).
  - intros (-> & Hr & Hlen & Ha & Hb & Hna & Hnb). simpl.
    rewrite splitDash_app by done. simpl.
    unfold RENDEZVOUS_DIGITS, GENERATED_RENDEZVOUS_DIGITS.
    replace ((jslen r =? 8) || (jslen r =? 12)) with true
      by (symmetry; rewrite orb_true_iff, !Z.eqb_eq; done). simpl.
    rewrite splitDash_app by done. rewrite !bool_decide_false by done. simpl.
    rewrite (proj2 (forallb_forall _ _)); [done|].
    intros x Hx. unfold lowers in Hb. rewrite Forall_forall in Hb. by apply Hb, list_elem_of_In.
Qed.

(** ** Codes are their own normal form *)

Definition asciiCode (s : jsstr) : Prop :=
  Forall (λ c, isDigit c = true ∨ isLower c = true ∨ c = dash) s.

Lemma asciiCode_range s : asciiCode s → Forall (λ c, 45 <= c < 128) s.
Proof.
  intros Hs. eapply Forall_impl; [exact Hs|]. unfold isDigit, isLower, dash. simpl.
  intros c H. destruct_or?; bool_hyps; lia.
Qed.

Lemma ascii_utf8ByteLength s : Forall (λ c, 45 <= c < 128) s → utf8ByteLength s = jslen s.
Proof.
  unfold jslen. induction 1 as [|c s Hc Hs IH]; [done|]. simpl.
  rewrite (proj2 (Z.ltb_lt c 0x80)) by lia. lia.
Qed.

Lemma trim_ascii s : Forall (λ c, 45 <= c < 128) s → trim s = s.
Proof.
  intros Hs. assert (Hns : Forall (λ c, isSpace c = false) s).
  { eapply Forall_impl; [exact Hs|]. intros c Hc. apply isSpace_ascii. simpl in Hc. lia. }
  unfold trim, dropWhileEnd. rewrite (dropWhile_none isSpace s) by done.
  rewrite dropWhile_none by (by apply Forall_reverse). apply reverse_involutive.
Qed.

Lemma asciiCode_app s t : asciiCode (s ++ t) ↔ asciiCode s ∧ asciiCode t.
Proof. apply Forall_app. Qed.

Lemma digits_asciiCode s : digits s → asciiCode s.
Proof. intros Hs. eapply Forall_impl; [exact Hs|]. simpl. auto. Qed.
Lemma lowers_asciiCode s : lowers s → asciiCode s.
Proof. intros Hs. eapply Forall_impl; [exact Hs|]. simpl. auto. Qed.

Section CodeLemmas.
Context `{JsCase, WordList}.

Lemma normalizeCode_ascii s : asciiCode s → jslen s <= 256 → normalizeCode s = s.
Proof.
  intros Hs Hlen. pose proof (asciiCode_range s Hs) as Hr. unfold normalizeCode.
  rewrite utf8ByteLengthExceeds_spec by done. rewrite ascii_utf8ByteLength by done.
  rewrite (proj2 (Z.ltb_ge _ _)) by (unfold MAX_CODE_INPUT_BYTES; lia).
  rewrite trim_ascii by done. rewrite toLowerCase_ascii.
  - transitivity (map id s); [|by rewrite map_id]. apply map_ext_Forall.
    eapply Forall_impl; [exact Hs|]. unfold asciiLowerUnit, isUpper, isDigit, isLower, dash.
    intros c Hc. simpl. case_match; bool_hyps; [|done]. destruct_or?; bool_hyps; lia.
  - eapply Forall_impl; [exact Hr|]. simpl. lia.
Qed.

Lemma parseCode_parts r a b :
  digits r → jslen r = 8 ∨ jslen r = 12 → a ∈ wordlist → b ∈ wordlist → a ≠ b →
  parseCode (r ++ [dash] ++ a ++ [dash] ++ b) =
    Some {| handle := r ++ [dash] ++ a ++ [dash] ++ b; rendezvous := r; secret := a ++ [dash] ++ b |}.
Proof.
  intros Hr Hlen Ha Hb Hne.
  destruct (wordlist_words a Ha) as [Hla Hwa], (wordlist_words b Hb) as [Hlb Hwb].
  unfold parseCode. rewrite normalizeCode_ascii.
  - rewrite (proj2 (codePattern_spec _ r a b)).
    + rewrite decide_False by done. rewrite !bool_decide_true by done. done.
    + split_and!; try done; by intros ->; simpl in *; lia.
  - rewrite !asciiCode_app. split_and!; auto using digits_asciiCode, lowers_asciiCode;
      by repeat constructor; right; right.
  - unfold jslen in *. rewrite !length_app. simpl. lia.
Qed.

Lemma randomIndex_range n random i rest :
  0 < n → randomIndex n random = Some (i, rest) → 0 <= i < n.
Proof.
  intros Hn. unfold randomIndex. induction random as [|v random IH]; simpl; [done|].
  case_match; [|done]. intros [= <- <-]. by apply Z.mod_pos_bound.
Qed.

Lemma randomWord_elem random w rest : randomWord random = Some (w, rest) → w ∈ wordlist.
Proof.
  unfold randomWord. intros ([i r]&Hi&?)%bind_Some; simplify_eq.
  apply randomIndex_range in Hi; [|pose proof wordlist_size; lia].
  destruct (lookup_lt_is_Some_2 wordlist (Z.to_nat i)) as [w' Hw]; [lia|].
  rewrite Hw. simpl. by eapply list_elem_of_lookup_2.
Qed.

Lemma randomWordExcept_elem d random w rest :
  randomWordExcept d random = Some (w, rest) → w ∈ wordlist ∧ w ≠ d.
Proof.
  unfold randomWordExcept. generalize (S (length random)). intros fuel. revert random.
  induction fuel as [|fuel IH]; intros random; simpl; [done|].
  intros ([w' r]&Hw&Hrest)%bind_Some. case_decide; [by eapply IH|]. simplify_eq.
  by apply randomWord_elem in Hw.
Qed.

Lemma randomNameplateChunk_spec random a rest :
  randomNameplateChunk random = Some (a, rest) → digits a ∧ jslen a = 6.
Proof.
  unfold randomNameplateChunk. intros ([i r]&Hi&?)%bind_Some; simplify_eq.
  apply randomIndex_range in Hi; [|done]. split.
  - apply padStart0_digits. apply jsInt_digits. lia.
  - apply padStart0_length. unfold jslen.
    pose proof (jsInt_length 6 i). unfold RENDEZVOUS_CHUNK_SPACE, GENERATED_RENDEZVOUS_CHUNK_DIGITS in *. lia.
Qed.

(** Whatever the random values, a generated code is valid, and parsing
    it gives the code itself as the handle, its twelve-digit nameplate as the
    rendezvous id, and two different words of the list as the secret. *)
Theorem generateCode_parses random code rest :
  generateCode random = Some (code, rest) →
  ∃ nameplate wordA wordB,
    parseCode code = Some {| handle := code; rendezvous := nameplate; secret := wordA ++ [dash] ++ wordB |} ∧
    isValidRendezvous nameplate = true ∧ jslen nameplate = GENERATED_RENDEZVOUS_DIGITS ∧
    wordA ∈ wordlist ∧ wordB ∈ wordlist ∧ wordA ≠ wordB.
Proof.
  unfold generateCode, randomNameplate.
  intros ([a r1]&Ha&([b r2]&Hb&([n r3]&Hn&?)%bind_Some)%bind_Some)%bind_Some. simplify_eq.
  apply bind_Some in Hn as ([n1 r4]&Hn1&([n2 r5]&Hn2&?)%bind_Some). simplify_eq.
  apply randomNameplateChunk_spec in Hn1 as [Hd1 Hl1], Hn2 as [Hd2 Hl2].
  apply randomWord_elem in Ha. apply randomWordExcept_elem in Hb as [Hb Hne].
  assert (Hd : digits (n1 ++ n2)) by (by apply Forall_app).
  assert (Hl : jslen (n1 ++ n2) = 12) by (unfold jslen in *; rewrite length_app; lia).
  exists (n1 ++ n2), a, b. split_and!; try done.
  - by apply parseCode_parts; auto.
  - unfold isValidRendezvous, isRendezvousText. rewrite Hl.
    rewrite (proj2 (forallb_forall _ _)); [done|].
    intros x Hx. unfold digits in Hd. rewrite Forall_forall in Hd. by apply Hd, list_elem_of_In.
Qed.

(** The handle of a parsed code is in normal form: parsing it again gives
    the same result, so both ends derive the same key material from the text. *)
Theorem parseCode_idempotent code p :
  parseCode code = Some p → parseCode (handle p) = Some p.
Proof.
  unfold parseCode at 1. intros Hp. case_match eqn:E; [|done]. destruct p0 as [[r a] b].
  case_decide; [done|]. case_match eqn:Ew; [done|]. simplify_eq. simpl.
  apply codePattern_spec in E as (-> & Hr & Hlen & Ha & Hb & Hna & Hnb).
  apply orb_false_iff in Ew as [Ea Eb]. bool_hyps. by apply parseCode_parts.
Qed.

End CodeLemmas.

(** The index drawn from one random 32-bit value is unbiased: every index
    is reached from exactly [floor(2^32 / n)] of the accepted values, and fewer
    than [n] of the 2^32 values are rejected. *)
Theorem randomIndex_unbiased n i v rest :
  0 < n <= 2 ^ 32 → 0 <= i < n → 0 <= v < 2 ^ 32 →
  (randomIndex n (v :: rest) = Some (i, rest) ∧ v < 2 ^ 32 / n * n ↔
     ∃ q, 0 <= q < 2 ^ 32 / n ∧ v = q * n + i) ∧
  2 ^ 32 - 2 ^ 32 / n * n < n.
Proof.
  intros Hn Hi Hv. unfold randomIndex. change 0x100000000 with (2 ^ 32).
  pose proof (Z.div_mod (2 ^ 32) n ltac:(lia)). pose proof (Z.mod_pos_bound (2 ^ 32) n ltac:(lia)).
  split; [|lia]. split.
  - intros [Hd Hlt]. simpl in Hd. rewrite (proj2 (Z.ltb_lt _ _)) in Hd by done. simplify_eq.
    exists (v / n). pose proof (Z.div_mod v n ltac:(lia)). split; [|lia]. split.
    + apply Z.div_pos; lia.
    + apply Z.div_lt_upper_bound; lia.
  - intros (q & Hq & ->).
    assert (Hlt : q * n + i < 2 ^ 32 / n * n) by nia. split; [|done]. simpl.
    rewrite (proj2 (Z.ltb_lt _ _)) by done.
    rewrite Z.add_comm, Z.mod_add by lia. by rewrite Z.mod_small.
Qed.

(** A concrete word list, for the witnesses. *)
Definition twoWords : WordList.
Proof.
  refine {| wordlist := [js "apple"; js "anchor"] |}.
  - intros w Hw. apply elem_of_cons in Hw as [->|Hw%list_elem_of_singleton]; [|subst];
      (split; [simpl; lia|by repeat constructor]).
  - simpl. lia.
Defined.

Lemma generateCode_parses_witness :
  let gen := @generateCode twoWords [4; 0; 7; 123456; 42] in
  gen = Some (js "123456000042-apple-anchor", []) ∧
  ∃ nameplate wordA wordB,
    @parseCode asciiCase twoWords (js "123456000042-apple-anchor") =
      Some {| handle := js "123456000042-apple-anchor"; rendezvous := nameplate; secret := wordA ++ [dash] ++ wordB |} ∧
    isValidRendezvous nameplate = true ∧ jslen nameplate = GENERATED_RENDEZVOUS_DIGITS ∧
    wordA ∈ @wordlist twoWords ∧ wordB ∈ @wordlist twoWords ∧ wordA ≠ wordB.
Proof.
  intros gen. split; [vm_compute; reflexivity|].
  apply (@generateCode_parses asciiCase twoWords [4; 0; 7; 123456; 42] _ []). vm_compute. reflexivity.
Defined.

Lemma parseCode_idempotent_witness :
  let p := {| handle := js "12345678-anchor-apple"; rendezvous := js "12345678"; secret := js "anchor-apple" |} in
  @parseCode asciiCase twoWords (js "  12345678-Anchor-APPLE ") = Some p ∧
  @parseCode asciiCase twoWords (handle p) = Some p.
Proof.
  intros p. assert (E : @parseCode asciiCase twoWords (js "  12345678-Anchor-APPLE ") = Some p)
    by (vm_compute; reflexivity).
  split; [done|]. by apply (@parseCode_idempotent asciiCase twoWords (js "  12345678-Anchor-APPLE ")).
Defined.

Lemma randomIndex_unbiased_witness :
  randomIndex 10 [4294967295; 17] = Some (7, []) ∧
  ((randomIndex 10 [17] = Some (7, []) ∧ 17 < 2 ^ 32 / 10 * 10 ↔
     ∃ q, 0 <= q < 2 ^ 32 / 10 ∧ 17 = q * 10 + 7) ∧ 2 ^ 32 - 2 ^ 32 / 10 * 10 < 10).
Proof. split; [vm_compute; reflexivity|]. apply (randomIndex_unbiased 10 7 17 []); lia. Defined.
