(* ===== verification/RateLimit.v ===== *)
(** * RateLimit: the sliding-window rate limiter of [src/server/rate-limit.ts].

    Times are the integers [Date.now()] returns; a stored array of hits is a
    [list Z], oldest first, and the table of limiters is a [gmap] from key
    (an address) to hits.  The theorems show that the limiter keeps at most
    [maxHits + 1] times per key, that forgetting older hits never changes a
    decision (the decisions are those of a reference limiter that keeps the
    whole history), and that pruning is invisible to later decisions. *)
From S2P Require Import Prelude.
From S2P Require Import Constants.
#[local] Open Scope Z_scope.

Definition MAX_RATE_LIMIT_RETAINED_HITS : Z := 100000.

(** [hits.length] as a number. *)
#[local] Abbreviation len := (λ l, Z.of_nat (length l)).

(** [isSafeBoundedHitCount] *)
Definition isSafeBoundedHitCount (v : Z) : bool :=
  isSafeNonNegativeInteger v && (v <? MAX_RATE_LIMIT_RETAINED_HITS).

(** [rateLimitInputsAllowed], for an array of hits *)
Definition rateLimitInputsAllowed (now windowMs maxHits : Z) : bool :=
  isSafeNonNegativeInteger now && isSafePositiveInteger windowMs && isSafeBoundedHitCount maxHits.

(** [ownNumberArrayValue] on the time read at an index *)
Definition ownNumberArrayValue (t : Z) : option Z :=
  if isSafeNonNegativeInteger t then Some t else None.

(** The loop of [recordFixedWindowHit]: [rvalues] holds the stored hits from
    the last one down, [recent] is the array built so far. *)
Fixpoint collectRecent (rvalues : list Z) (now windowMs maxRetained : Z) (recent : list Z)
    : option (list Z) :=
  match rvalues with
  | [] => Some recent
  | v :: rest =>
    if len recent <? maxRetained then
      match ownNumberArrayValue v with
      | None => None
      | Some time =>
        if windowMs <=? now - time then Some recent
        else collectRecent rest now windowMs maxRetained (recent ++ [time])
      end
    else Some recent
  end.

Record HitResult := { allowed : bool; hits : list Z }.

(** [recordFixedWindowHit] *)
Definition recordFixedWindowHit (values : list Z) (now windowMs maxHits : Z) : HitResult :=
  if negb (rateLimitInputsAllowed now windowMs maxHits) then {| allowed := false; hits := [] |}
  else
    let maxRetained := maxHits + 1 in
    match collectRecent (reverse values) now windowMs maxRetained [] with
    | None => {| allowed := false; hits := [now] |}
    | Some collected =>
      let recent := reverse collected ++ [now] in
      let recent := if maxRetained <? len recent
                    then drop (Z.to_nat (len recent - maxRetained)) recent else recent in
      {| allowed := len recent <=? maxHits; hits := recent |}
    end.

(** [hitFixedWindowRateLimit]: the decision, and the table with the key's hits replaced *)
Definition hitFixedWindowRateLimit (table : gmap jsstr (list Z)) (key : jsstr) (now windowMs maxHits : Z)
    : bool * gmap jsstr (list Z) :=
  let result := recordFixedWindowHit (default [] (table !! key)) now windowMs maxHits in
  (allowed result, <[key := hits result]> table).

(** [hitIceConfigRateLimit] *)
Definition hitIceConfigRateLimit (table : gmap jsstr (list Z)) (key : jsstr) (now : Z) :=
  hitFixedWindowRateLimit table key now 60000 ICE_CONFIG_MAX_REQUESTS_PER_MINUTE.

(** [hitTurnCredentialIssueRateLimit] *)
Definition hitTurnCredentialIssueRateLimit (table : gmap jsstr (list Z)) (key : jsstr) (now : Z) :=
  hitFixedWindowRateLimit table key now 60000 TURN_REST_CREDENTIALS_MAX_ISSUES_PER_MINUTE.

(** The first loop of [retainRecentSortedHits], on the hits from the last one
    down: how many of them it keeps. *)
Fixpoint recentCount (rvalues : list Z) (now windowMs : Z) : nat :=
  match rvalues with
  | [] => 0%nat
  | v :: rest =>
    match ownNumberArrayValue v with
    | None => 0%nat
    | Some time => if windowMs <=? now - time then 0%nat else S (recentCount rest now windowMs)
    end
  end.

(** The second loop re-reads the kept range and gives up on an invalid entry. *)
Definition retainRecentSortedHits (values : list Z) (now windowMs : Z) : list Z :=
  let start := (length values - recentCount (reverse values) now windowMs)%nat in
  default [] (mapM ownNumberArrayValue (drop start values)).

(** [pruneFixedWindowRateLimits]: each key's hits are replaced by the recent
    ones, and the key is deleted when none is left. *)
Definition pruneFixedWindowRateLimits (table : gmap jsstr (list Z)) (now windowMs : Z) : gmap jsstr (list Z) :=
  if negb (isSafeNonNegativeInteger now && isSafePositiveInteger windowMs) then table
  else omap (λ values, match retainRecentSortedHits values now windowMs with
                       | [] => None
                       | recent => Some recent
                       end) table.

(** ** Reference limiter: keeps every hit, and allows a hit when fewer than
    [maxHits] earlier hits lie in the window. *)
Definition live (now windowMs t : Z) : Prop := now - t < windowMs.
#[export] Instance live_dec now w t : Decision (live now w t) := Z_lt_dec _ _.

Definition refAllowed (history : list Z) (now windowMs maxHits : Z) : bool :=
  len (filter (live now windowMs) history) + 1 <=? maxHits.

(** The decisions of the code and of the reference on a sequence of hits. *)
Fixpoint limiterRun (kept times : list Z) (windowMs maxHits : Z) : list bool :=
  match times with
  | [] => []
  | now :: rest =>
    let r := recordFixedWindowHit kept now windowMs maxHits in
    allowed r :: limiterRun (hits r) rest windowMs maxHits
  end.

Fixpoint refRun (history times : list Z) (windowMs maxHits : Z) : list bool :=
  match times with
  | [] => []
  | now :: rest =>
    refAllowed history now windowMs maxHits :: refRun (history ++ [now]) rest windowMs maxHits
  end.

(** The times are safe integers in non-decreasing order. *)
Inductive clock_ordered : Z → list Z → Prop :=
| co_nil t : clock_ordered t []
| co_cons t t' l : t <= t' <= MAX_SAFE_INTEGER → clock_ordered t' l → clock_ordered t (t' :: l).

(** ** Lemmas *)

(** The last [n] elements. *)
Definition lastn {A} (n : nat) (l : list A) : list A := drop (length l - n) l.

(** The stored hits of a key: in order, safe, and none later than [now]. *)
Definition wf_hits (now : Z) (l : list Z) : Prop :=
  StronglySorted Z.le l ∧ Forall (λ t, 0 <= t <= now) l.

Lemma lastn_all {A} (n : nat) (l : list A) : (length l <= n)%nat → lastn n l = l.
Proof. intros. unfold lastn. by replace (length l - n)%nat with 0%nat by lia. Qed.

Lemma length_lastn {A} (n : nat) (l : list A) : length (lastn n l) = Nat.min n (length l).
Proof. unfold lastn. rewrite length_drop. lia. Qed.

Lemma lastn_suffix {A} (n : nat) (l : list A) :
  l = take (length l - n) l ++ lastn n l.
Proof. unfold lastn. by rewrite take_drop. Qed.

Lemma reverse_take {A} (n : nat) (l : list A) : reverse (take n (reverse l)) = lastn n l.
Proof. unfold lastn. by rewrite take_reverse, reverse_involutive. Qed.

Section Window.
Context (windowMs maxHits : Z).
#[local] Abbreviation m := (Z.to_nat (maxHits + 1)).

(** A sorted array of hits is its expired hits followed by its live ones. *)
Lemma filter_live_sorted now l :
  StronglySorted Z.le l →
  l = filter (λ t, ¬ live now windowMs t) l ++ filter (live now windowMs) l.
Proof.
  induction 1 as [|t l Hs IH Hall]; [done|]. rewrite !filter_cons.
  destruct (decide (live now windowMs t)) as [Hl|Hl]; simpl.
  - rewrite decide_False by naive_solver.
    assert (Hlive : Forall (live now windowMs) l).
    { eapply Forall_impl; [exact Hall|]. unfold live in *. intros; simpl in *; lia. }
    rewrite (filter_all (live now windowMs) l) by done.
    rewrite filter_none; [done|]. eapply Forall_impl; [exact Hlive|]. naive_solver.
  - rewrite decide_True by done. simpl. by f_equal.
Qed.

Lemma ownNumberArrayValue_safe t : 0 <= t <= MAX_SAFE_INTEGER → ownNumberArrayValue t = Some t.
Proof. intros H. unfold ownNumberArrayValue. by rewrite (proj2 (isSafeNonNegativeInteger_spec t)). Qed.

(** The collecting loop takes live hits until it meets an expired one. *)
Lemma collectRecent_live now (xs ys recent : list Z) :
  now <= MAX_SAFE_INTEGER →
  Forall (λ t, 0 <= t <= now ∧ live now windowMs t) xs →
  Forall (λ t, 0 <= t <= now ∧ ¬ live now windowMs t) ys →
  Z.of_nat (length recent) <= maxHits + 1 →
  collectRecent (xs ++ ys) now windowMs (maxHits + 1) recent =
    Some (recent ++ take (m - length recent) xs).
Proof.
  intros Hnow Hxs Hys. revert recent. induction Hxs as [|x xs [? Hl] Hxs IH]; intros recent Hlen; simpl.
  - rewrite take_nil, app_nil_r. destruct Hys as [|y ys [? Hd] ?]; [done|]. simpl.
    case_match; [|done]. rewrite ownNumberArrayValue_safe by lia.
    unfold live in Hd. by rewrite (proj2 (Z.leb_le _ _)) by lia.
  - case_match; bool_hyps.
    + rewrite ownNumberArrayValue_safe by lia. unfold live in Hl.
      rewrite (proj2 (Z.leb_gt _ _)) by lia.
      rewrite IH by (rewrite length_app; simpl; lia).
      rewrite length_app, <-app_assoc. simpl.
      replace (m - length recent)%nat with (S (m - (length recent + 1))) by lia. done.
    + replace (m - length recent)%nat with 0%nat by lia. by rewrite app_nil_r.
Qed.

(** The result of one hit, in closed form. *)
Lemma recordFixedWindowHit_closed (values : list Z) (now : Z) :
  rateLimitInputsAllowed now windowMs maxHits = true → wf_hits now values →
  recordFixedWindowHit values now windowMs maxHits =
    {| allowed := refAllowed values now windowMs maxHits;
       hits := lastn m (filter (live now windowMs) values ++ [now]) |}.
Proof.
  intros Hin [Hs Hv]. unfold recordFixedWindowHit. rewrite Hin. simpl.
  unfold rateLimitInputsAllowed, isSafeBoundedHitCount in Hin. bool_hyps.
  apply isSafeNonNegativeInteger_spec in H as ?. apply isSafeNonNegativeInteger_spec in H0 as ?.
  rewrite (filter_live_sorted now values Hs) at 1. rewrite reverse_app.
  set (L := filter (live now windowMs) values).
  rewrite collectRecent_live; [|lia| | |simpl; lia].
  2-3: apply Forall_reverse, Forall_forall; intros t [? Hin]%list_elem_of_filter;
    split; [|done]; rewrite Forall_forall in Hv; by apply Hv.
  simpl. rewrite Nat.sub_0_r, reverse_take. unfold refAllowed. fold L.
  rewrite length_app, length_lastn. simpl. f_equal.
  - case_match; bool_hyps; rewrite ?length_drop, length_app, length_lastn; simpl;
      apply eq_bool_prop_intro; rewrite !Is_true_true, !Z.leb_le; lia.
  - case_match; bool_hyps.
    + assert (Nat.min m (length L) = m) by lia.
      unfold lastn. rewrite length_app. simpl.
      rewrite !drop_app, !drop_drop, length_drop.
      f_equal; f_equal; lia.
    + rewrite !lastn_all; [done|rewrite length_app; simpl; lia|lia].
Qed.

(** What the stored hits remember of the whole history: it ends with them, and
    whatever was dropped is expired unless the retained hits alone exceed the
    limit. *)
Definition represents (now : Z) (history kept : list Z) : Prop :=
  wf_hits now history ∧
  ∃ old, history = old ++ kept ∧
    (Forall (λ t, ¬ live now windowMs t) old ∨ (m <= length kept)%nat).

Lemma wf_hits_app now (l1 l2 : list Z) : wf_hits now (l1 ++ l2) → wf_hits now l1 ∧ wf_hits now l2.
Proof.
  intros [Hs Hv]. apply Forall_app in Hv as [??]. apply StronglySorted_app in Hs as (?&?&?).
  done.
Qed.

Lemma wf_hits_later now now' (l : list Z) : now <= now' → wf_hits now l → wf_hits now' l.
Proof.
  intros ? [? Hv]. split; [done|]. eapply Forall_impl; [exact Hv|]. simpl. lia.
Qed.

Lemma wf_hits_snoc now (l : list Z) : 0 <= now → wf_hits now l → wf_hits now (l ++ [now]).
Proof.
  intros ? [Hs Hv]. split.
  - apply StronglySorted_app. split_and!; [|done|by repeat constructor].
    intros x y Hx ->%list_elem_of_singleton. rewrite Forall_forall in Hv. by apply Hv.
  - apply Forall_app. split; [done|]. repeat constructor; lia.
Qed.

(** A live old hit makes every later one live. *)
Lemma live_after now (old kept : list Z) :
  wf_hits now (old ++ kept) → ¬ Forall (λ t, ¬ live now windowMs t) old →
  Forall (live now windowMs) kept.
Proof.
  intros [Hs _] Hex. apply StronglySorted_app in Hs as (Hle&_&_).
  apply not_Forall_Exists in Hex; [|apply _]. apply Exists_exists in Hex as (x&Hx&Hlx).
  apply Forall_forall. intros y Hy. specialize (Hle x y Hx Hy).
  unfold live in *. simpl in *. lia.
Qed.

Lemma represents_allowed now (history kept : list Z) :
  0 <= maxHits → represents now history kept →
  refAllowed kept now windowMs maxHits = refAllowed history now windowMs maxHits.
Proof.
  intros Hmax (Hwf & old & -> & Hold). unfold refAllowed. rewrite filter_app, length_app.
  destruct (decide (Forall (λ t, ¬ live now windowMs t) old)) as [Hd|Hd].
  - rewrite (filter_none _ old) by done. done.
  - destruct Hold as [?|Hlen]; [done|].
    rewrite (filter_all _ kept) by (by eapply live_after).
    apply eq_bool_prop_intro. rewrite !Is_true_true, !Z.leb_le. lia.
Qed.

Lemma represents_later now now' (history kept : list Z) :
  now <= now' → represents now history kept → represents now' history kept.
Proof.
  intros ? (? & old & -> & Hold). split; [by eapply wf_hits_later|].
  exists old. split; [done|]. destruct Hold as [Hd|]; [left|by right].
  eapply Forall_impl; [exact Hd|]. unfold live. intros; simpl in *; lia.
Qed.

Lemma represents_step now (history kept : list Z) :
  0 <= now → 0 <= maxHits → represents now history kept →
  represents now (history ++ [now]) (lastn m (filter (live now windowMs) kept ++ [now])).
Proof.
  intros Hnow Hmax (Hwf & old & -> & Hold). split; [by apply wf_hits_snoc|].
  pose proof (proj2 (wf_hits_app _ _ _ Hwf)) as Hk.
  pose proof (filter_live_sorted now kept (proj1 Hk)) as Hsplit.
  set (L := filter (live now windowMs) kept) in *.
  set (D := filter (λ t, ¬ live now windowMs t) kept) in *.
  exists (old ++ D ++ take (length (L ++ [now]) - m) (L ++ [now])). split.
  { rewrite <-!app_assoc, <-lastn_suffix. rewrite (app_assoc D L [now]), <-Hsplit. done. }
  rewrite length_lastn, length_app. simpl.
  destruct (decide (m <= length L + 1)%nat) as [?|Hlt]; [right; lia|left].
  replace (length L + 1 - m)%nat with 0%nat by lia. rewrite take_0, app_nil_r.
  apply Forall_app. split.
  - destruct Hold as [?|Hlen]; [done|].
    destruct (decide (Forall (λ t, ¬ live now windowMs t) old)) as [?|Hn]; [done|].
    assert (L = kept) as HL by (apply filter_all; by eapply live_after).
    rewrite HL in Hlt. lia.
  - apply Forall_forall. unfold D. by intros x [? _]%list_elem_of_filter.
Qed.

Lemma wf_hits_nil now : wf_hits now [].
Proof. split; constructor. Qed.

Lemma represents_nil now : represents now [] [].
Proof. split; [apply wf_hits_nil|]. exists []. eauto. Qed.
End Window.

(** The limits the server passes: a positive window and a bounded hit count. *)
Definition limits_ok (windowMs maxHits : Z) : Prop :=
  0 < windowMs <= MAX_SAFE_INTEGER ∧ 0 <= maxHits < MAX_RATE_LIMIT_RETAINED_HITS.

Lemma limits_inputs now w mh :
  limits_ok w mh → 0 <= now <= MAX_SAFE_INTEGER → rateLimitInputsAllowed now w mh = true.
Proof.
  intros [??] ?. unfold rateLimitInputsAllowed, isSafeBoundedHitCount, isSafePositiveInteger,
    isSafeNonNegativeInteger, isSafeInteger, MAX_RATE_LIMIT_RETAINED_HITS, MAX_SAFE_INTEGER in *.
  rewrite !andb_true_iff, !Z.leb_le, !Z.ltb_lt. lia.
Qed.

Lemma limiter_ref_gen w mh t times (history kept : list Z) :
  limits_ok w mh → 0 <= t → clock_ordered t times → represents w mh t history kept →
  limiterRun kept times w mh = refRun history times w mh.
Proof.
  intros Hok Ht Hco. revert history kept.
  induction Hco as [|t t' l Htt' Hco IH]; intros history kept Hrep; [done|]. simpl.
  assert (Hrep' : represents w mh t' history kept) by (eapply represents_later; [|done]; lia).
  destruct Hrep' as (Hwf & Hrest) eqn:Heq. clear Heq.
  assert (wf_hits t' kept).
  { destruct Hrest as (old & -> & _). by apply (wf_hits_app t' old kept) in Hwf as [_ ?]. }
  rewrite recordFixedWindowHit_closed by (try apply limits_inputs; auto; lia).
  simpl. f_equal.
  - apply represents_allowed; [destruct Hok; lia|done].
  - apply IH; [lia|]. apply represents_step; [lia|destruct Hok; lia|done].
Qed.

(** ** Properties *)

(** C32. Keeping only the last [maxHits + 1] hits of the window never changes
    a decision: on every sequence of times in clock order, the limiter allows
    exactly the hits that a limiter remembering every earlier hit allows. *)
Theorem limiter_equals_reference windowMs maxHits t times :
  limits_ok windowMs maxHits → 0 <= t → clock_ordered t times →
  limiterRun [] times windowMs maxHits = refRun [] times windowMs maxHits.
Proof. intros. eapply limiter_ref_gen; eauto using represents_nil. Qed.

Lemma limiter_equals_reference_witness :
  limits_ok 60000 2 ∧ clock_ordered 0 [5; 6; 7; 60006; 60006] ∧
  limiterRun [] [5; 6; 7; 60006; 60006] 60000 2 = [true; true; false; true; false] ∧
  limiterRun [] [5; 6; 7; 60006; 60006] 60000 2 = refRun [] [5; 6; 7; 60006; 60006] 60000 2.
Proof.
  assert (limits_ok 60000 2) by (unfold limits_ok, MAX_SAFE_INTEGER, MAX_RATE_LIMIT_RETAINED_HITS; lia).
  assert (clock_ordered 0 [5; 6; 7; 60006; 60006]) by (repeat (apply co_cons; [unfold MAX_SAFE_INTEGER; lia|]); apply co_nil).
  split; [done|]. split; [done|]. split; [vm_compute; reflexivity|].
  apply (limiter_equals_reference 60000 2 0); [done|lia|done].
Defined.

(** Whatever is stored, a decision keeps at most [maxHits + 1] times for
    the key (one with refused limits keeps none, one with a corrupt entry keeps
    one), so the table never holds more than that per address. *)
Theorem recordFixedWindowHit_bounded values now windowMs maxHits :
  0 <= maxHits →
  Z.of_nat (length (hits (recordFixedWindowHit values now windowMs maxHits))) <= maxHits + 1.
Proof.
  intros. unfold recordFixedWindowHit. case_match; simpl; [lia|].
  case_match; simpl; [|lia]. case_match; bool_hyps; [rewrite length_drop|]; lia.
Qed.

Lemma recordFixedWindowHit_bounded_witness :
  0 <= 1 ∧ Z.of_nat (length (hits (recordFixedWindowHit [1; 2; 3] 4 10 1))) <= 1 + 1.
Proof. split; [lia|]. apply (recordFixedWindowHit_bounded [1; 2; 3] 4 10 1). lia. Defined.

Lemma recentCount_live windowMs now (xs ys : list Z) :
  now <= MAX_SAFE_INTEGER →
  Forall (λ t, 0 <= t <= now ∧ live now windowMs t) xs →
  Forall (λ t, 0 <= t <= now ∧ ¬ live now windowMs t) ys →
  recentCount (xs ++ ys) now windowMs = length xs.
Proof.
  intros Hnow Hxs Hys. induction Hxs as [|x xs [? Hl] Hxs IH]; simpl.
  - destruct Hys as [|y ys [? Hd] ?]; [done|]. simpl. rewrite ownNumberArrayValue_safe by lia.
    unfold live in Hd. by rewrite (proj2 (Z.leb_le _ _)) by lia.
  - rewrite ownNumberArrayValue_safe by lia. unfold live in Hl.
    rewrite (proj2 (Z.leb_gt _ _)) by lia. by rewrite IH.
Qed.

(** Pruning keeps exactly the live hits of a sorted array. *)
Lemma retainRecentSortedHits_live windowMs now values :
  now <= MAX_SAFE_INTEGER → wf_hits now values →
  retainRecentSortedHits values now windowMs = filter (live now windowMs) values.
Proof.
  intros Hnow [Hs Hv]. unfold retainRecentSortedHits.
  pose proof (filter_live_sorted windowMs now values Hs) as Hsplit.
  set (L := filter (live now windowMs) values) in *.
  set (D := filter (λ t, ¬ live now windowMs t) values) in *.
  rewrite Hsplit, reverse_app, recentCount_live; [|done| |].
  2-3: apply Forall_reverse, Forall_forall; intros t [? Hin]%list_elem_of_filter;
    split; [|done]; rewrite Forall_forall in Hv; by apply Hv.
  rewrite length_app, length_reverse. replace (length D + length L - length L)%nat with (length D) by lia.
  rewrite drop_app_length.
  assert (Forall2 (λ x y, ownNumberArrayValue x = Some y) L L) as HL.
  { apply Forall_Forall2_diag, Forall_forall. intros t [_ Hin]%list_elem_of_filter.
    rewrite Forall_forall in Hv. specialize (Hv t Hin). simpl in Hv.
    apply ownNumberArrayValue_safe. lia. }
  by rewrite (proj2 (mapM_Some _ _ _) HL).
Qed.

(** The periodic pruning is invisible: a decision taken at a later time
    for any key is the same whether or not the table was pruned in between. *)
Theorem prune_preserves_decisions (table : gmap jsstr (list Z)) key t now windowMs maxHits :
  limits_ok windowMs maxHits → 0 <= t <= now → now <= MAX_SAFE_INTEGER →
  (∀ k values, table !! k = Some values → wf_hits t values) →
  fst (hitFixedWindowRateLimit (pruneFixedWindowRateLimits table t windowMs) key now windowMs maxHits) =
  fst (hitFixedWindowRateLimit table key now windowMs maxHits).
Proof.
  intros Hok Ht Hnow Hwf. unfold hitFixedWindowRateLimit, pruneFixedWindowRateLimits. simpl.
  case_match; [done|]. rewrite lookup_omap.
  destruct (table !! key) as [values|] eqn:Hk; simpl; [|done].
  specialize (Hwf _ _ Hk).
  rewrite retainRecentSortedHits_live by (done || lia).
  transitivity (allowed (recordFixedWindowHit (filter (live t windowMs) values) now windowMs maxHits)).
  { by destruct (filter _ values). }
  assert (wf_hits t (filter (live t windowMs) values)).
  { pose proof (filter_live_sorted windowMs t values (proj1 Hwf)) as Hsplit.
    rewrite Hsplit in Hwf. by apply wf_hits_app in Hwf as [_ ?]. }
  assert (Hin : rateLimitInputsAllowed now windowMs maxHits = true) by (apply limits_inputs; [done|lia]).
  rewrite !recordFixedWindowHit_closed by (done || (eapply wf_hits_later; [|done]; lia)).
  simpl. unfold refAllowed. rewrite list_filter_filter_l; [done|]. unfold live. lia.
Qed.

Lemma prune_preserves_decisions_witness :
  let table := <[js "10.0.0.1" := [1; 50; 90]]> ∅ in
  pruneFixedWindowRateLimits table 100 60 !! js "10.0.0.1" = Some [50; 90] ∧
  fst (hitFixedWindowRateLimit (pruneFixedWindowRateLimits table 100 60) (js "10.0.0.1") 105 60 2) =
  fst (hitFixedWindowRateLimit table (js "10.0.0.1") 105 60 2).
Proof.
  intros table. split; [vm_compute; reflexivity|].
  apply (prune_preserves_decisions table (js "10.0.0.1") 100 105 60 2).
  - unfold limits_ok, MAX_SAFE_INTEGER, MAX_RATE_LIMIT_RETAINED_HITS; lia.
  - lia.
  - unfold MAX_SAFE_INTEGER; lia.
  - intros k values Hk. unfold table in Hk. rewrite lookup_insert in Hk. case_decide; [|done].
    injection Hk as <-. split; repeat constructor; lia.
Defined.
