(* ===== verification/Protocol.v ===== *)
(** * Protocol: the message types of [src/shared/messages.ts].

    The client and server messages after validation, as inductive types with
    the source's variants; the validators that produce them from untrusted
    values are in [Messages].  Strings are sequences of code units and numbers
    that the validators restrict to integers are [Z]. *)
From S2P Require Import Prelude.
From S2P Require Import Constants.
#[local] Open Scope Z_scope.

(** [Role] *)
Inductive Role := sender | receiver.
#[export] Instance Role_eq_dec : EqDecision Role.
Proof. solve_decision. Defined.

(** [SignalKind] *)
Inductive SignalKind := offer | answer | candidate.
#[export] Instance SignalKind_eq_dec : EqDecision SignalKind.
Proof. solve_decision. Defined.

(** [FileManifestEntry] *)
Record FileManifestEntry := {
  fe_id : option Z;
  fe_name : jsstr;
  fe_size : Z;
  fe_mime : option jsstr
}.
#[export] Instance FileManifestEntry_eq_dec : EqDecision FileManifestEntry.
Proof. solve_decision. Defined.

(** [FileManifest] *)
Record FileManifest := {
  fm_files : list FileManifestEntry;
  fm_fileCount : Z;
  fm_totalBytes : Z
}.
#[export] Instance FileManifest_eq_dec : EqDecision FileManifest.
Proof. solve_decision. Defined.

(** [PairRejectReason] *)
Inductive PairRejectReason := user_declined.
#[export] Instance PairRejectReason_eq_dec : EqDecision PairRejectReason.
Proof. solve_decision. Defined.

(** [ClientMessage] *)
Inductive ClientMessage :=
| CRegister (code : jsstr) (protocolVersion : Z)
| CConnect (code : jsstr) (protocolVersion : Z)
| CPake (sid data : jsstr)
| CConfirm (sid tag : jsstr)
| CPairRequest (sid : jsstr) (manifest : FileManifest) (sealedManifest : jsstr)
| CPairAccept (sid auth : jsstr)
| CPairReject (sid auth : jsstr) (reason : PairRejectReason)
| CSignal (sid : jsstr) (kind : SignalKind) (sealedSignal : jsstr)
| CBye (sid reason : option jsstr).
#[export] Instance ClientMessage_eq_dec : EqDecision ClientMessage.
Proof. solve_decision. Defined.

(** [ErrorCode] *)
Inductive ErrorCode :=
| code_taken | code_not_found | expired | rate_limited | bad_protocol
| bad_message | session_not_found | peer_unavailable | transfer_rejected.
#[export] Instance ErrorCode_eq_dec : EqDecision ErrorCode.
Proof. solve_decision. Defined.

(** [RTCIceServer], as the server configuration builds it *)
Record IceServer := {
  ice_urls : list jsstr;
  ice_username : option jsstr;
  ice_credential : option jsstr
}.
#[export] Instance IceServer_eq_dec : EqDecision IceServer.
Proof. solve_decision. Defined.

(** [ServerMessage]; [SRelay m] is a client message forwarded as it is, the
    variants "pake", "confirm", "pair-request", "pair-accept", "pair-reject"
    and "signal" that the two types share. *)
Inductive ServerMessage :=
| SRegistered (code : jsstr) (expiresInSec : Z)
| SPeerJoined (sid : jsstr)
| SRelay (m : ClientMessage)
| SPeerLeft (sid : jsstr) (reason : jsstr)
| SIceConfig (iceServers : list IceServer)
| SError (code : ErrorCode) (message : jsstr).
#[export] Instance ServerMessage_eq_dec : EqDecision ServerMessage.
Proof. solve_decision. Defined.

(** [signalingErrorDisplayMessage] *)
Definition signalingErrorDisplayMessage (code : ErrorCode) : jsstr :=
  match code with
  | code_taken => js "That receive code is already waiting for a sender."
  | code_not_found => js "No receiver is waiting for that code."
  | expired => js "Receive code expired."
  | rate_limited => js "Too many signaling attempts. Try again shortly."
  | bad_protocol => js "The signaling protocol is not compatible."
  | bad_message => js "The signaling server rejected a protocol message."
  | session_not_found => js "Session is no longer active."
  | peer_unavailable => js "Peer is no longer connected."
  | transfer_rejected => js "Transfer rejected."
  end.

(** [isProtocolSupported] *)
Definition isProtocolSupported (version : Z) : bool := version =? PROTOCOL_VERSION.

(** The session id a relayed message carries ([Extract<ClientMessage, {sid: string}>]). *)
Definition relay_sid (m : ClientMessage) : option jsstr :=
  match m with
  | CPake sid _ | CConfirm sid _ | CPairRequest sid _ _ | CPairAccept sid _
  | CPairReject sid _ _ | CSignal sid _ _ => Some sid
  | _ => None
  end.
