(* ===== verification/Messages.v ===== *)
(** * Messages: the signalling messages on the wire ([src/shared/messages.ts]).

    The validators that turn an untrusted value into a message, the serializer
    with its budgets, and the parsing of frames.  [readClientMessage] and
    [readServerMessage] are the typed view that the rest of the program takes of
    a validated value (the casts of the source); [clientValue] and
    [serverValue] are the object literals the program builds.  The theorems
    show that the validators accept exactly the values that have the shape of a
    message within the limits ([plainRecord], [clientShape]), and that a serialized message is read back as itself. *)
From S2P Require Import Prelude.
From S2P Require Import Constants.
From S2P Require Import JsText.
From S2P Require Import JsValue.
From S2P Require Import Json.
From S2P Require Import Base64.
From S2P Require Import Authority.
From S2P Require Import Wordlist.
From S2P Require Import Protocol.
#[local] Open Scope Z_scope.

Definition MAX_SID_CHARS : Z := 128.
Definition MAX_PAKE_BYTES : Z := 4096.
Definition MAX_REASON_CHARS : Z := 1000.
Definition MAX_SEALED_MANIFEST_CHARS : Z := ENCRYPTED_JSON_MAX_CHARS.
Definition MAX_SEALED_SIGNAL_CHARS : Z := ENCRYPTED_JSON_MAX_CHARS.
Definition MAX_SDP_BYTES : Z := 128 * 1024.
Definition MAX_CANDIDATE_BYTES : Z := 4096.
Definition MAX_ICE_TOKEN_BYTES : Z := 256.
Definition MAX_ERROR_MESSAGE_CHARS : Z := 1000.
Definition MAX_ICE_SERVERS : Z := 16.
Definition MAX_ICE_URLS_PER_SERVER : Z := 8.
Definition MAX_ICE_URL_CHARS : Z := 512.
Definition MAX_ICE_USERNAME_CHARS : Z := 1024.
Definition MAX_ICE_CREDENTIAL_CHARS : Z := 1024.
Definition HMAC_SHA256_BYTES : Z := 32.
Definition MIN_ENCRYPTED_JSON_BASE64_CHARS : Z := 20.
Definition MAX_SIGNALING_JSON_DEPTH : Z := 32.
Definition MAX_SIGNALING_JSON_NODES : Z := 10000.

(** A property by its name in the source. *)
Definition field (v : jsval) (name : string) : jsval := ownDataValue v (js name).

(** ** Text classes *)

Definition isSafeToken (s : jsstr) : bool := negb (bool_decide (s = [])) && forallb (λ c, (33 <=? c) && (c <=? 126)) s.
Definition isSessionIdText (s : jsstr) : bool :=
  negb (bool_decide (s = [])) && forallb (λ c, isAlpha c || isDigit c || (c =? 95) || (c =? 45)) s.
Definition isMimeUnit (c : Z) : bool :=
  isAlpha c || isDigit c || bool_decide (c ∈ [33; 35; 36; 37; 38; 39; 42; 43; 46; 94; 95; 96; 124; 126; 45]).
Definition isMimeText (s : jsstr) : bool :=
  match splitOn 47 s with
  | [a; b] => negb (bool_decide (a = [])) && negb (bool_decide (b = [])) && forallb isMimeUnit a && forallb isMimeUnit b
  | _ => false
  end.

(** ** Validators of single values *)

Definition onString (f : jsstr → bool) (v : jsval) : bool := match v with JStr s => f s | _ => false end.

Definition isBoundedString (v : jsval) (maxChars : Z) : bool := onString (λ s, jslen s <=? maxChars) v.
Definition isSafeBoundedString (v : jsval) (maxChars : Z) : bool :=
  isBoundedString v maxChars && onString (λ s, negb (hasControlOrFormat s)) v.
Definition isSafeNonEmptyBoundedString (v : jsval) (maxChars : Z) : bool :=
  isSafeBoundedString v maxChars && onString (λ s, 0 <? jslen s) v.
Definition isSafeTokenString (v : jsval) (maxChars : Z) : bool :=
  onString (λ s, (0 <? jslen s) && (jslen s <=? maxChars) && isSafeToken s) v.
Definition isByteBoundedString (v : jsval) (maxBytes : Z) : bool := onString (λ s, utf8ByteLength s <=? maxBytes) v.
Definition isNonEmptyByteBoundedString (v : jsval) (maxBytes : Z) : bool :=
  isByteBoundedString v maxBytes && onString (λ s, 0 <? jslen s) v.
Definition isSafeByteBoundedString (v : jsval) (maxBytes : Z) : bool :=
  isByteBoundedString v maxBytes && onString (λ s, negb (hasControlOrFormat s)) v.
Definition isSafeNonEmptyByteBoundedString (v : jsval) (maxBytes : Z) : bool :=
  isSafeByteBoundedString v maxBytes && onString (λ s, 0 <? jslen s) v.
Definition isSessionId (v : jsval) : bool :=
  onString (λ s, (0 <? jslen s) && (jslen s <=? MAX_SID_CHARS) && isSessionIdText s) v.
Definition isMimeType (v : jsval) : bool :=
  onString (λ s, (0 <? jslen s) && (jslen s <=? MAX_MIME_CHARS) && isMimeText s) v.
Definition isRendezvousValue (v : jsval) : bool := onString isValidRendezvous v.
Definition isMac (v : jsval) : bool := onString (λ s, isBase64EncodedBytes s HMAC_SHA256_BYTES) v.
Definition isSealed (v : jsval) (maxChars : Z) : bool :=
  onString (λ s, isBoundedCanonicalBase64 s MIN_ENCRYPTED_JSON_BASE64_CHARS maxChars) v.

(** [optionalSessionId], [optionalSafeReason], [isPairRejectReason],
    [isSignalKind], [isOptionalUint8] *)
Definition optionalSessionId (v : jsval) : bool := isUndefined v || isSessionId v.
Definition optionalSafeReason (v : jsval) : bool := isUndefined v || isSafeBoundedString v MAX_REASON_CHARS.
Definition isPairRejectReason (v : jsval) : bool := isLit v (js "user_declined").
Definition isSignalKind (v : jsval) : bool := isLit v (js "offer") || isLit v (js "answer") || isLit v (js "candidate").
Definition isOptionalUint8 (v : jsval) : bool := isUndefined v || isIntegerIn 0 255 v.

(** [isSafeManifestFileName] *)
Definition isSafeManifestFileName (v : jsval) : bool :=
  isSafeNonEmptyBoundedString v MAX_FILE_NAME_CHARS &&
  onString (λ s, (0 <? jslen (trim s)) && negb (bool_decide (s = js ".")) && negb (bool_decide (s = js "..")) &&
    negb (includesUnit 47 s || includesUnit 92 s)) v.

(** ** [isManifest] *)

(** The checks on one entry. *)
Definition isManifestEntry (file : jsval) : bool :=
  isObject file && hasOnlyKeys file [js "id"; js "name"; js "size"; js "mime"] &&
  isOptionalUint8 (field file "id") && isSafeManifestFileName (field file "name") &&
  isIntegerIn 0 MAX_FILE_BYTES (field file "size") &&
  (isUndefined (field file "mime") || isMimeType (field file "mime")).

(** The loop over [files] from [index], with the ids seen and the total so far;
    [None] when it returns false. *)
Fixpoint manifestLoop (n : nat) (files : jsval) (index : Z) (ids : list Z) (totalBytes : Z) : option Z :=
  match n with
  | O => Some totalBytes
  | S n =>
    let file := ownArrayDataValue files index in
    if negb (isManifestEntry file) then None
    else
      match (match field file "id" with
             | jint id => if bool_decide (id ∈ ids) then None else Some (ids ++ [id])
             | _ => Some ids
             end), field file "size" with
      | Some ids, jint size =>
        if isSafeInteger (totalBytes + size) then manifestLoop n files (index + 1) ids (totalBytes + size) else None
      | _, _ => None
      end
  end.

Definition isManifest (v : jsval) : bool :=
  isObject v && hasOnlyKeys v [js "files"; js "fileCount"; js "totalBytes"] &&
  match field v "files", field v "fileCount" with
  | JArr items, jint fileCount =>
    isSafeInteger fileCount && (1 <=? fileCount) && (fileCount <=? MAX_FILES_PER_SESSION) &&
    (fileCount =? Z.of_nat (length items)) && isSafeNonNegative (field v "totalBytes") &&
    match manifestLoop (length items) (JArr items) 0 [] 0, field v "totalBytes" with
    | Some total, jint expected => total =? expected
    | _, _ => false
    end
  | _, _ => false
  end.

(** ** ICE servers *)

Definition isIceScheme (s : jsstr) : bool :=
  bool_decide (map asciiLowerUnit s ∈ [js "stun"; js "stuns"; js "turn"; js "turns"]).

(** The first group of the pattern of [isIceUrl], when it matches. *)
Definition iceUrlAuthority (url : jsstr) : option jsstr :=
  let scheme := takeWhile (λ c, negb (c =? 58)) url in
  match dropWhile (λ c, negb (c =? 58)) url with
  | _ :: rest =>
    let authority := takeWhile (λ c, negb (c =? 63)) rest in
    let query := map asciiLowerUnit (dropWhile (λ c, negb (c =? 63)) rest) in
    if isIceScheme scheme && negb (bool_decide (authority = [])) &&
       bool_decide (query ∈ [[]; js "?transport=udp"; js "?transport=tcp"])
    then Some authority else None
  | [] => None
  end.

(** [isTurnUrl] *)
Definition isTurnUrl (v : jsval) : bool :=
  onString (λ url, startsWith (js "turn:") (map asciiLowerUnit url) || startsWith (js "turns:") (map asciiLowerUnit url)) v.

(** [ownDataArrayValues] *)
Fixpoint ownDataArrayFrom (n : nat) (v : jsval) (index : Z) : option (list jsval) :=
  match n with
  | O => Some []
  | S n =>
    let item := ownArrayDataValue v index in
    if isUndefined item then None else app [item] <$> ownDataArrayFrom n v (index + 1)
  end.
Definition ownDataArrayValues (items : list (option (prop jsval))) : option (list jsval) :=
  ownDataArrayFrom (length items) (JArr items) 0.

Section Validators.
Context `{UrlParser, JsCase}.

(** [isIceUrl] *)
Definition isIceUrl (v : jsval) : bool :=
  isSafeBoundedString v MAX_ICE_URL_CHARS &&
  onString (λ url, match iceUrlAuthority url with Some a => isValidAuthority a | None => false end) v.

(** [isIceServer] *)
Definition isIceServer (v : jsval) : bool :=
  isObject v && hasOnlyKeys v [js "urls"; js "username"; js "credential"; js "credentialType"] &&
  let username := field v "username" in
  let credential := field v "credential" in
  let credentialType := field v "credentialType" in
  let urlList :=
    match field v "urls" with
    | JStr s => Some [JStr s]
    | JArr items => ownDataArrayValues items
    | _ => None
    end in
  let validUrls :=
    match urlList with
    | Some l => (0 <? Z.of_nat (length l)) && (Z.of_nat (length l) <=? MAX_ICE_URLS_PER_SERVER) && forallb isIceUrl l
    | None => false
    end in
  let hasTurnUrl := match urlList with Some l => existsb isTurnUrl l | None => false end in
  let hasNoCredential := isUndefined username && isUndefined credential in
  let hasCompleteCredential :=
    isSafeNonEmptyBoundedString username MAX_ICE_USERNAME_CHARS &&
    isSafeNonEmptyBoundedString credential MAX_ICE_CREDENTIAL_CHARS in
  validUrls && (hasNoCredential || hasCompleteCredential) && (negb hasTurnUrl || hasCompleteCredential) &&
  (isUndefined credentialType || (isLit credentialType (js "password") && hasCompleteCredential)).

(** [isIceServers] *)
Fixpoint iceServersLoop (n : nat) (v : jsval) (index : Z) : bool :=
  match n with
  | O => true
  | S n =>
    let item := ownArrayDataValue v index in
    if isUndefined item || negb (isIceServer item) then false else iceServersLoop n v (index + 1)
  end.
Definition isIceServers (v : jsval) : bool :=
  match v with
  | JArr items =>
    negb (Z.of_nat (length items) =? 0) && (Z.of_nat (length items) <=? MAX_ICE_SERVERS) &&
    iceServersLoop (length items) v 0
  | _ => false
  end.

(** [isIceCandidateInit] *)
Definition isIceCandidateInit (v : jsval) : bool :=
  isObject v && hasOnlyKeys v [js "candidate"; js "sdpMid"; js "sdpMLineIndex"; js "usernameFragment"] &&
  let sdpMid := field v "sdpMid" in
  let sdpMLineIndex := field v "sdpMLineIndex" in
  let usernameFragment := field v "usernameFragment" in
  isSafeNonEmptyByteBoundedString (field v "candidate") MAX_CANDIDATE_BYTES &&
  (negb (isNullish sdpMid) || negb (isNullish sdpMLineIndex)) &&
  (isNullish sdpMid || isSafeTokenString sdpMid MAX_ICE_TOKEN_BYTES) &&
  (isNullish sdpMLineIndex || isIntegerIn 0 65535 sdpMLineIndex) &&
  (isNullish usernameFragment || isSafeTokenString usernameFragment MAX_ICE_TOKEN_BYTES).

(** [isSignalPayload] *)
Definition isSignalPayload (v : jsval) : bool :=
  isObject v &&
  let kind := field v "kind" in
  if isLit kind (js "offer") || isLit kind (js "answer")
  then hasOnlyKeys v [js "kind"; js "sdp"; js "auth"] &&
       isNonEmptyByteBoundedString (field v "sdp") MAX_SDP_BYTES && isMac (field v "auth")
  else isLit kind (js "candidate") &&
       hasOnlyKeys v [js "kind"; js "candidate"; js "auth"] &&
       isIceCandidateInit (field v "candidate") && isMac (field v "auth").

(** ** [isClientMessage] and [isServerMessage] *)

(** [ERROR_CODES] *)
Definition errorCodeText (c : ErrorCode) : jsstr :=
  js match c with
     | code_taken => "code_taken" | code_not_found => "code_not_found" | expired => "expired"
     | rate_limited => "rate_limited" | bad_protocol => "bad_protocol" | bad_message => "bad_message"
     | session_not_found => "session_not_found" | peer_unavailable => "peer_unavailable"
     | transfer_rejected => "transfer_rejected"
     end.
Definition ERROR_CODES : list ErrorCode :=
  [code_taken; code_not_found; expired; rate_limited; bad_protocol; bad_message; session_not_found;
   peer_unavailable; transfer_rejected].
Definition isErrorCode (v : jsval) : bool := existsb (λ c, isLit v (errorCodeText c)) ERROR_CODES.

(** The cases the two validators share word for word. *)
Definition isRelayMessage (v : jsval) (type : jsstr) : bool :=
  if decide (type = js "pake") then
    hasOnlyKeys v [js "type"; js "sid"; js "data"] && isSessionId (field v "sid") &&
    isNonEmptyByteBoundedString (field v "data") MAX_PAKE_BYTES
  else if decide (type = js "confirm") then
    hasOnlyKeys v [js "type"; js "sid"; js "tag"] && isSessionId (field v "sid") && isMac (field v "tag")
  else if decide (type = js "pair-request") then
    hasOnlyKeys v [js "type"; js "sid"; js "manifest"; js "sealedManifest"] && isSessionId (field v "sid") &&
    isManifest (field v "manifest") && isSealed (field v "sealedManifest") MAX_SEALED_MANIFEST_CHARS
  else if decide (type = js "pair-accept") then
    hasOnlyKeys v [js "type"; js "sid"; js "auth"] && isSessionId (field v "sid") && isMac (field v "auth")
  else if decide (type = js "pair-reject") then
    hasOnlyKeys v [js "type"; js "sid"; js "reason"; js "auth"] && isSessionId (field v "sid") &&
    isMac (field v "auth") && isPairRejectReason (field v "reason")
  else if decide (type = js "signal") then
    hasOnlyKeys v [js "type"; js "sid"; js "kind"; js "sealedSignal"] && isSessionId (field v "sid") &&
    isSignalKind (field v "kind") && isSealed (field v "sealedSignal") MAX_SEALED_SIGNAL_CHARS
  else false.

Definition isClientMessage (v : jsval) : bool :=
  isObject v &&
  match field v "type" with
  | JStr type =>
    if decide (type = js "register") then
      hasOnlyKeys v [js "type"; js "role"; js "code"; js "protocolVersion"] && isLit (field v "role") (js "receiver") &&
      isRendezvousValue (field v "code") && isSafeNonNegative (field v "protocolVersion")
    else if decide (type = js "connect") then
      hasOnlyKeys v [js "type"; js "role"; js "code"; js "protocolVersion"] && isLit (field v "role") (js "sender") &&
      isRendezvousValue (field v "code") && isSafeNonNegative (field v "protocolVersion")
    else if decide (type = js "bye") then
      hasOnlyKeys v [js "type"; js "sid"; js "reason"] && optionalSessionId (field v "sid") &&
      optionalSafeReason (field v "reason")
    else isRelayMessage v type
  | _ => false
  end.

Definition isServerMessage (v : jsval) : bool :=
  isObject v &&
  match field v "type" with
  | JStr type =>
    if decide (type = js "registered") then
      hasOnlyKeys v [js "type"; js "code"; js "expiresInSec"] && isRendezvousValue (field v "code") &&
      isSafeNonNegative (field v "expiresInSec")
    else if decide (type = js "peer-joined") then
      hasOnlyKeys v [js "type"; js "sid"] && isSessionId (field v "sid")
    else if decide (type = js "peer-left") then
      hasOnlyKeys v [js "type"; js "sid"; js "reason"] && isSessionId (field v "sid") &&
      optionalSafeReason (field v "reason")
    else if decide (type = js "ice-config") then
      hasOnlyKeys v [js "type"; js "iceServers"] && isIceServers (field v "iceServers")
    else if decide (type = js "error") then
      hasOnlyKeys v [js "type"; js "code"; js "message"] && isErrorCode (field v "code") &&
      isSafeNonEmptyBoundedString (field v "message") MAX_ERROR_MESSAGE_CHARS
    else isRelayMessage v type
  | _ => false
  end.

End Validators.

(** ** The typed view of a validated value *)

Definition readString (v : jsval) : option jsstr := match v with JStr s => Some s | _ => None end.
Definition readInt (v : jsval) : option Z := match v with jint z => Some z | _ => None end.
(** An optional property: [Some None] when it is absent. *)
Definition readOptional {A} (read : jsval → option A) (v : jsval) : option (option A) :=
  match v with JUndefined => Some None | _ => Some <$> read v end.

Definition readEntry (v : jsval) : option FileManifestEntry :=
  id ← readOptional readInt (field v "id"); name ← readString (field v "name");
  size ← readInt (field v "size"); mime ← readOptional readString (field v "mime");
  Some {| fe_id := id; fe_name := name; fe_size := size; fe_mime := mime |}.

Definition readManifest (v : jsval) : option FileManifest :=
  match field v "files" with
  | JArr items =>
    files ← mapM (λ i, readEntry (ownArrayDataValue (JArr items) i)) (seqZ 0 (Z.of_nat (length items)));
    fileCount ← readInt (field v "fileCount"); totalBytes ← readInt (field v "totalBytes");
    Some {| fm_files := files; fm_fileCount := fileCount; fm_totalBytes := totalBytes |}
  | _ => None
  end.

Definition readKind (v : jsval) : option SignalKind :=
  s ← readString v;
  if decide (s = js "offer") then Some offer else if decide (s = js "answer") then Some answer
  else if decide (s = js "candidate") then Some candidate else None.

Definition readClientMessage (v : jsval) : option ClientMessage :=
  type ← readString (field v "type");
  if decide (type = js "register") then
    code ← readString (field v "code"); version ← readInt (field v "protocolVersion"); Some (CRegister code version)
  else if decide (type = js "connect") then
    code ← readString (field v "code"); version ← readInt (field v "protocolVersion"); Some (CConnect code version)
  else if decide (type = js "pake") then
    sid ← readString (field v "sid"); data ← readString (field v "data"); Some (CPake sid data)
  else if decide (type = js "confirm") then
    sid ← readString (field v "sid"); tag ← readString (field v "tag"); Some (CConfirm sid tag)
  else if decide (type = js "pair-request") then
    sid ← readString (field v "sid"); manifest ← readManifest (field v "manifest");
    sealed ← readString (field v "sealedManifest"); Some (CPairRequest sid manifest sealed)
  else if decide (type = js "pair-accept") then
    sid ← readString (field v "sid"); auth ← readString (field v "auth"); Some (CPairAccept sid auth)
  else if decide (type = js "pair-reject") then
    sid ← readString (field v "sid"); auth ← readString (field v "auth"); Some (CPairReject sid auth user_declined)
  else if decide (type = js "signal") then
    sid ← readString (field v "sid"); kind ← readKind (field v "kind"); sealed ← readString (field v "sealedSignal");
    Some (CSignal sid kind sealed)
  else if decide (type = js "bye") then
    sid ← readOptional readString (field v "sid"); reason ← readOptional readString (field v "reason");
    Some (CBye sid reason)
  else None.

(** ** The object literals the program builds *)

Definition optionalField (name : string) (s : option jsstr) : list (jsstr * jsval) :=
  match s with Some s => [(js name, JStr s)] | None => [] end.

Definition entryValue (e : FileManifestEntry) : jsval :=
  obj (match fe_id e with Some id => [(js "id", jint id)] | None => [] end ++
       [(js "name", JStr (fe_name e)); (js "size", jint (fe_size e))] ++ optionalField "mime" (fe_mime e)).

Definition manifestValue (m : FileManifest) : jsval :=
  obj [(js "files", arr (map entryValue (fm_files m))); (js "fileCount", jint (fm_fileCount m));
       (js "totalBytes", jint (fm_totalBytes m))].

Definition kindText (k : SignalKind) : jsstr :=
  js match k with offer => "offer" | answer => "answer" | candidate => "candidate" end.

Definition clientValue (m : ClientMessage) : jsval :=
  obj match m with
      | CRegister code version =>
        [(js "type", jstr "register"); (js "role", jstr "receiver"); (js "code", JStr code);
         (js "protocolVersion", jint version)]
      | CConnect code version =>
        [(js "type", jstr "connect"); (js "role", jstr "sender"); (js "code", JStr code);
         (js "protocolVersion", jint version)]
      | CPake sid data => [(js "type", jstr "pake"); (js "sid", JStr sid); (js "data", JStr data)]
      | CConfirm sid tag => [(js "type", jstr "confirm"); (js "sid", JStr sid); (js "tag", JStr tag)]
      | CPairRequest sid manifest sealed =>
        [(js "type", jstr "pair-request"); (js "sid", JStr sid); (js "manifest", manifestValue manifest);
         (js "sealedManifest", JStr sealed)]
      | CPairAccept sid auth => [(js "type", jstr "pair-accept"); (js "sid", JStr sid); (js "auth", JStr auth)]
      | CPairReject sid auth _ =>
        [(js "type", jstr "pair-reject"); (js "sid", JStr sid); (js "auth", JStr auth);
         (js "reason", jstr "user_declined")]
      | CSignal sid kind sealed =>
        [(js "type", jstr "signal"); (js "sid", JStr sid); (js "kind", JStr (kindText kind));
         (js "sealedSignal", JStr sealed)]
      | CBye sid reason => [(js "type", jstr "bye")] ++ optionalField "sid" sid ++ optionalField "reason" reason
      end.

Definition iceServerValue (s : IceServer) : jsval :=
  obj ([(js "urls", arr (map JStr (ice_urls s)))] ++ optionalField "username" (ice_username s) ++
       optionalField "credential" (ice_credential s)).

Definition serverValue (m : ServerMessage) : jsval :=
  match m with
  | SRegistered code expires =>
    obj [(js "type", jstr "registered"); (js "code", JStr code); (js "expiresInSec", jint expires)]
  | SPeerJoined sid => obj [(js "type", jstr "peer-joined"); (js "sid", JStr sid)]
  | SRelay m => clientValue m
  | SPeerLeft sid reason => obj [(js "type", jstr "peer-left"); (js "sid", JStr sid); (js "reason", JStr reason)]
  | SIceConfig servers => obj [(js "type", jstr "ice-config"); (js "iceServers", arr (map iceServerValue servers))]
  | SError code message =>
    obj [(js "type", jstr "error"); (js "code", JStr (errorCodeText code)); (js "message", JStr message)]
  end.

(** ** What the limits allow *)

Definition sidText (s : jsstr) : Prop :=
  1 <= jslen s <= 128 ∧ Forall (λ c, isAlpha c || isDigit c || (c =? 95) || (c =? 45) = true) s.
Definition codeText (s : jsstr) : Prop := digits s ∧ (length s = 8%nat ∨ length s = 12%nat).
(** A base64 text of a 32-byte tag, and of a sealed payload. *)
Definition macText (s : jsstr) : Prop := ∃ l, bytes l ∧ Z.of_nat (length l) = 32 ∧ s = bytesToBase64 l.
Definition sealedText (s : jsstr) : Prop :=
  ∃ l, bytes l ∧ 20 <= jslen s <= ENCRYPTED_JSON_MAX_CHARS ∧ s = bytesToBase64 l.
Definition nameText (s : jsstr) : Prop :=
  1 <= jslen s <= MAX_FILE_NAME_CHARS ∧ hasControlOrFormat s = false ∧ trim s ≠ [] ∧
  s ≠ js "." ∧ s ≠ js ".." ∧ (47 ∉ s) ∧ (92 ∉ s).
Definition mimeText (s : jsstr) : Prop := 1 <= jslen s <= MAX_MIME_CHARS ∧ isMimeText s = true.
Definition versionOk (v : Z) : Prop := 0 <= v <= MAX_SAFE_INTEGER.

Record entryOk (e : FileManifestEntry) : Prop := {
  entry_id id : fe_id e = Some id → 0 <= id <= 255;
  entry_name : nameText (fe_name e);
  entry_size : 0 <= fe_size e <= MAX_FILE_BYTES;
  entry_mime s : fe_mime e = Some s → mimeText s
}.

Definition sumSizes (l : list FileManifestEntry) : Z := foldr (λ e n, fe_size e + n) 0 l.

Record manifestOk (m : FileManifest) : Prop := {
  manifest_count : fm_fileCount m = Z.of_nat (length (fm_files m));
  manifest_bounds : 1 <= fm_fileCount m <= MAX_FILES_PER_SESSION;
  manifest_entries : Forall entryOk (fm_files m);
  manifest_ids : NoDup (omap fe_id (fm_files m));
  manifest_total : fm_totalBytes m = sumSizes (fm_files m)
}.

Definition clientMessageOk (m : ClientMessage) : Prop :=
  match m with
  | CRegister code version | CConnect code version => codeText code ∧ versionOk version
  | CPake sid data => sidText sid ∧ data ≠ [] ∧ utf8ByteLength data <= MAX_PAKE_BYTES
  | CConfirm sid mac | CPairAccept sid mac | CPairReject sid mac _ => sidText sid ∧ macText mac
  | CPairRequest sid manifest sealed => sidText sid ∧ manifestOk manifest ∧ sealedText sealed
  | CSignal sid _ sealed => sidText sid ∧ sealedText sealed
  | CBye sid reason =>
    (∀ s, sid = Some s → sidText s) ∧
    (∀ s, reason = Some s → jslen s <= MAX_REASON_CHARS ∧ hasControlOrFormat s = false)
  end.

(** ** The shape of a value

    What a value has to be for a message: a plain object whose own properties
    are enumerable data under the names that are listed, in any order, where the
    property of each name (or [undefined], when there is none) is as the list
    says. *)
Definition plainRecord (v : jsval) (fields : list (string * (jsval → Prop))) : Prop :=
  (∃ p props, v = JObj p props ∧ p ≠ OtherPrototype ∧
     ∀ k d, (k, d) ∈ props → ∃ name value, name ∈ map fst fields ∧ k = KStr (js name) ∧ d = PData true value) ∧
  Forall (λ f, f.2 (field v f.1)) fields.
Definition arrayOf (shapes : list (jsval → Prop)) (v : jsval) : Prop :=
  ∃ items, v = JArr items ∧ length items = length shapes ∧
    ∀ i shape, shapes !! i = Some shape → shape (ownArrayDataValue v (Z.of_nat i)).
(** A property that may be missing *)
Definition present (o : option jsval) : jsval := default JUndefined o.

Definition entryShape (e : FileManifestEntry) (v : jsval) : Prop :=
  plainRecord v [("id", eq (present (JNum ∘ NInt <$> fe_id e))); ("name", eq (JStr (fe_name e))); ("size", eq (jint (fe_size e)));
                 ("mime", eq (present (JStr <$> fe_mime e)))]%string.
Definition manifestShape (m : FileManifest) (v : jsval) : Prop :=
  plainRecord v [("files", arrayOf (map entryShape (fm_files m))); ("fileCount", eq (jint (fm_fileCount m)));
                 ("totalBytes", eq (jint (fm_totalBytes m)))]%string.

Definition clientShape (m : ClientMessage) : list (string * (jsval → Prop)) :=
  match m with
  | CRegister code version => [("type", eq (jstr "register")); ("role", eq (jstr "receiver")); ("code", eq (JStr code)); ("protocolVersion", eq (jint version))]
  | CConnect code version => [("type", eq (jstr "connect")); ("role", eq (jstr "sender")); ("code", eq (JStr code)); ("protocolVersion", eq (jint version))]
  | CPake sid data => [("type", eq (jstr "pake")); ("sid", eq (JStr sid)); ("data", eq (JStr data))]
  | CConfirm sid tag => [("type", eq (jstr "confirm")); ("sid", eq (JStr sid)); ("tag", eq (JStr tag))]
  | CPairRequest sid manifest sealed =>
    [("type", eq (jstr "pair-request")); ("sid", eq (JStr sid)); ("manifest", manifestShape manifest); ("sealedManifest", eq (JStr sealed))]
  | CPairAccept sid auth => [("type", eq (jstr "pair-accept")); ("sid", eq (JStr sid)); ("auth", eq (JStr auth))]
  | CPairReject sid auth user_declined =>
    [("type", eq (jstr "pair-reject")); ("sid", eq (JStr sid)); ("reason", eq (jstr "user_declined")); ("auth", eq (JStr auth))]
  | CSignal sid kind sealed =>
    [("type", eq (jstr "signal")); ("sid", eq (JStr sid));
     ("kind", eq (jstr match kind with offer => "offer" | answer => "answer" | candidate => "candidate" end)); ("sealedSignal", eq (JStr sealed))]
  | CBye sid reason => [("type", eq (jstr "bye")); ("sid", eq (present (JStr <$> sid))); ("reason", eq (present (JStr <$> reason)))]
  end%string.

Lemma plainRecord_spec v fields :
  plainRecord v fields ↔ isObject v = true ∧ hasOnlyKeys v (map (js ∘ fst) fields) = true ∧ Forall (λ f, f.2 (field v f.1)) fields.
Proof.
  unfold plainRecord, hasOnlyKeys. split.
  - intros [(p & props & -> & Hp & Hprops) HF]. cbn [ownProps]. split_and!; [|apply forallb_forall; intros [k d] Hin%list_elem_of_In|done].
    + unfold isObject, hasOnlyDataProperties. assert (forallb (λ kp, enumerableData kp.2) props = true); [|by destruct p].
      apply forallb_forall. intros [k d] Hin%list_elem_of_In. by destruct (Hprops k d Hin) as (? & ? & _ & _ & ->).
    + destruct (Hprops k d Hin) as (name & value & Hn & -> & ->). cbn. rewrite andb_true_r. apply bool_decide_eq_true.
      apply list_elem_of_fmap in Hn as (f & -> & Hf). apply list_elem_of_fmap. by exists f.
  - intros (Ho & Hk & HF). split; [|done]. destruct v as [| | | | | | |p props]; try done. exists p, props. cbn [ownProps] in Hk. rewrite forallb_forall in Hk.
    assert (p ≠ OtherPrototype ∧ forallb (λ kp, enumerableData kp.2) props = true) as [Hp Hd] by by destruct p. split_and!; [done..|]. intros k d Hin. rewrite forallb_forall in Hd.
    apply list_elem_of_In in Hin. specialize (Hk _ Hin). specialize (Hd _ Hin). cbn in Hk, Hd. destruct k as [k|]; [|done]. apply andb_true_iff in Hk as [Hk%bool_decide_eq_true _].
    apply list_elem_of_fmap in Hk as (f & -> & Hf). destruct d as [[] value|]; try done. exists f.1, value. split_and!; [|done..]. apply list_elem_of_fmap. by exists f.
Qed.

(** ** The validators and the limits *)

Lemma onString_spec f v : onString f v = true ↔ ∃ s, v = JStr s ∧ f s = true.
Proof. destruct v; simpl; naive_solver. Qed.

Lemma jslen_pos s : 0 < jslen s ↔ s ≠ [].
Proof. unfold jslen. destruct s; simpl; split; intros; try done; lia. Qed.

Lemma forallb_Forall {A} (f : A → bool) l : forallb f l = true ↔ Forall (λ x, f x = true) l.
Proof. rewrite forallb_forall, Forall_forall. by setoid_rewrite list_elem_of_In. Qed.

Lemma isSessionId_spec v : isSessionId v = true ↔ ∃ s, v = JStr s ∧ sidText s.
Proof.
  unfold isSessionId. rewrite onString_spec. f_equiv. intros s. f_equiv. unfold sidText, isSessionIdText, MAX_SID_CHARS.
  rewrite !andb_true_iff, Z.ltb_lt, Z.leb_le, forallb_Forall, negb_true_iff, bool_decide_eq_false.
  pose proof (jslen_pos s). split; intros; destruct_and?; split_and?; try done; try lia. naive_solver lia.
Qed.

Lemma isMac_spec v : isMac v = true ↔ ∃ s, v = JStr s ∧ macText s.
Proof.
  unfold isMac. rewrite onString_spec. f_equiv. intros s. f_equiv. apply isBase64EncodedBytes_spec.
Qed.

Lemma isSealed_spec v : isSealed v ENCRYPTED_JSON_MAX_CHARS = true ↔ ∃ s, v = JStr s ∧ sealedText s.
Proof.
  unfold isSealed. rewrite onString_spec. f_equiv. intros s. f_equiv. apply isBoundedCanonicalBase64_spec.
Qed.

Lemma isRendezvousValue_spec v : isRendezvousValue v = true ↔ ∃ s, v = JStr s ∧ codeText s.
Proof.
  unfold isRendezvousValue. rewrite onString_spec. f_equiv. intros s. f_equiv.
  unfold isValidRendezvous, isRendezvousText, codeText, digits, jslen, RENDEZVOUS_DIGITS, GENERATED_RENDEZVOUS_DIGITS.
  rewrite andb_true_iff, orb_true_iff, !Z.eqb_eq, forallb_Forall. f_equiv. lia.
Qed.

Lemma isNonEmptyByteBounded_spec v n :
  isNonEmptyByteBoundedString v n = true ↔ ∃ s, v = JStr s ∧ s ≠ [] ∧ utf8ByteLength s <= n.
Proof.
  unfold isNonEmptyByteBoundedString, isByteBoundedString. rewrite andb_true_iff, !onString_spec. split.
  - intros [(s & -> & H1) (s' & [= <-] & H2)]. bool_hyps. exists s. rewrite <-jslen_pos. done.
  - intros (s & -> & H1 & H2). rewrite <-jslen_pos in H1.
    split; exists s; (split; [done|]); [by apply Z.leb_le|by apply Z.ltb_lt].
Qed.

Lemma isSafeBounded_spec v n :
  isSafeBoundedString v n = true ↔ ∃ s, v = JStr s ∧ jslen s <= n ∧ hasControlOrFormat s = false.
Proof.
  unfold isSafeBoundedString, isBoundedString. rewrite andb_true_iff, !onString_spec. split.
  - intros [(s & -> & H1) (s' & [= <-] & H2)]. bool_hyps. eauto.
  - intros (s & -> & H1 & H2). split; exists s; (split; [done|]); [by apply Z.leb_le|by rewrite H2].
Qed.

Lemma isMimeType_spec v : isMimeType v = true ↔ ∃ s, v = JStr s ∧ mimeText s.
Proof.
  unfold isMimeType. rewrite onString_spec. f_equiv. intros s. f_equiv. unfold mimeText.
  rewrite !andb_true_iff, Z.ltb_lt, Z.leb_le. f_equiv. lia.
Qed.

Lemma isSafeManifestFileName_spec v : isSafeManifestFileName v = true ↔ ∃ s, v = JStr s ∧ nameText s.
Proof.
  unfold isSafeManifestFileName, isSafeNonEmptyBoundedString. rewrite !andb_true_iff, isSafeBounded_spec, !onString_spec.
  split.
  - intros [[(s & -> & H1 & H2) (s1 & [= <-] & H3)] (s2 & [= <-] & H4)]. exists s. split; [done|].
    unfold includesUnit in H4. rewrite !andb_true_iff, !negb_true_iff, orb_false_iff, !bool_decide_eq_false in H4.
    rewrite !Z.ltb_lt, jslen_pos in *. unfold nameText. pose proof (proj2 (jslen_pos s) H3). destruct_and!.
    split_and!; try done; lia.
  - intros (s & -> & H1 & H2 & H3 & H4 & H5 & H6 & H7). split_and!; exists s; (split; [done|]).
    + split; [lia|done].
    + apply Z.ltb_lt. lia.
    + unfold includesUnit. rewrite !andb_true_iff, !negb_true_iff, orb_false_iff, !bool_decide_eq_false, Z.ltb_lt.
      rewrite jslen_pos. done.
Qed.

(** Every entry check is the entry's limits on what is read. *)
Lemma isManifestEntry_spec v :
  isManifestEntry v = true →
  ∃ e, readEntry v = Some e ∧ entryOk e ∧
    field v "size" = jint (fe_size e) ∧
    field v "id" = match fe_id e with Some id => jint id | None => JUndefined end.
Proof.
  unfold isManifestEntry, isOptionalUint8. intros H. rewrite !andb_true_iff, !orb_true_iff in H.
  destruct H as [[[[_ Hid] Hname] Hsize] Hmime].
  apply isSafeManifestFileName_spec in Hname as (name & Ename & Hname).
  apply isIntegerIn_spec in Hsize as (size & Esize & Hsize). unfold readEntry. rewrite Ename, Esize. simpl.
  assert (∃ id, readOptional readInt (field v "id") = Some id ∧ (∀ x, id = Some x → 0 <= x <= 255) ∧
    field v "id" = match id with Some id => jint id | None => JUndefined end) as (id & -> & Hidok & ->).
  { destruct Hid as [Hu|Hi].
    - exists None. by destruct (field v "id").
    - apply isIntegerIn_spec in Hi as (x & -> & Hx). exists (Some x). split_and!; try done. by intros ? [= <-]. }
  assert (∃ mime, readOptional readString (field v "mime") = Some mime ∧ (∀ x, mime = Some x → mimeText x))
    as (mime & -> & Hmimeok).
  { destruct Hmime as [Hu|Hi].
    - exists None. by destruct (field v "mime").
    - apply isMimeType_spec in Hi as (x & -> & Hx). exists (Some x). split_and!; try done. by intros ? [= <-]. }
  simpl. eexists. split; [done|]. simpl. split; [|done]. by split.
Qed.

Lemma manifestLoop_sound n v index ids total total' :
  manifestLoop n v index ids total = Some total' →
  ∃ es, mapM (λ i, readEntry (ownArrayDataValue v i)) (seqZ index (Z.of_nat n)) = Some es ∧
    length es = n ∧ Forall entryOk es ∧ NoDup (omap fe_id es) ∧
    (∀ x, x ∈ omap fe_id es → x ∉ ids) ∧ total' = total + sumSizes es.
Proof.
  revert index ids total. induction n as [|n IH]; intros index ids total H.
  { exists []. simplify_eq/=. split_and!; [done|done|constructor|constructor|set_solver|lia]. }
  simpl in H. destruct (isManifestEntry (ownArrayDataValue v index)) eqn:He; [|done]. simpl in H.
  apply isManifestEntry_spec in He as (e & Hread & Hok & Hsize & Hid). rewrite Hsize, Hid in H.
  assert (Hgo : ∀ ids', manifestLoop n v (index + 1) ids' (total + fe_size e) = Some total' →
    (∀ x, x ∈ omap fe_id [e] → x ∈ ids' ∧ x ∉ ids) → (∀ x, x ∈ ids → x ∈ ids') →
    ∃ es, mapM (λ i, readEntry (ownArrayDataValue v i)) (seqZ index (Z.of_nat (S n))) = Some es ∧
    length es = S n ∧ Forall entryOk es ∧ NoDup (omap fe_id es) ∧
    (∀ x, x ∈ omap fe_id es → x ∉ ids) ∧ total' = total + sumSizes es).
  { intros ids' Hl Hin Hsub. apply IH in Hl as (es & Hes & Hlen & Hall & Hnd & Hdis & ->).
    exists (e :: es). rewrite seqZ_cons by lia. replace (Z.pred (Z.of_nat (S n))) with (Z.of_nat n) by lia.
    replace (Z.succ index) with (index + 1) by lia. simpl mapM. rewrite Hread. simpl. rewrite Hes. simpl.
    split_and!; [done|by f_equal|by constructor| | |lia].
    - destruct (fe_id e) as [x|] eqn:Ex; [|done]. constructor; [|done]. intros Hx. apply (Hdis x Hx), Hin.
      simpl. rewrite Ex. left.
    - intros x. destruct (fe_id e) as [y|] eqn:Ey; rewrite ?elem_of_cons.
      + intros [-> | Hx]; [apply Hin; simpl; rewrite Ey; left|]. intros Hxi. by apply (Hdis x Hx), Hsub.
      + intros Hx Hxi. by apply (Hdis x Hx), Hsub. }
  destruct (fe_id e) as [x|] eqn:Ex.
  - case_bool_decide as Hx; [done|]. destruct (isSafeInteger _); [|done]. eapply Hgo; [done|..].
    + simpl. rewrite Ex. intros y ->%list_elem_of_singleton. split; [set_solver|done].
    + set_solver.
  - destruct (isSafeInteger _); [|done]. eapply Hgo; [done|..]; [|done]. simpl. rewrite Ex. set_solver.
Qed.

Lemma isManifest_sound v : isManifest v = true → ∃ m, readManifest v = Some m ∧ manifestOk m.
Proof.
  unfold isManifest, readManifest. intros H. apply andb_true_iff in H as [_ H].
  destruct (field v "files") as [| | | | | |items|]; try done.
  destruct (field v "fileCount") as [| | |[c| |]| | | |]; try done.
  rewrite !andb_true_iff in H. destruct H as [[[[[_ H1] H2] H3] _] H]. bool_hyps.
  destruct (manifestLoop _ _ _ _ _) as [total|] eqn:El; [|done].
  destruct (field v "totalBytes") as [| | |[t| |]| | | |]; try done. bool_hyps. subst.
  apply manifestLoop_sound in El as (es & -> & Hlen & Hall & Hnd & _ & Ht).
  eexists. split; [done|]. split; simpl; try done; lia.
Qed.

Ltac field_is v := match goal with |- context [field ?o ?n] => replace (field o n) with v by reflexivity end.

Lemma entryValue_fields e :
  field (entryValue e) "id" = match fe_id e with Some id => jint id | None => JUndefined end ∧
  field (entryValue e) "name" = JStr (fe_name e) ∧ field (entryValue e) "size" = jint (fe_size e) ∧
  field (entryValue e) "mime" = match fe_mime e with Some s => JStr s | None => JUndefined end.
Proof. by destruct e as [[id|] name size [mime|]]. Qed.

Lemma readEntry_entryValue e : readEntry (entryValue e) = Some e.
Proof.
  destruct (entryValue_fields e) as (Eid & Ename & Esize & Emime). unfold readEntry. rewrite Eid, Ename, Esize, Emime.
  by destruct e as [[id|] name size [mime|]].
Qed.

(** The literal of a manifest reads as that manifest. *)
Lemma readManifest_manifestValue m : readManifest (manifestValue m) = Some m.
Proof.
  unfold readManifest. change (field (manifestValue m) "files") with (arr (map entryValue (fm_files m))).
  change (field (manifestValue m) "fileCount") with (jint (fm_fileCount m)).
  change (field (manifestValue m) "totalBytes") with (jint (fm_totalBytes m)).
  unfold arr at 1. rewrite !length_map. fold (arr (map entryValue (fm_files m))).
  assert (mapM (λ i, readEntry (ownArrayDataValue (arr (map entryValue (fm_files m))) i))
    (seqZ 0 (Z.of_nat (length (fm_files m)))) = Some (fm_files m)) as ->; [|by destruct m].
  apply mapM_Some. apply Forall2_same_length_lookup. rewrite length_seqZ. split; [lia|].
  intros i z e Hz He. apply lookup_seqZ in Hz as [-> Hi]. rewrite ownArrayDataValue_literal by lia.
  replace (Z.to_nat (0 + Z.of_nat i)) with i by lia. rewrite list_lookup_fmap, He. apply readEntry_entryValue.
Qed.

(** The properties of a value that has a shape, and the literal's shape *)
Lemma entryShape_fields e v :
  entryShape e v ↔ isObject v = true ∧ hasOnlyKeys v [js "id"; js "name"; js "size"; js "mime"] = true ∧
    field v "id" = present (JNum ∘ NInt <$> fe_id e) ∧ field v "name" = JStr (fe_name e) ∧ field v "size" = jint (fe_size e) ∧
    field v "mime" = present (JStr <$> fe_mime e).
Proof.
  unfold entryShape. rewrite plainRecord_spec, !Forall_cons, Forall_nil. cbn [map compose fst snd]. split.
  - by intros (? & ? & E1 & E2 & E3 & E4 & _).
  - intros (? & ? & E1 & E2 & E3 & E4). by split_and!.
Qed.

Lemma entryValue_shape e : entryShape e (entryValue e).
Proof. apply entryShape_fields. by destruct e as [[id|] name size [mime|]]. Qed.

Lemma entry_exact v e : isManifestEntry v = true ∧ readEntry v = Some e ↔ entryOk e ∧ entryShape e v.
Proof.
  rewrite entryShape_fields. split.
  - intros [Hv Hr]. destruct (isManifestEntry_spec v Hv) as (e' & Hr' & Hok & Hsize & Hid). rewrite Hr in Hr'. injection Hr' as <-.
    split; [done|]. unfold isManifestEntry in Hv. rewrite !andb_true_iff in Hv. destruct Hv as (((((Ho & Hk) & _) & Hn) & _) & Hm).
    unfold readEntry in Hr. rewrite Hsize, Hid in Hr. apply isSafeManifestFileName_spec in Hn as (name & Ename & _). rewrite Ename in Hr |- *.
    apply orb_true_iff in Hm. split_and!; [done|done|by rewrite Hid; destruct (fe_id e)|..];
      (destruct Hm as [Hm|(mime & Em & _)%isMimeType_spec]; [destruct (field v "mime") eqn:Em; try done|rewrite Em in *]);
      destruct (fe_id e) eqn:Ei; cbn in Hr; injection Hr as <-; done.
  - intros [[Hid Hname Hsize Hmime] (Ho & Hk & E1 & E2 & E3 & E4)]. unfold isManifestEntry, isOptionalUint8, readEntry. rewrite Ho, Hk, E1, E2, E3, E4. split.
    + rewrite !andb_true_iff. split_and!; try done.
      * destruct (fe_id e) as [id|]; [|done]. apply isIntegerIn_spec. eauto.
      * apply isSafeManifestFileName_spec. eauto.
      * apply isIntegerIn_spec. eauto.
      * destruct (fe_mime e) as [m|]; [|done]. cbn [present fmap option_fmap option_map default isUndefined orb]. apply isMimeType_spec. eauto.
    + by destruct e as [[id|] name size [mime|]].
Qed.

Lemma sumSizes_bounds es : Forall entryOk es → 0 <= sumSizes es <= Z.of_nat (length es) * MAX_FILE_BYTES.
Proof.
  induction 1 as [|e es [_ _ Hs _] _ IH]; [simpl; lia|]. simpl length. unfold MAX_FILE_BYTES in *. simpl. lia.
Qed.

(** The loop, on any value whose elements have the shape of the entries *)
Lemma manifestLoop_complete es v index ids total :
  (∀ i e, es !! i = Some e → entryShape e (ownArrayDataValue v (index + Z.of_nat i))) →
  Forall entryOk es → NoDup (omap fe_id es) → (∀ x, x ∈ omap fe_id es → x ∉ ids) →
  0 <= total → total + sumSizes es <= MAX_SAFE_INTEGER →
  manifestLoop (length es) v index ids total = Some (total + sumSizes es).
Proof.
  intros Hv Hall. revert index ids total Hv. induction Hall as [|e es He Hall IH]; intros index ids total Hv Hnd Hdis Ht Hsum.
  { simpl. f_equal. lia. }
  pose proof (Hv 0%nat e eq_refl) as He0. rewrite Z.add_0_r in He0.
  cbn [length manifestLoop]. rewrite (proj1 (proj2 (entry_exact _ e) (conj He He0))). apply entryShape_fields in He0 as (_ & _ & -> & _ & -> & _). simpl.
  pose proof (sumSizes_bounds es Hall). destruct He as [_ _ Hsz _]. simpl in Hsum.
  assert (isSafeInteger (total + fe_size e) = true) as Hsafe.
  { unfold isSafeInteger. apply andb_true_iff. rewrite !Z.leb_le. unfold MAX_SAFE_INTEGER in *. lia. }
  assert (∀ i x, es !! i = Some x → entryShape x (ownArrayDataValue v (index + 1 + Z.of_nat i))) as Hv'.
  { intros i x Hx. replace (index + 1 + Z.of_nat i) with (index + Z.of_nat (S i)) by lia. by apply Hv. }
  simpl in Hnd, Hdis. destruct (fe_id e) as [x|]; cbn [present fmap option_fmap option_map default from_option id compose].
  - inversion_clear Hnd as [|?? Hx Hnd']. rewrite bool_decide_false by (apply Hdis; left). rewrite Hsafe, IH; try lia; try done.
    + f_equal. lia.
    + intros y Hy. rewrite elem_of_app, list_elem_of_singleton. intros [Hi | ->]; [|done]. eapply Hdis; [by right|done].
  - rewrite Hsafe, IH; try lia; try done. f_equal. lia.
Qed.

Lemma manifestLoop_entries n v index ids total t :
  manifestLoop n v index ids total = Some t → ∀ i, (i < n)%nat → isManifestEntry (ownArrayDataValue v (index + Z.of_nat i)) = true.
Proof.
  revert index ids total. induction n as [|n IH]; intros index ids total Hl i Hi; [lia|]. cbn [manifestLoop] in Hl.
  destruct (isManifestEntry (ownArrayDataValue v index)) eqn:He; [|done]. destruct i as [|i]; [by rewrite Z.add_0_r|].
  replace (index + Z.of_nat (S i)) with (index + 1 + Z.of_nat i) by lia. cbn [negb] in Hl.
  repeat case_match; try done; (eapply IH; [exact Hl|lia]).
Qed.

Lemma readEntries v es n :
  mapM (λ i, readEntry (ownArrayDataValue v i)) (seqZ 0 (Z.of_nat n)) = Some es ↔
  length es = n ∧ ∀ i e, es !! i = Some e → readEntry (ownArrayDataValue v (Z.of_nat i)) = Some e.
Proof.
  rewrite mapM_Some, Forall2_same_length_lookup, length_seqZ. split.
  - intros [Hl Hi]. split; [lia|]. intros i e He. apply (Hi i (Z.of_nat i)); [|done]. apply lookup_seqZ. apply lookup_lt_Some in He. lia.
  - intros [Hl Hi]. split; [lia|]. intros i z e Hz He. apply lookup_seqZ in Hz as [-> _]. by apply Hi.
Qed.

(** The validator of manifests accepts exactly the plain objects of manifests
    within the limits. *)
Lemma manifest_exact v m : isManifest v = true ∧ readManifest v = Some m ↔ manifestOk m ∧ manifestShape m v.
Proof.
  unfold manifestShape. rewrite plainRecord_spec, !Forall_cons, Forall_nil. cbn [map compose fst snd]. split.
  - intros [Hv Hr]. destruct (isManifest_sound v Hv) as (m' & Hr' & Hok). rewrite Hr in Hr'. injection Hr' as <-. split; [done|].
    unfold isManifest in Hv. rewrite !andb_true_iff in Hv. destruct Hv as [[Ho Hk] Hv]. unfold readManifest in Hr.
    destruct (field v "files") as [| | | | | |items|] eqn:Ef; try done. destruct (field v "fileCount") as [| | |[c| |]| | | |] eqn:Ec; try done.
    rewrite !andb_true_iff in Hv. destruct Hv as [[[[[_ _] _] _] _] Hv]. destruct (manifestLoop _ _ _ _ _) as [total|] eqn:El; [|done].
    destruct (field v "totalBytes") as [| | |[t| |]| | | |] eqn:Et; try done.
    destruct (mapM _ _) as [files|] eqn:Em; [|done]. cbn in Hr. injection Hr as <-. apply readEntries in Em as [Hl He]. split_and!; try done.
    exists items. split_and!; [done|by rewrite length_map|]. intros i shape Hs. cbn [fm_files] in Hs. rewrite list_lookup_fmap in Hs. destruct (files !! i) as [e|] eqn:Ei; [|done]. injection Hs as <-.
    apply entry_exact. split; [|by apply He]. apply lookup_lt_Some in Ei. apply (manifestLoop_entries _ _ _ _ _ _ El i). lia.
  - intros [Hok (Ho & Hk & (items & Ef & Hl & Hi) & Ec & Et & _)]. destruct Hok as [Hc Hb Hall Hnd Hsum]. pose proof (sumSizes_bounds _ Hall).
    rewrite length_map in Hl. assert (∀ i e, fm_files m !! i = Some e → entryShape e (ownArrayDataValue (JArr items) (Z.of_nat i))) as Hshape.
    { intros i e He. rewrite <-Ef. apply Hi. by rewrite list_lookup_fmap, He. }
    unfold MAX_FILES_PER_SESSION, MAX_FILE_BYTES in *. unfold isManifest, readManifest. rewrite Ho, Hk, Ef, <-Ec, <-Et. split.
    + rewrite !andb_true_iff. split_and!; try done.
      * unfold isSafeInteger, MAX_SAFE_INTEGER. apply andb_true_iff. rewrite !Z.leb_le. lia.
      * apply Z.leb_le. lia.
      * apply Z.leb_le. unfold MAX_FILES_PER_SESSION. lia.
      * apply Z.eqb_eq. lia.
      * apply isIntegerIn_spec. exists (fm_totalBytes m). unfold MAX_SAFE_INTEGER. split; [done|lia].
      * rewrite Hl, (manifestLoop_complete _ _ 0); try done; [apply Z.eqb_eq; lia|set_solver|unfold MAX_SAFE_INTEGER; lia].
    + assert (mapM (λ i, readEntry (ownArrayDataValue (JArr items) i)) (seqZ 0 (Z.of_nat (length items))) = Some (fm_files m)) as ->; [|by destruct m].
      apply readEntries. split; [done|]. intros i e He. apply entry_exact. split; [|by apply Hshape]. rewrite Forall_lookup in Hall. by eapply Hall.
Qed.

Lemma manifestValue_shape m : manifestShape m (manifestValue m).
Proof.
  apply plainRecord_spec. split_and!; [apply isObject_literal|done|]. rewrite !Forall_cons, Forall_nil. split_and!; try done.
  exists (map (λ v, Some (PData true v)) (map entryValue (fm_files m))). split_and!; [done|by rewrite !length_map|].
  intros i shape Hs. rewrite list_lookup_fmap in Hs. destruct (fm_files m !! i) as [e|] eqn:Ei; [|done]. injection Hs as <-.
  change (field (manifestValue m) "files") with (arr (map entryValue (fm_files m))). cbn [snd fst].
  change (ownArrayDataValue (field (manifestValue m) "files") (Z.of_nat i)) with (ownArrayDataValue (arr (map entryValue (fm_files m))) (Z.of_nat i)).
  rewrite ownArrayDataValue_literal by lia. rewrite Nat2Z.id, list_lookup_fmap, Ei. apply entryValue_shape.
Qed.

Lemma isManifest_complete m : manifestOk m → isManifest (manifestValue m) = true ∧ readManifest (manifestValue m) = Some m.
Proof. intros Hm. apply manifest_exact. split; [done|apply manifestValue_shape]. Qed.

Section Theorems.
Context `{UrlParser, JsCase}.

Lemma isSafeNonNegative_spec v : isSafeNonNegative v = true ↔ ∃ z, v = jint z ∧ versionOk z.
Proof. apply isIntegerIn_spec. Qed.

Ltac use_specs := repeat match goal with
  | H : isSessionId _ = true |- _ => apply isSessionId_spec in H as (? & ? & ?)
  | H : isMac _ = true |- _ => apply isMac_spec in H as (? & ? & ?)
  | H : isSealed _ _ = true |- _ => apply isSealed_spec in H as (? & ? & ?)
  | H : isRendezvousValue _ = true |- _ => apply isRendezvousValue_spec in H as (? & ? & ?)
  | H : isSafeNonNegative _ = true |- _ => apply isSafeNonNegative_spec in H as (? & ? & ?)
  | H : isNonEmptyByteBoundedString _ _ = true |- _ => apply isNonEmptyByteBounded_spec in H as (? & ? & ? & ?)
  | H : isManifest _ = true |- _ => apply isManifest_sound in H as (? & ? & ?)
  | H : field _ _ = _ |- _ => rewrite H
  | H : readManifest _ = _ |- _ => rewrite H
  end.

Lemma isSignalKind_read v : isSignalKind v = true → ∃ k, readKind v = Some k ∧ v = JStr (kindText k).
Proof.
  unfold isSignalKind. rewrite !orb_true_iff, !isLit_spec. intros [[-> | ->] | ->];
    [by exists offer|by exists answer|by exists candidate].
Qed.

(** What the validator lets through is a message: a value it accepts
    reads as a [ClientMessage] whose every part is within the limits: ids and
    codes in their alphabet, tags that encode exactly 32 bytes, sealed payloads
    in canonical base64, a manifest of 1 to 100 safely named files whose count,
    distinct ids and total size agree. *)
Lemma isClientMessage_sound v :
  isClientMessage v = true → ∃ m, readClientMessage v = Some m ∧ clientMessageOk m.
Proof.
  unfold isClientMessage, isRelayMessage, readClientMessage. intros Hv. apply andb_true_iff in Hv as [_ Hv].
  destruct (field v "type") as [| | | |type| | |]; try done. simpl.
  destruct (decide (type = js "register")) as [->|]; [|destruct (decide (type = js "connect")) as [->|]];
    [bool_hyps; use_specs; eexists; split; [done|]; split; done..|].
  destruct (decide (type = js "bye")) as [->|].
  { rewrite !andb_true_iff in Hv. destruct Hv as [[_ Hs] Hr]. unfold optionalSessionId, optionalSafeReason in *.
    rewrite orb_true_iff in Hs, Hr.
    assert (∃ sid, readOptional readString (field v "sid") = Some sid ∧ (∀ s, sid = Some s → sidText s)) as (sid & E1 & Hsid).
    { destruct Hs as [Hu|Hs]; [exists None; by destruct (field v "sid")|].
      apply isSessionId_spec in Hs as (s & -> & ?). exists (Some s). split; [done|]. by intros ? [= <-]. }
    assert (∃ r, readOptional readString (field v "reason") = Some r ∧
      (∀ s, r = Some s → jslen s <= MAX_REASON_CHARS ∧ hasControlOrFormat s = false)) as (r & E2 & Hreason).
    { destruct Hr as [Hu|Hr]; [exists None; by destruct (field v "reason")|].
      apply isSafeBounded_spec in Hr as (s & -> & ?). exists (Some s). split; [done|]. by intros ? [= <-]. }
    rewrite E1, E2. simpl. eexists. split; [done|]. by split. }
  repeat match type of Hv with (if decide (type = js ?s) then _ else _) = true => destruct (decide (type = js s)) as [->|] end;
    try done; try (bool_hyps; use_specs; eexists; split; [done|]; split; done).
  bool_hyps. match goal with H : isSignalKind _ = true |- _ => apply isSignalKind_read in H as (k & Hk & _) end.
  use_specs. simpl. rewrite Hk. simpl. eexists. split; [done|]. by split.
Qed.

Ltac skip_types := repeat (rewrite decide_False by (vm_compute; discriminate)).
Ltac pick_type := skip_types; rewrite decide_True by reflexivity.
(** Replace the reading of a field of a literal by the value it holds. *)
Ltac literal_fields :=
  repeat match goal with
  | |- context [field (obj ?l) ?n] =>
    first [ match l with context [(js n, ?v)] => change (field (obj l) n) with v end
          | change (field (obj l) n) with JUndefined ]
  end.
Ltac introduce_specs := first
  [ done
  | apply isSessionId_spec; by eauto | apply isMac_spec; by eauto | apply isSealed_spec; by eauto
  | apply isRendezvousValue_spec; by eauto | apply isSafeNonNegative_spec; by eauto
  | apply isNonEmptyByteBounded_spec; by eauto | apply isManifest_complete; by eauto
  | apply isSafeBounded_spec; by eauto | apply isLit_spec; reflexivity ].

Lemma clientValue_valid m :
  clientMessageOk m → isClientMessage (clientValue m) = true ∧ readClientMessage (clientValue m) = Some m.
Proof.
  unfold isClientMessage, isRelayMessage, readClientMessage, clientValue. rewrite isObject_literal. cbn [andb].
  destruct m as [code v|code v|sid data|sid tag|sid manifest sealed|sid auth|sid auth []|sid kind sealed|[sid|] [reason|]];
    cbn [clientMessageOk optionalField app]; intros Hok; destruct_and?; literal_fields;
    (split; [pick_type; rewrite ?andb_true_iff; split_and!; try introduce_specs
            |cbn [readString mbind option_bind]; pick_type]); try done.
  - match goal with H : manifestOk _ |- _ => by rewrite (proj2 (isManifest_complete _ H)) end.
  - by destruct kind.
  - by destruct kind.
Qed.

(** And every message within the limits passes the validator, as the
    object literal the program builds for it, and is read as itself. *)
Lemma isClientMessage_complete m :
  clientMessageOk m → isClientMessage (clientValue m) = true ∧ readClientMessage (clientValue m) = Some m.
Proof. apply clientValue_valid. Qed.

(** What the server relays, its peer accepts: a valid client message
    of a kind that is relayed is, unchanged, a valid server message. *)
Lemma relayed_message_valid v m :
  isClientMessage v = true → readClientMessage v = Some m → relay_sid m ≠ None → isServerMessage v = true.
Proof.
  unfold isClientMessage, isServerMessage, readClientMessage. intros Hv Hm Hsid.
  apply andb_true_iff in Hv as [-> Hv]. cbn [andb].
  destruct (field v "type") as [| | | |type| | |]; try done. cbn [readString mbind option_bind] in Hm.
  destruct (decide (type = js "register")) as [->|]; [by simplify_option_eq|].
  destruct (decide (type = js "connect")) as [->|]; [by simplify_option_eq|].
  destruct (decide (type = js "bye")) as [->|].
  { repeat (rewrite decide_False in Hm by (vm_compute; discriminate)).
    by simplify_option_eq. }
  unfold isRelayMessage in *.
  repeat match type of Hv with (if decide (type = js ?s) then _ else _) = true =>
    destruct (decide (type = js s)) as [->|]; [by skip_types|] end. done.
Qed.

(** What was read of a field, as an equation for the field *)
Lemma readString_eq v s : readString v = Some s → v = JStr s.
Proof. destruct v; cbn; congruence. Qed.
Lemma readInt_eq v z : readInt v = Some z → v = jint z.
Proof. destruct v as [| | |[]| | | |]; cbn; congruence. Qed.
Lemma readOptionalString_eq v o : readOptional readString v = Some o → v = present (JStr <$> o).
Proof. unfold readOptional, readString. by destruct v; cbn; intros [= <-]. Qed.
Lemma readKind_eq v k : readKind v = Some k → v = JStr (kindText k).
Proof.
  unfold readKind. destruct v as [| | | |s| | |]; try done. cbn [readString mbind option_bind].
  repeat case_decide; intros [= <-]; by subst.
Qed.

Ltac read_fields := repeat match goal with
  | H : (_ ← readString ?v; _) = Some _ |- _ => destruct (readString v) eqn:?; [cbn [mbind option_bind] in H|discriminate H]
  | H : (_ ← readInt ?v; _) = Some _ |- _ => destruct (readInt v) eqn:?; [cbn [mbind option_bind] in H|discriminate H]
  | H : (_ ← readKind ?v; _) = Some _ |- _ => destruct (readKind v) eqn:?; [cbn [mbind option_bind] in H|discriminate H]
  | H : (_ ← readManifest ?v; _) = Some _ |- _ => destruct (readManifest v) eqn:?; [cbn [mbind option_bind] in H|discriminate H]
  | H : (_ ← readOptional readString ?v; _) = Some _ |- _ => destruct (readOptional readString v) eqn:?; [cbn [mbind option_bind] in H|discriminate H]
  | H : Some _ = Some _ |- _ => injection H as <-
  | H : readString _ = Some _ |- _ => apply readString_eq in H
  | H : readInt _ = Some _ |- _ => apply readInt_eq in H
  | H : readKind _ = Some _ |- _ => apply readKind_eq in H
  | H : readOptional readString _ = Some _ |- _ => apply readOptionalString_eq in H
  end.

(** A value that is accepted has the shape of the message that is read. *)
Lemma isClientMessage_shape v m : isClientMessage v = true → readClientMessage v = Some m → plainRecord v (clientShape m).
Proof.
  unfold isClientMessage, isRelayMessage, readClientMessage. intros [Ho Hv]%andb_true_iff Hr. rewrite plainRecord_spec.
  destruct (field v "type") as [| | | |type| | |] eqn:Et; try done. cbn [readString mbind option_bind] in Hr.
  repeat match type of Hr with (if decide (type = js ?s) then _ else _) = _ => destruct (decide (type = js s)) as [->|]; [|try done] end;
    try done; repeat (rewrite decide_False in Hv by (vm_compute; discriminate)); try (rewrite decide_True in Hv by reflexivity);
    rewrite ?andb_true_iff in Hv; destruct_and?; read_fields; cbn [clientShape map compose fst snd]; rewrite !Forall_cons, Forall_nil; cbn [snd fst];
    (split; [done|]); (split; [assumption|]);
    repeat match goal with H : isLit _ _ = true |- _ => apply isLit_spec in H | H : isPairRejectReason _ = true |- _ => apply isLit_spec in H end;
    split_and!; try done; try congruence.
  - apply manifest_exact. by split.
Qed.
(** A value that has the shape of a message within the limits is accepted and
    read as that message. *)
Lemma isClientMessage_shaped v m :
  clientMessageOk m → plainRecord v (clientShape m) → isClientMessage v = true ∧ readClientMessage v = Some m.
Proof.
  rewrite plainRecord_spec. intros Hok (Ho & Hk & HF). unfold isClientMessage, isRelayMessage, readClientMessage. rewrite Ho.
  destruct m as [code n|code n|sid data|sid tag|sid manifest sealed|sid auth|sid auth []|sid kind sealed|sid reason];
    cbn [clientShape map compose fst snd] in Hk, HF; rewrite !Forall_cons, Forall_nil in HF; cbn [snd fst] in HF; cbn [clientMessageOk] in Hok; destruct_and?;
    repeat match goal with H : _ = field v _ |- _ => rewrite <-H end; cbn [readString mbind option_bind andb];
    (split; [pick_type; rewrite Hk, ?andb_true_iff; split_and!; try introduce_specs|pick_type; cbn [readString readInt mbind option_bind]]);
    try done.
  - by eapply proj1, manifest_exact.
  - match goal with H1 : manifestOk manifest, H2 : manifestShape _ _ |- _ => destruct (proj2 (manifest_exact _ _) (conj H1 H2)) as [_ ->] end. done.
  - by destruct kind.
  - by destruct kind.
  - destruct sid as [sid|]; [|done]. unfold optionalSessionId. apply orb_true_iff. right. apply isSessionId_spec. eauto.
  - destruct reason as [r|]; [|done]. unfold optionalSafeReason. apply orb_true_iff. right. apply isSafeBounded_spec. eauto.
  - by destruct sid, reason.
Qed.

Definition testMac : jsstr := bytesToBase64 (repeat 7 32).

(** C33. The validator of client messages is exact.  A value is accepted and read
    as the message [m] if and only if [m] is within the limits (ids and codes in
    their alphabet, tags of exactly 32 bytes, sealed payloads in canonical
    base64, a manifest of 1 to 100 safely named files whose count, distinct ids
    and total size agree) and the value has the shape of [m]: a plain object with
    enumerable data under the names of the message and no others, that hold its
    type, its role or reason, and its parts, manifests and their entries
    likewise.  Whatever is accepted is read; the object literal the program builds
    for a message within the limits is accepted and read as itself; and what the
    server relays its peer accepts: a valid client message of a kind that is
    relayed is, unchanged, a valid server message. *)
Theorem client_messages_exact :
  (∀ v m, isClientMessage v = true ∧ readClientMessage v = Some m ↔ clientMessageOk m ∧ plainRecord v (clientShape m)) ∧
  (∀ v, isClientMessage v = true → is_Some (readClientMessage v)) ∧
  (∀ m, clientMessageOk m → isClientMessage (clientValue m) = true ∧ readClientMessage (clientValue m) = Some m) ∧
  (∀ v m, isClientMessage v = true → readClientMessage v = Some m → relay_sid m ≠ None → isServerMessage v = true).
Proof.
  split_and!; [|intros v Hv|apply isClientMessage_complete|apply relayed_message_valid].
  - intros v m. split; [|intros [Hm Hv]; by apply isClientMessage_shaped]. intros [Hv Hr]. split; [|by apply isClientMessage_shape].
    destruct (isClientMessage_sound v Hv) as (m' & Hr' & Hok). congruence.
  - destruct (isClientMessage_sound v Hv) as (m & -> & _). by eexists.
Qed.

End Theorems.

#[local] Existing Instances noUrls asciiCase.

(** A confirmation that passes, one whose session id has a space, and a share
    message that goes both ways *)
Definition testConfirm (sid : string) : jsval := obj [(js "type", jstr "confirm"); (js "sid", jstr sid); (js "tag", JStr testMac)].

Lemma client_messages_exact_witness :
  isClientMessage (testConfirm "s 1") = false ∧
  plainRecord (testConfirm "s-1") (clientShape (CConfirm (js "s-1") testMac)) ∧
  isClientMessage (clientValue (CPake (js "s-1") (js "{}"))) = true ∧ isServerMessage (clientValue (CPake (js "s-1") (js "{}"))) = true.
Proof.
  destruct client_messages_exact as (Hexact & _ & Hcomplete & Hrelay).
  assert (H1 : clientMessageOk (CPake (js "s-1") (js "{}"))).
  { split; [|vm_compute; by split]. split; [vm_compute; by split|]. repeat constructor. }
  destruct (Hcomplete _ H1) as [Hv Hr]. split; [vm_compute; reflexivity|]. split_and!; [|done|by apply (Hrelay _ _ Hv Hr)].
  apply Hexact. by vm_compute.
Defined.
