(* ===== verification/Wire.v ===== *)
(** * Wire: signalling frames ([src/shared/messages.ts], parsing and
    serialization).

    [stringifyJsonValue] with its node, depth and character budgets, and
    [parseJsonTextFrame].  The theorems show that the budgets are exact, that a
    message within the limits is serialized whenever its text fits a frame, and
    that the peer reads back the very message. *)
From S2P Require Import Prelude.
From S2P Require Import Constants.
From S2P Require Import JsText.
From S2P Require Import JsValue.
From S2P Require Import Json.
From S2P Require Import Base64.
From S2P Require Import Authority.
From S2P Require Import Wordlist.
From S2P Require Import Protocol.
From S2P Require Import Messages.
#[local] Open Scope Z_scope.

(** ** Stringification *)

(** [JsonStringifyContext], without the set of objects being written. *)
Record JsonStringifyContext := { remainingNodes : Z; charsWritten : Z }.

Abbreviation M := (ST JsonStringifyContext).
Definition frameTooLarge {A} : M A := st_lift (throw "Signaling message exceeds maximum frame size.").
Definition notSerializable {A} : M A := st_lift (throw "Signaling message is not JSON serializable.").

(** [checkedJsonFragment] *)
Definition checkedJsonFragment (fragment : jsstr) : M jsstr :=
  st_modify (λ c, {| remainingNodes := remainingNodes c; charsWritten := charsWritten c + jslen fragment |});;
  context ← st_get;
  if SIGNALING_MAX_PAYLOAD_BYTES <? charsWritten context then frameTooLarge else mret fragment.

(** [beginJsonObject] *)
Definition beginJsonObject (depth : Z) : M () :=
  if MAX_SIGNALING_JSON_DEPTH <? depth then frameTooLarge
  else
    st_modify (λ c, {| remainingNodes := remainingNodes c - 1; charsWritten := charsWritten c |});;
    context ← st_get;
    if remainingNodes context <? 0 then frameTooLarge else mret ().

Section Loops.
Variable stringify : jsval → M (option jsstr).

(** The loop of [stringifyJsonArray]. *)
Fixpoint stringifyItems (first : bool) (items : list (option (prop jsval))) : M (list jsstr) :=
  match items with
  | [] => mret []
  | slot :: r =>
    (if first then mret () else checkedJsonFragment (js ",");; mret ());;
    match slot with
    | Some (PData _ v) =>
      t ← stringify v;
      t ← match t with Some t => mret t | None => checkedJsonFragment (js "null") end;
      ts ← stringifyItems false r;
      mret (t :: ts)
    | _ => notSerializable
    end
  end.

(** The loop of [stringifyJsonRecord]. *)
Fixpoint stringifyMembers (first : bool) (props : list (key * prop jsval)) : M (list jsstr) :=
  match props with
  | [] => mret []
  | (KStr k, PData true v) :: r =>
    t ← stringify v;
    match t with
    | None => stringifyMembers first r
    | Some t =>
      (if first then mret () else checkedJsonFragment (js ",");; mret ());;
      checkedJsonFragment (js ":");;
      k ← checkedJsonFragment (jsonQuote k);
      ts ← stringifyMembers false r;
      mret ((k ++ js ":" ++ t) :: ts)
    end
  | (KStr _, PAccessor true) :: r => notSerializable
  | _ :: r => stringifyMembers first r
  end.
End Loops.

(** [stringifyJsonValue], [stringifyJsonArray] and [stringifyJsonRecord] *)
Fixpoint stringifyJsonValue (v : jsval) (depth : Z) : M (option jsstr) :=
  context ← st_get;
  if (remainingNodes context <=? 0) || (MAX_SIGNALING_JSON_DEPTH <? depth) then frameTooLarge
  else match v with
  | JStr s => Some <$> checkedJsonFragment (jsonQuote s)
  | JNum n => match numText n with Some t => Some <$> checkedJsonFragment t | None => notSerializable end
  | JBool b => Some <$> checkedJsonFragment (js (if b then "true" else "false"))
  | JNull => Some <$> checkedJsonFragment (js "null")
  | JUndefined | JOther _ => mret None
  | JArr items =>
    beginJsonObject depth;; checkedJsonFragment (js "[");;
    out ← stringifyItems (λ v, stringifyJsonValue v (depth + 1)) true items;
    checkedJsonFragment (js "]");;
    mret (Some (js "[" ++ joinWith (js ",") out ++ js "]"))
  | JObj _ props =>
    if negb (isObject v) then notSerializable
    else if hasSymbols v then notSerializable
    else
      beginJsonObject depth;;
      if hasOwnKey v (js "toJSON") then notSerializable
      else
        checkedJsonFragment (js "{");;
        out ← stringifyMembers (λ v, stringifyJsonValue v (depth + 1)) true props;
        checkedJsonFragment (js "}");;
        mret (Some (js "{" ++ joinWith (js ",") out ++ js "}"))
  end.

(** [stringifyJsonData] *)
Definition stringifyJsonData (v : jsval) : result jsstr :=
  match stringifyJsonValue v 0 {| remainingNodes := MAX_SIGNALING_JSON_NODES; charsWritten := 0 |} with
  | Done (Some t) _ => Ok t
  | Done None _ => throw "Signaling message is not JSON serializable."
  | Raised e _ => Err e
  | OutOfFuel => throw "unreachable"
  end.

(** ** Parsing *)

(** The data of a received frame: a string, the bytes of a [Uint8Array] or
    [Buffer] (or of a subclass), or another value. *)
Inductive FrameData := FText (s : jsstr) | FBytes (canonicalPrototype : bool) (data : list Z) | FOther.

Section Wire.
Context `{JsNumbers, UrlParser, JsCase}.

(** [parseJsonMessage] on a string; [null] when it cannot be parsed. *)
Definition parseJsonMessage (raw : jsstr) : jsval :=
  if SIGNALING_MAX_PAYLOAD_BYTES <? jslen raw then JNull
  else if SIGNALING_MAX_PAYLOAD_BYTES <? utf8ByteLength raw then JNull
  else match jsonParse raw with Some v => v | None => JNull end.

(** [canonicalBinaryFrameByteLength] *)
Definition canonicalBinaryFrameByteLength (canonicalPrototype : bool) (data : list Z) : option Z :=
  if canonicalPrototype then Some (Z.of_nat (length data)) else None.

(** [parseJsonTextFrame] *)
Definition parseJsonTextFrame (data : FrameData) (isBinary : bool) : jsval :=
  if isBinary then JNull
  else match data with
  | FText s => parseJsonMessage s
  | FBytes canonicalPrototype bytes =>
    match canonicalBinaryFrameByteLength canonicalPrototype bytes with
    | None => JNull
    | Some byteLength =>
      if SIGNALING_MAX_PAYLOAD_BYTES <? byteLength then JNull
      else match utf8Decode bytes with Some s => parseJsonMessage s | None => JNull end
    end
  | FOther => JNull
  end.

(** [parseBrowserJsonMessage] *)
Definition parseBrowserJsonMessage (data : FrameData) : jsval :=
  match data with FText s => parseJsonMessage s | _ => JNull end.

(** [serializeMessage] *)
Definition serializeMessage (message : jsval) : result jsstr :=
  serialized ← stringifyJsonData message;
  if SIGNALING_MAX_PAYLOAD_BYTES <? utf8ByteLength serialized
  then throw "Signaling message exceeds maximum frame size."
  else
    let parsed := parseJsonMessage serialized in
    if negb (isClientMessage parsed) && negb (isServerMessage parsed)
    then throw "Signaling message is not a valid protocol message."
    else Ok serialized.

End Wire.

(** ** The budgets *)

(** What a value needs to be written: nodes, depth, characters. *)
Record affordable (v : jsval) (t : jsstr) (depth : Z) (c : JsonStringifyContext) : Prop := {
  afford_free : noToJSON v = true;
  afford_nodes : jsonNodes v < remainingNodes c;
  afford_depth : depth + jsonHeight v <= MAX_SIGNALING_JSON_DEPTH;
  afford_chars : charsWritten c + jslen t <= SIGNALING_MAX_PAYLOAD_BYTES
}.

(** [c'] is [c] after writing [n] nodes and [k] characters, within the limit. *)
Definition spent (c : JsonStringifyContext) (n k : Z) (c' : JsonStringifyContext) : Prop :=
  remainingNodes c' = remainingNodes c - n ∧ charsWritten c' = charsWritten c + k ∧
  charsWritten c' <= SIGNALING_MAX_PAYLOAD_BYTES.

(** [v] is written as [t], at its exact cost, whenever that is affordable. *)
Definition writes (v : jsval) (t : jsstr) : Prop :=
  ∀ depth c, wpe (stringifyJsonValue v depth)
    (λ r c', r = Some t ∧ spent c (jsonNodes v) (jslen t) c')
    (λ _ _, ¬ affordable v t depth c) c.

Lemma jslen_app s t : jslen (s ++ t) = jslen s + jslen t.
Proof. unfold jslen. rewrite length_app. lia. Qed.
Lemma jslen_nonneg s : 0 <= jslen s.
Proof. unfold jslen. lia. Qed.
Lemma jslen_cons x s : jslen (x :: s) = 1 + jslen s.
Proof. unfold jslen. simpl length. lia. Qed.

Lemma checkedJsonFragment_wpe t (Q : jsstr → JsonStringifyContext → Prop) E c :
  (∀ c', spent c 0 (jslen t) c' → Q t c') →
  (SIGNALING_MAX_PAYLOAD_BYTES < charsWritten c + jslen t → ∀ e c', E e c') →
  wpe (checkedJsonFragment t) Q E c.
Proof.
  intros HQ HE. unfold checkedJsonFragment. wpe_steps; simpl in *; bool_hyps; [by apply HE|].
  apply HQ. unfold spent. simpl. lia.
Qed.

Lemma beginJsonObject_wpe depth (Q : () → JsonStringifyContext → Prop) E c :
  (∀ c', remainingNodes c' = remainingNodes c - 1 ∧ charsWritten c' = charsWritten c → Q () c') →
  (MAX_SIGNALING_JSON_DEPTH < depth ∨ remainingNodes c <= 0 → ∀ e c', E e c') →
  wpe (beginJsonObject depth) Q E c.
Proof.
  intros HQ HE. unfold beginJsonObject. wpe_steps; simpl in *; bool_hyps; [apply HE; auto|apply HE; lia|].
  by apply HQ.
Qed.

(** Costs of a list of texts, each with its comma. *)
Definition textsLength (ts : list jsstr) : Z := foldr (λ t n, 1 + jslen t + n) 0 ts.
Definition sepCost (first : bool) {A} (l : list A) : Z := match l with [] => 0 | _ => if first then 1 else 0 end.

Lemma textsLength_nonneg ts : 0 <= textsLength ts.
Proof. induction ts as [|t ts IH]; simpl; [lia|]. pose proof (jslen_nonneg t). lia. Qed.

Lemma joinWith_length ts : jslen (joinWith (js ",") ts) = textsLength ts - sepCost true ts.
Proof.
  induction ts as [|t ts IH]; [done|]. rewrite joinWith_cons. destruct ts as [|t' ts]; [simpl; lia|].
  rewrite !jslen_app, IH. simpl. change (jslen (js ",")) with 1. lia.
Qed.

Lemma bracketed_length a b ts :
  jslen (a :: joinWith (js ",") ts ++ [b]) = 2 + textsLength ts - sepCost true ts ∧ 0 <= textsLength ts - sepCost true ts.
Proof.
  rewrite jslen_cons, jslen_app, joinWith_length. split; [change (jslen [b]) with 1; lia|].
  rewrite <-joinWith_length. apply jslen_nonneg.
Qed.

Lemma foldr_nonneg {A} (f : A → Z) l : (∀ x, 0 <= f x) → 0 <= foldr (λ x n, f x + n) 0 l.
Proof. intros Hf. induction l as [|x l IH]; simpl; [lia|]. specialize (Hf x). lia. Qed.

Lemma jsonNodes_arr l : jsonNodes (arr l) = foldr (λ v n, jsonNodes v + n) 0 l + 1.
Proof. unfold jsonNodes. by rewrite jsonFold_arr. Qed.
Lemma jsonNodes_obj l : jsonNodes (obj l) = foldr (λ kv n, jsonNodes kv.2 + n) 0 l + 1.
Proof. unfold jsonNodes. by rewrite jsonFold_obj. Qed.

Lemma jsonNodes_nonneg v : jsonData v → 0 <= jsonNodes v.
Proof.
  induction 1 as [|b|z Hz|s Hs|l Hl IH|l Hnd Hk Hl IH]; try done.
  - rewrite jsonNodes_arr. clear Hl. induction l as [|v l IHl]; [done|]. simpl.
    pose proof (IH v ltac:(left)). specialize (IHl ltac:(intros; apply IH; by right)). lia.
  - rewrite jsonNodes_obj. clear Hl Hk Hnd. induction l as [|[k v] l IHl]; [done|]. simpl.
    pose proof (IH k v ltac:(left)). specialize (IHl ltac:(intros; eapply IH; by right)). lia.
Qed.

Lemma separator_wpe (first : bool) (Q : () → JsonStringifyContext → Prop) E c :
  (∀ c', (c' = c ∧ first = true) ∨ spent c 0 (1 - if first then 1 else 0) c' → Q () c') →
  (first = false → SIGNALING_MAX_PAYLOAD_BYTES < charsWritten c + 1 → ∀ e c', E e c') →
  wpe (if first then mret () else checkedJsonFragment (js ",");; mret ()) Q E c.
Proof.
  intros HQ HE. destruct first; [wpe_step; auto|]. wpe_step. apply checkedJsonFragment_wpe; [|intros; by apply HE].
  intros c' Hc'. wpe_step. apply HQ. by right.
Qed.

Lemma stringifyItems_wpe depth l ts first c :
  Forall2 writes l ts → Forall jsonData l → charsWritten c <= SIGNALING_MAX_PAYLOAD_BYTES →
  wpe (stringifyItems (λ v, stringifyJsonValue v depth) first (map (λ v, Some (PData true v)) l))
    (λ r c', r = ts ∧ spent c (foldr (λ v n, jsonNodes v + n) 0 l) (textsLength ts - sepCost first ts) c')
    (λ _ _, ¬ (Forall (λ v, noToJSON v = true ∧ depth + jsonHeight v <= MAX_SIGNALING_JSON_DEPTH) l ∧
      foldr (λ v n, jsonNodes v + n) 0 l < remainingNodes c ∧
      charsWritten c + textsLength ts - sepCost first ts <= SIGNALING_MAX_PAYLOAD_BYTES)) c.
Proof.
  intros Hl. revert first c. induction Hl as [|v t l ts Hv Hl IH]; intros first c Hdata Hc.
  { simpl. unfold spent. split; [done|]. lia. }
  inversion_clear Hdata as [|?? Hdv Hdl]. cbn [map stringifyItems foldr textsLength sepCost].
  pose proof (jsonNodes_nonneg v Hdv) as Hnv. pose proof (jslen_nonneg t).
  pose proof (textsLength_nonneg ts). fold (textsLength ts).
  assert (0 <= foldr (λ v n, jsonNodes v + n) 0 l) as Hnl.
  { clear -Hdl. induction Hdl as [|x l Hx _ IHl]; simpl; [lia|]. pose proof (jsonNodes_nonneg x Hx). lia. }
  wpe_step. apply separator_wpe; [|intros -> ? ? ? (_ & _ & ?); lia].
  intros c1 Hc1. assert (Hc1' : remainingNodes c1 = remainingNodes c ∧
    charsWritten c1 = charsWritten c + 1 - (if first then 1 else 0) ∧ charsWritten c1 <= SIGNALING_MAX_PAYLOAD_BYTES).
  { unfold spent in Hc1. destruct Hc1 as [[-> ->] | ?]; [lia|]. destruct first; lia. } clear Hc1.
  wpe_step. eapply wpe_mono; [apply Hv|..]; cbv beta.
  - intros r c2 [-> (Hr2 & Hk2 & Hm2)]. do 2 wpe_step. wpe_step.
    eapply wpe_mono; [by apply (IH false)|..]; cbv beta.
    + intros r c3 [-> (Hr3 & Hk3 & Hm3)]. wpe_step. split; [done|]. unfold spent.
      replace (sepCost false ts) with 0 in * by by destruct ts. destruct first; lia.
    + intros _ _ Hn (Hall & Hr & Hk). apply Hn. inversion_clear Hall. split; [done|].
      replace (sepCost false ts) with 0 in * by by destruct ts. destruct first; lia.
  - intros _ _ Hn (Hall & Hr & Hk). apply Hn. inversion_clear Hall as [|?? [??] ?]. split; try done; [lia|].
    destruct first; lia.
Qed.

Lemma stringifyMembers_wpe depth l ts first c :
  Forall2 (λ kv t, ∃ tv, t = jsonQuote kv.1 ++ js ":" ++ tv ∧ writes kv.2 tv) l ts →
  Forall (λ kv, jsonData kv.2) l → charsWritten c <= SIGNALING_MAX_PAYLOAD_BYTES →
  wpe (stringifyMembers (λ v, stringifyJsonValue v depth) first (map (λ kv, (KStr kv.1, PData true kv.2)) l))
    (λ r c', r = ts ∧ spent c (foldr (λ kv n, jsonNodes kv.2 + n) 0 l) (textsLength ts - sepCost first ts) c')
    (λ _ _, ¬ (Forall (λ kv, noToJSON kv.2 = true ∧ depth + jsonHeight kv.2 <= MAX_SIGNALING_JSON_DEPTH) l ∧
      foldr (λ kv n, jsonNodes kv.2 + n) 0 l < remainingNodes c ∧
      charsWritten c + textsLength ts - sepCost first ts <= SIGNALING_MAX_PAYLOAD_BYTES)) c.
Proof.
  intros Hl. revert first c. induction Hl as [|[k v] t l ts (tv & -> & Hv) Hl IH]; intros first c Hdata Hc.
  { simpl. unfold spent. split; [done|]. lia. }
  inversion_clear Hdata as [|?? Hdv Hdl]. cbn [map stringifyMembers foldr textsLength sepCost fst snd] in *.
  pose proof (jsonNodes_nonneg v Hdv) as Hnv. rewrite !jslen_app. change (jslen (js ":")) with 1.
  pose proof (jslen_nonneg tv). pose proof (jslen_nonneg (jsonQuote k)).
  pose proof (textsLength_nonneg ts). fold (textsLength ts).
  assert (0 <= foldr (λ kv n, jsonNodes kv.2 + n) 0 l) as Hnl.
  { clear -Hdl. induction Hdl as [|x l Hx _ IHl]; simpl; [lia|]. pose proof (jsonNodes_nonneg _ Hx). lia. }
  wpe_step. eapply wpe_mono; [apply Hv|..]; cbv beta.
  - intros r c1 [-> (Hr1 & Hk1 & Hm1)]. wpe_step.
    apply separator_wpe; [|intros -> ? ? ? (_ & _ & ?); lia].
    intros c2 Hc2. assert (Hc2' : remainingNodes c2 = remainingNodes c1 ∧
      charsWritten c2 = charsWritten c1 + 1 - (if first then 1 else 0) ∧ charsWritten c2 <= SIGNALING_MAX_PAYLOAD_BYTES).
    { unfold spent in Hc2. destruct Hc2 as [[-> Hf] | ?]; [rewrite Hf; lia|]. destruct first; lia. } clear Hc2.
    wpe_step. apply checkedJsonFragment_wpe; [|intros ? ? ? (_ & _ & ?); change (jslen (js ":")) with 1 in *; destruct first; lia].
    change (jslen (js ":")) with 1. intros c3 (Hr3 & Hk3 & Hm3). wpe_step.
    apply checkedJsonFragment_wpe; [|intros ? ? ? (_ & _ & ?); destruct first; lia].
    intros c4 (Hr4 & Hk4 & Hm4). wpe_step. eapply wpe_mono; [by apply (IH false)|..]; cbv beta.
    + intros r c5 [-> (Hr5 & Hk5 & Hm5)]. wpe_step. split; [done|]. unfold spent.
      replace (sepCost false ts) with 0 in * by by destruct ts. destruct first; lia.
    + intros _ _ Hn (Hall & Hr & Hk). apply Hn. inversion_clear Hall. split; [done|].
      replace (sepCost false ts) with 0 in * by by destruct ts. destruct first; lia.
  - intros _ _ Hn (Hall & Hr & Hk). apply Hn. inversion_clear Hall as [|?? [??] ?]. split; try done; [lia|].
    destruct first; lia.
Qed.

Lemma stringify_guard {A} depth (m : M A) Q (E : jsstr → JsonStringifyContext → Prop) c :
  (0 < remainingNodes c → depth <= MAX_SIGNALING_JSON_DEPTH → wpe m Q E c) →
  (remainingNodes c <= 0 ∨ MAX_SIGNALING_JSON_DEPTH < depth → ∀ e c', E e c') →
  wpe (context ← st_get;
       if (remainingNodes context <=? 0) || (MAX_SIGNALING_JSON_DEPTH <? depth) then frameTooLarge else m) Q E c.
Proof.
  intros Hm HE. wpe_step. wpe_step. wpe_step.
  - apply HE. rewrite orb_true_iff, Z.leb_le, Z.ltb_lt in *. done.
  - bool_hyps. by apply Hm.
Qed.

(** A scalar costs its text. *)
Lemma scalar_writes v t :
  (∀ depth, stringifyJsonValue v depth = (context ← st_get;
     if (remainingNodes context <=? 0) || (MAX_SIGNALING_JSON_DEPTH <? depth) then frameTooLarge
     else Some <$> checkedJsonFragment t)) →
  jsonNodes v = 0 → jsonHeight v = 0 → writes v t.
Proof.
  intros Heq Hn Hh depth c. rewrite Heq. apply stringify_guard.
  - intros. wpe_step. apply checkedJsonFragment_wpe.
    + intros c' Hs. by rewrite Hn.
    + intros Hlt _ _ [_ _ _ Hch]. lia.
  - intros Hor _ _ [_ Hno Hd _]. lia.
Qed.

Lemma arr_writes l : Forall jsonData l → (∀ v, v ∈ l → ∀ t, jsonText v = Some t → writes v t) →
  ∀ t, jsonText (arr l) = Some t → writes (arr l) t.
Proof.
  intros Hdata IH t Ht depth c. rewrite jsonText_arr in Ht. destruct (mapM jsonText l) as [ts|] eqn:E; [|done].
  apply mapM_Some_1 in E. assert (Hts : Forall2 writes l ts).
  { rewrite Forall2_same_length_lookup. split; [by eapply Forall2_length|]. intros i v t' Hv Ht'.
    eapply IH; [by eapply list_elem_of_lookup_2|]. by eapply Forall2_lookup_lr in E. }
  clear IH. change (Some ([91] ++ joinWith (js ",") ts ++ [93]) = Some t) in Ht. injection Ht as <-.
  destruct (bracketed_length 91 93 ts) as [Hlen Hts0].
  unfold arr at 1. cbn [stringifyJsonValue]. apply stringify_guard.
  - intros Hrem Hdepth. wpe_step. apply beginJsonObject_wpe; [|lia].
    intros c1 [Hr1 Hk1]. wpe_step.
    apply checkedJsonFragment_wpe; change (jslen (js "[")) with 1.
    + intros c2 (Hr2 & Hk2 & Hm2). wpe_step.
      eapply wpe_mono; [by apply stringifyItems_wpe|..]; cbv beta.
      * intros r c3 [-> (Hr3 & Hk3 & Hm3)]. wpe_step. apply checkedJsonFragment_wpe; change (jslen (js "]")) with 1.
        -- intros c4 (Hr4 & Hk4 & Hm4). wpe_step. split; [done|]. unfold spent.
           rewrite jsonNodes_arr. lia.
        -- intros Hlt _ _ [_ _ _ Hch]. lia.
      * intros _ _ Hn [Hf Hno Hd Hch]. apply Hn.
        rewrite jsonNodes_arr in Hno. rewrite jsonHeight_arr in Hd. split; [|lia].
        apply Forall_forall. intros v Hv. split.
        -- rewrite noToJSON_arr in Hf. clear -Hf Hv. induction l as [|x l IHl]; [by inversion Hv|].
           simpl in Hf. bool_hyps. apply elem_of_cons in Hv as [-> |]; auto.
        -- pose proof (foldr_max_ge (λ v, jsonHeight v + 1) l v Hv). simpl in *. lia.
    + intros Hlt _ _ [_ _ _ Hch]. lia.
  - intros Hor _ _ [_ Hno Hd _]. rewrite jsonNodes_arr in Hno. rewrite jsonHeight_arr in Hd.
    assert (0 <= foldr (λ v n, jsonNodes v + n) 0 l).
    { clear -Hdata. induction Hdata as [|x l Hx _ IHl]; simpl; [lia|]. pose proof (jsonNodes_nonneg _ Hx). lia. }
    assert (0 <= foldr (λ v n, Z.max (jsonHeight v + 1) n) 0 l) by (clear; induction l; simpl; lia). lia.
Qed.

Lemma obj_writes l : Forall (λ kv, jsonData kv.2) l → (∀ kv, kv ∈ l → ∀ t, jsonText kv.2 = Some t → writes kv.2 t) →
  ∀ t, jsonText (obj l) = Some t → writes (obj l) t.
Proof.
  intros Hdata IH t Ht depth c. rewrite jsonText_obj in Ht. destruct (mapM memberText l) as [ts|] eqn:E; [|done].
  apply mapM_Some_1 in E.
  assert (Hts : Forall2 (λ kv t, ∃ tv, t = jsonQuote kv.1 ++ js ":" ++ tv ∧ writes kv.2 tv) l ts).
  { rewrite Forall2_same_length_lookup. split; [by eapply Forall2_length|]. intros i [k v] t' Hv Ht'.
    pose proof (Forall2_lookup_lr _ _ _ _ _ _ E Hv Ht') as Hm. unfold memberText in Hm. cbn [fst snd] in *.
    destruct (jsonText v) as [tv|] eqn:Ev; [|done]. injection Hm as <-. exists tv. split; [done|].
    eapply (IH (k, v)); [by eapply list_elem_of_lookup_2|done]. }
  clear IH. change (Some ([123] ++ joinWith (js ",") ts ++ [125]) = Some t) in Ht. injection Ht as <-.
  destruct (bracketed_length 123 125 ts) as [Hlen Hts0]. destruct (literal_plain l) as [Hobj Hsym].
  unfold obj at 1. cbn [stringifyJsonValue]. fold (obj l). rewrite Hobj, Hsym. cbn [negb]. apply stringify_guard.
  - intros Hrem Hdepth. wpe_step. apply beginJsonObject_wpe; [|lia].
    intros c1 [Hr1 Hk1]. destruct (hasOwnKey (obj l) (js "toJSON")) eqn:Htj.
    { unfold notSerializable. wpe_step. intros [Hf _ _ _]. by rewrite literal_toJSON in Htj. }
    wpe_step. apply checkedJsonFragment_wpe; change (jslen (js "{")) with 1.
    + intros c2 (Hr2 & Hk2 & Hm2). wpe_step.
      eapply wpe_mono; [by apply stringifyMembers_wpe|..]; cbv beta.
      * intros r c3 [-> (Hr3 & Hk3 & Hm3)]. wpe_step. apply checkedJsonFragment_wpe; change (jslen (js "}")) with 1.
        -- intros c4 (Hr4 & Hk4 & Hm4). wpe_step. split; [done|]. unfold spent. rewrite jsonNodes_obj. lia.
        -- intros Hlt _ _ [_ _ _ Hch]. lia.
      * intros _ _ Hn [Hf Hno Hd Hch]. apply Hn.
        rewrite jsonNodes_obj in Hno. rewrite jsonHeight_obj in Hd. split; [|lia].
        apply Forall_forall. intros kv Hv. split.
        -- rewrite noToJSON_obj in Hf. clear -Hf Hv. induction l as [|x l IHl]; [by inversion Hv|].
           simpl in Hf. bool_hyps. apply elem_of_cons in Hv as [-> |]; auto.
        -- pose proof (foldr_max_ge (λ kv, jsonHeight kv.2 + 1) l kv Hv). simpl in *. lia.
    + intros Hlt _ _ [_ _ _ Hch]. lia.
  - intros Hor _ _ [_ Hno Hd _]. rewrite jsonNodes_obj in Hno. rewrite jsonHeight_obj in Hd.
    assert (0 <= foldr (λ kv n, jsonNodes kv.2 + n) 0 l).
    { clear -Hdata. induction Hdata as [|x l Hx _ IHl]; simpl; [lia|]. pose proof (jsonNodes_nonneg _ Hx). lia. }
    assert (0 <= foldr (λ kv n, Z.max (jsonHeight kv.2 + 1) n) 0 l) by (clear; induction l; simpl; lia). lia.
Qed.

(** Every value that JSON can carry is written as its text, at its exact cost. *)
Lemma data_writes v t : jsonData v → jsonText v = Some t → writes v t.
Proof.
  intros Hv. revert t. induction Hv as [|b|z Hz|s Hs|l Hl IH|l Hnd Hk Hl IH]; intros t Ht.
  1-4: injection Ht as <-; by apply scalar_writes.
  - apply arr_writes; [by apply Forall_forall|done|done].
  - apply obj_writes; [|by intros [k v]; eauto|done]. apply Forall_forall. intros [k v] Hkv. by eapply Hl.
Qed.

(** ** Frames *)

Section Frames.
Context `{Hnum : JsNumbers, UrlParser, JsCase}.

(** Stringification yields the text of the value when the budgets allow it. *)
Lemma stringifyJsonData_spec v t :
  jsonData v → jsonText v = Some t →
  (∀ t', stringifyJsonData v = Ok t' → t' = t) ∧
  (affordable v t 0 {| remainingNodes := MAX_SIGNALING_JSON_NODES; charsWritten := 0 |} → stringifyJsonData v = Ok t).
Proof.
  intros Hv Ht. pose proof (data_writes v t Hv Ht 0 {| remainingNodes := MAX_SIGNALING_JSON_NODES; charsWritten := 0 |}) as Hw.
  unfold stringifyJsonData, wpe in *. destruct (stringifyJsonValue _ _ _) as [r c'|e c'|]; [|by split|done].
  destruct Hw as [-> _]. split; [|done]. by intros t' [= ->].
Qed.

Lemma jsonData_text v : jsonData v → ∃ t, jsonText v = Some t.
Proof using Hnum. intros Hv. destruct (data_reads v Hv) as (t & Ht & _). eauto. Qed.

Lemma parseJsonMessage_text v t :
  jsonData v → jsonText v = Some t → utf8ByteLength t <= SIGNALING_MAX_PAYLOAD_BYTES → parseJsonMessage t = v.
Proof.
  intros Hv Ht Hlen. pose proof (utf8ByteLength_ge_length t). unfold parseJsonMessage.
  rewrite (proj2 (Z.ltb_ge _ (jslen t))), (proj2 (Z.ltb_ge _ (utf8ByteLength t))) by lia.
  by rewrite (parse_jsonText v t).
Qed.

(** A validated value is an object, so its text starts with a brace. *)
Lemma object_text v t : jsonData v → isObject v = true → jsonText v = Some t → ∃ r, t = 123 :: r.
Proof.
  intros Hv Ho Ht. destruct Hv; try done. rewrite jsonText_obj in Ht. destruct (mapM _ _); simplify_eq/=. eauto.
Qed.

(** A serialized message arrives as itself: what [serializeMessage]
    returns fits a frame, is a valid message, and both the bytes of the frame
    and its text are parsed back to the very same value. *)
Lemma serializeMessage_roundtrip v t :
  jsonData v → serializeMessage v = Ok t →
  parseJsonTextFrame (FBytes true (utf8Encode t)) false = v ∧ parseBrowserJsonMessage (FText t) = v ∧
  Z.of_nat (length (utf8Encode t)) <= SIGNALING_MAX_PAYLOAD_BYTES ∧
  (isClientMessage v = true ∨ isServerMessage v = true).
Proof.
  intros Hv Hs. unfold serializeMessage in Hs. destruct (jsonData_text v Hv) as [t0 Ht].
  destruct (stringifyJsonData v) as [t1|] eqn:E; [|done]. apply (stringifyJsonData_spec v t0) in E as ->; [|done..].
  cbn in Hs. destruct (Z.ltb_spec SIGNALING_MAX_PAYLOAD_BYTES (utf8ByteLength t0)) as [|Hlen]; [done|].
  rewrite (parseJsonMessage_text v t0) in Hs by done.
  assert (isClientMessage v = true ∨ isServerMessage v = true) as Hvalid.
  { destruct (isClientMessage v); [by left|]. destruct (isServerMessage v); [by right|done]. }
  rewrite (andb_comm (negb _)) in Hs. assert (t0 = t) as ->.
  { destruct Hvalid as [Hx|Hx]; rewrite Hx in Hs; rewrite ?andb_false_r in Hs; by injection Hs. }
  assert (isObject v = true) as Hobj.
  { destruct Hvalid as [Hx|Hx]; [unfold isClientMessage in Hx|unfold isServerMessage in Hx]; by apply andb_true_iff in Hx as [? _]. }
  destruct (object_text v t Hv Hobj Ht) as [r ->].
  pose proof (jsonText_scalar v _ Hv Ht) as Hscalar.
  rewrite <-utf8ByteLength_encode by by apply scalarText_wf. split_and!; [|by apply parseJsonMessage_text|done|done].
  unfold parseJsonTextFrame, canonicalBinaryFrameByteLength. rewrite <-utf8ByteLength_encode by by apply scalarText_wf.
  rewrite (proj2 (Z.ltb_ge _ _)) by done. rewrite utf8Decode_encode by (lia || done). by apply parseJsonMessage_text.
Qed.

(** *** Messages are always affordable *)

Lemma flat_obj_cost l :
  (∀ kv, kv ∈ l → ∃ z s, (kv.2 = JStr s ∨ kv.2 = jint z) ∧ kv.1 ≠ js "toJSON") →
  noToJSON (obj l) = true ∧ jsonNodes (obj l) = 1 ∧ jsonHeight (obj l) <= 1.
Proof.
  intros Hl. rewrite noToJSON_obj, jsonNodes_obj, jsonHeight_obj.
  induction l as [|[k v] l IH]; [done|]. destruct IH as (IH1 & IH2 & IH3); [intros; apply Hl; by right|].
  destruct (Hl (k, v)) as (z & s & Hv & Hk); [left|]. simpl in *.
  rewrite bool_decide_false by done. assert (noToJSON v = true ∧ jsonNodes v = 0 ∧ jsonHeight v = 0) as (-> & -> & ->).
  { by destruct Hv as [-> | ->]. }
  rewrite IH1. split_and!; [done|lia|lia].
Qed.

Lemma entryValue_cost e : noToJSON (entryValue e) = true ∧ jsonNodes (entryValue e) = 1 ∧ jsonHeight (entryValue e) <= 1.
Proof.
  destruct e as [[id|] name size [mime|]]; unfold entryValue; cbn [fe_id fe_name fe_size fe_mime optionalField app];
    (split_and!; [vm_compute; reflexivity|vm_compute; reflexivity|vm_compute; discriminate]).
Qed.

Lemma manifestValue_cost m :
  noToJSON (manifestValue m) = true ∧ jsonNodes (manifestValue m) = 2 + Z.of_nat (length (fm_files m)) ∧
  jsonHeight (manifestValue m) <= 3.
Proof.
  unfold manifestValue. rewrite noToJSON_obj, jsonNodes_obj, jsonHeight_obj. cbn [foldr fst snd].
  rewrite noToJSON_arr, jsonNodes_arr, jsonHeight_arr.
  assert (H3 : foldr (λ v b, noToJSON v && b) true (map entryValue (fm_files m)) = true ∧
    foldr (λ v n, jsonNodes v + n) 0 (map entryValue (fm_files m)) = Z.of_nat (length (fm_files m)) ∧
    foldr (λ v n, Z.max (jsonHeight v + 1) n) 0 (map entryValue (fm_files m)) <= 2).
  { induction (fm_files m) as [|e l (IH1 & IH2 & IH3)]; [done|]. cbn [map foldr length].
    destruct (entryValue_cost e) as (-> & -> & ?). rewrite IH1, IH2. split_and!; [done|lia|lia]. }
  destruct H3 as (-> & -> & H3). change (jsonNodes (jint _)) with 0. change (jsonHeight (jint _)) with 0.
  split_and!; [vm_compute; reflexivity|lia|lia].
Qed.

Lemma clientValue_cost m :
  clientMessageOk m →
  noToJSON (clientValue m) = true ∧ jsonNodes (clientValue m) <= 103 ∧ jsonHeight (clientValue m) <= 4.
Proof.
  destruct m as [code v|code v|sid data|sid tag|sid manifest sealed|sid auth|sid auth []|sid kind sealed|[sid|] [reason|]];
    intros Hok; try (unfold clientValue; cbn [optionalField app];
      (split_and!; [vm_compute; reflexivity|vm_compute; discriminate|vm_compute; discriminate])).
  destruct Hok as (_ & [Hc Hb _ _ _] & _). unfold MAX_FILES_PER_SESSION in Hb.
  unfold clientValue. rewrite noToJSON_obj, jsonNodes_obj, jsonHeight_obj. cbn [foldr fst snd].
  destruct (manifestValue_cost manifest) as (-> & -> & ?).
  change (jsonNodes (JStr _)) with 0. change (jsonHeight (JStr _)) with 0. change (jsonNodes (jstr _)) with 0.
  change (jsonHeight (jstr _)) with 0. split_and!; [vm_compute; reflexivity|lia|lia].
Qed.

(** Every client message within the limits is sent: serialization
    succeeds whenever its JSON text fits a frame; neither the node and depth
    budgets nor the final validation ever refuse it. *)
Lemma serializeMessage_complete m t :
  clientMessageOk m → jsonData (clientValue m) → jsonText (clientValue m) = Some t →
  utf8ByteLength t <= SIGNALING_MAX_PAYLOAD_BYTES → serializeMessage (clientValue m) = Ok t.
Proof.
  intros Hok Hd Ht Hlen. destruct (clientValue_cost m Hok) as (Hf & Hn & Hh). unfold serializeMessage.
  pose proof (utf8ByteLength_ge_length t).
  rewrite (proj2 (stringifyJsonData_spec _ _ Hd Ht)).
  - cbn. rewrite (proj2 (Z.ltb_ge _ _)) by done. rewrite (parseJsonMessage_text (clientValue m)) by done.
    by rewrite (proj1 (clientValue_valid m Hok)).
  - split; [done|change (jsonNodes (clientValue m) < 10000); lia|unfold MAX_SIGNALING_JSON_DEPTH; lia|].
    change (0 + jslen t <= SIGNALING_MAX_PAYLOAD_BYTES). lia.
Qed.

(** C34. Messages cross the wire unchanged.  Every client message within the
    limits whose JSON text fits a frame is serialized, with exactly that text:
    neither the node and depth budgets nor the final validation ever refuse it.
    And what [serializeMessage] returns, for any value, fits a frame, is a valid
    message, and both the bytes of the frame and its text are parsed back to
    the very same value. *)
Theorem messages_cross :
  (∀ m t, clientMessageOk m → jsonData (clientValue m) → jsonText (clientValue m) = Some t →
     utf8ByteLength t <= SIGNALING_MAX_PAYLOAD_BYTES → serializeMessage (clientValue m) = Ok t) ∧
  (∀ v t, jsonData v → serializeMessage v = Ok t →
     parseJsonTextFrame (FBytes true (utf8Encode t)) false = v ∧ parseBrowserJsonMessage (FText t) = v ∧
     Z.of_nat (length (utf8Encode t)) <= SIGNALING_MAX_PAYLOAD_BYTES ∧
     (isClientMessage v = true ∨ isServerMessage v = true)).
Proof. split; [apply serializeMessage_complete|apply serializeMessage_roundtrip]. Qed.

End Frames.

#[local] Existing Instances decimalNumbers noUrls asciiCase.

Definition testMessage : ClientMessage := CBye (Some (js "s-1")) (Some [104; 233; 0xd83d; 0xde00]).

Lemma testMessage_data : jsonData (clientValue testMessage).
Proof.
  apply jd_obj; cbn [testMessage optionalField app map fst]; [vm_compute; repeat constructor; set_solver| |];
    intros k v Hin; repeat (apply elem_of_cons in Hin as [[= -> ->] | Hin]); try (by inversion Hin);
    try apply jd_str; repeat (constructor; [vm_compute; split; discriminate|]); constructor.
Qed.

Lemma testMessage_ok : clientMessageOk testMessage.
Proof.
  split; intros s [= <-]; [|vm_compute; split; [discriminate|reflexivity]].
  split; [vm_compute; split; discriminate|]. by repeat constructor.
Qed.

Definition testText : jsstr := default [] (jsonText (clientValue testMessage)).

Lemma messages_cross_witness :
  testText = [123; 34] ++ js "type" ++ [34; 58; 34] ++ js "bye" ++ [34; 44; 34] ++ js "sid" ++ [34; 58; 34] ++ js "s-1" ++
    [34; 44; 34] ++ js "reason" ++ [34; 58; 34; 104; 233; 0xd83d; 0xde00; 34; 125] ∧
  serializeMessage (clientValue testMessage) = Ok testText ∧
  parseJsonTextFrame (FBytes true (utf8Encode testText)) false = clientValue testMessage.
Proof.
  destruct messages_cross as [Hsend Hparse].
  assert (serializeMessage (clientValue testMessage) = Ok testText) as Hs.
  { apply (Hsend testMessage testText testMessage_ok testMessage_data); [reflexivity|]. vm_compute. discriminate. }
  split_and!; [vm_compute; reflexivity|done|]. by apply (Hparse (clientValue testMessage) testText testMessage_data).
Defined.
