(* ===== verification/Limits.v ===== *)
(** * Limits: manifest limits and file names ([src/shared/limits.ts]).

    The checks on a manifest before it is used, and the names under which files
    are written.  The theorems show what every name that reaches the file
    system satisfies, that collision names are distinct, that a manifest that
    passes the limits passes the validator of [Messages], and where the names
    fall short of what the code means: truncation can leave a name that
    [safeFileName] itself would change ([safeFileName_not_idempotent],
    [safeFileName_reserved_after_trim]). *)
From S2P Require Import Prelude.
From S2P Require Import Constants.
From S2P Require Import JsText.
From S2P Require Import JsValue.
From S2P Require Import Protocol.
From S2P Require Import Messages.
#[local] Open Scope Z_scope.

Definition SAFE_FILE_NAME_BYTES : Z := 200.
Definition SAFE_EXTENSION_BYTES : Z := 32.
Definition MAX_SAFE_FILE_NAME_INPUT_CHARS : Z := 4096.

(** ** File names *)

Definition isPathSeparator (code : Z) : bool := (code =? 47) || (code =? 92).

(** [leafName]: what follows the last separator among the last 4096 units,
    after dropping trailing separators *)
Definition leafName (name : jsstr) : jsstr :=
  let s := dropWhileEnd isPathSeparator name in
  if decide (s = []) then js "file"
  else
    let window := drop (length s - Z.to_nat MAX_SAFE_FILE_NAME_INPUT_CHARS) s in
    reverse (takeWhile (λ c, negb (isPathSeparator c)) (reverse window)).

(** [.replace(UNSAFE_PORTABLE_FILE_NAME_CHARS, "")] *)
Definition isUnsafePortable (cp : Z) : bool :=
  isCcCf cp || bool_decide (cp ∈ [60; 62; 58; 34; 124; 63; 42]).
Definition removeUnsafePortable (s : jsstr) : jsstr :=
  concat (filter (λ char, isUnsafePortable (codePointAt0 char) = false) (chars s)).

(** [.replace(/[. ]+$/g, "")] *)
Definition dropTrailingDots (s : jsstr) : jsstr := dropWhileEnd (λ c, (c =? 46) || (c =? 32)) s.

(** [trimToUtf8Bytes] *)
Fixpoint trimLoop (cs : list jsstr) (maxBytes bytes : Z) : jsstr :=
  match cs with
  | [] => []
  | char :: r =>
    let length := utf8ByteLength char in
    if maxBytes <? bytes + length then [] else char ++ trimLoop r maxBytes (bytes + length)
  end.
Definition trimToUtf8Bytes (value : jsstr) (maxBytes : Z) : jsstr := trimLoop (chars value) maxBytes 0.

(** The parts of a name before and from its last dot, when the dot is neither
    first nor last. *)
Definition splitExtension (name : jsstr) : option (jsstr * jsstr) :=
  let d := lastIndexOf 46 name in
  if (0 <? d) && (d <? jslen name - 1) then Some (slice 0 d name, slice d (jslen name) name) else None.

(** [trimLongFileName] *)
Definition trimLongFileName (name : jsstr) (maxBytes : Z) : jsstr :=
  match splitExtension name with
  | Some (base, extension) =>
    let ext := trimToUtf8Bytes extension (Z.min SAFE_EXTENSION_BYTES (Z.max 0 (maxBytes - 1))) in
    trimToUtf8Bytes base (maxBytes - utf8ByteLength ext) ++ ext
  | None => trimToUtf8Bytes name maxBytes
  end.

(** [assertSafeFileNameMaxBytes] *)
Definition assertSafeFileNameMaxBytes (maxBytes : Z) : result () :=
  check ((16 <=? maxBytes) && (maxBytes <=? SAFE_FILE_NAME_BYTES)) "Safe file name byte limit is invalid.".

Section Names.
Context `{JsCase}.

(** [isWindowsReservedName] *)
Definition reservedBases : list jsstr :=
  [js "con"; js "prn"; js "aux"; js "nul"] ++
  map (λ d, js "com" ++ [d]) (seqZ 49 9) ++ map (λ d, js "lpt" ++ [d]) (seqZ 49 9).
Definition isWindowsReservedName (name : jsstr) : bool :=
  let base := dropWhileEnd (λ c, (c =? 46) || (c =? 32)) (takeWhile (λ c, negb (c =? 46)) name) in
  if decide (base = []) then false else bool_decide (toLowerCase base ∈ reservedBases).

(** The name before it is cut to length: the steps of [safeFileName] on the
    cleaned leaf. *)
Definition cleanedLeaf (name : jsstr) : jsstr := trim (dropTrailingDots (removeUnsafePortable (leafName name))).
Definition visibleName (cleaned : jsstr) : jsstr :=
  match cleaned with c :: r => if c =? 46 then 95 :: r else cleaned | [] => [] end.
Definition unreservedName (visible : jsstr) : jsstr :=
  if isWindowsReservedName visible then 95 :: visible else visible.

(** [safeFileName] on a string *)
Definition safeFileName (name : jsstr) (maxBytes : Z) : result jsstr :=
  assertSafeFileNameMaxBytes maxBytes;;
  let cleaned := cleanedLeaf name in
  if bool_decide (cleaned = []) || bool_decide (cleaned = js ".") || bool_decide (cleaned = js "..") then Ok (js "file")
  else
    let safe := unreservedName (visibleName cleaned) in
    Ok (if maxBytes <? utf8ByteLength safe then trimLongFileName safe maxBytes else safe).

(** [safeCollisionFileName] *)
Definition collisionSuffix (index : Z) : jsstr := js " (" ++ jsInt index ++ js ")".
Definition safeCollisionFileName (safeName : jsstr) (index maxBytes : Z) : result jsstr :=
  assertSafeFileNameMaxBytes maxBytes;;
  if index =? 0 then
    check (utf8ByteLength safeName <=? maxBytes) "Safe file name exceeds maximum byte length.";; Ok safeName
  else
    check ((1 <=? index) && (index <? MAX_OUTPUT_NAME_ATTEMPTS)) "Collision index is invalid.";;
    let suffix := collisionSuffix index in
    Ok match splitExtension safeName with
       | Some (b, e) =>
         let ext := trimToUtf8Bytes e
           (Z.min SAFE_EXTENSION_BYTES (Z.max 0 (maxBytes - utf8ByteLength suffix - 1))) in
         let base := trimToUtf8Bytes b (Z.max 1 (maxBytes - utf8ByteLength suffix - utf8ByteLength ext)) in
         base ++ suffix ++ ext
       | None => trimToUtf8Bytes safeName (Z.max 1 (maxBytes - utf8ByteLength suffix)) ++ suffix
       end.

(** ** Manifests *)

(** [assertFileWithinLimits], on values of any type *)
Definition assertFileWithinLimits (name size : jsval) : result () :=
  check (match name with
         | JStr s =>
           negb (jslen s =? 0) && (jslen s <=? MAX_FILE_NAME_CHARS) && negb (jslen (trim s) =? 0) &&
           negb (bool_decide (s = js ".")) && negb (bool_decide (s = js "..")) &&
           negb (hasControlOrFormat s || includesUnit 47 s || includesUnit 92 s) &&
           match safeFileName s SAFE_FILE_NAME_BYTES with Ok t => bool_decide (t = s) | Err _ => false end
         | _ => false
         end) "File name is invalid.";;
  check (isIntegerIn 0 MAX_FILE_BYTES size) "File exceeds the 1 GiB per-file limit.".

(** [assertMimeWithinLimits] *)
Definition assertMimeWithinLimits (mime : jsval) : result () :=
  if isUndefined mime then Ok () else check (isMimeType mime) "Manifest MIME type is invalid.".

(** One iteration of the loop of [assertManifestWithinLimits], and the loop. *)
Definition assertEntry (file : jsval) (ids : list Z) (total : Z) : result (list Z * Z) :=
  check (isObject file && hasOnlyKeys file [js "id"; js "name"; js "size"; js "mime"]) "Manifest file entry is invalid.";;
  ids ← match field file "id" with
        | JUndefined => Ok ids
        | jint id =>
          check ((0 <=? id) && (id <=? 255)) "Manifest file id is invalid.";;
          (if bool_decide (id ∈ ids) then Err (js "Duplicate file id " ++ jsInt id ++ js " in manifest.") else Ok (ids ++ [id]))
        | _ => throw "Manifest file id is invalid."
        end;
  assertFileWithinLimits (field file "name") (field file "size");;
  assertMimeWithinLimits (field file "mime");;
  match field file "size" with
  | jint size =>
    check (isSafeInteger (total + size)) "Manifest total size is invalid.";; Ok (ids, total + size)
  | _ => throw "Manifest total size is invalid."
  end.

Fixpoint assertEntries (n : nat) (files : jsval) (index : Z) (ids : list Z) (total : Z) : result Z :=
  match n with
  | O => Ok total
  | S n =>
    '(ids, total) ← assertEntry (ownArrayDataValue files index) ids total;
    assertEntries n files (index + 1) ids total
  end.

(** [assertManifestWithinLimits] *)
Definition assertManifestWithinLimits (manifest : jsval) : result () :=
  check (isObject manifest) "Manifest is invalid.";;
  check (hasOnlyKeys manifest [js "files"; js "fileCount"; js "totalBytes"]) "Manifest is invalid.";;
  match field manifest "files" with
  | JArr items =>
    check (isIntegerIn 1 MAX_FILES_PER_SESSION (field manifest "fileCount")) "File count must be between 1 and 100.";;
    match field manifest "fileCount" with
    | jint fileCount =>
      check (Z.of_nat (length items) =? fileCount) "Manifest file count does not match file list.";;
      match field manifest "totalBytes" with
      | jint expectedTotalBytes =>
        check (isSafeNonNegativeInteger expectedTotalBytes) "Manifest total size is invalid.";;
        total ← assertEntries (length items) (JArr items) 0 [] 0;
        check (total =? expectedTotalBytes) "Manifest total size does not match file list."
      | _ => throw "Manifest total size is invalid."
      end
    | _ => throw "File count must be between 1 and 100."
    end
  | _ => throw "Manifest file list is invalid."
  end.

(** [assertTransferManifestWithinLimits] *)
Fixpoint assertSequentialIds (n : nat) (files : jsval) (index : Z) : result () :=
  match n with
  | O => Ok ()
  | S n =>
    let id := field (ownArrayDataValue files index) "id" in
    check (isIntegerIn 0 255 id) "Transfer manifest file id is required.";;
    check (isIntegerIn index index id) "Transfer manifest file ids must be canonical and sequential.";;
    assertSequentialIds n files (index + 1)
  end.
Definition assertTransferManifestWithinLimits (manifest : jsval) : result () :=
  assertManifestWithinLimits manifest;;
  match field manifest "files" with
  | JArr items => assertSequentialIds (length items) (JArr items) 0
  | _ => throw "Manifest file list is invalid."
  end.

End Names.

(** ** Lemmas on names *)

(** A unit that may appear in a written name: no separator, no character that
    Windows reserves, no control or format character. *)
Definition safeUnit (c : Z) : Prop := isUnsafePortable c = false ∧ isPathSeparator c = false.

Lemma chars_shape s char : char ∈ chars s →
  (∃ c, char = [c]) ∨ ∃ c d, char = [c; d] ∧ isHighSurrogate c = true ∧ isLowSurrogate d = true.
Proof.
  induction s as [|c|c d r IH1 IH2] using jsstr_ind2; intros Hin; [by inversion Hin|..].
  - apply list_elem_of_singleton in Hin as ->. eauto.
  - rewrite chars_cons2 in Hin. destruct (isHighSurrogate c && isLowSurrogate d) eqn:E.
    + apply elem_of_cons in Hin as [-> |]; [|auto]. apply andb_true_iff in E as [? ?]. eauto 6.
    + apply elem_of_cons in Hin as [-> |]; eauto.
Qed.

Lemma chars_units s char c : char ∈ chars s → c ∈ char → c ∈ s.
Proof.
  intros Hin Hc. rewrite <-(chars_concat s). apply list_elem_of_In, in_concat. exists char.
  by split; apply list_elem_of_In.
Qed.

Lemma surrogate_portable c : 0xd800 <= c <= 0xdfff → isUnsafePortable c = false.
Proof.
  intros Hc. unfold isUnsafePortable, isCcCf, isCc, isCf, inRanges. apply orb_false_iff. split.
  - apply orb_false_iff. split; apply not_true_is_false; intros H; apply existsb_exists in H as ([lo hi] & Hin & H);
      apply andb_true_iff in H as [?%Z.leb_le ?%Z.leb_le]; simpl in Hin; repeat (destruct Hin as [[= <- <-]|Hin]; [lia|]); done.
  - apply bool_decide_eq_false. rewrite !not_elem_of_cons. split_and!; try lia. apply not_elem_of_nil.
Qed.

Lemma removeUnsafePortable_units s : Forall (λ c, isUnsafePortable c = false) (removeUnsafePortable s).
Proof.
  unfold removeUnsafePortable. apply Forall_concat, Forall_forall. intros char Hin.
  apply list_elem_of_filter in Hin as [Hp Hin]. apply chars_shape in Hin as [[c ->]|(c & d & -> & Hc & Hd)].
  - by constructor.
  - unfold isHighSurrogate, isLowSurrogate in *. bool_hyps. repeat constructor; apply surrogate_portable; lia.
Qed.

Lemma removeUnsafePortable_Forall (P : Z → Prop) s : Forall P s → Forall P (removeUnsafePortable s).
Proof.
  intros Hs. rewrite <-(chars_concat s) in Hs. unfold removeUnsafePortable.
  induction (chars s) as [|char cs IH]; simpl in *; [constructor|]. apply Forall_app in Hs as [Hc Hcs].
  rewrite filter_cons. case_decide; simpl; [apply Forall_app; auto|auto].
Qed.

Lemma leafName_units s : Forall (λ c, isPathSeparator c = false) (leafName s).
Proof.
  unfold leafName. case_decide; [by repeat constructor|]. apply Forall_reverse.
  eapply Forall_impl; [apply takeWhile_all|]. intros c. apply negb_true_iff.
Qed.

Lemma cleanedLeaf_safe name : Forall safeUnit (cleanedLeaf name).
Proof.
  unfold cleanedLeaf, trim, dropTrailingDots. unfold safeUnit.
  assert (∀ s, Forall (λ c, isPathSeparator c = false) s → Forall (λ c, isUnsafePortable c = false ∧ isPathSeparator c = false) (removeUnsafePortable s)) as H'.
  { intros s Hs. apply Forall_and. split; [apply removeUnsafePortable_units|by apply removeUnsafePortable_Forall]. }
  auto using Forall_dropWhile, Forall_dropWhileEnd, leafName_units.
Qed.

(** Cutting to a number of bytes gives a prefix of at most that many bytes. *)
Lemma trimLoop_spec cs maxBytes bytes :
  bytes <= maxBytes →
  ∃ rest, concat cs = trimLoop cs maxBytes bytes ++ rest ∧ bytes + utf8ByteLength (trimLoop cs maxBytes bytes) <= maxBytes.
Proof.
  revert bytes. induction cs as [|char cs IH]; intros bytes Hb; simpl; [exists []; split; [done|lia]|].
  destruct (Z.ltb_spec maxBytes (bytes + utf8ByteLength char)) as [|Hle].
  - exists (char ++ concat cs). split; [done|]. simpl. lia.
  - destruct (IH _ Hle) as (rest & -> & Hlen). exists rest. split; [by rewrite app_assoc|].
    pose proof (utf8ByteLength_app_le char (trimLoop cs maxBytes (bytes + utf8ByteLength char))). lia.
Qed.

Lemma trimToUtf8Bytes_prefix s n : 0 <= n → ∃ rest, s = trimToUtf8Bytes s n ++ rest.
Proof.
  intros Hn. destruct (trimLoop_spec (chars s) n 0 Hn) as (rest & E & _). exists rest. by rewrite chars_concat in E.
Qed.

Lemma trimToUtf8Bytes_length s n : 0 <= n → utf8ByteLength (trimToUtf8Bytes s n) <= n.
Proof. intros Hn. destruct (trimLoop_spec (chars s) n 0 Hn) as (_ & _ & Hl). exact Hl. Qed.

Lemma trimToUtf8Bytes_Forall (P : Z → Prop) s n : 0 <= n → Forall P s → Forall P (trimToUtf8Bytes s n).
Proof. intros Hn Hs. destruct (trimToUtf8Bytes_prefix s n Hn) as (r & E). rewrite E in Hs. by apply Forall_app in Hs as [? _]. Qed.

(** Four bytes are enough to keep the first character. *)
Lemma utf8ByteLength_single c : utf8ByteLength [c] <= 3.
Proof. simpl. destruct (c <? 0x80); [lia|]. destruct (c <? 0x800); lia. Qed.

Lemma utf8ByteLength_pair c d :
  isHighSurrogate c = true → isLowSurrogate d = true → utf8ByteLength [c; d] <= 4.
Proof.
  intros Hc Hd. rewrite utf8ByteLength_cons2, Hc, Hd. unfold isHighSurrogate in Hc. bool_hyps.
  rewrite !(proj2 (Z.ltb_ge c _)) by lia. simpl. lia.
Qed.

Lemma trimToUtf8Bytes_head c s n : 4 <= n → ∃ r, trimToUtf8Bytes (c :: s) n = c :: r.
Proof.
  intros Hn. pose proof (utf8ByteLength_single c) as H1. unfold trimToUtf8Bytes.
  destruct s as [|d s]; [change (chars [c]) with [[c]]|rewrite chars_cons2].
  - cbn -[utf8ByteLength]. rewrite (proj2 (Z.ltb_ge _ _)) by lia. eauto.
  - destruct (isHighSurrogate c && isLowSurrogate d) eqn:E; cbn -[utf8ByteLength chars].
    + apply andb_true_iff in E as [E1 E2]. pose proof (utf8ByteLength_pair c d E1 E2).
      rewrite (proj2 (Z.ltb_ge _ _)) by lia. simpl; eauto.
    + rewrite (proj2 (Z.ltb_ge _ _)) by lia. simpl; eauto.
Qed.

Lemma lastIndexOf_spec c s :
  (lastIndexOf c s = -1 ∧ c ∉ s) ∨
  ∃ l r, s = l ++ c :: r ∧ lastIndexOf c s = Z.of_nat (length l) ∧ c ∉ r.
Proof.
  unfold lastIndexOf.
  assert (∀ s i found, (c ∉ s ∧ lastIndexFrom c s i found = found) ∨
    ∃ l r, s = l ++ c :: r ∧ lastIndexFrom c s i found = i + Z.of_nat (length l) ∧ c ∉ r) as Hgo.
  { clear s. induction s as [|d s IH]; intros i found; simpl; [left; split; [apply not_elem_of_nil|done]|].
    destruct (IH (i + 1) (if decide (d = c) then i else found)) as [[Hn ->]|(l & r & -> & -> & Hn)].
    - case_decide as Hd; [right; exists [], s; subst; split_and!; [done|simpl; lia|done]|left].
      split; [by rewrite not_elem_of_cons|done].
    - right. exists (d :: l), r. split_and!; [done|simpl; lia|done]. }
  destruct (Hgo s 0 (-1)) as [[? ?]|(l & r & ? & ? & ?)]; [by left|right; eauto].
Qed.

(** The two parts of a name with an extension. *)
Lemma splitExtension_spec name b e :
  splitExtension name = Some (b, e) → name = b ++ e ∧ b ≠ [] ∧ ∃ r, e = 46 :: r ∧ r ≠ [] ∧ 46 ∉ r.
Proof.
  unfold splitExtension. intros H. destruct (lastIndexOf_spec 46 name) as [[E _]|(l & r & Hname & E & Hn)]; rewrite E in H; [done|].
  destruct (_ && _) eqn:Hd; [|done]. bool_hyps. injection H as <- <-. subst name.
  unfold slice, jslen in *. rewrite length_app in *. simpl length in *. rewrite Z.sub_0_r, Nat2Z.id.
  change (Z.to_nat 0) with 0%nat. rewrite drop_0, take_app_length, drop_app_length. rewrite take_ge by (simpl; lia). split_and!; [done| |].
  - intros ->. simpl in *. lia.
  - exists r. split_and!; [done| |done]. intros ->. simpl in *. lia.
Qed.

(** ** What a written name satisfies *)

(** A name fit to be written: not empty, not hidden, without separators or
    reserved characters, and within [maxBytes] bytes. *)
Record nameOk (maxBytes : Z) (r : jsstr) : Prop := {
  name_nonempty : r ≠ [];
  name_units : Forall safeUnit r;
  name_visible : head r ≠ Some 46;
  name_bytes : utf8ByteLength r <= maxBytes
}.

Lemma trim_nameOk s n : 4 <= n → s ≠ [] → Forall safeUnit s → head s ≠ Some 46 → nameOk n (trimToUtf8Bytes s n).
Proof.
  intros Hn Hs Hu Hh. destruct s as [|c s]; [done|]. destruct (trimToUtf8Bytes_head c s n Hn) as (r & E). split.
  - by rewrite E.
  - apply trimToUtf8Bytes_Forall; [lia|done].
  - by rewrite E.
  - apply trimToUtf8Bytes_length. lia.
Qed.

(** A name cut before a tail of safe characters. *)
Lemma nameOk_app n k b t :
  nameOk k b → Forall safeUnit t → k + utf8ByteLength t <= n → nameOk n (b ++ t).
Proof.
  intros [Hne Hu Hh Hb] Ht Hk. split.
  - intros E. by apply app_eq_nil in E as [? _].
  - by apply Forall_app.
  - by destruct b.
  - pose proof (utf8ByteLength_app_le b t). lia.
Qed.

Lemma head_app_visible b e : b ≠ [] → head (b ++ e) ≠ Some 46 → head b ≠ Some 46.
Proof. by destruct b. Qed.

Lemma trimLongFileName_ok name n :
  36 <= n → name ≠ [] → Forall safeUnit name → head name ≠ Some 46 → nameOk n (trimLongFileName name n).
Proof.
  intros Hn Hne Hu Hh. unfold trimLongFileName. destruct (splitExtension name) as [[b e]|] eqn:E; [|apply trim_nameOk; auto; lia].
  apply splitExtension_spec in E as (-> & Hb & _). apply Forall_app in Hu as [Hub Hue]. apply head_app_visible in Hh; [|done].
  unfold SAFE_EXTENSION_BYTES. set (ext := trimToUtf8Bytes e _).
  assert (utf8ByteLength ext <= 32) by (etrans; [apply trimToUtf8Bytes_length|]; lia).
  eapply nameOk_app; [apply trim_nameOk; auto; lia| |lia]. apply trimToUtf8Bytes_Forall; [lia|done].
Qed.

Lemma visibleName_ok c : c ≠ [] → Forall safeUnit c → visibleName c ≠ [] ∧ Forall safeUnit (visibleName c) ∧ head (visibleName c) ≠ Some 46.
Proof.
  intros Hne Hu. destruct c as [|c r]; [done|]. simpl. destruct (Z.eqb_spec c 46) as [|Hc].
  - split_and!; [done| |done]. inversion_clear Hu. by constructor.
  - split_and!; [done|done|]. intros [=]. done.
Qed.


(** Printable ASCII units. *)
Lemma isCcCf_ascii c : 32 <= c < 127 → isCcCf c = false.
Proof. intros. unfold isCcCf, isCc, isCf. rewrite !notIn_ranges; [done|repeat constructor; lia..]. Qed.
Lemma hasControlOrFormat_ascii s : Forall (λ c, 32 <= c < 127) s → hasControlOrFormat s = false.
Proof.
  intros Hs. apply not_true_is_false. intros (cp & Hin & Hcp)%existsb_exists. unfold codePoints in Hin.
  apply in_map_iff in Hin as (char & <- & Hin%list_elem_of_In). pose proof (λ c, chars_units s char c Hin) as Hu.
  rewrite Forall_forall in Hs. apply chars_shape in Hin as [[c ->]|(c & d & -> & Hc & _)].
  - unfold codePointAt0 in Hcp. rewrite isCcCf_ascii in Hcp; [done|]. apply Hs, Hu. left.
  - unfold isHighSurrogate in Hc. bool_hyps. assert (32 <= c < 127); [|lia]. apply Hs, Hu. left.
Qed.
Lemma safeUnit_ascii c : c = 45 ∨ 48 <= c <= 57 ∨ 97 <= c <= 122 → safeUnit c.
Proof.
  intros Hc. unfold safeUnit, isUnsafePortable, isPathSeparator. rewrite isCcCf_ascii by lia. split.
  - apply bool_decide_eq_false. rewrite !not_elem_of_cons. split_and!; try lia. apply not_elem_of_nil.
  - apply orb_false_iff. rewrite !Z.eqb_neq. lia.
Qed.

Lemma collisionSuffix_ok i : 1 <= i < 256 → Forall safeUnit (collisionSuffix i) ∧ utf8ByteLength (collisionSuffix i) <= 6.
Proof.
  intros Hi. destruct (jsInt_digits i ltac:(lia)) as [Hd _]. unfold collisionSuffix. split.
  - repeat (apply Forall_app; split); [by repeat constructor| |by repeat constructor].
    eapply Forall_impl; [exact Hd|]. intros c Hc. unfold isDigit in Hc. bool_hyps.
    apply safeUnit_ascii. lia.
  - rewrite utf8ByteLength_ascii.
    + pose proof (jsInt_length 3 i ltac:(lia) ltac:(lia)). unfold jslen. rewrite !length_app. simpl. lia.
    + repeat (apply Forall_app; split); [by repeat constructor| |by repeat constructor].
      eapply Forall_impl; [exact Hd|]. intros c Hc. unfold isDigit in Hc. bool_hyps. lia.
Qed.

Section NameTheorems.
Context `{JsCase}.

Lemma safeFileName_ok name maxBytes :
  36 <= maxBytes <= SAFE_FILE_NAME_BYTES →
  ∃ r, safeFileName name maxBytes = Ok r ∧ nameOk maxBytes r.
Proof.
  intros Hn. unfold safeFileName, assertSafeFileNameMaxBytes.
  rewrite (proj2 (Z.leb_le 16 maxBytes)), (proj2 (Z.leb_le maxBytes _)) by lia. cbn [andb check]. cbv [mbind result_bind].
  destruct (_ || _) eqn:Hempty.
  - eexists. split; [done|]. split; [done|by repeat constructor|done|]. change (utf8ByteLength (js "file")) with 4. lia.
  - bool_hyps. destruct (visibleName_ok (cleanedLeaf name)) as (Hne & Hu & Hh); [done|apply cleanedLeaf_safe|].
    eexists. split; [done|].
    assert (unreservedName (visibleName (cleanedLeaf name)) ≠ [] ∧ Forall safeUnit (unreservedName (visibleName (cleanedLeaf name))) ∧
      head (unreservedName (visibleName (cleanedLeaf name))) ≠ Some 46) as (Hne' & Hu' & Hh').
    { unfold unreservedName. destruct (isWindowsReservedName _); [|done]. by repeat constructor. }
    case_match; [apply trimLongFileName_ok; auto; lia|]. bool_hyps. by split.
Qed.

(** Whatever string a peer sends as a name, [safeFileName] gives a name that is not empty, does not start with
    a dot, holds no path separator, no character reserved on Windows and no control or format unit, and fits the byte
    limit.  The limit must leave room for one character next to an extension of 32 bytes; the program calls it
    with 200 and 195. *)
Theorem safeFileName_safe name maxBytes :
  36 <= maxBytes <= SAFE_FILE_NAME_BYTES →
  ∃ r, safeFileName name maxBytes = Ok r ∧ nameOk maxBytes r.
Proof. apply safeFileName_ok. Qed.

(** The name of an attempt at a free output name. *)
Lemma safeCollisionFileName_ok s i n :
  42 <= n <= SAFE_FILE_NAME_BYTES → 0 <= i < MAX_OUTPUT_NAME_ATTEMPTS → nameOk n s →
  ∃ r, safeCollisionFileName s i n = Ok r ∧ nameOk n r.
Proof.
  intros Hn Hi Hs. pose proof Hs as [Hne Hu Hh Hb]. unfold safeCollisionFileName, assertSafeFileNameMaxBytes.
  rewrite (proj2 (Z.leb_le 16 n)), (proj2 (Z.leb_le n _)) by lia. cbn [andb check]. cbv [mbind result_bind].
  destruct (Z.eqb_spec i 0) as [|Hi0]; [rewrite (proj2 (Z.leb_le _ _)) by done; by eexists|].
  rewrite (proj2 (Z.leb_le 1 i)), (proj2 (Z.ltb_lt i _)) by lia. cbn [andb check]. eexists. split; [done|].
  destruct (collisionSuffix_ok i) as [Hsu Hsb]; [unfold MAX_OUTPUT_NAME_ATTEMPTS in *; lia|].
  unfold SAFE_EXTENSION_BYTES in *. destruct (splitExtension s) as [[b e]|] eqn:E.
  - apply splitExtension_spec in E as (-> & Hb' & _). apply Forall_app in Hu as [Hub Hue]. apply head_app_visible in Hh; [|done].
    set (ext := trimToUtf8Bytes e _).
    assert (utf8ByteLength ext <= 32) by (etrans; [apply trimToUtf8Bytes_length|]; lia).
    pose proof (utf8ByteLength_nonneg ext). pose proof (utf8ByteLength_app_le (collisionSuffix i) ext).
    eapply nameOk_app; [apply trim_nameOk; auto; lia|apply Forall_app; split; [done|apply trimToUtf8Bytes_Forall; [lia|done]]|lia].
  - eapply nameOk_app; [apply trim_nameOk; auto; lia|done|lia].
Qed.

(** A suffix of digits between a parenthesis and a closing one determines the number. *)
Lemma collisionSuffix_inj b1 b2 i j :
  0 <= i → 0 <= j → b1 ++ collisionSuffix i = b2 ++ collisionSuffix j → i = j.
Proof.
  intros Hi Hj E. unfold collisionSuffix in E. rewrite !app_assoc in E.
  apply app_inj_2 in E as [E _]; [|done]. apply (f_equal reverse) in E. rewrite !reverse_app in E.
  assert (∀ k, 0 <= k → Forall (λ c, isDigit c = true) (reverse (jsInt k))) as Hd by (intros; apply Forall_reverse, jsInt_digits; done).
  change (reverse (js " (")) with (40 :: [32]) in E. cbn [app] in E.
  pose proof (takeWhile_app_stop isDigit _ 40 (32 :: reverse b1) (Hd i Hi) eq_refl) as [E1 _].
  pose proof (takeWhile_app_stop isDigit _ 40 (32 :: reverse b2) (Hd j Hj) eq_refl) as [E2 _].
  cbn [app] in *. rewrite <-E, E1 in E2. apply (inj reverse) in E2. by apply (inj jsInt).
Qed.

(** Each of the numbered attempts 1 to 255 at a free name is a name fit to be written, and no two of them
    are the same, so a directory that refuses all of them holds 255 such files. *)
Theorem safeCollisionFileName_attempts s i j n r1 r2 :
  42 <= n <= SAFE_FILE_NAME_BYTES → nameOk n s →
  1 <= i < MAX_OUTPUT_NAME_ATTEMPTS → 1 <= j < MAX_OUTPUT_NAME_ATTEMPTS →
  safeCollisionFileName s i n = Ok r1 → safeCollisionFileName s j n = Ok r2 →
  nameOk n r1 ∧ (r1 = r2 → i = j).
Proof.
  intros Hn Hs Hi Hj H1 H2. split.
  { destruct (safeCollisionFileName_ok s i n) as (r & E & Hr); [done|lia|done|]. rewrite E in H1. by injection H1 as <-. }
  intros <-. unfold safeCollisionFileName, assertSafeFileNameMaxBytes in *.
  rewrite (proj2 (Z.leb_le 16 n)), (proj2 (Z.leb_le n _)) in * by lia. cbn [andb check] in *. cbv [mbind result_bind] in *.
  rewrite (proj2 (Z.eqb_neq i 0)), (proj2 (Z.leb_le 1 i)), (proj2 (Z.ltb_lt i _)) in H1 by lia.
  rewrite (proj2 (Z.eqb_neq j 0)), (proj2 (Z.leb_le 1 j)), (proj2 (Z.ltb_lt j _)) in H2 by lia.
  cbn [andb check] in *. apply (inj Ok) in H1, H2.
  destruct (collisionSuffix_ok i) as [_ Hsi]; [unfold MAX_OUTPUT_NAME_ATTEMPTS in *; lia|].
  destruct (collisionSuffix_ok j) as [_ Hsj]; [unfold MAX_OUTPUT_NAME_ATTEMPTS in *; lia|].
  destruct (splitExtension s) as [[b e]|].
  - assert (∀ k, utf8ByteLength (collisionSuffix k) <= 6 →
      Z.min SAFE_EXTENSION_BYTES (Z.max 0 (n - utf8ByteLength (collisionSuffix k) - 1)) = SAFE_EXTENSION_BYTES) as Hext
      by (unfold SAFE_EXTENSION_BYTES in *; lia).
    rewrite Hext in H1, H2 by done. rewrite <-H2 in H1. clear H2.
    rewrite !app_assoc in H1. apply app_inv_tail in H1. apply collisionSuffix_inj in H1; lia.
  - rewrite <-H2 in H1. apply collisionSuffix_inj in H1; lia.
Qed.

(** ** Accepted names *)

(** A name whose first unit starts no device name is not one. *)
Lemma head_not_reserved c r :
  0 <= c < 128 → c ≠ 46 → c ≠ 32 → Forall (λ l, head l ≠ Some (asciiLowerUnit c)) reservedBases →
  isWindowsReservedName (c :: r) = false.
Proof.
  intros Hc H46 H32 Hr. unfold isWindowsReservedName. set (t := takeWhile (λ c, negb (c =? 46)) r).
  assert (takeWhile (λ c, negb (c =? 46)) (c :: r) = c :: t) as -> by (simpl; by rewrite (proj2 (Z.eqb_neq c 46))).
  destruct (dropWhileEnd_prefix (λ c, (c =? 46) || (c =? 32)) (c :: t)) as (q & E & Hq).
  set (b := dropWhileEnd _ (c :: t)) in *. case_decide as Hb; [done|]. apply bool_decide_eq_false. intros Hin.
  destruct b as [|d b]; [done|]. injection E as <- _. rewrite Forall_forall in Hr. apply (Hr _ Hin). by apply toLowerCase_head.
Qed.

Lemma underscore_not_reserved r : isWindowsReservedName (95 :: r) = false.
Proof. apply head_not_reserved; [lia..|]. repeat constructor; discriminate. Qed.

Lemma removeUnsafePortable_id s :
  hasControlOrFormat s = false → Forall safeUnit s → removeUnsafePortable s = s.
Proof.
  intros Hc Hs. unfold removeUnsafePortable. rewrite filter_all; [apply chars_concat|].
  unfold hasControlOrFormat, codePoints in Hc. apply Forall_forall. intros char Hin.
  unfold isUnsafePortable. apply orb_false_iff. split.
  - apply not_true_is_false. intros Ht. apply not_true_iff_false in Hc. apply Hc, existsb_exists.
    exists (codePointAt0 char). split; [|done]. by apply in_map, list_elem_of_In.
  - apply bool_decide_eq_false. apply chars_shape in Hin as Hshape. destruct Hshape as [[c ->]|(c & d & -> & Hh & Hl)].
    + assert (c ∈ s) as Hcs by (eapply chars_units; [done|left]).
      rewrite Forall_forall in Hs. destruct (Hs c Hcs) as [Hu _]. unfold isUnsafePortable in Hu. by bool_hyps.
    + pose proof (codePoint_pair c d Hh Hl). rewrite !not_elem_of_cons. split_and!; try lia. apply not_elem_of_nil.
Qed.

Lemma leafName_id s : s ≠ [] → Forall safeUnit s → jslen s <= MAX_SAFE_FILE_NAME_INPUT_CHARS → leafName s = s.
Proof.
  intros Hne Hs Hl. assert (Forall (λ c, isPathSeparator c = false) s) as Hp by (eapply Forall_impl; [done|by intros ? []]).
  unfold leafName. rewrite dropWhileEnd_none by done. rewrite decide_False by done. unfold jslen in Hl. replace (length s - _)%nat with 0%nat by lia. rewrite drop_0.
  rewrite takeWhile_id; [apply reverse_involutive|]. apply Forall_reverse. eapply Forall_impl; [exact Hp|]. by intros ? ->.
Qed.

Lemma trimLongFileName_head s n : 36 <= n → head (trimLongFileName s n) = head s.
Proof.
  intros Hn. unfold trimLongFileName. destruct (splitExtension s) as [[b e]|] eqn:E.
  - apply splitExtension_spec in E as (-> & Hb & _). unfold SAFE_EXTENSION_BYTES. set (ext := trimToUtf8Bytes e _).
    assert (utf8ByteLength ext <= 32) by (etrans; [apply trimToUtf8Bytes_length|]; lia).
    destruct b as [|c b]; [done|]. by destruct (trimToUtf8Bytes_head c b (n - utf8ByteLength ext) ltac:(lia)) as (r & ->).
  - destruct s as [|c s]; [done|]. by destruct (trimToUtf8Bytes_head c s n ltac:(lia)) as (r & ->).
Qed.

Lemma trimLongFileName_length s n : 36 <= n → (length (trimLongFileName s n) <= length s)%nat.
Proof.
  intros Hn. unfold trimLongFileName. assert (∀ t k, 0 <= k → (length (trimToUtf8Bytes t k) <= length t)%nat) as Hlen.
  { intros t k Hk. destruct (trimToUtf8Bytes_prefix t k Hk) as (r & E). rewrite E at 2. rewrite length_app. lia. }
  destruct (splitExtension s) as [[b e]|] eqn:E; [|apply Hlen; lia].
  apply splitExtension_spec in E as (-> & _). unfold SAFE_EXTENSION_BYTES. set (ext := trimToUtf8Bytes e _).
  assert (utf8ByteLength ext <= 32) by (etrans; [apply trimToUtf8Bytes_length|]; lia).
  rewrite !length_app. pose proof (Hlen b (n - utf8ByteLength ext) ltac:(lia)).
  assert (length ext <= length e)%nat by (apply Hlen; lia). lia.
Qed.

(** Dropping at the ends never makes a text longer, and leaves it when it keeps the length. *)
Lemma dropWhileEnd_length f s : (length (dropWhileEnd f s) <= length s)%nat ∧ (length (dropWhileEnd f s) = length s → dropWhileEnd f s = s).
Proof.
  destruct (dropWhileEnd_prefix f s) as (t & E & _). pose proof (f_equal length E) as El. rewrite length_app in El.
  split; [lia|]. intros Hl. destruct t as [|? t]; [by rewrite app_nil_r in E|simpl in El; lia].
Qed.
Lemma trim_length s : (length (trim s) <= length s)%nat ∧ (length (trim s) = length s → trim s = s).
Proof.
  unfold trim. destruct (dropWhileEnd_length isSpace (dropWhile isSpace s)) as [H1 H2].
  destruct (dropWhile_suffix isSpace s) as (t & E & _). pose proof (f_equal length E) as El. rewrite length_app in El.
  split; [lia|]. intros Hl. rewrite H2 by lia. destruct t as [|? t]; [done|simpl in El; lia].
Qed.

(** The head of the cleaned text, when the text starts with an underscore. *)
Lemma dropWhileEnd_head f c s : f c = false → head (dropWhileEnd f (c :: s)) = Some c.
Proof.
  intros Hc. destruct (dropWhileEnd_prefix f (c :: s)) as (t & E & Ht). destruct (dropWhileEnd f (c :: s)) as [|d r].
  - simpl in E. subst t. inversion_clear Ht. congruence.
  - by injection E as -> _.
Qed.

Lemma cleaned_underscore s :
  removeUnsafePortable (leafName s) = s → head s = Some 95 → head (cleanedLeaf s) = Some 95.
Proof.
  unfold cleanedLeaf. intros ->. destruct s as [|c s]; [done|]. intros [= ->].
  pose proof (dropWhileEnd_head (λ c, (c =? 46) || (c =? 32)) 95 s eq_refl) as H1. fold (dropTrailingDots (95 :: s)) in H1.
  destruct (dropTrailingDots (95 :: s)) as [|c r]; [done|]. injection H1 as ->. unfold trim.
  change (dropWhile isSpace (95 :: r)) with (95 :: r). by apply dropWhileEnd_head.
Qed.

(** What [safeFileName] leaves as it is. *)
Record portableName (s : jsstr) : Prop := {
  portable_ok : nameOk SAFE_FILE_NAME_BYTES s;
  portable_reserved : isWindowsReservedName s = false;
  portable_trimmed : trim s = s;
  portable_tail : dropTrailingDots s = s
}.

Lemma file_portable : portableName (js "file").
Proof.
  split; [by split; [|repeat constructor|..]| |done|done].
  unfold isWindowsReservedName. rewrite decide_False by done.
  rewrite toLowerCase_ascii by (by repeat constructor). reflexivity.
Qed.

Lemma fixpoint_cleaned s :
  hasControlOrFormat s = false → safeFileName s SAFE_FILE_NAME_BYTES = Ok s →
  portableName s.
Proof.
  intros Hc Hs. destruct (safeFileName_ok s SAFE_FILE_NAME_BYTES) as (r & E & Hok); [unfold SAFE_FILE_NAME_BYTES; lia|].
  rewrite Hs in E. apply (inj Ok) in E as <-. pose proof Hok as Hok'. destruct Hok as [Hne Hu Hv Hb].
  assert (removeUnsafePortable (leafName s) = s) as Hid.
  { rewrite leafName_id; [by apply removeUnsafePortable_id|done|done|]. pose proof (utf8ByteLength_ge_length s).
    unfold SAFE_FILE_NAME_BYTES, MAX_SAFE_FILE_NAME_INPUT_CHARS in *. lia. }
  unfold safeFileName in Hs. change (assertSafeFileNameMaxBytes SAFE_FILE_NAME_BYTES) with (Ok ()) in Hs.
  cbv [mbind result_bind] in Hs. destruct (_ || _) eqn:Hempty; apply (inj Ok) in Hs; [subst s; apply file_portable|]. bool_hyps.
  assert (Hhead : head s = head (unreservedName (visibleName (cleanedLeaf s)))).
  { rewrite <-Hs at 1. case_match; [|done]. by apply trimLongFileName_head. }
  assert (unreservedName (visibleName (cleanedLeaf s)) = cleanedLeaf s ∧ isWindowsReservedName (cleanedLeaf s) = false) as [Hun Hnr].
  { unfold unreservedName in *. destruct (isWindowsReservedName (visibleName (cleanedLeaf s))) eqn:Hr.
    - pose proof (cleaned_underscore s Hid Hhead) as Hu95. destruct (cleanedLeaf s) as [|c r]; [done|].
      injection Hu95 as ->. change (visibleName (95 :: r)) with (95 :: r) in Hr. by rewrite underscore_not_reserved in Hr.
    - unfold visibleName in *. destruct (cleanedLeaf s) as [|c r] eqn:Ecl; [done|]. destruct (Z.eqb_spec c 46) as [->|]; [|done].
      pose proof (cleaned_underscore s Hid Hhead) as Hu95. by rewrite Ecl in Hu95. }
  rewrite Hun in Hs. assert (length s <= length (cleanedLeaf s))%nat as Hlen.
  { rewrite <-Hs at 1. case_match; [|done]. by apply trimLongFileName_length. }
  unfold cleanedLeaf in Hlen, Hnr. rewrite Hid in Hlen, Hnr. destruct (trim_length (dropTrailingDots s)) as [T1 T2].
  destruct (dropWhileEnd_length (λ c, (c =? 46) || (c =? 32)) s) as [D1 D2]. fold (dropTrailingDots s) in D1, D2.
  assert (dropTrailingDots s = s) as Hd by (apply D2; lia). rewrite Hd in *. rewrite T2 in Hnr by lia.
  split; [done|done| |done]. apply T2. lia.
Qed.

Lemma plain_name_fixed c s :
  Forall (λ c, isLower c || isDigit c || (c =? 45) = true) (c :: s) → jslen (c :: s) <= SAFE_FILE_NAME_BYTES →
  Forall (λ l, head l ≠ Some (asciiLowerUnit c)) reservedBases →
  safeFileName (c :: s) SAFE_FILE_NAME_BYTES = Ok (c :: s).
Proof.
  intros Hu Hl Hr. set (name := c :: s) in *.
  assert (Forall (λ c, c = 45 ∨ 48 <= c <= 57 ∨ 97 <= c <= 122) name) as Hrange.
  { eapply Forall_impl; [exact Hu|]. intros d Hd. unfold isLower, isDigit in Hd. rewrite !orb_true_iff in Hd.
    destruct Hd as [[Hd|Hd]|Hd]; bool_hyps; lia. }
  assert (hasControlOrFormat name = false) as Hc.
  { apply hasControlOrFormat_ascii. eapply Forall_impl; [exact Hrange|]. simpl. lia. }
  assert (Forall safeUnit name) as Hs.
  { eapply Forall_impl; [exact Hrange|]. intros d Hd. apply safeUnit_ascii; simpl in *; lia. }
  assert (Forall (λ c, isSpace c = false) name) as Hsp.
  { eapply Forall_impl; [exact Hrange|]. intros d Hd. apply isSpace_ascii; simpl in *; lia. }
  unfold safeFileName. change (assertSafeFileNameMaxBytes _) with (Ok ()). cbv [mbind result_bind].
  assert (cleanedLeaf name = name) as ->.
  { unfold cleanedLeaf. rewrite leafName_id; [|done|done|unfold SAFE_FILE_NAME_BYTES, MAX_SAFE_FILE_NAME_INPUT_CHARS in *; lia].
    rewrite removeUnsafePortable_id by done. unfold dropTrailingDots. rewrite dropWhileEnd_none.
    - unfold trim. rewrite dropWhile_none by done. by apply dropWhileEnd_none.
    - eapply Forall_impl; [exact Hrange|]. simpl. intros d Hd. apply orb_false_iff. rewrite !Z.eqb_neq. lia. }
  subst name. inversion_clear Hrange as [|?? Hc0 _].
  rewrite !bool_decide_false; [|intros [= -> _]; lia|intros [= -> _]; lia|done]. cbn [orb].
  assert (visibleName (c :: s) = c :: s) as -> by (simpl; by rewrite (proj2 (Z.eqb_neq c 46)) by lia).
  unfold unreservedName. rewrite head_not_reserved; [|lia..|done]. rewrite utf8ByteLength_ascii.
  - by rewrite (proj2 (Z.ltb_ge _ _)) by lia.
  - eapply Forall_impl; [exact Hu|]. intros d Hd. unfold isLower, isDigit in Hd. rewrite !orb_true_iff in Hd.
    destruct Hd as [[Hd|Hd]|Hd]; bool_hyps; lia.
Qed.

(** ** Manifests *)

Definition fixedName (v : jsval) : Prop := ∃ s, v = JStr s ∧ safeFileName s SAFE_FILE_NAME_BYTES = Ok s.

Lemma assertFileWithinLimits_spec name size :
  assertFileWithinLimits name size = Ok () ↔
  isSafeManifestFileName name = true ∧ fixedName name ∧ isIntegerIn 0 MAX_FILE_BYTES size = true.
Proof.
  unfold assertFileWithinLimits. rewrite result_bind_ok. split.
  - intros ([] & H1%check_ok & H2%check_ok). destruct name as [| | | |s| | |]; try done.
    destruct (safeFileName s SAFE_FILE_NAME_BYTES) as [t|] eqn:E; [|by rewrite andb_false_r in H1].
    rewrite !andb_true_iff, bool_decide_eq_true, !negb_true_iff in H1.
    destruct H1 as [[[[[[H0 H1] H3] H4] H5] H6] ->]. split_and!; [|by exists s|done]. apply isSafeManifestFileName_spec. exists s. split; [done|].
    unfold nameText, includesUnit in *. bool_hyps. split_and!; try done.
    + unfold jslen in *. lia.
    + intros E'. by rewrite E' in H3.
  - intros (H1 & (s & -> & H2) & H3). exists (). rewrite !check_ok. split; [|done].
    apply isSafeManifestFileName_spec in H1 as (s' & [= <-] & Hl & Hc & Ht & H4 & H5 & H6 & H7).
    rewrite H2. unfold includesUnit. rewrite !andb_true_iff, !negb_true_iff, !orb_false_iff, !bool_decide_eq_false, bool_decide_eq_true, !Z.eqb_neq, Z.leb_le.
    split_and!; try done; try lia. unfold jslen. destruct (trim s); [done|simpl; lia].
Qed.

(** A name that the limits accept can be written on every platform: it is within the text limits of the
    protocol, it is not empty and not hidden, it has no separator and no reserved character, it is not a device name of
    Windows, and it neither starts nor ends with white space or ends with a dot. *)
Theorem accepted_name_is_portable name size :
  assertFileWithinLimits name size = Ok () →
  ∃ s n, name = JStr s ∧ size = jint n ∧ 0 <= n <= MAX_FILE_BYTES ∧ nameText s ∧ portableName s.
Proof.
  intros H0. apply assertFileWithinLimits_spec in H0 as (H1 & H2 & H3). destruct H2 as (s & -> & H2).
  apply isIntegerIn_spec in H3 as (n & -> & H3).
  apply isSafeManifestFileName_spec in H1 as (s' & [= <-] & Hs). exists s, n. split_and!; try done; try lia.
  apply fixpoint_cleaned; [|done]. by destruct Hs as (_ & ? & _).
Qed.

(** One entry: the limits check what the protocol validator checks, and the name. *)
Lemma assertEntry_spec file ids total ids' total' :
  assertEntry file ids total = Ok (ids', total') ↔
  isManifestEntry file = true ∧ fixedName (field file "name") ∧
  match field file "id" with jint id => id ∉ ids ∧ ids' = ids ++ [id] | _ => ids' = ids end ∧
  ∃ size, field file "size" = jint size ∧ total' = total + size ∧ isSafeInteger total' = true.
Proof.
  unfold assertEntry, isManifestEntry, isOptionalUint8, assertMimeWithinLimits.
  destruct (isObject file && hasOnlyKeys _ _) eqn:Hobj; [|split; [done|by intros [? _]]].
  cbn [check andb]. cbv [mbind result_bind]. split.
  - intros E.
    assert (∃ idsN, (isUndefined (field file "id") || isIntegerIn 0 255 (field file "id")) = true ∧
      match field file "id" with jint id => id ∉ ids ∧ idsN = ids ++ [id] | _ => idsN = ids end ∧
      (assertFileWithinLimits (field file "name") (field file "size");;
       (if isUndefined (field file "mime") then Ok () else check (isMimeType (field file "mime")) "Manifest MIME type is invalid.");;
       match field file "size" with
       | jint size => check (isSafeInteger (total + size)) "Manifest total size is invalid.";; Ok (idsN, total + size)
       | _ => throw "Manifest total size is invalid."
       end) = Ok (ids', total')) as (idsN & -> & Hid & E').
    { cbv [mbind result_bind]. destruct (field file "id") as [| | |[id| |]| | | |]; try done; [by exists ids|].
      destruct ((0 <=? id) && (id <=? 255)) eqn:Hrange; cbn [check] in E; [|done].
      destruct (bool_decide_reflect (id ∈ ids)); [done|]. by exists (ids ++ [id]). }
    apply result_bind_ok in E' as ([] & (-> & ? & Hs)%assertFileWithinLimits_spec & ([] & Hm & E')%result_bind_ok).
    rewrite Hs. apply isIntegerIn_spec in Hs as (size & Esize & _). rewrite Esize in *.
    apply result_bind_ok in E' as ([] & Hsafe%check_ok & [= -> <-]). split_and!; [|done|done|by exists size].
    destruct (isUndefined (field file "mime")); [done|]. by apply check_ok in Hm as ->.
  - rewrite !andb_true_iff. intros (([[Hid Hname] Hsize] & Hmime) & Hfix & Hids & size & Esize & -> & Hsafe).
    assert (Hf : assertFileWithinLimits (field file "name") (field file "size") = Ok ()) by by apply assertFileWithinLimits_spec.
    assert (Hm : (if isUndefined (field file "mime") then Ok () else check (isMimeType (field file "mime")) "Manifest MIME type is invalid.") = Ok ()).
    { destruct (isUndefined (field file "mime")); [done|]. by apply check_ok. }
    rewrite Hf, Hm, Esize, Hsafe. destruct (field file "id") as [| | |[id| |]| | | |]; try done; simpl in *; [by subst|].
    rewrite Hid. destruct Hids as [Hni ->]. simpl. by rewrite bool_decide_false.
Qed.

Definition fixedNames (n : nat) (files : jsval) (index : Z) : Prop :=
  ∀ i, index <= i < index + Z.of_nat n → fixedName (field (ownArrayDataValue files i) "name").

Lemma fixedNames_S n files index :
  fixedNames (S n) files index ↔
  fixedName (field (ownArrayDataValue files index) "name") ∧ fixedNames n files (index + 1).
Proof.
  unfold fixedNames. split.
  - intros Hf. split; [apply Hf; lia|]. intros i Hi. apply Hf. lia.
  - intros [Hf Hr] i Hi. destruct (decide (i = index)) as [->|]; [done|]. apply Hr. lia.
Qed.

Lemma assertEntries_spec n files index ids total total' :
  assertEntries n files index ids total = Ok total' ↔
  manifestLoop n files index ids total = Some total' ∧ fixedNames n files index.
Proof.
  revert index ids total. induction n as [|n IH]; intros index ids total.
  { simpl. split; [intros [= ->]; split; [done|]; intros i Hi; lia|by intros [[= ->] _]]. }
  cbn [assertEntries manifestLoop]. rewrite fixedNames_S. set (file := ownArrayDataValue files index).
  rewrite result_bind_ok. split.
  - intros ([ids1 total1] & (He & Hname & Hids & size & Esize & -> & Hsafe)%assertEntry_spec & (Hloop & Hf)%IH).
    rewrite He, Esize, Hsafe. simpl. split; [|done].
    destruct (field file "id") as [| | |[id| |]| | | |]; try by subst. destruct Hids as [Hni ->]. by rewrite bool_decide_false.
  - intros (Hloop & Hname & Hf). destruct (isManifestEntry file) eqn:He; [|done]. simpl in Hloop.
    pose proof He as He'. apply isManifestEntry_spec in He' as (e & _ & _ & Esize & Eid). rewrite Esize, Eid in Hloop.
    destruct (match _ with jint id => _ | _ => _ end) as [ids1|] eqn:Hids; [|done].
    destruct (isSafeInteger (total + fe_size e)) eqn:Hsafe; [|done]. exists (ids1, total + fe_size e).
    rewrite IH. split; [|done]. apply assertEntry_spec. split_and!; [done|done| |by exists (fe_size e)].
    rewrite Eid. destruct (fe_id e) as [id|]; [|by injection Hids as ->]. case_bool_decide; [done|]. by injection Hids as <-.
Qed.

Definition namesFixed (v : jsval) : Prop :=
  match field v "files" with JArr items => fixedNames (length items) (JArr items) 0 | _ => True end.

(** What both validators check before they look at the entries. *)
Record manifestFrame (v : jsval) (items : list (option (prop jsval))) (total : Z) : Prop := {
  shape_object : isObject v = true;
  shape_keys : hasOnlyKeys v [js "files"; js "fileCount"; js "totalBytes"] = true;
  shape_files : field v "files" = JArr items;
  shape_count : field v "fileCount" = jint (Z.of_nat (length items));
  shape_bounds : 1 <= Z.of_nat (length items) <= MAX_FILES_PER_SESSION;
  shape_total : field v "totalBytes" = jint total;
  shape_total_bounds : 0 <= total <= MAX_SAFE_INTEGER
}.

Lemma isManifest_shape v :
  isManifest v = true ↔
  ∃ items total, manifestFrame v items total ∧ manifestLoop (length items) (JArr items) 0 [] 0 = Some total.
Proof.
  unfold isManifest. rewrite !andb_true_iff. split.
  - intros [[Ho Hk] Hm]. destruct (field v "files") as [| | | | | |items|] eqn:Ef; try done.
    destruct (field v "fileCount") as [| | |[fc| |]| | | |] eqn:Ec; try done.
    rewrite !andb_true_iff, !Z.leb_le, !Z.eqb_eq in Hm. destruct Hm as [[[[[_ ?] ?] ->] (tb & Etb & ?)%isIntegerIn_spec] Hloop].
    rewrite Etb in Hloop. destruct (manifestLoop _ _ _ _ _) as [t|] eqn:El; [|done]. apply Z.eqb_eq in Hloop as ->.
    exists items, tb. by split.
  - intros (items & total & [Ho Hk -> -> Hb Ht Htb] & ->). rewrite Ht. split; [done|].
    unfold isSafeInteger, isSafeNonNegative. rewrite !andb_true_iff, !Z.leb_le, !Z.eqb_eq, isIntegerIn_spec.
    unfold MAX_FILES_PER_SESSION, MAX_SAFE_INTEGER in *. split_and!; try lia. eauto.
Qed.

Lemma assertManifest_shape v :
  assertManifestWithinLimits v = Ok () ↔
  ∃ items total, manifestFrame v items total ∧ assertEntries (length items) (JArr items) 0 [] 0 = Ok total.
Proof.
  unfold assertManifestWithinLimits. rewrite !check_bind_ok. split.
  - intros (Ho & Hk & Hm). destruct (field v "files") as [| | | | | |items|] eqn:Ef; try done.
    apply check_bind_ok in Hm as [(fc & Ec & Hfc)%isIntegerIn_spec Hm]. rewrite Ec in Hm.
    apply check_bind_ok in Hm as [Hl%Z.eqb_eq Hm]. subst fc. destruct (field v "totalBytes") as [| | |[tb| |]| | | |] eqn:Et; try done.
    apply check_bind_ok in Hm as [Ht%isSafeNonNegativeInteger_spec Hm].
    apply result_bind_ok in Hm as (total & Htot & ->%check_ok%Z.eqb_eq). exists items, tb. by split.
  - intros (items & total & [Ho Hk -> -> Hb -> Htb] & E). split_and!; [done..|].
    rewrite !check_bind_ok, isIntegerIn_spec, Z.eqb_eq, isSafeNonNegativeInteger_spec, E.
    split; [eauto|]. split; [done|]. split; [done|].
    cbn. by rewrite Z.eqb_refl.
Qed.

Lemma manifest_agree v : assertManifestWithinLimits v = Ok () ↔ isManifest v = true ∧ namesFixed v.
Proof.
  rewrite assertManifest_shape, isManifest_shape. unfold namesFixed. split.
  - intros (items & total & Hs & (Hl & Hn)%assertEntries_spec). split; [eauto|]. by rewrite (shape_files _ _ _ Hs).
  - intros ((items & total & Hs & Hl) & Hn). rewrite (shape_files _ _ _ Hs) in Hn. exists items, total.
    by rewrite assertEntries_spec.
Qed.

(** The two validators of a manifest, written independently of each other, agree: [assertManifestWithinLimits]
    accepts a value exactly when [isManifest] accepts it and [safeFileName] changes none of its names. *)
Theorem manifest_validators_agree v :
  assertManifestWithinLimits v = Ok () ↔ isManifest v = true ∧ namesFixed v.
Proof. apply manifest_agree. Qed.

Lemma assertSequentialIds_spec n files index :
  assertSequentialIds n files index = Ok () →
  ∀ i, index <= i < index + Z.of_nat n → field (ownArrayDataValue files i) "id" = jint i ∧ i <= 255.
Proof.
  revert index. induction n as [|n IH]; intros index Hs i Hi; [lia|]. cbn [assertSequentialIds] in Hs.
  apply check_bind_ok in Hs as [H1 Hs]. apply check_bind_ok in Hs as [H2 Hs].
  apply isIntegerIn_spec in H1 as (z & E & ?), H2 as (z' & E' & ?). rewrite E in E'. injection E' as ->.
  destruct (decide (i = index)) as [->|]; [|apply (IH (index + 1)); [done|lia]].
  split; [rewrite E; f_equal; f_equal; lia|lia].
Qed.

Lemma readEntry_inv v e :
  readEntry v = Some e → readOptional readInt (field v "id") = Some (fe_id e) ∧ field v "name" = JStr (fe_name e).
Proof.
  unfold readEntry. destruct (readOptional readInt _) as [id|]; [|done]. destruct (field v "name"); try done.
  destruct (readInt _); [|done]. destruct (readOptional readString _); [|done]. by intros [= <-].
Qed.

Lemma transfer_manifest_sound v :
  assertTransferManifestWithinLimits v = Ok () →
  ∃ m, readManifest v = Some m ∧ manifestOk m ∧
    Forall (λ e, portableName (fe_name e)) (fm_files m) ∧
    ∀ i e, fm_files m !! i = Some e → fe_id e = Some (Z.of_nat i).
Proof.
  intros ([] & Hm & Hs)%result_bind_ok. apply manifest_agree in Hm as [Hm Hn].
  destruct (isManifest_sound v Hm) as (m & Hread & Hok). exists m. split; [done|]. split; [done|].
  unfold namesFixed in Hn. unfold readManifest in Hread.
  destruct (field v "files") as [| | | | | |items|]; try done. destruct (mapM _ _) as [es|] eqn:Hes; [|done].
  assert (fm_files m = es) as Hfm. { simpl in Hread. by destruct (readInt _), (readInt _); simplify_eq/=. }
  rewrite Hfm. pose proof (manifest_entries _ Hok) as Hent. rewrite Hfm in Hent.
  apply mapM_Some in Hes. assert (∀ i e, es !! i = Some e →
    (i < length items)%nat ∧ readEntry (ownArrayDataValue (JArr items) (Z.of_nat i)) = Some e) as Hlook.
  { intros i e Hi. destruct (Forall2_lookup_r _ _ _ _ _ Hes Hi) as (z & [-> Hz]%lookup_seqZ & Hr).
    split; [lia|]. by rewrite Z.add_0_l in Hr. }
  split.
  - apply Forall_lookup. intros i e Hi. destruct (Hlook i e Hi) as [Hlt [_ Ename]%readEntry_inv].
    destruct (Hn (Z.of_nat i)) as (s & Es & Hfix); [lia|]. rewrite Ename in Es. injection Es as <-.
    apply fixpoint_cleaned; [|done]. 
    by destruct (Forall_lookup_1 _ _ i e Hent Hi) as [_ (_ & ? & _) _ _].
  - intros i e Hi. destruct (Hlook i e Hi) as [Hlt [Hid _]%readEntry_inv].
    destruct (assertSequentialIds_spec _ _ _ Hs (Z.of_nat i)) as [Eid _]; [lia|]. rewrite Eid in Hid. by injection Hid.
Qed.

(** A manifest accepted for a transfer reads as a manifest within the protocol's limits whose entries are
    numbered 0, 1, 2, ... in order and whose names can all be written. *)
Theorem transfer_manifest_accepted v :
  assertTransferManifestWithinLimits v = Ok () →
  ∃ m, readManifest v = Some m ∧ manifestOk m ∧
    Forall (λ e, portableName (fe_name e)) (fm_files m) ∧
    ∀ i e, fm_files m !! i = Some e → fe_id e = Some (Z.of_nat i).
Proof. apply transfer_manifest_sound. Qed.

End NameTheorems.

(** ** Concrete names *)

#[local] Existing Instance asciiCase.

(** A name that ends in a space after truncation. *)
Example safeFileName_not_idempotent :
  let long := repeat 97 199 ++ js " b" in
  safeFileName long SAFE_FILE_NAME_BYTES = Ok (repeat 97 199 ++ js " ") ∧
  safeFileName (repeat 97 199 ++ js " ") SAFE_FILE_NAME_BYTES = Ok (repeat 97 199).
Proof. split; reflexivity. Qed.

(** A device name that truncation brings back. *)
Example safeFileName_reserved_after_trim :
  ∃ r, safeFileName (js "con" ++ repeat 32 200 ++ js "x.txt") SAFE_FILE_NAME_BYTES = Ok r ∧ isWindowsReservedName r = true.
Proof. eexists. split; reflexivity. Qed.

(** Removing a tag character joins the halves of another format character. *)
Example safeFileName_joins_surrogates :
  safeFileName ([0xd834] ++ [0xdb40; 0xdc01] ++ [0xdd73]) SAFE_FILE_NAME_BYTES = Ok [0xd834; 0xdd73] ∧
  hasControlOrFormat [0xd834; 0xdd73] = true.
Proof. split; reflexivity. Qed.

Lemma safeFileName_safe_witness :
  safeFileName (js "..\secret/.con.") 195 = Ok (js "_con") ∧
  36 <= 195 <= SAFE_FILE_NAME_BYTES ∧ ∃ r, safeFileName (js "..\secret/.con.") 195 = Ok r ∧ nameOk 195 r.
Proof.
  assert (H : 36 <= 195 <= SAFE_FILE_NAME_BYTES) by (unfold SAFE_FILE_NAME_BYTES; lia).
  split; [reflexivity|]. split; [exact H|]. exact (safeFileName_safe (js "..\secret/.con.") 195 H).
Defined.

Lemma safeCollisionFileName_attempts_witness :
  nameOk 200 (js "a (1).txt") ∧ (js "a (1) (1).txt" = js "a (1) (12).txt" → 1 = 12).
Proof.
  assert (H : nameOk 200 (js "a (1).txt")) by (by split; [|repeat constructor| |vm_compute]).
  destruct (safeCollisionFileName_attempts (js "a (1).txt") 1 12 200 (js "a (1) (1).txt") (js "a (1) (12).txt")) as [_ Hinj].
  - unfold SAFE_FILE_NAME_BYTES. lia.
  - exact H.
  - unfold MAX_OUTPUT_NAME_ATTEMPTS. lia.
  - unfold MAX_OUTPUT_NAME_ATTEMPTS. lia.
  - reflexivity.
  - reflexivity.
  - by split.
Defined.

Lemma accepted_name_is_portable_witness :
  assertFileWithinLimits (jstr "notes.txt") (jint 12) = Ok () ∧
  ∃ s n, jstr "notes.txt" = JStr s ∧ jint 12 = jint n ∧ 0 <= n <= MAX_FILE_BYTES ∧ nameText s ∧ portableName s.
Proof.
  assert (H : assertFileWithinLimits (jstr "notes.txt") (jint 12) = Ok ()) by reflexivity.
  split; [exact H|]. exact (accepted_name_is_portable _ _ H).
Defined.

Definition twoFiles : FileManifest := {|
  fm_files := [{| fe_id := Some 0; fe_name := js "a.txt"; fe_size := 3; fe_mime := None |};
               {| fe_id := Some 1; fe_name := js "b"; fe_size := 0; fe_mime := Some (js "text/plain") |}];
  fm_fileCount := 2; fm_totalBytes := 3 |}.

Lemma transfer_manifest_accepted_witness :
  assertTransferManifestWithinLimits (manifestValue twoFiles) = Ok () ∧
  ∃ m, readManifest (manifestValue twoFiles) = Some m ∧ manifestOk m ∧
    Forall (λ e, portableName (fe_name e)) (fm_files m) ∧
    ∀ i e, fm_files m !! i = Some e → fe_id e = Some (Z.of_nat i).
Proof.
  assert (H : assertTransferManifestWithinLimits (manifestValue twoFiles) = Ok ()) by reflexivity.
  split; [exact H|]. exact (transfer_manifest_accepted _ H).
Defined.
