(* ===== verification/PublicManifest.v ===== *)
(** * PublicManifest: the manifest the server may see ([src/shared/public-manifest.ts]).

    A sender seals its manifest and sends, in its place, a constant manifest
    with the largest counts and sizes.  The theorems show that the redaction
    succeeds on every manifest the program accepts, that its result passes the
    server's check and every other validator, and that this check accepts
    nothing else. *)
From S2P Require Import Prelude.
From S2P Require Import Constants.
From S2P Require Import JsText.
From S2P Require Import JsValue.
From S2P Require Import Protocol.
From S2P Require Import Messages.
From S2P Require Import Limits.
#[local] Open Scope Z_scope.

Definition MAX_PUBLIC_TOTAL_BYTES : Z := MAX_FILE_BYTES * MAX_FILES_PER_SESSION.

(** [constantPublicManifest] *)
Definition publicEntry (index : Z) : FileManifestEntry :=
  {| fe_id := Some index; fe_name := js "encrypted-" ++ jsInt index; fe_size := MAX_FILE_BYTES; fe_mime := None |}.
Definition constantPublicManifest : FileManifest :=
  {| fm_files := map publicEntry (seqZ 0 MAX_FILES_PER_SESSION);
     fm_fileCount := MAX_FILES_PER_SESSION; fm_totalBytes := MAX_PUBLIC_TOTAL_BYTES |}.

(** [Object.getOwnPropertyDescriptor(files, String(index))] with a value *)
Definition ownDataSlot (v : jsval) (index : Z) : option jsval :=
  match getOwnProperty (KStr (jsInt index)) (ownProps v) with
  | Some (PData _ value) => Some value
  | _ => None
  end.

(** The loop of [redactManifestForSignaling]. *)
Fixpoint redactedTotal (n : nat) (files : jsval) (index actualTotalBytes : Z) : result Z :=
  match n with
  | O => Ok actualTotalBytes
  | S n =>
    match ownDataSlot files index with
    | None => throw "Manifest file entry is invalid."
    | Some entry =>
      match field entry "size" with
      | jint size =>
        check ((0 <=? size) && (size <=? MAX_FILE_BYTES)) "Manifest file size is invalid.";;
        check (isSafeInteger (actualTotalBytes + size)) "Manifest total size is invalid.";;
        redactedTotal n files (index + 1) (actualTotalBytes + size)
      | _ => throw "Manifest file size is invalid."
      end
    end
  end.

(** [redactManifestForSignaling] *)
Definition redactManifestForSignaling (manifest : jsval) : result FileManifest :=
  match field manifest "files", field manifest "fileCount", field manifest "totalBytes" with
  | JArr items, jint fileCount, jint totalBytes =>
    check ((1 <=? fileCount) && (fileCount <=? MAX_FILES_PER_SESSION) && (Z.of_nat (length items) =? fileCount) &&
      (0 <=? totalBytes) && (totalBytes <=? MAX_PUBLIC_TOTAL_BYTES)) "Manifest is invalid.";;
    actualTotalBytes ← redactedTotal (length items) (JArr items) 0 0;
    check (actualTotalBytes =? totalBytes) "Manifest is invalid.";;
    Ok constantPublicManifest
  | _, _, _ => throw "Manifest is invalid."
  end.

(** [hasOnlyOwnDataKeys] *)
Definition hasOnlyOwnDataKeys (v : jsval) (expectedKeys : list jsstr) : bool :=
  isObjectLike v && negb (hasSymbols v) && (length (ownProps v) =? length expectedKeys)%nat &&
  forallb (λ kp,
    match kp with
    | (KStr k, PData _ _) => bool_decide (k ∈ expectedKeys)
    | _ => false
    end) (ownProps v).

(** [ownDataValue(file, "id") === n] *)
Definition isInt (n : Z) (v : jsval) : bool := match v with jint z => z =? n | _ => false end.

Fixpoint redactedEntries (n : nat) (files : jsval) (index : Z) : bool :=
  match n with
  | O => true
  | S n =>
    match ownDataSlot files index with
    | None => false
    | Some file =>
      hasOnlyOwnDataKeys file [js "id"; js "name"; js "size"] &&
      isInt index (field file "id") && isLit (field file "name") (js "encrypted-" ++ jsInt index) &&
      isInt MAX_FILE_BYTES (field file "size") && isUndefined (field file "mime") &&
      redactedEntries n files (index + 1)
    end
  end.

(** [publicPairRequestManifestIsRedacted] *)
Definition publicPairRequestManifestIsRedacted (manifest : jsval) : bool :=
  hasOnlyOwnDataKeys manifest [js "files"; js "fileCount"; js "totalBytes"] &&
  match field manifest "files" with
  | JArr items =>
    isInt MAX_FILES_PER_SESSION (field manifest "fileCount") && (Z.of_nat (length items) =? MAX_FILES_PER_SESSION) &&
    isInt MAX_PUBLIC_TOTAL_BYTES (field manifest "totalBytes") &&
    redactedEntries (length items) (JArr items) 0
  | _ => false
  end.

(** ** Lemmas *)

Lemma isInt_spec n v : isInt n v = true ↔ v = jint n.
Proof.
  split.
  - destruct v as [| | |[]| | | |]; try done. by intros ->%Z.eqb_eq.
  - intros ->. apply Z.eqb_refl.
Qed.

Lemma ownDataSlot_some v index x : ownDataSlot v index = Some x → ownArrayDataValue v index = x.
Proof.
  unfold ownDataSlot, ownArrayDataValue, ownDataValue. destruct (getOwnProperty _ _) as [[]|]; [|done..].
  by intros [= ->].
Qed.

Lemma ownDataSlot_literal items i :
  0 <= i → ownDataSlot (arr items) i = items !! Z.to_nat i.
Proof.
  intros Hi. unfold ownDataSlot, arr. cbn [ownProps]. rewrite getOwnProperty_app, arrayProps_lookup by done.
  rewrite Z.sub_0_r, list_lookup_fmap. destruct (items !! Z.to_nat i); [done|]. simpl.
  by rewrite decide_False by (intros [= E]; by apply digits_not_length in E).
Qed.

(** The redaction check, read: the entries are those of the constant manifest. *)
Lemma redactedEntries_read n files index :
  redactedEntries n files index = true →
  mapM (λ i, readEntry (ownArrayDataValue files i)) (seqZ index (Z.of_nat n)) = Some (map publicEntry (seqZ index (Z.of_nat n))).
Proof.
  revert index. induction n as [|n IH]; intros index Hr; [done|]. cbn [redactedEntries] in Hr.
  destruct (ownDataSlot files index) as [file|] eqn:Hs; [|done]. rewrite !andb_true_iff, !isInt_spec, isLit_spec in Hr.
  destruct Hr as [[[[[_ Hid] Hname] Hsize] Hmime] Hr]. rewrite seqZ_cons by lia.
  replace (Z.pred (Z.of_nat (S n))) with (Z.of_nat n) by lia. replace (Z.succ index) with (index + 1) by lia.
  assert (readEntry file = Some (publicEntry index)) as Hfile.
  { unfold readEntry. rewrite Hid, Hname, Hsize. by destruct (field file "mime"). }
  cbn [mapM map]. rewrite (ownDataSlot_some _ _ _ Hs), Hfile. cbn. by rewrite IH.
Qed.

(** A manifest that passes the server's redaction check carries no information: it reads as the constant
    manifest, with 100 files of 1 GiB named by their position, whatever value was received. *)
Theorem redacted_is_constant manifest :
  publicPairRequestManifestIsRedacted manifest = true → readManifest manifest = Some constantPublicManifest.
Proof.
  unfold publicPairRequestManifestIsRedacted, readManifest. intros H. apply andb_true_iff in H as [_ H].
  destruct (field manifest "files") as [| | | | | |items|]; try done.
  rewrite !andb_true_iff, !isInt_spec, Z.eqb_eq in H. destruct H as [[[-> Hl] ->] Hr].
  apply redactedEntries_read in Hr. rewrite Hr. cbn. by rewrite Hl.
Qed.

(** The literal of a manifest passes the check only for the constant manifest. *)
Lemma redacted_value m : publicPairRequestManifestIsRedacted (manifestValue m) = true → m = constantPublicManifest.
Proof. intros H%redacted_is_constant. rewrite readManifest_manifestValue in H. by injection H. Qed.

(** ** The constant manifest *)

Lemma publicEntry_slot n index l :
  0 <= index → (∀ i, index <= i < index + Z.of_nat n → l !! Z.to_nat i = Some (entryValue (publicEntry i))) →
  redactedEntries n (arr l) index = true.
Proof.
  revert index. induction n as [|n IH]; intros index Hi Hl; [done|]. cbn [redactedEntries].
  rewrite ownDataSlot_literal, Hl by lia. destruct (entryValue_fields (publicEntry index)) as (-> & -> & -> & ->).
  cbn [fe_id fe_name fe_size fe_mime publicEntry isInt isLit isUndefined]. rewrite bool_decide_true, !Z.eqb_refl by done.
  rewrite IH; [done|lia|]. intros. apply Hl. lia.
Qed.

Lemma length_public : length (fm_files constantPublicManifest) = 100%nat.
Proof. cbn [fm_files constantPublicManifest]. by rewrite length_map, length_seqZ. Qed.

Lemma public_lookup i :
  0 <= i < MAX_FILES_PER_SESSION →
  map entryValue (fm_files constantPublicManifest) !! Z.to_nat i = Some (entryValue (publicEntry i)).
Proof.
  intros Hi. cbn [fm_files constantPublicManifest]. rewrite !list_lookup_fmap, lookup_seqZ_lt by (rewrite Z2Nat.id; lia).
  cbn. by rewrite Z2Nat.id by lia.
Qed.

Lemma constant_redacted : publicPairRequestManifestIsRedacted (manifestValue constantPublicManifest) = true.
Proof.
  unfold publicPairRequestManifestIsRedacted.
  change (field (manifestValue constantPublicManifest) "files") with (arr (map entryValue (fm_files constantPublicManifest))).
  change (hasOnlyOwnDataKeys _ _) with true. unfold arr at 1.
  rewrite !length_map, length_public. fold (arr (map entryValue (fm_files constantPublicManifest))).
  rewrite publicEntry_slot; [done|lia|]. intros i Hi. apply public_lookup. unfold MAX_FILES_PER_SESSION in *. lia.
Qed.

(** Names of the constant manifest. *)
Lemma publicName_units i : 0 <= i → Forall (λ c, isLower c || isDigit c || (c =? 45) = true) (js "encrypted-" ++ jsInt i).
Proof.
  intros Hi. apply Forall_app. split; [by repeat constructor|]. destruct (jsInt_digits i Hi) as [Hd _].
  eapply Forall_impl; [exact Hd|]. intros c ->. by rewrite orb_true_r.
Qed.

Section Accepted.
Context `{Hcase : JsCase}.

Lemma publicName_fixed i :
  0 <= i < 1000 → safeFileName (js "encrypted-" ++ jsInt i) SAFE_FILE_NAME_BYTES = Ok (js "encrypted-" ++ jsInt i).
Proof.
  intros Hi. change (js "encrypted-" ++ jsInt i) with (101 :: (js "ncrypted-" ++ jsInt i)). apply plain_name_fixed.
  - apply (publicName_units i). lia.
  - pose proof (jsInt_length 3 i ltac:(lia) ltac:(lia)). unfold jslen. rewrite length_cons, length_app.
    change (length (js "ncrypted-")) with 9%nat. unfold SAFE_FILE_NAME_BYTES. lia.
  - repeat constructor; discriminate.
Qed.

Lemma publicName_text i : 0 <= i < 1000 → nameText (js "encrypted-" ++ jsInt i).
Proof using Hcase.
  intros Hi. pose proof (publicName_fixed i Hi) as Hf. pose proof (publicName_units i ltac:(lia)) as Hu.
  assert (hasControlOrFormat (js "encrypted-" ++ jsInt i) = false) as Hc.
  { apply hasControlOrFormat_ascii. eapply Forall_impl; [exact Hu|]. intros c Hc. unfold isLower, isDigit in Hc.
    rewrite !orb_true_iff in Hc. destruct Hc as [[Hc|Hc]|Hc]; bool_hyps; lia. }
  destruct (fixpoint_cleaned _ Hc Hf) as [[Hne Hsafe _ _] _ Htrim _].
  assert (∀ c, isPathSeparator c = true → c ∉ js "encrypted-" ++ jsInt i) as Hsep.
  { intros c Hp Hin. rewrite Forall_forall in Hsafe. destruct (Hsafe c Hin) as [_ ?]. congruence. }
  pose proof (jsInt_length 3 i ltac:(lia) ltac:(lia)). unfold nameText. rewrite Htrim.
  split_and!; try done; try (by apply Hsep); try (unfold jslen; rewrite length_app; change (length (js "encrypted-")) with 10%nat; unfold MAX_FILE_NAME_CHARS; lia).
Qed.

Lemma constant_ok : manifestOk constantPublicManifest.
Proof using Hcase.
  split; cbn [fm_files fm_fileCount fm_totalBytes constantPublicManifest].
  - by rewrite length_map, length_seqZ.
  - unfold MAX_FILES_PER_SESSION. lia.
  - apply Forall_map, Forall_seqZ. intros i Hi. split; cbn.
    + intros ? [= <-]. unfold MAX_FILES_PER_SESSION in *. lia.
    + apply publicName_text. unfold MAX_FILES_PER_SESSION in *. lia.
    + unfold MAX_FILE_BYTES. lia.
    + done.
  - replace (omap fe_id (map publicEntry (seqZ 0 MAX_FILES_PER_SESSION))) with (seqZ 0 MAX_FILES_PER_SESSION); [apply NoDup_seqZ|].
    induction (seqZ 0 MAX_FILES_PER_SESSION) as [|x l IH]; [done|]. cbn. by f_equal.
  - reflexivity.
Qed.

Lemma constant_within_limits : assertManifestWithinLimits (manifestValue constantPublicManifest) = Ok ().
Proof.
  apply manifest_agree. split; [apply isManifest_complete, constant_ok|]. unfold namesFixed.
  change (field (manifestValue constantPublicManifest) "files") with (arr (map entryValue (fm_files constantPublicManifest))).
  unfold arr. rewrite !length_map, length_public. intros i Hi. fold (arr (map entryValue (fm_files constantPublicManifest))).
  rewrite ownArrayDataValue_literal, public_lookup by (unfold MAX_FILES_PER_SESSION; lia). cbn [default from_option]. unfold id.
  destruct (entryValue_fields (publicEntry i)) as (_ & -> & _). eexists. split; [done|]. apply publicName_fixed. lia.
Qed.

End Accepted.

(** ** Redaction *)

Lemma redactedTotal_loop n files index ids total total' :
  manifestLoop n files index ids total = Some total' → redactedTotal n files index total = Ok total' ∧ total' <= total + Z.of_nat n * MAX_FILE_BYTES.
Proof.
  revert index ids total. induction n as [|n IH]; intros index ids total Hl; [injection Hl as ->; split; [done|lia]|].
  cbn [manifestLoop redactedTotal] in *. destruct (isManifestEntry (ownArrayDataValue files index)) eqn:He; [|done]. simpl in Hl.
  assert (ownDataSlot files index = Some (ownArrayDataValue files index)) as ->.
  { unfold isManifestEntry, ownArrayDataValue, ownDataValue, ownDataSlot in *. by destruct (getOwnProperty _ _) as [[]|]. }
  apply isManifestEntry_spec in He as (e & _ & [_ _ Hsize _] & Esize & _). rewrite Esize in *.
  destruct (match _ with jint _ => _ | _ => _ end) as [ids1|]; [|done].
  destruct (isSafeInteger (total + fe_size e)) eqn:Hsafe; [|done]. apply IH in Hl as [Hl Hb].
  rewrite (proj2 (Z.leb_le 0 _)), (proj2 (Z.leb_le _ MAX_FILE_BYTES)) by lia. cbn. rewrite Hl. split; [done|lia].
Qed.

Section Redaction.
Context `{Hcase : JsCase}.

(** Every manifest that passes the protocol validator can be redacted, and the redaction is the same for
    all of them: the constant manifest, which the server's redaction check, the transfer limits and the protocol
    validator all accept. *)
Theorem redaction_accepted manifest :
  isManifest manifest = true →
  ∃ m, redactManifestForSignaling manifest = Ok m ∧ m = constantPublicManifest ∧
    publicPairRequestManifestIsRedacted (manifestValue m) = true ∧
    assertManifestWithinLimits (manifestValue m) = Ok () ∧ isManifest (manifestValue m) = true.
Proof.
  intros (items & total & [_ _ Hf Hc Hb Ht Htb] & Hl)%isManifest_shape. exists constantPublicManifest. split; [|split_and!].
  - unfold redactManifestForSignaling. rewrite Hf, Hc, Ht. apply redactedTotal_loop in Hl as [-> Hle].
    apply check_bind_ok. rewrite !andb_true_iff, !Z.leb_le, Z.eqb_eq. unfold MAX_PUBLIC_TOTAL_BYTES, MAX_FILES_PER_SESSION, MAX_FILE_BYTES in *.
    split; [lia|]. cbn. by rewrite Z.eqb_refl.
  - done.
  - apply constant_redacted.
  - apply constant_within_limits.
  - apply isManifest_complete, constant_ok.
Qed.

End Redaction.

(** The rules the server applies to the public manifest of a pair request. *)
Definition manifestWithinLimits `{JsCase} (m : FileManifest) : bool := is_ok (assertManifestWithinLimits (manifestValue m)).

Lemma redacted_is_constant_witness :
  publicPairRequestManifestIsRedacted (manifestValue constantPublicManifest) = true ∧
  readManifest (manifestValue constantPublicManifest) = Some constantPublicManifest.
Proof. split; [apply constant_redacted|]. apply (redacted_is_constant _ constant_redacted). Defined.

Lemma redaction_accepted_witness :
  isManifest (manifestValue twoFiles) = true ∧
  ∃ m, redactManifestForSignaling (manifestValue twoFiles) = Ok m ∧ m = constantPublicManifest ∧
    publicPairRequestManifestIsRedacted (manifestValue m) = true ∧
    @assertManifestWithinLimits asciiCase (manifestValue m) = Ok () ∧ isManifest (manifestValue m) = true.
Proof.
  assert (H : isManifest (manifestValue twoFiles) = true) by reflexivity.
  split; [exact H|]. exact (@redaction_accepted asciiCase _ H).
Defined.
