(* ===== verification/Bytes.v ===== *)
(** * Bytes: byte sequences, their big-endian integers and binary values.

    A [Uint8Array] is the list of its bytes.  [binary] is what the checks of
    the source see of a value that should be binary: an instance of
    [Uint8Array] (with the prototype of [Uint8Array] or [Buffer], or another
    one), an [ArrayBuffer], or something else. *)
From S2P Require Import Prelude.
From S2P Require Import Constants.
From S2P Require Import JsText.
From S2P Require Import Base64.
#[local] Open Scope Z_scope.

Inductive binary :=
| Uint8Array (canonicalPrototype : bool) (data : list Z)
| ArrayBuffer (canonicalPrototype : bool) (data : list Z)
| NotBinary.

Abbreviation bin l := (Uint8Array true l).

Definition byteLength (l : list Z) : Z := Z.of_nat (length l).

(** [canonicalUint8ArrayByteLength] of security.ts and [assertUint8Array] of
    chunks.ts, with the message of the error; they give the bytes as well. *)
Definition canonicalUint8Array (value : binary) (message : string) : result (list Z) :=
  match value with Uint8Array true data => Ok data | _ => throw message end.

(** [DataView.setUint8], [setUint32] in big-endian order, and the readers *)
Definition uint8 (n : Z) : list Z := [n mod 256].
Definition uint32 (n : Z) : list Z := [n / 2 ^ 24 mod 256; n / 2 ^ 16 mod 256; n / 2 ^ 8 mod 256; n mod 256].
Definition getUint32 (l : list Z) (offset : nat) : Z :=
  fold_left (λ n b, n * 256 + b) (take 4 (drop offset l)) 0.

(** [sameBytes] and [timingSafeEqual]: the differences are collected by or, so
    that every byte is looked at. *)
Fixpoint byteDifference (a b : list Z) : Z :=
  match a, b with
  | x :: a, y :: b => Z.lor (Z.lxor x y) (byteDifference a b)
  | _, _ => 0
  end.
Definition timingSafeEqual (a b : list Z) : bool :=
  if negb (byteLength a =? byteLength b) then false else byteDifference a b =? 0.

(** [concat] *)
Definition concatBytes (parts : list (list Z)) : list Z := concat parts.

(** ** Lemmas *)

#[local] Ltac Zify.zify_post_hook ::= Z.to_euclidean_division_equations.

Lemma bytes_app l1 l2 : bytes (l1 ++ l2) ↔ bytes l1 ∧ bytes l2.
Proof. apply Forall_app. Qed.

Lemma uint8_bytes n : bytes (uint8 n).
Proof. repeat constructor; lia. Qed.

Lemma uint32_bytes n : bytes (uint32 n).
Proof. repeat constructor; lia. Qed.

Lemma getUint32_uint32 l n r :
  0 <= n < 2 ^ 32 → getUint32 (l ++ uint32 n ++ r) (length l) = n.
Proof. intros Hn. unfold getUint32. rewrite drop_app_length. simpl. lia. Qed.

(** Four bytes are the big-endian text of the number they read as. *)
Lemma uint32_getUint32 a b c d :
  bytes [a; b; c; d] → uint32 (getUint32 [a; b; c; d] 0) = [a; b; c; d].
Proof.
  unfold bytes. rewrite !Forall_cons. intros (Ha & Hb & Hc & Hd & _). unfold getUint32, uint32. simpl. repeat f_equal; lia.
Qed.

Lemma uint32_inj n m : 0 <= n < 2 ^ 32 → 0 <= m < 2 ^ 32 → uint32 n = uint32 m → n = m.
Proof.
  intros Hn Hm E. rewrite <-(getUint32_uint32 [] n []), <-(getUint32_uint32 [] m []) by done. cbn [app length].
  by rewrite !app_nil_r, E.
Qed.

Lemma uint8_inj n m : 0 <= n < 256 → 0 <= m < 256 → uint8 n = uint8 m → n = m.
Proof. intros ?? [= E]. lia. Qed.

Lemma timingSafeEqual_spec a b : timingSafeEqual a b = true ↔ a = b.
Proof.
  unfold timingSafeEqual, byteLength. assert (∀ a b, length a = length b → byteDifference a b = 0 ↔ a = b) as Hd.
  { clear. induction a as [|x a IH]; intros [|y b] Hl; try done. cbn [byteDifference].
    rewrite Z.lor_eq_0_iff, Z.lxor_eq_0_iff, IH by (by injection Hl). split; [by intros [-> ->]|by intros [= -> ->]]. }
  destruct (Z.eqb_spec (Z.of_nat (length a)) (Z.of_nat (length b))) as [E|E]; simpl.
  - rewrite Z.eqb_eq. apply Hd. lia.
  - split; [done|]. by intros ->.
Qed.

(** The bytes of a text. *)
Lemma utf8EncodePoint_bytes cp : 0 <= cp <= 0x10ffff → bytes (utf8EncodePoint cp).
Proof.
  intros Hcp. unfold utf8EncodePoint. set (c := if _ && _ then _ else _).
  assert (0 <= c <= 0x10ffff) as Hc by (unfold c; case_match; lia). clearbody c.
  destruct (c <? 0x80) eqn:E1; bool_hyps; [bytes_lia|]. destruct (c <? 0x800) eqn:E2; bool_hyps; [bytes_lia|].
  destruct (c <? 0x10000) eqn:E3; bool_hyps; bytes_lia.
Qed.

Lemma utf8Encode_bytes s : wf_units s → bytes (utf8Encode s).
Proof.
  unfold utf8Encode, codePoints. induction s as [|c|c d r IH1 IH2] using jsstr_ind2; intros Hs; [constructor|..].
  - inversion_clear Hs. cbn. rewrite app_nil_r. apply utf8EncodePoint_bytes. lia.
  - inversion_clear Hs as [|?? Hc Hdr]. inversion Hdr as [|?? Hd Hr]; subst. rewrite chars_cons2.
    destruct (isHighSurrogate c && isLowSurrogate d) eqn:E; cbn [map concat]; apply bytes_app; split; auto.
    + apply utf8EncodePoint_bytes. unfold isHighSurrogate, isLowSurrogate in E. bool_hyps. unfold codePointAt0. lia.
    + apply utf8EncodePoint_bytes. unfold codePointAt0. lia.
Qed.
