(* ===== verification/Chunks.v ===== *)
(** * Chunks: the binary frame of a file chunk ([src/shared/chunks.ts]).

    A frame is the file id in one byte, the sequence number and the payload
    length in four bytes each, big-endian, and the payload.  The theorem shows
    that decoding and encoding are inverse to each other, so the frames the
    decoder accepts are exactly those the encoder can produce. *)
From S2P Require Import Prelude.
From S2P Require Import Constants.
From S2P Require Import Base64.
From S2P Require Import Bytes.
#[local] Open Scope Z_scope.
#[local] Ltac Zify.zify_post_hook ::= Z.to_euclidean_division_equations.

Definition AES_GCM_TAG_BYTES : Z := 16.
Definition SEALED_CHUNK_SIZE : Z := CHUNK_SIZE + AES_GCM_TAG_BYTES.

(** [ChunkFrame] *)
Record ChunkFrame := { fileId : Z; chunkSeq : Z; payload : list Z }.

(** [assertChunkAddress] of security.ts, and the same checks of [encodeChunk] *)
Definition assertChunkAddress (fileId chunkSeq : Z) : result () :=
  check ((0 <=? fileId) && (fileId <=? 255)) "fileId must fit in uint8";;
  check ((0 <=? chunkSeq) && (chunkSeq <=? 0xffffffff)) "chunkSeq must fit in uint32".

(** [encodeChunk] *)
Definition encodeChunk (fileId chunkSeq : Z) (payload : binary) : result (list Z) :=
  assertChunkAddress fileId chunkSeq;;
  payload ← canonicalUint8Array payload "payload must be a Uint8Array";
  check (byteLength payload <=? SEALED_CHUNK_SIZE) "payload exceeds chunk frame size";;
  Ok (uint8 fileId ++ uint32 chunkSeq ++ uint32 (byteLength payload) ++ payload).

(** [chunkFrameBytes] *)
Definition chunkFrameBytes (input : binary) : result (list Z) :=
  match input with
  | Uint8Array _ _ => canonicalUint8Array input "chunk frame must be a Uint8Array"
  | ArrayBuffer true data => Ok data
  | _ => throw "chunk frame must be an ArrayBuffer or Uint8Array"
  end.

(** [decodeChunk] *)
Definition decodeChunk (input : binary) : result ChunkFrame :=
  bytes ← chunkFrameBytes input;
  check (9 <=? byteLength bytes) "chunk frame is too small";;
  let fileId := default 0 (bytes !! 0%nat) in
  let chunkSeq := getUint32 bytes 1 in
  let payloadLen := getUint32 bytes 5 in
  check (payloadLen =? byteLength bytes - 9) "chunk payload length mismatch";;
  check (payloadLen <=? SEALED_CHUNK_SIZE) "chunk payload exceeds maximum size";;
  Ok {| fileId := fileId; chunkSeq := chunkSeq; payload := drop 9 bytes |}.

(** ** Lemmas *)

(** What [encodeChunk] accepts. *)
Record chunkOk (f : ChunkFrame) : Prop := {
  chunk_file : 0 <= fileId f <= 255;
  chunk_seq : 0 <= chunkSeq f <= 0xffffffff;
  chunk_payload : bytes (payload f);
  chunk_size : byteLength (payload f) <= SEALED_CHUNK_SIZE
}.

Definition frameOf (f : ChunkFrame) : list Z :=
  uint8 (fileId f) ++ uint32 (chunkSeq f) ++ uint32 (byteLength (payload f)) ++ payload f.

Lemma assertChunkAddress_spec fileId chunkSeq :
  assertChunkAddress fileId chunkSeq = Ok () ↔ 0 <= fileId <= 255 ∧ 0 <= chunkSeq <= 0xffffffff.
Proof. unfold assertChunkAddress. rewrite check_bind_ok, check_ok, !andb_true_iff, !Z.leb_le. done. Qed.

Lemma encodeChunk_spec f frame :
  bytes (payload f) → encodeChunk (fileId f) (chunkSeq f) (bin (payload f)) = Ok frame ↔ chunkOk f ∧ frame = frameOf f.
Proof.
  intros Hb. unfold encodeChunk. cbn [canonicalUint8Array]. rewrite unit_bind_ok, assertChunkAddress_spec.
  change (Ok ?x ≫= ?k) with (k x). cbv beta. rewrite check_bind_ok, Z.leb_le. split.
  - intros ([? ?] & Hl & [= <-]). by split.
  - intros [[? ? _ ?] ->]. by repeat split; try lia.
Qed.

Lemma decodeChunk_frame f : chunkOk f → decodeChunk (bin (frameOf f)) = Ok f.
Proof.
  intros [Hf Hs Hp Hl]. unfold decodeChunk, chunkFrameBytes, canonicalUint8Array. cbv [mbind result_bind].
  assert (byteLength (frameOf f) = 9 + byteLength (payload f)) as Hlen by (unfold byteLength, frameOf; simpl; lia).
  assert (0 <= byteLength (payload f)) by (unfold byteLength; lia). unfold SEALED_CHUNK_SIZE, CHUNK_SIZE, AES_GCM_TAG_BYTES in *.
  assert (getUint32 (frameOf f) 1 = chunkSeq f) as -> by (unfold frameOf; apply (getUint32_uint32 (uint8 (fileId f))); lia).
  assert (getUint32 (frameOf f) 5 = byteLength (payload f)) as ->.
  { unfold frameOf. rewrite app_assoc. apply (getUint32_uint32 (uint8 (fileId f) ++ uint32 (chunkSeq f))). lia. }
  rewrite Hlen, (proj2 (Z.leb_le 9 _)), (proj2 (Z.eqb_eq _ _)), (proj2 (Z.leb_le _ _)) by lia. cbn [check].
  destruct f as [i s p]. cbn in *. do 2 f_equal. rewrite Z.mod_small by lia. done.
Qed.

(** Nine bytes and the rest, as the fields of a frame. *)
Lemma header_fields i a b c d e g h k p :
  bytes (i :: a :: b :: c :: d :: e :: g :: h :: k :: p) →
  0 <= i <= 255 ∧ bytes p ∧
  0 <= getUint32 [a; b; c; d] 0 <= 0xffffffff ∧ uint8 i = [i] ∧
  uint32 (getUint32 [a; b; c; d] 0) = [a; b; c; d] ∧ uint32 (getUint32 [e; g; h; k] 0) = [e; g; h; k].
Proof.
  unfold bytes. rewrite !Forall_cons. intros (Hi & Ha & Hb & Hc & Hd & He & Hg & Hh & Hk & Hp).
  split_and!; try done; try lia.
  - unfold getUint32. simpl. lia.
  - unfold getUint32. simpl. lia.
  - unfold uint8. by rewrite Z.mod_small.
  - apply uint32_getUint32. bytes_lia.
  - apply uint32_getUint32. bytes_lia.
Qed.

Lemma decodeChunk_sound frame f : bytes frame → decodeChunk (bin frame) = Ok f → chunkOk f ∧ frame = frameOf f.
Proof.
  intros Hb E. unfold decodeChunk, chunkFrameBytes, canonicalUint8Array in E. cbn [mbind result_bind] in E.
  apply check_bind_ok in E as [H9%Z.leb_le E]. apply check_bind_ok in E as [Hlen%Z.eqb_eq E]. apply check_bind_ok in E as [Hmax%Z.leb_le [= <-]].
  destruct frame as [|i [|a [|b [|c [|d [|e [|g [|h [|k p]]]]]]]]]; try (unfold byteLength in H9; simpl in H9; lia).
  destruct (header_fields _ _ _ _ _ _ _ _ _ _ Hb) as (Hi & Hp & Hs & E8 & E1 & E2).
  change (getUint32 (i :: a :: b :: c :: d :: ?l) 1) with (getUint32 [a; b; c; d] 0) in *.
  change (getUint32 (i :: a :: b :: c :: d :: e :: g :: h :: k :: p) 5) with (getUint32 [e; g; h; k] 0) in *.
  assert (getUint32 [e; g; h; k] 0 = byteLength p) as Hpl by (unfold byteLength in *; simpl length in *; lia).
  change (default 0 _) with i. change (drop 9 _) with p. split.
  - split; [exact Hi|exact Hs|exact Hp|]. cbn [payload]. by rewrite <-Hpl.
  - unfold frameOf. cbn [fileId chunkSeq payload]. by rewrite <-Hpl, E1, E2, E8.
Qed.

(** The frames are a bijection: decoding what [encodeChunk] produced gives the chunk back, whatever the
    payload, and a frame that [decodeChunk] accepts is the one [encodeChunk] makes of the chunk it gives. *)
Theorem chunk_roundtrip :
  (∀ f frame, bytes (payload f) → encodeChunk (fileId f) (chunkSeq f) (bin (payload f)) = Ok frame →
    decodeChunk (bin frame) = Ok f) ∧
  (∀ frame f, bytes frame → decodeChunk (bin frame) = Ok f →
    encodeChunk (fileId f) (chunkSeq f) (bin (payload f)) = Ok frame).
Proof.
  split.
  - intros f frame Hb [Hok ->]%encodeChunk_spec; [|done]. by apply decodeChunk_frame.
  - intros frame f Hb [Hok ->]%decodeChunk_sound; [|done]. apply encodeChunk_spec; [apply Hok|done].
Qed.

Lemma chunk_roundtrip_witness :
  encodeChunk 7 258 (bin [10; 20]) = Ok [7; 0; 0; 1; 2; 0; 0; 0; 2; 10; 20] ∧
  decodeChunk (bin [7; 0; 0; 1; 2; 0; 0; 0; 2; 10; 20]) = Ok {| fileId := 7; chunkSeq := 258; payload := [10; 20] |}.
Proof.
  assert (H : encodeChunk 7 258 (bin [10; 20]) = Ok [7; 0; 0; 1; 2; 0; 0; 0; 2; 10; 20]) by reflexivity.
  split; [exact H|]. destruct chunk_roundtrip as [Hd _].
  apply (Hd {| fileId := 7; chunkSeq := 258; payload := [10; 20] |}); [repeat constructor; lia|exact H].
Defined.
