(* ===== verification/Crypto.v ===== *)
(** * Crypto: the primitives that [src/shared/security.ts] calls.

    AES-GCM of Web Crypto, HMAC and HKDF of [@noble/hashes] and CPace of
    [@cipherman/pake-js] are parameters.  The laws are what their documentation
    promises of honest use: sizes, that decryption inverts encryption under the
    same key, nonce and additional data, and that two CPace parties with the
    same password and session id derive the same secret.  Nothing is assumed of
    an attacker. *)
From S2P Require Import Prelude.
From S2P Require Import Base64.
From S2P Require Import Bytes.
#[local] Open Scope Z_scope.

(** The result of a function that gives [n] bytes. *)
Definition bytesOf (n : Z) (l : list Z) : Prop := bytes l ∧ byteLength l = n.

Class Crypto := {
  aesGcmEncrypt (key iv additionalData plaintext : list Z) : list Z;
  aesGcmDecrypt (key iv additionalData ciphertext : list Z) : option (list Z);
  hmacSha256 (key message : list Z) : list Z;
  sha256 (message : list Z) : list Z;
  hkdfSha256 (ikm salt info : list Z) (length : Z) : list Z;
  (** [cpaceRistretto255.init] at the [n]-th random scalar: the secret and the share *)
  cpaceInit (PRS sid CI : list Z) (n : nat) : list Z * list Z;
  (** [cpaceRistretto255.deriveIskInitiatorResponder]; it throws for an invalid share *)
  cpaceDerive (initiator : bool) (ephemeralSecret ownShare peerShare ownAD peerAD sid : list Z) : result (list Z);
  aesGcm_roundtrip key iv aad p : aesGcmDecrypt key iv aad (aesGcmEncrypt key iv aad p) = Some p;
  aesGcm_size key iv aad p : bytes p → bytesOf (byteLength p + 16) (aesGcmEncrypt key iv aad p);
  hmac_size key m : bytesOf 32 (hmacSha256 key m);
  sha256_size m : bytesOf 32 (sha256 m);
  hkdf_size ikm salt info n : 0 <= n → bytesOf n (hkdfSha256 ikm salt info n);
  cpace_size PRS sid CI n : bytesOf 32 (cpaceInit PRS sid CI n).1 ∧ bytesOf 32 (cpaceInit PRS sid CI n).2;
  cpace_agree PRS sid CI n m adI adR :
    ∃ isk, let I := cpaceInit PRS sid CI n in let R := cpaceInit PRS sid CI m in
      cpaceDerive true I.1 I.2 R.2 adI adR sid = Ok isk ∧ cpaceDerive false R.1 R.2 I.2 adR adI sid = Ok isk
}.

(** [CryptoKey]: what [importKey] was given.  Web Crypto rejects a use that the
    key was not imported for. *)
Inductive KeyUsage := encrypt | decrypt.
#[export] Instance KeyUsage_eq_dec : EqDecision KeyUsage.
Proof. solve_decision. Defined.
Record CryptoKey := { rawKey : list Z; usages : list KeyUsage }.
#[export] Instance CryptoKey_eq_dec : EqDecision CryptoKey.
Proof. solve_decision. Defined.

Section Subtle.
Context `{Crypto}.

(** [importAesKey] *)
Definition importAesKey (raw : list Z) (usages : list KeyUsage) : CryptoKey := {| rawKey := raw; usages := usages |}.

(** [crypto.subtle.encrypt] and [crypto.subtle.decrypt] for AES-GCM *)
Definition subtleEncrypt (key : CryptoKey) (iv additionalData plaintext : list Z) : result (list Z) :=
  check (bool_decide (encrypt ∈ usages key)) "The requested operation is not valid for the provided key";;
  Ok (aesGcmEncrypt (rawKey key) iv additionalData plaintext).
Definition subtleDecrypt (key : CryptoKey) (iv additionalData ciphertext : list Z) : option (list Z) :=
  if bool_decide (decrypt ∈ usages key) then aesGcmDecrypt (rawKey key) iv additionalData ciphertext else None.

Lemma subtle_roundtrip k k' iv aad p :
  rawKey k = rawKey k' → encrypt ∈ usages k → decrypt ∈ usages k' → bytes p →
  ∃ c, subtleEncrypt k iv aad p = Ok c ∧ bytesOf (byteLength p + 16) c ∧ subtleDecrypt k' iv aad c = Some p.
Proof.
  intros Hk He Hd Hp. unfold subtleEncrypt, subtleDecrypt. rewrite !bool_decide_true by done. eexists. split; [done|].
  split; [by apply aesGcm_size|]. rewrite Hk. apply aesGcm_roundtrip.
Qed.

End Subtle.

(** Primitives without any security, to show that the laws can hold. *)
Definition zeros (n : Z) : list Z := repeat 0 (Z.to_nat n).

Lemma zeros_size n : 0 <= n → bytesOf n (zeros n).
Proof.
  intros Hn. unfold zeros, bytesOf, byteLength. rewrite repeat_length. split; [|lia].
  apply Forall_forall. intros x ->%list_elem_of_In%repeat_spec. lia.
Qed.

Definition plainCrypto : Crypto.
Proof.
  refine {| aesGcmEncrypt _ _ _ p := p ++ zeros 16; aesGcmDecrypt _ _ _ c := Some (take (length c - 16) c);
    hmacSha256 _ _ := zeros 32; sha256 _ := zeros 32; hkdfSha256 _ _ _ n := zeros n;
    cpaceInit _ _ _ _ := (zeros 32, zeros 32); cpaceDerive _ _ _ _ _ _ _ := Ok (zeros 64) |}.
  - intros _ _ _ p. rewrite length_app. change (length (zeros 16)) with 16%nat.
    by rewrite Nat.add_sub, take_app_length.
  - intros _ _ _ p Hp. destruct (zeros_size 16) as [Hz _]; [lia|]. split; [by apply bytes_app|].
    unfold byteLength. rewrite length_app. change (length (zeros 16)) with 16%nat. lia.
  - intros. apply zeros_size. lia.
  - intros. apply zeros_size. lia.
  - intros. by apply zeros_size.
  - intros. split; apply zeros_size; lia.
  - intros. by exists (zeros 64).
Defined.
