(* ===== verification/SealedJson.v ===== *)
(** * SealedJson: sealed JSON payloads ([sealJson] and [openJson] of
    [src/shared/security.ts]).

    The preflight walks a value and charges a budget of bytes and nodes; the
    stringification writes the text; sealing encrypts it under a fresh nonce.
    The theorems show that the preflight charges exactly the bytes the text
    takes, so that no later size check can fail, and that opening gives the
    sealed value back. *)
From S2P Require Import Prelude.
From S2P Require Import Constants.
From S2P Require Import JsText.
From S2P Require Import JsValue.
From S2P Require Import Json.
From S2P Require Import Base64.
From S2P Require Import Bytes.
From S2P Require Import Chunks.
From S2P Require Import Crypto.
#[local] Open Scope Z_scope.

Definition MAX_ENCRYPTED_JSON_PLAINTEXT_BYTES : Z := (ENCRYPTED_JSON_MAX_CHARS / 4) * 3 - 12 - AES_GCM_TAG_BYTES.
Definition MAX_ENCRYPTED_JSON_DEPTH : Z := 32.
Definition MAX_ENCRYPTED_JSON_NODES : Z := 10000.

(** ** Preflight *)

Record budget := { remainingBytes : Z; remainingNodes : Z }.
Abbreviation M := (ST budget).
Definition tooLarge {A} : M A := st_lift (throw "Encrypted payload is too large.").
Definition notSerializable {A} : M A := st_lift (throw "Encrypted payload is not JSON serializable.").

(** [accountJsonBytes] *)
Definition accountJsonBytes (bytes : Z) : M () :=
  st_modify (λ b, {| remainingBytes := remainingBytes b - bytes; remainingNodes := remainingNodes b |});;
  budget ← st_get;
  if remainingBytes budget <? 0 then tooLarge else mret ().

(** The bytes of one character in a JSON string. *)
Definition jsonCharBytes (char : jsstr) : Z :=
  let codePoint := codePointAt0 char in
  if bool_decide (char ∈ [[34]; [92]; [8]; [12]; [10]; [13]; [9]]) then 2
  else if (codePoint <=? 0x1f) || ((0xd800 <=? codePoint) && (codePoint <=? 0xdfff)) then 6
  else if codePoint <=? 0x7f then 1
  else if codePoint <=? 0x7ff then 2
  else if codePoint <=? 0xffff then 3
  else 4.

(** [accountJsonStringBytes] *)
Definition accountJsonStringBytes (value : jsstr) : M () :=
  accountJsonBytes 2;; st_iter (λ char, accountJsonBytes (jsonCharBytes char)) (chars value).

(** [jsonArrayValueSerializesAsNull] and [jsonObjectPropertyIsOmitted] *)
Definition jsonArrayValueSerializesAsNull (v : jsval) : bool :=
  match v with JUndefined | JOther OFunction | JOther OSymbol => true | _ => false end.
Definition jsonObjectPropertyIsOmitted (v : jsval) : bool :=
  match v with JUndefined | JOther OFunction | JOther OSymbol => true | _ => false end.

Section Loops.
Variable visit : jsval → M ().

(** The loop of [visitJsonArray]. *)
Fixpoint visitItems (first : bool) (items : list (option (prop jsval))) : M () :=
  match items with
  | [] => mret ()
  | slot :: r =>
    (if first then mret () else accountJsonBytes 1);;
    match slot with
    | Some (PData _ v) =>
      (if jsonArrayValueSerializesAsNull v then accountJsonBytes 4 else visit v);; visitItems false r
    | _ => notSerializable
    end
  end.

(** The loop of [visitJsonRecord]. *)
Fixpoint visitMembers (first : bool) (props : list (key * prop jsval)) : M () :=
  match props with
  | [] => mret ()
  | (KStr k, PData true v) :: r =>
    if jsonObjectPropertyIsOmitted v then visitMembers first r
    else
      (if first then mret () else accountJsonBytes 1);;
      accountJsonStringBytes k;; accountJsonBytes 1;; visit v;; visitMembers false r
  | (KStr _, PAccessor true) :: r => notSerializable
  | _ :: r => visitMembers first r
  end.
End Loops.

(** [visitJsonValue], [visitJsonObject], [visitJsonArray] and [visitJsonRecord] *)
Fixpoint visitJsonValue (v : jsval) (depth : Z) : M () :=
  st_modify (λ b, {| remainingBytes := remainingBytes b; remainingNodes := remainingNodes b - 1 |});;
  budget ← st_get;
  if (remainingNodes budget <? 0) || (MAX_ENCRYPTED_JSON_DEPTH <? depth) then tooLarge
  else match v with
  | JNull => accountJsonBytes 4
  | JStr s => accountJsonStringBytes s
  | JNum n => match numText n with Some t => accountJsonBytes (jslen t) | None => notSerializable end
  | JBool b => accountJsonBytes (if b then 4 else 5)
  | JUndefined | JOther _ => notSerializable
  | JArr items =>
    if hasOwnKey v (js "toJSON") then notSerializable
    else if MAX_ENCRYPTED_JSON_NODES <? Z.of_nat (length items) then tooLarge
    else accountJsonBytes 2;; visitItems (λ v, visitJsonValue v (depth + 1)) true items
  | JObj _ props =>
    if hasOwnKey v (js "toJSON") then notSerializable
    else if negb (isObject v) then notSerializable
    else if hasSymbols v then notSerializable
    else accountJsonBytes 2;; visitMembers (λ v, visitJsonValue v (depth + 1)) true props
  end.

(** [assertJsonValueWithinEncryptionBounds] *)
Definition assertJsonValueWithinEncryptionBounds (value : jsval) : result () :=
  match visitJsonValue value 0
    {| remainingBytes := MAX_ENCRYPTED_JSON_PLAINTEXT_BYTES; remainingNodes := MAX_ENCRYPTED_JSON_NODES |} with
  | Done _ _ => Ok ()
  | Raised e _ => Err e
  | OutOfFuel => throw "unreachable"
  end.

(** ** Stringification *)

Definition unserializable {A} : result A := throw "Encrypted payload is not JSON serializable.".

Section StringifyLoops.
Variable stringify : jsval → result jsstr.

(** The loop of [stringifyPreflightedJsonArray]. *)
Fixpoint stringifyItems (items : list (option (prop jsval))) : result (list jsstr) :=
  match items with
  | [] => Ok []
  | Some (PData _ v) :: r =>
    t ← (if jsonArrayValueSerializesAsNull v then Ok (js "null") else stringify v);
    ts ← stringifyItems r; Ok (t :: ts)
  | _ :: _ => unserializable
  end.

(** The loop of [stringifyPreflightedJsonRecord]. *)
Fixpoint stringifyMembers (props : list (key * prop jsval)) : result (list jsstr) :=
  match props with
  | [] => Ok []
  | (KStr k, PData true v) :: r =>
    if jsonObjectPropertyIsOmitted v then stringifyMembers r
    else t ← stringify v; ts ← stringifyMembers r; Ok ((jsonQuote k ++ js ":" ++ t) :: ts)
  | _ :: r => stringifyMembers r
  end.
End StringifyLoops.

(** [stringifyPreflightedJsonValue] *)
Fixpoint stringifyPreflightedJsonValue (v : jsval) : result jsstr :=
  match v with
  | JNull => Ok (js "null")
  | JStr s => Ok (jsonQuote s)
  | JNum n => match numText n with Some t => Ok t | None => unserializable end
  | JBool b => Ok (js (if b then "true" else "false"))
  | JArr items =>
    out ← stringifyItems stringifyPreflightedJsonValue items; Ok (js "[" ++ joinWith (js ",") out ++ js "]")
  | JObj _ props =>
    if negb (isObject v) || hasSymbols v then unserializable
    else out ← stringifyMembers stringifyPreflightedJsonValue props; Ok (js "{" ++ joinWith (js ",") out ++ js "}")
  | JUndefined | JOther _ => unserializable
  end.

(** [stringifyJsonValue] *)
Definition stringifyJsonValue (value : jsval) : result jsstr :=
  assertJsonValueWithinEncryptionBounds value;;
  serialized ← stringifyPreflightedJsonValue value;
  check (byteLength (utf8Encode serialized) <=? MAX_ENCRYPTED_JSON_PLAINTEXT_BYTES) "Encrypted payload is too large.";;
  Ok serialized.

(** ** Sealing *)

(** [base64EncodedLength] *)
Definition base64EncodedLength (byteLength : Z) : Z := (byteLength + 2) / 3 * 4.

Section Seal.
Context `{Crypto, JsNumbers}.

(** [sealJson], at the random [nonce] *)
Definition sealJson (key : CryptoKey) (value : jsval) (aad nonce : list Z) : result jsstr :=
  serialized ← stringifyJsonValue value;
  let plaintext := utf8Encode serialized in
  let sealedByteLength := byteLength nonce + byteLength plaintext + AES_GCM_TAG_BYTES in
  check (base64EncodedLength sealedByteLength <=? ENCRYPTED_JSON_MAX_CHARS) "Encrypted payload is too large.";;
  ciphertext ← subtleEncrypt key nonce aad plaintext;
  let encoded := bytesToBase64 (nonce ++ ciphertext) in
  check (jslen encoded <=? ENCRYPTED_JSON_MAX_CHARS) "Encrypted payload is too large.";;
  Ok encoded.

(** [openJson] *)
Definition openJson (key : CryptoKey) (sealed : jsval) (aad : list Z) : result jsval :=
  match sealed with
  | JStr sealed =>
    check (jslen sealed <=? ENCRYPTED_JSON_MAX_CHARS) "Encrypted payload is too large.";;
    payload ← base64ToBytes sealed;
    check (13 <=? byteLength payload) "Encrypted payload is too small.";;
    match subtleDecrypt key (take 12 payload) aad (drop 12 payload) with
    | None => throw "Encrypted payload decrypt failed."
    | Some plaintext =>
      match (text ← utf8Decode plaintext; jsonParse text) with
      | Some v => Ok v
      | None => throw "Encrypted payload is not valid JSON."
      end
    end
  | _ => throw "Encrypted payload must be a text frame."
  end.

End Seal.

(** ** What a computation costs

    [costs m B N P]: [m] takes [B] bytes and [N] nodes off the budget, and
    throws exactly when one of them is not left or [P] fails. *)
Definition withinBudget (b : budget) : Prop := 0 <= remainingBytes b ∧ 0 <= remainingNodes b <= MAX_ENCRYPTED_JSON_NODES.
Definition spent (b : budget) (B N : Z) (b' : budget) : Prop :=
  remainingBytes b' = remainingBytes b - B ∧ remainingNodes b' = remainingNodes b - N ∧ withinBudget b'.
Definition affordable (b : budget) (B N : Z) (P : Prop) : Prop := B <= remainingBytes b ∧ N <= remainingNodes b ∧ P.

Record costs (m : M ()) (B N : Z) (P : Prop) : Prop := {
  costs_bytes : 0 <= B;
  costs_nodes : 0 <= N;
  costs_run b : withinBudget b → wpe m (λ _ b', spent b B N b' ∧ P) (λ _ _, ¬ affordable b B N P) b
}.

Lemma costs_ret : costs (mret ()) 0 0 True.
Proof. split; [lia..|]. intros b Hb. apply wpe_ret. unfold spent. split; [|done]. split_and!; [lia..|done]. Qed.

Lemma costs_bind m k B N P B' N' P' :
  costs m B N P → costs k B' N' P' → costs (m;; k) (B + B') (N + N') (P ∧ P').
Proof.
  intros [HB HN Hm] [HB' HN' Hk]. split; [lia..|]. intros b Hb. apply wpe_bind.
  eapply wpe_mono; [by apply Hm|..]; cbv beta.
  - intros _ b1 [(E1 & E2 & Hw) HP]. eapply wpe_mono; [by apply Hk|..]; cbv beta.
    + intros _ b2 [(E3 & E4 & Hw2) HP']. split; [|done]. split_and!; [lia..|done].
    + intros _ _ Hn (? & ? & ? & ?). apply Hn. split_and!; [lia..|done].
  - intros _ _ Hn (? & ? & ? & ?). apply Hn. split_and!; [lia..|done].
Qed.

Lemma costs_iff m B N P B' N' P' : costs m B N P → B = B' → N = N' → (P ↔ P') → costs m B' N' P'.
Proof.
  intros [HB HN Hm] -> -> HP. split; [done..|]. intros b Hb. eapply wpe_mono; [by apply Hm|..]; cbv beta.
  - intros _ b' [Hs Hp]. split; [done|]. by apply HP.
  - intros _ _ Hn (? & ? & ?). apply Hn. split_and!; [done..|]. by apply HP.
Qed.

(** A guard in front of a computation that only happens when it holds. *)
Lemma costs_throw (e : jsstr) : costs (st_lift (Err e)) 0 0 False.
Proof. split; [lia..|]. intros b Hb. apply wpe_lift. by intros (_ & _ & ?). Qed.

Lemma costs_account n : 0 <= n → costs (accountJsonBytes n) n 0 True.
Proof.
  intros Hn. split; [done|lia|]. intros b [Hb1 Hb2]. unfold accountJsonBytes, tooLarge. wpe_steps; simpl in *; bool_hyps.
  - intros (? & _). lia.
  - unfold spent, withinBudget. simpl. split_and!; lia || done.
Qed.

Definition jsonStringBytes (s : jsstr) : Z := 2 + foldr (λ char n, jsonCharBytes char + n) 0 (chars s).

Lemma jsonCharBytes_pos char : 1 <= jsonCharBytes char.
Proof. unfold jsonCharBytes. repeat case_match; lia. Qed.

Lemma costs_string s : costs (accountJsonStringBytes s) (jsonStringBytes s) 0 True.
Proof.
  unfold accountJsonStringBytes, jsonStringBytes. eapply costs_iff; [eapply costs_bind; [apply costs_account; lia|]|..].
  - assert (costs (st_iter (λ char, accountJsonBytes (jsonCharBytes char)) (chars s))
      (foldr (λ char n, jsonCharBytes char + n) 0 (chars s)) 0 True) as H; [|exact H].
    induction (chars s) as [|char cs IH]; [apply costs_ret|]. cbn [st_iter foldr].
    eapply costs_iff; [eapply costs_bind; [apply costs_account|exact IH]|..]; [|lia|lia|tauto].
    pose proof (jsonCharBytes_pos char). lia.
  - done.
  - done.
  - tauto.
Qed.

(** The bytes and nodes of a value: bytes of its text, and one node for every value in it. *)
Definition jsonCount : jsval → Z := jsonFold 1 (λ _ a b, a + b) id.

(** *** Counting nodes *)

Lemma jsonCount_arr l : jsonCount (arr l) = 1 + foldr (λ v n, jsonCount v + n) 0 l.
Proof. unfold jsonCount. rewrite jsonFold_arr. unfold id. induction l as [|v l IH]; [done|]. cbn [foldr]. rewrite IH. lia. Qed.
Lemma jsonCount_obj l : jsonCount (obj l) = 1 + foldr (λ kv n, jsonCount kv.2 + n) 0 l.
Proof. unfold jsonCount. rewrite jsonFold_obj. unfold id. induction l as [|v l IH]; [done|]. cbn [foldr]. rewrite IH. lia. Qed.

(** The guard at the start of every visit. *)
Lemma costs_node depth k B N P :
  costs k B N P →
  costs (st_modify (λ b, {| remainingBytes := remainingBytes b; remainingNodes := remainingNodes b - 1 |});;
    budget ← st_get;
    if (remainingNodes budget <? 0) || (MAX_ENCRYPTED_JSON_DEPTH <? depth) then tooLarge else k)
    B (1 + N) (depth <= MAX_ENCRYPTED_JSON_DEPTH ∧ P).
Proof.
  intros [HB HN Hk]. split; [lia..|]. intros b [Hb1 Hb2]. do 4 wpe_step.
  set (b1 := {| remainingBytes := _; remainingNodes := _ |}).
  change (remainingNodes b1) with (remainingNodes b - 1). destruct ((_ <? 0) || _) eqn:E.
  - unfold tooLarge. wpe_step. rewrite orb_true_iff, !Z.ltb_lt in E. intros (? & ? & ? & ?). lia.
  - bool_hyps. eapply wpe_mono; [apply Hk; split; simpl; lia|..]; cbv beta.
    + intros _ b2 [(E1 & E2 & Hw) HP]. simpl in *. split; [|done]. split_and!; [lia..|done].
    + intros _ _ Hn (? & ? & ? & ?). apply Hn. unfold affordable, b1. simpl. split_and!; [lia..|done].
Qed.

Lemma costs_sep (first : bool) : costs (if first then mret () else accountJsonBytes 1) (if first then 0 else 1) 0 True.
Proof. destruct first; [apply costs_ret|apply costs_account; lia]. Qed.

(** The bytes of a list of texts, each but the first with its comma. *)
Definition listBytes (first : bool) (ts : list jsstr) : Z :=
  foldr (λ t n, 1 + utf8ByteLength t + n) 0 ts - match ts with [] => 0 | _ => if first then 1 else 0 end.

Lemma listBytes_cons first t ts :
  listBytes first (t :: ts) = (if first then 0 else 1) + utf8ByteLength t + listBytes false ts.
Proof. unfold listBytes. cbn [foldr]. destruct ts, first; simpl; lia. Qed.

Lemma costs_items visit (count : jsval → Z) (P : jsval → Prop) first l ts :
  Forall2 (λ v t, costs (visit v) (utf8ByteLength t) (count v) (P v)) l ts →
  Forall (λ v, jsonArrayValueSerializesAsNull v = false) l →
  costs (visitItems visit first (map (λ v, Some (PData true v)) l))
    (listBytes first ts) (foldr (λ v n, count v + n) 0 l) (Forall P l).
Proof.
  intros Hl. revert first. induction Hl as [|v t l ts Hv _ IH]; intros first Hnull.
  - eapply costs_iff; [apply costs_ret|done..|]. split; [constructor|done].
  - inversion_clear Hnull as [|?? Hnv Hnl]. cbn [map visitItems foldr]. rewrite Hnv.
    eapply costs_iff; [eapply costs_bind; [apply costs_sep|eapply costs_bind; [exact Hv|by apply IH]]|..].
    + rewrite listBytes_cons. lia.
    + lia.
    + rewrite Forall_cons. tauto.
Qed.

Lemma costs_members visit (count : jsval → Z) (P : jsval → Prop) first l ts :
  Forall2 (λ kv t, ∃ tv, utf8ByteLength t = jsonStringBytes kv.1 + 1 + utf8ByteLength tv ∧
    costs (visit kv.2) (utf8ByteLength tv) (count kv.2) (P kv.2)) l ts →
  Forall (λ kv : jsstr * jsval, jsonObjectPropertyIsOmitted kv.2 = false) l →
  costs (visitMembers visit first (map (λ kv, (KStr kv.1, PData true kv.2)) l))
    (listBytes first ts) (foldr (λ kv n, count kv.2 + n) 0 l) (Forall (λ kv, P kv.2) l).
Proof.
  intros Hl. revert first. induction Hl as [|[k v] t l ts (tv & Ht & Hv) _ IH]; intros first Hom.
  - eapply costs_iff; [apply costs_ret|done..|]. split; [constructor|done].
  - inversion_clear Hom as [|?? Hov Hol]. cbn [map visitMembers foldr fst snd] in *. rewrite Hov.
    eapply costs_iff; [eapply costs_bind; [apply costs_sep|eapply costs_bind; [apply costs_string|
      eapply costs_bind; [apply costs_account; lia|eapply costs_bind; [exact Hv|by apply IH]]]]|..].
    + rewrite listBytes_cons, Ht. lia.
    + lia.
    + rewrite Forall_cons. cbn [snd]. tauto.
Qed.

(** *** The bytes of a text *)

Lemma utf8ByteLength_scalar s t : scalarText s → utf8ByteLength (s ++ t) = utf8ByteLength s + utf8ByteLength t.
Proof.
  induction 1 as [|c s Hc Hs _ IH|c d s Hc Hd _ IH]; [done|..].
  - assert (∀ u, utf8ByteLength (c :: u) = utf8ByteLength [c] + utf8ByteLength u) as Hone.
    { intros u. destruct u as [|d u]; [simpl; lia|]. rewrite utf8ByteLength_cons2.
      assert (isHighSurrogate c = false) as ->.
      { unfold isSurrogate in Hs. unfold isHighSurrogate. apply andb_false_iff in Hs as [Hs|Hs]; bool_hyps; apply andb_false_iff.
        - left. by apply Z.leb_gt.
        - right. apply Z.leb_gt. lia. }
      cbn [andb utf8ByteLength]. repeat case_match; lia. }
    cbn [app]. rewrite (Hone (s ++ t)), (Hone s), IH. lia.
  - cbn [app]. rewrite !utf8ByteLength_cons2, Hc, Hd. cbn [andb]. unfold isHighSurrogate in Hc. bool_hyps.
    rewrite !(proj2 (Z.ltb_ge c _)) by lia. lia.
Qed.

Lemma listBytes_join ts : Forall scalarText ts → utf8ByteLength (joinWith (js ",") ts) = listBytes true ts.
Proof.
  induction 1 as [|t ts Ht Hts IH]; [done|]. rewrite joinWith_cons, listBytes_cons. destruct ts as [|u ts].
  - unfold listBytes. simpl. lia.
  - rewrite !utf8ByteLength_scalar by (auto; by apply scalarText_ascii; repeat constructor). rewrite IH.
    change (utf8ByteLength (js ",")) with 1. unfold listBytes. simpl. lia.
Qed.

(** *** The bytes of a string *)

Lemma singleton_escape c :
  bool_decide ([c] ∈ [[34]; [92]; [8]; [12]; [10]; [13]; [9]]) = bool_decide (c ∈ [34; 92; 8; 12; 10; 13; 9]).
Proof.
  apply bool_decide_ext. change [[34]; [92]; [8]; [12]; [10]; [13]; [9]] with ((λ c, [c]) <$> [34; 92; 8; 12; 10; 13; 9]).
  rewrite list_elem_of_fmap. split; [by intros (d & [= <-] & Hd)|eauto].
Qed.

Lemma hex4_bytes c : 0 <= c <= 0xffff → utf8ByteLength ([92; 117] ++ hex4 c) = 6.
Proof. intros Hc. rewrite utf8ByteLength_ascii by (by apply hex4_ascii). done. Qed.

Lemma escape_bytes_unit c : 0 <= c <= 0xffff → utf8ByteLength (jsonEscape [c]) = jsonCharBytes [c].
Proof.
  intros Hc. unfold jsonCharBytes. rewrite singleton_escape. change (codePointAt0 [c]) with c. unfold jsonEscape.
  case_bool_decide as Hin.
  - repeat (apply elem_of_cons in Hin as [-> |Hin]; [done|]). by apply not_elem_of_nil in Hin.
  - rewrite !not_elem_of_cons in Hin. destruct Hin as (?&?&?&?&?&?&?&_).
    rewrite !(proj2 (Z.eqb_neq c _)) by done. unfold isSurrogate.
    replace (c <=? 0x1f) with (c <? 0x20) by (apply eq_true_iff_eq; rewrite Z.ltb_lt, Z.leb_le; lia).
    destruct (_ || _) eqn:E; [by apply hex4_bytes|]. bool_hyps. cbn [utf8ByteLength].
    destruct (Z.ltb_spec c 0x80); [by rewrite (proj2 (Z.leb_le c 0x7f)) by lia|].
    rewrite (proj2 (Z.leb_gt c 0x7f)) by lia.
    destruct (Z.ltb_spec c 0x800); [by rewrite (proj2 (Z.leb_le c 0x7ff)) by lia|].
    rewrite (proj2 (Z.leb_gt c 0x7ff)) by lia. by rewrite (proj2 (Z.leb_le c 0xffff)) by lia.
Qed.

Lemma escape_bytes_pair c d :
  isHighSurrogate c = true → isLowSurrogate d = true → utf8ByteLength (jsonEscape [c; d]) = jsonCharBytes [c; d].
Proof.
  intros Hc Hd. pose proof (codePoint_pair c d Hc Hd). unfold jsonEscape, jsonCharBytes.
  rewrite bool_decide_false by (rewrite !not_elem_of_cons; split_and!; try done; apply not_elem_of_nil).
  rewrite (proj2 (Z.leb_gt (codePointAt0 [c; d]) 0x1f)), (proj2 (Z.leb_gt (codePointAt0 [c; d]) 0xdfff)) by lia.
  rewrite (proj2 (Z.leb_gt (codePointAt0 [c; d]) 0x7f)), (proj2 (Z.leb_gt (codePointAt0 [c; d]) 0x7ff)),
    (proj2 (Z.leb_gt (codePointAt0 [c; d]) 0xffff)) by lia. rewrite andb_false_r. cbn [orb].
  rewrite utf8ByteLength_cons2, Hc, Hd. unfold isHighSurrogate in Hc. bool_hyps.
  by rewrite !(proj2 (Z.ltb_ge c _)) by lia.
Qed.

Lemma jsonQuote_bytes s : wf_units s → utf8ByteLength (jsonQuote s) = jsonStringBytes s.
Proof.
  intros Hs. unfold jsonQuote, jsonStringBytes. change ([34] ++ ?x ++ [34]) with (34 :: x ++ [34]).
  assert (utf8ByteLength (concat (map jsonEscape (chars s)) ++ [34]) = foldr (λ char n, jsonCharBytes char + n) 0 (chars s) + 1) as E.
  { rewrite utf8ByteLength_scalar by (by apply concat_escape_scalar). f_equal.
    induction s as [|c|c d r IH1 IH2] using jsstr_ind2; [done|..].
    - inversion_clear Hs. cbn [chars map concat foldr]. rewrite app_nil_r, escape_bytes_unit by done. lia.
    - inversion_clear Hs as [|?? Hc Hdr]. inversion Hdr as [|?? Hd Hr]; subst. rewrite chars_cons2.
      destruct (isHighSurrogate c && isLowSurrogate d) eqn:Ecd; cbn [map concat foldr].
      + apply andb_true_iff in Ecd as [Eh El]. rewrite utf8ByteLength_scalar by (constructor; [done..|constructor]).
        by rewrite escape_bytes_pair, IH1.
      + rewrite utf8ByteLength_scalar by (by apply jsonEscape_unit_scalar). by rewrite escape_bytes_unit, IH2. }
  change (34 :: concat (map jsonEscape (chars s)) ++ [34]) with ([34] ++ concat (map jsonEscape (chars s)) ++ [34]).
  rewrite utf8ByteLength_scalar, E by (by apply scalarText_ascii; repeat constructor). change (utf8ByteLength [34]) with 1. lia.
Qed.

(** *** The cost of a value is its text *)

Definition bounded (depth : Z) (v : jsval) : Prop :=
  noToJSON v = true ∧ depth + jsonHeight v <= MAX_ENCRYPTED_JSON_DEPTH.

Lemma data_serializes v : jsonData v → jsonArrayValueSerializesAsNull v = false ∧ jsonObjectPropertyIsOmitted v = false.
Proof. by destruct 1. Qed.

Lemma scalar_costs v depth t (m : M ()) :
  visitJsonValue v depth = (st_modify (λ b, {| remainingBytes := remainingBytes b; remainingNodes := remainingNodes b - 1 |});;
    budget ← st_get;
    if (remainingNodes budget <? 0) || (MAX_ENCRYPTED_JSON_DEPTH <? depth) then tooLarge else m) →
  costs m (utf8ByteLength t) 0 True → jsonCount v = 1 → jsonHeight v = 0 → noToJSON v = true →
  costs (visitJsonValue v depth) (utf8ByteLength t) (jsonCount v) (bounded depth v).
Proof.
  intros -> Hm Hc Hh Hn. eapply costs_iff; [by apply costs_node|done|lia|]. unfold bounded. rewrite Hh, Hn, Z.add_0_r. tauto.
Qed.

Lemma bounded_arr depth l : bounded depth (arr l) ↔ depth <= MAX_ENCRYPTED_JSON_DEPTH ∧ Forall (bounded (depth + 1)) l.
Proof. unfold bounded. rewrite noToJSON_arr_iff, jsonHeight_arr, foldr_max_le, Forall_and. tauto. Qed.

Lemma bounded_obj depth l :
  bounded depth (obj l) ↔
  hasOwnKey (obj l) (js "toJSON") = false ∧ depth <= MAX_ENCRYPTED_JSON_DEPTH ∧ Forall (λ kv, bounded (depth + 1) kv.2) l.
Proof. unfold bounded. rewrite literal_toJSON_iff, jsonHeight_obj, (foldr_max_le (λ kv, jsonHeight kv.2)), Forall_and. tauto. Qed.

Lemma data_count_pos v : jsonData v → 1 <= jsonCount v.
Proof.
  induction 1 as [|b|z Hz|s Hs|l Hl IH|l Hnd Hk Hl IH]; try done.
  - rewrite jsonCount_arr. clear Hl. induction l as [|v l IHl]; [done|]. simpl.
    pose proof (IH v ltac:(left)). specialize (IHl ltac:(intros; apply IH; by right)). lia.
  - rewrite jsonCount_obj. clear Hl Hk Hnd. induction l as [|[k v] l IHl]; [done|]. simpl.
    pose proof (IH k v ltac:(left)). specialize (IHl ltac:(intros; eapply IH; by right)). lia.
Qed.

(** A check that throws when the condition is impossible to afford. *)
Lemma costs_check (c : bool) (e : jsstr) k B N P :
  0 <= B → 0 <= N → (c = false → costs k B N P) → (∀ b, c = true → withinBudget b → ¬ affordable b B N P) →
  costs (if c then st_lift (Err e) else k) B N P.
Proof.
  intros HB HN Hk Hc. destruct c; [|by apply Hk]. split; [done..|]. intros b Hb. apply wpe_lift. by apply Hc.
Qed.

Lemma array_costs l depth t :
  (∀ v, v ∈ l → jsonData v) →
  (∀ v, v ∈ l → ∀ t depth, jsonText v = Some t → costs (visitJsonValue v depth) (utf8ByteLength t) (jsonCount v) (bounded depth v)) →
  jsonText (arr l) = Some t →
  costs (visitJsonValue (arr l) depth) (utf8ByteLength t) (jsonCount (arr l)) (bounded depth (arr l)).
Proof.
  intros Hdata IH Ht. rewrite jsonText_arr in Ht. destruct (mapM jsonText l) as [ts|] eqn:E; [|done].
  apply mapM_Some_1 in E. change (Some ([91] ++ joinWith (js ",") ts ++ [93]) = Some t) in Ht. injection Ht as <-.
  assert (Forall scalarText ts) as Hsc.
  { apply Forall_lookup. intros i u Hu. destruct (Forall2_lookup_r _ _ _ _ _ E Hu) as (v & Hv & Htv).
    eapply jsonText_scalar; [|exact Htv]. by eapply Hdata, list_elem_of_lookup_2. }
  assert (Z.of_nat (length l) <= foldr (λ v n, jsonCount v + n) 0 l) as Hlen.
  { clear -Hdata. induction l as [|v l IHl]; [done|]. cbn [length foldr]. pose proof (data_count_pos v (Hdata v ltac:(left))).
    specialize (IHl ltac:(intros; apply Hdata; by right)). lia. }
  unfold arr at 1. cbn [visitJsonValue]. fold (arr l). rewrite arr_toJSON.
  assert (costs (accountJsonBytes 2;; visitItems (λ v, visitJsonValue v (depth + 1)) true (map (λ v, Some (PData true v)) l))
    (2 + listBytes true ts) (0 + foldr (λ v n, jsonCount v + n) 0 l) (True ∧ Forall (bounded (depth + 1)) l)) as Hm.
  { apply costs_bind; [apply costs_account; lia|]. apply (costs_items _ _ (bounded (depth + 1))).
    - rewrite Forall2_same_length_lookup. split; [by eapply Forall2_length|]. intros i v u Hv Hu.
      apply IH; [by eapply list_elem_of_lookup_2|]. by eapply Forall2_lookup_lr in E.
    - apply Forall_forall. intros v Hv. by apply data_serializes, Hdata. }
  eapply costs_iff; [apply costs_node, costs_check; [exact (costs_bytes _ _ _ _ Hm)|exact (costs_nodes _ _ _ _ Hm)|intros _; exact Hm|]|..].
  - rewrite length_map. intros b Hlt%Z.ltb_lt [_ Hb] (_ & Hn & _). lia.
  - change (91 :: ?x ++ [93]) with ([91] ++ x ++ [93]).
    assert (∀ c, 0 <= c < 128 → scalarText [c]) as Hone by (intros; by apply scalarText_ascii, Forall_singleton).
    rewrite (utf8ByteLength_scalar [91]), utf8ByteLength_scalar, listBytes_join; [simpl; lia|done| |apply Hone; lia].
    apply joinWith_scalar; [by apply Hone|done].
  - rewrite jsonCount_arr. lia.
  - rewrite bounded_arr. tauto.
Qed.

Lemma object_costs l depth t :
  (∀ k v, (k, v) ∈ l → wf_units k ∧ jsonData v) →
  (∀ k v, (k, v) ∈ l → ∀ t depth, jsonText v = Some t → costs (visitJsonValue v depth) (utf8ByteLength t) (jsonCount v) (bounded depth v)) →
  jsonText (obj l) = Some t →
  costs (visitJsonValue (obj l) depth) (utf8ByteLength t) (jsonCount (obj l)) (bounded depth (obj l)).
Proof.
  intros Hdata IH Ht. rewrite jsonText_obj in Ht. destruct (mapM memberText l) as [ts|] eqn:E; [|done].
  apply mapM_Some_1 in E. change (Some ([123] ++ joinWith (js ",") ts ++ [125]) = Some t) in Ht. injection Ht as <-.
  assert (∀ c, 0 <= c < 128 → scalarText [c]) as Hone by (intros; by apply scalarText_ascii, Forall_singleton).
  assert (Forall2 (λ kv t, scalarText t ∧ ∃ tv, utf8ByteLength t = jsonStringBytes kv.1 + 1 + utf8ByteLength tv ∧
    costs (visitJsonValue kv.2 (depth + 1)) (utf8ByteLength tv) (jsonCount kv.2) (bounded (depth + 1) kv.2)) l ts) as Hts.
  { rewrite Forall2_same_length_lookup. split; [by eapply Forall2_length|]. intros i [k v] u Hv Hu.
    pose proof (Forall2_lookup_lr _ _ _ _ _ _ E Hv Hu) as Hm. unfold memberText in Hm. cbn [fst snd] in *.
    apply list_elem_of_lookup_2 in Hv. destruct (Hdata _ _ Hv) as [Hk Hvd].
    destruct (jsonText v) as [tv|] eqn:Ev; [|done]. apply (inj Some) in Hm as <-.
    assert (scalarText tv) by by eapply jsonText_scalar. split.
    - apply scalarText_app; [by apply jsonQuote_scalar|]. by apply (scalarText_app [58]); [apply Hone|].
    - exists tv. split; [|by eapply IH]. change (58 :: tv) with ([58] ++ tv).
      rewrite !utf8ByteLength_scalar by (by first [apply jsonQuote_scalar|apply Hone]). rewrite jsonQuote_bytes by done.
      change (utf8ByteLength [58]) with 1. lia. }
  destruct (literal_plain l) as [Hobj Hsym].
  unfold obj at 1. cbn [visitJsonValue]. fold (obj l). rewrite Hobj, Hsym. cbn [negb].
  assert (costs (accountJsonBytes 2;; visitMembers (λ v, visitJsonValue v (depth + 1)) true (map (λ kv, (KStr kv.1, PData true kv.2)) l))
    (2 + listBytes true ts) (0 + foldr (λ kv n, jsonCount kv.2 + n) 0 l) (True ∧ Forall (λ kv, bounded (depth + 1) kv.2) l)) as Hm.
  { apply costs_bind; [apply costs_account; lia|].
    apply (costs_members (λ v, visitJsonValue v (depth + 1)) jsonCount (bounded (depth + 1)) true l ts).
    - eapply Forall2_impl; [exact Hts|]. by intros ?? [_ ?].
    - apply Forall_forall. intros [k v] Hkv. destruct (Hdata _ _ Hkv). by apply data_serializes. }
  eapply costs_iff; [apply costs_node, (costs_check _ _ _ _ _ (hasOwnKey (obj l) (js "toJSON") = false ∧ Forall (λ kv, bounded (depth + 1) kv.2) l));
    [exact (costs_bytes _ _ _ _ Hm)|exact (costs_nodes _ _ _ _ Hm)|intros Hno|]|..].
  - eapply costs_iff; [exact Hm|done|done|tauto].
  - intros b Htrue _ (_ & _ & Hfalse & _). congruence.
  - change (123 :: ?x ++ [125]) with ([123] ++ x ++ [125]).
    rewrite (utf8ByteLength_scalar [123]), utf8ByteLength_scalar, listBytes_join; [simpl; lia|..|by apply Hone].
    + eapply Forall2_Forall_r; [exact Hts|]. apply Forall_forall. by intros ? ? ? [? _].
    + apply joinWith_scalar; [by apply Hone|]. eapply Forall2_Forall_r; [exact Hts|]. apply Forall_forall. by intros ? ? ? [? _].
  - rewrite jsonCount_obj. lia.
  - rewrite bounded_obj. tauto.
Qed.

(** The preflight of a value charges the bytes of its text. *)
Lemma data_costs v t depth :
  jsonData v → jsonText v = Some t → costs (visitJsonValue v depth) (utf8ByteLength t) (jsonCount v) (bounded depth v).
Proof.
  intros Hv. revert t depth. induction Hv as [|b|z Hz|s Hs|l Hl IH|l Hnd Hk Hl IH]; intros t depth Ht.
  - injection Ht as <-. eapply scalar_costs; [reflexivity|by apply costs_account|done..].
  - injection Ht as <-. eapply scalar_costs; [reflexivity|destruct b; by apply costs_account|done..].
  - injection Ht as <-. eapply scalar_costs; [reflexivity| |done..].
    rewrite utf8ByteLength_ascii by apply jsInt_ascii. apply costs_account. unfold jslen. lia.
  - apply (inj Some) in Ht as <-. eapply scalar_costs; [reflexivity| |done..]. rewrite jsonQuote_bytes by done. apply costs_string.
  - by apply array_costs.
  - apply object_costs; [|by intros; eapply IH|done]. intros k v Hkv. split; [by eapply Hk|by eapply Hl].
Qed.

(** ** Stringification after the preflight *)

Lemma stringify_text v t : jsonData v → jsonText v = Some t → stringifyPreflightedJsonValue v = Ok t.
Proof.
  intros Hv. revert t. induction Hv as [|b|z Hz|s Hs|l Hl IH|l Hnd Hk Hl IH]; intros t Ht.
  - by injection Ht as <-.
  - by injection Ht as <-.
  - by injection Ht as <-.
  - by apply (inj Some) in Ht as <-.
  - rewrite jsonText_arr in Ht. destruct (mapM jsonText l) as [ts|] eqn:E; [|done]. apply mapM_Some_1 in E.
    change (Some ([91] ++ joinWith (js ",") ts ++ [93]) = Some t) in Ht. apply (inj Some) in Ht as <-.
    unfold arr. cbn [stringifyPreflightedJsonValue].
    assert (stringifyItems stringifyPreflightedJsonValue (map (λ v, Some (PData true v)) l) = Ok ts) as ->; [|done].
    induction E as [|v u l ts Hvu _ IHl]; [done|]. cbn [map stringifyItems].
    destruct (data_serializes v (Hl v ltac:(left))) as [-> _]. rewrite (IH v ltac:(left) u Hvu). cbn [mbind result_bind].
    by rewrite IHl by (intros; (apply Hl || eapply IH); [by right|..]; done).
  - rewrite jsonText_obj in Ht. destruct (mapM memberText l) as [ts|] eqn:E; [|done]. apply mapM_Some_1 in E.
    change (Some ([123] ++ joinWith (js ",") ts ++ [125]) = Some t) in Ht. apply (inj Some) in Ht as <-.
    destruct (literal_plain l) as [Hobj Hsym]. unfold obj at 1. cbn [stringifyPreflightedJsonValue]. fold (obj l). rewrite Hobj, Hsym.
    cbn [negb orb].
    assert (stringifyMembers stringifyPreflightedJsonValue (map (λ kv, (KStr kv.1, PData true kv.2)) l) = Ok ts) as ->; [|done].
    clear Hnd Hk Hobj Hsym. induction E as [|[k v] u l ts Hvu _ IHl]; [done|]. cbn [map stringifyMembers fst snd].
    destruct (data_serializes v (Hl k v ltac:(left))) as [_ ->]. unfold memberText in Hvu. cbn [fst snd] in Hvu.
    destruct (jsonText v) as [tv|] eqn:Ev; [|done]. apply (inj Some) in Hvu as <-.
    rewrite (IH k v ltac:(left) tv Ev). cbn [mbind result_bind].
    by rewrite IHl by (intros; (eapply Hl || eapply IH); [by right|..]; done).
Qed.

Lemma jsonQuote_short s : wf_units s → utf8ByteLength (jsonQuote s) <= 2 + 6 * jslen s.
Proof.
  intros Hs. rewrite jsonQuote_bytes by done. unfold jsonStringBytes, jslen.
  assert (Z.of_nat (length (chars s)) <= Z.of_nat (length s)).
  { clear. induction s as [|c|c d r IH1 IH2] using jsstr_ind2; [done..|]. rewrite chars_cons2. case_match; simpl length in *; lia. }
  assert (foldr (λ char n, jsonCharBytes char + n) 0 (chars s) <= 6 * Z.of_nat (length (chars s))); [|lia].
  clear. induction (chars s) as [|c r IH]; [done|]. cbn [foldr length]. assert (jsonCharBytes c <= 6) by (unfold jsonCharBytes; repeat case_match; lia).
  lia.
Qed.

(** What can be sealed. *)
Definition sealable (v : jsval) (t : jsstr) : Prop :=
  utf8ByteLength t <= MAX_ENCRYPTED_JSON_PLAINTEXT_BYTES ∧ jsonCount v <= MAX_ENCRYPTED_JSON_NODES ∧ bounded 0 v.

Lemma preflight_spec v t :
  jsonData v → jsonText v = Some t → assertJsonValueWithinEncryptionBounds v = Ok () ↔ sealable v t.
Proof.
  intros Hv Ht. destruct (data_costs v t 0 Hv Ht) as [_ _ Hrun].
  specialize (Hrun {| remainingBytes := MAX_ENCRYPTED_JSON_PLAINTEXT_BYTES; remainingNodes := MAX_ENCRYPTED_JSON_NODES |}).
  unfold assertJsonValueWithinEncryptionBounds, sealable, wpe in *. destruct (visitJsonValue _ _ _) as [[] b|e b|].
  - destruct Hrun as [(E1 & E2 & Hw) HP]; [by split|]. unfold withinBudget in Hw. cbn [remainingBytes remainingNodes] in *.
    split; [|done]. intros _. split_and!; try lia; apply HP.
  - split; [done|]. intros Ha. exfalso. apply Hrun; [by split|exact Ha].
  - exfalso. apply Hrun. by split.
Qed.

Lemma utf8Encode_length s : wf_units s → byteLength (utf8Encode s) = utf8ByteLength s.
Proof. intros. symmetry. by apply utf8ByteLength_encode. Qed.

(** The first unit of a JSON text is ASCII. *)
Lemma jsonText_head v t : jsonData v → jsonText v = Some t → ∃ c r, t = c :: r ∧ 0 <= c < 128.
Proof.
  intros Hv Ht. destruct Hv as [|b|z Hz|s Hs|l Hl|l Hnd Hk Hl].
  - injection Ht as <-. eexists _, _. split; [done|by vm_compute].
  - injection Ht as <-. destruct b; (eexists _, _; split; [done|by vm_compute]).
  - injection Ht as <-. destruct (jsInt_head z) as (c & r & -> & Hc). eexists _, _. split; [done|lia].
  - injection Ht as <-. eexists _, _. split; [done|by vm_compute].
  - rewrite jsonText_arr in Ht. destruct (mapM jsonText l); [|done]. injection Ht as <-. eexists _, _. split; [done|by vm_compute].
  - rewrite jsonText_obj in Ht. destruct (mapM memberText l); [|done]. injection Ht as <-. eexists _, _. split; [done|by vm_compute].
Qed.

(** ** Sealing and opening *)

Section SealTheorems.
Context `{Crypto, JsNumbers}.

Lemma stringifyJsonValue_spec v t :
  jsonData v → jsonText v = Some t →
  (stringifyJsonValue v = Ok t ↔ sealable v t) ∧ ∀ t', stringifyJsonValue v = Ok t' → t' = t.
Proof.
  intros Hv Ht. unfold stringifyJsonValue. rewrite (stringify_text v t) by done.
  assert (byteLength (utf8Encode t) = utf8ByteLength t) as Hlen by (eapply utf8Encode_length, scalarText_wf, jsonText_scalar; done).
  setoid_rewrite unit_bind_ok. setoid_rewrite (preflight_spec v t Hv Ht). change (Ok t ≫= ?k) with (k t). cbv beta.
  setoid_rewrite check_bind_ok. rewrite Hlen, Z.leb_le. split; [|by intros t' (_ & _ & [= ->])].
  split; [by intros [? _]|]. intros Hs. split_and!; try done. apply Hs.
Qed.

(** The plaintext that is sealed, and its size. *)
Lemma sealed_size v t :
  jsonData v → jsonText v = Some t → bytesOf (utf8ByteLength t) (utf8Encode t).
Proof.
  intros Hv Ht. assert (wf_units t) as Hw by (eapply scalarText_wf, jsonText_scalar; done).
  split; [by apply utf8Encode_bytes|by apply utf8Encode_length].
Qed.

(** What [sealJson] makes of a value whose text is [t]. *)
Lemma sealJson_spec key v t aad nonce :
  jsonData v → jsonText v = Some t → bytesOf 12 nonce → encrypt ∈ usages key →
  (sealable v t → sealJson key v aad nonce = Ok (bytesToBase64 (nonce ++ aesGcmEncrypt (rawKey key) nonce aad (utf8Encode t)))) ∧
  (∀ s, sealJson key v aad nonce = Ok s →
    sealable v t ∧ s = bytesToBase64 (nonce ++ aesGcmEncrypt (rawKey key) nonce aad (utf8Encode t))).
Proof.
  intros Hv Ht [Hnb Hnl] Hk. destruct (stringifyJsonValue_spec v t Hv Ht) as [Hstr Huniq].
  destruct (sealed_size v t Hv Ht) as [Hpb Hpl]. unfold sealJson.
  destruct (aesGcm_size (rawKey key) nonce aad _ Hpb) as [Hcb Hcl].
  assert (Hgo : sealable v t →
    (check (base64EncodedLength (byteLength nonce + byteLength (utf8Encode t) + AES_GCM_TAG_BYTES) <=? ENCRYPTED_JSON_MAX_CHARS)
       "Encrypted payload is too large.";;
     ciphertext ← subtleEncrypt key nonce aad (utf8Encode t);
     check (jslen (bytesToBase64 (nonce ++ ciphertext)) <=? ENCRYPTED_JSON_MAX_CHARS) "Encrypted payload is too large.";;
     Ok (bytesToBase64 (nonce ++ ciphertext))) = Ok (bytesToBase64 (nonce ++ aesGcmEncrypt (rawKey key) nonce aad (utf8Encode t)))).
  { intros [Hmax _]. unfold subtleEncrypt. rewrite bool_decide_true by done. apply check_bind_ok. rewrite Z.leb_le. split.
    - unfold base64EncodedLength. rewrite Hnl, Hpl. unfold MAX_ENCRYPTED_JSON_PLAINTEXT_BYTES, ENCRYPTED_JSON_MAX_CHARS, AES_GCM_TAG_BYTES in *.
      change (196608 / 4 * 3 - 12 - 16) with 147428 in Hmax. Z.to_euclidean_division_equations. lia.
    - cbn [check mbind result_bind]. apply check_bind_ok. rewrite Z.leb_le. split; [|done].
      unfold bytesToBase64. rewrite base64Text_length. change (Z.of_nat (length ?l)) with (byteLength l).
      unfold byteLength in *. rewrite length_app, Nat2Z.inj_add, Hnl, Hcl, Hpl.
      unfold MAX_ENCRYPTED_JSON_PLAINTEXT_BYTES, ENCRYPTED_JSON_MAX_CHARS, AES_GCM_TAG_BYTES in *.
      change (192 * 1024 / 4 * 3 - 12 - 16) with 147428 in Hmax. Z.to_euclidean_division_equations. lia. }
  split.
  - intros Hs. rewrite (proj2 Hstr) by done. by apply Hgo.
  - intros s E. apply result_bind_ok in E as (t' & Et & E). pose proof (Huniq _ Et) as ->. apply Hstr in Et. split; [done|].
    rewrite (Hgo Et) in E. by apply (inj Ok) in E.
Qed.

Lemma sealJson_opens key key' v aad nonce s :
  jsonData v → bytesOf 12 nonce → rawKey key = rawKey key' → encrypt ∈ usages key → decrypt ∈ usages key' →
  sealJson key v aad nonce = Ok s → openJson key' (JStr s) aad = Ok v.
Proof.
  intros Hv Hn Hkk He Hd Hs. destruct (data_reads v Hv) as (t & Ht & _).
  destruct (sealJson_spec key v t aad nonce Hv Ht Hn He) as [Hdone Hinv]. destruct (Hinv s Hs) as [Hsealable ->]. clear Hinv.
  destruct (sealed_size v t Hv Ht) as [Hpb Hpl]. destruct (aesGcm_size (rawKey key) nonce aad _ Hpb) as [Hcb Hcl].
  destruct Hn as [Hnb Hnl]. set (c := aesGcmEncrypt _ _ _ _) in *.
  assert (byteLength (nonce ++ c) = 28 + utf8ByteLength t) as Hlen.
  { unfold byteLength in *. rewrite length_app, Nat2Z.inj_add. lia. }
  assert (jslen (bytesToBase64 (nonce ++ c)) <= ENCRYPTED_JSON_MAX_CHARS) as Hmax.
  { apply result_bind_ok in Hs as (? & _ & Hs). apply check_bind_ok in Hs as [_ Hs].
    apply result_bind_ok in Hs as (c' & _ & Hs). apply check_bind_ok in Hs as [Hl%Z.leb_le Hs]. apply (inj Ok) in Hs. by rewrite <-Hs. }
  unfold openJson. apply check_bind_ok. rewrite Z.leb_le. split; [done|].
  pose proof (utf8ByteLength_nonneg t). rewrite base64_decode_encode;
    [|by apply bytes_app|intros E; rewrite E in Hlen; unfold byteLength in Hlen; simpl in Hlen; lia|done].
  cbn [mbind result_bind]. apply check_bind_ok. rewrite Z.leb_le.
  destruct (jsonText_head v t Hv Ht) as (x & r & -> & Hx). split.
  { rewrite Hlen. pose proof (utf8ByteLength_ge_length (x :: r)). unfold jslen in *. simpl length in *. lia. }
  assert (take 12 (nonce ++ c) = nonce ∧ drop 12 (nonce ++ c) = c) as [-> ->].
  { assert (length nonce = 12%nat) as <- by (unfold byteLength in Hnl; lia). by rewrite take_app_length, drop_app_length. }
  unfold subtleDecrypt. rewrite bool_decide_true by done. unfold c. rewrite Hkk, aesGcm_roundtrip.
  rewrite utf8Decode_encode; [|done|by eapply jsonText_scalar]. cbn. by rewrite (parse_jsonText v (x :: r)).
Qed.

Lemma sealJson_size key v t aad nonce s :
  jsonData v → jsonText v = Some t → bytesOf 12 nonce → encrypt ∈ usages key → sealJson key v aad nonce = Ok s →
  jslen s = base64EncodedLength (28 + utf8ByteLength t) ∧ jslen s <= ENCRYPTED_JSON_MAX_CHARS.
Proof.
  intros Hv Ht Hn He Hs. destruct (sealJson_spec key v t aad nonce Hv Ht Hn He) as [_ Hinv]. destruct (Hinv s Hs) as [[Hmax _] ->].
  unfold bytesToBase64, base64EncodedLength. rewrite base64Text_length, length_app, Nat2Z.inj_add.
  destruct (sealed_size v t Hv Ht) as [Hpb Hpl]. destruct (aesGcm_size (rawKey key) nonce aad _ Hpb) as [_ Hcl].
  destruct Hn as [_ Hnl]. unfold byteLength in *. rewrite Hnl, Hcl, Hpl.
  replace (12 + (utf8ByteLength t + 16)) with (28 + utf8ByteLength t) by lia. split; [done|].
  unfold MAX_ENCRYPTED_JSON_PLAINTEXT_BYTES, ENCRYPTED_JSON_MAX_CHARS, AES_GCM_TAG_BYTES in *.
  change (192 * 1024 / 4 * 3 - 12 - 16) with 147428 in Hmax. Z.to_euclidean_division_equations. lia.
Qed.

(** Opening a sealed payload gives the sealed value back: same raw key, same additional data, a fresh nonce that
    travels in front of the ciphertext.  The value may be anything JSON can carry without loss. *)
Theorem sealJson_roundtrip key key' v aad nonce s :
  jsonData v → bytesOf 12 nonce → rawKey key = rawKey key' → encrypt ∈ usages key → decrypt ∈ usages key' →
  sealJson key v aad nonce = Ok s → openJson key' (JStr s) aad = Ok v.
Proof. apply sealJson_opens. Qed.

(** The preflight is exact: a value is sealed if and only if its text takes at most 147 428 bytes of UTF-8,
    it has at most 10 000 nodes and 32 levels, and no object with a [toJSON] property; the size checks behind the
    preflight never reject, and the sealed text has exactly the length of base64 of 28 bytes more than the text. *)
Theorem sealJson_succeeds_iff key v t aad nonce :
  jsonData v → jsonText v = Some t → bytesOf 12 nonce → encrypt ∈ usages key →
  ((∃ s, sealJson key v aad nonce = Ok s) ↔ sealable v t) ∧
  (∀ s, sealJson key v aad nonce = Ok s → jslen s = base64EncodedLength (28 + utf8ByteLength t) ∧ jslen s <= ENCRYPTED_JSON_MAX_CHARS).
Proof.
  intros Hv Ht Hn He. destruct (sealJson_spec key v t aad nonce Hv Ht Hn He) as [Hdone Hinv]. split.
  - split; [by intros (s & [? _]%Hinv)|]. intros Hs. eexists. by apply Hdone.
  - intros s Hs. by apply (sealJson_size key v t aad nonce).
Qed.

End SealTheorems.

(** ** A concrete payload *)

#[local] Existing Instances plainCrypto decimalNumbers.

Definition testKey : CryptoKey := importAesKey (zeros 32) [encrypt; decrypt].
Definition testValue : jsval := obj [(js "t", jstr "x"); (js "n", arr [jint 7; JNull])].

Lemma testValue_data : jsonData testValue.
Proof.
  apply jd_obj; [vm_compute; repeat constructor; set_solver| |];
    intros k v Hin; repeat (apply elem_of_cons in Hin as [[= -> ->] | Hin]); try (by inversion Hin).
  1-2: repeat (constructor; [vm_compute; split; discriminate|]); constructor.
  - constructor. repeat (constructor; [vm_compute; split; discriminate|]); constructor.
  - apply jd_arr. intros v Hv. repeat (apply elem_of_cons in Hv as [-> | Hv]); try (by inversion Hv); by constructor.
Qed.

Lemma sealJson_roundtrip_witness :
  let s := bytesToBase64 (zeros 12 ++ utf8Encode (default [] (jsonText testValue)) ++ zeros 16) in
  sealJson testKey testValue [] (zeros 12) = Ok s ∧ openJson testKey (JStr s) [] = Ok testValue.
Proof.
  intros s. assert (H : sealJson testKey testValue [] (zeros 12) = Ok s) by (vm_compute; reflexivity).
  split; [exact H|]. apply (sealJson_roundtrip testKey testKey testValue [] (zeros 12) s testValue_data).
  - apply zeros_size. lia.
  - reflexivity.
  - left.
  - right. left.
  - exact H.
Defined.

Lemma sealJson_succeeds_iff_witness :
  (∃ s, sealJson testKey testValue [] (zeros 12) = Ok s) ∧ sealable testValue (default [] (jsonText testValue)).
Proof.
  assert (H : ∃ s, sealJson testKey testValue [] (zeros 12) = Ok s) by (eexists; vm_compute; reflexivity).
  split; [exact H|]. apply (sealJson_succeeds_iff testKey testValue (default [] (jsonText testValue)) [] (zeros 12) testValue_data);
    [reflexivity|apply zeros_size; lia|left|exact H].
Defined.
