(* ===== verification/Pake.v ===== *)
(** * Pake: the password-authenticated key exchange and the session keys
    ([src/shared/security.ts]).

    Both sides start CPace from the receive code ([startPake]), exchange their
    shares ([parsePakeShareMessage]) and derive the keys of the session
    ([finishPake]).  An object that the code mutates is passed in and out: the
    state of the exchange is wiped whatever happens, and session keys are wiped
    when the session ends.  The theorems show that two honest sides end with
    keys that fit each other, and what is left after a wipe. *)
From S2P Require Import Prelude.
From S2P Require Import Constants.
From S2P Require Import JsText.
From S2P Require Import JsValue.
From S2P Require Import Json.
From S2P Require Import Base64.
From S2P Require Import Protocol.
From S2P Require Import Messages.
From S2P Require Import Bytes.
From S2P Require Import Crypto.
From S2P Require Import SealedJson.
#[local] Open Scope Z_scope.

Definition CPACE_CONTEXT_PREFIX : jsstr := js "p2p-transfer cpace".
Definition HKDF_CONTEXT_PREFIX : jsstr := js "p2p-transfer session keys".
Definition CPACE_SHARE_BYTES : Z := 32.
Definition CPACE_SHARE_BASE64_CHARS : Z := 44.
Definition AUTHENTICATION_KEY_BYTES : Z := 32.
Definition MAX_PAKE_MESSAGE_BYTES : Z := 4096.
Definition MAX_PAKE_CONTEXT_CHARS : Z := 256.
Definition MAX_PAKE_PROTOCOL_VERSION : Z := 255.

(** [PakeRole] *)
Abbreviation PakeRole := Role.
Definition roleText (role : PakeRole) : jsstr :=
  match role with sender => js "sender" | receiver => js "receiver" end.
Definition otherRole (role : PakeRole) : PakeRole :=
  match role with sender => receiver | receiver => sender end.

(** [PakeState] *)
Record PakeState := {
  ps_role : PakeRole;
  ps_sid : jsstr;
  ps_protocolVersion : Z;
  ephemeralSecret : binary;
  share : binary
}.

(** [SessionKeys]; a deleted property is [None] *)
Record SessionKeys := {
  sk_sid : jsstr;
  sk_role : PakeRole;
  sk_protocolVersion : Z;
  sas : jsstr;
  destroyed : bool;
  signalAuthKey : binary;
  manifestKey : option CryptoKey;
  controlSendKey : option CryptoKey;
  controlRecvKey : option CryptoKey;
  bulkSendKey : option CryptoKey;
  bulkRecvKey : option CryptoKey
}.

(** [ActiveAeadSessionKeys] *)
Record ActiveAeadSessionKeys := {
  ak_sid : jsstr;
  ak_manifestKey : CryptoKey;
  ak_controlSendKey : CryptoKey;
  ak_controlRecvKey : CryptoKey;
  ak_bulkSendKey : CryptoKey;
  ak_bulkRecvKey : CryptoKey
}.

(** ** Argument checks *)

(** [assertPakeSid] *)
Definition assertPakeSid (sid : jsstr) : result () :=
  check ((0 <? jslen sid) && (jslen sid <=? MAX_PAKE_CONTEXT_CHARS) && isSessionIdText sid) "PAKE session id is invalid.".

(** [assertPakeProtocolVersion] *)
Definition assertPakeProtocolVersion (protocolVersion : Z) : result () :=
  check ((1 <=? protocolVersion) && (protocolVersion <=? MAX_PAKE_PROTOCOL_VERSION)) "PAKE protocol version is invalid.".

(** [assertPakeCode] *)
Definition assertPakeCode (code : jsstr) : result () :=
  check ((0 <? jslen code) && (jslen code <=? MAX_PAKE_CONTEXT_CHARS) && negb (hasControlOrFormat code)) "PAKE code is invalid.".

(** [passwordBytes] *)
Definition passwordBytes (code : jsstr) : list Z := utf8Encode (js "p2p-transfer code v1:" ++ code).

(** [protocolContext] *)
Definition protocolContext (prefix : jsstr) (protocolVersion : Z) : result (list Z) :=
  assertPakeProtocolVersion protocolVersion;;
  Ok (utf8Encode (prefix ++ js " protocol " ++ jsInt protocolVersion)).

(** ** Wiping *)

(** [bytes.fill(0)] of [fillOwnBytes]; values that are not [Uint8Array]s stay *)
Definition fillBytes (b : binary) : binary :=
  match b with Uint8Array canonical data => Uint8Array canonical (map (λ _, 0) data) | _ => b end.

(** [wipePakeState] *)
Definition wipePakeState (state : PakeState) : PakeState :=
  {| ps_role := ps_role state; ps_sid := ps_sid state; ps_protocolVersion := ps_protocolVersion state;
     ephemeralSecret := fillBytes (ephemeralSecret state); share := fillBytes (share state) |}.

(** [wipeSessionKeys] *)
Definition wipeSessionKeys (keys : SessionKeys) : SessionKeys :=
  if destroyed keys then keys
  else {| sk_sid := sk_sid keys; sk_role := sk_role keys; sk_protocolVersion := sk_protocolVersion keys; sas := sas keys;
          destroyed := true; signalAuthKey := fillBytes (signalAuthKey keys);
          manifestKey := None; controlSendKey := None; controlRecvKey := None; bulkSendKey := None; bulkRecvKey := None |}.

(** ** Shares *)

Definition isUint8Array (b : binary) : bool := match b with Uint8Array _ _ => true | _ => false end.

(** [ownPakeShareB64] *)
Definition ownPakeShareB64 (state : PakeState) : result jsstr :=
  check (isUint8Array (share state)) "PAKE state is invalid.";;
  share ← canonicalUint8Array (share state) "Invalid binary payload.";
  Ok (bytesToBase64 share).

(** [{ t: "cpace-share", share }], the message that carries a share *)
Definition pakeShareMessage (share : jsstr) : jsval := obj [(js "t", jstr "cpace-share"); (js "share", JStr share)].

Section Pake.
Context `{JsNumbers}.

(** [parsePakeShareMessage] *)
Definition parsePakeShareMessage (data : jsstr) : result jsstr :=
  check (negb (jslen data =? 0) && negb (utf8ByteLengthExceeds data MAX_PAKE_MESSAGE_BYTES)) "Peer sent an invalid PAKE message.";;
  match jsonParse data with
  | None => throw "Peer sent an invalid PAKE message."
  | Some parsed =>
    check (isObject parsed && hasOnlyKeys parsed [js "t"; js "share"]) "Peer sent an invalid PAKE message.";;
    match field parsed "share" with
    | JStr shareValue =>
      check (isLit (field parsed "t") (js "cpace-share")) "Peer sent an invalid PAKE message.";;
      check (jslen shareValue =? CPACE_SHARE_BASE64_CHARS) "Peer sent an invalid PAKE share.";;
      match base64ToBytes shareValue with
      | Err _ => throw "Peer sent an invalid PAKE share."
      | Ok share =>
        check (byteLength share =? CPACE_SHARE_BYTES) "Peer sent an invalid PAKE share.";;
        Ok shareValue
      end
    | _ => throw "Peer sent an invalid PAKE message."
    end
  end.
End Pake.

(** ** The exchange *)

(** [PakeStateParts] *)
Record PakeStateParts := {
  pp_role : PakeRole;
  pp_sid : jsstr;
  pp_protocolVersion : Z;
  pp_ephemeralSecret : list Z;
  pp_share : list Z
}.

(** [readPakeState] *)
Definition readPakeState (state : PakeState) : result PakeStateParts :=
  assertPakeSid (ps_sid state);;
  assertPakeProtocolVersion (ps_protocolVersion state);;
  ephemeralSecret ← canonicalUint8Array (ephemeralSecret state) "PAKE state is invalid.";
  share ← canonicalUint8Array (share state) "PAKE state is invalid.";
  check ((byteLength ephemeralSecret =? CPACE_SHARE_BYTES) && (byteLength share =? CPACE_SHARE_BYTES)) "PAKE state is invalid.";;
  Ok {| pp_role := ps_role state; pp_sid := ps_sid state; pp_protocolVersion := ps_protocolVersion state;
        pp_ephemeralSecret := ephemeralSecret; pp_share := share |}.

(** The keys that [deriveRawKeys] returns. *)
Record RawKeys := {
  raw_signalAuthKey : list Z;
  raw_manifestKey : list Z;
  controlSenderToReceiver : list Z;
  controlReceiverToSender : list Z;
  bulkSenderToReceiver : list Z;
  bulkReceiverToSender : list Z;
  raw_sas : list Z
}.

(** [bytesToHex] of [@noble/hashes]: two lower-case digits for each byte *)
Definition bytesToHex (l : list Z) : jsstr := concat (map (λ b, [hexDigit (b / 16); hexDigit (b mod 16)]) l).

(** A digit that [bytesToHex] writes *)
Definition hexUnit (c : Z) : Prop := 48 <= c <= 57 ∨ 97 <= c <= 102.

Lemma bytesToHex_hex l : bytes l → Forall hexUnit (bytesToHex l).
Proof.
  unfold bytesToHex. induction 1 as [|b l Hb _ IH]; [constructor|]. cbn [map concat]. apply Forall_app. split; [|done].
  assert (∀ d, 0 <= d < 16 → hexUnit (hexDigit d)) as Hd by (intros d; unfold hexUnit, hexDigit; case_match; lia).
  constructor; [|constructor; [|constructor]]; apply Hd; Z.to_euclidean_division_equations; lia.
Qed.

Lemma bytesToHex_length l : length (bytesToHex l) = (2 * length l)%nat.
Proof. unfold bytesToHex. induction l as [|b l IH]; cbn [map concat app length]; [done|]. rewrite IH. lia. Qed.

(** [sasHex.match(/.{1,4}/g)?.join("-") ?? sasHex] *)
Fixpoint groupsOfFour (s : jsstr) : list jsstr :=
  match s with
  | a :: b :: c :: d :: r => [a; b; c; d] :: groupsOfFour r
  | [] => []
  | _ => [s]
  end.
Definition sasText (raw : list Z) : jsstr := joinWith (js "-") (groupsOfFour (slice 0 12 (bytesToHex raw))).

Section Exchange.
Context `{Crypto}.

(** [derive] *)
Definition derive (ikm salt : list Z) (info : string) (length : Z) : list Z := hkdfSha256 ikm salt (utf8Encode (js info)) length.

(** [deriveRawKeys] *)
Definition deriveRawKeys (isk : list Z) (sid : jsstr) (protocolVersion : Z) : result RawKeys :=
  context ← protocolContext HKDF_CONTEXT_PREFIX protocolVersion;
  let salt := concatBytes [context; utf8Encode sid] in
  Ok {| raw_signalAuthKey := derive isk salt "signal-auth" 32;
        raw_manifestKey := derive isk salt "manifest-aead" 32;
        controlSenderToReceiver := derive isk salt "control-aead sender-to-receiver" 32;
        controlReceiverToSender := derive isk salt "control-aead receiver-to-sender" 32;
        bulkSenderToReceiver := derive isk salt "bulk-aead sender-to-receiver" 32;
        bulkReceiverToSender := derive isk salt "bulk-aead receiver-to-sender" 32;
        raw_sas := derive isk salt "sas" 8 |}.

(** [startPake], at the [n]-th random scalar *)
Definition startPake (role : PakeRole) (code sid : jsstr) (protocolVersion : Z) (n : nat) : result PakeState :=
  assertPakeCode code;;
  assertPakeSid sid;;
  assertPakeProtocolVersion protocolVersion;;
  let password := passwordBytes code in
  CI ← protocolContext CPACE_CONTEXT_PREFIX protocolVersion;
  let started := cpaceInit password (utf8Encode sid) CI n in
  Ok {| ps_role := role; ps_sid := sid; ps_protocolVersion := protocolVersion;
        ephemeralSecret := bin started.1; share := bin started.2 |}.

(** The [try] block of [finishPake]. *)
Definition deriveSessionKeys (state : PakeState) (peerShareB64 : jsstr) : result SessionKeys :=
  parts ← readPakeState state;
  check (jslen peerShareB64 =? CPACE_SHARE_BASE64_CHARS) "Peer sent an invalid PAKE share.";;
  peerShare ← base64ToBytes peerShareB64;
  check (byteLength peerShare =? CPACE_SHARE_BYTES) "Peer sent an invalid PAKE share.";;
  let role := pp_role parts in
  isk ← cpaceDerive (bool_decide (role = sender)) (pp_ephemeralSecret parts) (pp_share parts) peerShare
    (utf8Encode (roleText role)) (utf8Encode (roleText (otherRole role))) (utf8Encode (pp_sid parts));
  raw ← deriveRawKeys isk (pp_sid parts) (pp_protocolVersion parts);
  let '(controlSend, controlRecv, bulkSend, bulkRecv) :=
    match role with
    | sender => (controlSenderToReceiver raw, controlReceiverToSender raw, bulkSenderToReceiver raw, bulkReceiverToSender raw)
    | receiver => (controlReceiverToSender raw, controlSenderToReceiver raw, bulkReceiverToSender raw, bulkSenderToReceiver raw)
    end in
  Ok {| sk_sid := pp_sid parts; sk_role := role; sk_protocolVersion := pp_protocolVersion parts;
        sas := sasText (raw_sas raw); destroyed := false; signalAuthKey := bin (raw_signalAuthKey raw);
        manifestKey := Some (importAesKey (raw_manifestKey raw) [match role with sender => encrypt | receiver => decrypt end]);
        controlSendKey := Some (importAesKey controlSend [encrypt]);
        controlRecvKey := Some (importAesKey controlRecv [decrypt]);
        bulkSendKey := Some (importAesKey bulkSend [encrypt]);
        bulkRecvKey := Some (importAesKey bulkRecv [decrypt]) |}.

(** [finishPake], with the state it leaves *)
Definition finishPake (state : PakeState) (peerShareB64 : jsstr) : result SessionKeys * PakeState :=
  (deriveSessionKeys state peerShareB64, wipePakeState state).

(** [activeSessionKeys] *)
Definition activeSessionKeys (keys : SessionKeys) : result ActiveAeadSessionKeys :=
  check (negb (destroyed keys)) "Session keys have been wiped.";;
  assertPakeSid (sk_sid keys);;
  match manifestKey keys, controlSendKey keys, controlRecvKey keys, bulkSendKey keys, bulkRecvKey keys with
  | Some m, Some cs, Some cr, Some bs, Some br =>
    Ok {| ak_sid := sk_sid keys; ak_manifestKey := m; ak_controlSendKey := cs; ak_controlRecvKey := cr;
          ak_bulkSendKey := bs; ak_bulkRecvKey := br |}
  | _, _, _, _, _ => throw "Session keys have been wiped."
  end.

End Exchange.

(** ** Lemmas *)

Lemma share_text l : bytesOf 32 l → jslen (bytesToBase64 l) = 44 ∧ base64ToBytes (bytesToBase64 l) = Ok l.
Proof.
  intros [Hb Hl]. assert (jslen (bytesToBase64 l) = 44) as H44.
  { unfold bytesToBase64. rewrite base64Text_length. change (Z.of_nat (length l)) with (byteLength l). by rewrite Hl. }
  split; [done|]. apply base64_decode_encode; [done|by intros ->|]. rewrite H44. by vm_compute.
Qed.

Lemma share_text_inv s l : base64ToBytes s = Ok l → byteLength l = 32 → bytesOf 32 l ∧ s = bytesToBase64 l.
Proof. intros E Hl. destruct (base64ToBytes_inv s l E) as (<- & Hb & _). by split. Qed.

Lemma pakeShareMessage_data s : wf_units s → jsonData (pakeShareMessage s).
Proof. intros Hs. unfold pakeShareMessage. json_obj. Qed.

(** The limits of an exchange, as [startPake] checks them. *)
Definition pakeSid (sid : jsstr) : Prop := 0 < jslen sid <= MAX_PAKE_CONTEXT_CHARS ∧ isSessionIdText sid = true.
Definition pakeVersion (v : Z) : Prop := 1 <= v <= MAX_PAKE_PROTOCOL_VERSION.
Definition pakeCode (code : jsstr) : Prop :=
  0 < jslen code <= MAX_PAKE_CONTEXT_CHARS ∧ hasControlOrFormat code = false.

Lemma assertPakeSid_ok sid : assertPakeSid sid = Ok () ↔ pakeSid sid.
Proof. unfold assertPakeSid, pakeSid. rewrite check_ok, !andb_true_iff, Z.ltb_lt, Z.leb_le. tauto. Qed.
Lemma assertPakeVersion_ok v : assertPakeProtocolVersion v = Ok () ↔ pakeVersion v.
Proof. unfold assertPakeProtocolVersion, pakeVersion. rewrite check_ok, !andb_true_iff, !Z.leb_le. tauto. Qed.
Lemma assertPakeCode_ok code : assertPakeCode code = Ok () ↔ pakeCode code.
Proof. unfold assertPakeCode, pakeCode. rewrite check_ok, !andb_true_iff, negb_true_iff, Z.ltb_lt, Z.leb_le. tauto. Qed.

Section ExchangeTheorems.
Context `{Crypto, JsNumbers}.

Lemma protocolContext_ok prefix v :
  pakeVersion v → protocolContext prefix v = Ok (utf8Encode (prefix ++ js " protocol " ++ jsInt v)).
Proof. intros Hv. unfold protocolContext. by rewrite (proj2 (assertPakeVersion_ok v)). Qed.

(** What [startPake] makes: the CPace state for the code, the session id and the version. *)
Definition cpaceState (code sid : jsstr) (v : Z) (n : nat) : list Z * list Z :=
  cpaceInit (passwordBytes code) (utf8Encode sid) (utf8Encode (CPACE_CONTEXT_PREFIX ++ js " protocol " ++ jsInt v)) n.
Definition startedState (role : PakeRole) (code sid : jsstr) (v : Z) (n : nat) : PakeState :=
  {| ps_role := role; ps_sid := sid; ps_protocolVersion := v;
     ephemeralSecret := bin (cpaceState code sid v n).1; share := bin (cpaceState code sid v n).2 |}.

Lemma startPake_spec role code sid v n state :
  startPake role code sid v n = Ok state ↔
  (pakeCode code ∧ pakeSid sid ∧ pakeVersion v) ∧ state = startedState role code sid v n.
Proof.
  unfold startPake. rewrite !unit_bind_ok, assertPakeCode_ok, assertPakeSid_ok, assertPakeVersion_ok. split.
  - intros (Hc & Hs & Hv & E). rewrite protocolContext_ok in E by done. apply (inj Ok) in E. by subst.
  - intros [(Hc & Hs & Hv) ->]. split_and!; try done. by rewrite protocolContext_ok.
Qed.

(** A key that encrypts and the one that decrypts what it encrypted. *)
Definition channel (out inn : option CryptoKey) : Prop :=
  ∃ k k', out = Some k ∧ inn = Some k' ∧ rawKey k = rawKey k' ∧ encrypt ∈ usages k ∧ decrypt ∈ usages k'.

(** The keys of the two sides of a session fit each other. *)
Record matching (s r : SessionKeys) : Prop := {
  m_sid : sk_sid s = sk_sid r;
  m_sid_ok : pakeSid (sk_sid s);
  m_roles : sk_role s = sender ∧ sk_role r = receiver;
  m_version : sk_protocolVersion s = sk_protocolVersion r;
  m_version_ok : pakeVersion (sk_protocolVersion s);
  m_sas : sas s = sas r;
  m_live : destroyed s = false ∧ destroyed r = false;
  m_auth : ∃ l, bytesOf 32 l ∧ signalAuthKey s = bin l ∧ signalAuthKey r = bin l;
  m_manifest : channel (manifestKey s) (manifestKey r);
  m_control : channel (controlSendKey s) (controlRecvKey r) ∧ channel (controlSendKey r) (controlRecvKey s);
  m_bulk : channel (bulkSendKey s) (bulkRecvKey r) ∧ channel (bulkSendKey r) (bulkRecvKey s)
}.

Definition wiped (b : binary) : Prop := ∀ c l, b = Uint8Array c l → Forall (λ x, x = 0) l.

Lemma fillBytes_wiped b : wiped (fillBytes b).
Proof. intros c l E. destruct b as [c' l'|c' l'|]; cbn in E; [|done..]. injection E as <- <-. by apply Forall_map, Forall_true. Qed.

(** The keys of a role from the shared secret. *)
Definition keysOf (role : PakeRole) (sid : jsstr) (v : Z) (raw : RawKeys) : SessionKeys :=
  let towards a b := match role with sender => a raw | receiver => b raw end in
  {| sk_sid := sid; sk_role := role; sk_protocolVersion := v; sas := sasText (raw_sas raw); destroyed := false;
     signalAuthKey := bin (raw_signalAuthKey raw);
     manifestKey := Some (importAesKey (raw_manifestKey raw) [match role with sender => encrypt | receiver => decrypt end]);
     controlSendKey := Some (importAesKey (towards controlSenderToReceiver controlReceiverToSender) [encrypt]);
     controlRecvKey := Some (importAesKey (towards controlReceiverToSender controlSenderToReceiver) [decrypt]);
     bulkSendKey := Some (importAesKey (towards bulkSenderToReceiver bulkReceiverToSender) [encrypt]);
     bulkRecvKey := Some (importAesKey (towards bulkReceiverToSender bulkSenderToReceiver) [decrypt]) |}.

Lemma deriveRawKeys_ok isk sid v :
  pakeVersion v → ∃ raw, deriveRawKeys isk sid v = Ok raw ∧ bytesOf 32 (raw_signalAuthKey raw).
Proof. intros Hv. unfold deriveRawKeys. rewrite protocolContext_ok by done. eexists. split; [done|]. by apply hkdf_size. Qed.

(** What a side derives from a share of 32 bytes: [cpaceDerive] decides. *)
Lemma deriveSessionKeys_started role code sid v n peer :
  pakeSid sid → pakeVersion v → bytesOf 32 peer →
  deriveSessionKeys (startedState role code sid v n) (bytesToBase64 peer) =
    isk ← cpaceDerive (bool_decide (role = sender)) (cpaceState code sid v n).1 (cpaceState code sid v n).2 peer
      (utf8Encode (roleText role)) (utf8Encode (roleText (otherRole role))) (utf8Encode sid);
    raw ← deriveRawKeys isk sid v;
    Ok (keysOf role sid v raw).
Proof.
  intros Hs Hv Hp. unfold deriveSessionKeys, readPakeState, startedState. cbn [ps_sid ps_protocolVersion ephemeralSecret share].
  rewrite (proj2 (assertPakeSid_ok sid)), (proj2 (assertPakeVersion_ok v)) by done.
  destruct (cpace_size (passwordBytes code) (utf8Encode sid)
    (utf8Encode (CPACE_CONTEXT_PREFIX ++ js " protocol " ++ jsInt v)) n) as [[_ H1] [_ H2]].
  destruct (share_text peer Hp) as [Hl Hd]. cbn [mbind result_bind canonicalUint8Array].
  unfold cpaceState. rewrite H1, H2, Hl. cbn -[cpaceDerive deriveRawKeys base64ToBytes]. rewrite Hd. destruct Hp as [_ Hp].
  cbn -[cpaceDerive deriveRawKeys]. rewrite Hp. cbn -[cpaceDerive deriveRawKeys]. by destruct role.
Qed.

Lemma ownPakeShareB64_started role code sid v n :
  ownPakeShareB64 (startedState role code sid v n) = Ok (bytesToBase64 (cpaceState code sid v n).2).
Proof. done. Qed.

Lemma cpaceState_share code sid v n : bytesOf 32 (cpaceState code sid v n).2.
Proof. apply cpace_size. Qed.

(** Both sides end with the keys of one secret. *)
Lemma session_derivation code sid v n m :
  pakeSid sid → pakeVersion v →
  ∃ raw, bytesOf 32 (raw_signalAuthKey raw) ∧
    deriveSessionKeys (startedState sender code sid v n) (bytesToBase64 (cpaceState code sid v m).2) = Ok (keysOf sender sid v raw) ∧
    deriveSessionKeys (startedState receiver code sid v m) (bytesToBase64 (cpaceState code sid v n).2) = Ok (keysOf receiver sid v raw).
Proof.
  intros Hs Hv. destruct (cpace_agree (passwordBytes code) (utf8Encode sid)
    (utf8Encode (CPACE_CONTEXT_PREFIX ++ js " protocol " ++ jsInt v)) n m (utf8Encode (js "sender")) (utf8Encode (js "receiver")))
    as (isk & HI & HR).
  destruct (deriveRawKeys_ok isk sid v Hv) as (raw & Hraw & Hsize). exists raw. split; [done|].
  rewrite !deriveSessionKeys_started by (done || apply cpaceState_share). unfold cpaceState.
  rewrite bool_decide_true by done. rewrite bool_decide_false by done. unfold roleText, otherRole. rewrite HI, HR.
  cbn [mbind result_bind]. by rewrite Hraw.
Qed.

Lemma keysOf_matching sid v raw :
  pakeSid sid → pakeVersion v → bytesOf 32 (raw_signalAuthKey raw) → matching (keysOf sender sid v raw) (keysOf receiver sid v raw).
Proof.
  intros Hs Hv Hk.
  assert (∀ k, channel (Some (importAesKey k [encrypt])) (Some (importAesKey k [decrypt]))) as Hc.
  { intros k. eexists _, _. split_and!; [done..|left|left]. }
  split; try done; [by exists (raw_signalAuthKey raw)|apply Hc|split; apply Hc|split; apply Hc].
Qed.

(** Live keys give their keys, destroyed ones nothing. *)
Lemma activeSessionKeys_ok keys ak :
  activeSessionKeys keys = Ok ak ↔
  destroyed keys = false ∧ pakeSid (sk_sid keys) ∧ ak_sid ak = sk_sid keys ∧
  manifestKey keys = Some (ak_manifestKey ak) ∧ controlSendKey keys = Some (ak_controlSendKey ak) ∧
  controlRecvKey keys = Some (ak_controlRecvKey ak) ∧ bulkSendKey keys = Some (ak_bulkSendKey ak) ∧
  bulkRecvKey keys = Some (ak_bulkRecvKey ak).
Proof.
  unfold activeSessionKeys. rewrite check_bind_ok, unit_bind_ok, assertPakeSid_ok, negb_true_iff. split.
  - intros (Hd & Hs & E). repeat case_match; try done. apply (inj Ok) in E. by subst.
  - intros (Hd & Hs & E1 & -> & -> & -> & -> & ->). split_and!; try done. destruct ak. cbn in *. by subst.
Qed.

Lemma destroyed_inactive keys : destroyed keys = true → activeSessionKeys keys = throw "Session keys have been wiped.".
Proof. intros Hd. unfold activeSessionKeys. by rewrite Hd. Qed.

Lemma wipeSessionKeys_destroyed keys : destroyed (wipeSessionKeys keys) = true.
Proof. unfold wipeSessionKeys. by destruct (destroyed keys) eqn:E. Qed.

(** Two sides that start from the same receive code, session id and version, each with its own random scalar, and
    exchange their shares, both finish; the session keys they get fit each other: the same short authentication string,
    version and signal key, and for the manifest and for each direction of the control and the bulk channel a key that one
    side may only encrypt with and the other may only decrypt with.  The exchange leaves both states wiped. *)
Theorem session_agreement code sid v n m s r :
  startPake sender code sid v n = Ok s → startPake receiver code sid v m = Ok r →
  ∃ shareS shareR ks kr,
    ownPakeShareB64 s = Ok shareS ∧ ownPakeShareB64 r = Ok shareR ∧
    finishPake s shareR = (Ok ks, wipePakeState s) ∧ finishPake r shareS = (Ok kr, wipePakeState r) ∧
    matching ks kr ∧ Forall wiped [ephemeralSecret (wipePakeState s); ephemeralSecret (wipePakeState r)].
Proof.
  intros [(Hc & Hs & Hv) ->]%startPake_spec [_ ->]%startPake_spec.
  destruct (session_derivation code sid v n m Hs Hv) as (raw & Hsize & E1 & E2).
  exists (bytesToBase64 (cpaceState code sid v n).2), (bytesToBase64 (cpaceState code sid v m).2), (keysOf sender sid v raw), (keysOf receiver sid v raw).
  unfold finishPake. rewrite E1, E2. split_and!; try apply ownPakeShareB64_started; try done; [by apply keysOf_matching|].
  repeat constructor; apply fillBytes_wiped.
Qed.

(** *** The message that carries a share *)

Lemma pakeShareMessage_text l t :
  bytesOf 32 l → jsonText (pakeShareMessage (bytesToBase64 l)) = Some t →
  0 < jslen t ∧ utf8ByteLengthExceeds t MAX_PAKE_MESSAGE_BYTES = false.
Proof.
  intros Hl Ht. set (pre := [123] ++ jsonQuote (js "t") ++ [58] ++ jsonQuote (js "cpace-share") ++ [44] ++ jsonQuote (js "share") ++ [58]).
  assert (t = pre ++ jsonQuote (bytesToBase64 l) ++ [125]) as ->.
  { unfold pakeShareMessage in Ht. rewrite jsonText_obj in Ht. apply (inj Some) in Ht as <-.
    unfold pre. cbn [joinWith fst snd]. by rewrite <-!app_assoc. }
  rewrite utf8ByteLengthExceeds_spec by done. destruct (share_text l Hl) as [H44 _].
  pose proof (utf8ByteLength_app_le pre (jsonQuote (bytesToBase64 l) ++ [125])).
  pose proof (utf8ByteLength_app_le (jsonQuote (bytesToBase64 l)) [125]).
  pose proof (jsonQuote_short (bytesToBase64 l) (base64_wf _ (proj1 Hl))).
  assert (utf8ByteLength pre = 27) by (vm_compute; reflexivity). assert (utf8ByteLength [125] = 1) by reflexivity.
  unfold MAX_PAKE_MESSAGE_BYTES. split; [unfold jslen, pre; rewrite !length_app; simpl; lia|]. apply Z.ltb_ge. lia.
Qed.

Lemma parsePakeShareMessage_message l t :
  bytesOf 32 l → jsonText (pakeShareMessage (bytesToBase64 l)) = Some t → parsePakeShareMessage t = Ok (bytesToBase64 l).
Proof.
  intros Hl Ht. destruct (pakeShareMessage_text l t Hl Ht) as [H70 Hex]. unfold parsePakeShareMessage.
  rewrite Hex, (proj2 (Z.eqb_neq _ 0)) by lia. cbn [negb andb check].
  rewrite (parse_jsonText (pakeShareMessage (bytesToBase64 l))) by (done || apply pakeShareMessage_data, base64_wf, Hl).
  destruct (share_text l Hl) as [H44 Hd]. destruct Hl as [_ Hl].
  change (field (pakeShareMessage ?s) "share") with (JStr s). cbv iota beta.
  rewrite H44, Hd. by rewrite Hl.
Qed.

(** The share message: a text that is accepted gives the base64 of exactly 32 bytes, and the message made for
    the share of any 32 bytes is accepted and gives that share. *)
Theorem parsePakeShareMessage_exact :
  (∀ data s, parsePakeShareMessage data = Ok s → ∃ l, bytesOf 32 l ∧ s = bytesToBase64 l) ∧
  (∀ l t, bytesOf 32 l → jsonText (pakeShareMessage (bytesToBase64 l)) = Some t → parsePakeShareMessage t = Ok (bytesToBase64 l)).
Proof.
  split.
  - intros data s E. unfold parsePakeShareMessage in E. apply check_bind_ok in E as [_ E].
    destruct (jsonParse data) as [v|]; [|done]. apply check_bind_ok in E as [_ E].
    destruct (field v "share") as [| | | |s'| | |]; try done. apply check_bind_ok in E as [_ E]. apply check_bind_ok in E as [_ E].
    destruct (base64ToBytes s') as [l|] eqn:El; [|done]. apply check_bind_ok in E as [Hl%Z.eqb_eq E].
    apply (inj Ok) in E as <-. exists l. by apply share_text_inv.
  - apply parsePakeShareMessage_message.
Qed.

End ExchangeTheorems.

(** ** A concrete session *)

#[local] Existing Instances plainCrypto decimalNumbers.

Definition testCode : jsstr := js "123456789012-apple-anchor".
Definition testSid : jsstr := js "crypto-self-check".

Lemma session_agreement_witness :
  let s := startedState sender testCode testSid PROTOCOL_VERSION 0 in
  let r := startedState receiver testCode testSid PROTOCOL_VERSION 1 in
  startPake sender testCode testSid PROTOCOL_VERSION 0 = Ok s ∧
  ∃ shareS shareR ks kr,
    ownPakeShareB64 s = Ok shareS ∧ ownPakeShareB64 r = Ok shareR ∧
    finishPake s shareR = (Ok ks, wipePakeState s) ∧ finishPake r shareS = (Ok kr, wipePakeState r) ∧
    matching ks kr ∧ Forall wiped [ephemeralSecret (wipePakeState s); ephemeralSecret (wipePakeState r)].
Proof.
  split; [vm_compute; reflexivity|]. apply (session_agreement testCode testSid PROTOCOL_VERSION 0 1); vm_compute; reflexivity.
Defined.

Definition testShareText : jsstr := default [] (jsonText (pakeShareMessage (bytesToBase64 (zeros 32)))).

Lemma parsePakeShareMessage_exact_witness :
  parsePakeShareMessage testShareText = Ok (bytesToBase64 (zeros 32)) ∧ is_ok (parsePakeShareMessage (js "{}")) = false.
Proof.
  split; [|reflexivity]. apply (proj2 parsePakeShareMessage_exact (zeros 32)); [apply zeros_size; lia|reflexivity].
Defined.
