(* ===== verification/Auth.v ===== *)
(** * Auth: authentication tags ([src/shared/security.ts]).

    A tag is the HMAC of a canonical JSON text: of the confirmation of a
    session, of a WebRTC signal, or of the decision about a pair request.  The
    theorems show that verification accepts exactly the tag of what it is
    given, and that the authenticated bytes determine the statement they
    authenticate, across the three kinds. *)
From S2P Require Import Prelude.
From S2P Require Import Constants.
From S2P Require Import JsText.
From S2P Require Import JsValue.
From S2P Require Import Json.
From S2P Require Import Base64.
From S2P Require Import Authority.
From S2P Require Import Protocol.
From S2P Require Import Messages.
From S2P Require Import Bytes.
From S2P Require Import Crypto.
From S2P Require Import Pake.
#[local] Open Scope Z_scope.

Definition HMAC_SHA256_BASE64_CHARS : Z := 44.
Definition MAX_AUTH_SDP_BYTES : Z := 128 * 1024.
Definition MAX_AUTH_CANDIDATE_BYTES : Z := 4096.
Definition MAX_AUTH_TOKEN_BYTES : Z := 256.
Definition PAIR_REJECT_REASON : jsstr := js "user_declined".

(** ** Checks *)

(** [isSafeTokenString]; unlike the one of messages.ts it counts bytes *)
Definition isSafeTokenString (v : jsval) (maxBytes : Z) : bool :=
  onString (λ s, (0 <? jslen s) && negb (utf8ByteLengthExceeds s maxBytes) && isSafeToken s) v.

(** [isIceCandidateInitForAuth] *)
Definition isIceCandidateInitForAuth (v : jsval) : bool :=
  if negb (isObject v) || negb (hasOnlyKeys v [js "candidate"; js "sdpMid"; js "sdpMLineIndex"; js "usernameFragment"])
  then false
  else
    let sdpMid := field v "sdpMid" in
    let sdpMLineIndex := field v "sdpMLineIndex" in
    let usernameFragment := field v "usernameFragment" in
    let hasSdpMid := negb (isNullish sdpMid) in
    let hasSdpMLineIndex := negb (isNullish sdpMLineIndex) in
    isSafeNonEmptyByteBoundedString (field v "candidate") MAX_AUTH_CANDIDATE_BYTES &&
    (hasSdpMid || hasSdpMLineIndex) &&
    (negb hasSdpMid || isSafeTokenString sdpMid MAX_AUTH_TOKEN_BYTES) &&
    (isNullish sdpMLineIndex || isIntegerIn 0 65535 sdpMLineIndex) &&
    (isNullish usernameFragment || isSafeTokenString usernameFragment MAX_AUTH_TOKEN_BYTES).

Definition isDescription (kind : jsval) : bool := isLit kind (js "offer") || isLit kind (js "answer").

(** What [assertSignalPayloadForAuth] and [assertSignalPayloadForVerify] share;
    the second allows the key [auth] as well. *)
Definition assertSignalPayload (extra : list jsstr) (signal : jsval) : result () :=
  check (isObject signal) "WebRTC signal auth payload is invalid.";;
  let kind := field signal "kind" in
  if isDescription kind then
    check (hasOnlyKeys signal ([js "kind"; js "sdp"] ++ extra) && isNonEmptyByteBoundedString (field signal "sdp") MAX_AUTH_SDP_BYTES)
      "WebRTC signal auth payload is invalid."
  else
    check (isLit kind (js "candidate") && hasOnlyKeys signal ([js "kind"; js "candidate"] ++ extra) &&
      isIceCandidateInitForAuth (field signal "candidate")) "WebRTC signal auth payload is invalid.".

(** [assertSignalPayloadForAuth] *)
Definition assertSignalPayloadForAuth (signal : jsval) : result () := assertSignalPayload [] signal.

(** [assertSignalPayloadForVerify] *)
Definition assertSignalPayloadForVerify (signal : jsval) : result () := assertSignalPayload [js "auth"] signal.

(** [signalPayloadForAuth] *)
Definition signalPayloadForAuth (signal : jsval) : result jsval :=
  assertSignalPayloadForVerify signal;;
  let kind := field signal "kind" in
  if isDescription kind then Ok (obj [(js "kind", kind); (js "sdp", field signal "sdp")])
  else Ok (obj [(js "kind", jstr "candidate"); (js "candidate", field signal "candidate")]).

(** ** Canonical texts *)

Definition definedField (name : string) (v : jsval) : list (jsstr * jsval) :=
  if isUndefined v then [] else [(js name, v)].

(** [canonicalCandidate] *)
Definition canonicalCandidate (candidate : jsval) : jsval :=
  obj ([(js "candidate", field candidate "candidate")] ++ definedField "sdpMid" (field candidate "sdpMid") ++
    definedField "sdpMLineIndex" (field candidate "sdpMLineIndex") ++
    definedField "usernameFragment" (field candidate "usernameFragment")).

(** The object of [canonicalSignalForAuth]. *)
Definition signalStatement (sid : jsstr) (fromRole : PakeRole) (signal : jsval) : jsval :=
  let kind := field signal "kind" in
  obj ([(js "v", jint 1); (js "t", jstr "signal-auth"); (js "sid", JStr sid); (js "fromRole", JStr (roleText fromRole))] ++
    (if isDescription kind then [(js "kind", kind); (js "sdp", field signal "sdp")]
     else [(js "kind", jstr "candidate"); (js "candidate", canonicalCandidate (field signal "candidate"))])).

(** [canonicalSignalForAuth] *)
Definition canonicalSignalForAuth (sid : jsstr) (fromRole : PakeRole) (signal : jsval) : result jsstr :=
  assertSignalPayloadForAuth signal;;
  Ok (jsonStringify (signalStatement sid fromRole signal)).

(** The text of [sessionConfirmTag]. *)
Definition confirmStatement (sid : jsstr) (fromRole : PakeRole) (protocolVersion : Z) : jsval :=
  obj [(js "v", jint 1); (js "t", jstr "session-confirm"); (js "protocolVersion", jint protocolVersion);
    (js "sid", JStr sid); (js "fromRole", JStr (roleText fromRole))].

Inductive PairDecision := accept | reject.
Definition decisionText (d : PairDecision) : jsstr := match d with accept => js "accept" | reject => js "reject" end.
#[export] Instance PairDecision_eq_dec : EqDecision PairDecision.
Proof. solve_decision. Defined.

Definition decisionStatement (sid : jsstr) (fromRole : PakeRole) (decision : PairDecision) (digest : list Z) (reason : option jsstr) : jsval :=
  obj [(js "v", jint 1); (js "t", jstr "pair-decision"); (js "sid", JStr sid); (js "fromRole", JStr (roleText fromRole));
    (js "decision", JStr (decisionText decision)); (js "sealedManifestSha256", JStr (bytesToHex digest));
    (js "reason", from_option JStr JNull reason)].

(** [authenticationKeyCopy] *)
Definition authenticationKeyCopy (key : binary) : result (list Z) :=
  key ← canonicalUint8Array key "Authentication key must be 32-byte binary.";
  check (byteLength key =? AUTHENTICATION_KEY_BYTES) "Authentication key must be 32-byte binary.";;
  Ok key.

Section Tags.
Context `{Crypto}.

(** [canonicalPairDecisionForAuth] *)
Definition canonicalPairDecisionForAuth (sid : jsstr) (fromRole : PakeRole) (decision : PairDecision)
    (sealedManifest : jsstr) (reason : option jsstr) : result jsstr :=
  assertPakeSid sid;;
  check (isNonEmptyByteBoundedString (JStr sealedManifest) ENCRYPTED_JSON_MAX_CHARS && isSafeToken sealedManifest)
    "Pair decision manifest is invalid.";;
  check (bool_decide (reason = match decision with accept => None | reject => Some PAIR_REJECT_REASON end))
    "Pair decision reason is invalid.";;
  Ok (jsonStringify (decisionStatement sid fromRole decision (sha256 (utf8Encode sealedManifest)) reason)).

(** [bytesToBase64(hmac(sha256, authKey, text.encode(...)))] *)
Definition tagOf (key : list Z) (text : jsstr) : jsstr := bytesToBase64 (hmacSha256 key (utf8Encode text)).

(** [signalAuthTag] *)
Definition signalAuthTag (key : binary) (sid : jsstr) (fromRole : PakeRole) (signal : jsval) : result jsstr :=
  authKey ← authenticationKeyCopy key;
  assertPakeSid sid;;
  text ← canonicalSignalForAuth sid fromRole signal;
  Ok (tagOf authKey text).

(** [sdpAuthTag] *)
Definition sdpAuthTag (key : binary) (sid : jsstr) (fromRole : PakeRole) (kind sdp : jsstr) : result jsstr :=
  signalAuthTag key sid fromRole (obj [(js "kind", JStr kind); (js "sdp", JStr sdp)]).

(** [sessionConfirmTag] *)
Definition sessionConfirmTag (key : binary) (sid : jsstr) (fromRole : PakeRole) (protocolVersion : Z) : result jsstr :=
  authKey ← authenticationKeyCopy key;
  assertPakeSid sid;;
  assertPakeProtocolVersion protocolVersion;;
  Ok (tagOf authKey (jsonStringify (confirmStatement sid fromRole protocolVersion))).

(** [pairDecisionAuthTag] *)
Definition pairDecisionAuthTag (key : binary) (sid : jsstr) (fromRole : PakeRole) (decision : PairDecision)
    (sealedManifest : jsstr) (reason : option jsstr) : result jsstr :=
  authKey ← authenticationKeyCopy key;
  text ← canonicalPairDecisionForAuth sid fromRole decision sealedManifest reason;
  Ok (tagOf authKey text).

(** ** Verification *)

(** The body the three verifications share: the expected tag is computed, both
    are decoded, and any error is a rejection. *)
Definition verifyTag (expected : result jsstr) (tag : jsval) : bool :=
  match tag with
  | JStr tag =>
    if negb (jslen tag =? HMAC_SHA256_BASE64_CHARS) then false
    else match (expected ← expected; expected ← base64ToBytes expected; actual ← base64ToBytes tag; Ok (timingSafeEqual expected actual)) with
    | Ok equal => equal
    | Err _ => false
    end
  | _ => false
  end.

(** [verifySignalAuthTag] *)
Definition verifySignalAuthTag (key : binary) (sid : jsstr) (fromRole : PakeRole) (signal : jsval) : bool :=
  verifyTag (payload ← signalPayloadForAuth signal; signalAuthTag key sid fromRole payload) (field signal "auth").

(** [verifySdpAuthTag] *)
Definition verifySdpAuthTag (key : binary) (sid : jsstr) (fromRole : PakeRole) (kind sdp : jsstr) (tag : option jsstr) : bool :=
  verifySignalAuthTag key sid fromRole (obj [(js "kind", JStr kind); (js "sdp", JStr sdp); (js "auth", JStr (default [] tag))]).

(** [verifySessionConfirmTag] *)
Definition verifySessionConfirmTag (key : binary) (sid : jsstr) (fromRole : PakeRole) (tag : jsval) (protocolVersion : Z) : bool :=
  verifyTag (sessionConfirmTag key sid fromRole protocolVersion) tag.

(** [verifyPairDecisionAuthTag] *)
Definition verifyPairDecisionAuthTag (key : binary) (sid : jsstr) (fromRole : PakeRole) (decision : PairDecision)
    (sealedManifest : jsstr) (reason : option jsstr) (tag : jsval) : bool :=
  verifyTag (pairDecisionAuthTag key sid fromRole decision sealedManifest reason) tag.

End Tags.

(** ** The two validators of a signal *)

Lemma safeToken_ascii s : isSafeToken s = true → Forall (λ c, 0 <= c < 128) s.
Proof.
  unfold isSafeToken. intros [_ Hall]%andb_true_iff. apply forallb_Forall in Hall. eapply Forall_impl; [exact Hall|].
  cbv beta. intros c. rewrite andb_true_iff, !Z.leb_le. lia.
Qed.

Lemma isSafeTokenString_agrees v n : 0 <= n → isSafeTokenString v n = Messages.isSafeTokenString v n.
Proof.
  intros Hn. unfold isSafeTokenString, Messages.isSafeTokenString. destruct v as [| | | |s| | |]; try done. cbn [onString].
  destruct (isSafeToken s) eqn:E; [|by rewrite !andb_false_r].
  rewrite utf8ByteLengthExceeds_spec, utf8ByteLength_ascii by (done || by apply safeToken_ascii). f_equal. f_equal.
  apply eq_true_iff_eq. rewrite negb_true_iff, Z.ltb_ge, Z.leb_le. done.
Qed.

Lemma isIceCandidate_agrees v : isIceCandidateInitForAuth v = isIceCandidateInit v.
Proof.
  unfold isIceCandidateInitForAuth, isIceCandidateInit. rewrite !isSafeTokenString_agrees by done.
  rewrite <-negb_andb, if_negb, andb_lazy_alt. by rewrite negb_involutive.
Qed.

(** A signal that authentication accepts for verification and whose tag is the base64 text of 32 bytes is
    exactly a signal that the validator of messages.ts accepts: the two independent copies of the rules agree. *)
Theorem signal_validators_agree signal :
  isSignalPayload signal = true ↔ assertSignalPayloadForVerify signal = Ok () ∧ isMac (field signal "auth") = true.
Proof.
  unfold isSignalPayload, assertSignalPayloadForVerify, assertSignalPayload. rewrite check_bind_ok, isIceCandidate_agrees.
  unfold isDescription. destruct (isLit (field signal "kind") (js "offer") || isLit (field signal "kind") (js "answer"));
    rewrite check_ok; unfold MAX_AUTH_SDP_BYTES, MAX_SDP_BYTES; cbn [app]; rewrite !andb_true_iff; tauto.
Qed.

(** ** Tags *)

Section TagTheorems.
Context `{Crypto}.

Lemma tagOf_text key text : jslen (tagOf key text) = 44 ∧ base64ToBytes (tagOf key text) = Ok (hmacSha256 key (utf8Encode text)).
Proof. apply share_text, hmac_size. Qed.

(** A tag that is some [tagOf] is verified by itself only. *)
Lemma verifyTag_spec (expected : result jsstr) tag :
  (∀ e, expected = Ok e → ∃ key text, e = tagOf key text) →
  verifyTag expected tag = true ↔ ∃ e, expected = Ok e ∧ tag = JStr e.
Proof.
  intros Hexp. unfold verifyTag. destruct tag as [| | | |s| | |]; try (split; [done|]; by intros (? & _ & ?)).
  unfold HMAC_SHA256_BASE64_CHARS. destruct expected as [e|m].
  - destruct (Hexp e eq_refl) as (key & text & ->). destruct (tagOf_text key text) as [H44 Hd].
    cbn [mbind result_bind]. rewrite Hd. split.
    + destruct (jslen s =? 44); [|done]. cbn [negb]. destruct (base64ToBytes s) as [l|] eqn:E; [|done].
      cbn [mbind result_bind]. intros Heq%timingSafeEqual_spec. exists (tagOf key text). split; [done|].
      f_equal. unfold tagOf. rewrite Heq. symmetry. by apply base64ToBytes_inv.
    + intros (e & Ee & [= ->]). apply (inj Ok) in Ee as <-. rewrite H44, Hd. cbn. by apply timingSafeEqual_spec.
  - split; [|by intros (? & ? & _)]. by destruct (negb _).
Qed.

Lemma signalAuthTag_ok key sid fromRole signal tag :
  signalAuthTag key sid fromRole signal = Ok tag ↔
  ∃ k text, authenticationKeyCopy key = Ok k ∧ assertPakeSid sid = Ok () ∧
    canonicalSignalForAuth sid fromRole signal = Ok text ∧ tag = tagOf k text.
Proof.
  unfold signalAuthTag. split.
  - intros (k & Hk & (Hs & (text & Ht & E)%result_bind_ok)%unit_bind_ok)%result_bind_ok. apply (inj Ok) in E. eauto 10.
  - intros (k & text & -> & Hs & Ht & ->). cbn [mbind result_bind]. by rewrite Hs, Ht.
Qed.

Lemma sessionConfirmTag_ok key sid fromRole v tag :
  sessionConfirmTag key sid fromRole v = Ok tag ↔
  ∃ k, authenticationKeyCopy key = Ok k ∧ assertPakeSid sid = Ok () ∧ assertPakeProtocolVersion v = Ok () ∧
    tag = tagOf k (jsonStringify (confirmStatement sid fromRole v)).
Proof.
  unfold sessionConfirmTag. split.
  - intros (k & Hk & (Hs & (Hv & E)%unit_bind_ok)%unit_bind_ok)%result_bind_ok. apply (inj Ok) in E. eauto 10.
  - intros (k & -> & Hs & Hv & ->). cbn [mbind result_bind]. by rewrite Hs, Hv.
Qed.

Lemma pairDecisionAuthTag_ok key sid fromRole d m reason tag :
  pairDecisionAuthTag key sid fromRole d m reason = Ok tag ↔
  ∃ k text, authenticationKeyCopy key = Ok k ∧ canonicalPairDecisionForAuth sid fromRole d m reason = Ok text ∧ tag = tagOf k text.
Proof.
  unfold pairDecisionAuthTag. split.
  - intros (k & Hk & (text & Ht & E)%result_bind_ok)%result_bind_ok. apply (inj Ok) in E. eauto 10.
  - intros (k & text & -> & Ht & ->). cbn [mbind result_bind]. by rewrite Ht.
Qed.

Lemma verifySignalAuthTag_spec key sid fromRole signal :
  verifySignalAuthTag key sid fromRole signal = true ↔
  ∃ payload tag, signalPayloadForAuth signal = Ok payload ∧ signalAuthTag key sid fromRole payload = Ok tag ∧ field signal "auth" = JStr tag.
Proof.
  unfold verifySignalAuthTag. rewrite verifyTag_spec.
  - split; [intros (t & (p & Hp & Ht)%result_bind_ok & Ha); eauto|]. intros (p & t & Hp & Ht & Ha). exists t. by rewrite Hp.
  - intros e (p & _ & (k & text & _ & _ & _ & ->)%signalAuthTag_ok)%result_bind_ok. eauto.
Qed.

Lemma verifyPairDecision_spec key sid fromRole d m reason tag :
  verifyPairDecisionAuthTag key sid fromRole d m reason tag = true ↔ ∃ t, pairDecisionAuthTag key sid fromRole d m reason = Ok t ∧ tag = JStr t.
Proof. apply verifyTag_spec. intros e (k & text & _ & _ & ->)%pairDecisionAuthTag_ok. eauto. Qed.

Lemma tags_verify_exactly key sid fromRole :
  (∀ signal, verifySignalAuthTag key sid fromRole signal = true ↔
    ∃ payload tag, signalPayloadForAuth signal = Ok payload ∧ signalAuthTag key sid fromRole payload = Ok tag ∧
      field signal "auth" = JStr tag) ∧
  (∀ tag v, verifySessionConfirmTag key sid fromRole tag v = true ↔
    ∃ t, sessionConfirmTag key sid fromRole v = Ok t ∧ tag = JStr t) ∧
  (∀ d m reason tag, verifyPairDecisionAuthTag key sid fromRole d m reason tag = true ↔
    ∃ t, pairDecisionAuthTag key sid fromRole d m reason = Ok t ∧ tag = JStr t).
Proof.
  split_and!.
  - apply verifySignalAuthTag_spec.
  - intros tag v. apply verifyTag_spec. intros e (k & _ & _ & _ & ->)%sessionConfirmTag_ok. eauto.
  - apply verifyPairDecision_spec.
Qed.

(** ** What is authenticated *)

(** A statement that a tag can be made for. *)
Inductive statement :=
| Signal (sid : jsstr) (fromRole : PakeRole) (signal : jsval)
| Confirm (sid : jsstr) (fromRole : PakeRole) (protocolVersion : Z)
| Decision (sid : jsstr) (fromRole : PakeRole) (decision : PairDecision) (sealedManifest : jsstr) (reason : option jsstr).

Definition statementTag (key : binary) (s : statement) : result jsstr :=
  match s with
  | Signal sid fromRole signal => signalAuthTag key sid fromRole signal
  | Confirm sid fromRole v => sessionConfirmTag key sid fromRole v
  | Decision sid fromRole d m reason => pairDecisionAuthTag key sid fromRole d m reason
  end.

(** Two statements say the same; a manifest counts by its digest, a candidate by the fields that are sent. *)
Definition same (s s' : statement) : Prop :=
  match s, s' with
  | Signal sid r p, Signal sid' r' p' =>
    sid = sid' ∧ r = r' ∧ field p "kind" = field p' "kind" ∧
    (if isDescription (field p "kind") then field p "sdp" = field p' "sdp"
     else canonicalCandidate (field p "candidate") = canonicalCandidate (field p' "candidate"))
  | Confirm sid r v, Confirm sid' r' v' => sid = sid' ∧ r = r' ∧ v = v'
  | Decision sid r d m reason, Decision sid' r' d' m' reason' =>
    sid = sid' ∧ r = r' ∧ d = d' ∧ reason = reason' ∧ sha256 (utf8Encode m) = sha256 (utf8Encode m')
  | _, _ => False
  end.

(** The signal of a statement is JSON data. *)
Definition plainStatement (s : statement) : Prop := match s with Signal _ _ p => jsonData p | _ => True end.

(** The object whose text is authenticated. *)
Definition statementValue (s : statement) : jsval :=
  match s with
  | Signal sid r p => signalStatement sid r p
  | Confirm sid r v => confirmStatement sid r v
  | Decision sid r d m reason => decisionStatement sid r d (sha256 (utf8Encode m)) reason
  end.

(** The bytes whose HMAC is the tag. *)
Definition macInput (s : statement) : list Z := utf8Encode (jsonStringify (statementValue s)).

Lemma sessionId_wf sid : isSessionIdText sid = true → wf_units sid.
Proof.
  unfold isSessionIdText. intros [_ Hall]%andb_true_iff. apply forallb_Forall in Hall. eapply Forall_impl; [exact Hall|].
  cbv beta. unfold isAlpha, isLower, isUpper, isDigit. intros c. rewrite !orb_true_iff, !andb_true_iff, !Z.leb_le, !Z.eqb_eq. lia.
Qed.

Lemma roleText_wf r : wf_units (roleText r).
Proof. destruct r; apply wf_js. Qed.

Lemma onString_data f v : jsonData v → onString f v = true → ∃ s, v = JStr s ∧ wf_units s.
Proof. intros Hv Hf. destruct Hv; try done. eauto. Qed.

(** A signal that can be authenticated is a description with a text, or a candidate. *)
Lemma authSignal_cases p :
  assertSignalPayloadForAuth p = Ok () →
  isObject p = true ∧
  ((∃ k, field p "kind" = JStr k ∧ (k = js "offer" ∨ k = js "answer") ∧ isDescription (JStr k) = true ∧ onString (λ _, true) (field p "sdp") = true) ∨
   (field p "kind" = jstr "candidate" ∧ isDescription (jstr "candidate") = false ∧ isIceCandidateInitForAuth (field p "candidate") = true)).
Proof.
  unfold assertSignalPayloadForAuth, assertSignalPayload. intros [Ho E]%check_bind_ok. split; [done|].
  destruct (isDescription (field p "kind")) eqn:Hk; apply check_ok in E.
  - left. unfold isDescription in Hk. apply andb_true_iff in E as [_ E]. rewrite isNonEmptyByteBounded_spec in E.
    destruct E as (t & -> & _). apply orb_true_iff in Hk as [Hk|Hk]; apply isLit_spec in Hk; eauto 10.
  - right. rewrite !andb_true_iff, isLit_spec in E. naive_solver.
Qed.

Lemma definedField_data name (v : jsval) :
  v = JUndefined ∨ jsonData v → Forall (λ kv, wf_units kv.1 ∧ jsonData kv.2) (definedField name v).
Proof.
  intros Hv. unfold definedField. destruct (isUndefined v) eqn:E; [constructor|].
  apply Forall_singleton. split; [apply wf_js|]. by destruct Hv as [-> |?].
Qed.

Lemma canonicalCandidate_data c : jsonData c → isIceCandidateInitForAuth c = true → jsonData (canonicalCandidate c).
Proof.
  intros Hc E. unfold isIceCandidateInitForAuth in E. destruct (_ || _) eqn:Ho in E; [done|].
  apply orb_false_iff in Ho as [Ho%negb_false_iff _]. rewrite !andb_true_iff in E. destruct E as [[[[E _] _] _] _].
  unfold canonicalCandidate. apply jsonData_obj.
  - unfold definedField. destruct (isUndefined _), (isUndefined _), (isUndefined _);
      cbn [app fmap list_fmap fst]; apply (bool_decide_unpack _); vm_compute; exact I.
  - rewrite !Forall_app. split_and!; try (by apply definedField_data, data_field). constructor; [|constructor].
    split; [apply wf_js|]. destruct (data_field c (js "candidate") Hc Ho) as [E'|?]; [|done].
    cbn [snd]. unfold field in *. by rewrite E' in E.
Qed.

Lemma head_fields sid r t l :
  wf_units sid → NoDup ([js "v"; js "t"; js "sid"; js "fromRole"] ++ l.*1) → Forall (λ kv, wf_units kv.1 ∧ jsonData kv.2) l →
  jsonData (obj ([(js "v", jint 1); (js "t", jstr t); (js "sid", JStr sid); (js "fromRole", JStr (roleText r))] ++ l)).
Proof.
  intros Hs Hnd Hl. apply jsonData_obj; [by rewrite fmap_app|]. apply Forall_app. split; [|done].
  json_members; try apply jd_str; try apply wf_js; [by apply jd_int|done|apply roleText_wf].
Qed.

Lemma signalStatement_data sid r p :
  pakeSid sid → jsonData p → assertSignalPayloadForAuth p = Ok () → jsonData (signalStatement sid r p).
Proof.
  intros [_ Hs%sessionId_wf] Hp (Ho & [(k & Hk & Hkk & Hd & Hsdp)|(Hk & Hd & Hc)])%authSignal_cases;
    unfold signalStatement; rewrite Hk, Hd; (apply head_fields; [done|apply (bool_decide_unpack _); vm_compute; exact I|]).
  - destruct (data_field p (js "sdp") Hp Ho) as [E|Hdata]; [unfold field in Hsdp; by rewrite E in Hsdp|].
    json_members; [|exact Hdata]. apply jd_str. destruct Hkk as [-> | ->]; apply wf_js.
  - destruct (data_field p (js "candidate") Hp Ho) as [E|Hdata]; [unfold field in Hc; by rewrite E in Hc|].
    json_members; [apply jd_str, wf_js|by apply canonicalCandidate_data].
Qed.

Lemma confirmStatement_data sid r v : pakeSid sid → pakeVersion v → jsonData (confirmStatement sid r v).
Proof.
  intros [_ Hs%sessionId_wf] Hv. pose proof (roleText_wf r). unfold confirmStatement. json_obj; apply jd_int; [done|].
  unfold pakeVersion, MAX_PAKE_PROTOCOL_VERSION in Hv. apply andb_true_iff. rewrite !Z.leb_le. unfold MAX_SAFE_INTEGER. lia.
Qed.

Lemma bytesToHex_wf l : bytes l → wf_units (bytesToHex l).
Proof.
  unfold bytesToHex. induction 1 as [|b l Hb _ IH]; [constructor|]. cbn [map concat]. apply Forall_app. split; [|done].
  assert (∀ d, 0 <= d < 16 → 0 <= hexDigit d <= 65535) as Hd by (intros d; unfold hexDigit; case_match; lia).
  repeat constructor; apply Hd; Z.to_euclidean_division_equations; lia.
Qed.

Lemma hexDigit_inj d e : 0 <= d < 16 → 0 <= e < 16 → hexDigit d = hexDigit e → d = e.
Proof. intros Hd He E. pose proof (hexValue_hexDigit d Hd) as H1. pose proof (hexValue_hexDigit e He) as H2. congruence. Qed.

Lemma bytesToHex_inj l l' : bytes l → bytes l' → bytesToHex l = bytesToHex l' → l = l'.
Proof.
  intros Hl. revert l'. induction Hl as [|b l Hb _ IH]; intros l' Hl'; destruct Hl' as [|b' l' Hb' Hl']; try done.
  unfold bytesToHex. cbn [map concat app]. intros E. injection E as E1%hexDigit_inj E2%hexDigit_inj E3;
    [|Z.to_euclidean_division_equations; lia..]. f_equal; [Z.to_euclidean_division_equations; lia|by apply IH].
Qed.

Lemma decisionStatement_data sid r d digest reason :
  pakeSid sid → bytes digest → (reason = None ∨ reason = Some PAIR_REJECT_REASON) → jsonData (decisionStatement sid r d digest reason).
Proof.
  intros [_ Hs%sessionId_wf] Hb Hr. pose proof (roleText_wf r). pose proof (bytesToHex_wf _ Hb).
  assert (wf_units (decisionText d)) by (destruct d; apply wf_js). unfold decisionStatement. json_obj; [by apply jd_int|].
  destruct Hr as [-> | ->]; [constructor|apply jd_str, wf_js].
Qed.

(** What a tag was made of. *)
Lemma statementTag_input key s tag :
  statementTag key s = Ok tag → ∃ k, authenticationKeyCopy key = Ok k ∧ tag = bytesToBase64 (hmacSha256 k (macInput s)).
Proof.
  destruct s as [sid r p|sid r v|sid r d m reason]; cbn [statementTag].
  - intros (k & text & Hk & _ & Ht & ->)%signalAuthTag_ok. exists k. split; [done|]. apply unit_bind_ok in Ht as [_ Ht].
    by apply (inj Ok) in Ht as <-.
  - intros (k & Hk & _ & _ & ->)%sessionConfirmTag_ok. by exists k.
  - intros (k & text & Hk & Ht & ->)%pairDecisionAuthTag_ok. exists k. split; [done|]. apply unit_bind_ok in Ht as [_ Ht].
    apply check_bind_ok in Ht as [_ Ht]. apply check_bind_ok in Ht as [_ Ht]. by apply (inj Ok) in Ht as <-.
Qed.

Lemma statementTag_data key s tag : plainStatement s → statementTag key s = Ok tag → jsonData (statementValue s).
Proof.
  destruct s as [sid r p|sid r v|sid r d m reason]; cbn [statementTag plainStatement statementValue]; intros Hp.
  - intros (k & text & _ & Hs%assertPakeSid_ok & [Ha _]%unit_bind_ok & _)%signalAuthTag_ok. by apply signalStatement_data.
  - intros (k & _ & Hs%assertPakeSid_ok & Hv%assertPakeVersion_ok & _)%sessionConfirmTag_ok. by apply confirmStatement_data.
  - intros (k & text & _ & Ht & _)%pairDecisionAuthTag_ok. apply unit_bind_ok in Ht as [Hs%assertPakeSid_ok Ht].
    apply check_bind_ok in Ht as [_ Ht]. apply check_bind_ok in Ht as [->%bool_decide_eq_true _].
    apply decisionStatement_data; [done|apply sha256_size|destruct d; auto].
Qed.

Lemma roleText_inj r r' : roleText r = roleText r' → r = r'.
Proof. by destruct r, r'. Qed.

(** The objects of two signals are equal when the signals say the same. *)
Lemma signalStatement_inj sid r p sid' r' p' :
  assertSignalPayloadForAuth p = Ok () → assertSignalPayloadForAuth p' = Ok () →
  signalStatement sid r p = signalStatement sid' r' p' → same (Signal sid r p) (Signal sid' r' p').
Proof.
  intros Ha Ha' E. apply obj_inj in E. cbn [app] in E. injection E as -> Hr%roleText_inj E. cbn [same].
  split; [done|]. split; [done|].
  apply authSignal_cases in Ha as [_ [(k & Hk & Hkk & Hd & _)|(Hk & Hd & _)]];
    apply authSignal_cases in Ha' as [_ [(k' & Hk' & Hkk' & Hd' & _)|(Hk' & Hd' & _)]];
    rewrite Hk, Hk' in E |- *; rewrite ?Hd, ?Hd' in E; rewrite ?Hd, ?Hd'; try done.
  - injection E as -> E. by rewrite E.
  - split; [done|]. revert E. generalize (canonicalCandidate (field p "candidate")), (canonicalCandidate (field p' "candidate")). congruence.
Qed.

Lemma statementValue_same key key' s s' tag tag' :
  statementTag key s = Ok tag → statementTag key' s' = Ok tag' → statementValue s = statementValue s' → same s s'.
Proof.
  intros H1 H2 E.
  destruct s as [sid r p|sid r v|sid r d m reason], s' as [sid' r' p'|sid' r' v'|sid' r' d' m' reason'];
    cbn [statementValue] in E; try (apply obj_inj in E; discriminate E).
  - apply signalAuthTag_ok in H1 as (? & ? & _ & _ & [Ha _]%unit_bind_ok & _).
    apply signalAuthTag_ok in H2 as (? & ? & _ & _ & [Ha' _]%unit_bind_ok & _). by apply signalStatement_inj.
  - apply obj_inj in E. injection E as -> -> Hr%roleText_inj. by split_and!.
  - apply obj_inj in E. injection E as -> Hr%roleText_inj Hd Hm%bytesToHex_inj Hreason; [|apply sha256_size..].
    split_and!; try done; [by destruct d, d'|]. destruct reason, reason'; cbn in Hreason; congruence.
Qed.

(** What a tag says *)
Lemma mac_input_injective key key' s s' tag tag' :
  plainStatement s → plainStatement s' → statementTag key s = Ok tag → statementTag key' s' = Ok tag' →
  (∃ k, authenticationKeyCopy key = Ok k ∧ tag = bytesToBase64 (hmacSha256 k (macInput s))) ∧
  (macInput s = macInput s' → same s s').
Proof.
  intros Hp Hp' Ht Ht'. split; [by apply statementTag_input|]. intros E%jsonStringify_inj.
  - by eapply statementValue_same.
  - by eapply statementTag_data.
  - by eapply statementTag_data.
Qed.

(** C36. Verification is exact and tags cannot be moved.  For each of the three kinds a tag is accepted if and only if the
    tag function gives that very text for the same key, session, role and statement: a shortened, re-encoded or missing tag,
    a malformed statement and a key of the wrong size are all rejected without an error.  And a tag is the HMAC of bytes
    that determine what it says: two statements whose authenticated bytes are equal are of the same kind and agree in
    session, role and content (kind and text of a description, every field of a candidate, the protocol version, the
    decision with its reason and the digest of the sealed manifest), so a tag for one statement is never the tag of another
    one unless HMAC or SHA-256 collide. *)
Theorem tags_exact_and_bound key sid fromRole :
  (∀ signal, verifySignalAuthTag key sid fromRole signal = true ↔
    ∃ payload tag, signalPayloadForAuth signal = Ok payload ∧ signalAuthTag key sid fromRole payload = Ok tag ∧ field signal "auth" = JStr tag) ∧
  (∀ tag v, verifySessionConfirmTag key sid fromRole tag v = true ↔ ∃ t, sessionConfirmTag key sid fromRole v = Ok t ∧ tag = JStr t) ∧
  (∀ d m reason tag, verifyPairDecisionAuthTag key sid fromRole d m reason tag = true ↔
    ∃ t, pairDecisionAuthTag key sid fromRole d m reason = Ok t ∧ tag = JStr t) ∧
  (∀ key' s s' tag tag', plainStatement s → plainStatement s' → statementTag key s = Ok tag → statementTag key' s' = Ok tag' →
    (∃ k, authenticationKeyCopy key = Ok k ∧ tag = bytesToBase64 (hmacSha256 k (macInput s))) ∧ (macInput s = macInput s' → same s s')).
Proof. destruct (tags_verify_exactly key sid fromRole) as (T1 & T2 & T3). split_and!; [done..|]. intros key' s s' tag tag'. apply mac_input_injective. Qed.

End TagTheorems.

(** ** A concrete signal *)

#[local] Existing Instance plainCrypto.

Definition testOffer : jsval := obj [(js "kind", jstr "offer"); (js "sdp", jstr "v=0")].

Lemma testOffer_data : jsonData testOffer.
Proof. unfold testOffer. json_obj. Qed.

Definition testStatement : statement := Signal testSid sender testOffer.
Definition testKeyBytes : binary := bin (zeros 32).

Lemma tags_exact_and_bound_witness :
  statementTag testKeyBytes testStatement = Ok (bytesToBase64 (zeros 32)) ∧
  (∃ k, authenticationKeyCopy testKeyBytes = Ok k ∧ bytesToBase64 (zeros 32) = bytesToBase64 (hmacSha256 k (macInput testStatement))) ∧
  (macInput testStatement = macInput testStatement → same testStatement testStatement).
Proof.
  assert (Htag : statementTag testKeyBytes testStatement = Ok (bytesToBase64 (zeros 32))) by (vm_compute; reflexivity).
  split; [exact Htag|]. destruct (tags_exact_and_bound testKeyBytes testSid sender) as (_ & _ & _ & Hbound).
  exact (Hbound testKeyBytes testStatement testStatement _ _ testOffer_data testOffer_data Htag Htag).
Defined.

(** The tag of an offer is accepted for it and for nothing else. *)
Example offer_verifies :
  verifySignalAuthTag testKeyBytes testSid sender
    (obj [(js "kind", jstr "offer"); (js "sdp", jstr "v=0"); (js "auth", JStr (bytesToBase64 (zeros 32)))]) = true ∧
  verifySignalAuthTag testKeyBytes testSid sender
    (obj [(js "kind", jstr "offer"); (js "sdp", jstr "v=0"); (js "auth", jstr "AAAA")]) = false ∧
  verifySignalAuthTag NotBinary testSid sender
    (obj [(js "kind", jstr "offer"); (js "sdp", jstr "v=0"); (js "auth", JStr (bytesToBase64 (zeros 32)))]) = false.
Proof. by vm_compute. Qed.
