(* ===== verification/SecureChannel.v ===== *)
(** * SecureChannel: what the session keys seal ([src/shared/security.ts]).

    Control messages and manifests are sealed JSON under the keys of the
    session, a manifest padded to hide its size; WebRTC signals are sealed
    under a key derived from the signal key, padded the same way; file chunks
    are sealed with a nonce made of their address.  The theorems show that what
    one side of a session seals the other side opens, through the frame of a
    chunk as well, that no two chunks share a nonce, what the padding hides,
    and that destroyed keys do nothing. *)
From S2P Require Import Prelude.
From S2P Require Import Constants.
From S2P Require Import JsText.
From S2P Require Import JsValue.
From S2P Require Import Json.
From S2P Require Import Base64.
From S2P Require Import Protocol.
From S2P Require Import Messages.
From S2P Require Import Bytes.
From S2P Require Import Chunks.
From S2P Require Import Crypto.
From S2P Require Import SealedJson.
From S2P Require Import Pake.
From S2P Require Import Auth.
#[local] Open Scope Z_scope.

Definition MAX_BULK_SEALED_BYTES : Z := CHUNK_SIZE + AES_GCM_TAG_BYTES.
Definition MANIFEST_PADDING_BUCKET_BYTES : Z := 4096.
Definition SIGNAL_PADDING_BUCKET_BYTES : Z := 4096.

(** ** Padded wrappers *)

(** [manifestPaddingTargetBytes] and [signalPaddingTargetBytes] *)
Definition paddingTargetBytes (bucketBytes byteLength : Z) : result Z :=
  check ((0 <=? byteLength) && (byteLength <=? MAX_ENCRYPTED_JSON_PLAINTEXT_BYTES)) "Encrypted payload is too large.";;
  let bucketed := (byteLength + bucketBytes - 1) / bucketBytes * bucketBytes in
  Ok (Z.min (Z.max bucketed bucketBytes) MAX_ENCRYPTED_JSON_PLAINTEXT_BYTES).

Definition wrapper (tag name : string) (value : jsval) (pad : jsstr) : jsval :=
  obj [(js "t", jstr tag); (js name, value); (js "pad", JStr pad)].

(** The common body of [paddedManifestWrapper] and [paddedSignalWrapper]; ["A".repeat(n)] is [repeat 65 n]. *)
Definition paddedWrapper (tag name : string) (bucketBytes : Z) (value : jsval) : result jsval :=
  base ← stringifyJsonValue (wrapper tag name value []);
  let baseLength := byteLength (utf8Encode base) in
  targetLength ← paddingTargetBytes bucketBytes baseLength;
  Ok (wrapper tag name value (repeat 65 (Z.to_nat (targetLength - baseLength)))).

Definition paddedManifestWrapper : jsval → result jsval := paddedWrapper "pair-manifest" "manifest" MANIFEST_PADDING_BUCKET_BYTES.
Definition paddedSignalWrapper : jsval → result jsval := paddedWrapper "webrtc-signal" "signal" SIGNAL_PADDING_BUCKET_BYTES.

(** The check of [openManifest] and [openSignal] on what they opened. *)
Definition isWrapper (tag name : string) (opened : jsval) : bool :=
  isObject opened && hasOnlyKeys opened [js "t"; js name; js "pad"] && isLit (field opened "t") (js tag) &&
  hasOwnKey opened (js name) && (negb (hasOwnKey opened (js "pad")) || onString (λ _, true) (field opened "pad")).

(** ** Chunk nonces *)

(** [chunkNonce]: the file id at byte 0, the sequence number at byte 8 *)
Definition chunkNonce (fileId chunkSeq : Z) : list Z := uint8 fileId ++ zeros 7 ++ uint32 chunkSeq.

(** [chunkAad] *)
Definition chunkAad (fileId chunkSeq : Z) : list Z := uint8 fileId ++ uint32 chunkSeq.

Section Channel.
Context `{Crypto, JsNumbers}.

(** [sealManifest], at the random [nonce] of [sealJson] *)
Definition sealManifest (keys : SessionKeys) (manifest : jsval) (nonce : list Z) : result jsstr :=
  activeKeys ← activeSessionKeys keys;
  wrapped ← paddedManifestWrapper manifest;
  sealJson (ak_manifestKey activeKeys) wrapped (utf8Encode (js "manifest:" ++ ak_sid activeKeys)) nonce.

(** [openManifest] *)
Definition openManifest (keys : SessionKeys) (sealed : jsval) : result jsval :=
  activeKeys ← activeSessionKeys keys;
  opened ← openJson (ak_manifestKey activeKeys) sealed (utf8Encode (js "manifest:" ++ ak_sid activeKeys));
  check (isWrapper "pair-manifest" "manifest" opened) "Encrypted manifest wrapper is invalid.";;
  Ok (field opened "manifest").

(** [sealControl] *)
Definition sealControl (keys : SessionKeys) (message : jsval) (nonce : list Z) : result jsstr :=
  activeKeys ← activeSessionKeys keys;
  sealJson (ak_controlSendKey activeKeys) message (utf8Encode (js "control:" ++ ak_sid activeKeys)) nonce.

(** [openControl] *)
Definition openControl (keys : SessionKeys) (sealed : jsval) : result jsval :=
  activeKeys ← activeSessionKeys keys;
  openJson (ak_controlRecvKey activeKeys) sealed (utf8Encode (js "control:" ++ ak_sid activeKeys)).

(** [sealBulk] *)
Definition sealBulk (keys : SessionKeys) (fileId chunkSeq : Z) (payload : binary) : result (list Z) :=
  activeKeys ← activeSessionKeys keys;
  assertChunkAddress fileId chunkSeq;;
  payload ← canonicalUint8Array payload "Bulk payload must be binary.";
  check (byteLength payload <=? CHUNK_SIZE) "Bulk payload exceeds maximum chunk size.";;
  subtleEncrypt (ak_bulkSendKey activeKeys) (chunkNonce fileId chunkSeq) (chunkAad fileId chunkSeq) payload.

(** [openBulk] *)
Definition openBulk (keys : SessionKeys) (fileId chunkSeq : Z) (sealedPayload : binary) : result (list Z) :=
  activeKeys ← activeSessionKeys keys;
  assertChunkAddress fileId chunkSeq;;
  sealedPayload ← canonicalUint8Array sealedPayload "Bulk payload must be binary.";
  check (byteLength sealedPayload <=? MAX_BULK_SEALED_BYTES) "Encrypted bulk payload exceeds maximum chunk size.";;
  match subtleDecrypt (ak_bulkRecvKey activeKeys) (chunkNonce fileId chunkSeq) (chunkAad fileId chunkSeq) sealedPayload with
  | Some payload => Ok payload
  | None => throw "Encrypted bulk chunk decrypt failed."
  end.

(** [signalSealKey] *)
Definition signalSealKey (key : binary) (sid : jsstr) (fromRole : PakeRole) (usages : list KeyUsage) : result CryptoKey :=
  authKey ← authenticationKeyCopy key;
  assertPakeSid sid;;
  let raw := hkdfSha256 authKey (utf8Encode (js "signal-seal:" ++ sid)) (utf8Encode (js "signal " ++ roleText fromRole)) 32 in
  Ok (importAesKey raw usages).

(** [signalAad] *)
Definition signalAad (sid : jsstr) (fromRole : PakeRole) : result (list Z) :=
  assertPakeSid sid;;
  Ok (utf8Encode (js "signal:" ++ sid ++ js ":" ++ roleText fromRole)).

(** [sealSignal] *)
Definition sealSignal (key : binary) (sid : jsstr) (fromRole : PakeRole) (signal : jsval) (nonce : list Z) : result jsstr :=
  assertSignalPayloadForVerify signal;;
  sealKey ← signalSealKey key sid fromRole [encrypt];
  wrapped ← paddedSignalWrapper signal;
  aad ← signalAad sid fromRole;
  sealJson sealKey wrapped aad nonce.

(** [openSignal] *)
Definition openSignal (key : binary) (sid : jsstr) (fromRole : PakeRole) (sealed : jsval) : result jsval :=
  sealKey ← signalSealKey key sid fromRole [decrypt];
  aad ← signalAad sid fromRole;
  opened ← openJson sealKey sealed aad;
  check (isWrapper "webrtc-signal" "signal" opened) "Encrypted WebRTC signal wrapper is invalid.";;
  assertSignalPayloadForVerify (field opened "signal");;
  Ok (field opened "signal").

End Channel.

(** ** Padding *)

Lemma chars_pad n : chars (repeat 65 n) = repeat [65] n.
Proof. induction n as [|n IH]; [done|]. cbn [repeat]. by rewrite chars_unit, IH. Qed.

Lemma pad_wf n : wf_units (repeat 65 n).
Proof. apply Forall_forall. intros x ->%list_elem_of_In%repeat_spec. lia. Qed.

Lemma pad_bytes n : utf8ByteLength (jsonQuote (repeat 65 n)) = 2 + Z.of_nat n.
Proof.
  rewrite jsonQuote_bytes by apply pad_wf. unfold jsonStringBytes. rewrite chars_pad.
  assert (foldr (λ char m, jsonCharBytes char + m) 0 (repeat [65] n) = Z.of_nat n) as ->; [|done].
  induction n as [|n IH]; [done|]. cbn [repeat foldr]. rewrite IH. change (jsonCharBytes [65]) with 1. lia.
Qed.

(** The size that padding makes of a text of [n] bytes. *)
Definition paddedBytes (bucketBytes n : Z) : Z :=
  Z.min (Z.max ((n + bucketBytes - 1) / bucketBytes * bucketBytes) bucketBytes) MAX_ENCRYPTED_JSON_PLAINTEXT_BYTES.

Lemma paddedBytes_ge bucketBytes n :
  0 < bucketBytes → 0 <= n <= MAX_ENCRYPTED_JSON_PLAINTEXT_BYTES → n <= paddedBytes bucketBytes n <= MAX_ENCRYPTED_JSON_PLAINTEXT_BYTES.
Proof.
  intros Hb Hn. unfold paddedBytes. set (q := (n + bucketBytes - 1) / bucketBytes).
  pose proof (Z.mul_div_le (n + bucketBytes - 1) bucketBytes Hb). pose proof (Z.mul_succ_div_gt (n + bucketBytes - 1) bucketBytes Hb).
  fold q in H, H0. nia.
Qed.

Section Wrapper.
Context (tag name : string) (bucketBytes : Z).
Hypothesis Hname : NoDup [js "t"; js name; js "pad"].
Hypothesis Hbucket : 0 < bucketBytes.

Lemma wrapper_data v pad : jsonData v → wf_units pad → jsonData (wrapper tag name v pad).
Proof using Hname. intros Hv Hp. apply jsonData_obj; [exact Hname|]. json_members; eauto with p2p. Qed.

(** A member of an object with its text. *)
Lemma member_text k v t : jsonText v = Some t → memberText (k, v) = Some (jsonQuote k ++ [58] ++ t).
Proof. intros Ht. unfold memberText. cbn [fst snd]. by rewrite Ht. Qed.

Lemma member_bytes k t : wf_units k → utf8ByteLength (jsonQuote k ++ [58] ++ t) = utf8ByteLength (jsonQuote k) + 1 + utf8ByteLength t.
Proof.
  intros Hk. rewrite !utf8ByteLength_scalar by (by apply jsonQuote_scalar || by apply scalarText_ascii; repeat constructor).
  change (utf8ByteLength [58]) with 1. lia.
Qed.

Lemma member_scalar k t : wf_units k → scalarText t → scalarText (jsonQuote k ++ [58] ++ t).
Proof.
  intros Hk Ht. apply scalarText_app; [by apply jsonQuote_scalar|]. apply scalarText_app; [|done].
  by apply scalarText_ascii; repeat constructor.
Qed.

(** The text of a wrapper is as long as the rest and the pad. *)
Lemma wrapper_text v tv :
  jsonData v → jsonText v = Some tv →
  ∃ K, ∀ pad, wf_units pad →
    ∃ t, jsonText (wrapper tag name v pad) = Some t ∧ utf8ByteLength t = K + utf8ByteLength (jsonQuote pad).
Proof.
  intros Hv Htv. assert (scalarText tv) as Hstv by by eapply jsonText_scalar.
  set (member k t := jsonQuote (js k) ++ [58] ++ t).
  exists (utf8ByteLength (member "t" (jsonQuote (js tag))) + utf8ByteLength (member name tv) + utf8ByteLength (jsonQuote (js "pad")) + 5).
  intros pad Hpad. set (ts := [member "t" (jsonQuote (js tag)); member name tv; member "pad" (jsonQuote pad)]).
  exists ([123] ++ joinWith [44] ts ++ [125]).
  assert (Forall scalarText ts) as Hts.
  { repeat (apply Forall_cons; split; [apply member_scalar; [apply wf_js|]|]); try (apply jsonQuote_scalar); eauto with p2p. }
  split.
  - unfold wrapper. rewrite jsonText_obj.
    assert (mapM memberText [(js "t", jstr tag); (js name, v); (js "pad", JStr pad)] = Some ts) as ->; [|done].
    apply mapM_Some_2. repeat constructor; by apply member_text.
  - rewrite utf8ByteLength_scalar, utf8ByteLength_scalar by ((by apply joinWith_scalar; [apply scalarText_ascii; repeat constructor|]) ||
      (by apply scalarText_ascii; repeat constructor)).
    change [44] with (js ","). rewrite (listBytes_join ts Hts). unfold ts, listBytes. cbn [foldr]. unfold member at 3. rewrite (member_bytes (js "pad")) by apply wf_js.
    change (utf8ByteLength [123]) with 1. change (utf8ByteLength [125]) with 1. lia.
Qed.

(** Only the bytes of a sealable wrapper depend on its pad. *)
Lemma wrapper_sealable v p q tp tq :
  sealable (wrapper tag name v p) tp → utf8ByteLength tq <= MAX_ENCRYPTED_JSON_PLAINTEXT_BYTES → sealable (wrapper tag name v q) tq.
Proof.
  intros (_ & Hn & Hb) Hlen. split; [done|]. split; [exact Hn|]. revert Hb. unfold wrapper. rewrite !bounded_obj, !Forall_cons.
  intros (Hj & Hd & Hall). split; [|done]. revert Hj. unfold hasOwnKey, obj, ownProps. cbn [map getOwnProperty fst snd].
  repeat case_decide; done.
Qed.

(** What the padding does to a value: it fits exactly when the unpadded wrapper does, and its text gets the padded size. *)
Lemma paddedWrapper_spec v t0 :
  jsonData v → jsonText (wrapper tag name v []) = Some t0 →
  ((∃ w, paddedWrapper tag name bucketBytes v = Ok w) ↔ sealable (wrapper tag name v []) t0) ∧
  (∀ w, paddedWrapper tag name bucketBytes v = Ok w →
    ∃ pad t, wf_units pad ∧ w = wrapper tag name v pad ∧ jsonText w = Some t ∧ sealable w t ∧
      utf8ByteLength t = paddedBytes bucketBytes (utf8ByteLength t0)).
Proof using Hname Hbucket.
  intros Hv Ht0. assert (Hw0 : jsonData (wrapper tag name v [])) by (apply wrapper_data; [done|constructor]).
  destruct (stringifyJsonValue_spec _ _ Hw0 Ht0) as [Hstr Huniq].
  destruct (sealed_size _ _ Hw0 Ht0) as [_ Hsize]. pose proof (utf8ByteLength_nonneg t0) as Hpos.
  assert (Hrun : sealable (wrapper tag name v []) t0 → paddedWrapper tag name bucketBytes v =
    Ok (wrapper tag name v (repeat 65 (Z.to_nat (paddedBytes bucketBytes (utf8ByteLength t0) - utf8ByteLength t0))))).
  { intros Hs. unfold paddedWrapper. rewrite (proj2 Hstr Hs). cbn [mbind result_bind]. rewrite Hsize. unfold paddingTargetBytes.
    rewrite (proj2 (Z.leb_le 0 _)) by done. by rewrite (proj2 (Z.leb_le _ _)) by apply Hs. }
  assert (Hok : ∀ w, paddedWrapper tag name bucketBytes v = Ok w → sealable (wrapper tag name v []) t0).
  { intros w (base & Hb & _)%result_bind_ok. pose proof (Huniq _ Hb) as ->. by apply Hstr. }
  split; [split; [intros [w Hw]; by eapply Hok|eauto]|].
  intros w Hw. pose proof (Hok w Hw) as Hs. rewrite (Hrun Hs) in Hw. apply (inj Ok) in Hw as <-.
  set (n := Z.to_nat _). destruct (wrapper_text v _ Hv (jsonStringify_text v Hv)) as [K HK].
  destruct (HK (repeat 65 n) (pad_wf n)) as (t & Ht & Hlen). destruct (HK [] (Forall_nil_2 _)) as (t0' & Ht0' & Hlen0).
  rewrite Ht0 in Ht0'. apply (inj Some) in Ht0' as <-. change (utf8ByteLength (jsonQuote [])) with 2 in Hlen0.
  rewrite pad_bytes in Hlen. destruct (paddedBytes_ge bucketBytes (utf8ByteLength t0) Hbucket) as [Hge Hle]; [split; [done|apply Hs]|].
  assert (utf8ByteLength t = paddedBytes bucketBytes (utf8ByteLength t0)) as E by (unfold n in *; lia).
  exists (repeat 65 n), t. split_and!; try done; [apply pad_wf|]. apply (wrapper_sealable v [] _ t0); [done|lia].
Qed.

End Wrapper.

(** ** From one side to the other *)

Section ChannelTheorems.
Context `{Crypto, JsNumbers}.

(** Live keys of two sides such that what the first seals the second can open. *)
Definition fits (k k' : CryptoKey) : Prop := rawKey k = rawKey k' ∧ encrypt ∈ usages k ∧ decrypt ∈ usages k'.
Record linked (ks kr : SessionKeys) (a b : ActiveAeadSessionKeys) : Prop := {
  l_from : activeSessionKeys ks = Ok a;
  l_to : activeSessionKeys kr = Ok b;
  l_sid : ak_sid a = ak_sid b;
  l_control : fits (ak_controlSendKey a) (ak_controlRecvKey b);
  l_bulk : fits (ak_bulkSendKey a) (ak_bulkRecvKey b)
}.

Lemma matching_linked ks kr :
  matching ks kr → ∃ a b, linked ks kr a b ∧ linked kr ks b a ∧ fits (ak_manifestKey a) (ak_manifestKey b).
Proof.
  intros [Hsid Hok _ _ _ _ [Hl1 Hl2] _ (m & m' & Em & Em' & Hm) [(cs & cr' & Ecs & Ecr' & Hc) (cs' & cr & Ecs' & Ecr & Hc')]
    [(bs & br' & Ebs & Ebr' & Hb) (bs' & br & Ebs' & Ebr & Hb')]].
  set (a := {| ak_sid := sk_sid ks; ak_manifestKey := m; ak_controlSendKey := cs; ak_controlRecvKey := cr; ak_bulkSendKey := bs; ak_bulkRecvKey := br |}).
  set (b := {| ak_sid := sk_sid kr; ak_manifestKey := m'; ak_controlSendKey := cs'; ak_controlRecvKey := cr'; ak_bulkSendKey := bs'; ak_bulkRecvKey := br' |}).
  assert (activeSessionKeys ks = Ok a) by (apply activeSessionKeys_ok; by split_and!).
  assert (activeSessionKeys kr = Ok b) by (apply activeSessionKeys_ok; rewrite <-Hsid; by split_and!).
  exists a, b. split_and!; [by split|by split|done..].
Qed.

(** A padded value is opened again. *)
Lemma padded_opens tag name bucketBytes key key' v w aad nonce s :
  NoDup [js "t"; js name; js "pad"] → 0 < bucketBytes → jsonData v → bytesOf 12 nonce → fits key key' →
  paddedWrapper tag name bucketBytes v = Ok w → sealJson key w aad nonce = Ok s →
  ∃ pad, wf_units pad ∧ openJson key' (JStr s) aad = Ok (wrapper tag name v pad).
Proof.
  intros Hname Hbucket Hv Hn (Hk & He & Hd) Hw Hs.
  assert (jsonData (wrapper tag name v [])) as Hw0 by (apply wrapper_data; [done..|constructor]).
  destruct (paddedWrapper_spec tag name bucketBytes Hname Hbucket v _ Hv (jsonStringify_text _ Hw0)) as [_ Hinv].
  destruct (Hinv w Hw) as (pad & t & Hpad & -> & _). exists pad. split; [done|].
  by apply (sealJson_opens key key' _ aad nonce s); [apply wrapper_data| | | | |].
Qed.

Lemma wrapper_names : NoDup [js "t"; js "manifest"; js "pad"] ∧ NoDup [js "t"; js "signal"; js "pad"].
Proof. split; apply (bool_decide_unpack _); vm_compute; exact I. Qed.

Lemma control_opens ks kr a b v nonce s :
  linked ks kr a b → jsonData v → bytesOf 12 nonce → sealControl ks v nonce = Ok s → openControl kr (JStr s) = Ok v.
Proof.
  intros [Ha Hb Hsid (Hk & He & Hd) _] Hv Hn Hs. unfold sealControl in Hs. unfold openControl. rewrite Ha in Hs. rewrite Hb.
  cbn [mbind result_bind] in *. rewrite <-Hsid. by apply (sealJson_opens (ak_controlSendKey a) _ v _ nonce s).
Qed.

(** The manifest that the sender seals, and control messages in both directions *)
Lemma sealed_values_open ks kr v nonce s :
  matching ks kr → jsonData v → bytesOf 12 nonce →
  (sealManifest ks v nonce = Ok s → openManifest kr (JStr s) = Ok v) ∧
  (sealControl ks v nonce = Ok s → openControl kr (JStr s) = Ok v) ∧
  (sealControl kr v nonce = Ok s → openControl ks (JStr s) = Ok v).
Proof.
  intros (a & b & Hab & Hba & Hm)%matching_linked Hv Hn. split_and!.
  - unfold sealManifest, openManifest. destruct Hab as [-> -> Hsid _ _]. cbn [mbind result_bind].
    intros (w & Hw & Hs)%result_bind_ok. rewrite <-Hsid.
    destruct (padded_opens "pair-manifest" "manifest" MANIFEST_PADDING_BUCKET_BYTES _ _ v w _ nonce s (proj1 wrapper_names) eq_refl Hv Hn Hm Hw Hs) as (pad & _ & ->). done.
  - by apply (control_opens ks kr a b).
  - by apply (control_opens kr ks b a).
Qed.

(** *** Chunks *)

Lemma chunkNonce_inj f s f' s' :
  0 <= f <= 255 → 0 <= s <= 0xffffffff → 0 <= f' <= 255 → 0 <= s' <= 0xffffffff →
  chunkNonce f s = chunkNonce f' s' → f = f' ∧ s = s'.
Proof.
  intros Hf Hs Hf' Hs' E. unfold chunkNonce in E. apply app_inj_1 in E as [E1 E]; [|done]. apply app_inj_1 in E as [_ E2]; [|done].
  apply uint8_inj in E1; [|lia..]. apply uint32_inj in E2; [|lia..]. done.
Qed.

Lemma bulk_opens ks kr a b f n p :
  linked ks kr a b → 0 <= f <= 255 → 0 <= n <= 0xffffffff → bytes p → byteLength p <= CHUNK_SIZE →
  ∃ sealed frame, sealBulk ks f n (bin p) = Ok sealed ∧ encodeChunk f n (bin sealed) = Ok frame ∧
    decodeChunk (bin frame) = Ok {| fileId := f; chunkSeq := n; payload := sealed |} ∧ openBulk kr f n (bin sealed) = Ok p.
Proof.
  intros [Ha Hb _ _ (Hk & He & Hd)] Hf Hn Hp Hlen.
  destruct (subtle_roundtrip _ _ (chunkNonce f n) (chunkAad f n) p Hk He Hd Hp) as (c & Hc & [Hcb Hcl] & Hopen).
  assert (assertChunkAddress f n = Ok ()) as Haddr by (by apply assertChunkAddress_spec).
  assert (chunkOk {| fileId := f; chunkSeq := n; payload := c |}) as Hok.
  { split; try done. cbn [payload]. unfold SEALED_CHUNK_SIZE, AES_GCM_TAG_BYTES. lia. }
  exists c, (frameOf {| fileId := f; chunkSeq := n; payload := c |}). split_and!.
  - unfold sealBulk. rewrite Ha, Haddr. cbn [mbind result_bind canonicalUint8Array]. by rewrite (proj2 (Z.leb_le _ _) Hlen).
  - by apply (encodeChunk_spec {| fileId := f; chunkSeq := n; payload := c |}).
  - by apply decodeChunk_frame.
  - unfold openBulk. rewrite Hb, Haddr. cbn [mbind result_bind canonicalUint8Array]. rewrite (proj2 (Z.leb_le _ _)).
    + cbn [check mbind result_bind]. by rewrite Hopen.
    + unfold MAX_BULK_SEALED_BYTES, AES_GCM_TAG_BYTES. lia.
Qed.

(** A chunk of a file, in both directions *)
Lemma bulk_chunks_cross ks kr f n p :
  matching ks kr → 0 <= f <= 255 → 0 <= n <= 0xffffffff → bytes p → byteLength p <= CHUNK_SIZE →
  Forall (λ '(k, k'), ∃ sealed frame, sealBulk k f n (bin p) = Ok sealed ∧ encodeChunk f n (bin sealed) = Ok frame ∧
    decodeChunk (bin frame) = Ok {| fileId := f; chunkSeq := n; payload := sealed |} ∧ openBulk k' f n (bin sealed) = Ok p)
    [(ks, kr); (kr, ks)].
Proof.
  intros (a & b & Hab & Hba & _)%matching_linked Hf Hn Hp Hlen.
  repeat constructor; [by apply (bulk_opens ks kr a b)|by apply (bulk_opens kr ks b a)].
Qed.

(** C37. What one side of a session seals the other opens to the same value: the manifest that the sender seals, and
    control messages in both directions; and a chunk of a file, for every address and every payload up to the chunk size,
    is sealed, framed, unframed and opened on the respective sides without an error and gives the payload back, in both
    directions. *)
Theorem channels_cross ks kr :
  matching ks kr →
  (∀ v nonce s, jsonData v → bytesOf 12 nonce →
    (sealManifest ks v nonce = Ok s → openManifest kr (JStr s) = Ok v) ∧
    (sealControl ks v nonce = Ok s → openControl kr (JStr s) = Ok v) ∧
    (sealControl kr v nonce = Ok s → openControl ks (JStr s) = Ok v)) ∧
  (∀ f n p, 0 <= f <= 255 → 0 <= n <= 0xffffffff → bytes p → byteLength p <= CHUNK_SIZE →
    Forall (λ '(k, k'), ∃ sealed frame, sealBulk k f n (bin p) = Ok sealed ∧ encodeChunk f n (bin sealed) = Ok frame ∧
      decodeChunk (bin frame) = Ok {| fileId := f; chunkSeq := n; payload := sealed |} ∧ openBulk k' f n (bin sealed) = Ok p)
      [(ks, kr); (kr, ks)]).
Proof. intros Hm. split; intros; [by apply sealed_values_open|by apply bulk_chunks_cross]. Qed.

(** Under one key every chunk has a nonce of its own: if two chunks that were sealed have the same nonce, they have the
    same address; the nonce has the 12 bytes that AES-GCM asks for and the address is authenticated too. *)
Theorem chunk_nonces_distinct ks ks' f n p c f' n' p' c' :
  sealBulk ks f n p = Ok c → sealBulk ks' f' n' p' = Ok c' →
  bytesOf 12 (chunkNonce f n) ∧ (chunkNonce f n = chunkNonce f' n' ∨ chunkAad f n = chunkAad f' n' → f = f' ∧ n = n').
Proof.
  assert (∀ k f n p c, sealBulk k f n p = Ok c → 0 <= f <= 255 ∧ 0 <= n <= 0xffffffff) as Haddr.
  { intros k f0 n0 p0 c0 (a & _ & [E _]%unit_bind_ok)%result_bind_ok. by apply assertChunkAddress_spec. }
  intros [Hf Hn]%Haddr [Hf' Hn']%Haddr. split.
  - split; [|done]. unfold chunkNonce. apply bytes_app. split; [apply uint8_bytes|]. apply bytes_app.
    split; [by apply zeros_size|apply uint32_bytes].
  - intros [E|E]; [by apply chunkNonce_inj|]. unfold chunkAad in E. apply app_inj_1 in E as [E1 E2]; [|done].
    apply uint8_inj in E1; [|lia..]. apply uint32_inj in E2; [|lia..]. done.
Qed.

(** *** Signals *)

Lemma signalSealKey_ok key sid r u k :
  signalSealKey key sid r u = Ok k →
  pakeSid sid ∧ usages k = u ∧ ∀ u', ∃ k', signalSealKey key sid r u' = Ok k' ∧ rawKey k' = rawKey k ∧ usages k' = u'.
Proof.
  unfold signalSealKey. intros (a & -> & [Hs E]%unit_bind_ok)%result_bind_ok. apply (inj Ok) in E as <-.
  split; [by apply assertPakeSid_ok|]. split; [done|]. intros u'. cbn [mbind result_bind]. rewrite Hs. by eexists.
Qed.

(** A WebRTC signal that one side seals the other opens: with the same signal key, session id and role, opening gives
    the signal back, after the same checks that sealing made. *)
Theorem signal_roundtrip key sid r signal nonce s :
  jsonData signal → bytesOf 12 nonce → sealSignal key sid r signal nonce = Ok s → openSignal key sid r (JStr s) = Ok signal.
Proof.
  intros Hv Hn [Ha (k & Hk & (w & Hw & (aad & Haad & Hs)%result_bind_ok)%result_bind_ok)%result_bind_ok]%unit_bind_ok.
  destruct (signalSealKey_ok _ _ _ _ _ Hk) as (_ & Hu & Hother). destruct (Hother [decrypt]) as (k' & Hk' & Hraw & Hu').
  unfold openSignal. rewrite Hk', Haad. cbn [mbind result_bind].
  assert (fits k k') as Hfit by (unfold fits; rewrite Hraw, Hu, Hu'; split_and!; [done|left|left]).
  destruct (padded_opens "webrtc-signal" "signal" SIGNAL_PADDING_BUCKET_BYTES _ _ signal w _ nonce s (proj2 wrapper_names) eq_refl Hv Hn Hfit Hw Hs) as (pad & _ & ->).
  cbn [mbind result_bind]. change (check (isWrapper _ _ _) _) with (Ok ()). cbn [mbind result_bind].
  change (field (wrapper _ _ signal pad) "signal") with signal. by rewrite Ha.
Qed.

(** *** Sizes and destroyed keys *)

(** The size of a sealed manifest tells only its bucket: a manifest is sealed exactly when its wrapper would be without
    any padding, and then the sealed text has the length of base64 of 28 bytes more than the text of the wrapper rounded
    up to a multiple of 4096, at most 147 428. *)
Theorem sealed_manifest_size ks a m t nonce :
  activeSessionKeys ks = Ok a → encrypt ∈ usages (ak_manifestKey a) → bytesOf 12 nonce → jsonData m →
  jsonText (wrapper "pair-manifest" "manifest" m []) = Some t →
  ((∃ s, sealManifest ks m nonce = Ok s) ↔ sealable (wrapper "pair-manifest" "manifest" m []) t) ∧
  (∀ s, sealManifest ks m nonce = Ok s →
    jslen s = base64EncodedLength (28 + Z.min (Z.max ((utf8ByteLength t + 4095) / 4096 * 4096) 4096) 147428)).
Proof.
  intros Ha He Hn Hm Ht. pose proof (wrapper_data "pair-manifest" "manifest" (proj1 wrapper_names) m) as Hdata.
  destruct (paddedWrapper_spec "pair-manifest" "manifest" MANIFEST_PADDING_BUCKET_BYTES (proj1 wrapper_names) eq_refl m t Hm Ht)
    as [Hiff Hinv].
  unfold sealManifest. rewrite Ha. cbn [mbind result_bind]. unfold paddedManifestWrapper. split.
  - rewrite <-Hiff. split; [intros (s & (w & Hw & _)%result_bind_ok); eauto|].
    intros (w & Hw). destruct (Hinv w Hw) as (pad & t' & Hpad & -> & Ht' & Hs & _). rewrite Hw. cbn [mbind result_bind]. eexists.
    exact (proj1 (sealJson_spec _ _ t' _ _ (Hdata pad Hm Hpad) Ht' Hn He) Hs).
  - intros s (w & Hw & Hs)%result_bind_ok. destruct (Hinv w Hw) as (pad & t' & Hpad & -> & Ht' & _ & Hsize).
    destruct (sealJson_size _ _ t' _ _ _ (Hdata pad Hm Hpad) Ht' Hn He Hs) as [-> _]. rewrite Hsize.
    unfold paddedBytes, MANIFEST_PADDING_BUCKET_BYTES. by replace (utf8ByteLength t + 4096 - 1) with (utf8ByteLength t + 4095) by lia.
Qed.

(** Destroyed keys do nothing: after [wipeSessionKeys] sealing and opening of manifests, control messages and chunks
    all fail with the same error, nothing but zeros is left of the signal key, and wiping again changes nothing. *)
Theorem wiped_keys_refuse keys :
  let keys' := wipeSessionKeys keys in
  (destroyed keys = false → wiped (signalAuthKey keys') ∧ manifestKey keys' = None ∧ bulkSendKey keys' = None) ∧
  wipeSessionKeys keys' = keys' ∧
  (∀ v nonce, sealManifest keys' v nonce = throw "Session keys have been wiped." ∧ openManifest keys' v = throw "Session keys have been wiped." ∧
    sealControl keys' v nonce = throw "Session keys have been wiped." ∧ openControl keys' v = throw "Session keys have been wiped.") ∧
  (∀ f n p, sealBulk keys' f n p = throw "Session keys have been wiped." ∧ openBulk keys' f n p = throw "Session keys have been wiped.").
Proof.
  intros keys'. pose proof (destroyed_inactive keys' (wipeSessionKeys_destroyed keys)) as Hi. split_and!.
  - intros Hd. unfold keys', wipeSessionKeys. rewrite Hd. split; [apply fillBytes_wiped|done].
  - pose proof (wipeSessionKeys_destroyed keys) as Hd. fold keys' in Hd. unfold wipeSessionKeys. by rewrite Hd.
  - intros v nonce. unfold sealManifest, openManifest, sealControl, openControl. by rewrite Hi.
  - intros f n p. unfold sealBulk, openBulk. by rewrite Hi.
Qed.

End ChannelTheorems.

(** ** A concrete session *)

#[local] Existing Instances plainCrypto decimalNumbers.

Definition testRaw : RawKeys :=
  {| raw_signalAuthKey := zeros 32; raw_manifestKey := repeat 1 32; controlSenderToReceiver := repeat 2 32;
     controlReceiverToSender := repeat 3 32; bulkSenderToReceiver := repeat 4 32; bulkReceiverToSender := repeat 5 32; raw_sas := zeros 8 |}.
Definition testSender : SessionKeys := keysOf sender testSid PROTOCOL_VERSION testRaw.
Definition testReceiver : SessionKeys := keysOf receiver testSid PROTOCOL_VERSION testRaw.

Lemma test_matching : matching testSender testReceiver.
Proof. apply keysOf_matching; [vm_compute; by split|vm_compute; by split|by apply zeros_size]. Qed.

Definition sealedBy (seal : result jsstr) : jsstr := match seal with Ok s => s | Err _ => [] end.

Lemma sealedBy_ok seal : is_ok seal = true → seal = Ok (sealedBy seal).
Proof. by destruct seal. Qed.

Lemma channels_cross_witness :
  (is_ok (sealManifest testSender testValue (zeros 12)) = true ∧
   openManifest testReceiver (JStr (sealedBy (sealManifest testSender testValue (zeros 12)))) = Ok testValue) ∧
  Forall (λ '(k, k'), ∃ sealed frame, sealBulk k 3 7 (bin [1; 2; 3]) = Ok sealed ∧ encodeChunk 3 7 (bin sealed) = Ok frame ∧
    decodeChunk (bin frame) = Ok {| fileId := 3; chunkSeq := 7; payload := sealed |} ∧ openBulk k' 3 7 (bin sealed) = Ok [1; 2; 3])
    [(testSender, testReceiver); (testReceiver, testSender)].
Proof.
  destruct (channels_cross testSender testReceiver test_matching) as [Hvalues Hchunks]. split.
  - assert (Hs : is_ok (sealManifest testSender testValue (zeros 12)) = true) by (vm_compute; reflexivity). split; [exact Hs|].
    exact (proj1 (Hvalues testValue (zeros 12) _ testValue_data (zeros_size 12 ltac:(lia))) (sealedBy_ok _ Hs)).
  - apply (Hchunks 3 7 [1; 2; 3]); [lia|lia|repeat constructor; lia|]. vm_compute. discriminate.
Defined.

Lemma chunk_nonces_distinct_witness :
  sealBulk testSender 3 7 (bin []) = Ok (zeros 16) ∧ bytesOf 12 (chunkNonce 3 7) ∧
  (chunkNonce 3 7 = chunkNonce 3 7 ∨ chunkAad 3 7 = chunkAad 3 7 → 3 = 3 ∧ 7 = 7).
Proof.
  assert (Hseal : sealBulk testSender 3 7 (bin []) = Ok (zeros 16)) by (vm_compute; reflexivity).
  split; [exact Hseal|]. exact (chunk_nonces_distinct _ _ _ _ _ _ _ _ _ _ Hseal Hseal).
Defined.

Lemma signal_roundtrip_witness :
  is_ok (sealSignal testKeyBytes testSid sender testOffer (zeros 12)) = true ∧
  openSignal testKeyBytes testSid sender (JStr (sealedBy (sealSignal testKeyBytes testSid sender testOffer (zeros 12)))) = Ok testOffer.
Proof.
  assert (H : is_ok (sealSignal testKeyBytes testSid sender testOffer (zeros 12)) = true) by (vm_compute; reflexivity). split; [exact H|].
  exact (signal_roundtrip testKeyBytes testSid sender testOffer (zeros 12) _ testOffer_data (zeros_size 12 ltac:(lia)) (sealedBy_ok _ H)).
Defined.

Definition testActive : ActiveAeadSessionKeys :=
  {| ak_sid := testSid; ak_manifestKey := importAesKey (repeat 1 32) [encrypt];
     ak_controlSendKey := importAesKey (repeat 2 32) [encrypt]; ak_controlRecvKey := importAesKey (repeat 3 32) [decrypt];
     ak_bulkSendKey := importAesKey (repeat 4 32) [encrypt]; ak_bulkRecvKey := importAesKey (repeat 5 32) [decrypt] |}.

Lemma sealed_manifest_size_witness :
  let t := default [] (jsonText (wrapper "pair-manifest" "manifest" testValue [])) in
  (∃ s, sealManifest testSender testValue (zeros 12) = Ok s) ∧ sealable (wrapper "pair-manifest" "manifest" testValue []) t.
Proof.
  intros t. assert (H : ∃ s, sealManifest testSender testValue (zeros 12) = Ok s) by (eexists; vm_compute; reflexivity).
  split; [exact H|].
  apply (sealed_manifest_size testSender testActive testValue t (zeros 12));
    [vm_compute; reflexivity|left|apply zeros_size; lia|exact testValue_data|reflexivity|exact H].
Defined.

Lemma wiped_keys_refuse_witness :
  destroyed testSender = false ∧ manifestKey (wipeSessionKeys testSender) = None ∧
  sealControl (wipeSessionKeys testSender) testValue (zeros 12) = throw "Session keys have been wiped.".
Proof.
  assert (Hd : destroyed testSender = false) by reflexivity. destruct (wiped_keys_refuse testSender) as (Hw & _ & Hr & _).
  split; [exact Hd|]. split; [exact (proj1 (proj2 (Hw Hd)))|]. exact (proj1 (proj2 (proj2 (Hr testValue (zeros 12))))).
Defined.
