(* ===== verification/Establish.v ===== *)
(** * Establish: agreeing on the session keys over the signalling server
    ([src/cli/secure.ts]; the web client has the same function).

    A side sends its share, waits for the share of the peer, derives the keys,
    sends its confirmation tag and checks the peer's.  The model keeps the
    messages that were sent and the objects that hold secrets; a failure at any
    point wipes both.  The theorems show that two honest sides with the same
    code succeed, and what a side that succeeds has verified. *)
From S2P Require Import Prelude.
From S2P Require Import Constants.
From S2P Require Import JsText.
From S2P Require Import JsValue.
From S2P Require Import Json.
From S2P Require Import Base64.
From S2P Require Import Protocol.
From S2P Require Import Bytes.
From S2P Require Import Crypto.
From S2P Require Import SealedJson.
From S2P Require Import Pake.
From S2P Require Import Auth.
#[local] Open Scope Z_scope.

(** The variables of [establishKeys] and what it sent. *)
Record Establish := { sent : list ClientMessage; pake : PakeState; keys : option SessionKeys }.
Definition withSent (m : ClientMessage) (s : Establish) : Establish := {| sent := sent s ++ [m]; pake := pake s; keys := keys s |}.
Definition withPake (p : PakeState) (s : Establish) : Establish := {| sent := sent s; pake := p; keys := keys s |}.
Definition withKeys (k : SessionKeys) (s : Establish) : Establish := {| sent := sent s; pake := pake s; keys := Some k |}.

Section Establish.
Context `{Crypto, JsNumbers}.
(** [signaling.send]: it throws when the connection is not open. *)
Variable sendOk : ClientMessage → result ().

Definition signalingSend (m : ClientMessage) : ST Establish () := st_lift (sendOk m);; st_modify (withSent m).

(** The [try] block of [establishKeys]: [peer] and [confirm] are what the two
    waits give, the data of a message or the error of the wait. *)
Definition establishBody (sid : jsstr) (role : PakeRole) (peer confirm : result jsstr) : ST Establish SessionKeys :=
  s ← st_get;
  share ← st_lift (ownPakeShareB64 (pake s));
  signalingSend (CPake sid (jsonStringify (pakeShareMessage share)));;
  data ← st_lift peer;
  peerShare ← st_lift (parsePakeShareMessage data);
  let '(finished, state) := finishPake (pake s) peerShare in
  st_modify (withPake state);;
  keys ← st_lift finished;
  st_modify (withKeys keys);;
  tag ← st_lift (sessionConfirmTag (signalAuthKey keys) sid role (sk_protocolVersion keys));
  signalingSend (CConfirm sid tag);;
  confirmTag ← st_lift confirm;
  if verifySessionConfirmTag (signalAuthKey keys) sid (otherRole role) (JStr confirmTag) (sk_protocolVersion keys)
  then mret keys
  else st_lift (throw "PAKE confirmation failed. Wrong code or signaling MITM.").

(** The [catch] block. *)
Definition wipeSecrets (s : Establish) : Establish :=
  {| sent := sent s; pake := wipePakeState (pake s); keys := wipeSessionKeys <$> keys s |}.

(** [establishKeys], at the [n]-th random scalar, with the default protocol version *)
Definition establishKeys (sid : jsstr) (role : PakeRole) (code : jsstr) (n : nat) (peer confirm : result jsstr)
  : result (outcome Establish SessionKeys) :=
  state ← startPake role code sid PROTOCOL_VERSION n;
  Ok (st_catch (establishBody sid role peer confirm)
    (λ e, st_modify wipeSecrets;; st_lift (Err e)) {| sent := []; pake := state; keys := None |}).

(** [establishBrowserKeys] of the web client, the same code *)
Definition establishBrowserKeys := establishKeys.

(** ** What is left after a failure, and what success means *)

Definition secretsWiped (s : Establish) : Prop :=
  wiped (ephemeralSecret (pake s)) ∧ wiped (share (pake s)) ∧ ∀ k, keys s = Some k → destroyed k = true.

(** The keys come from a share of 32 bytes, and the peer's tag is the MAC of its confirmation under them. *)
Definition confirmedBy (sid : jsstr) (role : PakeRole) (state : PakeState) (peer confirm : result jsstr) (ks : SessionKeys) : Prop :=
  ∃ data peerShare tag, peer = Ok data ∧ parsePakeShareMessage data = Ok peerShare ∧
    deriveSessionKeys state peerShare = Ok ks ∧ confirm = Ok tag ∧
    sessionConfirmTag (signalAuthKey ks) sid (otherRole role) (sk_protocolVersion ks) = Ok tag.

Lemma wipeSecrets_wiped s : secretsWiped (wipeSecrets s).
Proof.
  split_and!; try apply fillBytes_wiped. intros k. cbn [wipeSecrets keys]. destruct (keys s); [|done].
  intros [= <-]. apply wipeSessionKeys_destroyed.
Qed.

Lemma signalingSend_wpe m Q E s :
  (sendOk m = Ok () → Q () (withSent m s)) → (∀ e, sendOk m = Err e → E e s) → wpe (signalingSend m) Q E s.
Proof. intros HQ HE. unfold signalingSend. wpe_steps. destruct (sendOk m) as [[]|e] eqn:Em; [|by apply HE]. wpe_steps. by apply HQ. Qed.

Lemma verifyConfirm_ok key sid r tag v :
  verifySessionConfirmTag key sid r (JStr tag) v = true ↔ sessionConfirmTag key sid r v = Ok tag.
Proof.
  unfold verifySessionConfirmTag. rewrite verifyTag_spec.
  - split; [by intros (e & He & [= ->])|eauto].
  - intros e (k & _ & _ & _ & ->)%sessionConfirmTag_ok. eauto.
Qed.

#[local] Ltac ws := wpe_step; cbv beta.

Lemma establishBody_wpe sid role peer confirm s :
  wpe (establishBody sid role peer confirm)
    (λ ks s', keys s' = Some ks ∧ pake s' = wipePakeState (pake s) ∧ confirmedBy sid role (pake s) peer confirm ks ∧
      ∃ share tag, ownPakeShareB64 (pake s) = Ok share ∧ sessionConfirmTag (signalAuthKey ks) sid role (sk_protocolVersion ks) = Ok tag ∧
        sent s' = sent s ++ [CPake sid (jsonStringify (pakeShareMessage share)); CConfirm sid tag])
    (λ _ _, True) s.
Proof.
  unfold establishBody. do 4 ws. destruct (ownPakeShareB64 (pake s)) as [share|] eqn:Hshare; [|done].
  ws. apply signalingSend_wpe; [intros _|done]. do 2 ws. destruct peer as [data|]; [|done].
  do 2 ws. destruct (parsePakeShareMessage data) as [peerShare|] eqn:Hparse; [|done].
  unfold finishPake. cbv iota beta zeta. do 4 ws.
  destruct (deriveSessionKeys (pake s) peerShare) as [ks|] eqn:Hks; [|done].
  do 4 ws. destruct (sessionConfirmTag _ _ role _) as [tag|] eqn:Htag; [|done].
  ws. apply signalingSend_wpe; [intros _|done]. do 2 ws. destruct confirm as [c|]; [|done].
  ws; [|by ws]. match goal with Hv : verifySessionConfirmTag _ _ _ _ _ = true |- _ => apply verifyConfirm_ok in Hv end. ws.
  split_and!; [done|done|by exists data, peerShare, c|]. exists share, tag. split_and!; try done.
  cbn [withSent withPake withKeys sent]. by rewrite <-app_assoc.
Qed.

(** C38. Whatever the signalling server delivers, a side that returns session keys has derived them from a share of
    32 bytes and has verified that the peer's tag is the MAC, under these keys, of the confirmation of the other role in
    this session; its own secret is wiped.  A side that fails has wiped the secret and destroyed any keys it had. *)
Theorem establish_confirms sid role code n peer confirm out :
  establishKeys sid role code n peer confirm = Ok out →
  match out with
  | Done ks s => keys s = Some ks ∧ wiped (ephemeralSecret (pake s)) ∧
      confirmedBy sid role (startedState role code sid PROTOCOL_VERSION n) peer confirm ks
  | Raised _ s => secretsWiped s
  | OutOfFuel => False
  end.
Proof.
  unfold establishKeys. intros (state & [_ ->]%startPake_spec & E)%result_bind_ok. apply (inj Ok) in E as <-.
  set (s0 := {| sent := []; pake := _; keys := None |}).
  pose proof (establishBody_wpe sid role peer confirm s0) as Hbody. unfold wpe in Hbody. unfold st_catch.
  destruct (establishBody sid role peer confirm s0) as [ks s|e s|]; [|by apply wipeSecrets_wiped|done].
  destruct Hbody as (Hk & Hp & Hc & _). rewrite Hp. split_and!; [done|apply fillBytes_wiped|done].
Qed.

(** Running the body when every step of it succeeds. *)
Lemma establishBody_runs sid role data c peerShare ks share tag s :
  (∀ m, sendOk m = Ok ()) → ownPakeShareB64 (pake s) = Ok share → parsePakeShareMessage data = Ok peerShare →
  deriveSessionKeys (pake s) peerShare = Ok ks → sessionConfirmTag (signalAuthKey ks) sid role (sk_protocolVersion ks) = Ok tag →
  sessionConfirmTag (signalAuthKey ks) sid (otherRole role) (sk_protocolVersion ks) = Ok c →
  establishBody sid role (Ok data) (Ok c) s =
    Done ks {| sent := sent s ++ [CPake sid (jsonStringify (pakeShareMessage share)); CConfirm sid tag];
               pake := wipePakeState (pake s); keys := Some ks |}.
Proof.
  intros Hsend Hshare Hparse Hks Htag Hc%verifyConfirm_ok. unfold establishBody, signalingSend, st_get, st_modify, st_lift, mbind, st_bind, mret, st_ret.
  rewrite Hshare, Hsend, Hparse. unfold finishPake. rewrite Hks, Htag, Hsend, Hc.
  unfold withSent, withPake, withKeys. cbn [sent pake keys]. by rewrite <-app_assoc.
Qed.

(** A side that gets the messages of the other one. *)
Lemma establishKeys_runs sid role code n m raw :
  (∀ msg, sendOk msg = Ok ()) → pakeCode code → pakeSid sid → bytesOf 32 (raw_signalAuthKey raw) →
  let st := startedState role code sid PROTOCOL_VERSION in
  let message k := jsonStringify (pakeShareMessage (bytesToBase64 (cpaceState code sid PROTOCOL_VERSION k).2)) in
  let tag r := tagOf (raw_signalAuthKey raw) (jsonStringify (confirmStatement sid r PROTOCOL_VERSION)) in
  let ks := keysOf role sid PROTOCOL_VERSION raw in
  deriveSessionKeys (st n) (bytesToBase64 (cpaceState code sid PROTOCOL_VERSION m).2) = Ok ks →
  establishKeys sid role code n (Ok (message m)) (Ok (tag (otherRole role))) =
    Ok (Done ks {| sent := [CPake sid (message n); CConfirm sid (tag role)]; pake := wipePakeState (st n); keys := Some ks |}).
Proof.
  intros Hsend Hc Hs Hk st message tag ks Hks. assert (pakeVersion PROTOCOL_VERSION) as Hv by (vm_compute; by split).
  assert (Htag : ∀ r, sessionConfirmTag (signalAuthKey ks) sid r (sk_protocolVersion ks) = Ok (tag r)).
  { intros r. apply sessionConfirmTag_ok. exists (raw_signalAuthKey raw). split_and!; [|by apply assertPakeSid_ok|by apply assertPakeVersion_ok|done].
    unfold authenticationKeyCopy. cbn [signalAuthKey ks keysOf canonicalUint8Array mbind result_bind]. by destruct Hk as [_ ->]. }
  unfold establishKeys. rewrite (proj2 (startPake_spec _ _ _ _ _ (st n))) by done. cbn [mbind result_bind]. unfold st_catch.
  assert (message_ok : ∀ k, bytesOf 32 (cpaceState code sid PROTOCOL_VERSION k).2) by (intros; apply cpaceState_share).
  rewrite (establishBody_runs sid role (message m) (tag (otherRole role)) (bytesToBase64 (cpaceState code sid PROTOCOL_VERSION m).2) ks
    (bytesToBase64 (cpaceState code sid PROTOCOL_VERSION n).2) (tag role)); try done.
  apply parsePakeShareMessage_message; [done|]. apply jsonStringify_text, pakeShareMessage_data, base64_wf, message_ok.
Qed.

(** C39. Two honest sides agree: with the same receive code and session id, and a signalling server that delivers the two
    messages of each side to the other one, both succeed, each having sent exactly its share and its confirmation, with
    session keys that fit each other. *)
Theorem honest_sides_agree sid code n m :
  (∀ msg, sendOk msg = Ok ()) → pakeCode code → pakeSid sid →
  ∃ shareS tagS shareR tagR ks kr sS sR,
    establishKeys sid sender code n (Ok shareR) (Ok tagR) = Ok (Done ks sS) ∧ sent sS = [CPake sid shareS; CConfirm sid tagS] ∧
    establishKeys sid receiver code m (Ok shareS) (Ok tagS) = Ok (Done kr sR) ∧ sent sR = [CPake sid shareR; CConfirm sid tagR] ∧
    matching ks kr.
Proof.
  intros Hsend Hc Hs. assert (pakeVersion PROTOCOL_VERSION) as Hv by (vm_compute; by split).
  destruct (session_derivation code sid PROTOCOL_VERSION n m Hs Hv) as (raw & Hk & HS & HR).
  pose proof (establishKeys_runs sid sender code n m raw Hsend Hc Hs Hk HS) as ES.
  pose proof (establishKeys_runs sid receiver code m n raw Hsend Hc Hs Hk HR) as ER.
  eexists _, _, _, _, _, _, _, _. split; [exact ES|]. split; [reflexivity|]. split; [exact ER|]. split; [reflexivity|].
  by apply keysOf_matching.
Qed.

End Establish.

(** ** A concrete session *)

#[local] Existing Instances plainCrypto decimalNumbers.

Lemma honest_sides_agree_witness :
  ∃ shareS tagS shareR tagR ks kr sS sR,
    establishKeys (λ _, Ok ()) testSid sender testCode 0 (Ok shareR) (Ok tagR) = Ok (Done ks sS) ∧
    sent sS = [CPake testSid shareS; CConfirm testSid tagS] ∧
    establishKeys (λ _, Ok ()) testSid receiver testCode 1 (Ok shareS) (Ok tagS) = Ok (Done kr sR) ∧
    sent sR = [CPake testSid shareR; CConfirm testSid tagR] ∧ matching ks kr.
Proof.
  apply (honest_sides_agree (λ _, Ok ()) testSid testCode 0 1); [done|vm_compute; by split|vm_compute; by split].
Defined.

(** A wait that times out: the error is passed on and nothing is left. *)
Definition timedOut : result jsstr := throw "Timed out.".

Lemma establish_confirms_witness :
  ∃ e s, establishKeys (λ _, Ok ()) testSid sender testCode 0 timedOut timedOut = Ok (Raised e s) ∧ secretsWiped s.
Proof.
  eexists _, _. split; [reflexivity|].
  exact (establish_confirms (λ _, Ok ()) testSid sender testCode 0 timedOut timedOut _ eq_refl).
Defined.
