(* ===== verification/TransferControl.v ===== *)
(** * TransferControl: the control messages of a transfer
    ([src/shared/transfer.ts]).

    Control messages travel sealed between the two peers.  The parser rebuilds
    a message from an untrusted value; the theorems show that it accepts
    exactly the values with the shape of a message within the limits, and when a transfer manifest
    matches the one the user accepted. *)
From S2P Require Import Prelude.
From S2P Require Import Constants.
From S2P Require Import JsText.
From S2P Require Import JsValue.
From S2P Require Import Json.
From S2P Require Import Authority.
From S2P Require Import Protocol.
From S2P Require Import Messages.
From S2P Require Import Limits.
#[local] Open Scope Z_scope.

Definition MAX_ABORT_REASON_CHARS : Z := 1000.
Definition REMOTE_ABORT_MESSAGE : jsstr := js "Peer aborted the transfer.".
Definition LOCAL_ABORT_MESSAGE : jsstr := js "Transfer aborted.".

(** [ControlMessage]; the entries of a manifest all have their id *)
Inductive ControlMessage :=
| Manifest (files : list FileManifestEntry) (totalBytes : Z)
| FileBegin (id : Z) (name : jsstr) (size : Z)
| Ready (id : Z) (offset : option Z) (prefixSha256 : option jsstr)
| Restart (id : Z)
| FileEnd (id : Z) (sha256 : jsstr)
| FileOk (id : Z)
| AllDone
| AllDoneOk
| Abort (reason : jsstr).

(** The manifest object that the limits are checked on. *)
Definition manifestOf (files : list FileManifestEntry) (totalBytes : Z) : FileManifest :=
  {| fm_files := files; fm_fileCount := Z.of_nat (length files); fm_totalBytes := totalBytes |}.

(** [isUint8], [isOptionalResumeOffset], [/^[a-f0-9]{64}$/], [isOptionalSha256] and [isSafeReason] *)
Definition isUint8 (v : jsval) : bool := isIntegerIn 0 255 v.
Definition isOptionalResumeOffset (v : jsval) : bool := isUndefined v || isSafeNonNegative v.
Definition isSha256Hex (s : jsstr) : bool :=
  (jslen s =? 64) && forallb (λ c, ((97 <=? c) && (c <=? 102)) || isDigit c) s.
Definition isOptionalSha256 (v : jsval) : bool := isUndefined v || onString isSha256Hex v.
Definition isSafeReason (v : jsval) (maxChars : Z) : bool :=
  onString (λ s, (jslen s <=? maxChars) && negb (hasControlOrFormat s)) v.

Section Control.
Context `{JsCase}.

(** One entry of [assertTransferManifest], and its loop. *)
Definition assertTransferEntry (file : jsval) : result FileManifestEntry :=
  check (isObject file) "Malformed manifest file entry";;
  match field file "id", field file "name", field file "size" with
  | jint id, JStr name, jint size =>
    check (hasOnlyKeys file [js "id"; js "name"; js "size"; js "mime"] && isUint8 (jint id) && isSafeNonNegative (jint size))
      "Malformed manifest file entry";;
    match field file "mime" with
    | JUndefined => Ok {| fe_id := Some id; fe_name := name; fe_size := size; fe_mime := None |}
    | JStr mime =>
      check (jslen mime <=? MAX_MIME_CHARS) "Malformed manifest MIME type";;
      Ok {| fe_id := Some id; fe_name := name; fe_size := size; fe_mime := Some mime |}
    | _ => throw "Malformed manifest MIME type"
    end
  | _, _, _ => throw "Malformed manifest file entry"
  end.

Fixpoint assertTransferEntries (n : nat) (files : jsval) (index : Z) : result (list FileManifestEntry) :=
  match n with
  | O => Ok []
  | S n =>
    e ← assertTransferEntry (ownArrayDataValue files index);
    es ← assertTransferEntries n files (index + 1);
    Ok (e :: es)
  end.

(** [assertTransferManifest] *)
Definition assertTransferManifest (value : jsval) : result ControlMessage :=
  match field value "files", field value "totalBytes" with
  | JArr items, jint totalBytes =>
    check (hasOnlyKeys value [js "t"; js "files"; js "totalBytes"] && isSafeNonNegative (jint totalBytes)) "Malformed manifest control message";;
    check ((1 <=? Z.of_nat (length items)) && (Z.of_nat (length items) <=? MAX_FILES_PER_SESSION)) "File count must be between 1 and 100.";;
    files ← assertTransferEntries (length items) (JArr items) 0;
    assertTransferManifestWithinLimits (manifestValue (manifestOf files totalBytes));;
    Ok (Manifest files totalBytes)
  | _, _ => throw "Malformed manifest control message"
  end.

(** [assertControlMessage] *)
Definition assertControlMessage (value : jsval) : result ControlMessage :=
  check (isObject value) "Malformed control message";;
  match field value "t" with
  | JStr type =>
    if decide (type = js "manifest") then assertTransferManifest value
    else if decide (type = js "file-begin") then
      match field value "id", field value "name", field value "size" with
      | jint id, JStr name, jint size =>
        check (hasOnlyKeys value [js "t"; js "id"; js "name"; js "size"] && isUint8 (jint id) && isSafeNonNegative (jint size))
          "Malformed file-begin control message";;
        assertFileWithinLimits (JStr name) (jint size);;
        Ok (FileBegin id name size)
      | _, _, _ => throw "Malformed file-begin control message"
      end
    else if decide (type = js "file-ok") then
      match field value "id" with
      | jint id => check (hasOnlyKeys value [js "t"; js "id"] && isUint8 (jint id)) "Malformed file-ok control message";; Ok (FileOk id)
      | _ => throw "Malformed file-ok control message"
      end
    else if decide (type = js "ready") then
      let offset := field value "offset" in
      let prefixSha256 := field value "prefixSha256" in
      match field value "id", readOptional readInt offset, readOptional readString prefixSha256 with
      | jint id, Some offset', Some prefix' =>
        check (hasOnlyKeys value [js "t"; js "id"; js "offset"; js "prefixSha256"] && isUint8 (jint id) &&
          isOptionalResumeOffset offset && isOptionalSha256 prefixSha256) "Malformed ready control message";;
        check (negb (isUndefined offset && negb (isUndefined prefixSha256))) "Malformed ready control message";;
        check (match offset' with Some n => negb ((0 <? n) && isUndefined prefixSha256) | None => true end) "Malformed ready control message";;
        Ok (Ready id offset' prefix')
      | _, _, _ => throw "Malformed ready control message"
      end
    else if decide (type = js "restart") then
      match field value "id" with
      | jint id => check (hasOnlyKeys value [js "t"; js "id"] && isUint8 (jint id)) "Malformed restart control message";; Ok (Restart id)
      | _ => throw "Malformed restart control message"
      end
    else if decide (type = js "file-end") then
      match field value "id", field value "sha256" with
      | jint id, JStr sha256 =>
        check (hasOnlyKeys value [js "t"; js "id"; js "sha256"] && isUint8 (jint id) && isSha256Hex sha256)
          "Malformed file-end control message";;
        Ok (FileEnd id sha256)
      | _, _ => throw "Malformed file-end control message"
      end
    else if decide (type = js "all-done") then
      check (hasOnlyKeys value [js "t"]) "Malformed all-done control message";; Ok AllDone
    else if decide (type = js "all-done-ok") then
      check (hasOnlyKeys value [js "t"]) "Malformed all-done-ok control message";; Ok AllDoneOk
    else if decide (type = js "abort") then
      match field value "reason" with
      | JStr reason =>
        check (hasOnlyKeys value [js "t"; js "reason"] && isSafeReason (JStr reason) MAX_ABORT_REASON_CHARS) "Malformed abort control message";;
        Ok (Abort reason)
      | _ => throw "Malformed abort control message"
      end
    else throw "Unknown control message type"
  | _ => throw "Malformed control message"
  end.

(** [t], the type of a message *)
Definition controlType (m : ControlMessage) : jsstr :=
  js match m with
     | Manifest _ _ => "manifest" | FileBegin _ _ _ => "file-begin" | Ready _ _ _ => "ready" | Restart _ => "restart"
     | FileEnd _ _ => "file-end" | FileOk _ => "file-ok" | AllDone => "all-done" | AllDoneOk => "all-done-ok" | Abort _ => "abort"
     end.

(** [assertSenderControlMessage] *)
Definition assertSenderControlMessage (m : ControlMessage) : result ControlMessage :=
  match m with
  | Ready _ _ _ | FileOk _ | AllDoneOk | Abort _ => Ok m
  | _ => Err (js "Unexpected sender control message: " ++ controlType m ++ js ".")
  end.

(** [abortControlMessage] and [remoteAbortError] *)
Definition abortControlMessage : ControlMessage := Abort LOCAL_ABORT_MESSAGE.
Definition remoteAbortError {A} : result A := Err REMOTE_ABORT_MESSAGE.

(** The comparison of two entries in [assertTransferManifestMatchesAccepted]. *)
Definition sameEntry (a b : FileManifestEntry) : bool :=
  bool_decide (fe_id a = fe_id b) && bool_decide (fe_name a = fe_name b) && (fe_size a =? fe_size b) && bool_decide (fe_mime a = fe_mime b).

Definition mismatch : string := "Transfer manifest does not match the accepted manifest.".

Fixpoint assertSameEntries (accepted transfer : list FileManifestEntry) : result () :=
  match accepted with
  | [] => Ok ()
  | a :: accepted =>
    match transfer with
    | b :: transfer => check (sameEntry a b) mismatch;; assertSameEntries accepted transfer
    | [] => throw mismatch
    end
  end.

(** [assertTransferManifestMatchesAccepted] *)
Definition assertTransferManifestMatchesAccepted (accepted : FileManifest) (files : list FileManifestEntry) (totalBytes : Z) : result () :=
  assertTransferManifestWithinLimits (manifestValue accepted);;
  assertTransferManifestWithinLimits (manifestValue (manifestOf files totalBytes));;
  check ((fm_totalBytes accepted =? totalBytes) && (fm_fileCount accepted =? Z.of_nat (length files))) mismatch;;
  assertSameEntries (fm_files accepted) files.

End Control.

(** The object literals that are sent. *)
Definition controlValue (m : ControlMessage) : jsval :=
  obj ([(js "t", JStr (controlType m))] ++
    match m with
    | Manifest files totalBytes => [(js "files", arr (map entryValue files)); (js "totalBytes", jint totalBytes)]
    | FileBegin id name size => [(js "id", jint id); (js "name", JStr name); (js "size", jint size)]
    | Ready id offset prefix =>
      [(js "id", jint id)] ++ match offset with Some n => [(js "offset", jint n)] | None => [] end ++ optionalField "prefixSha256" prefix
    | Restart id | FileOk id => [(js "id", jint id)]
    | FileEnd id sha256 => [(js "id", jint id); (js "sha256", JStr sha256)]
    | AllDone | AllDoneOk => []
    | Abort reason => [(js "reason", JStr reason)]
    end).

(** ** What is accepted *)

Section ControlTheorems.
Context `{JsCase}.

(** A manifest that a transfer may have. *)
Definition transferOk (files : list FileManifestEntry) (totalBytes : Z) : Prop :=
  assertTransferManifestWithinLimits (manifestValue (manifestOf files totalBytes)) = Ok ().

Definition controlMessageOk (m : ControlMessage) : Prop :=
  match m with
  | Manifest files totalBytes => transferOk files totalBytes
  | FileBegin id name size => 0 <= id <= 255 ∧ assertFileWithinLimits (JStr name) (jint size) = Ok ()
  | Ready id offset prefix =>
    0 <= id <= 255 ∧ (∀ n, offset = Some n → 0 <= n <= MAX_SAFE_INTEGER ∧ (0 < n → prefix ≠ None)) ∧ (offset = None → prefix = None) ∧
    (∀ s, prefix = Some s → isSha256Hex s = true)
  | Restart id | FileOk id => 0 <= id <= 255
  | FileEnd id sha256 => 0 <= id <= 255 ∧ isSha256Hex sha256 = true
  | AllDone | AllDoneOk => True
  | Abort reason => jslen reason <= MAX_ABORT_REASON_CHARS ∧ hasControlOrFormat reason = false
  end.

Lemma isUint8_spec id : isUint8 (jint id) = true ↔ 0 <= id <= 255.
Proof. unfold isUint8. rewrite isIntegerIn_spec. naive_solver. Qed.

Lemma transferOk_entries files totalBytes :
  transferOk files totalBytes →
  manifestOk (manifestOf files totalBytes) ∧ Forall entryOk files ∧ ∀ i e, files !! i = Some e → fe_id e = Some (Z.of_nat i).
Proof.
  intros (m & Hread & Hok & _ & Hids)%transfer_manifest_sound. rewrite readManifest_manifestValue in Hread.
  apply (inj Some) in Hread as <-. split_and!; [done|exact (manifest_entries _ Hok)|done].
Qed.

(** Every file of a valid manifest is within the limits. *)
Lemma assertEntries_files n files index ids total t :
  assertEntries n files index ids total = Ok t → ∀ j, (j < n)%nat →
  assertFileWithinLimits (field (ownArrayDataValue files (index + Z.of_nat j)) "name") (field (ownArrayDataValue files (index + Z.of_nat j)) "size") = Ok ().
Proof.
  revert index ids total. induction n as [|n IH]; intros index ids total; cbn [assertEntries]; [lia|].
  intros ([ids' total'] & He & Hr)%result_bind_ok [|j] Hj.
  - rewrite Z.add_0_r. unfold assertEntry in He. apply check_bind_ok in He as [_ He]. apply result_bind_ok in He as (? & _ & He).
    by apply unit_bind_ok in He as [He _].
  - replace (index + Z.of_nat (S j)) with (index + 1 + Z.of_nat j) by lia. apply (IH _ _ _ Hr). lia.
Qed.

Lemma transferOk_file files totalBytes i e :
  transferOk files totalBytes → files !! i = Some e → assertFileWithinLimits (JStr (fe_name e)) (jint (fe_size e)) = Ok ().
Proof.
  intros ([] & Hm & _)%result_bind_ok Hi. unfold assertManifestWithinLimits in Hm. apply check_bind_ok in Hm as [_ Hm]. apply check_bind_ok in Hm as [_ Hm].
  change (field (manifestValue (manifestOf files totalBytes)) "files") with (arr (map entryValue files)) in Hm. unfold arr at 1 in Hm. cbv iota in Hm.
  apply check_bind_ok in Hm as [_ Hm]. case_match; try done. case_match; try done. apply check_bind_ok in Hm as [_ Hm].
  case_match; try done. case_match; try done. apply check_bind_ok in Hm as [_ Hm]. apply result_bind_ok in Hm as (t & Hm & _).
  rewrite length_map in Hm. pose proof (lookup_lt_Some _ _ _ Hi) as Hl. rewrite !length_map in Hm.
  pose proof (assertEntries_files _ _ _ _ _ _ Hm i Hl) as Hf. fold (arr (map entryValue files)) in Hf.
  rewrite ownArrayDataValue_literal in Hf by lia. rewrite Z.add_0_l, Nat2Z.id, list_lookup_fmap, Hi in Hf. cbn in Hf.
  destruct (entryValue_fields e) as (_ & E2 & E3 & _). by rewrite E2, E3 in Hf.
Qed.

Lemma assertTransferManifest_sound v m : assertTransferManifest v = Ok m → controlMessageOk m.
Proof.
  unfold assertTransferManifest. destruct (field v "files") as [| | | | | |items|]; try done.
  destruct (field v "totalBytes") as [| | |[total| |]| | | |]; try done.
  intros [_ [_ (files & _ & [Hok E]%unit_bind_ok)%result_bind_ok]%check_bind_ok]%check_bind_ok. apply (inj Ok) in E as <-. exact Hok.
Qed.

Lemma readOptionalInt v o : readOptional readInt v = Some o → (v = JUndefined ∧ o = None) ∨ ∃ z, v = jint z ∧ o = Some z.
Proof. unfold readOptional, readInt. destruct v as [| | |[z| |]| | | |]; cbn; intros [= <-]; eauto. Qed.
Lemma readOptionalString v o : readOptional readString v = Some o → (v = JUndefined ∧ o = None) ∨ ∃ s, v = JStr s ∧ o = Some s.
Proof. unfold readOptional, readString. destruct v; cbn; intros [= <-]; eauto. Qed.

(** A message is what its fields say, with every limit checked. *)
Ltac control_fields :=
  repeat match goal with
  | H : context [match readOptional ?r (field ?v ?n) with _ => _ end] |- _ => destruct (readOptional r (field v n)) eqn:?; try discriminate H
  | H : context [match field ?v ?n with _ => _ end] |- _ => destruct (field v n) eqn:?; try discriminate H
  | H : context [match ?n with NInt _ => _ | NReal _ => _ | NNotFinite => _ end] |- _ => destruct n; try discriminate H
  | H : (check _ _ ≫= _) = Ok _ |- _ => apply check_bind_ok in H as [? H]
  | H : (_ ≫= _) = Ok _ |- _ => apply unit_bind_ok in H as [? H]
  | H : Ok _ = Ok _ |- _ => apply (inj Ok) in H as <-
  | H : _ && _ = true |- _ => apply andb_true_iff in H as [? H]
  end.

Lemma assertControlMessage_sound v m : assertControlMessage v = Ok m → controlMessageOk m.
Proof.
  unfold assertControlMessage. intros [_ E]%check_bind_ok. destruct (field v "t") as [| | | |type| | |]; try done.
  repeat case_decide; [by apply assertTransferManifest_sound in E|..];
    control_fields; cbn [controlMessageOk];
    repeat match goal with H : isUint8 (jint _) = true |- _ => apply isUint8_spec in H end; try done.
  - split; [done|].
    repeat match goal with
    | H : readOptional readInt ?v = Some ?o |- _ => apply readOptionalInt in H as [[Eo ->]|(n & Eo & ->)]; rewrite Eo in *
    | H : readOptional readString ?v = Some ?o |- _ => apply readOptionalString in H as [[Ep ->]|(p & Ep & ->)]; rewrite Ep in *
    end; try discriminate; unfold isOptionalResumeOffset, isOptionalSha256 in *; cbn [isUndefined negb andb orb onString] in *;
      repeat match goal with H : isSafeNonNegative (jint _) = true |- _ => apply isSafeNonNegative_spec in H as (? & [= <-] & ?) end.
    + done.
    + split_and!; try done. intros n' [= <-]. split; [done|]. intros Hn. by rewrite (proj2 (Z.ltb_lt 0 n) Hn) in *.
    + split_and!; try done; [by intros n' [= <-]|by intros p' [= <-]].
  - unfold isSafeReason in *. cbn [onString] in *. bool_hyps. done.
Qed.

(** *** The shape of a message *)

Definition controlShape (m : ControlMessage) : list (string * (jsval → Prop)) :=
  match m with
  | Manifest files totalBytes =>
    [("t", eq (jstr "manifest")); ("files", arrayOf (map entryShape files)); ("totalBytes", eq (jint totalBytes))]
  | FileBegin id name size => [("t", eq (jstr "file-begin")); ("id", eq (jint id)); ("name", eq (JStr name)); ("size", eq (jint size))]
  | Ready id offset prefix =>
    [("t", eq (jstr "ready")); ("id", eq (jint id)); ("offset", eq (present (JNum ∘ NInt <$> offset))); ("prefixSha256", eq (present (JStr <$> prefix)))]
  | Restart id => [("t", eq (jstr "restart")); ("id", eq (jint id))]
  | FileEnd id sha256 => [("t", eq (jstr "file-end")); ("id", eq (jint id)); ("sha256", eq (JStr sha256))]
  | FileOk id => [("t", eq (jstr "file-ok")); ("id", eq (jint id))]
  | AllDone => [("t", eq (jstr "all-done"))]
  | AllDoneOk => [("t", eq (jstr "all-done-ok"))]
  | Abort reason => [("t", eq (jstr "abort")); ("reason", eq (JStr reason))]
  end%string.

(** An entry is what its properties say. *)
Lemma assertTransferEntry_shape v e : assertTransferEntry v = Ok e → entryShape e v.
Proof.
  rewrite entryShape_fields. unfold assertTransferEntry. intros [Ho He]%check_bind_ok.
  destruct (field v "id") as [| | |[id| |]| | | |] eqn:E1; try done. destruct (field v "name") as [| | | |name| | |] eqn:E2; try done.
  destruct (field v "size") as [| | |[size| |]| | | |] eqn:E3; try done. apply check_bind_ok in He as [Hk He]. rewrite !andb_true_iff in Hk. destruct Hk as [[Hk _] _].
  destruct (field v "mime") as [| | | |mime| | |] eqn:E4; try done; [|apply check_bind_ok in He as [_ He]]; by apply (inj Ok) in He as <-.
Qed.

Lemma assertTransferEntry_shaped v e id : entryOk e → fe_id e = Some id → entryShape e v → assertTransferEntry v = Ok e.
Proof.
  rewrite entryShape_fields. intros [Hid Hname Hsize Hmime] Eid (Ho & Hk & E1 & E2 & E3 & E4). unfold assertTransferEntry. rewrite E1, E2, E3, E4, Eid, Ho, Hk.
  apply check_bind_ok. split; [done|]. cbn [present fmap option_fmap option_map default from_option Datatypes.id compose].
  apply check_bind_ok. split.
  - rewrite !andb_true_iff, isUint8_spec. split; [split; [done|by apply Hid]|].
    apply isSafeNonNegative_spec. eexists. split; [done|]. unfold versionOk, MAX_FILE_BYTES, MAX_SAFE_INTEGER in *. lia.
  - destruct e as [oid name size [mime|]]; cbn in *; subst; [|done]. destruct (Hmime mime eq_refl) as [Hl _]. by rewrite (proj2 (Z.leb_le _ _)) by lia.
Qed.

Lemma assertTransferEntries_spec n v index files :
  assertTransferEntries n v index = Ok files → length files = n ∧ ∀ i e, files !! i = Some e → entryShape e (ownArrayDataValue v (index + Z.of_nat i)).
Proof.
  revert index files. induction n as [|n IH]; intros index files; cbn [assertTransferEntries]; [by intros [= <-]|].
  intros (e & He & (es & Hes & Ho)%result_bind_ok)%result_bind_ok. apply (inj Ok) in Ho as <-. destruct (IH _ _ Hes) as [Hl Hi].
  split; [cbn [length]; by f_equal|]. intros [|i] x Hx.
  - injection Hx as <-. rewrite Z.add_0_r. by apply assertTransferEntry_shape.
  - replace (index + Z.of_nat (S i)) with (index + 1 + Z.of_nat i) by lia. by apply Hi.
Qed.

Lemma assertTransferEntries_shaped files v index :
  Forall (λ e, entryOk e ∧ ∃ id, fe_id e = Some id) files → (∀ i e, files !! i = Some e → entryShape e (ownArrayDataValue v (index + Z.of_nat i))) →
  assertTransferEntries (length files) v index = Ok files.
Proof.
  intros Hall. revert index. induction Hall as [|e files [He [id Hid]] _ IH]; intros index Hv; [done|]. cbn [length assertTransferEntries].
  pose proof (Hv 0%nat e eq_refl) as He0. rewrite Z.add_0_r in He0. rewrite (assertTransferEntry_shaped _ e id) by done. cbn [mbind result_bind].
  rewrite IH; [done|]. intros i x Hx. replace (index + 1 + Z.of_nat i) with (index + Z.of_nat (S i)) by lia. by apply Hv.
Qed.

Lemma arrayOf_entries files v :
  arrayOf (map entryShape files) v ↔
  ∃ items, v = JArr items ∧ length items = length files ∧ ∀ i e, files !! i = Some e → entryShape e (ownArrayDataValue v (0 + Z.of_nat i)).
Proof.
  unfold arrayOf. rewrite length_map. f_equiv. intros items. do 2 f_equiv. split.
  - intros Hi i e He. rewrite Z.add_0_l. apply Hi. by rewrite list_lookup_fmap, He.
  - intros Hi i shape Hs. rewrite list_lookup_fmap in Hs. destruct (files !! i) as [e|] eqn:Ei; [|done]. injection Hs as <-. rewrite <-(Z.add_0_l (Z.of_nat i)). by apply Hi.
Qed.

(** What was read of an optional field, as an equation for the field *)
Lemma readOptionalInt_eq v o : readOptional readInt v = Some o → v = present (JNum ∘ NInt <$> o).
Proof. by intros [[-> ->]|(z & -> & ->)]%readOptionalInt. Qed.

Lemma assertTransferManifest_shape v m :
  isObject v = true → field v "t" = jstr "manifest" → assertTransferManifest v = Ok m → plainRecord v (controlShape m).
Proof.
  intros Ho Et. unfold assertTransferManifest. destruct (field v "files") as [| | | | | |items|] eqn:Ef; try done.
  destruct (field v "totalBytes") as [| | |[total| |]| | | |] eqn:Eb; try done.
  intros [Hk [_ (files & Hf & [_ E]%unit_bind_ok)%result_bind_ok]%check_bind_ok]%check_bind_ok. apply (inj Ok) in E as <-.
  apply andb_true_iff in Hk as [Hk _]. destruct (assertTransferEntries_spec _ _ _ _ Hf) as [Hl Hi].
  apply plainRecord_spec. cbn [controlShape map compose fst snd]. rewrite !Forall_cons, Forall_nil. cbn [fst snd]. rewrite Ef. split_and!; try done.
  apply arrayOf_entries. by exists items.
Qed.

Lemma assertControlMessage_shape v m : assertControlMessage v = Ok m → plainRecord v (controlShape m).
Proof.
  unfold assertControlMessage. intros [Ho E]%check_bind_ok. destruct (field v "t") as [| | | |type| | |] eqn:Et; try done.
  repeat (case_decide; [subst type|]); [by apply assertTransferManifest_shape|..];
    control_fields; try done; apply plainRecord_spec; cbn [controlShape map compose fst snd]; rewrite !Forall_cons, Forall_nil; cbn [fst snd];
    repeat match goal with
    | H : readOptional readInt _ = Some _ |- _ => apply readOptionalInt_eq in H
    | H : readOptional readString _ = Some _ |- _ => apply readOptionalString_eq in H
    end; split_and!; try done; by symmetry.
Qed.

Lemma assertTransferManifest_shaped v files totalBytes :
  transferOk files totalBytes → plainRecord v (controlShape (Manifest files totalBytes)) → assertTransferManifest v = Ok (Manifest files totalBytes).
Proof.
  intros Hok. rewrite plainRecord_spec. cbn [controlShape map compose fst snd]. rewrite !Forall_cons, Forall_nil. cbn [fst snd].
  intros (_ & Hk & _ & (items & Ef & Hl & Hi)%arrayOf_entries & Et & _). destruct (transferOk_entries files totalBytes Hok) as ([_ Hb _ _ Ht] & Hall & Hids).
  unfold assertTransferManifest. rewrite Ef, <-Et in *. rewrite Hl. cbn [fm_fileCount manifestOf] in Hb. pose proof (sumSizes_bounds files Hall) as Hsum.
  cbn [fm_totalBytes fm_files manifestOf] in Ht. apply check_bind_ok. split.
  { apply andb_true_iff. split; [done|]. apply isSafeNonNegative_spec. exists totalBytes. split; [done|].
    unfold versionOk, MAX_FILES_PER_SESSION, MAX_FILE_BYTES, MAX_SAFE_INTEGER in *. rewrite Ht. lia. }
  apply check_bind_ok. split; [apply andb_true_iff; rewrite !Z.leb_le; lia|]. rewrite assertTransferEntries_shaped; [|..].
  - cbn [mbind result_bind]. by rewrite Hok.
  - rewrite Forall_lookup in Hall |- *. intros i e He. split; [by eapply Hall|]. eauto.
  - done.
Qed.

(** A value that has the shape of a message within the limits is accepted. *)
Lemma assertControlMessage_shaped v m : controlMessageOk m → plainRecord v (controlShape m) → assertControlMessage v = Ok m.
Proof.
  intros Hm Hs. pose proof Hs as (Ho & Hk & HF)%plainRecord_spec. unfold assertControlMessage. apply check_bind_ok. split; [done|].
  assert (field v "t" = JStr (controlType m)) as Et by (destruct m; cbn [controlShape] in HF; apply Forall_cons in HF as [HF _]; by symmetry). rewrite Et.
  destruct m as [files totalBytes|id name size|id offset prefix|id|id sha256|id| | |reason]; cbn [controlType controlMessageOk] in *;
    repeat (rewrite decide_False by (vm_compute; discriminate)); rewrite decide_True by reflexivity;
    [by apply assertTransferManifest_shaped|..];
    cbn [controlShape map compose fst snd] in Hk, HF; rewrite !Forall_cons, Forall_nil in HF; cbn [fst snd] in HF; try (destruct offset, prefix); destruct_and?;
    repeat match goal with H : _ = field v _ |- _ => rewrite <-H end; cbn [present fmap option_fmap option_map default from_option Datatypes.id compose readOptional readInt readString];
    repeat (apply check_bind_ok; split); rewrite ?Hk; try reflexivity; try (rewrite !andb_true_iff; split_and!; try done; by apply isUint8_spec);
    repeat match goal with
    | H : ∀ n, Some ?z = Some n → _ |- _ => specialize (H z eq_refl) as [? ?]
    | H : ∀ s, Some ?z = Some s → isSha256Hex s = true |- _ => specialize (H z eq_refl)
    | H : None = None → _ |- _ => specialize (H eq_refl); try discriminate H
    end.
  - rewrite andb_true_l, andb_true_iff, isUint8_spec, isSafeNonNegative_spec. split; [done|]. exists size. split; [done|].
    match goal with H : assertFileWithinLimits _ _ = _ |- _ => apply assertFileWithinLimits_spec in H as (_ & _ & (n & [= <-] & ?)%isIntegerIn_spec) end.
    unfold versionOk, MAX_FILE_BYTES, MAX_SAFE_INTEGER in *. lia.
  - by match goal with H : assertFileWithinLimits _ _ = _ |- _ => rewrite H end.
  - rewrite !andb_true_iff. split; [split; [split; [done|by apply isUint8_spec]|]|done]. apply isSafeNonNegative_spec. by eexists.
  - by rewrite andb_false_r.
  - rewrite !andb_true_iff. split; [split; [split; [done|by apply isUint8_spec]|]|done]. apply isSafeNonNegative_spec. by eexists.
  - destruct (Z.ltb_spec 0 z) as [Hz|_]; [|done]. match goal with Hn : 0 < z → None ≠ None |- _ => by destruct (Hn Hz) end.
  - unfold isSafeReason. cbn [onString andb]. rewrite andb_true_iff, Z.leb_le, negb_true_iff. done.
Qed.

(** The literal of a message has its shape. *)
Lemma controlValue_shape m : plainRecord (controlValue m) (controlShape m).
Proof.
  apply plainRecord_spec. split; [apply isObject_literal|].
  destruct m as [files totalBytes|id name size|id offset prefix|id|id sha256|id| | |reason]; try (destruct offset, prefix);
    (split; [reflexivity|]); cbn [controlShape]; rewrite !Forall_cons, Forall_nil; split_and!; try done.
  cbn [fst snd]. change (field _ "files") with (field (manifestValue (manifestOf files totalBytes)) "files").
  pose proof (manifestValue_shape (manifestOf files totalBytes)) as [_ HF]. by apply Forall_cons in HF as [HF _].
Qed.

Lemma assertControlMessage_complete m : controlMessageOk m → assertControlMessage (controlValue m) = Ok m.
Proof. intros Hm. apply assertControlMessage_shaped; [done|apply controlValue_shape]. Qed.

(** *** The limits, spelled out *)

Lemma assertSequentialIds_complete n files index :
  0 <= index → index + Z.of_nat n <= 256 → (∀ i, index <= i < index + Z.of_nat n → field (ownArrayDataValue files i) "id" = jint i) →
  assertSequentialIds n files index = Ok ().
Proof.
  revert index. induction n as [|n IH]; intros index H0 Hn Hi; [done|]. cbn [assertSequentialIds]. rewrite (Hi index) by lia.
  rewrite !check_bind_ok, !isIntegerIn_spec. split_and!; [by exists index; split; [|lia]|by exists index; split; [|lia]|].
  apply IH; [lia..|]. intros i Hin. apply Hi. lia.
Qed.

Lemma transferOk_exact files totalBytes :
  transferOk files totalBytes ↔
  manifestOk (manifestOf files totalBytes) ∧ Forall (λ e, fixedName (JStr (fe_name e))) files ∧ ∀ i e, files !! i = Some e → fe_id e = Some (Z.of_nat i).
Proof.
  split.
  - intros Hok. destruct (transferOk_entries _ _ Hok) as (Hm & _ & Hids). split_and!; [done| |done]. apply Forall_lookup. intros i e He.
    by apply (transferOk_file _ _ _ _ Hok), assertFileWithinLimits_spec in He as (_ & ? & _).
  - intros (Hm & Hnames & Hids). assert (∀ i, 0 <= i < Z.of_nat (length files) → ∃ e, files !! Z.to_nat i = Some e ∧ ownArrayDataValue (arr (map entryValue files)) i = entryValue e) as Hat.
    { intros i Hi. destruct (lookup_lt_is_Some_2 files (Z.to_nat i)) as [e He]; [lia|]. exists e. split; [done|].
      by rewrite ownArrayDataValue_literal, list_lookup_fmap, He by lia. }
    unfold transferOk, assertTransferManifestWithinLimits. rewrite unit_bind_ok, manifest_agree. unfold namesFixed.
    change (field (manifestValue (manifestOf files totalBytes)) "files") with (arr (map entryValue files)). unfold arr. rewrite !length_map.
    fold (arr (map entryValue files)). split_and!; [by apply isManifest_complete| |].
    + intros i Hi. destruct (Hat i) as (e & He & ->); [lia|]. destruct (entryValue_fields e) as (_ & -> & _). by apply (Forall_lookup_1 _ _ _ _ Hnames He).
    + destruct Hm as [_ Hb _ _ _]. cbn [manifestOf fm_fileCount] in Hb. unfold MAX_FILES_PER_SESSION in Hb.
      apply assertSequentialIds_complete; [lia..|]. intros i Hi. destruct (Hat i) as (e & He & ->); [lia|].
      destruct (entryValue_fields e) as (-> & _). rewrite (Hids _ _ He). do 2 f_equal. lia.
Qed.

Lemma fileBegin_exact id name size :
  controlMessageOk (FileBegin id name size) ↔ 0 <= id <= 255 ∧ nameText name ∧ fixedName (JStr name) ∧ 0 <= size <= MAX_FILE_BYTES.
Proof.
  cbn [controlMessageOk]. rewrite assertFileWithinLimits_spec, isSafeManifestFileName_spec, isIntegerIn_spec. naive_solver.
Qed.

(** C40. The parser of control messages is exact.  A value that the peer sends is accepted as the message [m] if and only if
    [m] is within the limits of its type (ids, offsets and hashes in range, a clean abort reason) and the value has the
    shape of [m]: a plain object with enumerable data under the names of the message and no others, that hold its type and
    its parts, the entries of a manifest likewise.  Every such message that the program builds is accepted and read back as
    itself.  A manifest is within the limits if and only if it is one of the protocol, its ids count up from 0 and
    [safeFileName] leaves its names as they are, a [file-begin] if and only if its name is such a name and its id and size
    are in range; such names are portable. *)
Theorem control_messages_exact :
  (∀ v m, assertControlMessage v = Ok m ↔ controlMessageOk m ∧ plainRecord v (controlShape m)) ∧
  (∀ m, controlMessageOk m → assertControlMessage (controlValue m) = Ok m) ∧
  (∀ files totalBytes, controlMessageOk (Manifest files totalBytes) ↔
    manifestOk (manifestOf files totalBytes) ∧ Forall (λ e, fixedName (JStr (fe_name e))) files ∧ ∀ i e, files !! i = Some e → fe_id e = Some (Z.of_nat i)) ∧
  (∀ id name size, controlMessageOk (FileBegin id name size) ↔ 0 <= id <= 255 ∧ nameText name ∧ fixedName (JStr name) ∧ 0 <= size <= MAX_FILE_BYTES) ∧
  (∀ name, nameText name → fixedName (JStr name) → portableName name).
Proof.
  split_and!; [|apply assertControlMessage_complete|apply transferOk_exact|apply fileBegin_exact|].
  - intros v m. split; [intros Hv; split; [by eapply assertControlMessage_sound|by apply assertControlMessage_shape]|].
    intros [Hok Hs]. by apply assertControlMessage_shaped.
  - intros name (_ & ? & _) (? & [= <-] & Hfix). by apply fixpoint_cleaned.
Qed.

(** *** The accepted manifest *)

Lemma sameEntry_spec a b : sameEntry a b = true ↔ a = b.
Proof.
  unfold sameEntry. rewrite !andb_true_iff, !bool_decide_eq_true, Z.eqb_eq. split; [|by intros ->].
  destruct a, b. cbn. by intros [[[-> ->] ->] ->].
Qed.

Lemma assertSameEntries_spec l l' : length l = length l' → assertSameEntries l l' = Ok () ↔ l = l'.
Proof.
  revert l'. induction l as [|a l IH]; intros [|b l'] Hlen; try done. cbn [assertSameEntries].
  rewrite check_bind_ok, sameEntry_spec, IH by (by injection Hlen). split; [by intros [-> ->]|by intros [= -> ->]].
Qed.

Lemma matches_accepted accepted files totalBytes :
  assertTransferManifestMatchesAccepted accepted files totalBytes = Ok () ↔
  transferOk files totalBytes ∧ accepted = manifestOf files totalBytes.
Proof.
  unfold assertTransferManifestMatchesAccepted. rewrite !unit_bind_ok, check_ok, andb_true_iff, !Z.eqb_eq. split.
  - intros (Ha & Hok & (Ht & Hc) & E). split; [exact Hok|].
    destruct (transfer_manifest_sound _ Ha) as (m & Hread & [Hcount _ _ _ _] & _). rewrite readManifest_manifestValue in Hread.
    apply (inj Some) in Hread as <-. apply assertSameEntries_spec in E; [|lia].
    destruct accepted as [fs fc tb]. unfold manifestOf. cbn in *. by subst.
  - intros [Hok ->]. split_and!; try done. by apply assertSameEntries_spec.
Qed.

(** The transfer manifest matches the manifest the user accepted exactly when both are valid for a transfer and
    they have the same entries, ids, names, sizes and types, in the same order, and the same total. *)
Theorem manifest_matches_accepted accepted files totalBytes :
  assertTransferManifestMatchesAccepted accepted files totalBytes = Ok () ↔
  transferOk files totalBytes ∧ accepted = manifestOf files totalBytes.
Proof. apply matches_accepted. Qed.

End ControlTheorems.

(** ** Concrete messages *)

#[local] Existing Instance asciiCase.

Definition testFiles : list FileManifestEntry :=
  [{| fe_id := Some 0; fe_name := js "a.txt"; fe_size := 3; fe_mime := None |};
   {| fe_id := Some 1; fe_name := js "b.txt"; fe_size := 4; fe_mime := Some (js "text/plain") |}].

Lemma control_messages_exact_witness :
  controlMessageOk (Ready 3 (Some 65536) (Some (repeat 97 64))) ∧
  assertControlMessage (controlValue (Ready 3 (Some 65536) (Some (repeat 97 64)))) = Ok (Ready 3 (Some 65536) (Some (repeat 97 64))) ∧
  is_ok (assertControlMessage (controlValue (Ready 3 (Some 65536) None))) = false.
Proof.
  assert (Hok : controlMessageOk (Ready 3 (Some 65536) (Some (repeat 97 64)))).
  { split; [lia|]. split; [intros n [= <-]; unfold MAX_SAFE_INTEGER; split; [lia|discriminate]|]. split; [discriminate|].
    intros s [= <-]. reflexivity. }
  split; [exact Hok|]. split; [|reflexivity]. exact (proj1 (proj2 control_messages_exact) _ Hok).
Defined.

Example accepted_manifest_is_checked :
  assertTransferManifestMatchesAccepted (manifestOf testFiles 7) testFiles 7 = Ok () ∧
  is_ok (assertTransferManifestMatchesAccepted (manifestOf testFiles 7) (reverse testFiles) 7) = false.
Proof. by vm_compute. Qed.
