(* ===== verification/Async.v ===== *)
(** * Async: cooperative tasks of the event loop.

    An [async] function runs without interruption until an [await]; while it
    waits, events and other functions run.  A [task] is the tree of what such
    a function does: steps on the shared state, and awaited operations whose
    answers come from the environment.  [twp] is its weakest precondition: at
    every [await] the invariant must hold, and the continuation must cope with
    whatever the rely allows the others to do meanwhile.  The theorem
    [system_invariant] says that this is enough: when one foreground task (the
    tasks of a queue run one at a time) and any number of background tasks
    satisfy their preconditions, the invariant holds whenever control is at
    the event loop, under every interleaving and all answers. *)
From S2P Require Import Prelude.

Section Task.
Context (op : Type → Type) (S : Type).

(** What an async function still has to do. *)
Inductive task (A : Type) : Type :=
| Ret (a : A)
| Throw (message : jsstr)
| Atomic {B} (f : S → B * S) (k : B → task A)
| Await {B} (o : op B) (k : result B → task A).

End Task.
Arguments Ret {op S A} a.
Arguments Throw {op S A} message.
Arguments Atomic {op S A B} f k.
Arguments Await {op S A B} o k.

Section Combinators.
Context {op : Type → Type} {S : Type}.

Fixpoint tbind {A B} (f : A → task op S B) (t : task op S A) : task op S B :=
  match t with
  | Ret a => f a
  | Throw e => Throw e
  | Atomic g k => Atomic g (λ b, tbind f (k b))
  | Await o k => Await o (λ r, tbind f (k r))
  end.

(** [try { t } catch (e) { h(e) }] *)
Fixpoint tcatch {A} (t : task op S A) (h : jsstr → task op S A) : task op S A :=
  match t with
  | Ret a => Ret a
  | Throw e => h e
  | Atomic g k => Atomic g (λ b, tcatch (k b) h)
  | Await o k => Await o (λ r, tcatch (k r) h)
  end.

Definition get : task op S S := Atomic (λ s, (s, s)) Ret.
Definition modify (f : S → S) : task op S () := Atomic (λ s, ((), f s)) Ret.
Definition lift {A} (r : result A) : task op S A := match r with Ok a => Ret a | Err e => Throw e end.
Definition await {B} (o : op B) : task op S B := Await o lift.
Definition twhen (b : bool) (t : task op S ()) : task op S () := if b then t else Ret ().

(** The outcome of [t] as a value, and [try { t } finally { c }]. *)
Definition ttry {A} (t : task op S A) : task op S (result A) := tcatch (tbind (λ a, Ret (Ok a)) t) (λ e, Ret (Err e)).
Definition tfinally {A} (t : task op S A) (c : task op S ()) : task op S A :=
  tbind (λ r, tbind (λ _, lift r) c) (ttry t).

(** Running a task up to its next [await]. *)
Fixpoint advance {A} (t : task op S A) (s : S) : task op S A * S :=
  match t with
  | Atomic f k => advance (k (f s).1) (f s).2
  | _ => (t, s)
  end.

End Combinators.

#[export] Instance task_ret op S : MRet (task op S) := λ A a, Ret a.
#[export] Instance task_bind op S : MBind (task op S) := λ A B f t, tbind f t.

(** ** Weakest preconditions *)

Section Wp.
Context {op : Type → Type} {S : Type}.
(** What an operation may answer, the invariant at every [await], what the
    others may do meanwhile, and what a step of the task may do. *)
Context (answers : ∀ B, op B → S → result B → Prop) (I : S → Prop) (rely guar : S → S → Prop).

Fixpoint twp {A} (t : task op S A) (Q : A → S → Prop) (E : jsstr → S → Prop) (s : S) : Prop :=
  match t with
  | Ret a => Q a s
  | Throw e => E e s
  | Atomic f k => guar s (f s).2 ∧ twp (k (f s).1) Q E (f s).2
  | Await o k => I s ∧ ∀ s' r, I s' → rely s s' → answers _ o s' r → twp (k r) Q E s'
  end.

Lemma twp_mono {A} (t : task op S A) (P Q : A → S → Prop) (D E : jsstr → S → Prop) s :
  twp t P D s → (∀ a s', P a s' → Q a s') → (∀ e s', D e s' → E e s') → twp t Q E s.
Proof.
  intros Ht HQ HE. revert s Ht. induction t as [a|e|B f k IH|B o k IH]; intros s; cbn [twp]; [auto..| |].
  - intros [Hg Ht]. auto.
  - intros [Hi Ht]. split; [done|]. intros s' r Hi' Hr Ha. apply IH, Ht; auto.
Qed.

Lemma twp_bind {A B} (t : task op S A) (f : A → task op S B) Q E s :
  twp t (λ a s', twp (f a) Q E s') E s → twp (t ≫= f) Q E s.
Proof.
  unfold mbind, task_bind. revert s. induction t as [a|e|C g k IH|C o k IH]; intros s; cbn [twp tbind]; [done..| |].
  - intros [Hg Ht]. split; [done|]. by apply IH.
  - intros [Hi Ht]. split; [done|]. intros s' r Hi' Hr Ha. apply IH. by apply Ht.
Qed.

Lemma twp_catch {A} (t : task op S A) (h : jsstr → task op S A) Q E s :
  twp t Q (λ e s', twp (h e) Q E s') s → twp (tcatch t h) Q E s.
Proof.
  revert s. induction t as [a|e|C g k IH|C o k IH]; intros s; cbn [twp tcatch]; [done..| |].
  - intros [Hg Ht]. split; [done|]. by apply IH.
  - intros [Hi Ht]. split; [done|]. intros s' r Hi' Hr Ha. apply IH. by apply Ht.
Qed.

Lemma twp_ret {A} (a : A) Q E s : Q a s → twp (mret a) Q E s.
Proof. done. Qed.
Lemma twp_throw {A} e (Q : A → S → Prop) E s : E e s → twp (Throw e) Q E s.
Proof. done. Qed.
Lemma twp_get Q E s : guar s s → Q s s → twp get Q E s.
Proof. done. Qed.
Lemma twp_modify f (Q : unit → S → Prop) E s : guar s (f s) → Q () (f s) → twp (modify f) Q E s.
Proof. done. Qed.
Lemma twp_lift {A} (r : result A) Q E s : match r with Ok a => Q a s | Err e => E e s end → twp (lift r) Q E s.
Proof. by destruct r. Qed.
Lemma twp_when b (t : task op S ()) Q E s : (b = true → twp t Q E s) → (b = false → Q () s) → twp (twhen b t) Q E s.
Proof. destruct b; intros H1 H2; [by apply H1|by apply H2]. Qed.
Lemma twp_try {A} (t : task op S A) Q E s : twp t (λ a, Q (Ok a)) (λ e, Q (Err e)) s → twp (ttry t) Q E s.
Proof. intros H. apply twp_catch, twp_bind. exact H. Qed.
Lemma twp_finally {A} (t : task op S A) c Q E s :
  twp t (λ a s', twp c (λ _, Q a) E s') (λ e s', twp c (λ _, E e) E s') s → twp (tfinally t c) Q E s.
Proof. intros H. apply twp_bind, twp_try. eapply twp_mono; [exact H|..]; intros x s' Hc; by apply twp_bind. Qed.
Lemma twp_await {B} (o : op B) Q E s :
  I s → (∀ s' r, I s' → rely s s' → answers _ o s' r → match r with Ok b => Q b s' | Err e => E e s' end) →
  twp (await o) Q E s.
Proof. intros Hi H. split; [done|]. intros s' r Hi' Hr Ha. apply twp_lift. by apply H. Qed.

Context {Hrely : PreOrder rely} {Hguar : PreOrder guar}.

(** A waiting task does not mind what the rely allows. *)
Lemma twp_stable {A B} (o : op B) (k : result B → task op S A) Q E s s' :
  twp (Await o k) Q E s → I s' → rely s s' → twp (Await o k) Q E s'.
Proof using Hrely.
  intros [_ Ht] Hi Hr. split; [done|]. intros s'' r Hi' Hr' Ha. apply Ht; [done| |done]. by transitivity s'.
Qed.

Lemma twp_advance {A} (t : task op S A) Q E s t' s' :
  twp t Q E s → advance t s = (t', s') → guar s s' ∧ twp t' Q E s' ∧ ∀ B (f : S → B * S) k, t' ≠ Atomic f k.
Proof using Hguar.
  revert s. induction t as [a|e|B f k IH|B o k IH]; intros s Ht Ha; cbn [advance] in Ha.
  - injection Ha as <- <-. split_and!; [reflexivity|done|done].
  - injection Ha as <- <-. split_and!; [reflexivity|done|done].
  - destruct Ht as [Hg Ht]. destruct (IH _ _ Ht Ha) as (Hg' & Ht' & Hn). split_and!; [by etransitivity|done|done].
  - injection Ha as <- <-. split_and!; [reflexivity|done|done].
Qed.

End Wp.

(** A task that copes with more and does less. *)
Lemma twp_weaken {op S A} (answers : ∀ B, op B → S → result B → Prop) I rely guar (rely' guar' : S → S → Prop) (t : task op S A) Q E s :
  (∀ s s', rely' s s' → rely s s') → (∀ s s', guar s s' → guar' s s') →
  twp answers I rely guar t Q E s → twp answers I rely' guar' t Q E s.
Proof.
  intros Hr Hg. revert s. induction t as [a|e|B f k IH|B o k IH]; intros s; cbn [twp]; [done..| |].
  - intros [H1 H2]. auto.
  - intros [H1 H2]. split; [done|]. intros s' r Hi' Hr' Ha. apply IH, H2; auto.
Qed.

(** The whole run of a task is a sequence of its own steps and those of others. *)
Lemma twp_frame {op S A} (answers : ∀ B, op B → S → result B → Prop) I rely guar (R : S → S → Prop) (t : task op S A) Q E s0 s :
  PreOrder R → (∀ s s', rely s s' → R s s') → (∀ s s', guar s s' → R s s') → R s0 s →
  twp answers I rely guar t Q E s → twp answers I rely guar t (λ a s', Q a s' ∧ R s0 s') (λ e s', E e s' ∧ R s0 s') s.
Proof.
  intros HR Hr Hg. revert s. induction t as [a|e|B f k IH|B o k IH]; intros s H0; cbn [twp]; [by split..| |].
  - intros [H1 H2]. split; [done|]. apply IH; [|done]. etransitivity; eauto.
  - intros [H1 H2]. split; [done|]. intros s' r Hi' Hr' Ha. apply IH; [etransitivity; eauto|]. by apply H2.
Qed.

(** ** The event loop *)

Section System.
Context {op : Type → Type} {S : Type}.
Context (answers : ∀ B, op B → S → result B → Prop).
(** The tasks that may start at the event loop: in the foreground when it is
    free, in the background at any time. *)
Context (starts launches : S → task op S () → Prop).

Record config := { shared : S; foreground : option (task op S ()); background : list (task op S ()) }.

Definition suspended (t : task op S ()) : option (task op S ()) := match t with Await _ _ => Some t | _ => None end.

Inductive step : config → config → Prop :=
| step_start s bg t t' s' :
    starts s t → advance t s = (t', s') →
    step {| shared := s; foreground := None; background := bg |}
         {| shared := s'; foreground := suspended t'; background := bg |}
| step_foreground s bg B (o : op B) k r t' s' :
    answers _ o s r → advance (k r) s = (t', s') →
    step {| shared := s; foreground := Some (Await o k); background := bg |}
         {| shared := s'; foreground := suspended t'; background := bg |}
| step_launch s fg bg t t' s' :
    launches s t → advance t s = (t', s') →
    step {| shared := s; foreground := fg; background := bg |}
         {| shared := s'; foreground := fg; background := option_list (suspended t') ++ bg |}
| step_background s fg bg1 bg2 B (o : op B) k r t' s' :
    answers _ o s r → advance (k r) s = (t', s') →
    step {| shared := s; foreground := fg; background := bg1 ++ Await o k :: bg2 |}
         {| shared := s'; foreground := fg; background := bg1 ++ option_list (suspended t') ++ bg2 |}.

Definition reachable (s : S) : config → Prop :=
  rtc step {| shared := s; foreground := None; background := [] |}.

Context (I : S → Prop) (relyF relyB : S → S → Prop).
Context {HrelyF : PreOrder relyF} {HrelyB : PreOrder relyB}.

(** The foreground may do what the background tolerates; the background what
    both tolerate. *)
Definition guarB (s s' : S) : Prop := relyF s s' ∧ relyB s s'.
#[local] Instance guarB_preorder : PreOrder guarB.
Proof using HrelyF HrelyB.
  split; [by intros s|]. intros s1 s2 s3 [H1 H2] [H3 H4]. split; by etransitivity.
Qed.

Definition settles {A} : A → S → Prop := λ _ s, I s.
Abbreviation wpF t := (twp answers I relyF relyB t settles settles).
Abbreviation wpB t := (twp answers I relyB guarB t settles settles).

Definition waiting (wp : task op S () → S → Prop) (s : S) (t : task op S ()) : Prop := suspended t = Some t ∧ wp t s.

Record sound (c : config) : Prop := {
  sound_invariant : I (shared c);
  sound_foreground t : foreground c = Some t → waiting (λ t, wpF t) (shared c) t;
  sound_background : Forall (waiting (λ t, wpB t) (shared c)) (background c)
}.

Hypothesis starts_wp : ∀ s t, I s → starts s t → wpF t s.
Hypothesis launches_wp : ∀ s t, I s → launches s t → wpB t s.

Lemma waiting_stable rely guar (s s' : S) (t : task op S ()) :
  PreOrder rely → I s' → rely s s' →
  waiting (λ t, twp answers I rely guar t settles settles) s t → waiting (λ t, twp answers I rely guar t settles settles) s' t.
Proof.
  intros ? Hi Hr [Hs Ht]. split; [done|]. destruct t as [| | |B o k]; try done. by apply (twp_stable answers I rely guar o k _ _ s).
Qed.

(** Advancing a task to its next [await] reestablishes the invariant. *)
Lemma advance_settles rely guar (t t' : task op S ()) (s s' : S) :
  PreOrder rely → PreOrder guar → twp answers I rely guar t settles settles s → advance t s = (t', s') →
  guar s s' ∧ I s' ∧ ∀ u, suspended t' = Some u → waiting (λ t, twp answers I rely guar t settles settles) s' u.
Proof.
  intros ? ? Ht Ha. destruct (twp_advance answers I rely guar t _ _ s t' s' Ht Ha) as (Hg & Ht' & Hn). split; [done|].
  destruct t' as [a|e|B f k|B o k]; [| |by destruct (Hn B f k)|].
  - split; [exact Ht'|done].
  - split; [exact Ht'|done].
  - split; [apply Ht'|]. intros u [= <-]. by split.
Qed.

Lemma step_sound c c' : sound c → step c c' → sound c'.
Proof using HrelyF HrelyB starts_wp launches_wp.
  intros [Hi Hf Hb] Hstep. destruct Hstep as [s bg t t' s' Hst Ha|s bg B o k r t' s' Hans Ha|s fg bg t t' s' Hl Ha|s fg bg1 bg2 B o k r t' s' Hans Ha];
    cbn [shared foreground background] in *.
  - destruct (advance_settles relyF relyB t t' s s') as (Hg & Hi' & Hw); [done..|by apply starts_wp|done|]. split; [done|done|].
    cbn. eapply Forall_impl; [exact Hb|]. intros u Hu. by apply (waiting_stable relyB guarB s).
  - destruct (Hf _ eq_refl) as [_ [_ Hk]]. destruct (advance_settles relyF relyB (k r) t' s s') as (Hg & Hi' & Hw); [done..|by apply Hk|done|].
    split; [done|done|]. cbn. eapply Forall_impl; [exact Hb|]. intros u Hu. by apply (waiting_stable relyB guarB s).
  - destruct (advance_settles relyB guarB t t' s s') as ([Hg1 Hg2] & Hi' & Hw); [done|apply _|by apply launches_wp|done|].
    split; [done| |].
    + intros u Hu. cbn. by apply (waiting_stable relyF relyB s); [..|apply Hf].
    + cbn. apply Forall_app. split; [destruct (suspended t') as [u|] eqn:E; cbn; [apply Forall_singleton; by apply Hw|constructor]|].
      eapply Forall_impl; [exact Hb|]. intros u Hu. by apply (waiting_stable relyB guarB s).
  - apply Forall_app in Hb as [Hb1 Hb2]. apply Forall_cons in Hb2 as [[_ [_ Hk]] Hb2'].
    destruct (advance_settles relyB guarB (k r) t' s s') as ([Hg1 Hg2] & Hi' & Hw); [done|apply _|by apply Hk|done|].
    split; [done| |].
    + intros u Hu. cbn. by apply (waiting_stable relyF relyB s); [..|apply Hf].
    + cbn. rewrite !Forall_app. split_and!.
      * eapply Forall_impl; [exact Hb1|]. intros u Hu. by apply (waiting_stable relyB guarB s).
      * destruct (suspended t') as [u|] eqn:E; cbn; [apply Forall_singleton; by apply Hw|constructor].
      * eapply Forall_impl; [exact Hb2'|]. intros u Hu. by apply (waiting_stable relyB guarB s).
Qed.

(** The invariant holds at the event loop. *)
Lemma system_invariant s c : I s → reachable s c → I (shared c).
Proof using HrelyF HrelyB starts_wp launches_wp.
  intros Hi Hr. apply sound_invariant. revert Hr. unfold reachable.
  assert (sound {| shared := s; foreground := None; background := [] |}) as H0 by (by split; [| |constructor]).
  intros Hr. induction Hr as [c|c c' c'' Hstep _ IH]; [done|]. apply IH. by apply (step_sound c).
Qed.

End System.

(** ** Running a task alone *)

Section Exec.
Context {op : Type → Type} {S : Type}.
(** What the environment answers. *)
Context (oracle : ∀ B, op B → S → result B).

Fixpoint exec {A} (t : task op S A) (s : S) : result A * S :=
  match t with
  | Ret a => (Ok a, s)
  | Throw e => (Err e, s)
  | Atomic f k => exec (k (f s).1) (f s).2
  | Await o k => exec (k (oracle _ o s)) s
  end.

Definition answeredBy (B : Type) (o : op B) (s : S) (r : result B) : Prop := r = oracle B o s.

(** Without interference and with these answers. *)
Lemma exec_twp {A} (t : task op S A) Q E s :
  twp answeredBy (λ _, True) eq (λ _ _, True) t Q E s → match (exec t s).1 with Ok a => Q a (exec t s).2 | Err e => E e (exec t s).2 end.
Proof.
  revert s. induction t as [a|e|B f k IH|B o k IH]; intros s; cbn [twp exec]; [done..| |].
  - intros [_ Ht]. by apply IH.
  - intros [_ Ht]. by apply IH, Ht.
Qed.

Context (answers : ∀ B, op B → S → result B → Prop) (starts launches : S → task op S () → Prop).
Hypothesis oracle_answers : ∀ B o s, answers B o s (oracle B o s).
Abbreviation step := (step answers starts launches).

Lemma exec_foreground (t : task op S ()) s bg :
  rtc step {| shared := (advance t s).2; foreground := suspended (advance t s).1; background := bg |}
           {| shared := (exec t s).2; foreground := None; background := bg |}.
Proof using oracle_answers.
  revert s. induction t as [a|e|B f k IH|B o k IH]; intros s; cbn [advance exec]; [done|done|apply IH|].
  eapply rtc_l; [|apply IH]. cbn [suspended fst snd]. eapply step_foreground; [apply oracle_answers|apply surjective_pairing].
Qed.

Lemma exec_background (t : task op S ()) s fg bg :
  rtc step {| shared := (advance t s).2; foreground := fg; background := option_list (suspended (advance t s).1) ++ bg |}
           {| shared := (exec t s).2; foreground := fg; background := bg |}.
Proof using oracle_answers.
  revert s. induction t as [a|e|B f k IH|B o k IH]; intros s; cbn [advance exec]; [done|done|apply IH|].
  eapply rtc_l; [|apply IH]. cbn [suspended option_list app fst snd].
  apply (step_background answers starts launches s fg [] bg B o k (oracle B o s)); [apply oracle_answers|apply surjective_pairing].
Qed.

Lemma exec_start t s bg :
  starts s t → rtc step {| shared := s; foreground := None; background := bg |} {| shared := (exec t s).2; foreground := None; background := bg |}.
Proof using oracle_answers. intros Hs. eapply rtc_l; [|apply exec_foreground]. by eapply step_start; [|apply surjective_pairing]. Qed.

Lemma exec_launch t s fg bg :
  launches s t → rtc step {| shared := s; foreground := fg; background := bg |} {| shared := (exec t s).2; foreground := fg; background := bg |}.
Proof using oracle_answers. intros Hs. eapply rtc_l; [|apply exec_background]. by eapply step_launch; [|apply surjective_pairing]. Qed.

End Exec.

(** ** Runs that the environment lets happen *)

Section Can.
Context {op : Type → Type} {S : Type}.
Context (answers : ∀ B, op B → S → result B → Prop) (starts launches : S → task op S () → Prop).
Abbreviation step := (step answers starts launches).

(** Others can take the state from [s] to [s'] while a task waits. *)
Definition others (s s' : S) : Prop :=
  ∀ fg bg, rtc step {| shared := s; foreground := fg; background := bg |} {| shared := s'; foreground := fg; background := bg |}.

#[export] Instance others_preorder : PreOrder others.
Proof. split; [by intros s fg bg|]. intros s1 s2 s3 Ha Hb fg bg. etransitivity; [apply Ha|apply Hb]. Qed.

(** The task can end in [Q], given suitable answers at suitable times. *)
Fixpoint can {A} (t : task op S A) (Q : result A → S → Prop) (s : S) : Prop :=
  match t with
  | Ret a => Q (Ok a) s
  | Throw e => Q (Err e) s
  | Atomic f k => can (k (f s).1) Q (f s).2
  | Await o k => ∃ s' r, others s s' ∧ answers _ o s' r ∧ can (k r) Q s'
  end.

Lemma can_mono {A} (t : task op S A) (P Q : result A → S → Prop) s : can t P s → (∀ r s', P r s' → Q r s') → can t Q s.
Proof.
  intros Ht HQ. revert s Ht. induction t as [a|e|B f k IH|B o k IH]; intros s; cbn [can]; [auto..| |].
  - auto.
  - intros (s' & r & ? & ? & ?). exists s', r. auto.
Qed.

Lemma can_bind {A B} (t : task op S A) (f : A → task op S B) Q s :
  can t (λ r s', match r with Ok a => can (f a) Q s' | Err e => Q (Err e) s' end) s → can (t ≫= f) Q s.
Proof.
  unfold mbind, task_bind. revert s. induction t as [a|e|C g k IH|C o k IH]; intros s; cbn [can tbind]; [done..| |].
  - apply IH.
  - intros (s' & r & ? & ? & ?). exists s', r. auto.
Qed.

Lemma can_catch {A} (t : task op S A) h Q s :
  can t (λ r s', match r with Ok a => Q (Ok a) s' | Err e => can (h e) Q s' end) s → can (tcatch t h) Q s.
Proof.
  revert s. induction t as [a|e|C g k IH|C o k IH]; intros s; cbn [can tcatch]; [done..| |].
  - apply IH.
  - intros (s' & r & ? & ? & ?). exists s', r. auto.
Qed.

Lemma can_try {A} (t : task op S A) Q s : can t (λ r, Q (Ok r)) s → can (ttry t) Q s.
Proof. intros Ht. apply can_catch, can_bind. eapply can_mono; [exact Ht|]. by intros [a|e] s'. Qed.

Lemma can_lift {A} (r : result A) Q s : Q r s → can (lift r) Q s.
Proof. by destruct r. Qed.

Lemma can_await {B} (o : op B) (Q : result B → S → Prop) s s' r : others s s' → answers B o s' r → Q r s' → can (await o) Q s.
Proof. intros Ho Ha HQ. exists s', r. split_and!; [done..|]. by apply can_lift. Qed.

(** A suspended task can finish, beside others or in the foreground. *)
Lemma can_background (t : task op S ()) Q s :
  can t Q s → ∃ r s', Q r s' ∧ ∀ fg bg,
    rtc step {| shared := (advance t s).2; foreground := fg; background := option_list (suspended (advance t s).1) ++ bg |}
             {| shared := s'; foreground := fg; background := bg |}.
Proof.
  revert s. induction t as [a|e|B f k IH|B o k IH]; intros s; cbn [can advance suspended fst snd option_list app].
  - intros HQ. by exists (Ok a), s.
  - intros HQ. by exists (Err e), s.
  - apply IH.
  - intros (s1 & r & Ho & Ha & Hc). destruct (IH _ _ Hc) as (r' & s' & HQ & Hrun). exists r', s'. split; [done|]. intros fg bg.
    etransitivity; [apply Ho|]. eapply rtc_l; [|apply Hrun]. apply (step_background answers starts launches s1 fg [] bg B o k r); [done|apply surjective_pairing].
Qed.

Lemma can_foreground (t : task op S ()) Q s bg :
  can t Q s → ∃ r s', Q r s' ∧
    rtc step {| shared := (advance t s).2; foreground := suspended (advance t s).1; background := bg |}
             {| shared := s'; foreground := None; background := bg |}.
Proof.
  revert s. induction t as [a|e|B f k IH|B o k IH]; intros s; cbn [can advance suspended fst snd].
  - intros HQ. by exists (Ok a), s.
  - intros HQ. by exists (Err e), s.
  - apply IH.
  - intros (s1 & r & Ho & Ha & Hc). destruct (IH _ _ Hc) as (r' & s' & HQ & Hrun). exists r', s'. split; [done|].
    etransitivity; [apply Ho|]. eapply rtc_l; [|apply Hrun]. eapply step_foreground; [done|apply surjective_pairing].
Qed.

(** What may be launched is something others can do. *)
Lemma can_launch (t : task op S ()) Q s : launches s t → can t Q s → ∃ r s', Q r s' ∧ others s s'.
Proof.
  intros Hl (r & s' & HQ & Hrun)%can_background. exists r, s'. split; [done|]. intros fg bg. eapply rtc_l; [|apply Hrun].
  by eapply step_launch; [|apply surjective_pairing].
Qed.

Lemma can_start (t : task op S ()) Q s bg :
  starts s t → can t Q s → ∃ r s', Q r s' ∧
    rtc step {| shared := s; foreground := None; background := bg |} {| shared := s'; foreground := None; background := bg |}.
Proof.
  intros Hs (r & s' & HQ & Hrun)%(can_foreground _ _ _ bg). exists r, s'. split; [done|]. eapply rtc_l; [|exact Hrun].
  by eapply step_start; [|apply surjective_pairing].
Qed.

(** The task can come to wait in a state with [Q]. *)
Fixpoint canWait {A} (t : task op S A) (Q : S → Prop) (s : S) : Prop :=
  match t with
  | Ret _ | Throw _ => False
  | Atomic f k => canWait (k (f s).1) Q (f s).2
  | Await o k => (∃ s', others s s' ∧ Q s') ∨ ∃ s' r, others s s' ∧ answers _ o s' r ∧ canWait (k r) Q s'
  end.

Lemma canWait_here {A B} (t : task op S A) (f : A → task op S B) Q s : canWait t Q s → canWait (t ≫= f) Q s.
Proof.
  unfold mbind, task_bind. revert s. induction t as [a|e|C g k IH|C o k IH]; intros s; cbn [canWait tbind]; [done..| |].
  - apply IH.
  - intros [Hw|(s' & r & ? & ? & ?)]; [by left|]. right. exists s', r. auto.
Qed.

Lemma canWait_catch {A} (t : task op S A) h Q s : canWait t Q s → canWait (tcatch t h) Q s.
Proof.
  revert s. induction t as [a|e|C g k IH|C o k IH]; intros s; cbn [canWait tcatch]; [done..| |].
  - apply IH.
  - intros [Hw|(s' & r & ? & ? & ?)]; [by left|]. right. exists s', r. auto.
Qed.

Lemma canWait_bind {A B} (t : task op S A) (f : A → task op S B) Q s :
  can t (λ r s', match r with Ok a => canWait (f a) Q s' | Err _ => False end) s → canWait (t ≫= f) Q s.
Proof.
  unfold mbind, task_bind. revert s. induction t as [a|e|C g k IH|C o k IH]; intros s; cbn [can canWait tbind]; [done..| |].
  - apply IH.
  - intros (s' & r & ? & ? & ?). right. exists s', r. auto.
Qed.

Lemma canWait_await {B} (o : op B) Q s s' : others s s' → Q s' → canWait (await o) Q s.
Proof. intros Ho HQ. left. by exists s'. Qed.

Lemma canWait_foreground (t : task op S ()) Q s bg :
  canWait t Q s → ∃ fg s', Q s' ∧
    rtc step {| shared := (advance t s).2; foreground := suspended (advance t s).1; background := bg |}
             {| shared := s'; foreground := fg; background := bg |}.
Proof.
  revert s. induction t as [a|e|B f k IH|B o k IH]; intros s; cbn [canWait advance suspended fst snd]; [done..|apply IH|].
  intros [(s' & Ho & HQ)|(s1 & r & Ho & Ha & Hc)]; [by eexists _, s'|]. destruct (IH _ _ Hc) as (fg & s' & HQ & Hrun).
  exists fg, s'. split; [done|]. etransitivity; [apply Ho|]. eapply rtc_l; [|exact Hrun]. eapply step_foreground; [done|apply surjective_pairing].
Qed.

Lemma canWait_start (t : task op S ()) Q s bg :
  starts s t → canWait t Q s → ∃ fg s', Q s' ∧
    rtc step {| shared := s; foreground := None; background := bg |} {| shared := s'; foreground := fg; background := bg |}.
Proof.
  intros Hs (fg & s' & HQ & Hrun)%(canWait_foreground _ _ _ bg). exists fg, s'. split; [done|]. eapply rtc_l; [|exact Hrun].
  by eapply step_start; [|apply surjective_pairing].
Qed.

End Can.

(** ** Proof steps *)

Ltac twp_step :=
  lazymatch goal with
  | |- twp _ _ _ _ (mbind _ _) _ _ _ => apply twp_bind
  | |- twp _ _ _ _ (mret _) _ _ _ => apply twp_ret
  | |- twp _ _ _ _ (Ret _) _ _ _ => apply twp_ret
  | |- twp _ _ _ _ (Throw _) _ _ _ => apply twp_throw
  | |- twp _ _ _ _ (lift _) _ _ _ => apply twp_lift; cbv iota beta
  | |- twp _ _ _ _ (tcatch _ _) _ _ _ => apply twp_catch
  | |- twp _ _ _ _ (ttry _) _ _ _ => apply twp_try
  | |- twp _ _ _ _ (tfinally _ _) _ _ _ => apply twp_finally
  | |- twp _ _ _ _ (twhen _ _) _ _ _ => apply twp_when; intros ?
  | |- twp _ _ _ _ (if ?b then _ else _) _ _ _ => destruct b eqn:?
  | |- twp _ _ _ _ (match ?b with _ => _ end) _ _ _ => destruct b eqn:?
  end.
