(* ===== verification/FileStat.v ===== *)
(** * FileStat: what the file code checks of paths and of [fs.Stats]
    ([src/cli/files.ts] and [src/cli/transfer.ts]).

    The checks of the two files are the same code twice; where they differ in
    a message the label is an argument.  [process.platform] and
    [process.getuid] are parameters.  The theorems show when a path is
    accepted, what a partial that passes its checks is, and which prefix of an
    existing partial is kept. *)
From S2P Require Import Prelude.
From S2P Require Import Constants.
From S2P Require Import JsText.
From S2P Require Import JsValue.
From S2P Require Import Protocol.
From S2P Require Import Messages.
#[local] Open Scope Z_scope.
#[local] Ltac Zify.zify_post_hook ::= Z.to_euclidean_division_equations.

(** [fs.Stats]; the kind of a path that is not followed *)
Inductive FileKind := RegularFile | Directory | SymbolicLink | OtherKind.
#[export] Instance FileKind_eq_dec : EqDecision FileKind.
Proof. solve_decision. Defined.

Record Stats := { st_kind : FileKind; st_dev : Z; st_ino : Z; st_size : Z; st_nlink : Z; st_mode : Z; st_uid : Z }.
Definition isFile (s : Stats) : bool := bool_decide (st_kind s = RegularFile).
Definition isDirectory (s : Stats) : bool := bool_decide (st_kind s = Directory).
Definition isSymbolicLink (s : Stats) : bool := bool_decide (st_kind s = SymbolicLink).

(** [FileIdentity] and [PathIdentity] *)
Record FileIdentity := { dev : Z; ino : Z }.
#[export] Instance FileIdentity_eq_dec : EqDecision FileIdentity.
Proof. solve_decision. Defined.
Record PathIdentity := { pathFile : FileIdentity; mode : Z }.

Definition identityOf (s : Stats) : FileIdentity := {| dev := st_dev s; ino := st_ino s |}.
Definition pathIdentity (s : Stats) : PathIdentity := {| pathFile := identityOf s; mode := st_mode s |}.

(** [sameIdentity], [sameFileIdentity] and [samePathIdentity] *)
Definition sameIdentity (left right : FileIdentity) : bool := (dev left =? dev right) && (ino left =? ino right).
Definition sameFileIdentity (s : Stats) (expected : FileIdentity) : bool := isFile s && sameIdentity (identityOf s) expected.
Definition samePathIdentity (s : Stats) (expected : PathIdentity) : bool :=
  (st_dev s =? dev (pathFile expected)) && (st_ino s =? ino (pathFile expected)) && (st_mode s =? mode expected).

(** [FileSnapshot], [fileSnapshot] and [sameFileSnapshot] *)
Record FileSnapshot := { snapshotFile : FileIdentity; snapshotSize : Z }.
Definition fileSnapshot (s : Stats) : FileSnapshot := {| snapshotFile := identityOf s; snapshotSize := st_size s |}.
Definition sameFileSnapshot (s : Stats) (expected : FileSnapshot) : bool :=
  isFile s && (st_dev s =? dev (snapshotFile expected)) && (st_ino s =? ino (snapshotFile expected)) && (st_size s =? snapshotSize expected).

(** [process.platform === "win32"] and [process.getuid?.()] *)
Class Platform := { win32 : bool; getuid : option Z }.

Section Checks.
Context `{Platform}.

Definition assertOwnedByCurrentUser (s : Stats) (label : string) : result () :=
  match getuid with
  | Some uid => check (win32 || (st_uid s =? uid)) (label +:+ " is not owned by the current user.")
  | None => Ok ()
  end.

Definition assertOwnedByCurrentUserOrRoot (s : Stats) (label : string) : result () :=
  match getuid with
  | Some uid => check (win32 || (st_uid s =? uid) || (st_uid s =? 0)) (label +:+ " is not owned by a trusted user.")
  | None => Ok ()
  end.

Definition assertSingleLink (s : Stats) (label : string) : result () :=
  check (st_nlink s =? 1) (label +:+ " has multiple hard links.").

Definition assertPrivatePartialStat (s : Stats) : result () :=
  if win32 then Ok ()
  else
    assertOwnedByCurrentUser s "Resume partial";;
    check (Z.land (st_mode s) 0x3f =? 0) "Resume partial is not private.".

Definition assertPrivateOutputDirStat (s : Stats) : result () :=
  if win32 then Ok ()
  else
    assertOwnedByCurrentUser s "Output directory";;
    check (Z.land (st_mode s) 0x3f =? 0) "Output directory is not private.".

(** [assertPrivateOutputParent] on the status of the parent, which is another
    directory than the directory itself. *)
Definition assertPrivateOutputParentStat (s : Stats) : result () :=
  check (isDirectory s) "Output directory parent is invalid.";;
  let groupOrOtherWritable := negb (Z.land (st_mode s) 0x12 =? 0) in
  let sticky := negb (Z.land (st_mode s) 0x200 =? 0) in
  check (negb (groupOrOtherWritable && negb sticky)) "Output directory parent is not private.";;
  if sticky then assertOwnedByCurrentUserOrRoot s "Output directory parent"
  else assertOwnedByCurrentUser s "Output directory parent".

Definition RESUME_SECRET_BYTES : Z := 32.

Definition assertResumeSecretStat (s : Stats) : result () :=
  check (isFile s && (st_size s =? RESUME_SECRET_BYTES)) "Resume secret is invalid.";;
  assertSingleLink s "Resume secret";;
  if win32 then Ok ()
  else
    assertOwnedByCurrentUser s "Resume secret";;
    check (Z.land (st_mode s) 0x3f =? 0) "Resume secret is not private.".

Definition assertCliResumeSupported : result () :=
  check (negb win32) "CLI resume is disabled on Windows until private ACL checks are implemented.".
Definition assertPrivateOutputDirSupported : result () :=
  check (negb win32) "Private receive output directories are disabled on Windows until private ACL checks are implemented.".

End Checks.

(** ** Paths *)

Definition MAX_PATH_BYTES : Z := 4096.

(** [sendPathInput] *)
Definition sendPathInput (input : jsstr) : result jsstr :=
  check (0 <? jslen (trim input)) "File path is required.";;
  check (negb (utf8ByteLengthExceeds input MAX_PATH_BYTES)) "File path is too long.";;
  check (negb (hasControlOrFormat input)) "File path must not contain control or format characters.";;
  Ok input.

(** The loop of [validateSendPathInputs] *)
Fixpoint sendPathInputs (n : nat) (paths : jsval) (index : Z) : result (list jsstr) :=
  match n with
  | O => Ok []
  | S n =>
    match ownArrayDataValue paths index with
    | JStr path => input ← sendPathInput path; inputs ← sendPathInputs n paths (index + 1); Ok (input :: inputs)
    | _ => throw "File path is invalid."
    end
  end.

(** [validateSendPathInputs] *)
Definition validateSendPathInputs (paths : jsval) : result (list jsstr) :=
  match paths with
  | JArr items =>
    check (negb (Z.of_nat (length items) =? 0)) "Provide at least one file.";;
    check (Z.of_nat (length items) <=? MAX_FILES_PER_SESSION) "Too many files. Limit is 100.";;
    sendPathInputs (length items) paths 0
  | _ => throw "File list is invalid."
  end.

(** [outputDirInput] *)
Definition outputDirInput (dir : jsval) : result jsstr :=
  match dir with
  | JStr dir =>
    check (0 <? jslen (trim dir)) "Output directory is required.";;
    check (negb (utf8ByteLengthExceeds dir MAX_PATH_BYTES)) "Output directory path is too long.";;
    check (negb (hasControlOrFormat dir)) "Output directory must not contain control or format characters.";;
    Ok dir
  | _ => throw "Output directory is invalid."
  end.

(** [publishPathInput] *)
Definition publishPathInput (value : jsval) (label : string) : result jsstr :=
  match value with
  | JStr value =>
    check (0 <? jslen (trim value)) (label +:+ " path is required.");;
    check (negb (utf8ByteLengthExceeds value MAX_PATH_BYTES)) (label +:+ " path is too long.");;
    check (negb (hasControlOrFormat value)) (label +:+ " path must not contain control or format characters.");;
    Ok value
  | _ => throw (label +:+ " path is invalid.")
  end.

(** [fileIdentityInput], [publishExpectedSizeInput] and [resumeFileSize] *)
Definition fileIdentityInput (value : jsval) : result FileIdentity :=
  match field value "dev", field value "ino" with
  | jint d, jint i =>
    check (isSafeNonNegative (jint d) && isSafeNonNegative (jint i)) "Expected partial identity is invalid.";;
    Ok {| dev := d; ino := i |}
  | _, _ => throw "Expected partial identity is invalid."
  end.
Definition publishExpectedSizeInput (value : jsval) : result Z :=
  match value with
  | jint n => check (isSafeNonNegative (jint n)) "Expected publish size is invalid.";; Ok n
  | _ => throw "Expected publish size is invalid."
  end.
Definition resumeFileSize (value : jsval) : result Z :=
  match value with
  | jint n => check (isSafeNonNegative (jint n) && (n <=? MAX_FILE_BYTES)) "Resume file size is invalid.";; Ok n
  | _ => throw "Resume file size is invalid."
  end.

(** The prefix of an existing partial that [reserveExistingResumablePart]
    keeps: whole chunks, or the whole file. *)
Definition resumePrefix (size expectedSize : Z) : Z :=
  let resumeBytes := Z.min size expectedSize in
  let resumeBytes := if resumeBytes <? expectedSize then resumeBytes - resumeBytes mod CHUNK_SIZE else resumeBytes in
  if resumeBytes <? 0 then 0 else resumeBytes.

(** ** Theorems *)

(** A path that can be used. *)
Definition pathOk (s : jsstr) : Prop := trim s ≠ [] ∧ utf8ByteLength s <= MAX_PATH_BYTES ∧ hasControlOrFormat s = false.

Lemma path_checks s a b c :
  (check (0 <? jslen (trim s)) a;; check (negb (utf8ByteLengthExceeds s MAX_PATH_BYTES)) b;; check (negb (hasControlOrFormat s)) c;; Ok s) = Ok s
  ↔ pathOk s.
Proof.
  rewrite !check_bind_ok, !negb_true_iff, utf8ByteLengthExceeds_spec, Z.ltb_lt, Z.ltb_ge by done. unfold pathOk, jslen.
  split.
  - intros (Ht & Hl & Hc & _). split; [|done]. intros E. by rewrite E in Ht.
  - intros (Ht & Hl & Hc). split; [|done]. destruct (trim s); simpl; [done|lia].
Qed.

(** What a partial that is written again is: a file of the expected identity,
    without another name, that nobody else may read or write. *)
Lemma partial_checks `{Platform} s expected uid label :
  win32 = false → getuid = Some uid →
  (check (isFile s && sameIdentity (identityOf s) expected) label;; assertSingleLink s "Resume partial";; assertPrivatePartialStat s) = Ok () ↔
  st_kind s = RegularFile ∧ identityOf s = expected ∧ st_nlink s = 1 ∧ st_uid s = uid ∧ Z.land (st_mode s) 0x3f = 0.
Proof.
  intros Hw Hu. unfold assertSingleLink, assertPrivatePartialStat, assertOwnedByCurrentUser, isFile, sameIdentity. rewrite Hw, Hu.
  rewrite check_bind_ok, !unit_bind_ok, !check_ok, !andb_true_iff, bool_decide_eq_true, !Z.eqb_eq. destruct expected as [d i]; cbn [dev ino identityOf].
  unfold identityOf. split.
  - intros ([? [-> ->]] & ? & ->%Z.eqb_eq & ?). done.
  - intros (? & [= -> ->] & ? & -> & ?). by rewrite Z.eqb_refl.
Qed.

Lemma resumePrefix_spec size expectedSize :
  0 <= size → 0 <= expectedSize →
  0 <= resumePrefix size expectedSize <= Z.min size expectedSize ∧
  (resumePrefix size expectedSize = expectedSize ∨ resumePrefix size expectedSize mod CHUNK_SIZE = 0) ∧
  Z.min size expectedSize - resumePrefix size expectedSize < CHUNK_SIZE.
Proof.
  intros Hs He. unfold resumePrefix, CHUNK_SIZE. cbv zeta.
  destruct (Z.ltb_spec (Z.min size expectedSize) expectedSize) as [Hl|Hl]; case_match; lia.
Qed.
