(* ===== verification/FileSystem.v ===== *)
(** * FileSystem: what the file code uses of [node:fs], and programs over it.

    A file system is a map from path names to inodes, as [lstat] sees them: a
    path is its whole text, and a symbolic link is followed only by [stat] and
    refused by an open with [O_NOFOLLOW].  An [io] program is a tree of calls
    with their continuations; errors carry the code that the source looks at.
    Before every call other processes may change the file system, and any call
    may fail; both, the sizes of partial reads and writes, and the random bytes
    are the [Turn] of the call.  [fwp] is the weakest precondition of a
    program under a rely (what others do) and a guarantee (what its calls do).

    An identity, [dev] and [ino], is that of one inode for ever: the number of
    a removed file is not used again. *)
From S2P Require Import Prelude.
From S2P Require Import Constants.
From S2P Require Import JsText.
From S2P Require Import FileStat.
From S2P Require Import Bytes.
From S2P Require Import Crypto.
#[local] Open Scope Z_scope.

(** ** Data *)

(** The codes of [NodeJS.ErrnoException] that the source distinguishes. *)
Inductive Errno := ENOENT | EEXIST | ELOOP | EACCES | EINVAL | EMLINK | ENOSYS | ENOTSUP | EOPNOTSUPP | EPERM | EXDEV | EBADF | OtherErrno.
#[export] Instance Errno_eq_dec : EqDecision Errno.
Proof. solve_decision. Defined.

(** What is thrown: an error of Node with its code, or an [Error] of the source. *)
Inductive Failure := NodeError (code : Errno) | Thrown (message : jsstr).

#[export] Instance FileIdentity_countable : Countable FileIdentity.
Proof.
  refine (inj_countable' (λ i, (dev i, ino i)) (λ p, {| dev := p.1; ino := p.2 |}) _). by intros [].
Defined.

Record Inode := { in_kind : FileKind; in_content : list Z; in_target : jsstr; in_mode : Z; in_uid : Z }.

(** An open file: its inode, the position of sequential writes, and whether it
    may be written. *)
Record OpenFile := { of_inode : FileIdentity; of_position : Z; of_writable : bool }.

Record Fs := { names : gmap jsstr FileIdentity; inodes : gmap FileIdentity Inode; handles : gmap nat OpenFile }.

Definition set_names (f : gmap jsstr FileIdentity → gmap jsstr FileIdentity) (fs : Fs) : Fs :=
  {| names := f (names fs); inodes := inodes fs; handles := handles fs |}.
Definition set_inodes (f : gmap FileIdentity Inode → gmap FileIdentity Inode) (fs : Fs) : Fs :=
  {| names := names fs; inodes := f (inodes fs); handles := handles fs |}.
Definition set_handles (f : gmap nat OpenFile → gmap nat OpenFile) (fs : Fs) : Fs :=
  {| names := names fs; inodes := inodes fs; handles := f (handles fs) |}.

(** [fs.Stats] of an inode; [nlink] counts its names *)
Definition statOf (fs : Fs) (id : FileIdentity) (n : Inode) : Stats :=
  {| st_kind := in_kind n; st_dev := dev id; st_ino := ino id; st_size := Z.of_nat (length (in_content n));
     st_nlink := Z.of_nat (size (filter (λ x, x.2 = id) (names fs))); st_mode := in_mode n; st_uid := in_uid n |}.

(** ** Calls *)

Inductive Sys : Type → Type :=
| Lstat (path : jsstr) : Sys Stats
| Stat (path : jsstr) : Sys Stats
| Link (existing new : jsstr) : Sys ()
| Rename (old new : jsstr) : Sys ()
(** [rm] with [force], which does not mind a missing path *)
| RmForce (path : jsstr) : Sys ()
(** [open] with [O_NOFOLLOW], for reading or also for writing *)
| OpenNoFollow (path : jsstr) (write : bool) : Sys nat
(** [open] that must create the file, with mode 0600 *)
| OpenNew (path : jsstr) : Sys nat
| HandleStat (h : nat) : Sys Stats
(** [handle.stat({ bigint: true })], with [mtimeNs] and [ctimeNs] *)
| HandleStatBig (h : nat) : Sys (Stats * (Z * Z))
| HandleRead (h : nat) (length position : Z) : Sys (list Z)
| HandleWrite (h : nat) (data : list Z) : Sys Z
| HandleTruncate (h : nat) (length : Z) : Sys ()
| HandleClose (h : nat) : Sys ()
| RandomBytes (n : Z) : Sys (list Z).

(** What else a call depends on: what others do before it, whether it fails,
    how much a read or write does beyond one byte, the numbers of a new handle
    and a new inode, the owner of new files, the random bytes, the times that a
    file is said to have. *)
Record Turn := {
  interfere : Fs → Fs;
  failure : option Errno;
  amount : nat;
  newHandle : nat;
  newInode : FileIdentity;
  owner : Z;
  random : list Z;
  times : Z * Z
}.

Definition lookupPath (fs : Fs) (path : jsstr) : Errno + (FileIdentity * Inode) :=
  match names fs !! path with
  | None => inl ENOENT
  | Some id => match inodes fs !! id with Some n => inr (id, n) | None => inl ENOENT end
  end.

(** Following symbolic links, at most [fuel] of them. *)
Fixpoint followPath (fuel : nat) (fs : Fs) (path : jsstr) : Errno + (FileIdentity * Inode) :=
  match fuel with
  | O => inl ELOOP
  | S fuel =>
    match lookupPath fs path with
    | inl e => inl e
    | inr (id, n) => if bool_decide (in_kind n = SymbolicLink) then followPath fuel fs (in_target n) else inr (id, n)
    end
  end.
Definition MAX_SYMLINKS : nat := 40.

(** [write(2)] at a position *)
Definition writeAt (content : list Z) (position : nat) (data : list Z) : list Z :=
  take position (content ++ replicate (position - length content) 0) ++ data ++ drop (position + length data) content.

Definition withHandle {A} (fs : Fs) (h : nat) (k : OpenFile → Inode → (A + Errno) * Fs) : (A + Errno) * Fs :=
  match handles fs !! h with
  | None => (inr EBADF, fs)
  | Some f => match inodes fs !! of_inode f with Some n => k f n | None => (inr EBADF, fs) end
  end.

Definition privateMode : Z := 0x180.

(** The bytes that [randomBytes] of [node:crypto] gives in a turn *)
Definition randomBytes (t : Turn) (n : nat) : list Z := take n (map (λ b, b mod 256) (random t) ++ replicate n 0).

Lemma randomBytes_size t n : bytesOf (Z.of_nat n) (randomBytes t n).
Proof.
  unfold randomBytes. split.
  - apply Forall_take, Forall_app. split; [|by apply Forall_replicate; lia]. apply Forall_fmap, Forall_true. intros b. cbn. pose proof (Z.mod_pos_bound b 256). lia.
  - unfold byteLength. rewrite length_take, length_app, length_replicate. lia.
Qed.

Definition perform {A} (c : Sys A) (t : Turn) (fs : Fs) : (A + Errno) * Fs :=
  match c in Sys A return (A + Errno) * Fs with
  | Lstat p => (match lookupPath fs p with inr (id, n) => inl (statOf fs id n) | inl e => inr e end, fs)
  | Stat p => (match followPath MAX_SYMLINKS fs p with inr (id, n) => inl (statOf fs id n) | inl e => inr e end, fs)
  | Link p q =>
    match lookupPath fs p, names fs !! q with
    | inl e, _ => (inr e, fs)
    | inr _, Some _ => (inr EEXIST, fs)
    | inr (id, _), None => (inl (), set_names <[q := id]> fs)
    end
  | Rename p q =>
    match lookupPath fs p with
    | inl e => (inr e, fs)
    | inr (id, _) => (inl (), set_names (λ m, <[q := id]> (delete p m)) fs)
    end
  | RmForce p => (inl (), set_names (delete p) fs)
  | OpenNoFollow p write =>
    match lookupPath fs p with
    | inl e => (inr e, fs)
    | inr (id, n) =>
      if bool_decide (in_kind n = SymbolicLink) then (inr ELOOP, fs)
      else if bool_decide (is_Some (handles fs !! newHandle t)) then (inr OtherErrno, fs)
      else (inl (newHandle t), set_handles <[newHandle t := {| of_inode := id; of_position := 0; of_writable := write |}]> fs)
    end
  | OpenNew p =>
    if bool_decide (is_Some (names fs !! p)) then (inr EEXIST, fs)
    else if bool_decide (is_Some (inodes fs !! newInode t)) || bool_decide (is_Some (handles fs !! newHandle t)) then (inr OtherErrno, fs)
    else (inl (newHandle t),
          set_handles <[newHandle t := {| of_inode := newInode t; of_position := 0; of_writable := true |}]>
            (set_inodes <[newInode t := {| in_kind := RegularFile; in_content := []; in_target := []; in_mode := privateMode; in_uid := owner t |}]>
              (set_names <[p := newInode t]> fs)))
  | HandleStat h => withHandle fs h (λ f n, (inl (statOf fs (of_inode f) n), fs))
  | HandleStatBig h => withHandle fs h (λ f n, (inl (statOf fs (of_inode f) n, times t), fs))
  | HandleRead h len pos =>
    withHandle fs h (λ f n, (inl (take (Nat.min (Z.to_nat len) (S (amount t))) (drop (Z.to_nat pos) (in_content n))), fs))
  | HandleWrite h data =>
    withHandle fs h (λ f n,
      if of_writable f then
        let part := take (S (amount t)) data in
        let n' := {| in_kind := in_kind n; in_content := writeAt (in_content n) (Z.to_nat (of_position f)) part; in_target := in_target n;
                     in_mode := in_mode n; in_uid := in_uid n |} in
        let f' := {| of_inode := of_inode f; of_position := of_position f + Z.of_nat (length part); of_writable := true |} in
        (inl (Z.of_nat (length part)), set_handles <[h := f']> (set_inodes <[of_inode f := n']> fs))
      else (inr EBADF, fs))
  | HandleTruncate h len =>
    withHandle fs h (λ f n,
      if of_writable f then
        let n' := {| in_kind := in_kind n; in_content := take (Z.to_nat len) (in_content n ++ replicate (Z.to_nat len - length (in_content n)) 0);
                     in_target := in_target n; in_mode := in_mode n; in_uid := in_uid n |} in
        (inl (), set_inodes <[of_inode f := n']> fs)
      else (inr EBADF, fs))
  | HandleClose h => (inl (), set_handles (delete h) fs)
  | RandomBytes n => (inl (randomBytes t (Z.to_nat n)), fs)
  end.

(** A call in its turn; one that fails does nothing. *)
Definition turn {A} (c : Sys A) (t : Turn) (fs : Fs) : (A + Errno) * Fs :=
  match failure t with Some e => (inr e, fs) | None => perform c t fs end.

(** ** Programs *)

Inductive io (A : Type) : Type :=
| Return (a : A)
| Raise (e : Failure)
| Call {B} (c : Sys B) (k : B + Errno → io A)
| Diverge.
Arguments Return {A} a.
Arguments Raise {A} e.
Arguments Call {A B} c k.
Arguments Diverge {A}.

Fixpoint iobind {A B} (f : A → io B) (m : io A) : io B :=
  match m with
  | Return a => f a
  | Raise e => Raise e
  | Call c k => Call c (λ r, iobind f (k r))
  | Diverge => Diverge
  end.
#[export] Instance io_ret : MRet io := λ A a, Return a.
#[export] Instance io_bind : MBind io := λ A B f m, iobind f m.

(** [try { m } catch (e) { h(e) }] and [try { m } finally { c }] *)
Fixpoint iocatch {A} (m : io A) (h : Failure → io A) : io A :=
  match m with
  | Return a => Return a
  | Raise e => h e
  | Call c k => Call c (λ r, iocatch (k r) h)
  | Diverge => Diverge
  end.
Definition iotry {A} (m : io A) : io (A + Failure) := iocatch (iobind (λ a, Return (inl a)) m) (λ e, Return (inr e)).
Definition iofinally {A} (m : io A) (c : io ()) : io A :=
  r ← iotry m; c;; match r with inl a => Return a | inr e => Raise e end.

Definition call {A} (c : Sys A) : io A := Call c (λ r, match r with inl a => Return a | inr e => Raise (NodeError e) end).
Definition ioLift {A} (r : result A) : io A := match r with Ok a => Return a | Err e => Raise (Thrown e) end.
Definition ioThrow {A} (message : string) : io A := Raise (Thrown (js message)).
Definition ioWhen (b : bool) (m : io ()) : io () := if b then m else Return ().

(** [nodeErrorCode] *)
Definition nodeErrorCode (e : Failure) : option Errno := match e with NodeError c => Some c | Thrown _ => None end.

(** Running a program, with the turns [n], [n + 1], ... of an environment: its
    outcome, the file system at the end, and what its calls did. *)
Fixpoint run {A} (env : nat → Turn) (n : nat) (m : io A) (fs : Fs) : option ((A + Failure) * Fs * list (Fs * Fs)) :=
  match m with
  | Return a => Some (inl a, fs, [])
  | Raise e => Some (inr e, fs, [])
  | Diverge => None
  | Call c k =>
    let fs1 := interfere (env n) fs in
    let r := turn c (env n) fs1 in
    match run env (S n) (k r.1) r.2 with
    | None => None
    | Some (out, fs', steps) => Some (out, fs', (fs1, r.2) :: steps)
    end
  end.

(** ** Weakest preconditions *)

Section Wp.
(** What others do, which turns are possible, what the calls of the program do. *)
Context (rely : Fs → Fs → Prop) (possible : ∀ B, Sys B → Turn → Fs → Prop) (guar : Fs → Fs → Prop).

(** Every turn of the run is as assumed. *)
Fixpoint permitted {A} (env : nat → Turn) (n : nat) (m : io A) (fs : Fs) : Prop :=
  match m with
  | Return _ | Raise _ | Diverge => True
  | Call c k =>
    let fs1 := interfere (env n) fs in
    let r := turn c (env n) fs1 in
    rely fs fs1 ∧ possible _ c (env n) fs1 ∧ permitted env (S n) (k r.1) r.2
  end.

(** The same, computed, when nobody interferes *)
Fixpoint allowed {A} (ok : ∀ B, Sys B → Turn → Fs → bool) (env : nat → Turn) (n : nat) (m : io A) (fs : Fs) : bool :=
  match m with
  | Return _ | Raise _ | Diverge => true
  | Call c k => let r := turn c (env n) fs in ok _ c (env n) fs && allowed ok env (S n) (k r.1) r.2
  end.

Lemma allowed_permitted {A} ok env n (m : io A) fs :
  (∀ fs, rely fs fs) → (∀ n fs, interfere (env n) fs = fs) → (∀ B c t fs, ok B c t fs = true → possible B c t fs) →
  allowed ok env n m fs = true → permitted env n m fs.
Proof.
  intros Hr Hi Hok. revert n fs. induction m as [a|e|B c k IH|]; intros n fs; cbn [allowed permitted]; try done.
  intros [Ha Hb]%andb_prop. rewrite Hi. split_and!; [apply Hr|by apply Hok|by apply IH].
Qed.

Fixpoint fwp {A} (m : io A) (Q : A → Fs → Prop) (E : Failure → Fs → Prop) (fs : Fs) : Prop :=
  match m with
  | Return a => Q a fs
  | Raise e => E e fs
  | Diverge => False
  | Call c k => ∀ t fs1, rely fs fs1 → possible _ c t fs1 → guar fs1 (turn c t fs1).2 ∧ fwp (k (turn c t fs1).1) Q E (turn c t fs1).2
  end.

Lemma fwp_run {A} (m : io A) Q E env n fs :
  fwp m Q E fs → permitted env n m fs →
  ∃ out fs' steps, run env n m fs = Some (out, fs', steps) ∧ Forall (λ s, guar s.1 s.2) steps ∧
    match out with inl a => Q a fs' | inr e => E e fs' end.
Proof.
  revert n fs. induction m as [a|e|B c k IH|]; intros n fs; cbn [fwp permitted run]; [by eexists (inl a), fs, []|by eexists (inr e), fs, []| |done].
  intros Hw (Hr & Hp & Hn). destruct (Hw _ _ Hr Hp) as [Hg Hk]. destruct (IH _ (S n) _ Hk Hn) as (out & fs' & steps & -> & Hs & Ho).
  exists out, fs', ((interfere (env n) fs, (turn c (env n) (interfere (env n) fs)).2) :: steps). split_and!; [done|by constructor|done].
Qed.

Lemma fwp_mono {A} (m : io A) (P Q : A → Fs → Prop) (D E : Failure → Fs → Prop) fs :
  fwp m P D fs → (∀ a s, P a s → Q a s) → (∀ e s, D e s → E e s) → fwp m Q E fs.
Proof.
  intros Hm HQ HE. revert fs Hm. induction m as [a|e|B c k IH|]; intros fs; cbn [fwp]; [auto..| |done].
  intros Hw t fs1 Hr Hp. destruct (Hw t fs1 Hr Hp) as [Hg Hk]. split; [done|]. by apply IH.
Qed.

Lemma fwp_bind {A B} (m : io A) (f : A → io B) Q E fs : fwp m (λ a s, fwp (f a) Q E s) E fs → fwp (m ≫= f) Q E fs.
Proof.
  unfold mbind, io_bind. revert fs. induction m as [a|e|C c k IH|]; intros fs; cbn [fwp iobind]; [done..| |done].
  intros Hw t fs1 Hr Hp. destruct (Hw t fs1 Hr Hp) as [Hg Hk]. split; [done|]. by apply IH.
Qed.

Lemma fwp_catch {A} (m : io A) h Q E fs : fwp m Q (λ e s, fwp (h e) Q E s) fs → fwp (iocatch m h) Q E fs.
Proof.
  revert fs. induction m as [a|e|C c k IH|]; intros fs; cbn [fwp iocatch]; [done..| |done].
  intros Hw t fs1 Hr Hp. destruct (Hw t fs1 Hr Hp) as [Hg Hk]. split; [done|]. by apply IH.
Qed.

Lemma fwp_try {A} (m : io A) Q E fs : fwp m (λ a, Q (inl a)) (λ e, Q (inr e)) fs → fwp (iotry m) Q E fs.
Proof. intros Hm. by apply fwp_catch, fwp_bind. Qed.

Lemma fwp_finally {A} (m : io A) c Q E fs :
  fwp m (λ a s, fwp c (λ _, Q a) E s) (λ e s, fwp c (λ _, E e) E s) fs → fwp (iofinally m c) Q E fs.
Proof. intros Hm. apply fwp_bind, fwp_try. eapply fwp_mono; [exact Hm|..]; intros x s Hc; by apply fwp_bind. Qed.

(** What others and the calls preserve is still so at the end. *)
Lemma fwp_frame {A} (P : Fs → Prop) (m : io A) Q E fs :
  (∀ fs fs', P fs → rely fs fs' → P fs') → (∀ fs fs', P fs → guar fs fs' → P fs') → P fs →
  fwp m Q E fs → fwp m (λ a s, Q a s ∧ P s) (λ e s, E e s ∧ P s) fs.
Proof.
  intros Hr Hg. revert fs. induction m as [a|e|B c k IH|]; intros fs HP; cbn [fwp]; [auto..| |done].
  intros Hw t fs1 Hfs Hp. destruct (Hw t fs1 Hfs Hp) as [H1 H2]. split; [done|]. apply IH; [|done]. by eapply Hg, H1; eapply Hr, Hfs.
Qed.

Lemma fwp_lift {A} (r : result A) Q E fs : match r with Ok a => Q a fs | Err e => E (Thrown e) fs end → fwp (ioLift r) Q E fs.
Proof. by destruct r. Qed.

(** A call that fails on its own, or does what it does. *)
Lemma fwp_call {A} (c : Sys A) Q E fs :
  (∀ fs1, guar fs1 fs1) →
  (∀ e fs1, rely fs fs1 → E (NodeError e) fs1) →
  (∀ t fs1, rely fs fs1 → possible _ c t fs1 → guar fs1 (perform c t fs1).2 ∧
    match (perform c t fs1).1 with inl a => Q a (perform c t fs1).2 | inr e => E (NodeError e) (perform c t fs1).2 end) →
  fwp (call c) Q E fs.
Proof.
  intros Hg Hf Hd t fs1 Hr Hp. unfold turn. destruct (failure t) as [e|]; cbn [fst snd].
  - split; [done|]. cbn [fwp]. by apply Hf.
  - destruct (Hd t fs1 Hr Hp) as [Hgd Hq]. split; [done|]. by destruct (perform c t fs1) as [[a|e] fs2].
Qed.

End Wp.

(** Others that do less *)
Lemma fwp_rely (rely rely' : Fs → Fs → Prop) possible guar {A} (m : io A) Q E fs :
  (∀ fs fs', rely' fs fs' → rely fs fs') → fwp rely possible guar m Q E fs → fwp rely' possible guar m Q E fs.
Proof.
  intros Hr. revert fs. induction m as [a|e|B c k IH|]; intros fs; cbn [fwp]; [done..| |done].
  intros Hw t fs1 Hfs Hp. destruct (Hw t fs1 (Hr _ _ Hfs) Hp) as [H1 H2]. split; [done|]. by apply IH.
Qed.

(** ** Paths *)

Definition SLASH : Z := 47.

(** [path.dirname] *)
Definition dropSlashes : list Z → list Z := fix go l := match l with c :: r => if c =? SLASH then go r else l | [] => [] end.
Definition dropToSlash : list Z → list Z := fix go l := match l with c :: r => if c =? SLASH then l else go r | [] => [] end.
Definition dirname (path : jsstr) : jsstr :=
  match path with
  | [] => js "."
  | c :: rest =>
    match dropToSlash (dropSlashes (rev rest)) with
    | [] => if c =? SLASH then js "/" else js "."
    | _ :: before => if (c =? SLASH) && bool_decide (before = []) then js "//" else c :: rev before
    end
  end.

(** [path.normalize] and [path.join] of two non-empty arguments, on POSIX;
    [normalSegments] has the segments so far in reverse order. *)
Fixpoint normalSegments (allowAboveRoot : bool) (segments done : list jsstr) : list jsstr :=
  match segments with
  | [] => reverse done
  | segment :: rest =>
    if bool_decide (segment = []) || bool_decide (segment = js ".") then normalSegments allowAboveRoot rest done
    else if bool_decide (segment = js "..") then
      match done with
      | before :: done' =>
        if bool_decide (before = js "..") then normalSegments allowAboveRoot rest (if allowAboveRoot then segment :: done else done)
        else normalSegments allowAboveRoot rest done'
      | [] => normalSegments allowAboveRoot rest (if allowAboveRoot then [segment] else [])
      end
    else normalSegments allowAboveRoot rest (segment :: done)
  end.
Definition normalizePath (path : jsstr) : jsstr :=
  let absolute := bool_decide (head path = Some SLASH) in
  let trailing := bool_decide (last path = Some SLASH) in
  match joinWith [SLASH] (normalSegments (negb absolute) (splitOn SLASH path) []) with
  | [] => if absolute then js "/" else if trailing then js "./" else js "."
  | text => (if absolute then [SLASH] else []) ++ text ++ (if trailing then [SLASH] else [])
  end.
Definition joinPath (dir name : jsstr) : jsstr := normalizePath (dir ++ [SLASH] ++ name).

(** [process.cwd()], an absolute path, and [path.resolve] *)
Class WorkingDirectory := { cwd : jsstr }.
Definition resolvePath `{WorkingDirectory} (path : jsstr) : jsstr :=
  let absolute := if bool_decide (head path = Some SLASH) then path else cwd ++ [SLASH] ++ path in
  SLASH :: joinWith [SLASH] (normalSegments false (splitOn SLASH absolute) []).
