(* ===== verification/ControlWaiter.v ===== *)
(** * ControlWaiter: waiting for acknowledgements ([src/shared/control-waiter.ts]).

    [ControlAckWaiter] keeps, under a text key per acknowledgement, the promise
    that is waited for.  Promises are entries of a store: the id of a promise
    is its position.  The theorem is a refinement: the map of keys, with its
    timers, behaves as the plain specification in which an acknowledgement has
    at most one open promise. *)
From S2P Require Import Prelude.
From S2P Require Import Constants.
From S2P Require Import JsText.
From S2P Require Import JsValue.
#[local] Open Scope Z_scope.

(** A [Promise<void>] that the waiter made, and the key it was made for. *)
Abbreviation PromiseId := nat.
Record Promise := { promiseKey : jsstr; promiseOutcome : option (result ()) }.
#[export] Instance result_unit_eq_dec : EqDecision (result ()).
Proof. solve_decision. Defined.
#[export] Instance Promise_eq_dec : EqDecision Promise.
Proof. solve_decision. Defined.

(** [resolve] and [reject] of a promise: only the first call counts. *)
Definition settlePromise (r : result ()) (p : Promise) : Promise :=
  {| promiseKey := promiseKey p; promiseOutcome := Some (default r (promiseOutcome p)) |}.

(** The fields of [ControlAckWaiter] ([pending] is a [Map]; an entry has its
    timer as long as it is there), and the promises. *)
Record ControlAckWaiter := { pending : gmap jsstr PromiseId; waiterFailed : option jsstr; promises : list Promise }.

Definition newWaiter : ControlAckWaiter := {| pending := ∅; waiterFailed := None; promises := [] |}.

(** [controlTimeoutInput], which the constructor applies *)
Definition controlTimeoutInput (timeoutMs : jsval) : result Z :=
  match timeoutMs with
  | jint n => check (isIntegerIn 1 TRANSFER_CONTROL_TIMEOUT_MS (jint n)) "Control acknowledgement timeout is invalid.";; Ok n
  | _ => throw "Control acknowledgement timeout is invalid."
  end.

(** The result of [controlAckInput] *)
Record AckInput := { ackKey : jsstr; safeKind : jsstr; safeId : option Z }.

(** [CONTROL_ACK_KINDS] and [controlAckInput] *)
Definition CONTROL_ACK_KINDS : list jsstr := [js "ready"; js "file-ok"; js "all-done-ok"].
Definition controlAckInput (kind id : jsval) : result AckInput :=
  match kind with
  | JStr kind =>
    check (bool_decide (kind ∈ CONTROL_ACK_KINDS)) "Control acknowledgement type is invalid.";;
    if decide (kind = js "all-done-ok") then
      check (isUndefined id) "Control acknowledgement file id is invalid.";;
      Ok {| ackKey := kind; safeKind := kind; safeId := None |}
    else
      match id with
      | jint i =>
        check (isIntegerIn 0 255 (jint i)) "Control acknowledgement file id is invalid.";;
        Ok {| ackKey := kind ++ js ":" ++ jsInt i; safeKind := kind; safeId := Some i |}
      | _ => throw "Control acknowledgement file id is invalid."
      end
  | _ => throw "Control acknowledgement type is invalid."
  end.

Definition settleAt (p : PromiseId) (r : result ()) (w : ControlAckWaiter) : ControlAckWaiter :=
  {| pending := pending w; waiterFailed := waiterFailed w; promises := alter (settlePromise r) p (promises w) |}.
Definition forget (k : jsstr) (w : ControlAckWaiter) : ControlAckWaiter :=
  {| pending := delete k (pending w); waiterFailed := waiterFailed w; promises := promises w |}.

(** [mark] *)
Definition mark (kind id : jsval) (w : ControlAckWaiter) : result bool * ControlAckWaiter :=
  match controlAckInput kind id with
  | Err e => (Err e, w)
  | Ok a =>
    match pending w !! ackKey a with
    | None => (Ok false, w)
    | Some p => (Ok true, settleAt p (Ok ()) (forget (ackKey a) w))
    end
  end.

(** [wait]; a promise is appended to the store *)
Definition wait (kind id : jsval) (w : ControlAckWaiter) : result PromiseId * ControlAckWaiter :=
  match controlAckInput kind id with
  | Err e => (Err e, w)
  | Ok a =>
    let fresh := length (promises w) in
    match waiterFailed w with
    | Some e =>
      (Ok fresh, {| pending := pending w; waiterFailed := waiterFailed w;
                    promises := promises w ++ [{| promiseKey := ackKey a; promiseOutcome := Some (Err e) |}] |})
    | None =>
      match pending w !! ackKey a with
      | Some existing => (Ok existing, w)
      | None =>
        (Ok fresh, {| pending := <[ackKey a := fresh]> (pending w); waiterFailed := None;
                      promises := promises w ++ [{| promiseKey := ackKey a; promiseOutcome := None |}] |})
      end
    end
  end.

(** The message of the timer that [wait] sets. *)
Definition timeoutMessage (a : AckInput) : jsstr :=
  match safeId a with
  | None => js "Timed out waiting for " ++ safeKind a ++ js "."
  | Some id => js "Timed out waiting for " ++ safeKind a ++ js " for file " ++ jsInt id ++ js "."
  end.

(** That timer; it runs only while its entry is there, for whatever removes the
    entry also clears it. *)
Definition timeout (a : AckInput) (w : ControlAckWaiter) : ControlAckWaiter :=
  match pending w !! ackKey a with
  | None => w
  | Some p => settleAt p (Err (timeoutMessage a)) (forget (ackKey a) w)
  end.

(** [fail] *)
Definition rejectEntry (e : jsstr) (w : ControlAckWaiter) (entry : jsstr * PromiseId) : ControlAckWaiter :=
  forget entry.1 (settleAt entry.2 (Err e) w).
Definition fail (e : jsstr) (w : ControlAckWaiter) : ControlAckWaiter :=
  match waiterFailed w with
  | Some _ => w
  | None =>
    foldl (rejectEntry e) {| pending := pending w; waiterFailed := Some e; promises := promises w |} (map_to_list (pending w))
  end.

(** ** Specification *)

(** What is acknowledged. *)
Inductive Ack := AckReady (id : Z) | AckFileOk (id : Z) | AckAllDone.
#[export] Instance Ack_eq_dec : EqDecision Ack.
Proof. solve_decision. Defined.

Definition ackInput (a : Ack) : AckInput :=
  match a with
  | AckReady id => {| ackKey := js "ready:" ++ jsInt id; safeKind := js "ready"; safeId := Some id |}
  | AckFileOk id => {| ackKey := js "file-ok:" ++ jsInt id; safeKind := js "file-ok"; safeId := Some id |}
  | AckAllDone => {| ackKey := js "all-done-ok"; safeKind := js "all-done-ok"; safeId := None |}
  end.
Definition keyOf (a : Ack) : jsstr := ackKey (ackInput a).

(** The acknowledgement that the arguments name. *)
Definition namedAck (kind id : jsval) : option Ack :=
  match kind with
  | JStr k =>
    match id with
    | JUndefined => if decide (k = js "all-done-ok") then Some AckAllDone else None
    | jint i =>
      if negb (isIntegerIn 0 255 (jint i)) then None
      else if decide (k = js "ready") then Some (AckReady i) else if decide (k = js "file-ok") then Some (AckFileOk i) else None
    | _ => None
    end
  | _ => None
  end.

(** Promises with what they are for, in the order of their making, and whether
    the waiter has failed. *)
Record AckSpec := { broken : option jsstr; made : list (Ack * option (result ())) }.

Definition isOpen (a : Ack) (x : Ack * option (result ())) : Prop := x = (a, None).
#[export] Instance isOpen_dec a x : Decision (isOpen a x) := decide_rel (=) x (a, None).

Definition specSettle (a : Ack) (r : result ()) (s : AckSpec) : AckSpec :=
  {| broken := broken s; made := map (λ x, if decide (isOpen a x) then (a, Some r) else x) (made s) |}.

(** [mark] says whether the acknowledgement was waited for. *)
Definition specMark (a : Ack) (s : AckSpec) : bool * AckSpec := (bool_decide ((a, None) ∈ made s), specSettle a (Ok ()) s).
(** [wait] gives the open promise, or a new one, which has failed if the waiter has. *)
Definition specWait (a : Ack) (s : AckSpec) : nat * AckSpec :=
  match list_find (isOpen a) (made s) with
  | Some (p, _) => (p, s)
  | None => (length (made s), {| broken := broken s; made := made s ++ [(a, match broken s with Some e => Some (Err e) | None => None end)] |})
  end.
Definition specTimeout (a : Ack) (s : AckSpec) : AckSpec := specSettle a (Err (timeoutMessage (ackInput a))) s.
(** [fail] rejects whatever is open, once. *)
Definition specFail (e : jsstr) (s : AckSpec) : AckSpec :=
  match broken s with
  | Some _ => s
  | None => {| broken := Some e; made := map (λ x, (x.1, Some (default (Err e) x.2))) (made s) |}
  end.

(** A run: the calls of the methods and the timers that fire, with what the
    calls return. *)
Inductive Call := CallMark (kind id : jsval) | CallWait (kind id : jsval) | TimerFires (a : Ack) | CallFail (e : jsstr).
Inductive Return := Marked (b : bool) | Waited (p : nat) | Refused | Nothing.

Definition call (c : Call) (w : ControlAckWaiter) : Return * ControlAckWaiter :=
  match c with
  | CallMark kind id => let '(r, w) := mark kind id w in (match r with Ok b => Marked b | Err _ => Refused end, w)
  | CallWait kind id => let '(r, w) := wait kind id w in (match r with Ok p => Waited p | Err _ => Refused end, w)
  | TimerFires a => (Nothing, timeout (ackInput a) w)
  | CallFail e => (Nothing, fail e w)
  end.
Definition specCall (c : Call) (s : AckSpec) : Return * AckSpec :=
  match c with
  | CallMark kind id => match namedAck kind id with Some a => let '(b, s) := specMark a s in (Marked b, s) | None => (Refused, s) end
  | CallWait kind id => match namedAck kind id with Some a => let '(p, s) := specWait a s in (Waited p, s) | None => (Refused, s) end
  | TimerFires a => (Nothing, specTimeout a s)
  | CallFail e => (Nothing, specFail e s)
  end.

Fixpoint calls {S} (step : Call → S → Return * S) (cs : list Call) (s : S) : list Return * S :=
  match cs with
  | [] => ([], s)
  | c :: cs => let '(r, s) := step c s in let '(rs, s) := calls step cs s in (r :: rs, s)
  end.

(** ** Refinement *)

#[export] Instance keyOf_inj : Inj (=) (=) keyOf.
Proof.
  intros a b. unfold keyOf, ackInput. destruct a as [i|i|], b as [j|j|]; cbn [ackKey]; intros E; try done.
  - f_equal. by apply (inj (app (js "ready:"))), (inj jsInt) in E.
  - f_equal. by apply (inj (app (js "file-ok:"))), (inj jsInt) in E.
Qed.

Lemma controlAckInput_named kind id :
  match namedAck kind id with Some a => controlAckInput kind id = Ok (ackInput a) | None => ∃ e, controlAckInput kind id = Err e end.
Proof.
  unfold namedAck, controlAckInput. destruct kind as [| | | |k| | |]; try by eexists.
  destruct (decide (k = js "all-done-ok")) as [->|Ha].
  { cbn [check bool_decide]. rewrite bool_decide_true by (unfold CONTROL_ACK_KINDS; set_solver). cbn [check mbind result_bind].
    destruct id as [| | |[i| |]| | | |]; try by eexists. cbn [isUndefined]. destruct (isIntegerIn 0 255 (jint i)); by eexists. }
  destruct (decide (k = js "ready")) as [->|Hr].
  { rewrite bool_decide_true by (unfold CONTROL_ACK_KINDS; set_solver). destruct id as [| | |[i| |]| | | |]; try by eexists.
    destruct (isIntegerIn 0 255 (jint i)); [done|by eexists]. }
  destruct (decide (k = js "file-ok")) as [->|Hf].
  { rewrite bool_decide_true by (unfold CONTROL_ACK_KINDS; set_solver). destruct id as [| | |[i| |]| | | |]; try by eexists.
    destruct (isIntegerIn 0 255 (jint i)); [done|by eexists]. }
  rewrite bool_decide_false by (unfold CONTROL_ACK_KINDS; set_solver).
  destruct id as [| | |[i| |]| | | |]; try by eexists. destruct (negb (isIntegerIn 0 255 (jint i))); by eexists.
Qed.

Definition promiseOf (x : Ack * option (result ())) : Promise := {| promiseKey := keyOf x.1; promiseOutcome := x.2 |}.

Record refines (w : ControlAckWaiter) (s : AckSpec) : Prop := {
  rf_failed : waiterFailed w = broken s;
  rf_promises : promises w = map promiseOf (made s);
  rf_pending k p : pending w !! k = Some p ↔ ∃ a, k = keyOf a ∧ made s !! p = Some (a, None);
  rf_broken p a : is_Some (broken s) → made s !! p ≠ Some (a, None)
}.

Lemma open_pending w s a p : refines w s → made s !! p = Some (a, None) ↔ pending w !! keyOf a = Some p.
Proof.
  intros [_ _ Hp _]. rewrite Hp. split; [by exists a|]. by intros (b & ->%(inj keyOf) & Hb).
Qed.

Lemma no_open w s a p : refines w s → pending w !! keyOf a = None → made s !! p ≠ Some (a, None).
Proof. intros HR Hn Ho%(open_pending w). - by rewrite Hn in Ho. - done. Qed.

Lemma specSettle_none w s a r : refines w s → pending w !! keyOf a = None → specSettle a r s = s.
Proof.
  intros HR Hn. destruct s as [b l] eqn:Es. unfold specSettle. cbn. f_equal. rewrite <-(map_id l) at 2. apply map_ext_in. intros x Hx%list_elem_of_In.
  destruct (decide (isOpen a x)) as [->|]; [|done]. apply list_elem_of_lookup in Hx as [p Hp]. by destruct (no_open w _ a p HR Hn).
Qed.

(** Settling the open promise of an acknowledgement. *)
Lemma settle_refines w s a p r :
  refines w s → pending w !! keyOf a = Some p → refines (settleAt p r (forget (keyOf a) w)) (specSettle a r s).
Proof.
  intros HR Hp. pose proof (proj2 (open_pending w s a p HR) Hp) as Hm.
  assert (∀ q, made s !! q = Some (a, None) → q = p) as Hu.
  { intros q Hq%(open_pending w); [|done]. rewrite Hp in Hq. by injection Hq as ->. }
  destruct HR as [H1 H2 H3 H4]. split; cbn [settleAt forget specSettle pending waiterFailed promises broken made].
  - done.
  - rewrite H2. apply list_eq. intros q. rewrite list_lookup_alter, !list_lookup_fmap. destruct (decide (p = q)) as [<-|Hne].
    + rewrite Hm. cbn. by rewrite decide_True by done.
    + destruct (made s !! q) as [x|] eqn:Eq; [|done]. cbn. destruct (decide (isOpen a x)) as [->|]; [by destruct Hne; rewrite (Hu q)|done].
  - intros k q. rewrite lookup_delete_Some, H3. split.
    + intros (Hk & b & -> & Hb). exists b. split; [done|]. rewrite list_lookup_fmap, Hb. cbn. destruct (decide _) as [E|]; [|done].
      injection E as ->. done.
    + intros (b & -> & Hb). rewrite list_lookup_fmap in Hb. destruct (made s !! q) as [x|] eqn:Eq; cbn in Hb; [|done].
      destruct (decide (isOpen a x)); [done|]. injection Hb as ->. split; [intros ->%(inj keyOf); by destruct n|by exists b].
  - intros q b Hb. rewrite list_lookup_fmap. destruct (made s !! q) as [x|] eqn:Eq; cbn; [|done]. destruct (decide (isOpen a x)); [done|].
    intros [= ->]. by destruct (H4 q b).
Qed.

Lemma mark_refines w s a :
  refines w s →
  match pending w !! keyOf a with
  | Some p => specMark a s = (true, specSettle a (Ok ()) s) ∧ refines (settleAt p (Ok ()) (forget (keyOf a) w)) (specSettle a (Ok ()) s)
  | None => specMark a s = (false, s)
  end.
Proof.
  intros HR. unfold specMark. destruct (pending w !! keyOf a) as [p|] eqn:Hp.
  - split; [|by apply settle_refines]. f_equal. apply bool_decide_true, list_elem_of_lookup. exists p. by apply (open_pending w).
  - rewrite (specSettle_none w) by done. f_equal. apply bool_decide_false. intros [p Ho]%list_elem_of_lookup. by destruct (no_open w s a p HR Hp).
Qed.

Lemma timeout_refines w s a : refines w s → refines (timeout (ackInput a) w) (specTimeout a s).
Proof.
  intros HR. unfold timeout, specTimeout. fold (keyOf a). destruct (pending w !! keyOf a) as [p|] eqn:Hp; [by apply settle_refines|].
  by rewrite (specSettle_none w).
Qed.

Lemma append_lookup {A} (l : list A) x y p : (l ++ [x]) !! p = Some y ↔ l !! p = Some y ∨ p = length l ∧ x = y.
Proof.
  rewrite lookup_app_Some, list_lookup_singleton_Some. split; intros [?|[? ?]]; [by left|right; lia || (split; [lia|tauto])|by left|right; split; [lia|split; [lia|done]]].
Qed.

Lemma wait_refines kind id a w s :
  controlAckInput kind id = Ok (ackInput a) → refines w s →
  ∃ p w', wait kind id w = (Ok p, w') ∧ (specWait a s).1 = p ∧ refines w' (specWait a s).2.
Proof.
  intros Ha HR. pose proof HR as [H1 H2 H3 H4]. unfold wait, specWait. rewrite Ha. fold (keyOf a).
  assert (length (promises w) = length (made s)) as Hl by (by rewrite H2, length_map).
  destruct (list_find (isOpen a) (made s)) as [[p x]|] eqn:Ef.
  - apply list_find_Some in Ef as (Hx & -> & _). assert (waiterFailed w = None) as ->.
    { rewrite H1. destruct (broken s) eqn:Eb; [|done]. by destruct (H4 p a); [eexists|]. }
    apply (open_pending w s a p HR) in Hx. rewrite Hx. by exists p, w.
  - apply list_find_None in Ef. rewrite Forall_forall in Ef.
    assert (∀ p, made s !! p ≠ Some (a, None)) as Hno. { intros p Hp. apply list_elem_of_lookup_2 in Hp. by destruct (Ef _ Hp). }
    rewrite H1. destruct (broken s) as [e|] eqn:Eb.
    + eexists _, _. split_and!; [done|by cbn|]. split; cbn.
      * done.
      * by rewrite H2, map_app.
      * intros k p. rewrite H3. split; intros (b & -> & Hb); exists b; (split; [done|]).
        -- by apply append_lookup; left.
        -- apply append_lookup in Hb as [Hb|[_ [=]]]. done.
      * intros p b Hs Hb. apply append_lookup in Hb as [Hb|[_ [=]]]. by destruct (H4 p b).
    + assert (pending w !! keyOf a = None) as Hn.
      { destruct (pending w !! keyOf a) as [p|] eqn:Ep; [|done]. apply (open_pending w s a p HR) in Ep. by destruct (Hno p). }
      rewrite Hn. eexists _, _. split_and!; [done|by cbn|]. split; cbn.
      * done.
      * by rewrite H2, map_app.
      * intros k p. rewrite lookup_insert_Some, H3, Hl. split.
        -- intros [[<- <-]|[Hk (b & -> & Hb)]]; [exists a|exists b]; (split; [done|]); apply append_lookup; [by right|by left].
        -- intros (b & -> & Hb). apply append_lookup in Hb as [Hb|[-> [= ->]]]; [|by left]. right. split; [|by exists b].
           intros ->%(inj keyOf). by destruct (Hno p).
      * intros p b [? ?]. done.
Qed.

(** The loop of [fail]. *)
Lemma reject_entries e l w :
  let w' := foldl (rejectEntry e) w l in
  waiterFailed w' = waiterFailed w ∧ (∀ k, pending w' !! k = if decide (k ∈ l.*1) then None else pending w !! k) ∧
  ∀ p, promises w' !! p = if decide (p ∈ l.*2) then settlePromise (Err e) <$> promises w !! p else promises w !! p.
Proof.
  revert w. induction l as [|[k p] l IH]; intros w; cbn [foldl].
  { split_and!; [done|intros k; by rewrite decide_False by apply not_elem_of_nil|intros p; by rewrite decide_False by apply not_elem_of_nil]. }
  destruct (IH (rejectEntry e w (k, p))) as (H1 & H2 & H3). split_and!; [done|..].
  - intros j. rewrite H2. cbn. destruct (decide (j = k)) as [->|Hj].
    + rewrite lookup_delete_eq, (decide_True (P := k ∈ k :: _)) by by left. by destruct (decide _).
    + rewrite lookup_delete_ne by done. apply decide_ext. rewrite elem_of_cons. tauto.
  - intros q. rewrite H3. cbn. destruct (decide (q = p)) as [->|Hq].
    + rewrite list_lookup_alter_eq, (decide_True (P := p ∈ p :: _)) by by left. destruct (decide _); [|done].
      by destruct (promises w !! p) as [[k' [o|]]|].
    + rewrite list_lookup_alter_ne by done. apply decide_ext. rewrite elem_of_cons. tauto.
Qed.

Lemma fail_refines e w s : refines w s → refines (fail e w) (specFail e s).
Proof.
  intros HR. pose proof HR as [H1 H2 H3 H4]. unfold fail, specFail. rewrite H1. destruct (broken s) as [e'|] eqn:Eb; [done|].
  destruct (reject_entries e (map_to_list (pending w)) {| pending := pending w; waiterFailed := Some e; promises := promises w |}) as (F1 & F2 & F3).
  revert F1 F2 F3. generalize (foldl (rejectEntry e) {| pending := pending w; waiterFailed := Some e; promises := promises w |} (map_to_list (pending w))).
  intros w' F1 F2 F3. cbn in F1, F2, F3. assert (∀ k, pending w' !! k = None) as Hnone.
  { intros k. rewrite F2. destruct (decide _) as [|Hk]; [done|]. destruct (pending w !! k) as [p|] eqn:Ek; [|done]. destruct Hk.
    apply list_elem_of_fmap. exists (k, p). split; [done|]. by apply elem_of_map_to_list. }
  split; cbn.
  - done.
  - apply list_eq. intros p. rewrite F3, H2, !list_lookup_fmap. destruct (made s !! p) as [[a o]|] eqn:Ep; cbn; [|by destruct (decide _)].
    destruct o as [o|]; [by destruct (decide _)|]. rewrite decide_True; [done|]. apply list_elem_of_fmap. exists (keyOf a, p). split; [done|].
    apply elem_of_map_to_list, H3. by exists a.
  - intros k p. rewrite Hnone. split; [done|]. intros (a & _ & Hp). rewrite list_lookup_fmap in Hp. by destruct (made s !! p).
  - intros p a _ Hp. rewrite list_lookup_fmap in Hp. by destruct (made s !! p).
Qed.

Lemma call_refines c w s : refines w s → (call c w).1 = (specCall c s).1 ∧ refines (call c w).2 (specCall c s).2.
Proof.
  intros HR. destruct c as [kind id|kind id|a|e]; cbn [call specCall].
  - unfold mark. pose proof (controlAckInput_named kind id) as Hk. destruct (namedAck kind id) as [a|]; [rewrite Hk|destruct Hk as [e ->]; done].
    pose proof (mark_refines w s a HR) as Hm. fold (keyOf a). destruct (pending w !! keyOf a) as [p|]; [destruct Hm as [-> Hm]|rewrite Hm]; done.
  - pose proof (controlAckInput_named kind id) as Hk. destruct (namedAck kind id) as [a|].
    + destruct (wait_refines kind id a w s Hk HR) as (p & w' & -> & <- & HR'). by destruct (specWait a s).
    + destruct Hk as [e He]. unfold wait. by rewrite He.
  - split; [done|by apply timeout_refines].
  - split; [done|by apply fail_refines].
Qed.

Lemma calls_refine cs w s : refines w s → (calls call cs w).1 = (calls specCall cs s).1 ∧ refines (calls call cs w).2 (calls specCall cs s).2.
Proof.
  revert w s. induction cs as [|c cs IH]; intros w s HR; cbn [calls]; [done|]. destruct (call_refines c w s HR) as [Hr HR'].
  destruct (call c w) as [r w'], (specCall c s) as [r' s']. cbn in Hr, HR'. subst r'. destruct (IH w' s' HR') as [Hrs HR''].
  destruct (calls call cs w'), (calls specCall cs s'). cbn in *. by subst.
Qed.

(** C14. The map of text keys with its timers behaves as the specification:
    whatever is called in whatever order, and whichever timers fire, [mark] and
    [wait] return what it returns and every promise has the outcome it gives;
    there, an acknowledgement has at most one open promise, [mark] resolves it
    and reports whether there was one, its timer rejects it, and a failure
    rejects all open promises and every later one. *)
Theorem waiter_refines_spec cs :
  let '(returns, w) := calls call cs newWaiter in
  let '(returns', s) := calls specCall cs {| broken := None; made := [] |} in
  returns = returns' ∧ waiterFailed w = broken s ∧ promises w = map promiseOf (made s).
Proof.
  assert (refines newWaiter {| broken := None; made := [] |}) as HR.
  { split; cbn; try done. intros k p. rewrite lookup_empty. split; [done|]. by intros (a & _ & ?). }
  destruct (calls_refine cs _ _ HR) as [Hr [H1 H2 _ _]]. destruct (calls call cs newWaiter), (calls specCall cs _). done.
Qed.
