(* ===== verification/ReceiverState.v ===== *)
(** * ReceiverState: the state of [receiveFiles] and what it awaits
    ([src/cli/transfer.ts]).

    The closures of [receiveFiles] share one state.  What they await is an
    operation: sealing and opening, and the work on files and streams.  The
    theorems of the receiver hold for every answer of these operations, so the
    peer may send anything and the file system may fail or change at any
    time. *)
From S2P Require Import Prelude.
From S2P Require Import Constants.
From S2P Require Import JsText.
From S2P Require Import JsValue.
From S2P Require Import Base64.
From S2P Require Import Protocol.
From S2P Require Import Messages.
From S2P Require Import Bytes.
From S2P Require Import Crypto.
From S2P Require Import Pake.
From S2P Require Import TransferControl.
From S2P Require Import FileStat.
From S2P Require Import Async.
#[local] Open Scope Z_scope.

(** ** Data *)

(** What arrives on a data channel: the cases of [receiveQueueByteLength] *)
Inductive Frame :=
| Text (text : jsstr)
| Binary (data : binary)
| Blob (size : option N)
| OtherData.

(** [receiveQueueByteLength]; the size of a [Blob] is [None] when it is not finite *)
Definition receiveQueueByteLength (data : Frame) : Z :=
  match data with
  | Text text => byteLength (utf8Encode text)
  | Binary (ArrayBuffer true l) | Binary (Uint8Array true l) => byteLength l
  | Blob (Some size) => Z.of_N size
  | _ => RECEIVE_QUEUE_MAX_BYTES + 1
  end.

(** [toBytes] *)
Definition toBytes (data : Frame) : result (list Z) :=
  match data with
  | Binary (ArrayBuffer true l) | Binary (Uint8Array true l) => Ok l
  | _ => throw "Unsupported binary chunk type"
  end.

(** [fs.WriteStream] and [FileHandle] by the number of the open file; a stream
    has its start offset. *)
Abbreviation FileHandle := nat.
Record WriteStream := { streamHandle : FileHandle; streamStart : Z }.

(** [ReservedOutputFile]; the resumed hash is the prefix that it has absorbed. *)
Record ReservedOutputFile := {
  ro_finalPath : jsstr;
  ro_partPath : jsstr;
  ro_handle : FileHandle;
  ro_part : FileIdentity;
  ro_dir : FileIdentity;
  ro_resumeBytes : Z;
  ro_resumeHash : option (list Z)
}.

(** [ReceiveState]; [hash] is what it has absorbed. *)
Record ReceiveState := {
  rs_name : jsstr;
  rs_size : Z;
  rs_finalPath : jsstr;
  rs_partPath : jsstr;
  rs_part : FileIdentity;
  rs_dir : FileIdentity;
  rs_publishedIdentity : option FileIdentity;
  rs_stream : WriteStream;
  rs_hash : list Z;
  rs_bytes : Z;
  rs_expectedSha256 : option jsstr;
  rs_expectedSeq : Z;
  rs_done : bool;
  rs_finalizing : bool
}.

Definition set_published (i : option FileIdentity) (f : ReceiveState) : ReceiveState :=
  {| rs_name := rs_name f; rs_size := rs_size f; rs_finalPath := rs_finalPath f; rs_partPath := rs_partPath f; rs_part := rs_part f;
     rs_dir := rs_dir f; rs_publishedIdentity := i; rs_stream := rs_stream f; rs_hash := rs_hash f; rs_bytes := rs_bytes f;
     rs_expectedSha256 := rs_expectedSha256 f; rs_expectedSeq := rs_expectedSeq f; rs_done := rs_done f; rs_finalizing := rs_finalizing f |}.
Definition set_content (s : WriteStream) (hash : list Z) (bytes seq : Z) (f : ReceiveState) : ReceiveState :=
  {| rs_name := rs_name f; rs_size := rs_size f; rs_finalPath := rs_finalPath f; rs_partPath := rs_partPath f; rs_part := rs_part f;
     rs_dir := rs_dir f; rs_publishedIdentity := rs_publishedIdentity f; rs_stream := s; rs_hash := hash; rs_bytes := bytes;
     rs_expectedSha256 := rs_expectedSha256 f; rs_expectedSeq := seq; rs_done := rs_done f; rs_finalizing := rs_finalizing f |}.
Definition set_expectedSha256 (h : jsstr) (f : ReceiveState) : ReceiveState :=
  {| rs_name := rs_name f; rs_size := rs_size f; rs_finalPath := rs_finalPath f; rs_partPath := rs_partPath f; rs_part := rs_part f;
     rs_dir := rs_dir f; rs_publishedIdentity := rs_publishedIdentity f; rs_stream := rs_stream f; rs_hash := rs_hash f; rs_bytes := rs_bytes f;
     rs_expectedSha256 := Some h; rs_expectedSeq := rs_expectedSeq f; rs_done := rs_done f; rs_finalizing := rs_finalizing f |}.
Definition set_phase (done finalizing : bool) (f : ReceiveState) : ReceiveState :=
  {| rs_name := rs_name f; rs_size := rs_size f; rs_finalPath := rs_finalPath f; rs_partPath := rs_partPath f; rs_part := rs_part f;
     rs_dir := rs_dir f; rs_publishedIdentity := rs_publishedIdentity f; rs_stream := rs_stream f; rs_hash := rs_hash f; rs_bytes := rs_bytes f;
     rs_expectedSha256 := rs_expectedSha256 f; rs_expectedSeq := rs_expectedSeq f; rs_done := done; rs_finalizing := finalizing |}.

(** ** What is awaited *)

Inductive op : Type → Type :=
| OpenControl (data : Frame) : op jsval
| OpenBulk (fileId chunkSeq : Z) (payload : list Z) : op (list Z)
| SealControl (m : ControlMessage) : op jsstr
| ReserveOutputFile (name : jsstr) (size : Z) : op ReservedOutputFile
| CloseReceiveStream (s : WriteStream) : op ()
| OpenPartFile (path : jsstr) : op FileHandle
| StatHandle (h : FileHandle) : op Stats
| TruncateHandle (h : FileHandle) (length : Z) : op ()
| CloseHandle (h : FileHandle) : op ()
| WriteChunk (s : WriteStream) (chunk : list Z) : op ()
| EndStream (s : WriteStream) : op ()
| DigestFilePath (path : jsstr) (expected : option FileIdentity) (size : Z) : op jsstr
| PublishPartFile (partPath finalPath : jsstr) (part : FileIdentity) (size : Z) (dir : FileIdentity) : op FileIdentity
| RemovePathIfIdentity (path : jsstr) (expected : FileIdentity) : op ().

(** ** The shared state *)

(** The promise [done] and what the rest of [receiveFiles] has done after it. *)
Inductive Settled := Pending | Resolved | Rejected (message : jsstr).
Inductive Cleanup := NotStarted | Cleaning | Returned (error : option jsstr).

(** The variables that say what is transferred. *)
Record Expectation := {
  manifest : option (list FileManifestEntry * Z);
  expectedFiles : gmap Z FileManifestEntry;
  totalBytes : Z;
  allDoneSeen : bool
}.

(** The variables of the outcome. *)
Record Status := {
  failed : bool;
  completed : bool;
  idleTimer : bool;
  settled : Settled;
  cleanup : Cleanup
}.

(** The channels: whether the handlers are set, whether [closeChannels] has
    run, the number of calls of [control.send], and what was sent, oldest
    first, with the message that each sealed text is for. *)
Record Channels := { attached : bool; opened : bool; sends : nat; sent : list (ControlMessage * jsstr) }.

(** [receiveQueue]: the data that waits for its handler ([true] for the control
    channel), the length charged for the running task, and the counters. *)
Record ReceiveQueue := {
  waiting : list (bool * Frame);
  running : option Z;
  queuedReceiveBytes : Z;
  queuedReceiveMessages : Z
}.

(** [files] in insertion order, which a [Map] keeps.  [digests] records the
    answers of [digestFilePath]. *)
Record Receiver := {
  files : list (Z * ReceiveState);
  expectation : Expectation;
  status : Status;
  channels : Channels;
  queue : ReceiveQueue;
  transferredBytes : Z;
  digests : list (jsstr * option FileIdentity * Z * jsstr)
}.

Definition set_files (f : list (Z * ReceiveState) → list (Z * ReceiveState)) (r : Receiver) : Receiver :=
  {| files := f (files r); expectation := expectation r; status := status r; channels := channels r; queue := queue r;
     transferredBytes := transferredBytes r; digests := digests r |}.
Definition set_expectation (f : Expectation → Expectation) (r : Receiver) : Receiver :=
  {| files := files r; expectation := f (expectation r); status := status r; channels := channels r; queue := queue r;
     transferredBytes := transferredBytes r; digests := digests r |}.
Definition set_status (f : Status → Status) (r : Receiver) : Receiver :=
  {| files := files r; expectation := expectation r; status := f (status r); channels := channels r; queue := queue r;
     transferredBytes := transferredBytes r; digests := digests r |}.
Definition set_channels (f : Channels → Channels) (r : Receiver) : Receiver :=
  {| files := files r; expectation := expectation r; status := status r; channels := f (channels r); queue := queue r;
     transferredBytes := transferredBytes r; digests := digests r |}.
Definition set_queue (f : ReceiveQueue → ReceiveQueue) (r : Receiver) : Receiver :=
  {| files := files r; expectation := expectation r; status := status r; channels := channels r; queue := f (queue r);
     transferredBytes := transferredBytes r; digests := digests r |}.
Definition set_transferredBytes (f : Z → Z) (r : Receiver) : Receiver :=
  {| files := files r; expectation := expectation r; status := status r; channels := channels r; queue := queue r;
     transferredBytes := f (transferredBytes r); digests := digests r |}.
Definition set_digest (path : jsstr) (i : option FileIdentity) (size : Z) (hex : jsstr) (r : Receiver) : Receiver :=
  {| files := files r; expectation := expectation r; status := status r; channels := channels r; queue := queue r;
     transferredBytes := transferredBytes r; digests := digests r ++ [(path, i, size, hex)] |}.

(** Writes of the single variables. *)
Definition set_failed (s : Status) : Status :=
  {| failed := true; completed := completed s; idleTimer := idleTimer s; settled := settled s; cleanup := cleanup s |}.
Definition set_completed (s : Status) : Status :=
  {| failed := failed s; completed := true; idleTimer := idleTimer s; settled := settled s; cleanup := cleanup s |}.
Definition set_idleTimer (b : bool) (s : Status) : Status :=
  {| failed := failed s; completed := completed s; idleTimer := b; settled := settled s; cleanup := cleanup s |}.
Definition set_cleanup (c : Cleanup) (s : Status) : Status :=
  {| failed := failed s; completed := completed s; idleTimer := idleTimer s; settled := settled s; cleanup := c |}.
(** [resolveDone] and [rejectDone]: only the first call of either counts *)
Definition settle (v : Settled) (s : Status) : Status :=
  {| failed := failed s; completed := completed s; idleTimer := idleTimer s;
     settled := match settled s with Pending => v | v' => v' end; cleanup := cleanup s |}.

(** [Map.get] and writing a property of the object found there. *)
Fixpoint getFile (id : Z) (l : list (Z * ReceiveState)) : option ReceiveState :=
  match l with
  | [] => None
  | (i, f) :: l => if i =? id then Some f else getFile id l
  end.
Fixpoint updateFile (id : Z) (g : ReceiveState → ReceiveState) (l : list (Z * ReceiveState)) : list (Z * ReceiveState) :=
  match l with
  | [] => []
  | (i, f) :: l => if i =? id then (i, g f) :: l else (i, f) :: updateFile id g l
  end.

(** The state before [await done]. *)
Definition initial : Receiver :=
  {| files := []; expectation := {| manifest := None; expectedFiles := ∅; totalBytes := 0; allDoneSeen := false |};
     status := {| failed := false; completed := false; idleTimer := true; settled := Pending; cleanup := NotStarted |};
     channels := {| attached := true; opened := true; sends := 0; sent := [] |};
     queue := {| waiting := []; running := None; queuedReceiveBytes := 0; queuedReceiveMessages := 0 |};
     transferredBytes := 0; digests := [] |}.
