(* ===== verification/Receiver.v ===== *)
(** * Receiver: [receiveFiles] of [src/cli/transfer.ts].

    Each closure and helper of the source is a task over the state of
    ReceiverState.  The receive queue runs one handler at a time (the
    foreground); events of the channels, the timer and the streams, and the
    clean-up after [await done], run beside it.  [launches] and [starts] say
    when a task may begin. *)
From S2P Require Import Prelude.
From S2P Require Import Constants.
From S2P Require Import JsText.
From S2P Require Import JsValue.
From S2P Require Import Base64.
From S2P Require Import Protocol.
From S2P Require Import Messages.
From S2P Require Import Limits.
From S2P Require Import Bytes.
From S2P Require Import Chunks.
From S2P Require Import Crypto.
From S2P Require Import Pake.
From S2P Require Import TransferControl.
From S2P Require Import FileStat.
From S2P Require Import Async.
From S2P Require Import ReceiverState.
#[local] Open Scope Z_scope.

(** [digestHex] and [digestCloneHex] of hash.ts, on what the hash has absorbed *)
Definition digestHex `{Crypto} (hash : list Z) : jsstr := bytesToHex (sha256 hash).

(** What a call of [receiveFiles] is given: [resume], [acceptedManifest], and
    whether the channel takes the n-th [send] ([RTCDataChannel.send] throws
    when it is closing or its buffer is full). *)
Class Reception := { resume : bool; acceptedManifest : option FileManifest; accepts : nat → bool }.

Abbreviation T := (task op Receiver).

Section Receiver.
Context `{Crypto, JsCase, Platform, Reception}.

(** The object of [files] with this id; it stays in the map. *)
Definition fileState (id : Z) : T ReceiveState :=
  s ← get;
  match getFile id (files s) with Some f => Ret f | None => Throw (js "unknown file") end.
Definition writeFile (id : Z) (g : ReceiveState → ReceiveState) : T () := modify (set_files (updateFile id g)).

(** ** Stopping *)

(** [throwIfReceiveStopped] *)
Definition throwIfReceiveStopped : T () :=
  s ← get;
  lift (check (negb (failed (status s))) "Transfer stopped during local receive work.";;
        check (negb (completed (status s))) "Transfer completed during local receive work.").

(** [control.send(sealed)] *)
Definition channelSend (m : ControlMessage) (sealed : jsstr) : T () :=
  s ← get;
  let c := channels s in
  modify (set_channels (λ c, {| attached := attached c; opened := opened c; sends := S (sends c); sent := sent c |}));;
  if opened c && accepts (sends c)
  then modify (set_channels (λ c, {| attached := attached c; opened := opened c; sends := sends c; sent := sent c ++ [(m, sealed)] |}))
  else Throw (js "RTCDataChannel send failed").

(** [sendControl]; [stop] says whether it is given [throwIfReceiveStopped] *)
Definition sendControl (m : ControlMessage) (stop : bool) : T () :=
  sealed ← await (SealControl m);
  twhen stop throwIfReceiveStopped;;
  channelSend m sealed.

(** [clearReceiveTimeout] and [resetReceiveTimeout] *)
Definition clearReceiveTimeout : T () := modify (set_status (set_idleTimer false)).
Definition resetReceiveTimeout : T () :=
  modify (set_status (λ s, set_idleTimer (negb (failed s || completed s)) s)).

(** [detachChannels] and [closeChannels] *)
Definition detachChannels : T () :=
  modify (set_channels (λ c, {| attached := false; opened := opened c; sends := sends c; sent := sent c |})).
Definition closeChannels : T () :=
  modify (set_channels (λ c, {| attached := attached c; opened := false; sends := sends c; sent := sent c |})).

(** [failTransfer] *)
Definition failTransfer (error : jsstr) : T () :=
  s ← get;
  if failed (status s) || completed (status s) then Ret ()
  else
    modify (set_status set_failed);;
    clearReceiveTimeout;;
    detachChannels;;
    tcatch (sendControl abortControlMessage false) (λ _, Ret ());;
    closeChannels;;
    modify (set_status (settle (Rejected error))).

(** [maybeResolveDone] *)
Definition maybeResolveDone : T () :=
  s ← get;
  if negb (allDoneSeen (expectation s)) then Ret ()
  else if negb (forallb (λ '(_, f), rs_done f) (files s)) then Ret ()
  else
    clearReceiveTimeout;;
    sendControl AllDoneOk true;;
    modify (set_status set_completed);;
    modify (set_status (settle Resolved)).

(** ** Files *)

(** [digestFilePath], noting its answer *)
Definition digestFilePath (path : jsstr) (expected : option FileIdentity) (size : Z) : T jsstr :=
  hex ← await (DigestFilePath path expected size);
  modify (set_digest path expected size hex);;
  Ret hex.

(** [removePublishedFile] and [cleanupPublishedAfterFailure] *)
Definition removePublishedFile (id : Z) : T () :=
  f ← fileState id;
  match rs_publishedIdentity f with
  | None => Ret ()
  | Some identity =>
    await (RemovePathIfIdentity (rs_finalPath f) identity);;
    writeFile id (set_published None)
  end.
Definition cleanupPublishedAfterFailure (id : Z) : T () := tcatch (removePublishedFile id) (λ _, Ret ()).

(** [discardPartialFile] *)
Definition discardPartialFile (id : Z) (keepPartial : bool) : T () :=
  removePublishedFile id;;
  f ← fileState id;
  await (CloseReceiveStream (rs_stream f));;
  if keepPartial then Ret () else await (RemovePathIfIdentity (rs_partPath f) (rs_part f)).

(** [restartReceiveState] *)
Definition restartReceiveState (id : Z) : T () :=
  f ← fileState id;
  await (CloseReceiveStream (rs_stream f));;
  handle ← await (OpenPartFile (rs_partPath f));
  tcatch
    (stat ← await (StatHandle handle);
     lift (if isFile stat && sameIdentity (identityOf stat) (rs_part f) then Ok ()
           else Err (js "Resume partial changed before restart for " ++ rs_name f ++ js "."));;
     lift (assertSingleLink stat "Resume partial");;
     lift (assertPrivatePartialStat stat);;
     await (TruncateHandle handle 0);;
     writeFile id (set_content {| streamHandle := handle; streamStart := 0 |} [] 0 0))
    (λ e, tcatch (await (CloseHandle handle)) (λ _, Ret ());; Throw e).

(** The [try { throwIfReceiveStopped() } catch] blocks of [maybeFinalize] *)
Definition stopAfterPublish (id : Z) : T () :=
  tcatch throwIfReceiveStopped (λ e, cleanupPublishedAfterFailure id;; Throw e).

(** The body of [maybeFinalize] *)
Definition finalizeBody (id : Z) : T () :=
  f ← fileState id;
  await (EndStream (rs_stream f));;
  throwIfReceiveStopped;;
  f ← fileState id;
  if negb (bool_decide (Some (digestHex (rs_hash f)) = rs_expectedSha256 f)) then
    await (RemovePathIfIdentity (rs_partPath f) (rs_part f));;
    Throw (js "Hash mismatch for " ++ rs_name f ++ js ".")
  else
    onDisk ← digestFilePath (rs_partPath f) None (rs_size f);
    throwIfReceiveStopped;;
    if negb (bool_decide (Some onDisk = rs_expectedSha256 f)) then
      await (RemovePathIfIdentity (rs_partPath f) (rs_part f));;
      Throw (js "On-disk hash mismatch for " ++ rs_name f ++ js ".")
    else
      fileOk ← await (SealControl (FileOk id));
      throwIfReceiveStopped;;
      publishedIdentity ← await (PublishPartFile (rs_partPath f) (rs_finalPath f) (rs_part f) (rs_size f) (rs_dir f));
      writeFile id (set_published (Some publishedIdentity));;
      stopAfterPublish id;;
      published ← digestFilePath (rs_finalPath f) (Some publishedIdentity) (rs_size f);
      stopAfterPublish id;;
      if negb (bool_decide (Some published = rs_expectedSha256 f)) then
        cleanupPublishedAfterFailure id;;
        Throw (js "Published file hash mismatch for " ++ rs_name f ++ js ".")
      else
        stopAfterPublish id;;
        channelSend (FileOk id) fileOk;;
        writeFile id (set_phase true true).

(** [maybeFinalize] *)
Definition maybeFinalize (id : Z) : T () :=
  f ← fileState id;
  if rs_done f || rs_finalizing f || negb (bool_decide (is_Some (rs_expectedSha256 f))) || (rs_bytes f <? rs_size f) then Ret ()
  else
    writeFile id (set_phase (rs_done f) true);;
    tcatch (finalizeBody id) (λ e, writeFile id (set_phase (rs_done f) false);; Throw e).

(** ** Control messages *)

(** [expectedFiles.set(file.id, file)] for the files of a manifest *)
Definition expectFiles (entries : list FileManifestEntry) (m : gmap Z FileManifestEntry) : gmap Z FileManifestEntry :=
  foldl (λ m e, match fe_id e with Some id => <[id := e]> m | None => m end) m entries.

Definition handleManifest (entries : list FileManifestEntry) (total : Z) : T () :=
  s ← get;
  if bool_decide (is_Some (manifest (expectation s))) then Throw (js "Duplicate transfer manifest.")
  else
    modify (set_expectation (λ e, {| manifest := Some (entries, total); expectedFiles := expectFiles entries (expectedFiles e);
                                     totalBytes := totalBytes e; allDoneSeen := allDoneSeen e |}));;
    lift (assertManifestWithinLimits (manifestValue (manifestOf entries total)));;
    lift (match acceptedManifest with
          | Some accepted => assertTransferManifestMatchesAccepted accepted entries total
          | None => Ok ()
          end);;
    modify (set_expectation (λ e, {| manifest := manifest e; expectedFiles := expectedFiles e; totalBytes := total; allDoneSeen := allDoneSeen e |})).

(** The new [ReceiveState] of [file-begin]; [path.basename(finalPath)] is the
    part after the last separator. *)
Definition newReceiveState (size : Z) (r : ReservedOutputFile) : ReceiveState :=
  {| rs_name := drop (Z.to_nat (lastIndexOf 47 (ro_finalPath r) + 1)) (ro_finalPath r); rs_size := size; rs_finalPath := ro_finalPath r;
     rs_partPath := ro_partPath r; rs_part := ro_part r; rs_dir := ro_dir r; rs_publishedIdentity := None;
     rs_stream := {| streamHandle := ro_handle r; streamStart := ro_resumeBytes r |};
     rs_hash := default [] (ro_resumeHash r); rs_bytes := ro_resumeBytes r; rs_expectedSha256 := None;
     rs_expectedSeq := if ro_resumeBytes r =? size then (size + CHUNK_SIZE - 1) / CHUNK_SIZE else ro_resumeBytes r / CHUNK_SIZE;
     rs_done := false; rs_finalizing := false |}.

Definition handleFileBegin (id : Z) (name : jsstr) (size : Z) : T () :=
  s ← get;
  if negb (bool_decide (is_Some (manifest (expectation s)))) then Throw (js "file-begin arrived before manifest.")
  else
    match expectedFiles (expectation s) !! id with
    | None => Throw (js "file-begin for unexpected file " ++ jsInt id)
    | Some expected =>
      if bool_decide (is_Some (getFile id (files s))) then Throw (js "Duplicate file-begin for file " ++ jsInt id)
      else if negb (bool_decide (fe_name expected = name) && (fe_size expected =? size)) then
        Throw (js "file-begin does not match manifest for file " ++ jsInt id)
      else
        lift (assertFileWithinLimits (JStr name) (jint size));;
        r ← await (ReserveOutputFile name size);
        modify (set_files (λ l, l ++ [(id, newReceiveState size r)]));;
        sendControl
          (if 0 <? ro_resumeBytes r then Ready id (Some (ro_resumeBytes r)) (Some (digestHex (default [] (ro_resumeHash r))))
           else Ready id None None) true
    end.

Definition handleRestart (id : Z) : T () :=
  s ← get;
  match getFile id (files s) with
  | None => Throw (js "restart for unknown file " ++ jsInt id)
  | Some f =>
    if rs_done f || bool_decide (is_Some (rs_expectedSha256 f)) then Throw (js "restart for completed file " ++ jsInt id)
    else
      restartReceiveState id;;
      sendControl (Ready id None None) true
  end.

Definition handleFileEnd (id : Z) (sha256 : jsstr) : T () :=
  s ← get;
  match getFile id (files s) with
  | None => Throw (js "file-end for unknown file " ++ jsInt id)
  | Some f =>
    if bool_decide (is_Some (rs_expectedSha256 f)) then Throw (js "Duplicate file-end for file " ++ jsInt id)
    else
      writeFile id (set_expectedSha256 sha256);;
      maybeFinalize id;;
      maybeResolveDone
  end.

Definition handleAllDone : T () :=
  s ← get;
  if negb (bool_decide (is_Some (manifest (expectation s)))) then Throw (js "all-done arrived before manifest.")
  else if allDoneSeen (expectation s) then Throw (js "Duplicate all-done control message.")
  else if negb (bool_decide (length (files s) = size (expectedFiles (expectation s)))) then Throw (js "Not all manifest files were transferred.")
  else
    modify (set_expectation (λ e, {| manifest := manifest e; expectedFiles := expectedFiles e; totalBytes := totalBytes e; allDoneSeen := true |}));;
    maybeResolveDone.

Definition dispatchControl (m : ControlMessage) : T () :=
  match m with
  | Manifest entries total => handleManifest entries total
  | FileBegin id name size => handleFileBegin id name size
  | Restart id => handleRestart id
  | FileEnd id sha256 => handleFileEnd id sha256
  | AllDone => handleAllDone
  | Abort _ => lift remoteAbortError
  | _ => Throw (js "Unexpected receiver control message: " ++ controlType m ++ js ".")
  end.

(** [handleControlMessage] *)
Definition handleControlMessage (data : Frame) : T () :=
  s ← get;
  if failed (status s) || completed (status s) then Ret ()
  else
    resetReceiveTimeout;;
    tcatch
      (value ← await (OpenControl data);
       message ← lift (assertControlMessage value);
       throwIfReceiveStopped;;
       dispatchControl message)
      failTransfer.

(** ** Chunks *)

(** The inner [try] block of [handleBulkMessage] *)
Definition receivePayload (id : Z) (payload : list Z) : T () :=
  throwIfReceiveStopped;;
  f ← fileState id;
  lift (if byteLength payload =? 0 then Err (js "Empty chunk for " ++ rs_name f ++ js ".") else Ok ());;
  lift (if rs_size f <? rs_bytes f + byteLength payload then Err (js "Received more bytes than declared for " ++ rs_name f ++ js ".") else Ok ());;
  writeFile id (set_content (rs_stream f) (rs_hash f ++ payload) (rs_bytes f + byteLength payload) (rs_expectedSeq f + 1));;
  modify (set_transferredBytes (λ n, n + byteLength payload));;
  await (WriteChunk (rs_stream f) payload);;
  maybeFinalize id;;
  maybeResolveDone.

(** [handleBulkMessage] *)
Definition handleBulkMessage (data : Frame) : T () :=
  s ← get;
  if failed (status s) || completed (status s) then Ret ()
  else
    resetReceiveTimeout;;
    tcatch
      (bytes ← lift (toBytes data);
       frame ← lift (decodeChunk (bin bytes));
       s ← get;
       match getFile (fileId frame) (files s) with
       | None => Throw (js "chunk for unknown file " ++ jsInt (fileId frame))
       | Some f =>
         if rs_done f || (bool_decide (is_Some (rs_expectedSha256 f)) && (rs_size f <=? rs_bytes f)) then
           Throw (js "chunk for completed file " ++ jsInt (fileId frame))
         else if negb (chunkSeq frame =? rs_expectedSeq f) then Throw (js "Unexpected chunk sequence for " ++ rs_name f ++ js ".")
         else
           payload ← await (OpenBulk (fileId frame) (chunkSeq frame) (payload frame));
           receivePayload (fileId frame) payload
       end)
      failTransfer.

(** ** The receive queue *)

(** [enqueueReceiveTask]; [control] says which handler the task calls *)
Definition enqueueReceiveTask (control : bool) (data : Frame) : T () :=
  s ← get;
  if failed (status s) || completed (status s) then Ret ()
  else
    let byteLength := receiveQueueByteLength data in
    let q := queue s in
    if (RECEIVE_QUEUE_MAX_BYTES <? queuedReceiveBytes q + byteLength) || (RECEIVE_QUEUE_MAX_MESSAGES <? queuedReceiveMessages q + 1) then
      failTransfer (js "Receive queue backpressure exceeded.")
    else
      modify (set_queue (λ q, {| waiting := waiting q ++ [(control, data)]; running := running q;
        queuedReceiveBytes := queuedReceiveBytes q + byteLength; queuedReceiveMessages := queuedReceiveMessages q + 1 |})).

(** [runTask], for the task at the head of the queue *)
Definition runTask (control : bool) (data : Frame) : T () :=
  let byteLength := receiveQueueByteLength data in
  modify (set_queue (λ q, {| waiting := tail (waiting q); running := Some byteLength;
    queuedReceiveBytes := queuedReceiveBytes q; queuedReceiveMessages := queuedReceiveMessages q |}));;
  tfinally (if control then handleControlMessage data else handleBulkMessage data)
    (modify (set_queue (λ q, {| waiting := waiting q; running := None;
      queuedReceiveBytes := queuedReceiveBytes q - byteLength; queuedReceiveMessages := queuedReceiveMessages q - 1 |}))).

(** ** After [await done] *)

(** One pass of the loop of the [finally] block. *)
Definition cleanFile (id : Z) (doneError : option jsstr) : T () :=
  s ← get;
  f ← fileState id;
  if rs_done f && bool_decide (is_Some (rs_publishedIdentity f)) && bool_decide (is_Some doneError) && negb (completed (status s)) then
    removePublishedFile id
  else if negb (rs_done f) then discardPartialFile id resume
  else Ret ().

(** The loop: a [Map] is iterated by position, and a file added meanwhile is
    visited.  [fuel] bounds the number of files, whose ids are below 256. *)
Fixpoint cleanFiles (fuel index : nat) (doneError cleanupError : option jsstr) : T (option jsstr) :=
  match fuel with
  | O => Ret cleanupError
  | S fuel =>
    s ← get;
    match files s !! index with
    | None => Ret cleanupError
    | Some (id, _) =>
      r ← ttry (cleanFile id doneError);
      cleanFiles fuel (S index) doneError
        (match r with Ok _ => cleanupError | Err e => Some (default e cleanupError) end)
    end
  end.

Definition MAX_FILES : nat := 257.

(** The end of [receiveFiles], once [done] is settled. *)
Definition finishReceive : T () :=
  s ← get;
  let doneError := match settled (status s) with Rejected e => Some e | _ => None end in
  modify (set_status (set_cleanup Cleaning));;
  clearReceiveTimeout;;
  detachChannels;;
  cleanupError ← cleanFiles MAX_FILES 0 doneError None;
  modify (set_status (set_cleanup (Returned (match doneError with Some e => Some e | None => cleanupError end)))).

(** ** Events *)

(** The foreground: the head of the receive queue. *)
Inductive starts : Receiver → T () → Prop :=
| start_head s control data rest :
    running (queue s) = None → waiting (queue s) = (control, data) :: rest → starts s (runTask control data).

(** The background: data on a channel, its close and error events, the idle
    timer, the error event of a stream, and the end of [receiveFiles]. *)
Inductive launches : Receiver → T () → Prop :=
| on_message s control data : attached (channels s) = true → launches s (enqueueReceiveTask control data)
| on_close s : attached (channels s) = true → launches s (failTransfer (js "Transfer channel closed before completion."))
| on_error s : attached (channels s) = true → launches s (failTransfer (js "Transfer channel errored before completion."))
| on_timeout s : idleTimer (status s) = true → launches s (failTransfer (js "Transfer timed out waiting for peer data."))
| on_stream_error s id f e : getFile id (files s) = Some f → launches s (failTransfer e)
| on_settled s : settled (status s) ≠ Pending → cleanup (status s) = NotStarted → launches s finishReceive.

(** What the operations may answer: anything, but the output file that is
    reserved resumes at most the whole file, and at a chunk. *)
Definition answers (B : Type) (o : op B) (s : Receiver) (r : result B) : Prop :=
  match o in op B return result B → Prop with
  | ReserveOutputFile _ size => λ r, ∀ o, r = Ok o →
      0 <= ro_resumeBytes o <= size ∧ (ro_resumeBytes o = size ∨ ro_resumeBytes o mod CHUNK_SIZE = 0) ∧
      byteLength (default [] (ro_resumeHash o)) = ro_resumeBytes o
  | _ => λ _, True
  end r.

Definition reached : config → Prop := reachable answers starts launches initial.

End Receiver.
