(* ===== verification/ReceiverInv.v ===== *)
(** * ReceiverInv: the invariant of the receiver, and what its tasks assume of
    each other.

    [Inv] holds whenever control is at the event loop.  A handler of the
    receive queue tolerates [relyF]: meanwhile others may fail the transfer
    and then withdraw published files, and may append to the queue.  The
    background tolerates [relyB]: the outcome is settled at most once. *)
From S2P Require Import Prelude.
From S2P Require Import Constants.
From S2P Require Import JsText.
From S2P Require Import JsValue.
From S2P Require Import Base64.
From S2P Require Import Protocol.
From S2P Require Import Messages.
From S2P Require Import Bytes.
From S2P Require Import Crypto.
From S2P Require Import TransferControl.
From S2P Require Import FileStat.
From S2P Require Import Async.
From S2P Require Import ReceiverState.
From S2P Require Import Receiver.
#[local] Open Scope Z_scope.

(** ** The invariant *)

Abbreviation Sent := (list (ControlMessage * jsstr)).
Abbreviation Digests := (list (jsstr * option FileIdentity * Z * jsstr)).

Definition isProgress (x : ControlMessage * jsstr) : Prop :=
  match x.1 with Ready _ _ _ | FileOk _ => True | _ => False end.
Definition isAbort (x : ControlMessage * jsstr) : Prop := match x.1 with Abort _ => True | _ => False end.

(** What was sent: progress, and then the end of a complete transfer or the
    abort of a failed one. *)
Definition sentOk (failed completed : bool) (sent : Sent) : Prop :=
  ∃ pre post, sent = pre ++ post ∧ Forall isProgress pre ∧
    if completed then ∃ x, post = [(AllDoneOk, x)] else if failed then Forall isAbort post else post = [].

Section Inv.
Context `{Crypto, JsCase, Platform, Reception}.

(** A file that was received: it has its size, and its content, the partial on
    disk and the published file have the hash that the sender gave. *)
Record verifiedFile (failed : bool) (sent : Sent) (digests : Digests) (id : Z) (f : ReceiveState) : Prop := {
  vf_bytes : rs_bytes f = rs_size f;
  vf_hash : rs_expectedSha256 f = Some (digestHex (rs_hash f));
  vf_disk : (rs_partPath f, None, rs_size f, digestHex (rs_hash f)) ∈ digests;
  vf_published : ∃ i, (rs_finalPath f, Some i, rs_size f, digestHex (rs_hash f)) ∈ digests ∧ (rs_publishedIdentity f = Some i ∨ failed = true);
  vf_ok : ∃ x, (FileOk id, x) ∈ sent
}.

Record fileInv (expected : gmap Z FileManifestEntry) (failed : bool) (sent : Sent) (digests : Digests) (id : Z) (f : ReceiveState) : Prop := {
  fi_expected : ∃ e, expected !! id = Some e ∧ fe_size e = rs_size f;
  fi_bytes : 0 <= rs_bytes f <= rs_size f;
  fi_hash : byteLength (rs_hash f) = rs_bytes f;
  fi_done : rs_done f = true → verifiedFile failed sent digests id f
}.

Record Core (fs : list (Z * ReceiveState)) (ex : Expectation) (failed completed : bool) (st : Settled) (sent : Sent) (digests : Digests) : Prop := {
  core_ids : NoDup fs.*1;
  core_files : Forall (λ x, fileInv (expectedFiles ex) failed sent digests x.1 x.2) fs;
  core_manifest : match manifest ex with
    | Some (entries, total) => transferOk entries total ∧ expectedFiles ex = expectFiles entries ∅
    | None => expectedFiles ex = ∅
    end;
  core_allDone : allDoneSeen ex = true → is_Some (manifest ex) ∧ length fs = size (expectedFiles ex);
  core_exclusive : failed = true → completed = false;
  core_settled : match st with Pending => completed = false | Resolved => completed = true | Rejected _ => failed = true end;
  core_completed : completed = true → allDoneSeen ex = true ∧ Forall (λ x, rs_done x.2 = true) fs;
  core_sent : sentOk failed completed sent;
  core_fileOk : ∀ id x, (FileOk id, x) ∈ sent → ∃ f, getFile id fs = Some f ∧ rs_done f = true
}.

Definition queueLengths (q : ReceiveQueue) : list Z := map (λ x, receiveQueueByteLength x.2) (waiting q) ++ option_list (running q).

Record queueInv (q : ReceiveQueue) : Prop := {
  queue_bytes : queuedReceiveBytes q = foldr Z.add 0 (queueLengths q);
  queue_messages : queuedReceiveMessages q = Z.of_nat (length (queueLengths q));
  queue_lengths : Forall (λ n, 0 <= n) (queueLengths q);
  queue_bytes_max : queuedReceiveBytes q <= RECEIVE_QUEUE_MAX_BYTES;
  queue_messages_max : queuedReceiveMessages q <= RECEIVE_QUEUE_MAX_MESSAGES
}.

(** The manifest is the one the user accepted. *)
Definition accepted (ex : Expectation) : Prop :=
  match manifest ex, acceptedManifest with
  | Some (entries, total), Some a => assertTransferManifestMatchesAccepted a entries total = Ok ()
  | _, _ => True
  end.

Definition coreOf (s : Receiver) : Prop :=
  Core (files s) (expectation s) (failed (status s)) (completed (status s)) (settled (status s)) (sent (channels s)) (digests s).

Definition Inv (s : Receiver) : Prop :=
  coreOf s ∧ queueInv (queue s) ∧ (failed (status s) = false → accepted (expectation s)).

(** What a handler leaves to [failTransfer]: a manifest that does not match is
    noticed after it is recorded. *)
Definition Almost (s : Receiver) : Prop :=
  coreOf s ∧ queueInv (queue s) ∧ (completed (status s) = true → accepted (expectation s)).

Lemma Inv_Almost s : Inv s → Almost s.
Proof.
  intros (HC & HQ & Ha). split; [done|]. split; [done|]. intros Hc. apply Ha. destruct (failed (status s)) eqn:Ef; [|done].
  pose proof (core_exclusive _ _ _ _ _ _ _ HC Ef). congruence.
Qed.

(** ** Rely and guarantee *)

Record relyB (s s' : Receiver) : Prop := {
  rb_failed : failed (status s) = true → failed (status s') = true;
  rb_completed : completed (status s) = true → completed (status s') = true;
  rb_settled : settled (status s) ≠ Pending → settled (status s') = settled (status s)
}.

(** A file that the background may have withdrawn. *)
Definition sameFile (failed : bool) (a b : Z * ReceiveState) : Prop :=
  a.1 = b.1 ∧ (b.2 = a.2 ∨ failed = true ∧ b.2 = set_published None a.2).

Record relyF (s s' : Receiver) : Prop := {
  rf_B : relyB s s';
  rf_completed : completed (status s') = completed (status s);
  rf_expectation : expectation s' = expectation s;
  rf_digests : digests s' = digests s;
  rf_running : running (queue s') = running (queue s);
  rf_files : Forall2 (sameFile (failed (status s'))) (files s) (files s')
}.

#[export] Instance relyB_preorder : PreOrder relyB.
Proof.
  split; [by constructor|]. intros s1 s2 s3 [F1 C1 S1] [F2 C2 S2]. constructor; [auto..|].
  intros Hp. rewrite <-S1 by done. apply S2. by rewrite S1.
Qed.

Lemma sameFile_mono b b' x y : (b = true → b' = true) → sameFile b x y → sameFile b' x y.
Proof. intros Hb [? [?|[? ?]]]; split; auto. Qed.

Lemma sameFile_trans b b' x y z : (b = true → b' = true) → sameFile b x y → sameFile b' y z → sameFile b' x z.
Proof.
  destruct x, y, z. intros Hb [Hi1 Hx] [Hi2 Hy]. split; [by etransitivity|]. cbn in *.
  destruct Hx as [->|[? ->]], Hy as [->|[? ->]]; auto.
Qed.

Lemma sameFiles_trans b b' fs1 fs2 fs3 :
  (b = true → b' = true) → Forall2 (sameFile b) fs1 fs2 → Forall2 (sameFile b') fs2 fs3 → Forall2 (sameFile b') fs1 fs3.
Proof.
  intros Hb H12. revert fs3. induction H12 as [|x y fs1 fs2 Hxy H12 IH]; intros fs3; [by intros ->%Forall2_nil_inv_l|].
  intros (z & fs3' & Hyz & H23 & ->)%Forall2_cons_inv_l. constructor; [by apply (sameFile_trans b b' x y)|by apply IH].
Qed.

Lemma sameFiles_refl b fs : Forall2 (sameFile b) fs fs.
Proof. induction fs; constructor; [by split; [|left]|done]. Qed.

#[export] Instance relyF_preorder : PreOrder relyF.
Proof.
  split.
  - intros s. constructor; try done. apply sameFiles_refl.
  - intros s1 s2 s3 [B1 C1 E1 D1 R1 F1] [B2 C2 E2 D2 R2 F2]. constructor; try (by etransitivity).
    eapply sameFiles_trans; [|exact F1|exact F2]. apply B2.
Qed.

(** ** Files *)

Lemma getFile_elem id fs f : getFile id fs = Some f → (id, f) ∈ fs.
Proof.
  induction fs as [|[i g] fs IH]; cbn; [done|]. destruct (Z.eqb_spec i id) as [->|].
  - intros [= ->]. left.
  - intros ?. right. auto.
Qed.

Lemma getFile_nodup id fs f : NoDup fs.*1 → (id, f) ∈ fs → getFile id fs = Some f.
Proof.
  induction fs as [|[i g] fs IH]; cbn; [by intros _ ?%not_elem_of_nil|]. intros [Hi Hn]%NoDup_cons [[= -> ->]|He]%elem_of_cons.
  - by rewrite Z.eqb_refl.
  - destruct (Z.eqb_spec i id) as [->|]; [|auto]. destruct Hi. apply list_elem_of_fmap. by exists (id, f).
Qed.

Lemma getFile_ids id fs : is_Some (getFile id fs) ↔ id ∈ fs.*1.
Proof.
  induction fs as [|[i g] fs IH]; cbn; [split; [by intros [? ?]|by intros ?%not_elem_of_nil]|].
  rewrite elem_of_cons. destruct (Z.eqb_spec i id) as [->|]; [naive_solver|]. rewrite IH. naive_solver.
Qed.

Lemma getFile_app id fs x g : getFile id (fs ++ [(x, g)]) = match getFile id fs with Some f => Some f | None => if x =? id then Some g else None end.
Proof. induction fs as [|[i h] fs IH]; cbn; [done|]. by destruct (i =? id). Qed.

Lemma updateFile_ids id g fs : (updateFile id g fs).*1 = fs.*1.
Proof. induction fs as [|[i h] fs IH]; cbn; [done|]. destruct (i =? id); cbn; [done|]. by rewrite IH. Qed.

Lemma updateFile_length id g fs : length (updateFile id g fs) = length fs.
Proof. rewrite <-(length_fmap fst), updateFile_ids. apply length_fmap. Qed.

Lemma getFile_update id j g fs : getFile j (updateFile id g fs) = if id =? j then g <$> getFile j fs else getFile j fs.
Proof.
  induction fs as [|[i h] fs IH]; cbn; [by destruct (id =? j)|].
  destruct (Z.eqb_spec i id) as [->|Hi]; cbn; [by destruct (id =? j)|]. rewrite IH.
  destruct (Z.eqb_spec i j) as [->|]; [|done]. by destruct (Z.eqb_spec id j).
Qed.

Lemma updateFile_Forall (P : Z * ReceiveState → Prop) id g fs f :
  NoDup fs.*1 → getFile id fs = Some f → Forall P fs → P (id, g f) → Forall P (updateFile id g fs).
Proof.
  intros Hn Hg Hall Hp. revert Hn Hg. induction Hall as [|[i h] fs Hx Hall IH]; cbn; [done|]. intros [Hi Hn]%NoDup_cons.
  destruct (Z.eqb_spec i id) as [->|]; [intros [= ->]; by constructor|]. intros Hg. constructor; auto.
Qed.

(** ** Preservation *)

Lemma fileInv_mono ex ex' b b' sent sent' dg dg' id f :
  (∀ e, ex !! id = Some e → ex' !! id = Some e) → (b = true → b' = true) → (∀ x, x ∈ sent → x ∈ sent') → (∀ x, x ∈ dg → x ∈ dg') →
  fileInv ex b sent dg id f → fileInv ex' b' sent' dg' id f.
Proof.
  intros Hex Hb Hs Hd [(e & He & ?) ? ? Hdone]. split; [eauto|done|done|]. intros Hf. destruct (Hdone Hf) as [? ? ? (i & Hi & Hp) (x & Hx)].
  split; [done|done|auto|exists i; split; [auto|]; destruct Hp; auto|exists x; auto].
Qed.

(** Replacing the state of a file. *)
Lemma Core_update id g fs f ex b c st sent dg :
  Core fs ex b c st sent dg → getFile id fs = Some f → fileInv (expectedFiles ex) b sent dg id (g f) → (rs_done f = true → rs_done (g f) = true) →
  Core (updateFile id g fs) ex b c st sent dg.
Proof.
  intros [Hi Hf Hm Ha He Hs Hc Hsent Hok] Hg Hinv Hd. split; try done.
  - by rewrite updateFile_ids.
  - by eapply updateFile_Forall.
  - by rewrite updateFile_length.
  - intros Hct. destruct (Hc Hct) as [? Hall]. split; [done|]. eapply updateFile_Forall; [done..|]. cbn. apply Hd.
    rewrite Forall_forall in Hall. apply (Hall (id, f)). by apply getFile_elem.
  - intros j x Hx. destruct (Hok j x Hx) as (h & Hj & Hh). rewrite getFile_update. destruct (Z.eqb_spec id j) as [->|]; [|eauto].
    rewrite Hj. cbn. exists (g h). split; [done|]. rewrite Hg in Hj. injection Hj as ->. auto.
Qed.

Lemma Core_get id fs f ex b c st sent dg :
  Core fs ex b c st sent dg → getFile id fs = Some f → fileInv (expectedFiles ex) b sent dg id f.
Proof. intros HC Hg. pose proof (core_files _ _ _ _ _ _ _ HC) as Hall. rewrite Forall_forall in Hall. apply (Hall (id, f)). by apply getFile_elem. Qed.

(** A file is done in the moment in which its [file-ok] is sent. *)
Lemma Core_done id fs f ex st sent dg x :
  Core fs ex false false st sent dg → getFile id fs = Some f → verifiedFile false (sent ++ [(FileOk id, x)]) dg id (set_phase true true f) →
  Core (updateFile id (set_phase true true) fs) ex false false st (sent ++ [(FileOk id, x)]) dg.
Proof.
  intros HC Hg Hv. pose proof (Core_get id _ _ _ _ _ _ _ _ HC Hg) as [? ? ? _]. destruct HC as [Hi Hf Hm Ha He Hs Hc Hsent Hok]. split; try done.
  - by rewrite updateFile_ids.
  - eapply updateFile_Forall; [done..| |by constructor]. eapply Forall_impl; [exact Hf|]. intros y Hy.
    eapply fileInv_mono; [done..| |done|exact Hy]. intros z Hz. apply elem_of_app. by left.
  - by rewrite updateFile_length.
  - destruct Hsent as (pre & post & -> & Hp & ->). exists (pre ++ [(FileOk id, x)]), []. rewrite !app_nil_r. split; [done|].
    split; [|done]. apply Forall_app. split; [done|]. by constructor.
  - intros j y Hy. rewrite getFile_update. destruct (Z.eqb_spec id j) as [->|Hj]; [rewrite Hg; cbn; eauto|].
    apply elem_of_app in Hy as [Hy|[= ->]%list_elem_of_singleton]; [eauto|done].
Qed.

Lemma Core_digest fs ex b c st sent dg d : Core fs ex b c st sent dg → Core fs ex b c st sent (dg ++ [d]).
Proof.
  intros [Hi Hf Hm Ha He Hs Hc Hsent Hok]. split; try done. eapply Forall_impl; [exact Hf|]. intros y Hy.
  eapply fileInv_mono; [done..| |exact Hy]. intros z Hz. apply elem_of_app. by left.
Qed.

(** What others leave of a file. *)
Lemma sameFiles_get b fs fs' id f :
  Forall2 (sameFile b) fs fs' → getFile id fs = Some f → ∃ g, getFile id fs' = Some g ∧ (g = f ∨ b = true ∧ g = set_published None f).
Proof.
  induction 1 as [|[i x] [j y] fs fs' [Hi Hx] _ IH]; cbn in *; [done|]. subst j. destruct (i =? id); [|done]. intros [= ->]. eauto.
Qed.

Lemma sameFiles_ids b fs fs' : Forall2 (sameFile b) fs fs' → fs'.*1 = fs.*1.
Proof. induction 1 as [|x y fs fs' [Hi _] _ IH]; cbn; [done|]. by rewrite Hi, IH. Qed.

(** Everything expected has been begun. *)
Lemma all_begun (fs : list (Z * ReceiveState)) (m : gmap Z FileManifestEntry) id :
  NoDup fs.*1 → (∀ x, x ∈ fs → is_Some (m !! x.1)) → length fs = size m → is_Some (m !! id) → is_Some (getFile id fs).
Proof.
  intros Hn Hin Hl Hid. apply getFile_ids. assert (list_to_set fs.*1 = dom m) as E.
  { apply set_eq_subseteq. assert (list_to_set fs.*1 ⊆ dom m) as Hsub.
    { intros i Hi%elem_of_list_to_set. apply list_elem_of_fmap in Hi as ([j f] & -> & He). by apply elem_of_dom, Hin. }
    split; [done|]. apply set_subseteq_size_eq in Hsub as E; [by rewrite E|]. rewrite size_dom, size_list_to_set by done.
    rewrite length_fmap. lia. }
  apply (elem_of_list_to_set (C := gset Z)). rewrite E. by apply elem_of_dom.
Qed.

End Inv.
