(* ===== verification/ReceiverSteps.v ===== *)
(** * ReceiverSteps: every task of the receiver keeps its invariant.

    One lemma per function of Receiver, as a weakest precondition: [wpB] for
    what runs in the background, [wpF] for the handlers of the queue. *)
From S2P Require Import Prelude.
From S2P Require Import Constants.
From S2P Require Import JsText.
From S2P Require Import JsValue.
From S2P Require Import Base64.
From S2P Require Import Protocol.
From S2P Require Import Messages.
From S2P Require Import Bytes.
From S2P Require Import Chunks.
From S2P Require Import Crypto.
From S2P Require Import TransferControl.
From S2P Require Import FileStat.
From S2P Require Import Async.
From S2P Require Import ReceiverState.
From S2P Require Import Receiver.
From S2P Require Import ReceiverInv.
#[local] Open Scope Z_scope.

#[local] Existing Instance guarB_preorder.

Section Steps.
Context `{Crypto, JsCase, Platform, Reception}.

Abbreviation guarB := (guarB relyF relyB).
Abbreviation wpB t Q E s := (twp answers Inv relyB guarB t Q E s).
Abbreviation wpF t Q E s := (twp answers Inv relyF relyB t Q E s).

(** The postcondition of a task whose outcome does not matter. *)
Definition ends {A} (P : Receiver → Prop) : A → Receiver → Prop := λ _ s, P s.

(** What runs in the background may run in a handler. *)
Lemma wpB_wpF {A} (t : T A) Q E s : wpB t Q E s → wpF t Q E s.
Proof. apply twp_weaken; [by intros ?? [] |by intros ?? [? ?]]. Qed.

(** ** Guarantees of the writes *)

Lemma guarB_intro (s s' : Receiver) :
  relyB s s' → completed (status s') = completed (status s) → expectation s' = expectation s → digests s' = digests s →
  running (queue s') = running (queue s) → files s' = files s → guarB s s'.
Proof.
  intros Hb ? ? ? ? Hf. split; [|done]. constructor; try done. rewrite Hf. apply sameFiles_refl.
Qed.

Ltac guar := first [apply guarB_intro; [constructor| | | | |]|constructor]; solve [done|cbn; try done; intros; congruence].

Lemma guarB_status (f : Status → Status) s :
  (failed (status s) = true → failed (f (status s)) = true) → completed (f (status s)) = completed (status s) →
  (settled (status s) ≠ Pending → settled (f (status s)) = settled (status s)) → guarB s (set_status f s).
Proof. intros Hf Hc Hs. apply guarB_intro; try done. constructor; [done|by cbn; rewrite Hc|done]. Qed.

Lemma settle_guar v s : guarB s (set_status (settle v) s).
Proof. apply guarB_status; [done..|]. cbn. by destruct (settled (status s)). Qed.

(** Closing, detaching and the timer do not matter to the invariant. *)
Lemma detachChannels_wp s (Q : () → Receiver → Prop) E : Inv s →
  (∀ s', Inv s' → status s' = status s → files s' = files s → queue s' = queue s → Q () s') → wpB detachChannels Q E s.
Proof. intros Hi HQ. apply twp_modify; [guar|]. by apply HQ. Qed.

(** [control.send] *)
Lemma channelSend_wp m x s Q E :
  (∀ c, sent c = sent (channels s) ++ [(m, x)] → Q () (set_channels (λ _, c) s)) →
  (∀ e c, sent c = sent (channels s) → E e (set_channels (λ _, c) s)) →
  wpB (channelSend m x) Q E s.
Proof.
  intros HQ HE. unfold channelSend. twp_step. apply twp_get; [reflexivity|]. cbv beta zeta.
  twp_step. apply twp_modify; [guar|]. twp_step.
  - apply twp_modify; [guar|]. apply HQ. done.
  - apply twp_throw. by apply HE.
Qed.

Lemma Inv_sends c s : Inv s → sent c = sent (channels s) → Inv (set_channels (λ _, c) s).
Proof. intros [HC HQ] E. split; [|done]. unfold coreOf. cbn. by rewrite E. Qed.

(** ** Failing *)

Lemma sentOk_abort b sent x m : sentOk b false sent → b = true → isAbort (m, x) → sentOk b false (sent ++ [(m, x)]).
Proof.
  intros (pre & post & -> & Hp & Hq) -> Ha. exists pre, (post ++ [(m, x)]). split; [by rewrite app_assoc|]. split; [done|].
  apply Forall_app. split; [done|]. by constructor.
Qed.

Lemma sentOk_fail sent : sentOk false false sent → sentOk true false sent.
Proof. intros (pre & post & -> & Hp & ->). exists pre, []. split; [done|]. split; [done|constructor]. Qed.

Lemma Core_fail fs ex sent dg st :
  Core fs ex false false st sent dg → Core fs ex true false st sent dg.
Proof.
  intros [Hi Hf Hm Ha He Hs Hc Hsent Hok]. split; try done.
  - eapply Forall_impl; [exact Hf|]. intros x Hx. by eapply fileInv_mono; [..|exact Hx].
  - by destruct st.
  - by apply sentOk_fail.
Qed.

Lemma Core_sent fs ex b c st sent dg x :
  Core fs ex b c st sent dg → sentOk b c (sent ++ [x]) →
  match x.1 with FileOk id => ∃ f, getFile id fs = Some f ∧ rs_done f = true | _ => True end →
  Core fs ex b c st (sent ++ [x]) dg.
Proof.
  intros [Hi Hf Hm Ha He Hs Hc Hsent Hok] Ho Hx. split; try done.
  - eapply Forall_impl; [exact Hf|]. intros y Hy. eapply fileInv_mono; [done..| |done|exact Hy]. intros z Hz. apply elem_of_app. by left.
  - intros id y [?|Hy%list_elem_of_singleton]%elem_of_app; [eauto|]. subst x. exact Hx.
Qed.

Lemma failTransfer_wp e s : Almost s → wpB (failTransfer e) (ends Inv) (ends Inv) s.
Proof.
  intros HI. unfold failTransfer. twp_step. apply twp_get; [reflexivity|]. cbv beta. twp_step.
  { destruct HI as (HC & HQ & Ha). split; [done|]. split; [done|]. intros Hn. apply Ha. by rewrite Hn in Heqb. }
  apply orb_false_iff in Heqb as [Hf Hc]. twp_step. apply twp_modify; [apply guarB_status; [done..|by cbn]|].
  twp_step. apply twp_modify; [apply guarB_status; done|]. twp_step. apply twp_modify; [guar|].
  assert (Inv (set_channels (λ c, {| attached := false; opened := opened c; sends := sends c; sent := sent c |})
    (set_status (set_idleTimer false) (set_status set_failed s)))) as HI'.
  { destruct HI as (HC & HQ & _). split; [|by split; [exact HQ|]]. unfold coreOf in *. cbn. rewrite Hc. rewrite Hf, Hc in HC. by apply Core_fail. }
  revert HI'. set (s0 := set_channels _ _). intros HI0. assert (failed (status s0) = true) as Hf0 by done. clearbody s0. clear HI Hf Hc s.
  (* after the attempt to tell the peer *)
  assert (∀ s, Inv s → failed (status s) = true →
    wpB (closeChannels;; modify (set_status (settle (Rejected e)))) (ends Inv) (ends Inv) s) as Hend.
  { intros s HI Hf. twp_step. apply twp_modify; [guar|]. apply twp_modify; [apply settle_guar|]. destruct HI as [HC HQ].
    split; [|exact HQ]. unfold coreOf. cbn. destruct HC as [Hi Hfs Hm Ha He Hs Hc Hsent Hok]. split; try done. by destruct (settled (status s)). }
  twp_step. twp_step. unfold sendControl. twp_step. apply twp_await; [done|]. intros s1 r HI1 [Hf1 _ _] _.
  specialize (Hf1 Hf0). destruct r as [x|e']; [|by apply Hend]. twp_step. apply twp_when; [done|]. intros _.
  apply channelSend_wp.
  - intros c Hc. apply Hend; [|done]. destruct HI1 as [HC HQ]. split; [|exact HQ]. unfold coreOf in *. cbn. rewrite Hc. pose proof (core_exclusive _ _ _ _ _ _ _ HC Hf1) as Hn.
    apply Core_sent; [done| |done]. rewrite Hn. apply sentOk_abort; [|done..]. rewrite <-Hn. apply HC.
  - intros e' c Hc. apply Hend; [|done]. by apply Inv_sends.
Qed.

(** ** In a handler *)

Definition Busy (n : Z) (s : Receiver) : Prop := Inv s ∧ running (queue s) = Some n.

(** A file as a handler left it, and a file that is not done. *)
Definition Has (id : Z) (f : ReceiveState) (s : Receiver) : Prop :=
  ∃ g, getFile id (files s) = Some g ∧ (g = f ∨ failed (status s) = true ∧ g = set_published None f).
Definition NotDone (n id : Z) (s : Receiver) : Prop := Busy n s ∧ ∃ g, getFile id (files s) = Some g ∧ rs_done g = false.

Lemma Busy_rely n s s' : Busy n s → Inv s' → relyF s s' → Busy n s'.
Proof. intros [_ Hr] HI [? ? ? ? Hr' ?]. split; [done|]. by rewrite Hr'. Qed.

Lemma Has_rely id f s s' : Has id f s → relyF s s' → Has id f s'.
Proof.
  intros (g & Hg & Hf) [Hb _ _ _ _ Hfs]. destruct (sameFiles_get _ _ _ _ _ Hfs Hg) as (h & Hh & Hs). exists h. split; [done|].
  destruct Hf as [->|[Hf ->]]; [done|]. right. split; [by apply Hb|]. by destruct Hs as [->|[_ ->]].
Qed.

Lemma Has_get id f s : getFile id (files s) = Some f → Has id f s.
Proof. exists f. auto. Qed.

Lemma Has_not_failed id f s : Has id f s → failed (status s) = false → getFile id (files s) = Some f.
Proof. intros (g & Hg & [->|[Hf _]]) Hn; congruence. Qed.

Lemma Has_NotDone n id f s : Busy n s → Has id f s → rs_done f = false → NotDone n id s.
Proof. intros HB (g & Hg & Hf) Hd. split; [done|]. exists g. split; [done|]. by destruct Hf as [->|[_ ->]]. Qed.

Lemma NotDone_rely n id s s' : NotDone n id s → Inv s' → relyF s s' → NotDone n id s'.
Proof.
  intros [HB (g & Hg & Hd)] HI Hr. eapply (Has_NotDone n id g); [by eapply Busy_rely| |done]. eapply Has_rely; [|done]. by apply Has_get.
Qed.

Lemma awaitF {B} (o : op B) n Q E s :
  Busy n s → (∀ s' r, Busy n s' → relyF s s' → answers _ o s' r → match r with Ok b => Q b s' | Err e => E e s' end) → wpF (await o) Q E s.
Proof. intros HB HQ. apply twp_await; [apply HB|]. intros s' r HI Hr Ha. apply HQ; [by eapply Busy_rely|done..]. Qed.

Lemma failF e n s : Almost s → running (queue s) = Some n → wpF (failTransfer e) (ends (Busy n)) (ends (Busy n)) s.
Proof.
  intros HA Hrun. pose proof (failTransfer_wp e s HA) as Ht.
  eapply (twp_weaken _ _ relyF guarB); [done|by intros ?? [_ ?]|]. eapply (twp_weaken _ _ _ _ relyF guarB) in Ht; [|by intros ?? []|done].
  eapply (twp_frame _ _ _ _ relyF) in Ht; [|apply _|done|by intros ?? [? _]|reflexivity].
  eapply twp_mono; [exact Ht|..]; intros x s' [HI Hr]; (split; [done|]); by rewrite (rf_running _ _ Hr).
Qed.

Lemma stopF Q (E : jsstr → Receiver → Prop) s :
  (failed (status s) = false → completed (status s) = false → Q () s) → (∀ e, E e s) → wpF throwIfReceiveStopped Q E s.
Proof.
  intros HQ HE. unfold throwIfReceiveStopped. twp_step. apply twp_get; [reflexivity|]. apply twp_lift.
  destruct (failed (status s)) eqn:Ef; cbn; [apply HE|]. destruct (completed (status s)) eqn:Ec; cbn; [apply HE|]. by apply HQ.
Qed.

Lemma writeF f Q E s : Q () (set_files f s) → wpF (modify (set_files f)) Q E s.
Proof. intros HQ. apply twp_modify; [by constructor|done]. Qed.

Lemma fileStateF id f Q (E : jsstr → Receiver → Prop) s : getFile id (files s) = Some f → Q f s → wpF (fileState id) Q E s.
Proof. intros Hg HQ. unfold fileState. twp_step. apply twp_get; [reflexivity|]. cbv beta. by rewrite Hg. Qed.

Lemma channelSendF m x s Q E :
  (∀ c, sent c = sent (channels s) ++ [(m, x)] → Q () (set_channels (λ _, c) s)) →
  (∀ e c, sent c = sent (channels s) → E e (set_channels (λ _, c) s)) →
  wpF (channelSend m x) Q E s.
Proof. intros. apply wpB_wpF, channelSend_wp; done. Qed.

(** Replacing a file that is not done. *)
Lemma Busy_update n id f g s :
  Busy n s → getFile id (files s) = Some f → rs_done f = false →
  fileInv (expectedFiles (expectation s)) (failed (status s)) (sent (channels s)) (digests s) id (g f) →
  Busy n (set_files (updateFile id g) s).
Proof. intros [[HC HQ] Hr] Hg Hd Hi. split; [|done]. split; [|done]. eapply Core_update; [done..|]. by rewrite Hd. Qed.

Lemma Busy_file n id f s :
  Busy n s → getFile id (files s) = Some f → fileInv (expectedFiles (expectation s)) (failed (status s)) (sent (channels s)) (digests s) id f.
Proof. intros [[HC _] _] Hg. by eapply Core_get. Qed.

(** Writes that do not concern the content of a file that is not done. *)
Lemma NotDone_write n id g s :
  NotDone n id s → (∀ f, rs_done f = false → rs_done (g f) = false ∧ rs_size (g f) = rs_size f ∧ rs_bytes (g f) = rs_bytes f ∧ rs_hash (g f) = rs_hash f) →
  NotDone n id (set_files (updateFile id g) s).
Proof.
  intros [HB (f & Hg & Hd)] Hw. destruct (Hw f Hd) as (Ed & Es & Eb & Eh). split.
  - eapply Busy_update; [done..|]. destruct (Busy_file _ _ _ _ HB Hg) as [? ? ? ?]. split; rewrite ?Es, ?Eb, ?Eh; [done..|congruence].
  - exists (g f). cbn. by rewrite getFile_update, Z.eqb_refl, Hg.
Qed.

Lemma removePublishedF n id s :
  NotDone n id s → wpF (removePublishedFile id) (ends (NotDone n id)) (ends (NotDone n id)) s.
Proof.
  intros HN. pose proof HN as [HB (f & Hg & Hd)]. unfold removePublishedFile. twp_step. eapply fileStateF; [done|]. cbv beta. twp_step; [|exact HN].
  twp_step. apply (awaitF _ n); [done|]. intros s' [[]|e] HB' Hr _; [|by eapply NotDone_rely; [|apply HB'|]].
  apply writeF. apply NotDone_write; [by eapply NotDone_rely; [|apply HB'|]|]. done.
Qed.

Lemma cleanupPublishedF n id s Q E :
  NotDone n id s → (∀ s', NotDone n id s' → Q () s') → wpF (cleanupPublishedAfterFailure id) Q E s.
Proof.
  intros HN HQ. unfold cleanupPublishedAfterFailure. twp_step. eapply twp_mono; [by apply (removePublishedF n)|..]; cbv beta.
  - intros a s' Hs. destruct a. by apply HQ.
  - intros e s' Hs. by apply HQ.
Qed.

Lemma stopAfterPublishF n id Q E s :
  NotDone n id s → (failed (status s) = false → completed (status s) = false → Q () s) → (∀ e s', NotDone n id s' → E e s') →
  wpF (stopAfterPublish id) Q E s.
Proof.
  intros HN HQ HE. unfold stopAfterPublish. twp_step. apply stopF; [done|]. intros e. twp_step.
  apply (cleanupPublishedF n); [done|]. intros s' Hs. apply twp_throw. by apply HE.
Qed.

Lemma digestF n path i size Q E s :
  Busy n s →
  (∀ s' hex, Busy n s' → relyF s s' → Busy n (set_digest path i size hex s') → Q hex (set_digest path i size hex s')) →
  (∀ e s', Busy n s' → relyF s s' → E e s') → wpF (digestFilePath path i size) Q E s.
Proof.
  intros HB HQ HE. unfold digestFilePath. twp_step. apply (awaitF _ n); [done|]. intros s' [hex|e] HB' Hr _; [|by apply HE].
  twp_step. apply twp_modify; [by constructor|]. twp_step. apply HQ; [done..|]. destruct HB' as [[HC HQ'] Hrun]. split; [|done]. split; [|done].
  by apply Core_digest.
Qed.

End Steps.
