(* ===== verification/ReceiverHandlers.v ===== *)
(** * ReceiverHandlers: the handlers of the receive queue and the clean-up
    keep the invariant, so it holds at the event loop. *)
From S2P Require Import Prelude.
From S2P Require Import Constants.
From S2P Require Import JsText.
From S2P Require Import JsValue.
From S2P Require Import Base64.
From S2P Require Import Protocol.
From S2P Require Import Messages.
From S2P Require Import Limits.
From S2P Require Import Bytes.
From S2P Require Import Chunks.
From S2P Require Import Crypto.
From S2P Require Import TransferControl.
From S2P Require Import FileStat.
From S2P Require Import Async.
From S2P Require Import ReceiverState.
From S2P Require Import Receiver.
From S2P Require Import ReceiverInv.
From S2P Require Import ReceiverSteps.
#[local] Open Scope Z_scope.

#[local] Existing Instance guarB_preorder.

Section Handlers.
Context `{Crypto, JsCase, Platform, Reception}.

Abbreviation guarB := (guarB relyF relyB).
Abbreviation wpB t Q E s := (twp answers Inv relyB guarB t Q E s).
Abbreviation wpF t Q E s := (twp answers Inv relyF relyB t Q E s).

(** ** Publishing a file *)

(** The end of [finalizeBody]: the file is published and everything agrees. *)
Lemma publishedF n id f i h x s :
  Busy n s → Has id f s → rs_done f = false → rs_size f <= rs_bytes f → rs_expectedSha256 f = Some h → digestHex (rs_hash f) = h →
  rs_publishedIdentity f = Some i → (rs_partPath f, None, rs_size f, h) ∈ digests s → (rs_finalPath f, Some i, rs_size f, h) ∈ digests s →
  wpF (stopAfterPublish id;; channelSend (FileOk id) x;; writeFile id (set_phase true true)) (ends (Busy n)) (ends (NotDone n id)) s.
Proof.
  intros HB HH Hd Hb He Hh Hi Hd1 Hd2. twp_step. apply (stopAfterPublishF n); [by eapply Has_NotDone| |done].
  intros Hf Hc. apply Has_not_failed in HH; [|done]. twp_step. apply channelSendF.
  - intros c Hs. apply writeF. destruct HB as [[HC HQ] Hr]. split; [|done]. split; [|done]. unfold coreOf in *. cbn. rewrite Hf, Hc, Hs in *.
    pose proof (Core_get _ _ _ _ _ _ _ _ _ HC HH) as [_ [? ?] ? _]. apply (Core_done id _ f); [done..|]. split; cbn.
    + lia.
    + by rewrite He, Hh.
    + by rewrite Hh.
    + exists i. rewrite Hh. auto.
    + exists x. apply elem_of_app. right. left.
  - intros e c Hs. eapply (Has_NotDone n id f); [|by apply Has_get|done]. destruct HB as [HI Hr]. split; [by apply Inv_sends|done].
Qed.

Lemma finalizeBodyF n id f s :
  Busy n s → getFile id (files s) = Some f → rs_done f = false → rs_size f <= rs_bytes f → is_Some (rs_expectedSha256 f) →
  wpF (finalizeBody id) (ends (Busy n)) (ends (NotDone n id)) s.
Proof.
  intros HB Hg Hd Hb [h Eh]. unfold finalizeBody. twp_step. eapply fileStateF; [done|]. twp_step. apply (awaitF _ n); [done|].
  intros s1 r HB1 Hr1 _. pose proof (Has_rely _ _ _ _ (Has_get _ _ _ Hg) Hr1) as HH1. pose proof (Has_NotDone n id f s1 HB1 HH1 Hd) as HN1.
  destruct r as [[]|e]; [|done]. twp_step. apply stopF; [|done]. intros Hf1 Hc1. twp_step.
  eapply fileStateF; [by apply Has_not_failed|]. rewrite Eh. destruct (decide (digestHex (rs_hash f) = h)) as [Ed|Ed];
    [rewrite bool_decide_true by congruence|rewrite bool_decide_false by congruence]; cbn [negb].
  2:{ twp_step. apply (awaitF _ n); [done|]. intros s2 r HB2 Hr2 _. destruct r; [apply twp_throw|]; (eapply NotDone_rely; [done|apply HB2|done]). }
  twp_step. apply (digestF n); [done| |]; cycle 1.
  { intros e s2 HB2 Hr2. by eapply NotDone_rely; [|apply HB2|]. }
  intros s2 onDisk _ Hr2 HB2. assert (Has id f (set_digest (rs_partPath f) None (rs_size f) onDisk s2)) as HH2 by exact (Has_rely _ _ _ _ HH1 Hr2).
  assert ((rs_partPath f, None, rs_size f, onDisk) ∈ digests (set_digest (rs_partPath f) None (rs_size f) onDisk s2)) as Hd2 by (apply elem_of_app; right; left).
  revert HB2 HH2 Hd2. generalize (set_digest (rs_partPath f) None (rs_size f) onDisk s2). clear s2 Hr2. intros s2 HB2 HH2 Hd2.
  pose proof (Has_NotDone n id f s2 HB2 HH2 Hd) as HN2. twp_step. apply stopF; [|done]. intros Hf2 Hc2.
  destruct (decide (onDisk = h)) as [->|Eo]; [rewrite bool_decide_true by done|rewrite bool_decide_false by congruence]; cbn [negb].
  2:{ twp_step. apply (awaitF _ n); [done|]. intros s3 r HB3 Hr3 _. destruct r; [apply twp_throw|]; (eapply NotDone_rely; [done|apply HB3|done]). }
  twp_step. apply (awaitF _ n); [done|]. intros s3 r HB3 Hr3 _. pose proof (Has_rely _ _ _ _ HH2 Hr3) as HH3.
  pose proof (Has_NotDone n id f s3 HB3 HH3 Hd) as HN3. destruct r as [x|e]; [|done]. twp_step. apply stopF; [|done]. intros Hf3 Hc3.
  twp_step. apply (awaitF _ n); [done|]. intros s4 r HB4 Hr4 _. pose proof (Has_rely _ _ _ _ HH3 Hr4) as HH4.
  pose proof (Has_NotDone n id f s4 HB4 HH4 Hd) as HN4. destruct r as [i|e]; [|done]. twp_step. apply writeF.
  assert (Hd4 : (rs_partPath f, None, rs_size f, h) ∈ digests s4) by (by rewrite (rf_digests _ _ Hr4), (rf_digests _ _ Hr3)).
  pose proof (NotDone_write n id (set_published (Some i)) s4 HN4 (λ _ E, conj E (conj eq_refl (conj eq_refl eq_refl)))) as HN5.
  assert (getFile id (updateFile id (set_published (Some i)) (files s4)) = Some (set_published (Some i) f)) as Hg5.
  { rewrite getFile_update, Z.eqb_refl. by destruct HH4 as (g & -> & [->|[_ ->]]). }
  revert HN5. change (getFile id (files (set_files (updateFile id (set_published (Some i))) s4)) = Some (set_published (Some i) f)) in Hg5.
  change (digests s4) with (digests (set_files (updateFile id (set_published (Some i))) s4)) in Hd4.
  revert Hg5 Hd4. generalize (set_files (updateFile id (set_published (Some i))) s4). clear s4 HB4 Hr4 HH4 HN4. intros s4 Hg4 Hd4 HN4.
  twp_step. apply (stopAfterPublishF n); [done| |done]. intros _ _. twp_step. apply (digestF n); [apply HN4| |]; cycle 1.
  { intros e s5 HB5 Hr5. by eapply NotDone_rely; [|apply HB5|]. }
  intros s5 hex _ Hr5 HB5. pose proof (Has_rely _ _ _ _ (Has_get _ _ _ Hg4) Hr5) as HH5.
  twp_step. apply (stopAfterPublishF n); [by eapply (Has_NotDone n id (set_published (Some i) f))| |done]. intros Hf5 Hc5.
  destruct (decide (hex = h)) as [->|Eo]; [rewrite bool_decide_true by done|rewrite bool_decide_false by congruence]; cbn [negb].
  2:{ twp_step. apply (cleanupPublishedF n); [by eapply (Has_NotDone n id (set_published (Some i) f))|]. intros s6 HN6. by apply twp_throw. }
  eapply (publishedF n id (set_published (Some i) f) i h x); try done.
  - apply elem_of_app. left. by rewrite (rf_digests _ _ Hr5).
  - apply elem_of_app. right. left.
Qed.

Lemma maybeFinalizeF n id f s :
  Busy n s → getFile id (files s) = Some f → wpF (maybeFinalize id) (ends (Busy n)) (ends (Busy n)) s.
Proof.
  intros HB Hg. unfold maybeFinalize. twp_step. eapply fileStateF; [done|]. cbv beta. twp_step; [exact HB|].
  apply orb_false_iff in Heqb as [[[Hd Hf]%orb_false_iff He]%orb_false_iff Hb%Z.ltb_ge]. apply negb_false_iff, bool_decide_eq_true in He.
  twp_step. apply writeF. rewrite Hd.
  assert (NotDone n id s) as HN by (by split; [|exists f]).
  pose proof (NotDone_write n id (set_phase false true) s HN (λ _ _, conj eq_refl (conj eq_refl (conj eq_refl eq_refl)))) as [HB1 _].
  twp_step. eapply twp_mono; [eapply (finalizeBodyF n id (set_phase false true f)); try done|done|].
  - cbn. by rewrite getFile_update, Z.eqb_refl, Hg.
  - intros e s' HN'. twp_step. apply writeF. apply twp_throw. by apply NotDone_write.
Qed.

(** ** Completing *)

Lemma Core_complete fs ex st sent dg x :
  Core fs ex false false st sent dg → allDoneSeen ex = true → Forall (λ y, rs_done y.2 = true) fs →
  Core fs ex false true (match st with Pending => Resolved | Resolved => Resolved | Rejected e => Rejected e end) (sent ++ [(AllDoneOk, x)]) dg.
Proof.
  intros [Hi Hf Hm Ha He Hs Hc Hsent Hok] Hseen Hall. split; try done.
  - eapply Forall_impl; [exact Hf|]. intros y Hy. eapply fileInv_mono; [done..| |done|exact Hy]. intros z Hz. apply elem_of_app. by left.
  - by destruct st.
  - destruct Hsent as (pre & post & -> & Hp & ->). exists pre, [(AllDoneOk, x)]. rewrite app_nil_r. split_and!; [done|done|by exists x].
  - intros id y [Hy|Hy%list_elem_of_singleton]%elem_of_app; [eauto|done].
Qed.

Lemma sameFiles_done b fs fs' :
  Forall2 (sameFile b) fs fs' → Forall (λ x, rs_done x.2 = true) fs → Forall (λ x, rs_done x.2 = true) fs'.
Proof.
  induction 1 as [|x y fs fs' [_ Hx] _ IH]; [done|]. intros [Hd Hall]%Forall_cons. constructor; [|auto].
  by destruct Hx as [->|[_ ->]].
Qed.

Lemma maybeResolveDoneF n s : Busy n s → wpF maybeResolveDone (ends (Busy n)) (ends (Busy n)) s.
Proof.
  intros HB. unfold maybeResolveDone. twp_step. apply twp_get; [reflexivity|]. cbv beta. twp_step; [exact HB|]. twp_step; [exact HB|].
  apply negb_false_iff in Heqb, Heqb0. assert (Forall (λ x, rs_done x.2 = true) (files s)) as Hall.
  { apply Forall_forall. intros [id f] Hx. rewrite forallb_forall in Heqb0. by apply (Heqb0 (id, f)), list_elem_of_In. }
  twp_step. apply twp_modify; [by constructor|]. twp_step. unfold sendControl. twp_step. apply (awaitF _ n); [exact HB|].
  intros s1 r HB1 Hr1 _. destruct r as [x|e]; [|done]. twp_step. twp_step; [|done]. apply stopF; [|done]. intros Hf Hc.
  apply channelSendF; [|intros e c Hs; destruct HB1 as [HI Hrun]; split; [by apply Inv_sends|done]].
  intros c Hs. twp_step. apply twp_modify; [by constructor|]. apply twp_modify; [by constructor; [..|intros Hp; cbn; destruct (settled _)]|].
  destruct HB1 as [(HC & HQ & Ha) Hrun]. split; [|done]. split; [|by split; [exact HQ|]]. unfold coreOf in *. cbn. rewrite Hs. rewrite Hf, Hc in *.
  replace (match settled (status s1) with Pending => Resolved | v' => v' end) with (match settled (status s1) with Pending => Resolved | Resolved => Resolved | Rejected e => Rejected e end)
    by (by destruct (settled (status s1))).
  apply Core_complete; [done| |].
  - by rewrite (rf_expectation _ _ Hr1).
  - eapply sameFiles_done; [apply Hr1|done].
Qed.

(** ** Control messages *)

(** [Ready] messages *)
Lemma sendReadyF n m s :
  Busy n s → (∃ id o p, m = Ready id o p) → wpF (sendControl m true) (ends (Busy n)) (ends (Busy n)) s.
Proof.
  intros HB (id & o & p & ->). unfold sendControl. twp_step. apply (awaitF _ n); [exact HB|]. intros s1 r HB1 Hr1 _. destruct r as [x|e]; [|done].
  twp_step. twp_step; [|done]. apply stopF; [|done]. intros Hf Hc. destruct HB1 as [(HC & HQ & Ha) Hrun].
  apply channelSendF; [intros c Hs|intros e c Hs]; (split; [|done]); [|by apply Inv_sends].
  split; [|by split]. unfold coreOf in *. cbn. rewrite Hf, Hc in *. rewrite Hs. apply Core_sent; [done| |done].
  destruct (core_sent _ _ _ _ _ _ _ HC) as (pre & post & -> & Hp & ->). exists (pre ++ [(Ready id o p, x)]), []. rewrite !app_nil_r.
  split; [done|]. split; [|done]. apply Forall_app. split; [done|]. by constructor.
Qed.

(** The error postcondition of [dispatchControl]. *)
Definition AlmostBusy (n : Z) (s : Receiver) : Prop := Almost s ∧ running (queue s) = Some n.

Lemma Busy_Almost n s : Busy n s → AlmostBusy n s.
Proof. intros [HI Hr]. split; [by apply Inv_Almost|done]. Qed.

Lemma weakenF {A} n (t : T A) s : wpF t (ends (Busy n)) (ends (Busy n)) s → wpF t (ends (Busy n)) (ends (AlmostBusy n)) s.
Proof. intros Ht. eapply twp_mono; [exact Ht|done|]. intros e s' HB. by apply Busy_Almost. Qed.

Lemma no_files fs ex b c st sent dg : Core fs ex b c st sent dg → manifest ex = None → fs = [].
Proof.
  intros HC Hm. pose proof (core_manifest _ _ _ _ _ _ _ HC) as Hex. rewrite Hm in Hex. pose proof (core_files _ _ _ _ _ _ _ HC) as Hf.
  destruct fs as [|x fs]; [done|]. apply Forall_cons in Hf as [[(e & He & _) _ _ _] _]. by rewrite Hex, lookup_empty in He.
Qed.

Lemma manifestF n entries total s :
  Busy n s → transferOk entries total → completed (status s) = false →
  wpF (handleManifest entries total) (ends (Busy n)) (ends (AlmostBusy n)) s.
Proof.
  intros HB Hok Hc. unfold handleManifest. twp_step. apply twp_get; [reflexivity|]. cbv beta. twp_step; [by apply Busy_Almost|].
  apply bool_decide_eq_false in Heqb. apply eq_None_not_Some in Heqb. destruct HB as [(HC & HQ & Ha) Hr].
  pose proof (no_files _ _ _ _ _ _ _ HC Heqb) as Hfs. twp_step. apply twp_modify; [by constructor|].
  set (s1 := set_expectation _ _). assert (AlmostBusy n s1) as HA1.
  { split; [|done]. split; [|split; [exact HQ|intros Hn; cbn in Hn; congruence]]. unfold coreOf in *. cbn. rewrite Hfs, Hc in *.
    destruct HC as [Hi Hf Hm Hall He Hs Hcc Hsent Hfo]. rewrite Heqb in *. split; cbn; try done; [by rewrite Hm|].
    intros [? ?]%Hall. by destruct (is_Some_None (A := list FileManifestEntry * Z)). }
  twp_step. twp_step. destruct (assertManifestWithinLimits _) as [[]|e]; [|exact HA1].
  twp_step. twp_step. destruct (match acceptedManifest with Some _ => _ | None => _ end) as [[]|e] eqn:Em; [|exact HA1].
  apply twp_modify; [by constructor|]. destruct HA1 as [(HC1 & HQ1 & _) Hr1]. split; [|done]. split; [|split; [exact HQ1|]].
  - unfold coreOf in *. cbn. cbn in HC1. destruct HC1. split; done.
  - intros _. unfold accepted. cbn. by destruct acceptedManifest.
Qed.

(** A new file. *)
Lemma Core_add fs ex b st sent dg id f :
  Core fs ex b false st sent dg → getFile id fs = None → fileInv (expectedFiles ex) b sent dg id f →
  Core (fs ++ [(id, f)]) ex b false st sent dg.
Proof.
  intros HC Hg Hfi. pose proof HC as [Hi Hf Hm Ha He Hs Hc Hsent Hok]. split; try done.
  - rewrite fmap_app. apply NoDup_app. split; [done|]. split; [|apply NoDup_singleton]. cbn. intros x Hx ->%list_elem_of_singleton.
    apply getFile_ids in Hx as [? Hx]. congruence.
  - apply Forall_app. split; [done|]. by constructor.
  - intros Hseen. destruct (Ha Hseen) as [? Hl]. exfalso. apply (is_Some_None (A := ReceiveState)). rewrite <-Hg.
    apply (all_begun fs (expectedFiles ex)); [done| |done|].
    + intros x Hx. rewrite Forall_forall in Hf. destruct (Hf x Hx) as [(e & Hex & _) _ _ _]. by exists e.
    + destruct Hfi as [(e & Hex & _) _ _ _]. by exists e.
  - intros j x Hx. destruct (Hok j x Hx) as (g & Hj & Hd). exists g. by rewrite getFile_app, Hj.
Qed.

Lemma newReceiveState_inv ex b sent dg id e size r :
  ex !! id = Some e → fe_size e = size → 0 <= ro_resumeBytes r <= size → byteLength (default [] (ro_resumeHash r)) = ro_resumeBytes r →
  fileInv ex b sent dg id (newReceiveState size r).
Proof. intros He Hs Hr Hh. split; [by exists e|exact Hr|exact Hh|discriminate]. Qed.

Lemma fileBeginF n id name size s :
  Busy n s → completed (status s) = false → wpF (handleFileBegin id name size) (ends (Busy n)) (ends (Busy n)) s.
Proof.
  intros HB Hc. unfold handleFileBegin. twp_step. apply twp_get; [reflexivity|]. cbv beta. twp_step; [exact HB|]. twp_step; [|exact HB].
  twp_step; [exact HB|]. twp_step; [exact HB|]. apply bool_decide_eq_false in Heqb0. apply eq_None_not_Some in Heqb0.
  apply negb_false_iff, andb_true_iff in Heqb1 as [_ Hsize%Z.eqb_eq]. twp_step. twp_step. destruct (assertFileWithinLimits _ _); [|exact HB].
  twp_step. apply (awaitF _ n); [exact HB|]. intros s1 [r|e] HB1 Hr1 Hans; [|exact HB1]. cbn in Hans. destruct (Hans r eq_refl) as (Hres & _ & Hhash).
  twp_step. apply writeF. apply (sendReadyF n); [|destruct (0 <? _); by eauto]. destruct HB1 as [(HC1 & HQ1 & Ha1) Hrun1]. split; [|done]. split; [|done]. unfold coreOf in *. cbn.
  assert (getFile id (files s1) = None) as Hg1.
  { apply eq_None_not_Some. intros Hs%getFile_ids. rewrite (sameFiles_ids _ _ _ (rf_files _ _ Hr1)) in Hs. apply getFile_ids in Hs.
    rewrite Heqb0 in Hs. by destruct (is_Some_None (A := ReceiveState)). }
  rewrite (rf_completed _ _ Hr1), Hc in *. apply Core_add; [done..|].
  eapply newReceiveState_inv; [by rewrite (rf_expectation _ _ Hr1)|done..].
Qed.

(** The content of a file that is not done is replaced. *)
Lemma contentF n id f st hash bytes seq s :
  Busy n s → getFile id (files s) = Some f → rs_done f = false → 0 <= bytes <= rs_size f → byteLength hash = bytes →
  Busy n (set_files (updateFile id (set_content st hash bytes seq)) s).
Proof.
  intros HB Hg Hd Hb Hh. destruct (Busy_file _ _ _ _ HB Hg) as [? ? ? ?]. eapply Busy_update; [done..|]. split; cbn; [done|done|done|congruence].
Qed.

Lemma restartF n id f s :
  Busy n s → getFile id (files s) = Some f → rs_done f = false → wpF (restartReceiveState id) (ends (Busy n)) (ends (Busy n)) s.
Proof.
  intros HB Hg Hd. assert (NotDone n id s) as HN by (by split; [|exists f]). unfold restartReceiveState. twp_step. eapply fileStateF; [done|].
  twp_step. apply (awaitF _ n); [done|]. intros s1 [[]|e] HB1 Hr1 _; [|exact HB1]. pose proof (NotDone_rely _ _ _ _ HN (proj1 HB1) Hr1) as HN1.
  twp_step. apply (awaitF _ n); [done|]. intros s2 [h|e] HB2 Hr2 _; [|exact HB2]. pose proof (NotDone_rely _ _ _ _ HN1 (proj1 HB2) Hr2) as HN2.
  twp_step. assert (∀ e s', Busy n s' → wpF (tcatch (await (CloseHandle h)) (λ _, Ret ());; (Throw e : T ())) (ends (Busy n)) (ends (Busy n)) s') as Hclose.
  { intros e s' HB'. twp_step. twp_step. apply (awaitF _ n); [done|]. intros s3 [[]|e'] HB3 _ _; exact HB3. }
  twp_step. apply (awaitF _ n); [done|]. intros s3 [st|e] HB3 Hr3 _; [|by apply Hclose]. pose proof (NotDone_rely _ _ _ _ HN2 (proj1 HB3) Hr3) as HN3.
  twp_step. twp_step. destruct (isFile st && _) eqn:Eid; [|by apply Hclose]. twp_step. twp_step. destruct (assertSingleLink _ _); [|by apply Hclose].
  twp_step. twp_step. destruct (assertPrivatePartialStat _); [|by apply Hclose]. twp_step. apply (awaitF _ n); [done|].
  intros s4 [[]|e] HB4 Hr4 _; [|by apply Hclose]. destruct (NotDone_rely _ _ _ _ HN3 (proj1 HB4) Hr4) as [_ (g & Hg4 & Hd4)].
  apply writeF. eapply contentF; [done..| |done]. destruct (Busy_file _ _ _ _ HB4 Hg4) as [_ ? _ _]. lia.
Qed.

Lemma fileEndF n id h s : Busy n s → wpF (handleFileEnd id h) (ends (Busy n)) (ends (Busy n)) s.
Proof.
  intros HB. unfold handleFileEnd. twp_step. apply twp_get; [reflexivity|]. cbv beta. twp_step; [|exact HB]. twp_step; [exact HB|].
  apply bool_decide_eq_false in Heqb. destruct (Busy_file _ _ _ _ HB Heqo) as [? ? ? Hdone].
  assert (rs_done r = false) as Hd. { destruct (rs_done r) eqn:Ed; [|done]. destruct (Hdone eq_refl) as [_ E _ _ _]. rewrite E in Heqb. by destruct Heqb. }
  twp_step. apply writeF. assert (NotDone n id s) as HN by (by split; [|exists r]).
  pose proof (NotDone_write n id (set_expectedSha256 h) s HN (λ _ E, conj E (conj eq_refl (conj eq_refl eq_refl)))) as [HB1 (g & Hg & _)].
  twp_step. eapply twp_mono; [by eapply maybeFinalizeF|..]; cbv beta.
  - intros a s2 HB2. by apply maybeResolveDoneF.
  - done.
Qed.

Lemma allDoneF n s : Busy n s → completed (status s) = false → wpF handleAllDone (ends (Busy n)) (ends (Busy n)) s.
Proof.
  intros HB Hc. unfold handleAllDone. twp_step. apply twp_get; [reflexivity|]. cbv beta. twp_step; [exact HB|]. twp_step; [exact HB|]. twp_step; [exact HB|].
  apply negb_false_iff, bool_decide_eq_true in Heqb, Heqb1. twp_step. apply twp_modify; [by constructor|]. apply maybeResolveDoneF.
  destruct HB as [(HC & HQ & Ha) Hrun]. split; [|done]. split; [|done]. unfold coreOf in *. cbn. rewrite Hc in *.
  destruct HC as [Hi Hf Hm Hall He Hs Hcc Hsent Hfo]. split; done.
Qed.

Lemma dispatchF n m s :
  Busy n s → controlMessageOk m → completed (status s) = false → wpF (dispatchControl m) (ends (Busy n)) (ends (AlmostBusy n)) s.
Proof.
  intros HB Hm Hc. destruct m as [entries total|id name size|id o p|id|id h|id| | |reason]; cbn [dispatchControl].
  - by apply manifestF.
  - apply weakenF. by apply fileBeginF.
  - by apply Busy_Almost.
  - apply weakenF. unfold handleRestart. twp_step. apply twp_get; [reflexivity|]. cbv beta. twp_step; [|exact HB]. twp_step; [exact HB|].
    apply orb_false_iff in Heqb as [Hd _]. twp_step. eapply twp_mono; [by eapply restartF|..]; cbv beta; [|done].
    intros a s2 HB2. apply sendReadyF; [exact HB2|by eauto].
  - apply weakenF. by apply fileEndF.
  - by apply Busy_Almost.
  - apply weakenF. by apply allDoneF.
  - by apply Busy_Almost.
  - by apply Busy_Almost.
Qed.

Lemma resetF n s Q E : Busy n s → (∀ s', Busy n s' → files s' = files s → Q () s') → wpF resetReceiveTimeout Q E s.
Proof. intros [HI Hr] HQ. apply twp_modify; [by constructor|]. by apply HQ. Qed.

Lemma handleControlF n data s : Busy n s → wpF (handleControlMessage data) (ends (Busy n)) (ends (Busy n)) s.
Proof.
  intros HB. unfold handleControlMessage. twp_step. apply twp_get; [reflexivity|]. cbv beta. twp_step; [exact HB|].
  twp_step. apply (resetF n); [exact HB|]. clear HB. intros s1 HB1 _. twp_step.
  assert (∀ e s', AlmostBusy n s' → wpF (failTransfer e) (ends (Busy n)) (ends (Busy n)) s') as Hfail by (intros e s' [? ?]; by apply failF).
  apply (twp_mono _ _ _ _ _ (ends (Busy n)) _ (ends (AlmostBusy n))); [|done|intros e s' Hs'; by apply Hfail]. twp_step. apply (awaitF _ n); [exact HB1|].
  intros s2 [v|e] HB2 Hr2 _; [|by apply Busy_Almost]. twp_step. twp_step. destruct (assertControlMessage v) as [m|e] eqn:Em; [|by apply Busy_Almost].
  twp_step. apply stopF; [|intros e; by apply Busy_Almost]. intros _ Hc2. apply dispatchF; [done| |done]. by eapply assertControlMessage_sound.
Qed.

(** ** Chunks *)

Lemma receivePayloadF n id f payload s :
  Busy n s → getFile id (files s) = Some f → rs_done f = false → wpF (receivePayload id payload) (ends (Busy n)) (ends (Busy n)) s.
Proof.
  intros HB Hg Hd. unfold receivePayload. twp_step. apply stopF; [|done]. intros _ _. twp_step. eapply fileStateF; [done|].
  twp_step. twp_step. destruct (byteLength payload =? 0); [done|]. twp_step. twp_step. destruct (Z.ltb_spec (rs_size f) (rs_bytes f + byteLength payload)) as [|Hl]; [done|].
  destruct (Busy_file _ _ _ _ HB Hg) as [_ Hb Hh _]. twp_step. apply writeF. twp_step. apply twp_modify; [by constructor|].
  set (s1 := set_transferredBytes _ _). assert (Busy n s1) as HB1.
  { apply (contentF n id f (rs_stream f) (rs_hash f ++ payload) (rs_bytes f + byteLength payload) (rs_expectedSeq f + 1)); [done..| |]; unfold byteLength in *.
    - lia.
    - rewrite length_app. lia. }
  assert (∃ g, getFile id (files s1) = Some g) as [g Hg1] by (cbn; rewrite getFile_update, Z.eqb_refl, Hg; by eexists). clearbody s1.
  twp_step. apply (awaitF _ n); [exact HB1|]. intros s2 [[]|e] HB2 Hr2 _; [|exact HB2]. destruct (Has_rely _ _ _ _ (Has_get _ _ _ Hg1) Hr2) as (g' & Hg2 & _).
  twp_step. eapply twp_mono; [by eapply maybeFinalizeF|..]; cbv beta; [|done]. intros a s3 HB3. by apply maybeResolveDoneF.
Qed.

Lemma handleBulkF n data s : Busy n s → wpF (handleBulkMessage data) (ends (Busy n)) (ends (Busy n)) s.
Proof.
  intros HB. unfold handleBulkMessage. twp_step. apply twp_get; [reflexivity|]. cbv beta. twp_step; [exact HB|].
  twp_step. apply (resetF n); [exact HB|]. clear HB. intros s1 HB1 _. twp_step.
  assert (∀ e s', Busy n s' → wpF (failTransfer e) (ends (Busy n)) (ends (Busy n)) s') as Hfail by (intros e s' [? ?]%Busy_Almost; by apply failF).
  apply (twp_mono _ _ _ _ _ (ends (Busy n)) _ (ends (Busy n))); [|done|intros e s' Hs'; by apply Hfail]. twp_step. twp_step. destruct (toBytes data) as [bytes|]; [|exact HB1].
  twp_step. twp_step. destruct (decodeChunk _) as [frame|]; [|exact HB1]. twp_step. apply twp_get; [reflexivity|]. cbv beta.
  twp_step; [|exact HB1]. twp_step; [exact HB1|]. twp_step; [exact HB1|]. apply orb_false_iff in Heqb0 as [Hd _].
  twp_step. apply (awaitF _ n); [exact HB1|]. intros s2 [p|e] HB2 Hr2 _; [|exact HB2].
  destruct (Has_rely _ _ _ _ (Has_get _ _ _ Heqo) Hr2) as (g & Hg & Hs). eapply receivePayloadF; [done..|]. by destruct Hs as [->|[_ ->]].
Qed.

(** ** The receive queue *)

Lemma receiveQueueByteLength_nonneg data : 0 <= receiveQueueByteLength data.
Proof.
  unfold receiveQueueByteLength, RECEIVE_QUEUE_MAX_BYTES, DATA_CHANNEL_BUFFER_HIGH, byteLength.
  destruct data as [t|[[] l|[] l|]|[n|]|]; lia.
Qed.

Lemma sum_snoc l n : foldr Z.add 0 (l ++ [n]) = n + foldr Z.add 0 l.
Proof. induction l as [|k l IH]; cbn; lia. Qed.

Lemma runTask_wp control data rest s :
  Inv s → running (queue s) = None → waiting (queue s) = (control, data) :: rest → wpF (runTask control data) (settles Inv) (settles Inv) s.
Proof.
  intros (HC & HQ & Ha) Hrun Hw. unfold runTask. twp_step. apply twp_modify; [by constructor|].
  set (n := receiveQueueByteLength data). set (s1 := set_queue _ s). assert (Busy n s1) as HB1.
  { split; [|done]. split; [exact HC|]. split; [|exact Ha]. destruct HQ as [Hb Hm Hl Hbm Hmm]. unfold queueLengths in *. rewrite Hw, Hrun in *.
    cbn in Hb, Hm, Hl. rewrite app_nil_r in *. split; cbn; rewrite ?Hw; cbn.
    - by rewrite sum_snoc.
    - rewrite Hm, length_app. cbn. lia.
    - apply Forall_cons in Hl as [? ?]. apply Forall_app. split; [done|]. by constructor.
    - done.
    - done. }
  clearbody s1. clear HC HQ Ha Hrun Hw. twp_step.
  assert (∀ s', Busy n s' → wpF (modify (set_queue (λ q, {| waiting := waiting q; running := None;
    queuedReceiveBytes := queuedReceiveBytes q - n; queuedReceiveMessages := queuedReceiveMessages q - 1 |}))) (λ _, Inv) (λ _, Inv) s') as Hend.
  { intros s' [(HC & HQ & Ha) Hrun]. apply twp_modify; [by constructor|]. split; [exact HC|]. split; [|exact Ha].
    destruct HQ as [Hb Hm Hl Hbm Hmm]. unfold queueLengths in *. rewrite Hrun in *. cbn in Hb, Hm, Hl. apply Forall_app in Hl as [Hl Hn].
    apply Forall_cons in Hn as [Hn _]. rewrite sum_snoc in Hb. rewrite length_app in Hm. cbn in Hm.
    split; unfold queueLengths; cbn; rewrite ?app_nil_r; [lia|lia|done|lia|lia]. }
  eapply twp_mono; [destruct control; [by apply (handleControlF n)|by apply (handleBulkF n)]|..]; intros a s' HB'; by apply Hend.
Qed.

(** ** The background *)

Lemma enqueue_wp control data s : Inv s → wpB (enqueueReceiveTask control data) (settles Inv) (settles Inv) s.
Proof.
  intros HI. unfold enqueueReceiveTask. twp_step. apply twp_get; [reflexivity|]. cbv beta zeta. twp_step; [exact HI|].
  twp_step; [exact (failTransfer_wp _ s (Inv_Almost s HI))|]. apply orb_false_iff in Heqb0 as [Hb%Z.ltb_ge Hm%Z.ltb_ge].
  apply twp_modify; [by apply guarB_intro; [constructor|..]|]. destruct HI as (HC & [Hqb Hqm Hl Hbm Hmm] & Ha). split; [exact HC|]. split; [|exact Ha].
  set (n := receiveQueueByteLength data) in *. assert (0 <= n) as Hn by apply receiveQueueByteLength_nonneg.
  unfold queueLengths in *. split; unfold queueLengths; cbn; rewrite ?map_app, <-?app_assoc; cbn.
  - rewrite Hqb, !foldr_app. cbn. fold n. generalize (foldr Z.add 0 (option_list (running (queue s)))). intros k. clear.
    induction (map _ _) as [|x l IH]; cbn; lia.
  - rewrite Hqm, !length_app. cbn. lia.
  - apply Forall_app in Hl as [? ?]. apply Forall_app. split; [done|]. by constructor.
  - done.
  - done.
Qed.

Definition Settling (doneError : option jsstr) (s : Receiver) : Prop :=
  Inv s ∧ match doneError with Some _ => failed (status s) = true | None => completed (status s) = true end.

Lemma Settling_rely e s s' : Settling e s → Inv s' → relyB s s' → Settling e s'.
Proof. intros [_ Hs] HI [Hf Hc _]. split; [done|]. destruct e; auto. Qed.

Lemma awaitB {B} (o : op B) e Q E s :
  Settling e s → (∀ s' r, Settling e s' → match r with Ok b => Q b s' | Err m => E m s' end) → wpB (await o) Q E s.
Proof. intros HS HQ. apply twp_await; [apply HS|]. intros s' r HI Hr Ha. apply HQ. by eapply Settling_rely. Qed.

(** Withdrawing a published file of a failed transfer. *)
Lemma withdraw_wp id e Q E s :
  Settling (Some e) s → (∀ s', Settling (Some e) s' → Q () s') → wpB (writeFile id (set_published None)) Q E s.
Proof.
  intros [(HC & HQ & Ha) Hf] HQ'. assert (Forall2 (sameFile true) (files s) (updateFile id (set_published None) (files s))) as Hsame.
  { clear. induction (files s) as [|[i f] fs IH]; cbn; [done|]. destruct (i =? id); (constructor; [split; cbn; auto|]); [apply sameFiles_refl|done]. }
  apply twp_modify.
  - split; [|by constructor]. constructor; try done. cbn. by rewrite Hf.
  - apply HQ'. split; [|done]. split; [|by split]. unfold coreOf in *. cbn. destruct (getFile id (files s)) as [f|] eqn:Hg.
    + pose proof (Core_get _ _ _ _ _ _ _ _ _ HC Hg) as [? ? ? Hdone]. eapply Core_update; [done..| |done]. split; cbn; [done..|].
      intros Hd. destruct (Hdone Hd) as [? ? ? (i & Hi & _) ?]. split; cbn; [done|done|done|by exists i; auto|done].
    + replace (updateFile id (set_published None) (files s)) with (files s); [exact HC|]. clear -Hg. induction (files s) as [|[i f] fs IH]; cbn in *; [done|].
      destruct (i =? id); [done|]. by rewrite <-IH.
Qed.

Lemma fileStateB id (Q : ReceiveState → Receiver → Prop) (E : jsstr → Receiver → Prop) s :
  (∀ f, getFile id (files s) = Some f → Q f s) → (∀ e, E e s) → wpB (fileState id) Q E s.
Proof.
  intros HQ HE. unfold fileState. twp_step. apply twp_get; [reflexivity|]. cbv beta. twp_step; [by apply HQ|apply HE].
Qed.

Lemma removePublished_wp id e s : Settling (Some e) s → wpB (removePublishedFile id) (ends (Settling (Some e))) (ends (Settling (Some e))) s.
Proof.
  intros HS. unfold removePublishedFile. twp_step. apply fileStateB; [|done]. intros f _. twp_step; [|exact HS].
  twp_step. apply (awaitB _ (Some e)); [exact HS|]. intros s' [[]|m] HS'; [|exact HS']. by apply (withdraw_wp id e).
Qed.

Lemma cleanFile_wp id e s : Settling e s → wpB (cleanFile id e) (ends (Settling e)) (ends (Settling e)) s.
Proof.
  intros HS. unfold cleanFile. twp_step. apply twp_get; [reflexivity|]. cbv beta. twp_step. apply fileStateB; [|done]. intros f Hg.
  destruct e as [e|].
  - twp_step; [by apply removePublished_wp|]. twp_step; [|exact HS]. unfold discardPartialFile. twp_step.
    eapply twp_mono; [by apply removePublished_wp|..]; cbv beta; [|done]. intros a s1 HS1. twp_step. apply fileStateB; [|done]. intros g _.
    twp_step. apply (awaitB _ (Some e)); [exact HS1|]. intros s2 [[]|m] HS2; [|exact HS2]. twp_step; [exact HS2|].
    apply (awaitB _ (Some e)); [exact HS2|]. intros s3 [[]|m] HS3; exact HS3.
  - rewrite andb_false_r, andb_false_l. cbv iota. twp_step; [|exact HS]. apply negb_true_iff in Heqb. exfalso.
    destruct HS as [(HC & _) Hc]. destruct (core_completed _ _ _ _ _ _ _ HC Hc) as [_ Hall]. rewrite Forall_forall in Hall.
    specialize (Hall (id, f) (getFile_elem _ _ _ Hg)). cbn in Hall. congruence.
Qed.

Lemma cleanFiles_wp fuel index e c s : Settling e s → wpB (cleanFiles fuel index e c) (ends (Settling e)) (ends (Settling e)) s.
Proof.
  revert index c s. induction fuel as [|fuel IH]; intros index c s HS; cbn [cleanFiles]; [exact HS|].
  twp_step. apply twp_get; [reflexivity|]. cbv beta. twp_step; [|exact HS]. twp_step. twp_step. twp_step.
  eapply twp_mono; [by apply cleanFile_wp|..]; intros a s' HS'; by apply IH.
Qed.

Lemma finish_wp s : Inv s → settled (status s) ≠ Pending → wpB finishReceive (settles Inv) (settles Inv) s.
Proof.
  intros HI Hs. unfold finishReceive. twp_step. apply twp_get; [reflexivity|]. cbv beta zeta.
  set (e := match settled (status s) with Rejected e => Some e | _ => None end).
  assert (Settling e s) as HS.
  { split; [done|]. destruct HI as (HC & _). pose proof (core_settled _ _ _ _ _ _ _ HC) as Hc. unfold e. by destruct (settled (status s)). }
  clearbody e. clear HI Hs. twp_step. apply twp_modify; [by apply guarB_status|]. twp_step. apply twp_modify; [by apply guarB_status|].
  twp_step. apply twp_modify; [by apply guarB_intro; [constructor|..]|].
  twp_step. eapply twp_mono; [apply (cleanFiles_wp _ _ e); exact HS|..]; cbv beta; [|by intros ?? []].
  intros c s' [HI' _]. apply twp_modify; [by apply guarB_status|]. exact HI'.
Qed.

(** ** The event loop *)

Lemma initialReceiver_Inv : Inv initial.
Proof.
  split; [|split; [|done]].
  - split; cbn; try done; [by apply NoDup_nil|by exists [], []|by intros ?? ?%not_elem_of_nil].
  - split; cbn; done.
Qed.

Lemma reached_Inv c : reached c → Inv (shared c).
Proof.
  apply (system_invariant answers starts launches Inv relyF relyB).
  - intros s t HI Hst. destruct Hst as [s control data rest Hrun Hw]. by eapply runTask_wp.
  - intros s t HI Hl. pose proof (Inv_Almost s HI) as HA. destruct Hl as [s control data _|s _|s _|s _|s id f e _|s Hs _];
      [exact (enqueue_wp control data s HI)|exact (failTransfer_wp _ s HA)..|exact (finish_wp s HI Hs)].
  - apply initialReceiver_Inv.
Qed.

End Handlers.
