(* ===== verification/ReceiverProps.v ===== *)
(** * ReceiverProps: what [receiveFiles] guarantees.

    The theorems hold in every state that the receiver can reach, whatever the
    peer sends, whatever the file system answers, and however handlers, events
    and the clean-up interleave. *)
From S2P Require Import Prelude.
From S2P Require Import Constants.
From S2P Require Import JsText.
From S2P Require Import JsValue.
From S2P Require Import Base64.
From S2P Require Import Protocol.
From S2P Require Import Messages.
From S2P Require Import Limits.
From S2P Require Import Bytes.
From S2P Require Import Crypto.
From S2P Require Import TransferControl.
From S2P Require Import FileStat.
From S2P Require Import Async.
From S2P Require Import ReceiverState.
From S2P Require Import Receiver.
From S2P Require Import ReceiverInv.
From S2P Require Import ReceiverHandlers.
#[local] Open Scope Z_scope.

Section Props.
Context `{Crypto, JsCase, Platform, Reception}.

(** ** The expected files are the entries of the manifest *)

Lemma expectFiles_snoc entries e m :
  expectFiles (entries ++ [e]) m = match fe_id e with Some id => <[id := e]> (expectFiles entries m) | None => expectFiles entries m end.
Proof. unfold expectFiles. by rewrite foldl_app. Qed.

Lemma expectFiles_entry entries id e : expectFiles entries ∅ !! id = Some e → e ∈ entries ∧ fe_id e = Some id.
Proof.
  induction entries as [|x entries IH] using rev_ind; [cbn; intros He; by rewrite lookup_empty in He|]. rewrite expectFiles_snoc, elem_of_app, list_elem_of_singleton.
  destruct (fe_id x) as [i|] eqn:Ei; [|naive_solver]. destruct (decide (i = id)) as [->|Hi].
  - rewrite lookup_insert_eq. intros [= ->]. auto.
  - rewrite lookup_insert_ne by done. naive_solver.
Qed.

Lemma expectFiles_lookup entries i e :
  (∀ i e, entries !! i = Some e → fe_id e = Some (Z.of_nat i)) → entries !! i = Some e → expectFiles entries ∅ !! Z.of_nat i = Some e.
Proof.
  induction entries as [|x entries IH] using rev_ind; [done|]. intros Hids Hi. rewrite expectFiles_snoc.
  assert (fe_id x = Some (Z.of_nat (length entries))) as ->. { apply Hids. by rewrite lookup_app_r, Nat.sub_diag by lia. }
  apply lookup_app_Some in Hi as [Hi|[Hl Hi]].
  - pose proof (lookup_lt_Some _ _ _ Hi). rewrite lookup_insert_ne by lia. apply IH; [|done]. intros j y Hj. apply Hids.
    by apply lookup_app_l_Some.
  - apply list_lookup_singleton_Some in Hi as [Hi ->]. replace i with (length entries) by lia. apply lookup_insert_eq.
Qed.

Lemma expectFiles_size entries : (size (expectFiles entries ∅) <= length entries)%nat.
Proof.
  induction entries as [|x entries IH] using rev_ind; [done|]. rewrite expectFiles_snoc, length_app. cbn. destruct (fe_id x) as [i|]; [|lia].
  rewrite map_size_insert. destruct (expectFiles entries ∅ !! i); cbn; lia.
Qed.

(** ** Theorems *)

(** C8. A file is acknowledged only when it has arrived intact.  Whenever the receiver has sent [file-ok] for a
    file, the file is an entry of the manifest, exactly as many bytes were received as the manifest says, and the SHA-256
    of what was received, of the partial on disk and of the published file are the one the sender announced. *)
Theorem received_files_verified c id x :
  reached c → (FileOk id, x) ∈ sent (channels (shared c)) →
  ∃ entries total e f i,
    manifest (expectation (shared c)) = Some (entries, total) ∧ e ∈ entries ∧ fe_id e = Some id ∧
    getFile id (files (shared c)) = Some f ∧ rs_done f = true ∧
    byteLength (rs_hash f) = fe_size e ∧ rs_expectedSha256 f = Some (digestHex (rs_hash f)) ∧
    (rs_partPath f, None, fe_size e, digestHex (rs_hash f)) ∈ digests (shared c) ∧
    (rs_finalPath f, Some i, fe_size e, digestHex (rs_hash f)) ∈ digests (shared c).
Proof.
  intros ([Hids Hf Hm _ _ _ _ _ Hok] & _)%reached_Inv Hx. destruct (Hok id x Hx) as (f & Hg & Hd).
  rewrite Forall_forall in Hf. destruct (Hf (id, f) (getFile_elem _ _ _ Hg)) as [(e & He & Hs) _ Hh Hv]. cbn [fst snd] in *.
  destruct (Hv Hd) as [Hb Hsha Hdisk (i & Hp & _) _]. destruct (manifest (expectation (shared c))) as [[entries total]|].
  - destruct Hm as [_ Hm]. rewrite Hm in He. apply expectFiles_entry in He as [He Hid].
    exists entries, total, e, f, i. rewrite Hs. split_and!; try done. congruence.
  - by rewrite Hm, lookup_empty in He.
Qed.

(** C9. Success means the whole transfer.  When [receiveFiles] resolves, the manifest is valid and is the one the
    user accepted, and each of its files was received, verified as above, and is published under its final path. *)
Theorem resolved_transfer_complete c :
  reached c → settled (status (shared c)) = Resolved →
  ∃ entries total,
    manifest (expectation (shared c)) = Some (entries, total) ∧ transferOk entries total ∧
    (∀ a, acceptedManifest = Some a → a = manifestOf entries total) ∧
    ∀ i e, entries !! i = Some e → ∃ f identity x,
      getFile (Z.of_nat i) (files (shared c)) = Some f ∧ rs_publishedIdentity f = Some identity ∧
      (rs_finalPath f, Some identity, fe_size e, digestHex (rs_hash f)) ∈ digests (shared c) ∧
      rs_expectedSha256 f = Some (digestHex (rs_hash f)) ∧ byteLength (rs_hash f) = fe_size e ∧
      (FileOk (Z.of_nat i), x) ∈ sent (channels (shared c)).
Proof.
  intros (HC & _ & Ha)%reached_Inv Hs. pose proof (core_settled _ _ _ _ _ _ _ HC) as Hc. rewrite Hs in Hc.
  assert (failed (status (shared c)) = false) as Hnf.
  { destruct (failed _) eqn:Ef; [|done]. rewrite (core_exclusive _ _ _ _ _ _ _ HC Ef) in Hc. done. }
  destruct HC as [Hids Hf Hm Hall _ _ Hcc _ _]. destruct (Hcc Hc) as [Hseen Hdone]. destruct (Hall Hseen) as [[[entries total] Em] Hl].
  rewrite Em in Hm. destruct Hm as [Hok Hm]. exists entries, total. split; [done|]. split; [done|]. split.
  - intros a Ea. specialize (Ha Hnf). unfold accepted in Ha. rewrite Em, Ea in Ha. by apply matches_accepted in Ha as [_ ->].
  - intros i e Hi. destruct (transferOk_entries _ _ Hok) as (_ & _ & Hseq). pose proof (expectFiles_lookup entries i e Hseq Hi) as He.
    rewrite Forall_forall in Hf, Hdone. assert (is_Some (getFile (Z.of_nat i) (files (shared c)))) as [f Hg].
    { apply (all_begun _ (expectedFiles (expectation (shared c)))); [done| |done|by rewrite Hm, He].
      intros y Hy. destruct (Hf y Hy) as [(e' & Hy' & _) _ _ _]. by exists e'. }
    pose proof (getFile_elem _ _ _ Hg) as Hin. destruct (Hf _ Hin) as [(e' & He' & Hsz) _ Hh Hv]. cbn [fst snd] in *.
    rewrite Hm, He in He'. injection He' as <-. destruct (Hv (Hdone _ Hin)) as [Hb Hsha _ (k & Hp & [Hpub|Hff]) [x Hx]]; [|congruence].
    exists f, k, x. rewrite Hsz. split_and!; try done. congruence.
Qed.

(** C10. What the peer sees.  At any moment the receiver has sent only [ready] and [file-ok] messages, followed by
    nothing while the transfer is open, by one [all-done-ok] when it has completed, and by nothing but [abort] when it
    has failed; it never both completes and fails. *)
Theorem receiver_sends c :
  reached c →
  ∃ pre post, sent (channels (shared c)) = pre ++ post ∧ Forall isProgress pre ∧
    match completed (status (shared c)), failed (status (shared c)) with
    | false, false => post = []
    | true, false => ∃ x, post = [(AllDoneOk, x)]
    | false, true => Forall isAbort post
    | true, true => False
    end.
Proof.
  intros (HC & _)%reached_Inv. destruct (core_sent _ _ _ _ _ _ _ HC) as (pre & post & E & Hp & Hq). exists pre, post. split; [done|]. split; [done|].
  pose proof (core_exclusive _ _ _ _ _ _ _ HC) as Hx. destruct (completed _), (failed _); try done. by specialize (Hx eq_refl).
Qed.

(** C25. Memory is bounded.  The counters of the receive queue are the bytes and the number of the messages that wait
    or run, and stay within their limits; at most a hundred files are open, so the loop of the clean-up visits all. *)
Theorem receiver_bounds c :
  reached c →
  let q := queue (shared c) in
  foldr Z.add 0 (queueLengths q) = queuedReceiveBytes q ∧ queuedReceiveBytes q <= RECEIVE_QUEUE_MAX_BYTES ∧
  Z.of_nat (length (queueLengths q)) = queuedReceiveMessages q ∧ queuedReceiveMessages q <= RECEIVE_QUEUE_MAX_MESSAGES ∧
  Z.of_nat (length (files (shared c))) <= MAX_FILES_PER_SESSION.
Proof.
  intros (HC & [Hb Hm _ Hbm Hmm] & _)%reached_Inv q. split_and!; [done..|]. destruct HC as [Hids Hf Hman _ _ _ _ _ _].
  assert (length (files (shared c)) <= size (expectedFiles (expectation (shared c))))%nat as Hl.
  { rewrite <-(length_fmap fst), <-(size_dom (D := gset Z)), <-(size_list_to_set (C := gset Z)) by done. apply subseteq_size. intros id Hid.
    apply elem_of_list_to_set, list_elem_of_fmap in Hid as (y & -> & Hy). rewrite Forall_forall in Hf. destruct (Hf y Hy) as [(e & He & _) _ _ _].
    apply elem_of_dom. by exists e. }
  destruct (manifest _) as [[entries total]|].
  - destruct Hman as [Hok Hman]. destruct (transferOk_entries _ _ Hok) as ([Hc Hbd _ _ _] & _). cbn in Hc, Hbd. pose proof (expectFiles_size entries).
    rewrite Hman in Hl. lia.
  - rewrite Hman, map_size_empty in Hl. unfold MAX_FILES_PER_SESSION. lia.
Qed.

End Props.
