(* ===== verification/ReceiverRun.v ===== *)
(** * ReceiverRun: an honest transfer completes.

    With a peer that sends a manifest and then the files as [sendFiles] does,
    and operations that succeed, the receiver ends in success with every file
    received.  The run is executed, so it is also a run of the event loop, and
    a concrete one shows that the theorems of ReceiverProps are about
    something. *)
From S2P Require Import Prelude.
From S2P Require Import Constants.
From S2P Require Import JsText.
From S2P Require Import JsValue.
From S2P Require Import Json.
From S2P Require Import Base64.
From S2P Require Import Protocol.
From S2P Require Import Messages.
From S2P Require Import Limits.
From S2P Require Import Bytes.
From S2P Require Import Chunks.
From S2P Require Import Crypto.
From S2P Require Import Pake.
From S2P Require Import TransferControl.
From S2P Require Import FileStat.
From S2P Require Import Async.
From S2P Require Import ReceiverState.
From S2P Require Import Receiver.
From S2P Require Import ReceiverInv.
From S2P Require Import ReceiverHandlers.
From S2P Require Import ReceiverProps.
#[local] Open Scope Z_scope.
#[local] Ltac Zify.zify_post_hook ::= Z.to_euclidean_division_equations.

(** The chunk of a content at a sequence number, and the number of chunks. *)
Definition chunkOf (content : list Z) (seq : nat) : list Z := take (Z.to_nat CHUNK_SIZE) (drop (seq * Z.to_nat CHUNK_SIZE) content).
Definition chunkCount (content : list Z) : nat := Z.to_nat ((byteLength content + CHUNK_SIZE - 1) / CHUNK_SIZE).

(** A digest is the text that [file-end] may carry. *)
Lemma digestHex_sha256 `{Crypto} hash : isSha256Hex (digestHex hash) = true.
Proof.
  unfold digestHex, isSha256Hex. destruct (sha256_size hash) as [Hb Hl]. revert Hb Hl. generalize (sha256 hash). intros l Hb Hl.
  apply andb_true_iff. split.
  - apply Z.eqb_eq. unfold jslen, bytesToHex, byteLength in *. assert (length (concat (map (λ b, [hexDigit (b / 16); hexDigit (b mod 16)]) l)) = 2 * length l)%nat as ->; [|lia].
    clear. induction l as [|b l IH]; cbn; [done|]. rewrite IH. lia.
  - apply forallb_forall. intros c Hc%list_elem_of_In. revert Hc. unfold bytesToHex. clear Hl. induction Hb as [|b l Hb _ IH]; cbn; [by intros ?%not_elem_of_nil|].
    assert (∀ d, 0 <= d < 16 → ((97 <=? hexDigit d) && (hexDigit d <=? 102)) || isDigit (hexDigit d) = true) as Hd.
    { intros d Hd. unfold hexDigit, isDigit. case_match; lia. }
    intros [->|[->|Hc]%elem_of_cons]%elem_of_cons; [apply Hd; lia..|by apply IH].
Qed.

(** The file with this path. *)
Fixpoint fileAt (path : jsstr) (fs : list (Z * ReceiveState)) : option ReceiveState :=
  match fs with
  | [] => None
  | (_, f) :: fs => if bool_decide (rs_partPath f = path ∨ rs_finalPath f = path) then Some f else fileAt path fs
  end.

(** Paths that no other file uses. *)
Definition freshPaths (part final : jsstr) (fs : list (Z * ReceiveState)) : Prop := fileAt part fs = None ∧ fileAt final fs = None.

(** What the sender sends: the data of its control messages, and the sealed
    chunks of the contents. *)
Record Sending := { contents : nat → list Z; controlData : ControlMessage → Frame; sealedChunk : nat → nat → list Z }.

(** ** The last file of the list *)

Lemma getFile_last id fs f : getFile id fs = None → getFile id (fs ++ [(id, f)]) = Some f.
Proof. intros Hn. by rewrite getFile_app, Hn, Z.eqb_refl. Qed.

Lemma updateFile_last id g fs f : getFile id fs = None → updateFile id g (fs ++ [(id, f)]) = fs ++ [(id, g f)].
Proof.
  induction fs as [|[i h] fs IH]; cbn; [by rewrite Z.eqb_refl|]. destruct (i =? id); [done|]. intros Hn. by rewrite IH.
Qed.

Lemma fileAt_last path fs id f : fileAt path fs = None → rs_partPath f = path ∨ rs_finalPath f = path → fileAt path (fs ++ [(id, f)]) = Some f.
Proof.
  intros Hn Hp. induction fs as [|[i h] fs IH]; cbn in *; [by rewrite bool_decide_true by done|]. by destruct (bool_decide _); [|apply IH].
Qed.

Section Run.
#[local] Set Default Proof Using "All".
Context `{Crypto, JsCase, Platform, Reception}.
Context (snd : Sending) (oracle : ∀ B, op B → Receiver → result B) (entries : list FileManifestEntry) (total : Z).

(** The control messages of the sender. *)
Definition sendsControl (m : ControlMessage) : Prop :=
  m = Manifest entries total ∨ m = AllDone ∨
  ∃ k e, entries !! k = Some e ∧
    (m = FileBegin (Z.of_nat k) (fe_name e) (fe_size e) ∨ m = FileEnd (Z.of_nat k) (digestHex (contents snd k))).

Record sendingOk : Prop := {
  control_fits m : sendsControl m → receiveQueueByteLength (controlData snd m) <= RECEIVE_QUEUE_MAX_BYTES;
  sealed_bytes id seq : bytes (sealedChunk snd id seq);
  sealed_fits id seq : byteLength (sealedChunk snd id seq) <= SEALED_CHUNK_SIZE
}.

(** Everything that is awaited succeeds: what was sealed opens, files are
    reserved under new paths, and a file holds what was written to it. *)
Record honest : Prop := {
  opens_control m s : sendsControl m → oracle _ (OpenControl (controlData snd m)) s = Ok (controlValue m);
  opens_chunk id seq s : oracle _ (OpenBulk (Z.of_nat id) (Z.of_nat seq) (sealedChunk snd id seq)) s = Ok (chunkOf (contents snd id) seq);
  seals m s : ∃ x, oracle _ (SealControl m) s = Ok x;
  reserves name size s : 0 <= size → ∃ o, oracle _ (ReserveOutputFile name size) s = Ok o ∧ ro_resumeBytes o = 0 ∧ ro_resumeHash o = None ∧
    freshPaths (ro_partPath o) (ro_finalPath o) (files s);
  writes w chunk s : oracle _ (WriteChunk w chunk) s = Ok ();
  ends_stream w s : oracle _ (EndStream w) s = Ok ();
  digests_file path i size s f : fileAt path (files s) = Some f → oracle _ (DigestFilePath path i size) s = Ok (digestHex (rs_hash f));
  publishes part final i size dir s : ∃ j, oracle _ (PublishPartFile part final i size dir) s = Ok j
}.

(** Data arrives on a channel and its handler runs. *)
Definition deliver (s : Receiver) (message : bool * Frame) : Receiver :=
  let s1 := (exec oracle (enqueueReceiveTask message.1 message.2) s).2 in
  match waiting (queue s1) with
  | (control, data) :: _ => (exec oracle (runTask control data) s1).2
  | [] => s1
  end.
Definition deliverAll (messages : list (bool * Frame)) (s : Receiver) : Receiver := foldl deliver s messages.

(** The chunk frames and the control messages that [sendFiles] sends. *)
Definition chunkData (k n : nat) : Frame :=
  Binary (bin (frameOf {| fileId := Z.of_nat k; chunkSeq := Z.of_nat n; payload := sealedChunk snd k n |})).
Definition fileMessages (k : nat) (e : FileManifestEntry) : list (bool * Frame) :=
  [(true, controlData snd (FileBegin (Z.of_nat k) (fe_name e) (fe_size e)))] ++
  map (λ n, (false, chunkData k n)) (seq 0 (chunkCount (contents snd k))) ++
  [(true, controlData snd (FileEnd (Z.of_nat k) (digestHex (contents snd k))))].
Definition transferMessages : list (bool * Frame) :=
  [(true, controlData snd (Manifest entries total))] ++ concat (imap fileMessages entries) ++ [(true, controlData snd AllDone)].

Context (Hsnd : sendingOk) (Hhonest : honest) (Haccepts : ∀ n, accepts n = true).
Context (Hanswers : ∀ B o s, answers B o s (oracle B o s)).

Abbreviation hp t Q s := (twp (answeredBy oracle) (λ _, True) eq (λ _ _, True) t Q (λ _ _, False) s).

(** ** An open transfer *)

Definition idle : ReceiveQueue := {| waiting := []; running := None; queuedReceiveBytes := 0; queuedReceiveMessages := 0 |}.

Record Live (ex : Expectation) (fs : list (Z * ReceiveState)) (q : ReceiveQueue) (s : Receiver) : Prop := {
  lv_failed : failed (status s) = false;
  lv_completed : completed (status s) = false;
  lv_settled : settled (status s) = Pending;
  lv_opened : opened (channels s) = true;
  lv_attached : attached (channels s) = true;
  lv_expectation : expectation s = ex;
  lv_files : files s = fs;
  lv_queue : queue s = q
}.

Lemma hp_await {B} (o : op B) (Q : B → Receiver → Prop) s b : oracle B o s = Ok b → Q b s → hp (await o) Q s.
Proof. intros Ho HQ. apply twp_await; [done|]. intros s' r _ <- ->. by rewrite Ho. Qed.

Lemma hp_stop ex fs q Q s : Live ex fs q s → Q () s → hp throwIfReceiveStopped Q s.
Proof. intros [Hf Hc _ _ _ _ _ _] HQ. unfold throwIfReceiveStopped. twp_step. apply twp_get; [done|]. apply twp_lift. by rewrite Hf, Hc. Qed.

Lemma hp_send ex fs q m x Q s : Live ex fs q s → (∀ s', Live ex fs q s' → Q () s') → hp (channelSend m x) Q s.
Proof.
  intros [? ? ? Ho ? ? ? ?] HQ. unfold channelSend. twp_step. apply twp_get; [done|]. cbv beta zeta. twp_step. apply twp_modify; [done|].
  rewrite Ho, Haccepts. apply twp_modify; [done|]. by apply HQ.
Qed.

Lemma hp_sendControl ex fs q m Q s : Live ex fs q s → (∀ s', Live ex fs q s' → Q () s') → hp (sendControl m true) Q s.
Proof.
  intros HL HQ. unfold sendControl. twp_step. destruct (seals Hhonest m s) as [x Hx]. eapply hp_await; [exact Hx|].
  twp_step. apply (hp_stop ex fs q); [exact HL|]. by apply (hp_send ex fs q).
Qed.

Lemma hp_file ex fs q id f (Q : ReceiveState → Receiver → Prop) s : Live ex fs q s → getFile id fs = Some f → Q f s → hp (fileState id) Q s.
Proof. intros HL Hg HQ. unfold fileState. twp_step. apply twp_get; [done|]. cbv beta. rewrite (lv_files _ _ _ _ HL), Hg. exact HQ. Qed.

Lemma hp_write ex fs q id g (Q : () → Receiver → Prop) s :
  Live ex fs q s → (∀ s', Live ex (updateFile id g fs) q s' → Q () s') → hp (writeFile id g) Q s.
Proof. intros [? ? ? ? ? ? Hf ?] HQ. apply twp_modify; [done|]. apply HQ. split; try done. cbn. by rewrite Hf. Qed.

Lemma hp_catch {A} (t : T A) h Q s : hp t Q s → hp (tcatch t h) Q s.
Proof. intros Ht. apply twp_catch. by eapply twp_mono; [exact Ht|..]. Qed.

Lemma hp_reset ex fs q Q s : Live ex fs q s → (∀ s', Live ex fs q s' → Q () s') → hp resetReceiveTimeout Q s.
Proof. intros [] HQ. apply twp_modify; [done|]. by apply HQ. Qed.

(** A control message reaches its handler. *)
Lemma hp_control ex fs q m (Q : () → Receiver → Prop) s :
  Live ex fs q s → sendsControl m → controlMessageOk m → (∀ s', Live ex fs q s' → hp (dispatchControl m) Q s') → hp (handleControlMessage (controlData snd m)) Q s.
Proof.
  intros HL Hsm Hm HQ. unfold handleControlMessage. twp_step. apply twp_get; [done|]. cbv beta. rewrite (lv_failed _ _ _ _ HL), (lv_completed _ _ _ _ HL). cbn [orb].
  twp_step. apply (hp_reset ex fs q); [exact HL|]. clear HL. intros s1 HL. apply hp_catch. twp_step. eapply hp_await; [by apply opens_control|].
  twp_step. rewrite assertControlMessage_complete by done. cbn [lift]. apply twp_ret. twp_step. apply (hp_stop ex fs q); [exact HL|]. by apply HQ.
Qed.

(** ** The messages of a transfer *)

Context (Hok : transferOk entries total) (Haccepted : ∀ a, acceptedManifest = Some a → a = manifestOf entries total).
Context (Hcontents : ∀ i e, entries !! i = Some e → byteLength (contents snd i) = fe_size e).

Definition begun : Expectation := {| manifest := Some (entries, total); expectedFiles := expectFiles entries ∅; totalBytes := total; allDoneSeen := false |}.

Lemma hp_manifest q s :
  Live (expectation initial) [] q s → hp (dispatchControl (Manifest entries total)) (λ _ s', Live begun [] q s') s.
Proof.
  intros [? ? ? ? ? Hex ? ?]. cbn [dispatchControl]. unfold handleManifest. twp_step. apply twp_get; [done|]. cbv beta. rewrite Hex. rewrite bool_decide_false by by intros [? ?].
  twp_step. apply twp_modify; [done|]. pose proof Hok as Hm. apply unit_bind_ok in Hm as [-> _]. twp_step. apply twp_ret. twp_step.
  assert (match acceptedManifest with Some a => assertTransferManifestMatchesAccepted a entries total | None => Ok () end = Ok ()) as ->.
  { destruct acceptedManifest as [a|] eqn:Ea; [|done]. apply matches_accepted. split; [exact Hok|]. by apply Haccepted. }
  apply twp_ret. apply twp_modify; [done|]. split; try done. cbn. by rewrite Hex.
Qed.

(** A file that was begun, with the first [n] chunks of its content. *)
Record receiving (k n : nat) (e : FileManifestEntry) (fs : list (Z * ReceiveState)) (f : ReceiveState) : Prop := {
  rc_size : rs_size f = fe_size e;
  rc_hash : rs_hash f = take (n * Z.to_nat CHUNK_SIZE) (contents snd k);
  rc_bytes : rs_bytes f = byteLength (rs_hash f);
  rc_seq : rs_expectedSeq f = Z.of_nat n;
  rc_open : rs_expectedSha256 f = None ∧ rs_done f = false ∧ rs_finalizing f = false;
  rc_paths : freshPaths (rs_partPath f) (rs_finalPath f) fs
}.

Lemma entry_bounds k e : entries !! k = Some e → Z.of_nat k < 100 ∧ 0 <= fe_size e <= 1024 * 1024 * 1024.
Proof.
  intros He. destruct (transferOk_entries _ _ Hok) as ([Hc Hb _ _ _] & _). cbn in Hc, Hb. pose proof (lookup_lt_Some _ _ _ He).
  pose proof (transferOk_file _ _ _ _ Hok He) as (_ & _ & (z & [= <-] & Hz)%isIntegerIn_spec)%assertFileWithinLimits_spec.
  unfold MAX_FILES_PER_SESSION, MAX_FILE_BYTES in *. lia.
Qed.

Lemma hp_begin k e fs q s :
  entries !! k = Some e → getFile (Z.of_nat k) fs = None → Live begun fs q s →
  hp (dispatchControl (FileBegin (Z.of_nat k) (fe_name e) (fe_size e)))
    (λ _ s', ∃ f, receiving k 0 e fs f ∧ Live begun (fs ++ [(Z.of_nat k, f)]) q s') s.
Proof.
  intros He Hg HL. destruct (transferOk_entries _ _ Hok) as (_ & _ & Hseq). cbn [dispatchControl]. unfold handleFileBegin. twp_step. apply twp_get; [done|]. cbv beta.
  rewrite (lv_expectation _ _ _ _ HL), (lv_files _ _ _ _ HL), Hg. cbn [manifest expectedFiles begun]. rewrite (expectFiles_lookup entries k e) by done.
  rewrite bool_decide_true by by eexists. rewrite bool_decide_false by by intros [? ?]. rewrite bool_decide_true by done. rewrite Z.eqb_refl. cbn [negb andb].
  twp_step. rewrite (transferOk_file entries total k e) by done. apply twp_ret.
  destruct (entry_bounds k e He) as [_ Hpos].
  destruct (reserves Hhonest (fe_name e) (fe_size e) s) as (o & Ho & Hres & Hhash & Hfresh); [lia|]. twp_step. eapply hp_await; [exact Ho|].
  twp_step. apply twp_modify; [done|]. eapply hp_sendControl; [|intros s' HL'; eexists; split; [|exact HL']].
  - destruct HL as [? ? ? ? ? ? Hf ?]. split; try done. cbn. by rewrite Hf.
  - rewrite (lv_files _ _ _ _ HL) in Hfresh. pose proof (transferOk_file _ _ _ _ Hok He) as (_ & _ & (z & [= <-] & Hz)%isIntegerIn_spec)%assertFileWithinLimits_spec.
    split; cbn [newReceiveState rs_size rs_hash rs_bytes rs_expectedSeq rs_expectedSha256 rs_done rs_finalizing rs_partPath rs_finalPath]; rewrite ?Hres, ?Hhash; try done.
    destruct (Z.eqb_spec 0 (fe_size e)) as [<-|]; done.
Qed.

Lemma chunk_frame k n e :
  entries !! k = Some e → (n < chunkCount (contents snd k))%nat →
  chunkOk {| fileId := Z.of_nat k; chunkSeq := Z.of_nat n; payload := sealedChunk snd k n |}.
Proof.
  intros He Hn. destruct (entry_bounds k e He) as [Hk Hs]. unfold chunkCount in Hn. rewrite (Hcontents k e He) in Hn. unfold CHUNK_SIZE in Hn.
  split; cbn; [lia|lia|by apply sealed_bytes|by apply sealed_fits].
Qed.

(** The next chunk. *)
Lemma hp_payload k n e fs f q s :
  entries !! k = Some e → getFile (Z.of_nat k) fs = None → receiving k n e fs f → (n < chunkCount (contents snd k))%nat →
  Live begun (fs ++ [(Z.of_nat k, f)]) q s →
  hp (receivePayload (Z.of_nat k) (chunkOf (contents snd k) n)) (λ _ s', ∃ f', receiving k (S n) e fs f' ∧ Live begun (fs ++ [(Z.of_nat k, f')]) q s') s.
Proof.
  intros He Hg [Hsize Hhash Hbytes Hseq (Hsha & Hdone & Hfin) Hpaths] Hn HL.
  set (c := contents snd k) in *. pose proof (Hcontents k e He) as Hc. fold c in Hc. unfold byteLength in Hc.
  assert (Z.of_nat n * CHUNK_SIZE < Z.of_nat (length c)) as Hlt. { unfold chunkCount, byteLength, CHUNK_SIZE in *. lia. }
  assert (rs_hash f ++ chunkOf c n = take (S n * Z.to_nat CHUNK_SIZE) c) as Happ.
  { rewrite Hhash. unfold chunkOf. rewrite take_take_drop. f_equal. lia. }
  assert (0 < byteLength (chunkOf c n) ∧ rs_bytes f + byteLength (chunkOf c n) = byteLength (take (S n * Z.to_nat CHUNK_SIZE) c)) as [Hpos Hsum].
  { rewrite Hbytes, <-Happ. unfold byteLength, chunkOf. rewrite length_app, !length_take, length_drop. unfold CHUNK_SIZE in *. lia. }
  assert (byteLength (take (S n * Z.to_nat CHUNK_SIZE) c) <= fe_size e) as Hle. { unfold byteLength. rewrite length_take. lia. }
  unfold receivePayload. twp_step. apply (hp_stop begun (fs ++ [(Z.of_nat k, f)]) q); [exact HL|]. twp_step. eapply hp_file; [exact HL|by apply getFile_last|].
  rewrite (proj2 (Z.eqb_neq _ _)) by lia. rewrite Hsize, (proj2 (Z.ltb_ge _ _)) by lia. do 2 (twp_step; apply twp_ret).
  twp_step. eapply hp_write; [exact HL|]. rewrite updateFile_last by done. clear HL. intros s1 HL. set (f' := set_content _ _ _ _ f) in *.
  twp_step. apply twp_modify; [done|]. twp_step. eapply hp_await; [by apply writes|].
  assert (Live begun (fs ++ [(Z.of_nat k, f')]) q (set_transferredBytes (λ t, t + byteLength (chunkOf c n)) s1)) as HL1 by (by destruct HL).
  clear HL. revert HL1. generalize (set_transferredBytes (λ t, t + byteLength (chunkOf c n)) s1). clear s1. intros s1 HL.
  twp_step. unfold maybeFinalize. twp_step. eapply hp_file; [exact HL|by apply getFile_last|].
  assert (rs_expectedSha256 f' = None) as -> by exact Hsha. rewrite (bool_decide_false (is_Some None)) by by intros [? ?]. rewrite orb_true_r, orb_true_l. apply twp_ret.
  unfold maybeResolveDone. twp_step. apply twp_get; [done|]. cbv beta. rewrite (lv_expectation _ _ _ _ HL). apply twp_ret.
  exists f'. split; [|exact HL]. unfold f'. split; cbn [set_content rs_size rs_hash rs_bytes rs_expectedSeq rs_expectedSha256 rs_done rs_finalizing rs_partPath rs_finalPath]; try done.
  - by rewrite Happ.
  - lia.
Qed.

Lemma hp_chunk k n e fs f q s :
  entries !! k = Some e → getFile (Z.of_nat k) fs = None → receiving k n e fs f → (n < chunkCount (contents snd k))%nat →
  Live begun (fs ++ [(Z.of_nat k, f)]) q s →
  hp (handleBulkMessage (chunkData k n)) (λ _ s', ∃ f', receiving k (S n) e fs f' ∧ Live begun (fs ++ [(Z.of_nat k, f')]) q s') s.
Proof.
  intros He Hg Hrc Hn HL. unfold handleBulkMessage. twp_step. apply twp_get; [done|]. cbv beta. rewrite (lv_failed _ _ _ _ HL), (lv_completed _ _ _ _ HL). cbn [orb].
  twp_step. apply (hp_reset begun (fs ++ [(Z.of_nat k, f)]) q); [exact HL|]. clear HL. intros s1 HL. apply hp_catch. cbn [chunkData toBytes lift].
  twp_step. apply twp_ret. twp_step. rewrite decodeChunk_frame by by eapply chunk_frame. apply twp_ret. twp_step. apply twp_get; [done|]. cbv beta.
  cbn [fileId chunkSeq payload]. rewrite (lv_files _ _ _ _ HL), getFile_last by done. destruct (rc_open _ _ _ _ _ Hrc) as (Hsha & Hdone & _).
  rewrite Hdone, Hsha, (bool_decide_false (is_Some None)) by by intros [? ?]. cbn [orb andb]. rewrite (rc_seq _ _ _ _ _ Hrc), Z.eqb_refl. cbn [negb].
  twp_step. eapply hp_await; [by apply opens_chunk|]. by eapply hp_payload.
Qed.

Lemma hp_digest ex fs q id f path i size (Q : jsstr → Receiver → Prop) s :
  Live ex (fs ++ [(id, f)]) q s → fileAt path fs = None → rs_partPath f = path ∨ rs_finalPath f = path →
  (∀ s', Live ex (fs ++ [(id, f)]) q s' → Q (digestHex (rs_hash f)) s') → hp (digestFilePath path i size) Q s.
Proof.
  intros HL Hp Hf HQ. unfold digestFilePath. twp_step. eapply hp_await.
  - apply (digests_file Hhonest). rewrite (lv_files _ _ _ _ HL). by apply fileAt_last.
  - twp_step. apply twp_modify; [done|]. apply twp_ret, HQ. by destruct HL.
Qed.

Lemma hp_stopAfter ex fs q id Q s : Live ex fs q s → Q () s → hp (stopAfterPublish id) Q s.
Proof. intros HL HQ. unfold stopAfterPublish. apply hp_catch. by apply (hp_stop ex fs q). Qed.

(** Finalising the last file: everything has the announced hash. *)
Lemma hp_finalizeBody ex fs q id f (Q : () → Receiver → Prop) s :
  getFile id fs = None → freshPaths (rs_partPath f) (rs_finalPath f) fs → rs_expectedSha256 f = Some (digestHex (rs_hash f)) →
  Live ex (fs ++ [(id, f)]) q s → (∀ f' s', rs_hash f' = rs_hash f → rs_done f' = true → Live ex (fs ++ [(id, f')]) q s' → Q () s') →
  hp (finalizeBody id) Q s.
Proof.
  intros Hg [Hpart Hfinal] Hsha HL HQ. unfold finalizeBody. twp_step. eapply hp_file; [exact HL|by apply getFile_last|].
  twp_step. eapply hp_await; [by apply ends_stream|]. twp_step. eapply hp_stop; [exact HL|]. twp_step. eapply hp_file; [exact HL|by apply getFile_last|].
  rewrite Hsha, bool_decide_true by done. cbn [negb]. twp_step. eapply hp_digest; [exact HL|done|by left|]. clear HL. intros s1 HL.
  twp_step. eapply hp_stop; [exact HL|]. rewrite bool_decide_true by done. cbn [negb]. twp_step.
  destruct (seals Hhonest (FileOk id) s1) as [x Hx]. eapply hp_await; [exact Hx|]. twp_step. eapply hp_stop; [exact HL|]. twp_step.
  destruct (publishes Hhonest (rs_partPath f) (rs_finalPath f) (rs_part f) (rs_size f) (rs_dir f) s1) as [j Hj]. eapply hp_await; [exact Hj|].
  twp_step. eapply hp_write; [exact HL|]. rewrite updateFile_last by done. clear HL. intros s2 HL. twp_step. eapply hp_stopAfter; [exact HL|].
  twp_step. eapply hp_digest; [exact HL|done|by right|]. clear HL. intros s3 HL. twp_step. eapply hp_stopAfter; [exact HL|].
  cbn [set_published rs_hash]. rewrite bool_decide_true by done. cbn [negb]. twp_step. eapply hp_stopAfter; [exact HL|]. twp_step.
  eapply hp_send; [exact HL|]. clear HL. intros s4 HL. eapply hp_write; [exact HL|]. rewrite updateFile_last by done. intros s5 HL5.
  by eapply HQ; [..|exact HL5].
Qed.

(** The end of a file: it is verified and published. *)
Lemma hp_fileEnd k e fs f q s :
  entries !! k = Some e → getFile (Z.of_nat k) fs = None → receiving k (chunkCount (contents snd k)) e fs f →
  Live begun (fs ++ [(Z.of_nat k, f)]) q s →
  hp (dispatchControl (FileEnd (Z.of_nat k) (digestHex (contents snd k))))
    (λ _ s', ∃ f', rs_hash f' = contents snd k ∧ rs_done f' = true ∧ Live begun (fs ++ [(Z.of_nat k, f')]) q s') s.
Proof.
  intros He Hg [Hsize Hhash Hbytes Hseq (Hsha & Hdone & Hfin) Hpaths] HL. pose proof (Hcontents k e He) as Hc.
  set (c := contents snd k) in *. set (h := digestHex c). assert (rs_hash f = c) as Hh.
  { rewrite Hhash. apply take_ge. unfold chunkCount, byteLength, CHUNK_SIZE in *. lia. }
  cbn [dispatchControl]. unfold handleFileEnd. twp_step. apply twp_get; [done|]. cbv beta. rewrite (lv_files _ _ _ _ HL), getFile_last by done.
  rewrite Hsha, (bool_decide_false (is_Some None)) by by intros [? ?]. twp_step. eapply hp_write; [exact HL|]. rewrite updateFile_last by done.
  clear HL. intros s1 HL. twp_step. unfold maybeFinalize. twp_step. eapply hp_file; [exact HL|by apply getFile_last|].
  cbn [set_expectedSha256 rs_done rs_finalizing rs_expectedSha256 rs_bytes rs_size]. rewrite Hdone, Hfin, bool_decide_true by by eexists.
  rewrite (proj2 (Z.ltb_ge _ _)) by (rewrite Hbytes, Hh, Hsize; lia). cbn [orb negb]. twp_step. eapply hp_write; [exact HL|].
  rewrite updateFile_last by done. clear HL. intros s2 HL. apply hp_catch.
  apply (hp_finalizeBody begun fs q _ (set_phase false true (set_expectedSha256 h f))); [done|exact Hpaths| |exact HL|].
  { cbn [set_phase set_expectedSha256 rs_expectedSha256 rs_hash]. by rewrite Hh. }
  clear HL. intros f' s3 Hf' Hd' HL. unfold maybeResolveDone. twp_step. apply twp_get; [done|]. cbv beta. rewrite (lv_expectation _ _ _ _ HL). apply twp_ret.
  exists f'. split; [|by split]. by rewrite Hf'.
Qed.

(** The end of the transfer. *)
Lemma hp_allDone fs q s :
  Live begun fs q s → length fs = size (expectFiles entries ∅) → Forall (λ x, rs_done x.2 = true) fs →
  hp (dispatchControl AllDone) (λ _ s', settled (status s') = Resolved ∧ files s' = fs ∧ queue s' = q) s.
Proof.
  intros HL Hl Hall. cbn [dispatchControl]. unfold handleAllDone. twp_step. apply twp_get; [done|]. cbv beta.
  rewrite (lv_expectation _ _ _ _ HL), (lv_files _ _ _ _ HL). cbn [manifest allDoneSeen expectedFiles begun]. rewrite bool_decide_true by by eexists.
  rewrite bool_decide_true by done. cbn [negb]. twp_step. apply twp_modify; [done|]. unfold maybeResolveDone. twp_step. apply twp_get; [done|]. cbv beta.
  cbn [allDoneSeen expectation set_expectation negb files]. rewrite (lv_files _ _ _ _ HL).
  assert (forallb (λ '(_, f), rs_done f) fs = true) as ->. { apply forallb_forall. intros [i f] Hf%list_elem_of_In. rewrite Forall_forall in Hall. by apply (Hall (i, f)). }
  cbn [negb]. twp_step. apply twp_modify; [done|]. twp_step.
  eapply (hp_sendControl {| manifest := Some (entries, total); expectedFiles := expectFiles entries ∅; totalBytes := total; allDoneSeen := true |} fs q).
  { destruct HL as [? ? ? ? ? Hex ? ?]. split; try done. cbn. by rewrite Hex. } intros s' HL'. twp_step. apply twp_modify; [done|]. apply twp_modify; [done|]. cbn.
  rewrite (lv_settled _ _ _ _ HL'). split_and!; [done|apply HL'..].
Qed.

(** ** Delivery *)

(** Between two deliveries nothing runs. *)
Definition runs (s s' : Receiver) : Prop :=
  rtc (step answers starts launches) {| shared := s; foreground := None; background := [] |} {| shared := s'; foreground := None; background := [] |}.

Lemma hp_exec {A} (t : T A) (Q : A → Receiver → Prop) s : hp t Q s → ∃ a, exec oracle t s = (Ok a, (exec oracle t s).2) ∧ Q a (exec oracle t s).2.
Proof. intros Ht%exec_twp. destruct (exec oracle t s) as [[a|e] s']; [|done]. by exists a. Qed.

#[local] Instance runs_trans : Transitive runs.
Proof. intros s1 s2 s3 H12 H23. unfold runs in *. by etransitivity. Qed.

Lemma deliver_live ex fs (R : ReceiveQueue → Receiver → Prop) (control : bool) data s :
  (∀ q (g : ReceiveQueue → ReceiveQueue) s, R q s → R (g q) (set_queue g s)) → Live ex fs idle s → receiveQueueByteLength data <= RECEIVE_QUEUE_MAX_BYTES →
  (∀ q s, Live ex fs q s → hp (if control then handleControlMessage data else handleBulkMessage data) (λ _ s', R q s') s) →
  R idle (deliver s (control, data)) ∧ runs s (deliver s (control, data)).
Proof.
  intros HR HL Hfit Hrun. unfold deliver. set (n := receiveQueueByteLength data) in *.
  set (q1 := {| waiting := [(control, data)]; running := None; queuedReceiveBytes := 0 + n; queuedReceiveMessages := 0 + 1 |}).
  assert (hp (enqueueReceiveTask control data) (λ _ s', Live ex fs q1 s') s) as (a & _ & HL1)%hp_exec.
  { unfold enqueueReceiveTask. twp_step. apply twp_get; [done|]. cbv beta zeta. destruct HL as [Hf Hc ? ? ? ? ? Hq]. rewrite Hf, Hc, Hq. cbn [orb idle queuedReceiveBytes queuedReceiveMessages].
    fold n. rewrite (proj2 (Z.ltb_ge _ _)) by lia. rewrite (proj2 (Z.ltb_ge _ (0 + 1))) by (unfold RECEIVE_QUEUE_MAX_MESSAGES; lia). cbn [orb].
    apply twp_modify; [done|]. split; try done. cbn. by rewrite Hq. }
  assert (runs s (exec oracle (enqueueReceiveTask control data) s).2) as Hrun1 by (apply exec_launch; [exact Hanswers|by apply on_message, HL]).
  cbn [fst Datatypes.snd]. rewrite (lv_queue _ _ _ _ HL1). cbn [waiting q1]. revert HL1 Hrun1. generalize (exec oracle (enqueueReceiveTask control data) s).2. clear HL a. intros s1 HL Hrun1.
  set (q2 := {| waiting := []; running := Some n; queuedReceiveBytes := 0 + n; queuedReceiveMessages := 0 + 1 |}).
  assert (runs s1 (exec oracle (runTask control data) s1).2) as Hrun2.
  { apply exec_start; [exact Hanswers|]. by apply (start_head _ _ _ []); rewrite (lv_queue _ _ _ _ HL). }
  assert (hp (runTask control data) (λ _ s', R idle s') s1) as (a & _ & Hr)%hp_exec; [|split; [exact Hr|by etransitivity]].
  unfold runTask. twp_step. apply twp_modify; [done|]. twp_step. eapply twp_mono; [apply (Hrun q2)|..]; cbv beta; [|intros [] s' Hs'|done].
  - destruct HL as [? ? ? ? ? ? ? Hq]. split; try done. cbn. by rewrite Hq.
  - apply twp_modify; [done|]. apply (HR _ (λ q, {| waiting := waiting q; running := None;
      queuedReceiveBytes := queuedReceiveBytes q - n; queuedReceiveMessages := queuedReceiveMessages q - 1 |})) in Hs'. replace idle with ((λ q : ReceiveQueue, {| waiting := waiting q; running := None;
      queuedReceiveBytes := queuedReceiveBytes q - n; queuedReceiveMessages := queuedReceiveMessages q - 1 |}) q2); [exact Hs'|]. unfold idle, q2. cbn. f_equal; lia.
Qed.

Lemma Live_queue ex fs q g s : Live ex fs q s → Live ex fs (g q) (set_queue g s).
Proof. intros [? ? ? ? ? ? ? Hq]. split; try done. cbn. by rewrite Hq. Qed.

Lemma deliver_control ex fs m (R : ReceiveQueue → Receiver → Prop) s :
  (∀ q (g : ReceiveQueue → ReceiveQueue) s, R q s → R (g q) (set_queue g s)) → Live ex fs idle s → sendsControl m → controlMessageOk m →
  (∀ q s, Live ex fs q s → hp (dispatchControl m) (λ _ s', R q s') s) →
  R idle (deliver s (true, controlData snd m)) ∧ runs s (deliver s (true, controlData snd m)).
Proof.
  intros HR HL Hsm Hm Hd. eapply (deliver_live ex fs R); [done|exact HL|by apply control_fits|]. intros q s' HL'. eapply hp_control; [exact HL'|done|done|]. by apply Hd.
Qed.

(** The chunks of a file, from the [n]-th on. *)
Lemma deliver_chunks k e fs f n m s :
  entries !! k = Some e → getFile (Z.of_nat k) fs = None → receiving k n e fs f → (n + m = chunkCount (contents snd k))%nat →
  Live begun (fs ++ [(Z.of_nat k, f)]) idle s →
  ∃ f', receiving k (chunkCount (contents snd k)) e fs f' ∧
    Live begun (fs ++ [(Z.of_nat k, f')]) idle (deliverAll (map (λ n, (false, chunkData k n)) (seq n m)) s) ∧
    runs s (deliverAll (map (λ n, (false, chunkData k n)) (seq n m)) s).
Proof.
  intros He Hg. revert n f s. induction m as [|m IH]; intros n f s Hrc Hn HL; cbn [seq map deliverAll foldl].
  - exists f. replace (chunkCount (contents snd k)) with n by lia. split_and!; [done|done|apply rtc_refl].
  - assert ((∃ f', receiving k (S n) e fs f' ∧ Live begun (fs ++ [(Z.of_nat k, f')]) idle (deliver s (false, chunkData k n))) ∧
      runs s (deliver s (false, chunkData k n))) as [(f' & Hrc' & HL') Hrun'].
    { apply (deliver_live begun (fs ++ [(Z.of_nat k, f)]) (λ q s', ∃ f', receiving k (S n) e fs f' ∧ Live begun (fs ++ [(Z.of_nat k, f')]) q s')).
      - intros q g s' (f' & ? & ?). exists f'. split; [done|]. by apply Live_queue.
      - exact HL.
      - assert (chunkOk {| fileId := Z.of_nat k; chunkSeq := Z.of_nat n; payload := sealedChunk snd k n |}) as [_ _ _ Hsz] by (eapply chunk_frame; [done|lia]).
        cbn in Hsz. unfold chunkData, receiveQueueByteLength, frameOf, byteLength in *. rewrite !length_app. cbn [length uint8 uint32 payload].
        unfold RECEIVE_QUEUE_MAX_BYTES, DATA_CHANNEL_BUFFER_HIGH, SEALED_CHUNK_SIZE, CHUNK_SIZE, AES_GCM_TAG_BYTES in *. lia.
      - intros q s' HL'. eapply hp_chunk; [done|done|done|lia|exact HL']. }
    destruct (IH (S n) f' _ Hrc' ltac:(lia) HL') as (f'' & ? & ? & ?). exists f''. split_and!; [done..|]. by etransitivity.
Qed.

(** ** The whole transfer *)

(** The files that have been received, in order. *)
Definition received (fs : list (Z * ReceiveState)) : Prop :=
  ∀ i id f, fs !! i = Some (id, f) → id = Z.of_nat i ∧ rs_done f = true ∧ rs_hash f = contents snd i.

Lemma received_new fs : received fs → getFile (Z.of_nat (length fs)) fs = None.
Proof.
  intros Hr. apply eq_None_not_Some. intros [f Hf%getFile_elem]. apply list_elem_of_lookup in Hf as [i Hi].
  destruct (Hr _ _ _ Hi) as [E _]. pose proof (lookup_lt_Some _ _ _ Hi). lia.
Qed.

Lemma received_ids fs : received fs → NoDup fs.*1.
Proof.
  intros Hr. apply NoDup_alt. intros i j id Hi Hj. rewrite list_lookup_fmap in Hi, Hj.
  destruct (fs !! i) as [[a f]|] eqn:Ei; [|done]. destruct (fs !! j) as [[b g]|] eqn:Ej; [|done]. cbn in *.
  destruct (Hr _ _ _ Ei) as [-> _], (Hr _ _ _ Ej) as [-> _]. simplify_eq. lia.
Qed.

Lemma received_snoc fs f : received fs → rs_done f = true → rs_hash f = contents snd (length fs) → received (fs ++ [(Z.of_nat (length fs), f)]).
Proof.
  intros Hr Hd Hh i id g [Hi|[Hl Hi]]%lookup_app_Some; [by apply Hr|]. apply list_lookup_singleton_Some in Hi as [Hi [= <- <-]].
  replace i with (length fs) by lia. done.
Qed.

Lemma deliver_file e fs s :
  entries !! length fs = Some e → received fs → Live begun fs idle s →
  ∃ fs', received fs' ∧ length fs' = S (length fs) ∧ Live begun fs' idle (deliverAll (fileMessages (length fs) e) s) ∧
    runs s (deliverAll (fileMessages (length fs) e) s).
Proof.
  intros He Hr HL. set (k := length fs) in *. pose proof (received_new fs Hr) as Hg. fold k in Hg. destruct (entry_bounds k e He) as [Hk Hsz].
  unfold fileMessages, deliverAll. rewrite !foldl_app. cbn [foldl].
  edestruct (deliver_control begun fs (FileBegin (Z.of_nat k) (fe_name e) (fe_size e))
    (λ q s', ∃ f, receiving k 0 e fs f ∧ Live begun (fs ++ [(Z.of_nat k, f)]) q s')) as [(f & Hrc & HL1) Hrun1].
  { intros q g s' (f & ? & ?). exists f. split; [done|]. by apply Live_queue. }
  { exact HL. }
  { right; right. exists k, e. auto. }
  { split; [lia|]. by eapply transferOk_file. }
  { intros q s' HL'. by apply hp_begin. }
  edestruct (deliver_chunks k e fs f 0 (chunkCount (contents snd k))) as (f2 & Hrc2 & HL2 & Hrun2); [done|done|done|done|exact HL1|].
  edestruct (deliver_control begun (fs ++ [(Z.of_nat k, f2)]) (FileEnd (Z.of_nat k) (digestHex (contents snd k)))
    (λ q s', ∃ f', (rs_hash f' = contents snd k ∧ rs_done f' = true) ∧ Live begun (fs ++ [(Z.of_nat k, f')]) q s')) as [(f3 & [Hh Hd] & HL3) Hrun3].
  { intros q g s' (f' & ? & ?). exists f'. split; [done|]. by apply Live_queue. }
  { exact HL2. }
  { right; right. exists k, e. auto. }
  { split; [lia|]. apply digestHex_sha256. }
  { intros q s' HL'. eapply twp_mono; [by eapply hp_fileEnd|..]; cbv beta; [|done]. intros _ s2 (f' & ? & ? & ?). by exists f'. }
  exists (fs ++ [(Z.of_nat k, f3)]). split_and!; [by apply received_snoc|rewrite length_app; cbn; lia|exact HL3|].
  etransitivity; [exact Hrun1|]. by etransitivity.
Qed.

Lemma deliver_files l fs s :
  drop (length fs) entries = l → received fs → Live begun fs idle s →
  ∃ fs', received fs' ∧ length fs' = (length fs + length l)%nat ∧
    let s' := deliverAll (concat (imap (λ i, fileMessages (length fs + i)) l)) s in Live begun fs' idle s' ∧ runs s s'.
Proof.
  revert fs s. induction l as [|e l IH]; intros fs s Hdrop Hr HL; cbn [imap concat length].
  - exists fs. split_and!; [done|lia|done|apply rtc_refl].
  - assert (entries !! length fs = Some e) as He. { rewrite <-(Nat.add_0_r (length fs)), <-lookup_drop. by rewrite Hdrop. }
    destruct (deliver_file e fs s He Hr HL) as (fs1 & Hr1 & Hl1 & HL1 & Hrun1).
    edestruct (IH fs1) as (fs' & Hr' & Hl' & HL' & Hrun'); [|exact Hr1|exact HL1|].
    { rewrite Hl1, <-Nat.add_1_r, <-drop_drop, Hdrop. done. }
    exists fs'. split; [done|]. split; [lia|]. rewrite Nat.add_0_r. unfold deliverAll in *. rewrite foldl_app.
    replace (imap ((λ i, fileMessages (length fs + i)) ∘ S) l) with (imap (λ i, fileMessages (length fs1 + i)) l)
      by (apply imap_ext; intros i x _; unfold compose; f_equal; lia).
    split; [exact HL'|]. by etransitivity.
Qed.

Lemma expectFiles_size_eq l : (∀ i e, l !! i = Some e → fe_id e = Some (Z.of_nat i)) → size (expectFiles l ∅) = length l.
Proof.
  induction l as [|e l IH] using rev_ind; [done|]. intros Hids. rewrite expectFiles_snoc, length_app. cbn [length].
  assert (∀ i e, l !! i = Some e → fe_id e = Some (Z.of_nat i)) as Hl by (intros i x Hi; by apply Hids, lookup_app_l_Some).
  rewrite (Hids (length l) e) by by rewrite lookup_app_r, Nat.sub_diag. rewrite map_size_insert_None; [rewrite IH by done; lia|].
  apply eq_None_not_Some. intros [x [Hx Hid]%expectFiles_entry]. apply list_elem_of_lookup in Hx as [i Hi]. rewrite (Hl i x Hi) in Hid. injection Hid as Hid.
  pose proof (lookup_lt_Some _ _ _ Hi). lia.
Qed.

Lemma transfer_completes :
  let s := deliverAll (transferMessages) initial in
  runs initial s ∧ settled (status s) = Resolved ∧
  ∀ i e, entries !! i = Some e → ∃ f, getFile (Z.of_nat i) (files s) = Some f ∧ rs_done f = true ∧ rs_hash f = contents snd i.
Proof.
  unfold transferMessages, deliverAll. rewrite !foldl_app. cbn [foldl]. destruct (transferOk_entries _ _ Hok) as (_ & _ & Hseq).
  edestruct (deliver_control (expectation initial) [] (Manifest entries total) (λ q s', Live begun [] q s') initial) as [HL1 Hrun1].
  { intros q g s'. apply Live_queue. }
  { by split. }
  { by left. }
  { exact Hok. }
  { intros q s' HL. by apply hp_manifest. }
  edestruct (deliver_files entries []) as (fs & Hr & Hl & HL2 & Hrun2); [done|by intros i ??|exact HL1|]. cbn [length Nat.add] in *. unfold deliverAll in *.
  edestruct (deliver_control begun fs AllDone (λ q s', settled (status s') = Resolved ∧ files s' = fs)) as [[Hres Hfs] Hrun3].
  { by intros q g s'. }
  { exact HL2. }
  { right. by left. }
  { done. }
  { intros q s' HL. eapply twp_mono; [eapply hp_allDone; [exact HL|by rewrite expectFiles_size_eq|]|..]; cbv beta; [|by intros _ s2 (? & ? & _)|done].
    apply Forall_lookup. intros i [id f] Hi. by apply Hr in Hi as (_ & ? & _). }
  split; [etransitivity; [exact Hrun1|by etransitivity]|]. split; [exact Hres|]. intros i e He. replace (files _) with fs by (symmetry; exact Hfs).
  destruct (lookup_lt_is_Some_2 fs i) as [[id f] Hf]; [rewrite Hl; by eapply lookup_lt_Some|]. destruct (Hr _ _ _ Hf) as (-> & Hd & Hh). exists f. split; [|done].
  apply getFile_nodup; [by apply received_ids|by eapply list_elem_of_lookup_2].
Qed.

End Run.

(** An honest transfer completes.  Let the sender send a valid manifest, which is the accepted one, then for
    each file [file-begin], the sealed chunks in order and [file-end] with the hash of its content, and then [all-done];
    let sealed data open to what was sealed, the file operations succeed and the channel take what is sent.  Then the
    receiver, which this is a run of, resolves, and each file was received with exactly its content. *)
Theorem honest_transfer_completes `{Crypto, JsCase, Platform, Reception} snd oracle entries total :
  sendingOk snd entries total → honest snd oracle entries total → (∀ n, accepts n = true) →
  (∀ B (o : op B) s, answers B o s (oracle B o s)) → transferOk entries total →
  (∀ a, acceptedManifest = Some a → a = manifestOf entries total) →
  (∀ i e, entries !! i = Some e → byteLength (contents snd i) = fe_size e) →
  let s := deliverAll oracle (transferMessages snd entries total) initial in
  reached {| shared := s; foreground := None; background := [] |} ∧ settled (status s) = Resolved ∧
  ∀ i e, entries !! i = Some e → ∃ f, getFile (Z.of_nat i) (files s) = Some f ∧ rs_done f = true ∧ rs_hash f = contents snd i.
Proof. intros. by apply transfer_completes. Qed.

(** ** A concrete transfer *)

#[local] Existing Instances asciiCase plainCrypto.
#[local] Instance testPlatform : Platform := {| win32 := false; getuid := Some 1000 |}.
#[local] Instance testReception : Reception := {| resume := false; acceptedManifest := Some (manifestOf testFiles 7); accepts _ := true |}.

(** Two files of three and four bytes; the texts and chunks are sent as they are. *)
Definition testContents (k : nat) : list Z := match k with 0%nat => [1; 2; 3] | 1%nat => [4; 5; 6; 7] | _ => [] end.
Definition testText (m : ControlMessage) : jsstr :=
  match m with
  | Manifest _ _ => js "manifest" | FileBegin id _ _ => js "begin" ++ jsInt id | FileEnd id _ => js "end" ++ jsInt id | _ => js "done"
  end.
Definition testSending : Sending :=
  {| contents := testContents; controlData m := Text (testText m); sealedChunk k n := chunkOf (testContents k) n |}.

Definition testControls : list ControlMessage :=
  [Manifest testFiles 7; AllDone] ++
  concat (imap (λ k e, [FileBegin (Z.of_nat k) (fe_name e) (fe_size e); FileEnd (Z.of_nat k) (digestHex (testContents k))]) testFiles).

Fixpoint opensTo (text : jsstr) (l : list ControlMessage) : result jsval :=
  match l with
  | [] => throw "Encrypted payload decrypt failed."
  | m :: l => if bool_decide (testText m = text) then Ok (controlValue m) else opensTo text l
  end.

(** A path that is longer than every path in use. *)
Definition longerPath (c : Z) (fs : list (Z * ReceiveState)) : jsstr :=
  repeat c (S (foldr (λ x n, (length (rs_partPath x.2) + length (rs_finalPath x.2) + n)%nat) 0%nat fs)).

Definition testOracle (B : Type) (o : op B) (s : Receiver) : result B :=
  match o in op B return result B with
  | OpenControl (Text t) => opensTo t testControls
  | OpenControl _ => throw "Encrypted payload decrypt failed."
  | OpenBulk id n _ => Ok (chunkOf (testContents (Z.to_nat id)) (Z.to_nat n))
  | SealControl m => Ok (testText m)
  | ReserveOutputFile _ size =>
    if size <? 0 then throw "Resume file size is invalid."
    else Ok {| ro_finalPath := longerPath 97 (files s); ro_partPath := longerPath 98 (files s); ro_handle := 0; ro_part := {| dev := 1; ino := 2 |};
               ro_dir := {| dev := 1; ino := 1 |}; ro_resumeBytes := 0; ro_resumeHash := None |}
  | DigestFilePath path _ _ => match fileAt path (files s) with Some f => Ok (digestHex (rs_hash f)) | None => throw "ENOENT" end
  | PublishPartFile _ _ i _ _ => Ok i
  | OpenPartFile _ => Ok 0%nat
  | StatHandle _ => throw "EBADF"
  | CloseReceiveStream _ | TruncateHandle _ _ | CloseHandle _ | WriteChunk _ _ | EndStream _ | RemovePathIfIdentity _ _ => Ok ()
  end.

Lemma longerPath_fresh c fs : fileAt (longerPath c fs) fs = None.
Proof.
  unfold longerPath. set (n := foldr _ _ fs). assert (∀ m, (n <= m)%nat → fileAt (repeat c (S m)) fs = None) as Hf; [|by apply Hf].
  unfold n. clear n. induction fs as [|[i f] fs IH]; intros m Hm; cbn in *; [done|].
  rewrite bool_decide_false; [apply IH; lia|]. intros [E|E]; apply (f_equal length) in E; cbn [length repeat] in E; rewrite repeat_length in E; lia.
Qed.

Lemma test_sending : sendingOk testSending testFiles 7.
Proof.
  split.
  - intros m [->|[->|(k & e & He & [->| ->])]]; [vm_compute; discriminate..| |];
      destruct k as [|[|k]]; try done; injection He as <-; vm_compute; discriminate.
  - intros [|[|k]] n; cbn; unfold chunkOf; [apply Forall_take, Forall_drop; repeat constructor; lia..|]. rewrite drop_nil, take_nil. constructor.
  - intros k n. cbn. unfold byteLength, chunkOf. rewrite length_take, length_drop.
    assert (length (testContents k) <= 4)%nat by (destruct k as [|[|k]]; cbn; lia). unfold SEALED_CHUNK_SIZE, CHUNK_SIZE, AES_GCM_TAG_BYTES. lia.
Qed.

Lemma test_honest : honest testSending testOracle testFiles 7.
Proof.
  split; try done.
  - intros m s [->|[->|(k & e & He & [->| ->])]]; [done..| |]; destruct k as [|[|k]]; try done; by injection He as <-.
  - intros id n s. cbn. by rewrite !Nat2Z.id.
  - intros m s. by eexists.
  - intros name size s Hs. cbn. rewrite (proj2 (Z.ltb_ge _ _)) by done. eexists. split; [done|]. split; [done|]. split; [done|].
    split; apply longerPath_fresh.
  - intros path i size s f Hf. cbn. by rewrite Hf.
  - intros part final i size d s. by eexists.
Qed.

Lemma test_answers B (o : op B) s : answers B o s (testOracle B o s).
Proof.
  destruct o; try done. cbn. intros o. destruct (Z.ltb_spec size 0); [done|]. intros [= <-]. cbn. split_and!; try done. by right.
Qed.

Definition testConfig : config (op := op) (S := Receiver) :=
  {| shared := deliverAll testOracle (transferMessages testSending testFiles 7) initial; foreground := None; background := [] |}.

Lemma test_accepts n : accepts n = true.
Proof. done. Qed.

Lemma test_accepted a : acceptedManifest = Some a → a = manifestOf testFiles 7.
Proof. by intros [= <-]. Qed.

Lemma test_contents i e : testFiles !! i = Some e → byteLength (contents testSending i) = fe_size e.
Proof. destruct i as [|[|i]]; by intros [= <-]. Qed.

Lemma test_transferOk : transferOk testFiles 7.
Proof. by vm_compute. Qed.

Lemma test_reached : reached testConfig.
Proof.
  exact (proj1 (transfer_completes testSending testOracle testFiles 7 test_sending test_honest test_accepts test_answers test_transferOk
    test_accepted test_contents)).
Qed.

Lemma honest_transfer_completes_witness :
  transferOk testFiles 7 ∧
  let s := deliverAll testOracle (transferMessages testSending testFiles 7) initial in
  reached {| shared := s; foreground := None; background := [] |} ∧ settled (status s) = Resolved ∧
  ∀ i e, testFiles !! i = Some e → ∃ f, getFile (Z.of_nat i) (files s) = Some f ∧ rs_done f = true ∧ rs_hash f = contents testSending i.
Proof.
  split; [exact test_transferOk|].
  exact (honest_transfer_completes testSending testOracle testFiles 7 test_sending test_honest test_accepts test_answers test_transferOk
    test_accepted test_contents).
Defined.

Lemma received_files_verified_witness :
  reached testConfig ∧
  ∃ entries total e f i,
    manifest (expectation (shared testConfig)) = Some (entries, total) ∧ e ∈ entries ∧ fe_id e = Some 1 ∧
    getFile 1 (files (shared testConfig)) = Some f ∧ rs_done f = true ∧
    byteLength (rs_hash f) = fe_size e ∧ rs_expectedSha256 f = Some (digestHex (rs_hash f)) ∧
    (rs_partPath f, None, fe_size e, digestHex (rs_hash f)) ∈ digests (shared testConfig) ∧
    (rs_finalPath f, Some i, fe_size e, digestHex (rs_hash f)) ∈ digests (shared testConfig).
Proof.
  assert (Hin : (FileOk 1, js "done") ∈ sent (channels (shared testConfig))).
  { apply (list_elem_of_lookup_2 _ 3). vm_compute. reflexivity. }
  exact (conj test_reached (received_files_verified testConfig 1 (js "done") test_reached Hin)).
Defined.

Lemma resolved_transfer_complete_witness :
  ∃ entries total,
    manifest (expectation (shared testConfig)) = Some (entries, total) ∧ transferOk entries total ∧
    (∀ a, acceptedManifest = Some a → a = manifestOf entries total) ∧
    ∀ i e, entries !! i = Some e → ∃ f identity x,
      getFile (Z.of_nat i) (files (shared testConfig)) = Some f ∧ rs_publishedIdentity f = Some identity ∧
      (rs_finalPath f, Some identity, fe_size e, digestHex (rs_hash f)) ∈ digests (shared testConfig) ∧
      rs_expectedSha256 f = Some (digestHex (rs_hash f)) ∧ byteLength (rs_hash f) = fe_size e ∧
      (FileOk (Z.of_nat i), x) ∈ sent (channels (shared testConfig)).
Proof.
  assert (Hs : settled (status (shared testConfig)) = Resolved) by (vm_compute; reflexivity).
  exact (resolved_transfer_complete testConfig test_reached Hs).
Defined.

Lemma receiver_sends_witness :
  ∃ pre post, sent (channels (shared testConfig)) = pre ++ post ∧ Forall isProgress pre ∧
    match completed (status (shared testConfig)), failed (status (shared testConfig)) with
    | false, false => post = []
    | true, false => ∃ x, post = [(AllDoneOk, x)]
    | false, true => Forall isAbort post
    | true, true => False
    end.
Proof. exact (receiver_sends testConfig test_reached). Defined.

Lemma receiver_bounds_witness :
  queuedReceiveBytes (queue (shared testConfig)) <= RECEIVE_QUEUE_MAX_BYTES ∧ Z.of_nat (length (files (shared testConfig))) <= MAX_FILES_PER_SESSION.
Proof. destruct (receiver_bounds testConfig test_reached) as (_ & Hb & _ & _ & Hf). exact (conj Hb Hf). Defined.
