(* ===== verification/Publish.v ===== *)
(** * Publish: giving a verified partial its final name ([publishPartFile] of
    [src/cli/transfer.ts] and what it calls).

    The final name is made by a hard link, or, where the file system has none,
    by an exclusive copy; a file is removed only by its identity, through a
    quarantine name.  Every function is the [io] program of the source. *)
From S2P Require Import Prelude.
From S2P Require Import Constants.
From S2P Require Import JsText.
From S2P Require Import JsValue.
From S2P Require Import Bytes.
From S2P Require Import Crypto.
From S2P Require Import Pake.
From S2P Require Import FileStat.
From S2P Require Import FileSystem.
From S2P Require Import ReceiverState.
From S2P Require Import Receiver.
#[local] Open Scope Z_scope.

(** [process.pid] *)
Class Process := { pid : Z }.

(** ** Errors *)

(** [LINK_FALLBACK_ERROR_CODES] and [shouldFallbackToExclusiveCopy] *)
Definition LINK_FALLBACK_ERROR_CODES : list Errno := [EACCES; EINVAL; EMLINK; ENOSYS; ENOTSUP; EOPNOTSUPP; EPERM; EXDEV].
Definition shouldFallbackToExclusiveCopy (e : Failure) : bool :=
  match nodeErrorCode e with Some c => bool_decide (c ∈ LINK_FALLBACK_ERROR_CODES) | None => false end.

Definition partChanged {A} : io A := ioThrow "Partial file changed before publish.".
(** [if (!ok) throw new Error(...)] *)
Definition ioCheck (ok : bool) (message : string) : io () := ioLift (check ok message).

(** [expectedSize !== undefined && stat.size !== expectedSize], negated *)
Definition sizeExpected (s : Stats) (expectedSize : option Z) : bool := match expectedSize with Some n => st_size s =? n | None => true end.

Section Publish.
Context `{Platform, Process}.

(** ** Removing by identity *)

(** [cleanupQuarantinePath] *)
Definition quarantineName (token : list Z) : jsstr := js ".ff-delete-" ++ jsInt pid ++ js "-" ++ bytesToHex token ++ js ".tmp".
Definition cleanupQuarantinePath (filePath : jsstr) : io jsstr :=
  token ← call (RandomBytes 8);
  Return (joinPath (dirname filePath) (quarantineName token)).

Definition MAX_CLEANUP_QUARANTINE_ATTEMPTS : nat := 16.

(** The [try] block of [quarantineRemovePathIfIdentity] *)
Definition quarantineAttempt (filePath quarantinePath : jsstr) (matchesExpected : Stats → bool) : io () :=
  stat ← call (Lstat filePath);
  if negb (matchesExpected stat) then Return ()
  else
    call (Rename filePath quarantinePath);;
    quarantined ← call (Lstat quarantinePath);
    if negb (matchesExpected quarantined) then ioThrow "Cleanup target changed before removal."
    else call (RmForce quarantinePath).

Fixpoint quarantineLoop (attempts : nat) (filePath : jsstr) (matchesExpected : Stats → bool) : io () :=
  match attempts with
  | O => ioThrow "Could not reserve a cleanup quarantine path."
  | S attempts =>
    quarantinePath ← cleanupQuarantinePath filePath;
    iocatch (quarantineAttempt filePath quarantinePath matchesExpected)
      (λ e,
        match nodeErrorCode e with
        | Some ENOENT => Return ()
        | Some EEXIST => quarantineLoop attempts filePath matchesExpected
        | _ => Raise e
        end)
  end.

(** [quarantineRemovePathIfIdentity], [removePathIfIdentity] and [removePathIfPathIdentity] *)
Definition quarantineRemovePathIfIdentity : jsstr → (Stats → bool) → io () := quarantineLoop MAX_CLEANUP_QUARANTINE_ATTEMPTS.
Definition removePathIfIdentity (filePath : jsstr) (expected : FileIdentity) : io () :=
  quarantineRemovePathIfIdentity filePath (λ s, sameFileIdentity s expected).
Definition removePathIfPathIdentity (filePath : jsstr) (expected : PathIdentity) : io () :=
  quarantineRemovePathIfIdentity filePath (λ s, samePathIdentity s expected).

(** ** Checks *)

(** [fileIdentity] *)
Definition fileIdentity (filePath : jsstr) : io FileIdentity :=
  stat ← call (Lstat filePath);
  ioCheck (isFile stat) "Published path is not a file.";;
  Return (identityOf stat).

(** [assertPartFileIdentity] and [assertPublishedFileIdentity] *)
Definition assertPartFileIdentity (partPath : jsstr) (expected : FileIdentity) (expectedSize : option Z) : io () :=
  stat ← call (Lstat partPath);
  if negb (sameFileIdentity stat expected && sizeExpected stat expectedSize) then partChanged
  else ioLift (assertPrivatePartialStat stat).
Definition assertPublishedFileIdentity (finalPath : jsstr) (expected : FileIdentity) (expectedSize : option Z) : io () :=
  stat ← call (Lstat finalPath);
  ioCheck (sameFileIdentity stat expected && sizeExpected stat expectedSize) "Published path changed before verification.".

(** [assertPrivateOutputParent] *)
Definition assertPrivateOutputParent (dir : jsstr) : io () :=
  if win32 then Return ()
  else
    let parent := dirname dir in
    if bool_decide (parent = dir) then Return ()
    else
      stat ← call (Stat parent);
      ioLift (assertPrivateOutputParentStat stat).

(** [assertDirectoryIdentity]; [privateOutputDir] is the option *)
Definition assertDirectoryIdentity (dir : jsstr) (expected : FileIdentity) (privateOutputDir : bool) : io () :=
  ioWhen privateOutputDir
    (linkStat ← call (Lstat dir);
     ioCheck (negb (isSymbolicLink linkStat)) "Output directory must not be a symbolic link in private mode.");;
  stat ← call (Stat dir);
  ioCheck (isDirectory stat && sameIdentity (identityOf stat) expected) "Output directory changed before publish.";;
  ioWhen privateOutputDir
    (ioLift (assertPrivateOutputDirStat stat);;
     assertPrivateOutputParent dir).

(** ** Linking and copying *)

(** [linkPartFileExclusive] *)
Definition linkPartFileExclusive (partPath finalPath : jsstr) (expected : FileIdentity) (expectedSize : option Z) : io FileIdentity :=
  call (Link partPath finalPath);;
  finalStat ← call (Lstat finalPath);
  if negb (sameFileIdentity finalStat expected && sizeExpected finalStat expectedSize) then
    iocatch (removePathIfPathIdentity finalPath (pathIdentity finalStat)) (λ _, Return ());;
    partChanged
  else Return (identityOf finalStat).

(** [openPartFileNoFollow] *)
Definition openPartFileNoFollow (partPath : jsstr) : io nat :=
  iocatch (call (OpenNoFollow partPath false))
    (λ e, match nodeErrorCode e with Some ELOOP => partChanged | _ => Raise e end).

(** [writeAll] of the rest of the buffer *)
Fixpoint writeAllLoop (fuel : nat) (target : nat) (rest : list Z) : io () :=
  match rest with
  | [] => Return ()
  | _ =>
    match fuel with
    | O => Diverge
    | S fuel =>
      bytesWritten ← call (HandleWrite target rest);
      if bytesWritten <=? 0 then ioThrow "Could not write copied partial file."
      else writeAllLoop fuel target (drop (Z.to_nat bytesWritten) rest)
    end
  end.
Definition writeAll (target : nat) (data : list Z) : io () := writeAllLoop (length data) target data.

Definition COPY_BUFFER_BYTES : Z := 64 * 1024.

(** The loop of [copyOpenFile]; it gives [position]. *)
Fixpoint copyLoop (fuel : nat) (source target : nat) (expectedSize : option Z) (position : Z) : io Z :=
  match fuel with
  | O => Diverge
  | S fuel =>
    let readLength := match expectedSize with None => COPY_BUFFER_BYTES | Some n => Z.min COPY_BUFFER_BYTES (n - position) end in
    if readLength <=? 0 then Return position
    else
      data ← call (HandleRead source readLength position);
      if Z.of_nat (length data) =? 0 then Return position
      else
        writeAll target data;;
        copyLoop fuel source target expectedSize (position + Z.of_nat (length data))
  end.

(** [copyOpenFile]; [fuel] is for a file of unknown size, which may grow as
    fast as it is copied *)
Definition copyOpenFile (fuel : nat) (source target : nat) (expectedSize : option Z) : io () :=
  position ← copyLoop (match expectedSize with Some n => S (Z.to_nat n) | None => fuel end) source target expectedSize 0;
  match expectedSize with
  | None => Return ()
  | Some n =>
    if negb (position =? n) then partChanged
    else
      data ← call (HandleRead source 1 n);
      if negb (Z.of_nat (length data) =? 0) then partChanged else Return ()
  end.

(** [try { await handle.close() } catch {}] *)
Definition closeQuietly (h : nat) : io () := iocatch (call (HandleClose h)) (λ _, Return ()).

(** The [try] block of [copyPartFileExclusive] from the [stat] of the new
    target on *)
Definition copyInto (fuel : nat) (source target : nat) (expected : FileIdentity) (expectedSize : option Z) : io () :=
  copyOpenFile fuel source target expectedSize;;
  afterCopySourceStat ← call (HandleStat source);
  (if negb (sameFileIdentity afterCopySourceStat expected) then partChanged else Return ());;
  (if negb (sizeExpected afterCopySourceStat expectedSize) then partChanged else Return ());;
  afterCopyTargetStat ← call (HandleStat target);
  (if negb (sizeExpected afterCopyTargetStat expectedSize) then partChanged else Return ());;
  call (HandleClose target).

(** The [catch] block of [copyPartFileExclusive] when the target is open: the
    target is removed if its [stat] gave an identity.  The result is the error,
    and the target if it could not be closed. *)
Definition copyFailed (target : nat) (finalPath : jsstr) (targetStat : Stats + Failure) (e : Failure) : io ((FileIdentity + Failure) * option nat) :=
  closed ← iotry (call (HandleClose target));
  match targetStat with
  | inl s => iocatch (removePathIfIdentity finalPath (identityOf s)) (λ _, Return ())
  | inr _ => Return ()
  end;;
  Return (inr e, match closed with inl _ => None | inr _ => Some target end).

(** The [try] and [catch] blocks of [copyPartFileExclusive]: the outcome, and
    the target when it is open and not closed.  Before the target is open there
    is nothing to undo, before its [stat] only the handle. *)
Definition copyAttempt (fuel : nat) (source : nat) (finalPath : jsstr) (expected : FileIdentity) (expectedSize : option Z) : io ((FileIdentity + Failure) * option nat) :=
  opened ← iotry
    (sourceStat ← call (HandleStat source);
     (if negb (sameFileIdentity sourceStat expected) then partChanged else Return ());;
     (if negb (sizeExpected sourceStat expectedSize) then partChanged else Return ());;
     call (OpenNew finalPath));
  match opened with
  | inr e => Return (inr e, None)
  | inl target =>
    targetStat ← iotry (call (HandleStat target));
    copied ← match targetStat with
             | inl s => iotry (copyInto fuel source target expected expectedSize;; Return (identityOf s))
             | inr e => Return (inr e)
             end;
    match copied with
    | inl targetIdentity => Return (inl targetIdentity, None)
    | inr e => copyFailed target finalPath targetStat e
    end
  end.

(** [copyPartFileExclusive] with its [finally] block, whose errors replace the
    outcome *)
Definition copyPartFileExclusive (fuel : nat) (partPath finalPath : jsstr) (expected : FileIdentity) (expectedSize : option Z) : io FileIdentity :=
  source ← openPartFileNoFollow partPath;
  outcome ← copyAttempt fuel source finalPath expected expectedSize;
  call (HandleClose source);;
  match outcome.2 with Some target => closeQuietly target | None => Return () end;;
  match outcome.1 with inl identity => Return identity | inr e => Raise e end.

(** ** Publishing *)

(** The [try] block of [publishPartFile] up to the removal of the partial; the
    second part runs when [finalIdentity] is set. *)
Definition placeFinal (fuel : nat) (partPath finalPath : jsstr) (partIdentity : FileIdentity) (expectedSize : option Z)
    (expectedDirectory : option FileIdentity) (privateOutputDir : bool) : io FileIdentity :=
  match expectedDirectory with Some d => assertDirectoryIdentity (dirname finalPath) d privateOutputDir | None => Return () end;;
  assertPartFileIdentity partPath partIdentity expectedSize;;
  iocatch (linkPartFileExclusive partPath finalPath partIdentity expectedSize)
    (λ e, if shouldFallbackToExclusiveCopy e then copyPartFileExclusive fuel partPath finalPath partIdentity expectedSize else Raise e).

Definition confirmFinal (partPath finalPath : jsstr) (partIdentity finalIdentity : FileIdentity) (expectedSize : option Z)
    (expectedDirectory : option FileIdentity) (privateOutputDir : bool) : io FileIdentity :=
  match expectedDirectory with Some d => assertDirectoryIdentity (dirname finalPath) d privateOutputDir | None => Return () end;;
  assertPublishedFileIdentity finalPath finalIdentity expectedSize;;
  removePathIfIdentity partPath partIdentity;;
  Return finalIdentity.

(** [publishPartFile] *)
Definition publishPartFile (fuel : nat) (partPath finalPath : jsval) (expectedPart expectedSize expectedDirectory : option jsval) (privateOutputDir : bool) : io FileIdentity :=
  safePartPath ← ioLift (publishPathInput partPath "Partial");
  safeFinalPath ← ioLift (publishPathInput finalPath "Final");
  safeExpectedPart ← ioLift (match expectedPart with Some v => Some <$> fileIdentityInput v | None => Ok None end);
  safeExpectedSize ← ioLift (match expectedSize with Some v => Some <$> publishExpectedSizeInput v | None => Ok None end);
  safeExpectedDirectory ← ioLift (match expectedDirectory with Some v => Some <$> fileIdentityInput v | None => Ok None end);
  partIdentity ← match safeExpectedPart with Some i => Return i | None => fileIdentity safePartPath end;
  finalIdentity ← placeFinal fuel safePartPath safeFinalPath partIdentity safeExpectedSize safeExpectedDirectory privateOutputDir;
  iocatch (confirmFinal safePartPath safeFinalPath partIdentity finalIdentity safeExpectedSize safeExpectedDirectory privateOutputDir)
    (λ e,
      iocatch (removePathIfIdentity safeFinalPath finalIdentity) (λ _, Return ());;
      Raise e).

End Publish.

(** ** Verifying *)

Section Digest.
Context `{Crypto}.

Definition STREAM_CHUNK_BYTES : Z := 64 * 1024.

(** The loop over the stream of [digestFilePath]: what the hash absorbs *)
Fixpoint digestLoop (fuel : nat) (handle : nat) (expectedSize : option Z) (hash : list Z) : io (list Z) :=
  match fuel with
  | O => Diverge
  | S fuel =>
    payload ← call (HandleRead handle STREAM_CHUNK_BYTES (Z.of_nat (length hash)));
    if Z.of_nat (length payload) =? 0 then Return hash
    else
      ioCheck (match expectedSize with Some n => Z.of_nat (length hash) + Z.of_nat (length payload) <=? n | None => true end)
        "File size changed before verification.";;
      digestLoop fuel handle expectedSize (hash ++ payload)
  end.

(** [digestFilePath]; [fuel] is for a file of unknown size *)
Definition digestFilePath (fuel : nat) (filePath : jsstr) (expectedIdentity : option FileIdentity) (expectedSize : option Z) : io jsstr :=
  pathIdentity ← fileIdentity filePath;
  ioCheck (match expectedIdentity with Some i => sameIdentity pathIdentity i | None => true end) "File path changed before verification.";;
  handle ← call (OpenNoFollow filePath false);
  iofinally
    (stat ← call (HandleStat handle);
     ioCheck (sameFileIdentity stat pathIdentity) "File path changed before verification.";;
     ioCheck (sizeExpected stat expectedSize) "File size changed before verification.";;
     hash ← digestLoop (match expectedSize with Some n => S (Z.to_nat n) | None => fuel end) handle expectedSize [];
     ioCheck (match expectedSize with Some n => Z.of_nat (length hash) =? n | None => true end) "File size changed before verification.";;
     Return (digestHex hash))
    (call (HandleClose handle)).

End Digest.
