(* ===== verification/PublishProps.v ===== *)
(** * PublishProps: what publishing and removing files does to the file system.

    Others may change the file system between any two calls and every call may
    fail.  The partial and the file that a copy makes, with the names that this
    process gave them, are left alone by others ([undisturbed]); everything
    else may change at any time.  [Known] lists what is certain of a file
    system under that assumption. *)
From S2P Require Import Prelude.
From S2P Require Import JsText.
From S2P Require Import JsValue.
From S2P Require Import FileStat.
From S2P Require Import Crypto.
From S2P Require Import Pake.
From S2P Require Import FileSystem.
From S2P Require Import ReceiverState.
From S2P Require Import Receiver.
From S2P Require Import Publish.
#[local] Open Scope Z_scope.

Lemma take_part {A} k (l : list A) : take k l ++ drop (length (take k l)) l = l.
Proof.
  rewrite length_take. destruct (decide (k <= length l)%nat); [rewrite Nat.min_l by done; apply take_drop|].
  rewrite Nat.min_r, drop_ge, take_ge, app_nil_r by lia. done.
Qed.

Lemma writeAt_end d l : writeAt d (length d) l = d ++ l.
Proof. unfold writeAt. rewrite Nat.sub_diag. cbn [replicate]. rewrite app_nil_r, firstn_all, (drop_ge d) by lia. by rewrite app_nil_r. Qed.

(** What a read of a file adds to its first [pos] bytes *)
Lemma take_more {A} pos m (l : list A) : take pos l ++ take m (drop pos l) = take (pos + length (take m (drop pos l))) l.
Proof.
  rewrite <-take_take_drop. f_equal. rewrite length_take, length_drop. destruct (decide (m <= length l - pos)%nat); [by rewrite Nat.min_l|].
  rewrite Nat.min_r, !take_ge; rewrite ?length_drop; lia || done.
Qed.

(** ** Assumptions and guarantees *)

Section Names.
Context `{Process}.
Variables (part final : jsstr) (i j : FileIdentity).

(** The names of quarantined files *)
Definition quarantinePath (dir : jsstr) (token : list Z) : jsstr := joinPath (dirname dir) (quarantineName token).
Definition quarantine (p : jsstr) : Prop := ∃ dir token, (dir = part ∨ dir = final) ∧ bytesOf 8 token ∧ p = quarantinePath dir token.

(** The names that a publish may take away, and the files: the partial [i] and
    the file [j] of a copy *)
Definition guarded (p : jsstr) : Prop := p = part ∨ p = final ∨ quarantine p.
Definition ours (id : FileIdentity) : Prop := id = i ∨ id = j.

(** What other processes leave alone *)
Record undisturbed (fs fs' : Fs) : Prop := {
  ud_names p id : guarded p → ours id → names fs !! p = Some id → names fs' !! p = Some id;
  ud_inodes id n : ours id → inodes fs !! id = Some n → inodes fs' !! id = Some n;
  ud_handles h f : handles fs !! h = Some f → handles fs' !! h = Some f;
  ud_quarantine p : quarantine p → names fs !! p = None → names fs' !! p = None
}.

(** A new file gets the number [j], and when random bytes are drawn they make
    a name that is not in use. *)
Definition tokenOf (t : Turn) : list Z := randomBytes t 8.
Definition unusedName (dir : jsstr) (t : Turn) (fs : Fs) : Prop :=
  names fs !! quarantinePath dir (tokenOf t) = None ∧ quarantinePath dir (tokenOf t) ≠ final.
Definition fresh (B : Type) (c : Sys B) (t : Turn) (fs : Fs) : Prop :=
  newInode t = j ∧ match c with RandomBytes _ => unusedName part t fs ∧ unusedName final t fs | _ => True end.

(** What a call of the program may do: no file but [j] changes, no file but [i]
    and [j] loses or gets a name. *)
Record respects (fs fs' : Fs) : Prop := {
  rs_inodes id n : id ≠ j → inodes fs !! id = Some n → inodes fs' !! id = Some n;
  rs_lost p id : names fs !! p = Some id → names fs' !! p = Some id ∨ guarded p ∧ ours id;
  rs_gained p id : names fs' !! p = Some id → names fs !! p = Some id ∨ guarded p ∧ ours id
}.

Lemma respects_refl fs : respects fs fs.
Proof. split; auto. Qed.

(** A guarantee that calls which change neither names nor inodes satisfy *)
Class Guarantee (guar : Fs → Fs → Prop) := {
  guar_refl fs : guar fs fs;
  guar_handles f fs : guar fs (set_handles f fs)
}.
#[local] Instance respects_Guarantee : Guarantee respects.
Proof. split; [apply respects_refl|]. intros f fs. split; auto. Qed.

(** ** What is known *)

Record Known (ns : gmap jsstr FileIdentity) (nd : gmap FileIdentity Inode) (hs : gmap nat OpenFile) (fs : Fs) : Prop := {
  kn_names : ns ⊆ names fs;
  kn_inodes : nd ⊆ inodes fs;
  kn_handles : hs ⊆ handles fs;
  kn_guarded : map_Forall (λ p id, guarded p ∧ ours id) ns;
  kn_ours : map_Forall (λ id _, ours id) nd
}.

Lemma Known_rely ns nd hs fs fs' : Known ns nd hs fs → undisturbed fs fs' → Known ns nd hs fs'.
Proof.
  intros [K1 K2 K3 K4 K5] [U1 U2 U3 U4]. split; [..|done|done].
  - apply (proj2 (map_subseteq_spec _ _)). intros p id Hp. destruct (K4 _ _ Hp). apply U1; [done..|by eapply lookup_weaken].
  - apply (proj2 (map_subseteq_spec _ _)). intros id n Hn. pose proof (K5 _ _ Hn). apply U2; [done|by eapply lookup_weaken].
  - apply (proj2 (map_subseteq_spec _ _)). intros h f Hh. apply U3. by eapply lookup_weaken.
Qed.

Lemma Known_sub ns ns' nd nd' hs hs' fs : Known ns nd hs fs → ns' ⊆ ns → nd' ⊆ nd → hs' ⊆ hs → Known ns' nd' hs' fs.
Proof.
  intros [K1 K2 K3 K4 K5] Hn Hd Hh. split; [by trans ns|by trans nd|by trans hs|..].
  - intros p id Hp. apply (K4 p id). by eapply lookup_weaken.
  - intros id n Hi. apply (K5 id n). by eapply lookup_weaken.
Qed.

Lemma Known_weaken ns ns' nd hs hs' fs : Known ns nd hs fs → ns' ⊆ ns → hs' ⊆ hs → Known ns' nd hs' fs.
Proof. intros HK Hn Hh. by eapply Known_sub. Qed.

Lemma Known_single node fs : names fs !! part = Some i → inodes fs !! i = Some node → Known {[part := i]} {[i := node]} ∅ fs.
Proof.
  intros Hp Hi. split; [by apply map_singleton_subseteq_l..|apply map_empty_subseteq| |].
  - apply map_Forall_singleton. split; by left.
  - apply map_Forall_singleton. by left.
Qed.

(** ** Calls *)

#[local] Abbreviation wp := (fwp undisturbed fresh respects).

(** A call that changes nothing *)
Lemma wp_read {poss guar} `{!Guarantee guar} {A} (c : Sys A) (Q : A → Fs → Prop) E ns nd hs fs :
  Known ns nd hs fs →
  (∀ t s, (perform c t s).2 = s) →
  (∀ e s, Known ns nd hs s → E (NodeError e) s) →
  (∀ t s a, Known ns nd hs s → undisturbed fs s → poss A c t s → (perform c t s).1 = inl a → Q a s) →
  fwp undisturbed poss guar (call c) Q E fs.
Proof.
  intros HK Hsame HE HQ. apply fwp_call; [apply guar_refl|intros; by eapply HE, Known_rely|].
  intros t s Hr Hp. pose proof (Hsame t s) as E2. pose proof (Known_rely _ _ _ _ _ HK Hr) as HK'.
  destruct (perform c t s) as [r s'] eqn:E1. cbn [fst snd] in *. subst s'. split; [apply guar_refl|].
  destruct r as [a|e]; [|by apply HE]. apply (HQ t); [done..|]. by rewrite E1.
Qed.

Lemma wp_lstat {poss guar} `{!Guarantee guar} p Q E ns nd hs fs :
  Known ns nd hs fs →
  (∀ e s, Known ns nd hs s → E (NodeError e) s) →
  (∀ s id n, Known ns nd hs s → undisturbed fs s → names s !! p = Some id → inodes s !! id = Some n → Q (statOf s id n) s) →
  fwp undisturbed poss guar (call (Lstat p)) Q E fs.
Proof.
  intros HK HE HQ. apply (wp_read _ _ _ ns nd hs); [done| |done|].
  - intros t s. done.
  - intros t s a HK' Hu _. cbn [perform fst]. unfold lookupPath. destruct (names s !! p) as [id|] eqn:E1; [|done].
    destruct (inodes s !! id) as [n|] eqn:E2; [|done]. intros [= <-]. by apply HQ.
Qed.

Lemma wp_random {guar} `{!Guarantee guar} Q E ns nd hs fs :
  Known ns nd hs fs →
  (∀ e s, Known ns nd hs s → E (NodeError e) s) →
  (∀ t s, Known ns nd hs s → unusedName part t s → unusedName final t s → Q (tokenOf t) s) →
  fwp undisturbed fresh guar (call (RandomBytes 8)) Q E fs.
Proof. intros HK HE HQ. apply (wp_read _ _ _ ns nd hs); [done..|]. intros t s a HK' _ (_ & Hp & Hf) [= <-]. by apply (HQ t). Qed.

(** A rename to a quarantine name that is free *)
Lemma wp_rename p q id Q E ns nd hs fs :
  Known (<[p := id]> ns) nd hs fs → ns !! p = None → quarantine q → names fs !! q = None →
  (∀ e s, Known (<[p := id]> ns) nd hs s → E (NodeError e) s) →
  (∀ s, Known (<[q := id]> ns) nd hs s → Q () s) →
  wp (call (Rename p q)) Q E fs.
Proof.
  intros HK Hp Hq Hfree HE HQ. apply fwp_call; [apply respects_refl|intros; by eapply HE, Known_rely|].
  intros t s Hr _. pose proof (Known_rely _ _ _ _ _ HK Hr) as HK'. pose proof (ud_quarantine _ _ Hr _ Hq Hfree) as Hfree'.
  destruct HK' as [K1 K2 K3 K4 K5]. pose proof (lookup_weaken _ _ p id (lookup_insert_eq _ _ _) K1) as Hn.
  destruct (K4 p id (lookup_insert_eq _ _ _)) as [Hg Ho].
  cbn [perform]. unfold lookupPath. rewrite Hn. destruct (inodes s !! id) as [n|]; cbn [fst snd]; [|by split; [apply respects_refl|apply HE]].
  assert (p ≠ q) as Hne by congruence. split; [split|apply HQ; split]; cbn [set_names names inodes handles]; try done.
  - intros o id' Ho'. destruct (decide (o = q)) as [->|]; [congruence|]. destruct (decide (o = p)) as [->|]; [right; split; [done|congruence]|].
    left. by rewrite lookup_insert_ne, lookup_delete_ne by done.
  - intros o id'. destruct (decide (o = q)) as [->|]; [rewrite lookup_insert_eq; intros [= <-]; right; split; [by right; right|done]|].
    rewrite lookup_insert_ne by done. intros Ho'%lookup_delete_Some. left. apply Ho'.
  - apply insert_mono. transitivity (delete p (<[p := id]> ns)); [by rewrite delete_insert_id|]. by apply delete_mono.
  - apply map_Forall_insert_2; [split; [by right; right|done]|]. eapply map_Forall_insert_1_2; [done|exact K4].
Qed.

Lemma wp_rm q id Q E ns nd hs fs :
  Known (<[q := id]> ns) nd hs fs → ns !! q = None →
  (∀ e s, Known (<[q := id]> ns) nd hs s → E (NodeError e) s) →
  (∀ s, Known ns nd hs s → Q () s) →
  wp (call (RmForce q)) Q E fs.
Proof.
  intros HK Hq HE HQ. apply fwp_call; [apply respects_refl|intros; by eapply HE, Known_rely|].
  intros t s Hr _. destruct (Known_rely _ _ _ _ _ HK Hr) as [K1 K2 K3 K4 K5].
  pose proof (lookup_weaken _ _ q id (lookup_insert_eq _ _ _) K1) as Hn. destruct (K4 q id (lookup_insert_eq _ _ _)) as [Hg Ho].
  cbn [perform fst snd]. split; [split|apply HQ; split]; cbn [set_names names inodes handles]; try done.
  - intros o id' Ho'. destruct (decide (o = q)) as [->|]; [right; split; [done|congruence]|]. left. by rewrite lookup_delete_ne.
  - intros o id' Ho'%lookup_delete_Some. left. apply Ho'.
  - transitivity (delete q (<[q := id]> ns)); [by rewrite delete_insert_id|]. by apply delete_mono.
  - eapply map_Forall_insert_1_2; [done|exact K4].
Qed.

Lemma Known_bind p id ns nd hs fs : Known ns nd hs fs → guarded p → ours id → names fs !! p = Some id → Known (<[p := id]> ns) nd hs fs.
Proof. intros [K1 K2 K3 K4 K5] Hp Ho Hn. split; try done; [by apply insert_subseteq_l|by apply map_Forall_insert_2]. Qed.

Lemma Known_forget p id ns nd hs fs : ns !! p = None → Known (<[p := id]> ns) nd hs fs → Known ns nd hs fs.
Proof. intros Hp HK. by eapply Known_weaken; [exact HK|apply insert_subseteq|]. Qed.

(** ** Removing a file by its identity *)

Section Remove.
Variables (path : jsstr) (matches : Stats → bool) (k : FileIdentity) (ns : gmap jsstr FileIdentity) (nd : gmap FileIdentity Inode) (hs : gmap nat OpenFile).
Context (Hpath : path = part ∨ path = final) (Hours : ours k) (Hfree : ns !! path = None).
Context (Hmatches : ∀ fs id n, matches (statOf fs id n) = true → id = k).

Lemma path_guarded : guarded path.
Proof using Hpath. unfold guarded. tauto. Qed.

(** The file is still there, under its name or in quarantine. *)
Definition Remains (fs : Fs) : Prop :=
  ∃ p, (p = path ∨ quarantine p ∧ p ≠ final ∧ p ≠ path) ∧ ns !! p = None ∧ Known (<[p := k]> ns) nd hs fs.

Lemma Remains_Known fs : Remains fs → Known ns nd hs fs.
Proof. intros (p & _ & Hp & HK). by eapply Known_forget. Qed.

Definition freeQuarantine (q : jsstr) (fs : Fs) : Prop := quarantine q ∧ q ≠ final ∧ names fs !! q = None.

Lemma quarantineAttempt_rest q fs :
  Known (<[path := k]> ns) nd hs fs → freeQuarantine q fs →
  wp (call (Rename path q);;
      quarantined ← call (Lstat q);
      if negb (matches quarantined) then ioThrow "Cleanup target changed before removal." else call (RmForce q))
    (λ _, Known ns nd hs) (λ _, Remains) fs.
Proof using Hfree.
  intros HK (Hq & Hf & Hn). apply fwp_bind.
  pose proof (lookup_weaken _ _ path k (lookup_insert_eq _ _ _) (kn_names _ _ _ _ HK)) as Hnp.
  assert (ns !! q = None) as Hnq. { destruct (ns !! q) as [x|] eqn:E; [|done]. pose proof (Known_forget _ _ _ _ _ _ Hfree HK) as HK'.
    pose proof (lookup_weaken _ _ _ _ E (kn_names _ _ _ _ HK')). congruence. }
  eapply wp_rename; [done..| |].
  { intros e s HK'. exists path. split_and!; [by left|done..]. }
  assert (∀ s, Known (<[q := k]> ns) nd hs s → Remains s) as HR. { intros s HK'. exists q. split_and!; [right; split_and!; congruence|done..]. }
  intros s HK'. apply fwp_bind. eapply wp_lstat; [done|by intros; apply HR|].
  intros s1 id n HK1 _ _ _. destruct (matches (statOf s1 id n)); cbn [negb]; [|by apply HR].
  eapply wp_rm; [done..| |done]. by intros; apply HR.
Qed.

Lemma quarantineAttempt_bound q fs :
  Known (<[path := k]> ns) nd hs fs → freeQuarantine q fs →
  wp (quarantineAttempt path q matches) (λ _, Known ns nd hs) (λ _, Remains) fs.
Proof using Hfree.
  intros HK (Hq & Hf & Hn). apply fwp_bind. eapply wp_lstat; [done|..].
  - intros e s HK'. exists path. split_and!; [by left|done..].
  - intros s id n HK' Hu _ _. destruct (matches _); cbn [negb]; [|by eapply Known_forget].
    apply quarantineAttempt_rest; [done|]. split_and!; [done..|]. by eapply ud_quarantine.
Qed.

Lemma quarantineAttempt_unbound q fs :
  Known ns nd hs fs → freeQuarantine q fs → wp (quarantineAttempt path q matches) (λ _, Known ns nd hs) (λ _, Known ns nd hs) fs.
Proof using Hpath Hours Hmatches Hfree.
  intros HK (Hq & Hf & Hn). apply fwp_bind. eapply wp_lstat; [done|done|].
  intros s id n HK' Hu Hp _. destruct (matches _) eqn:Hm; cbn [negb]; [|done]. pose proof (Hmatches _ _ _ Hm) as ->.
  eapply fwp_mono; [apply quarantineAttempt_rest|done|by intros ? ?; apply Remains_Known].
  - apply Known_bind; [done|apply path_guarded|done..].
  - split_and!; [done..|]. by eapply ud_quarantine.
Qed.

Lemma cleanupQuarantinePath_wp Q E nm fs :
  Known nm nd hs fs → (∀ e s, Known nm nd hs s → E e s) → (∀ q s, Known nm nd hs s → freeQuarantine q s → Q q s) →
  wp (cleanupQuarantinePath path) Q E fs.
Proof using Hfree Hpath.
  intros HK HE HQ. apply fwp_bind. eapply wp_random; [done|by intros; apply HE|].
  intros t s HK' Hup Huf. apply HQ; [done|]. assert (unusedName path t s) as [Hn Hf] by (destruct Hpath as [-> | ->]; done). split_and!; [|done..].
  exists path, (tokenOf t). split_and!; [done|exact (randomBytes_size t 8)|done].
Qed.

Lemma quarantineLoop_unbound attempts fs :
  Known ns nd hs fs → wp (quarantineLoop attempts path matches) (λ _, Known ns nd hs) (λ _, Known ns nd hs) fs.
Proof using Hpath Hours Hmatches Hfree.
  revert fs. induction attempts as [|attempts IH]; intros fs HK; cbn [quarantineLoop]; [done|].
  apply fwp_bind. eapply cleanupQuarantinePath_wp; [done..|]. intros q s HK' Hq. apply fwp_catch.
  eapply fwp_mono; [by apply quarantineAttempt_unbound|done|]. intros e s' HK1. destruct (nodeErrorCode e) as [[]|]; by (apply IH || apply HK1).
Qed.

End Remove.

(** A file whose name is known is removed, or, when that fails, it remains. *)
Lemma quarantineLoop_bound path matches k ns nd hs attempts fs :
  path = part ∨ path = final → ours k → ns !! path = None → (∀ fs id n, matches (statOf fs id n) = true → id = k) →
  Known (<[path := k]> ns) nd hs fs →
  wp (quarantineLoop attempts path matches) (λ _, Known ns nd hs) (λ _, Remains path k ns nd hs) fs.
Proof.
  intros Hpath Hk Hfree Hm. revert fs. induction attempts as [|attempts IH]; intros fs HK; cbn [quarantineLoop].
  { exists path. split_and!; [by left|done..]. }
  apply fwp_bind. eapply cleanupQuarantinePath_wp; [done..| |].
  { intros e s HK'. exists path. split_and!; [by left|done..]. }
  intros q s HK' Hq. apply fwp_catch.
  eapply fwp_mono; [by eapply quarantineAttempt_bound|done|]. intros e s' HR. pose proof (Remains_Known _ _ _ _ _ _ HR) as HKn.
  destruct (nodeErrorCode e) as [[]|]; try exact HR; [exact HKn|].
  destruct HR as (p & [->|Hp] & Hnp & HK1); [by apply IH|].
  eapply fwp_mono; [apply (quarantineLoop_unbound path matches k (<[p := k]> ns)); [done|done| |done|exact HK1]|..]; cbv beta.
  - rewrite lookup_insert_ne by tauto. done.
  - intros _ s1 HK2. by eapply Known_forget.
  - intros e1 s1 HK2. exists p. split_and!; [by right|done..].
Qed.

Lemma identity_statOf s id n : identityOf (statOf s id n) = id.
Proof. by destruct id. Qed.

Lemma sameFile_identity s id n k : sameFileIdentity (statOf s id n) k = true → id = k ∧ in_kind n = RegularFile.
Proof.
  unfold sameFileIdentity, isFile, sameIdentity. cbn [statOf st_kind identityOf st_dev st_ino dev ino].
  intros [Hk%bool_decide_eq_true [Hd%Z.eqb_eq Hi%Z.eqb_eq]%andb_prop]%andb_prop. destruct id as [d1 n1], k as [d2 n2]. cbn [dev ino] in *. by subst.
Qed.

(** [removePathIfIdentity] *)
Lemma removeKnown path k ns nd hs fs :
  path = part ∨ path = final → ours k → ns !! path = None → Known (<[path := k]> ns) nd hs fs →
  wp (removePathIfIdentity path k) (λ _, Known ns nd hs) (λ _, Remains path k ns nd hs) fs.
Proof. intros Hp Hk Hn HK. apply quarantineLoop_bound; [done..| |done]. by intros s id n [? _]%sameFile_identity. Qed.

(** ** Copying *)

Lemma Known_file f id n h ns nd hs fs :
  Known ns nd hs fs → hs !! h = Some f → of_inode f = id → nd !! id = Some n → handles fs !! h = Some f ∧ inodes fs !! id = Some n.
Proof. intros [K1 K2 K3 K4 K5] Hh <- Hn. split; by eapply lookup_weaken. Qed.

Lemma wp_handleStat {poss guar} `{!Guarantee guar} h f id n Q E ns nd hs fs :
  Known ns nd hs fs → hs !! h = Some f → of_inode f = id → nd !! id = Some n →
  (∀ e s, Known ns nd hs s → E (NodeError e) s) →
  (∀ s, Known ns nd hs s → Q (statOf s id n) s) →
  fwp undisturbed poss guar (call (HandleStat h)) Q E fs.
Proof.
  intros HK Hh Hi Hn HE HQ. apply (wp_read _ _ _ ns nd hs); [done| |done|]; intros t s; cbn [perform]; unfold withHandle.
  - destruct (handles s !! h) as [g|]; [|done]. by destruct (inodes s !! of_inode g).
  - intros a HK' _ _. destruct (Known_file _ _ _ _ _ _ _ _ HK' Hh Hi Hn) as [-> Hs]. rewrite Hi, Hs. intros [= <-]. by apply HQ.
Qed.

Lemma wp_handleRead {poss guar} `{!Guarantee guar} h f id n len pos Q E ns nd hs fs :
  Known ns nd hs fs → hs !! h = Some f → of_inode f = id → nd !! id = Some n →
  (∀ e s, Known ns nd hs s → E (NodeError e) s) →
  (∀ s k, Known ns nd hs s → Q (take (Nat.min (Z.to_nat len) (S k)) (drop (Z.to_nat pos) (in_content n))) s) →
  fwp undisturbed poss guar (call (HandleRead h len pos)) Q E fs.
Proof.
  intros HK Hh Hi Hn HE HQ. apply (wp_read _ _ _ ns nd hs); [done| |done|]; intros t s; cbn [perform]; unfold withHandle.
  - destruct (handles s !! h) as [g|]; [|done]. by destruct (inodes s !! of_inode g).
  - intros a HK' _ _. destruct (Known_file _ _ _ _ _ _ _ _ HK' Hh Hi Hn) as [-> Hs]. rewrite Hi, Hs. intros [= <-]. by apply HQ.
Qed.

Lemma wp_handleStatBig {poss guar} `{!Guarantee guar} h f id n Q E ns nd hs fs :
  Known ns nd hs fs → hs !! h = Some f → of_inode f = id → nd !! id = Some n →
  (∀ e s, Known ns nd hs s → E (NodeError e) s) →
  (∀ s times, Known ns nd hs s → Q (statOf s id n, times) s) →
  fwp undisturbed poss guar (call (HandleStatBig h)) Q E fs.
Proof.
  intros HK Hh Hi Hn HE HQ. apply (wp_read _ _ _ ns nd hs); [done| |done|]; intros t s; cbn [perform]; unfold withHandle.
  - destruct (handles s !! h) as [g|]; [|done]. by destruct (inodes s !! of_inode g).
  - intros a HK' _ _. destruct (Known_file _ _ _ _ _ _ _ _ HK' Hh Hi Hn) as [-> Hs]. rewrite Hi, Hs. intros [= <-]. by apply HQ.
Qed.

Lemma wp_close {poss guar} `{!Guarantee guar} h Q E ns nd hs fs :
  Known ns nd hs fs →
  (∀ e s, Known ns nd hs s → E (NodeError e) s) → (∀ s, Known ns nd (delete h hs) s → Q () s) → fwp undisturbed poss guar (call (HandleClose h)) Q E fs.
Proof.
  intros HK HE HQ. apply fwp_call; [apply guar_refl|intros; by eapply HE, Known_rely|].
  intros t s Hr _. destruct (Known_rely _ _ _ _ _ HK Hr) as [K1 K2 K3 K4 K5]. cbn [perform fst snd].
  split; [apply guar_handles|]. apply HQ. split; try done. by apply delete_mono.
Qed.

(** The partial is opened for reading. *)
Lemma wp_openRead {poss guar} `{!Guarantee guar} p id Q E ns nd hs fs :
  Known ns nd hs fs → ns !! p = Some id →
  (∀ e s, Known ns nd hs s → E (NodeError e) s) →
  (∀ h s f, Known ns nd (<[h := f]> hs) s → hs !! h = None → of_inode f = id → Q h s) →
  fwp undisturbed poss guar (call (OpenNoFollow p false)) Q E fs.
Proof.
  intros HK Hp HE HQ. apply fwp_call; [apply guar_refl|intros; by eapply HE, Known_rely|].
  intros t s Hr _. pose proof (Known_rely _ _ _ _ _ HK Hr) as HK'. pose proof HK' as [K1 K2 K3 K4 K5].
  cbn [perform]. unfold lookupPath. rewrite (lookup_weaken _ _ _ _ Hp K1).
  destruct (inodes s !! id) as [n|]; cbn [fst snd]; [|by split; [apply guar_refl|apply HE]].
  case_bool_decide; cbn [fst snd]; [by split; [apply guar_refl|apply HE]|].
  case_bool_decide as Hh; cbn [fst snd]; [by split; [apply guar_refl|apply HE]|]. apply eq_None_not_Some in Hh.
  assert (hs !! newHandle t = None) as Hf by (by eapply lookup_weaken_None).
  split; [apply guar_handles|]. apply (HQ _ _ {| of_inode := id; of_position := 0; of_writable := false |}); [|done..]. split; try done. cbn [set_handles handles]. by apply insert_mono.
Qed.

(** A hard link to a name that is free *)
Lemma wp_link p q id Q E ns nd hs fs :
  Known ns nd hs fs → ns !! p = Some id → guarded q → ours id →
  (∀ e s, Known ns nd hs s → E (NodeError e) s) →
  (∀ s, Known (<[q := id]> ns) nd hs s → ns !! q = None → Q () s) →
  wp (call (Link p q)) Q E fs.
Proof.
  intros HK Hp Hq Ho HE HQ. apply fwp_call; [apply respects_refl|intros; by eapply HE, Known_rely|].
  intros t s Hr _. pose proof (Known_rely _ _ _ _ _ HK Hr) as HK'. pose proof HK' as [K1 K2 K3 K4 K5].
  cbn [perform]. unfold lookupPath. rewrite (lookup_weaken _ _ _ _ Hp K1).
  destruct (inodes s !! id) as [n|]; cbn [fst snd]; [|by split; [apply respects_refl|apply HE]].
  destruct (names s !! q) eqn:Hn; cbn [fst snd]; [by split; [apply respects_refl|apply HE]|].
  assert (ns !! q = None) as Hf by (by eapply lookup_weaken_None).
  split; [split|apply HQ; [split|]]; cbn [set_names names inodes handles]; try done.
  - intros o id' Ho'. left. rewrite lookup_insert_ne; [done|congruence].
  - intros o id'. destruct (decide (o = q)) as [->|]; [rewrite lookup_insert_eq; intros [= <-]; by right|].
    rewrite lookup_insert_ne by done. by left.
  - by apply insert_mono.
  - by apply map_Forall_insert_2.
Qed.

(** The file that a copy writes, and its handle *)
Definition newFile (uid : Z) (content : list Z) : Inode :=
  {| in_kind := RegularFile; in_content := content; in_target := []; in_mode := privateMode; in_uid := uid |}.
Definition writer (content : list Z) : OpenFile := {| of_inode := j; of_position := Z.of_nat (length content); of_writable := true |}.

Lemma wp_openNew p Q E ns nd hs fs :
  Known ns nd hs fs → guarded p →
  (∀ e s, Known ns nd hs s → E (NodeError e) s) →
  (∀ h s uid, Known (<[p := j]> ns) (<[j := newFile uid []]> nd) (<[h := writer []]> hs) s →
    ns !! p = None → nd !! j = None → hs !! h = None → Q h s) →
  wp (call (OpenNew p)) Q E fs.
Proof.
  intros HK Hp HE HQ. apply fwp_call; [apply respects_refl|intros; by eapply HE, Known_rely|].
  intros t s Hr [Hj _]. pose proof (Known_rely _ _ _ _ _ HK Hr) as HK'. pose proof HK' as [K1 K2 K3 K4 K5].
  cbn [perform]. rewrite Hj. case_bool_decide as Hn; cbn [fst snd]; [by split; [apply respects_refl|apply HE]|].
  destruct (bool_decide _ || bool_decide _) eqn:Hb; cbn [fst snd]; [by split; [apply respects_refl|apply HE]|].
  apply orb_false_iff in Hb as [Hi%bool_decide_eq_false Hh%bool_decide_eq_false]. apply eq_None_not_Some in Hn, Hi, Hh.
  split; [split|eapply (HQ _ _ (owner t)); [split|..]]; cbn [set_handles set_inodes set_names names inodes handles].
  - intros id n Hid Hl. by rewrite lookup_insert_ne.
  - intros o id Ho. left. rewrite lookup_insert_ne; [done|congruence].
  - intros o id. destruct (decide (o = p)) as [->|]; [rewrite lookup_insert_eq; intros [= <-]; right; split; [done|by right]|].
    rewrite lookup_insert_ne by done. by left.
  - by apply insert_mono.
  - by apply insert_mono.
  - by apply insert_mono.
  - apply map_Forall_insert_2; [split; [done|by right]|done].
  - apply map_Forall_insert_2; [by right|done].
  - by eapply lookup_weaken_None.
  - by eapply lookup_weaken_None.
  - by eapply lookup_weaken_None.
Qed.

Section Copy.
Variables (source target : nat) (f : OpenFile) (node : Inode) (uid : Z) (ns : gmap jsstr FileIdentity) (nd : gmap FileIdentity Inode) (hs : gmap nat OpenFile).
Context (Hsource : hs !! source = Some f) (Hf : of_inode f = i) (Hnode : nd !! i = Some node) (Hij : i ≠ j) (Hne : source ≠ target).

(** While the target has the bytes [d] *)
Definition Copying (d : list Z) : Fs → Prop := Known ns (<[j := newFile uid d]> nd) (<[target := writer d]> hs).
Definition Partly (fs : Fs) : Prop := ∃ d, Copying d fs.

Lemma wp_write d rest Q E fs :
  Copying d fs →
  (∀ e s, Copying d s → E (NodeError e) s) →
  (∀ s k, Copying (d ++ take (S k) rest) s → Q (Z.of_nat (length (take (S k) rest))) s) →
  wp (call (HandleWrite target rest)) Q E fs.
Proof using Hne.
  intros HK HE HQ. apply fwp_call; [apply respects_refl|intros; by eapply HE, Known_rely|].
  intros t s Hr _. pose proof (Known_rely _ _ _ _ _ HK Hr) as HK'.
  destruct (Known_file (writer d) j (newFile uid d) target _ _ _ _ HK' (lookup_insert_eq _ _ _) eq_refl (lookup_insert_eq _ _ _)) as [Hh Hi].
  destruct HK' as [K1 K2 K3 K4 K5]. cbn [perform]. unfold withHandle. rewrite Hh. cbn [writer of_inode of_writable of_position]. rewrite Hi. cbn [fst snd].
  split; [split|apply (HQ _ (amount t)); split]; cbn [set_handles set_inodes names inodes handles in_kind in_content in_target in_mode in_uid newFile]; try done; try by left.
  - intros id n Hid Hl. by rewrite lookup_insert_ne.
  - rewrite Nat2Z.id, writeAt_end.
    rewrite <-(insert_insert_eq nd j (newFile uid (d ++ take (S (amount t)) rest)) (newFile uid d)). by apply insert_mono.
  - unfold writer. rewrite length_app, Nat2Z.inj_add.
    rewrite <-(insert_insert_eq hs target _ (writer d)). by apply insert_mono.
  - intros id n [[<- _]|[Hid Hl]]%lookup_insert_Some; [by right|]. apply (K5 id n). by rewrite lookup_insert_ne.
Qed.

Lemma writeAllLoop_wp fuel rest d (Q : () → Fs → Prop) fs :
  (length rest <= fuel)%nat → Copying d fs → (∀ s, Copying (d ++ rest) s → Q () s) →
  wp (writeAllLoop fuel target rest) Q (λ _, Partly) fs.
Proof using Hne.
  revert rest d fs. induction fuel as [|fuel IH]; intros rest d fs Hl HK HQ; (destruct rest as [|b rest]; cbn [writeAllLoop];
    [apply HQ; by rewrite app_nil_r|cbn [length] in Hl; try lia]).
  apply fwp_bind. eapply wp_write; [done|by intros e s Hs; exists d|]. intros s k HK'.
  set (part' := take (S k) (b :: rest)) in *. assert (0 < length part')%nat as Hp by (subst part'; rewrite length_take; cbn [length]; lia).
  rewrite (proj2 (Z.leb_gt _ _)) by lia. rewrite Nat2Z.id.
  apply (IH _ (d ++ part')); [rewrite length_drop; cbn [length]; lia|done|]. intros s1 HK1. apply HQ.
  subst part'. by rewrite <-app_assoc, take_part in HK1.
Qed.

Variable expectedSize : option Z.
Context (Hsize : ∀ n, expectedSize = Some n → n = Z.of_nat (length (in_content node))).

Lemma copyLoop_wp fuel pos (Q : Z → Fs → Prop) fs :
  (length (in_content node) - pos < fuel)%nat → (pos <= length (in_content node))%nat →
  Copying (take pos (in_content node)) fs →
  (∀ s, Copying (in_content node) s → Q (Z.of_nat (length (in_content node))) s) →
  wp (copyLoop fuel source target expectedSize (Z.of_nat pos)) Q (λ _, Partly) fs.
Proof using Hsource Hsize Hnode Hne Hij Hf.
  revert pos fs. induction fuel as [|fuel IH]; intros pos fs Hfuel Hpos HK HQ; [lia|]. cbn [copyLoop].
  set (len := match expectedSize with Some _ => _ | None => _ end).
  assert (0 < len ∨ pos = length (in_content node)) as Hlen.
  { subst len. destruct expectedSize as [n|]; [|by left]. rewrite (Hsize n) by done. unfold COPY_BUFFER_BYTES. lia. }
  assert (pos = length (in_content node) → ∀ s, Copying (take pos (in_content node)) s → Q (Z.of_nat pos) s) as Hend.
  { intros -> s HK'. apply HQ. by rewrite firstn_all in HK'. }
  destruct (Z.leb_spec len 0); [apply Hend; [lia|done]|].
  apply fwp_bind. eapply (wp_handleRead source f i node); [done| |done| |by intros e s Hs; eexists|].
  { by rewrite lookup_insert_ne. }
  { by rewrite lookup_insert_ne. }
  intros s k HK'. rewrite Nat2Z.id. set (data := take _ _).
  assert (length data = Nat.min (Nat.min (Z.to_nat len) (S k)) (length (in_content node) - pos)) as Hd.
  { subst data. by rewrite length_take, length_drop. }
  destruct (Z.eqb_spec (Z.of_nat (length data)) 0); [apply Hend; [lia|done]|].
  apply fwp_bind. apply (writeAllLoop_wp _ _ (take pos (in_content node))); [done|done|]. intros s1 HK1.
  rewrite <-Nat2Z.inj_add. apply IH; [lia|lia| |done].
  subst data. by rewrite <-take_more.
Qed.

Lemma copyOpenFile_wp fuel fs :
  (length (in_content node) < fuel)%nat → Copying [] fs →
  wp (copyOpenFile fuel source target expectedSize) (λ _, Copying (in_content node)) (λ _, Partly) fs.
Proof using Hsource Hsize Hnode Hne Hij Hf.
  intros Hfuel HK. apply fwp_bind. apply (copyLoop_wp _ 0); [|lia|by rewrite take_0|].
  { destruct expectedSize as [n|]; [rewrite (Hsize n) by done|]; lia. }
  intros s HK'. destruct expectedSize as [n|]; [|done]. rewrite <-(Hsize n), Z.eqb_refl by done. cbn [negb].
  apply fwp_bind. eapply (wp_handleRead source f i node); [done| |done| |by intros e s' Hs; eexists|].
  { by rewrite lookup_insert_ne. }
  { by rewrite lookup_insert_ne. }
  intros s1 k HK1. rewrite (Hsize n), Nat2Z.id, drop_ge by done. rewrite take_nil. done.
Qed.

Lemma sameFile_statOf s id n : in_kind n = RegularFile → sameFileIdentity (statOf s id n) id = true.
Proof.
  intros Hk. unfold sameFileIdentity, isFile, sameIdentity. cbn [statOf st_kind identityOf st_dev st_ino dev ino].
  rewrite Hk, !Z.eqb_refl. done.
Qed.

(** The target has the whole content when [copyInto] returns. *)
Lemma copyInto_wp fuel (Q : () → Fs → Prop) fs :
  in_kind node = RegularFile → (length (in_content node) < fuel)%nat → Copying [] fs →
  (∀ s, Known ns (<[j := newFile uid (in_content node)]> nd) (delete target hs) s → Q () s) →
  wp (copyInto fuel source target i expectedSize) Q (λ _, Partly) fs.
Proof using Hsource Hsize Hnode Hne Hij Hf.
  intros Hk Hfuel HK HQ. apply fwp_bind. eapply fwp_mono; [by apply copyOpenFile_wp| |done]. intros [] s0 HK0.
  assert (∀ n, in_content n = in_content node → ∀ s id, sizeExpected (statOf s id n) expectedSize = true) as Hs.
  { intros n Hn s id. unfold sizeExpected. destruct expectedSize as [m|]; [|done]. cbn [statOf st_size]. rewrite (Hsize m), Hn by done. apply Z.eqb_refl. }
  apply fwp_bind. eapply (wp_handleStat source f i node); [done| |done| |by intros e s' Hp; eexists|].
  { by rewrite lookup_insert_ne. }
  { by rewrite lookup_insert_ne. }
  intros s1 HK1. rewrite sameFile_statOf by done. cbn [negb]. apply fwp_bind. cbn [fwp]. rewrite Hs by done. cbn [negb].
  apply fwp_bind. cbn [fwp]. apply fwp_bind.
  eapply (wp_handleStat target); [exact HK1|by rewrite lookup_insert_eq|done|by rewrite lookup_insert_eq|by intros e s' Hp; eexists|].
  intros s2 HK2. rewrite Hs by done. cbn [negb]. apply fwp_bind. cbn [fwp].
  eapply wp_close; [exact HK2|by intros e s' Hp; eexists|]. intros s3 HK3. apply HQ.
  by rewrite delete_insert_eq in HK3.
Qed.

End Copy.

(** ** Publishing *)

Section Place.
Context `{Platform}.
Variables (node : Inode) (expectedSize : option Z) (fuel : nat).
Context (Hfuel : (length (in_content node) < fuel)%nat).

(** The partial is known; the final name is the partial or a copy of it. *)
Definition Before (hs : gmap nat OpenFile) : Fs → Prop := Known {[part := i]} {[i := node]} hs.
Definition Placed (m : FileIdentity) (n : Inode) (fs : Fs) : Prop :=
  Known (<[final := m]> {[part := i]}) (<[m := n]> {[i := node]}) ∅ fs ∧
  part ≠ final ∧ (m = i ∧ n = node ∨ m = j ∧ i ≠ j) ∧ in_kind n = RegularFile ∧ in_content n = in_content node.

(** What [assertPartFileIdentity] has checked *)
Definition Checked : Prop := in_kind node = RegularFile ∧ ∀ n, expectedSize = Some n → n = Z.of_nat (length (in_content node)).

Lemma Before_close hs fs : Before hs fs → Before ∅ fs.
Proof. intros HK. eapply Known_weaken; [exact HK|done|apply map_empty_subseteq]. Qed.

Lemma sizeExpected_statOf s : Checked → sizeExpected (statOf s i node) expectedSize = true.
Proof.
  intros [_ Hsize]. unfold sizeExpected. destruct expectedSize as [m|]; [|done]. cbn [statOf st_size]. by rewrite (Hsize m), Z.eqb_refl.
Qed.

Lemma copyFailed_wp target (t : Stats + Failure) e uid d (Q : (FileIdentity + Failure) * option nat → Fs → Prop) E fs :
  part ≠ final → i ≠ j → match t with inl st => identityOf st = j | inr _ => True end →
  Known (<[final := j]> {[part := i]}) (<[j := newFile uid d]> {[i := node]}) ∅ fs →
  (∀ open s, Before ∅ s → Q (inr e, open) s) →
  wp (copyFailed target final t e) Q E fs.
Proof.
  intros Hpf Hij Ht HK HQ. apply fwp_bind, fwp_try.
  assert (∀ s, Known {[part := i]} (<[j := newFile uid d]> {[i := node]}) ∅ s → Before ∅ s) as HB.
  { intros s Hs. eapply Known_sub; [exact Hs|done| |done]. apply insert_subseteq. by apply lookup_singleton_None. }
  assert (∀ (closed : () + Failure) s, Known (<[final := j]> {[part := i]}) (<[j := newFile uid d]> {[i := node]}) ∅ s →
    wp (match t with inl s => iocatch (removePathIfIdentity final (identityOf s)) (λ _, Return ()) | inr _ => Return () end;;
        Return (inr e, match closed with inl _ => None | inr _ => Some target end)) Q E s) as Hrest.
  { intros closed s Hs. apply fwp_bind. destruct t as [st|]; [|eapply HQ, HB, Known_forget; [by apply lookup_singleton_None|done]].
    apply fwp_catch. rewrite Ht. eapply fwp_mono; [by apply (removeKnown final j {[part := i]}); [right|right|apply lookup_singleton_None|]|..]; cbv beta.
    - intros [] s1 Hs1. eapply HQ, HB. exact Hs1.
    - intros e1 s1 Hs1%Remains_Known. eapply HQ, HB. exact Hs1. }
  eapply wp_close; [exact HK|intros e1 s Hs; exact (Hrest (inr (NodeError e1)) s Hs)|].
  intros s Hs. rewrite delete_empty in Hs. exact (Hrest (inl ()) s Hs).
Qed.

Lemma copyAttempt_wp source f (Q : (FileIdentity + Failure) * option nat → Fs → Prop) E fs :
  Checked → of_inode f = i → Before {[source := f]} fs →
  (∀ e open s, Before ∅ s → Q (inr e, open) s) →
  (∀ n s, Placed j n s → Q (inl j, None) s) →
  wp (copyAttempt fuel source final i expectedSize) Q E fs.
Proof using Hfuel.
  intros [Hkind Hsize] Hf HB HE HQ. apply fwp_bind, fwp_try. apply fwp_bind.
  assert (∀ e s, Before {[source := f]} s → wp (Return (A:=(FileIdentity + Failure) * option nat) (inr e, None)) Q E s) as HE0.
  { intros e s Hs. apply HE. by eapply Before_close. }
  eapply (wp_handleStat source f i node); [done|by rewrite lookup_singleton_eq|done|by rewrite lookup_singleton_eq|by intros; apply HE0|].
  intros s1 HB1. rewrite sameFile_statOf by done. cbn [negb]. apply fwp_bind. cbn [fwp]. 
  rewrite sizeExpected_statOf by done. cbn [negb]. apply fwp_bind. cbn [fwp].
  eapply wp_openNew; [done|by right; left|by intros; apply HE0|]. intros target s2 uid HK2 Hnp Hnj Hnt. cbv beta.
  apply lookup_singleton_None in Hnp, Hnj, Hnt.
  apply fwp_bind, fwp_try. set (ns := <[final := j]> {[part := i]}) in *.
  assert (∀ e t s, Partly target uid ns {[i := node]} {[source := f]} s →
    (match t with inl st => identityOf st = j | inr _ => True end) → wp (copyFailed target final t e) Q E s) as Hfail.
  { intros e t s [d Hd] Ht. apply (copyFailed_wp target t e uid d); [done..| |by intros; apply HE].
    eapply Known_weaken; [exact Hd|done|apply map_empty_subseteq]. }
  eapply (wp_handleStat target); [exact HK2|by rewrite lookup_insert_eq|done|by rewrite lookup_insert_eq| |].
  { intros e s Hs. cbv beta. apply fwp_bind. cbn [fwp]. apply Hfail; [by exists []|done]. }
  intros s3 HK3. cbv beta. apply fwp_bind, fwp_try, fwp_bind.
  eapply fwp_mono; [apply (copyInto_wp source target f node uid ns {[i := node]} {[source := f]}) with (expectedSize := expectedSize) (Q := λ _, Placed j (newFile uid (in_content node)))|..];
    try done; cbv beta.
  - by rewrite lookup_singleton_eq.
  - by rewrite lookup_singleton_eq.
  - intros s Hs. split_and!; [|done|by right|done..]. eapply Known_weaken; [exact Hs|done|apply map_empty_subseteq].
  - intros [] s Hs. cbn [fwp]. rewrite identity_statOf. by eapply HQ.
  - intros e s Hs. apply Hfail; [done|apply identity_statOf].
Qed.

Lemma Placed_Before m n fs : Placed m n fs → Before ∅ fs.
Proof.
  intros (HK & Hpf & Hm & _). eapply Known_sub; [exact HK|..|done].
  - apply insert_subseteq. by apply lookup_singleton_None.
  - destruct Hm as [[-> ->]|[-> Hij]]; [by rewrite insert_singleton_eq|]. apply insert_subseteq. by apply lookup_singleton_None.
Qed.

(** [copyPartFileExclusive] *)
Lemma copyPart_wp fs :
  Checked → Before ∅ fs → wp (copyPartFileExclusive fuel part final i expectedSize) (λ m s, ∃ n, Placed m n s) (λ _, Before ∅) fs.
Proof using Hfuel.
  intros HC HB. apply fwp_bind, fwp_catch. eapply wp_openRead; [exact HB|by rewrite lookup_singleton_eq|..].
  { intros e s Hs. by destruct (nodeErrorCode (NodeError e)) as [[]|]. }
  intros source s f Hs _ Hf. apply fwp_bind. eapply copyAttempt_wp; [done|exact Hf|exact Hs|..].
  - intros e open s1 Hs1. apply fwp_bind. eapply wp_close; [exact Hs1|done|]. intros s2 Hs2. rewrite delete_empty in Hs2. apply fwp_bind.
    destruct open as [target|]; cbn [fst snd]; [|done]. apply fwp_catch. eapply wp_close; [exact Hs2|done|]. intros s3 Hs3. by rewrite delete_empty in Hs3.
  - intros n s1 Hs1. pose proof Hs1 as [HK1 HP1]. apply fwp_bind. eapply (wp_close _ _ _ _ _ _ _ HK1).
    + intros e s2 HK2. by eapply (Placed_Before j n).
    + intros s2 HK2. rewrite delete_empty in HK2. by exists n.
Qed.

(** [linkPartFileExclusive]: the partial itself gets the final name. *)
Lemma linkPart_wp fs :
  Checked → Before ∅ fs →
  wp (linkPartFileExclusive part final i expectedSize) (λ m s, ∃ n, Placed m n s) (λ _, Before ∅) fs.
Proof.
  intros [Hkind Hsize] HB. apply fwp_bind. eapply wp_link; [exact HB|by rewrite lookup_singleton_eq|by right; left|by left|done|].
  intros s Hs Hf. apply lookup_singleton_None in Hf. apply fwp_bind.
  assert (Placed i node s) as HP. { split_and!; [|done|by left|done..]. by rewrite insert_singleton_eq. }
  assert (∀ s, Known (<[final := i]> {[part := i]}) {[i := node]} ∅ s → Placed i node s) as HPl.
  { intros s1 Hs1. split_and!; [|done|by left|done..]. by rewrite insert_singleton_eq. }
  eapply wp_lstat; [exact Hs|by intros e s1 Hs1; eapply Placed_Before, HPl|]. intros s1 id n HK1 _ Hn Hi.
  assert (id = i) as -> by (pose proof (lookup_weaken _ _ final i (lookup_insert_eq _ _ _) (kn_names _ _ _ _ HK1)); congruence).
  assert (n = node) as -> by (pose proof (lookup_weaken _ _ i node (lookup_insert_eq _ _ _) (kn_inodes _ _ _ _ HK1)); congruence).
  rewrite sameFile_statOf, sizeExpected_statOf by done. cbn [andb negb fwp]. rewrite identity_statOf. eauto.
Qed.

(** ** The checks *)

Lemma ioCheck_wp {poss guar} `{!Guarantee guar} ok message Q E ns nd hs fs :
  Known ns nd hs fs → (ok = true → Q () fs) → (∀ e s, Known ns nd hs s → E e s) → fwp undisturbed poss guar (ioCheck ok message) Q E fs.
Proof. intros HK HQ HE. unfold ioCheck, check. destruct ok; [by apply HQ|by apply (HE (Thrown _))]. Qed.

Lemma ioLift_wp {poss guar} `{!Guarantee guar} {A} (r : result A) (Q : A → Fs → Prop) E ns nd hs fs :
  Known ns nd hs fs → (∀ a, r = Ok a → Q a fs) → (∀ e s, Known ns nd hs s → E e s) → fwp undisturbed poss guar (ioLift r) Q E fs.
Proof. intros HK HQ HE. destruct r; [by apply HQ|by apply HE]. Qed.

Lemma wp_stat p Q E ns nd hs fs :
  Known ns nd hs fs → (∀ e s, Known ns nd hs s → E e s) → (∀ a s, Known ns nd hs s → Q a s) → wp (call (Stat p)) Q E fs.
Proof. intros HK HE HQ. apply (wp_read _ _ _ ns nd hs); [done|done|by intros; apply HE|]. intros t s a HK' _ _ _. by apply HQ. Qed.

Lemma assertPrivateOutputParent_wp dir ns nd hs fs :
  Known ns nd hs fs → wp (assertPrivateOutputParent dir) (λ _, Known ns nd hs) (λ _, Known ns nd hs) fs.
Proof.
  intros HK. unfold assertPrivateOutputParent. destruct win32; [done|]. case_bool_decide; [done|].
  apply fwp_bind. eapply wp_stat; [done|done|]. intros st s Hs. by eapply ioLift_wp.
Qed.

Lemma assertDirectory_wp dir d private ns nd hs fs :
  Known ns nd hs fs →
  wp (match d with Some d => assertDirectoryIdentity dir d private | None => Return () end) (λ _, Known ns nd hs) (λ _, Known ns nd hs) fs.
Proof.
  intros HK. destruct d as [d|]; [|done]. apply fwp_bind.
  assert (∀ s, Known ns nd hs s → wp (ioWhen private (linkStat ← call (Lstat dir);
     ioCheck (negb (isSymbolicLink linkStat)) "Output directory must not be a symbolic link in private mode."))
     (λ _, Known ns nd hs) (λ _, Known ns nd hs) s) as H1.
  { intros s Hs. destruct private; [|done]. apply fwp_bind. eapply wp_lstat; [done|done|]. intros s1 id n Hs1 _ _ _. by eapply ioCheck_wp. }
  eapply fwp_mono; [by apply H1| |done]. intros [] s Hs. apply fwp_bind. eapply wp_stat; [done|done|]. intros st s1 Hs1.
  apply fwp_bind. eapply ioCheck_wp; [done| |done]. intros _. destruct private; [|done]. apply fwp_bind.
  eapply ioLift_wp; [done| |done]. intros [] _. by apply assertPrivateOutputParent_wp.
Qed.

Lemma assertPartFile_wp identity fs :
  Before ∅ fs →
  wp (assertPartFileIdentity part identity expectedSize) (λ _ s, Before ∅ s ∧ identity = i ∧ Checked) (λ _, Before ∅) fs.
Proof using Hfuel.
  intros HB. apply fwp_bind. eapply wp_lstat; [exact HB|done|]. intros s id n HK _ Hn Hi.
  assert (id = i) as -> by (pose proof (lookup_weaken _ _ part i (lookup_insert_eq _ _ _) (kn_names _ _ _ _ HK)); congruence).
  assert (n = node) as -> by (pose proof (lookup_weaken _ _ i node (lookup_insert_eq _ _ _) (kn_inodes _ _ _ _ HK)); congruence).
  destruct (sameFileIdentity _ _ && sizeExpected _ _) eqn:Hc; cbn [negb]; [|done].
  apply andb_true_iff in Hc as [[<- Hk]%sameFile_identity Hs]. eapply ioLift_wp; [exact HK| |done].
  intros [] _. split_and!; [done..|split; [done|]]. intros m Hm. unfold sizeExpected in Hs. rewrite Hm in Hs. cbn [statOf st_size] in Hs. lia.
Qed.

Lemma placeFinal_wp identity d private fs :
  Before ∅ fs →
  wp (placeFinal fuel part final identity expectedSize d private)
    (λ m s, ∃ n, Placed m n s ∧ Checked ∧ identity = i) (λ _, Before ∅) fs.
Proof using Hfuel.
  intros HB. apply fwp_bind. eapply fwp_mono; [by apply assertDirectory_wp| |done]. intros [] s Hs. apply fwp_bind.
  eapply fwp_mono; [by apply assertPartFile_wp| |done]. intros [] s1 (Hs1 & -> & HC). apply fwp_catch.
  eapply fwp_mono; [by apply linkPart_wp|by intros m s2 [n Hn]; exists n|]. cbv beta. intros e s2 Hs2.
  destruct (shouldFallbackToExclusiveCopy e); [|done].
  eapply fwp_mono; [by apply copyPart_wp|by intros m s3 [n Hn]; exists n|done].
Qed.

(** ** The whole *)

Lemma pair_comm (p q : jsstr) (x y : FileIdentity) : p ≠ q → <[p := x]> {[q := y]} =@{gmap jsstr FileIdentity} <[q := y]> {[p := x]}.
Proof. intros Hpq. unfold singletonM, map_singleton. by rewrite insert_insert_ne. Qed.

(** The partial is still a name of its file, or one in quarantine is. *)
Definition Kept (fs : Fs) : Prop :=
  ∃ p, (p = part ∨ quarantine p) ∧ names fs !! p = Some i ∧ inodes fs !! i = Some node.

Lemma Known_kept p hs fs : (p = part ∨ quarantine p) → Known {[p := i]} {[i := node]} hs fs → Kept fs.
Proof.
  intros Hp [K1 K2 _ _ _]. exists p. split_and!; [done|..]; (eapply lookup_weaken; [by rewrite lookup_singleton_eq|done]).
Qed.

Lemma Before_kept hs fs : Before hs fs → Kept fs.
Proof. intros HB. eapply (Known_kept part); [by left|exact HB]. Qed.

(** The final name is a file with the bytes of the partial. *)
Definition Published (m : FileIdentity) (fs : Fs) : Prop :=
  ours m ∧ names fs !! final = Some m ∧
  ∃ n, inodes fs !! m = Some n ∧ in_kind n = RegularFile ∧ in_content n = in_content node.

(** Confirming fails with the partial, or its file in quarantine, and the final name. *)
Lemma confirmFinal_wp m n d private fs :
  Placed m n fs →
  wp (confirmFinal part final i m expectedSize d private)
    (λ m' s, m' = m ∧ Published m s)
    (λ _ s, ∃ p, (p = part ∨ quarantine p) ∧ p ≠ final ∧ Known (<[final := m]> {[p := i]}) (<[m := n]> {[i := node]}) ∅ s) fs.
Proof.
  intros (HK & Hpf & Hm & Hk & Hc). assert (ours m) as Ho by (destruct Hm as [[-> _]|[-> _]]; [left|right]; done).
  assert (∀ s, Known (<[final := m]> {[part := i]}) (<[m := n]> {[i := node]}) ∅ s →
    ∃ p, (p = part ∨ quarantine p) ∧ p ≠ final ∧ Known (<[final := m]> {[p := i]}) (<[m := n]> {[i := node]}) ∅ s) as HE.
  { intros s Hs. exists part. split_and!; [by left|done..]. }
  apply fwp_bind. eapply fwp_mono; [by eapply assertDirectory_wp| |by intros ? ?; apply HE]. intros [] s1 Hs1. cbv beta in Hs1.
  apply fwp_bind. apply fwp_bind. eapply wp_lstat; [exact Hs1|by intros ? ?; apply HE|]. intros s2 id x Hs2 _ _ _.
  eapply ioCheck_wp; [exact Hs2| |by intros ? ?; apply HE]. intros _. apply fwp_bind.
  eapply fwp_mono; [apply (removeKnown part i {[final := m]} (<[m := n]> {[i := node]}) ∅)|..]; [by left|by left|by apply lookup_singleton_None| |..]; cbv beta.
  - by rewrite pair_comm.
  - intros [] s3 Hs3. cbn [fwp]. split; [done|]. split; [done|]. split.
    + eapply lookup_weaken; [|apply Hs3]. by rewrite lookup_singleton_eq.
    + exists n. split_and!; [|done..]. eapply lookup_weaken; [|apply Hs3]. by rewrite lookup_insert_eq.
  - intros e s3 (p & Hp & Hnp & Hs3). apply lookup_singleton_None in Hnp. exists p.
    rewrite pair_comm by done. split_and!; [|done..]. destruct Hp as [->|[Hq _]]; [by left|by right].
Qed.

End Place.

Lemma publishPath_id v label p : publishPathInput (JStr v) label = Ok p → p = v.
Proof. unfold publishPathInput. rewrite !check_bind_ok. by intros (_ & _ & _ & [= ->]). Qed.

(** From the input checks on *)
Lemma publishBody_wp `{Platform} node fuel size identity directory private fs :
  (length (in_content node) < fuel)%nat → Before node ∅ fs →
  wp (finalIdentity ← placeFinal fuel part final identity size directory private;
      iocatch (confirmFinal part final identity finalIdentity size directory private)
        (λ e, iocatch (removePathIfIdentity final finalIdentity) (λ _, Return ());; Raise e))
    (Published node) (λ _, Kept node) fs.
Proof.
  intros Hfuel Hs. apply fwp_bind. eapply fwp_mono; [by eapply (placeFinal_wp node)| |by intros ? ?; apply Before_kept].
  intros m s1 (n & HP & HC & ->). apply fwp_catch. eapply fwp_mono; [by eapply (confirmFinal_wp node)|by intros ? ? [-> ?]|].
  cbv beta. intros e s2 (p & Hp & Hpf & Hs2). apply fwp_bind, fwp_catch. destruct HP as (_ & _ & Hm & _).
  assert (∀ s, Known {[p := i]} (<[m := n]> {[i := node]}) ∅ s → Kept node s) as HKp.
  { intros s3 Hs3. eapply (Known_kept node p); [done|]. eapply Known_sub; [exact Hs3|done| |done].
    destruct Hm as [[-> ->]|[-> Hij]]; [by rewrite insert_singleton_eq|]. apply insert_subseteq. by apply lookup_singleton_None. }
  eapply fwp_mono; [apply (removeKnown final m {[p := i]} (<[m := n]> {[i := node]}) ∅); [by right| |by apply lookup_singleton_None|done]|..]; cbv beta.
  - destruct Hm as [[-> _]|[-> _]]; [left|right]; done.
  - intros [] s3 Hs3. by apply HKp.
  - intros e1 s3 Hs3%Remains_Known. by apply HKp.
Qed.

Lemma publishPartFile_wp `{Platform} node fuel expectedPart expectedSize expectedDirectory private fs :
  (length (in_content node) < fuel)%nat → Before node ∅ fs →
  wp (publishPartFile fuel (JStr part) (JStr final) expectedPart expectedSize expectedDirectory private)
    (Published node) (λ _, Kept node) fs.
Proof.
  intros Hfuel HB. pose proof (λ (e : Failure) s, Before_kept node ∅ s) as HK.
  unfold publishPartFile. apply fwp_bind. eapply ioLift_wp; [exact HB| |exact HK]. intros p1 ->%publishPath_id.
  apply fwp_bind. eapply ioLift_wp; [exact HB| |exact HK]. intros p2 ->%publishPath_id.
  apply fwp_bind. eapply ioLift_wp; [exact HB| |exact HK]. intros expected _.
  apply fwp_bind. eapply ioLift_wp; [exact HB| |exact HK]. intros size _.
  apply fwp_bind. eapply ioLift_wp; [exact HB| |exact HK]. intros directory _. apply fwp_bind.
  destruct expected as [identity|]; [by apply publishBody_wp|]. apply fwp_bind. eapply wp_lstat; [exact HB|by intros e; apply (HK (NodeError e))|].
  intros s id n Hs _ _ _. apply fwp_bind. eapply ioCheck_wp; [exact Hs| |exact HK]. intros _. by apply publishBody_wp.
Qed.

(** ** Digests of files *)

Section Digest.
Context `{Crypto}.
Variables (h : nat) (f : OpenFile) (id : FileIdentity) (node : Inode) (ns : gmap jsstr FileIdentity) (nd : gmap FileIdentity Inode) (hs : gmap nat OpenFile).
Context {poss : ∀ B, Sys B → Turn → Fs → Prop} {guar} `{!Guarantee guar} (Hh : hs !! h = Some f) (Hf : of_inode f = id) (Hnode : nd !! id = Some node).

Lemma digestLoop_wp fuel pos size (Q : list Z → Fs → Prop) (E : Failure → Fs → Prop) fs :
  (length (in_content node) - pos < fuel)%nat → (pos <= length (in_content node))%nat →
  Known ns nd hs fs → (∀ e s, Known ns nd hs s → E e s) →
  (∀ s, Known ns nd hs s → Q (in_content node) s) →
  fwp undisturbed poss guar (digestLoop fuel h size (take pos (in_content node))) Q E fs.
Proof using Guarantee0 Hnode Hh Hf.
  revert pos fs. induction fuel as [|fuel IH]; intros pos fs Hfuel Hpos HK HE HQ; [lia|]. cbn [digestLoop].
  rewrite length_take_le by done. apply fwp_bind. eapply (wp_handleRead h f id node); [done..|by intros; apply HE|]. intros s k HK'. rewrite Nat2Z.id.
  set (data := take _ _). assert (length data = Nat.min (Nat.min (Z.to_nat STREAM_CHUNK_BYTES) (S k)) (length (in_content node) - pos)) as Hd.
  { subst data. by rewrite length_take, length_drop. }
  assert (0 < Z.to_nat STREAM_CHUNK_BYTES)%nat as Hc by (unfold STREAM_CHUNK_BYTES; lia).
  destruct (Z.eqb_spec (Z.of_nat (length data)) 0).
  { assert (pos = length (in_content node)) as -> by lia. rewrite firstn_all. by apply HQ. }
  apply fwp_bind. eapply ioCheck_wp; [done| |done]. intros _.
  rewrite (take_more pos _ (in_content node) : _ ++ data = take (pos + length data) _). apply IH; [lia..|done|done|done].
Qed.
End Digest.

(** The named file is what [digestFilePath] is asked for. *)
Definition digestAccepts (id : FileIdentity) (node : Inode) (expectedIdentity : option FileIdentity) (expectedSize : option Z) : Prop :=
  in_kind node = RegularFile ∧ (∀ e, expectedIdentity = Some e → e = id) ∧ (∀ n, expectedSize = Some n → n = Z.of_nat (length (in_content node))).

Lemma digestFilePath_wp `{Crypto} {poss guar} `{!Guarantee guar} fuel path id node expectedIdentity expectedSize fs :
  (length (in_content node) < fuel)%nat → Known {[path := id]} {[id := node]} ∅ fs →
  fwp undisturbed poss guar (digestFilePath fuel path expectedIdentity expectedSize)
    (λ hex _, hex = digestHex (in_content node) ∧ digestAccepts id node expectedIdentity expectedSize) (λ _ _, True) fs.
Proof.
  intros Hfuel HK. apply fwp_bind, fwp_bind. eapply wp_lstat; [exact HK|done|]. intros s id' n HK1 _ Hn Hi.
  assert (id' = id) as -> by (pose proof (lookup_weaken _ _ path id (lookup_insert_eq _ _ _) (kn_names _ _ _ _ HK1)); congruence).
  assert (n = node) as -> by (pose proof (lookup_weaken _ _ id node (lookup_insert_eq _ _ _) (kn_inodes _ _ _ _ HK1)); congruence).
  apply fwp_bind. eapply ioCheck_wp; [exact HK1| |done]. intros Hk%bool_decide_eq_true. rewrite identity_statOf. cbn [fwp].
  apply fwp_bind. eapply ioCheck_wp; [exact HK1| |done]. intros Hid. apply fwp_bind.
  eapply wp_openRead; [exact HK1|by rewrite lookup_singleton_eq|done|]. intros h s2 f HK2 _ Hf. apply fwp_finally.
  assert (∀ s (P : () → Fs → Prop), Known {[path := id]} {[id := node]} (<[h := f]> ∅) s → (∀ s, P () s) →
    fwp undisturbed poss guar (call (HandleClose h)) P (λ _ _, True) s) as Hclose.
  { intros s3 P HK3 HP. eapply wp_close; [exact HK3|done|]. intros. apply HP. }
  apply fwp_bind. eapply (wp_handleStat h f id node); [exact HK2|by rewrite lookup_insert_eq|done|by rewrite lookup_singleton_eq|by intros; eapply Hclose|].
  intros s3 HK3. apply fwp_bind. eapply ioCheck_wp; [exact HK3| |by intros; eapply Hclose]. intros _.
  apply fwp_bind. eapply ioCheck_wp; [exact HK3| |by intros; eapply Hclose]. intros Hs. apply fwp_bind.
  change (@nil Z) with (take 0 (in_content node)).
  eapply (digestLoop_wp h f id node {[path := id]} {[id := node]} (<[h := f]> ∅)); [by rewrite lookup_insert_eq|done|by rewrite lookup_singleton_eq| |lia|exact HK3|by intros; eapply Hclose|].
  { destruct expectedSize as [m|]; [|lia]. unfold sizeExpected in Hs. cbn [statOf st_size] in Hs. lia. }
  intros s4 HK4. apply fwp_bind. eapply ioCheck_wp; [exact HK4| |by intros; eapply Hclose]. intros _. eapply Hclose; [exact HK4|].
  intros s5. split; [done|]. split_and!; [done|..].
  - intros e ->. unfold sameIdentity in Hid. apply andb_prop in Hid as [Hd%Z.eqb_eq Hi'%Z.eqb_eq].
    destruct id as [d1 n1], e as [d2 n2]. cbn [dev ino] in *. congruence.
  - intros m ->. unfold sizeExpected in Hs. cbn [statOf st_size] in Hs. lia.
Qed.

End Names.

(** ** Publishing keeps the partial or makes the file *)

Lemma publish_outcome `{Platform, Process} part final i j node fuel expectedPart expectedSize expectedDirectory private env n fs :
  names fs !! part = Some i → inodes fs !! i = Some node → (length (in_content node) < fuel)%nat →
  let program := publishPartFile fuel (JStr part) (JStr final) expectedPart expectedSize expectedDirectory private in
  permitted (undisturbed part final i j) (fresh part final j) env n program fs →
  ∃ out fs' steps, run env n program fs = Some (out, fs', steps) ∧ Forall (λ s, respects part final i j s.1 s.2) steps ∧
    match out with inl m => Published final i j node m fs' | inr _ => Kept part final i node fs' end.
Proof.
  intros Hp Hi Hfuel program Hperm. eapply fwp_run; [|done]. apply publishPartFile_wp; [done|]. by apply Known_single.
Qed.
