(* ===== verification/PublishRun.v ===== *)
(** * PublishRun: a publish on a quiet file system succeeds.

    Nobody interferes and no call fails, except that the file system may have
    no hard links: then the final name is exactly what the partial was, by a
    link or by a copy, the partial is gone and every handle is closed.  The
    witnesses run the programs. *)
From S2P Require Import Prelude.
From S2P Require Import JsText.
From S2P Require Import JsValue.
From S2P Require Import FileStat.
From S2P Require Import Crypto.
From S2P Require Import Pake.
From S2P Require Import FileSystem.
From S2P Require Import ReceiverState.
From S2P Require Import Receiver.
From S2P Require Import Publish.
From S2P Require Import PublishProps.
#[local] Open Scope Z_scope.

(** ** Paths that can be looked up stay so *)

Lemma followPath_mono fuel fs fs' p r :
  names fs ⊆ names fs' → inodes fs ⊆ inodes fs' → followPath fuel fs p = inr r → followPath fuel fs' p = inr r.
Proof.
  intros Hn Hi. revert p. induction fuel as [|fuel IH]; intros p; cbn [followPath]; [done|]. unfold lookupPath.
  destruct (names fs !! p) as [id|] eqn:E1; [|done]. destruct (inodes fs !! id) as [n|] eqn:E2; [|done].
  rewrite (lookup_weaken _ _ _ _ E1 Hn), (lookup_weaken _ _ _ _ E2 Hi). case_bool_decide; [apply IH|done].
Qed.

Section Quiet.
Context `{Platform, Process}.
Variables (part final : jsstr) (i j : FileIdentity).

Definition linkFails (e : Errno) : Prop := e ∈ LINK_FALLBACK_ERROR_CODES.

(** No call fails but a link. *)
Definition quiet (B : Type) (c : Sys B) (t : Turn) (fs : Fs) : Prop :=
  match c with
  | Link _ _ => ∀ e, failure t = Some e → linkFails e
  | RandomBytes _ => failure t = None ∧ unusedName final part t fs ∧ quarantinePath part (tokenOf t) ≠ part
  | OpenNew _ => failure t = None ∧ newInode t = j ∧ inodes fs !! j = None ∧ handles fs !! newHandle t = None
  | OpenNoFollow _ _ => failure t = None ∧ handles fs !! newHandle t = None
  | _ => failure t = None
  end.

#[local] Abbreviation qwp m Q := (fwp (=) quiet (λ _ _, True) m Q (λ _ _, False)).

Lemma quiet_call {A} (c : Sys A) (Q : A → Fs → Prop) E fs :
  (∀ t, quiet A c t fs → failure t = None) →
  (∀ t, quiet A c t fs → match perform c t fs with (inl a, s) => Q a s | _ => False end) →
  fwp (=) quiet (λ _ _, True) (call c) Q E fs.
Proof.
  intros Hf Hd t fs1 <- Hq. split; [done|]. unfold turn. rewrite (Hf t Hq). specialize (Hd t Hq).
  by destruct (perform c t fs) as [[a|e] s].
Qed.

Lemma quiet_lstat p id n (Q : Stats → Fs → Prop) E fs :
  names fs !! p = Some id → inodes fs !! id = Some n → Q (statOf fs id n) fs → fwp (=) quiet (λ _ _, True) (call (Lstat p)) Q E fs.
Proof. intros Hp Hi HQ. apply quiet_call; [by intros t|]. intros t _. cbn [perform]. unfold lookupPath. by rewrite Hp, Hi. Qed.

Lemma quiet_stat p id n (Q : Stats → Fs → Prop) E fs :
  followPath MAX_SYMLINKS fs p = inr (id, n) → Q (statOf fs id n) fs → fwp (=) quiet (λ _ _, True) (call (Stat p)) Q E fs.
Proof. intros Hp HQ. apply quiet_call; [by intros t|]. intros t _. cbn [perform]. by rewrite Hp. Qed.

Lemma quiet_handleStat h f n (Q : Stats → Fs → Prop) E fs :
  handles fs !! h = Some f → inodes fs !! of_inode f = Some n → Q (statOf fs (of_inode f) n) fs →
  fwp (=) quiet (λ _ _, True) (call (HandleStat h)) Q E fs.
Proof. intros Hh Hi HQ. apply quiet_call; [by intros t|]. intros t _. cbn [perform]. unfold withHandle. by rewrite Hh, Hi. Qed.

Lemma quiet_close h (Q : () → Fs → Prop) E fs :
  Q () (set_handles (delete h) fs) → fwp (=) quiet (λ _ _, True) (call (HandleClose h)) Q E fs.
Proof. intros HQ. apply quiet_call; [by intros t|]. by intros t _. Qed.

(** ** Removing the partial *)

Lemma quiet_remove n (Q : () → Fs → Prop) fs :
  names fs !! part = Some i → inodes fs !! i = Some n → in_kind n = RegularFile →
  Q () (set_names (delete part) fs) → qwp (removePathIfIdentity part i) Q fs.
Proof.
  intros Hp Hi Hk HQ. unfold removePathIfIdentity, quarantineRemovePathIfIdentity, MAX_CLEANUP_QUARANTINE_ATTEMPTS. cbn [quarantineLoop].
  apply fwp_bind, fwp_bind. apply quiet_call; [by intros t []|]. intros t (_ & [Hu _] & Hne). change (randomBytes t _) with (tokenOf t).
  cbn [perform fwp]. change (joinPath _ _) with (quarantinePath part (tokenOf t)). set (q := quarantinePath part (tokenOf t)) in *.
  apply fwp_catch, fwp_bind. eapply quiet_lstat; [done..|]. rewrite sameFile_statOf by done. cbn [negb].
  apply fwp_bind. apply quiet_call; [by intros t'|]. intros t' _. cbn [perform]. unfold lookupPath. rewrite Hp, Hi.
  apply fwp_bind. eapply (quiet_lstat q i n); [apply lookup_insert_eq|done|]. rewrite sameFile_statOf by done. cbn [negb].
  apply quiet_call; [by intros t''|]. intros t'' _. cbn [perform].
  replace (set_names _ (set_names _ fs)) with (set_names (delete part) fs); [done|]. unfold set_names. cbn [names]. f_equal.
  rewrite delete_insert_id; [done|]. by rewrite lookup_delete_ne.
Qed.

(** ** The output directory *)

(** What [assertDirectoryIdentity] wants of the directory *)
Record DirectoryOk (dir : jsstr) (d : FileIdentity) (private : bool) (fs : Fs) : Prop := {
  do_node : ∃ n, followPath MAX_SYMLINKS fs dir = inr (d, n) ∧ in_kind n = Directory ∧
    (private = true → assertPrivateOutputDirStat (statOf fs d n) = Ok ());
  do_link : private = true → ∃ id n, names fs !! dir = Some id ∧ inodes fs !! id = Some n ∧ in_kind n ≠ SymbolicLink;
  do_parent : private = true → win32 = false → dirname dir ≠ dir →
    ∃ id n, followPath MAX_SYMLINKS fs (dirname dir) = inr (id, n) ∧ assertPrivateOutputParentStat (statOf fs id n) = Ok ()
}.

Lemma DirectoryOk_mono dir d private fs fs' :
  names fs ⊆ names fs' → inodes fs ⊆ inodes fs' → DirectoryOk dir d private fs → DirectoryOk dir d private fs'.
Proof.
  intros Hn Hi [(n & Hf & Hk & Hp) Hl Hq]. split.
  - exists n. split_and!; [by eapply followPath_mono|done|exact Hp].
  - intros Hpr. destruct (Hl Hpr) as (id & m & H1 & H2 & H3). exists id, m. split_and!; [by eapply lookup_weaken..|done].
  - intros Hpr Hw Hd. destruct (Hq Hpr Hw Hd) as (id & m & H1 & H2). exists id, m. split; [by eapply followPath_mono|exact H2].
Qed.

Definition directoryFine (dir : jsstr) (d : option FileIdentity) (private : bool) (fs : Fs) : Prop :=
  match d with Some d => DirectoryOk dir d private fs | None => True end.

Lemma quiet_directory dir d private (Q : () → Fs → Prop) fs :
  directoryFine dir d private fs → Q () fs → qwp (match d with Some d => assertDirectoryIdentity dir d private | None => Return () end) Q fs.
Proof.
  destruct d as [d|]; [|done]. intros [(n & Hf & Hk & Hp) Hl Hq] HQ. apply fwp_bind.
  assert (∀ Q : () → Fs → Prop, Q () fs → qwp (ioWhen private (linkStat ← call (Lstat dir);
     ioCheck (negb (isSymbolicLink linkStat)) "Output directory must not be a symbolic link in private mode.")) Q fs) as H1.
  { intros Q' HQ'. destruct private; [|done]. destruct (Hl eq_refl) as (id & m & E1 & E2 & E3). apply fwp_bind.
    eapply quiet_lstat; [done..|]. apply fwp_lift. unfold isSymbolicLink. cbn [statOf st_kind].
    rewrite (bool_decide_eq_false_2 _ E3). done. }
  apply H1. apply fwp_bind. eapply quiet_stat; [done|]. apply fwp_bind, fwp_lift. unfold isDirectory. rewrite identity_statOf.
  cbn [statOf st_kind]. rewrite (bool_decide_eq_true_2 _ Hk). unfold sameIdentity. rewrite !Z.eqb_refl. cbn [andb check].
  destruct private; [|exact HQ]. apply fwp_bind, fwp_lift. rewrite Hp by done. unfold assertPrivateOutputParent.
  destruct win32 eqn:Hw; [exact HQ|]. case_bool_decide as Hd; [exact HQ|]. destruct (Hq eq_refl eq_refl Hd) as (id & m & E1 & E2).
  apply fwp_bind. eapply quiet_stat; [done|]. apply fwp_lift. by rewrite E2.
Qed.

(** ** Copying *)

Section QuietCopy.
Variables (source target : nat) (uid : Z) (node : Inode) (fs : Fs) (expectedSize : option Z).
Context (Hnode : inodes fs !! i = Some node) (Hij : i ≠ j) (Hne : source ≠ target).
Context (Hsize : ∀ n, expectedSize = Some n → n = Z.of_nat (length (in_content node))).

Definition reader : OpenFile := {| of_inode := i; of_position := 0; of_writable := false |}.

(** While the target has the bytes [d] *)
Definition midCopy (d : list Z) : Fs :=
  {| names := <[final := j]> (names fs); inodes := <[j := newFile uid d]> (inodes fs);
     handles := <[target := writer j d]> (<[source := reader]> (handles fs)) |}.

Lemma quiet_read len pos (Q : list Z → Fs → Prop) d :
  (∀ k, Q (take (Nat.min (Z.to_nat len) (S k)) (drop (Z.to_nat pos) (in_content node))) (midCopy d)) →
  qwp (call (HandleRead source len pos)) Q (midCopy d).
Proof using Hnode Hne Hij.
  intros HQ. apply quiet_call; [by intros t|]. intros t _. cbn [perform]. unfold withHandle. cbn [midCopy handles inodes].
  rewrite lookup_insert_ne, lookup_insert_eq by done. cbn [reader of_inode]. rewrite lookup_insert_ne, Hnode by done. apply HQ.
Qed.

Lemma quiet_writeAll fuel rest d (Q : () → Fs → Prop) :
  (length rest <= fuel)%nat → Q () (midCopy (d ++ rest)) → qwp (writeAllLoop fuel target rest) Q (midCopy d).
Proof using Hne.
  revert rest d. induction fuel as [|fuel IH]; intros rest d Hl HQ; (destruct rest as [|b rest]; cbn [writeAllLoop];
    [by rewrite app_nil_r in HQ|cbn [length] in Hl; try lia]).
  apply fwp_bind. apply quiet_call; [by intros t|]. intros t _. cbn [perform]. unfold withHandle. cbn [midCopy handles inodes].
  rewrite lookup_insert_eq. cbn [writer of_inode of_writable of_position]. rewrite lookup_insert_eq. cbn [newFile in_kind in_content in_target in_mode in_uid].
  set (part' := take (S (amount t)) (b :: rest)). assert (0 < length part')%nat as Hp by (subst part'; rewrite length_take; cbn [length]; lia).
  rewrite (proj2 (Z.leb_gt _ _)) by lia. rewrite !Nat2Z.id, writeAt_end.
  replace (set_handles _ _) with (midCopy (d ++ part')).
  { apply IH; [rewrite length_drop; cbn [length]; lia|]. subst part'. by rewrite <-app_assoc, take_part. }
  unfold midCopy, set_handles, set_inodes. cbn [names inodes handles]. rewrite !insert_insert_eq. unfold writer.
  by rewrite length_app, Nat2Z.inj_add.
Qed.

Lemma quiet_copyLoop fuel pos (Q : Z → Fs → Prop) :
  (length (in_content node) - pos < fuel)%nat → (pos <= length (in_content node))%nat →
  Q (Z.of_nat (length (in_content node))) (midCopy (in_content node)) →
  qwp (copyLoop fuel source target expectedSize (Z.of_nat pos)) Q (midCopy (take pos (in_content node))).
Proof using Hsize Hnode Hne Hij.
  revert pos. induction fuel as [|fuel IH]; intros pos Hfuel Hpos HQ; [lia|]. cbn [copyLoop].
  set (len := match expectedSize with Some _ => _ | None => _ end).
  assert (0 < len ∨ pos = length (in_content node)) as Hlen.
  { subst len. destruct expectedSize as [n|]; [|by left]. rewrite (Hsize n) by done. unfold COPY_BUFFER_BYTES. lia. }
  assert (pos = length (in_content node) → Q (Z.of_nat pos) (midCopy (take pos (in_content node)))) as Hend.
  { intros ->. by rewrite firstn_all. }
  destruct (Z.leb_spec len 0); [apply Hend; lia|]. apply fwp_bind, quiet_read. intros k. rewrite Nat2Z.id. set (data := take _ _).
  assert (length data = Nat.min (Nat.min (Z.to_nat len) (S k)) (length (in_content node) - pos)) as Hd.
  { subst data. by rewrite length_take, length_drop. }
  destruct (Z.eqb_spec (Z.of_nat (length data)) 0); [apply Hend; lia|].
  apply fwp_bind, quiet_writeAll; [done|]. rewrite <-Nat2Z.inj_add. subst data. rewrite take_more. apply IH; [lia..|done].
Qed.

Lemma quiet_copyInto fuel (Q : () → Fs → Prop) :
  in_kind node = RegularFile → (length (in_content node) < fuel)%nat →
  Q () (set_handles (delete target) (midCopy (in_content node))) →
  qwp (copyInto fuel source target i expectedSize) Q (midCopy []).
Proof using Hsize Hnode Hne Hij.
  intros Hk Hfuel HQ. apply fwp_bind, fwp_bind. change (@nil Z) with (take 0 (in_content node)).
  apply (quiet_copyLoop _ 0); [destruct expectedSize as [n|]; [rewrite (Hsize n) by done|]; lia|lia|].
  assert (∀ n s id, in_content n = in_content node → sizeExpected (statOf s id n) expectedSize = true) as Hs.
  { intros n s id Hn. unfold sizeExpected. destruct expectedSize as [m|]; [|done]. cbn [statOf st_size]. rewrite Hn, (Hsize m) by done. apply Z.eqb_refl. }
  assert (qwp (afterCopySourceStat ← call (HandleStat source);
    (if negb (sameFileIdentity afterCopySourceStat i) then partChanged else Return ());;
    (if negb (sizeExpected afterCopySourceStat expectedSize) then partChanged else Return ());;
    afterCopyTargetStat ← call (HandleStat target);
    (if negb (sizeExpected afterCopyTargetStat expectedSize) then partChanged else Return ());;
    call (HandleClose target)) Q (midCopy (in_content node))) as Hrest.
  { apply fwp_bind. eapply (quiet_handleStat source reader node).
    { cbn [midCopy handles]. by rewrite lookup_insert_ne, lookup_insert_eq by done. }
    { cbn [midCopy inodes reader of_inode]. by rewrite lookup_insert_ne. }
    rewrite sameFile_statOf by done. cbn [negb]. apply fwp_bind. cbn [fwp]. rewrite Hs by done. apply fwp_bind. cbn [fwp negb].
    apply fwp_bind. eapply (quiet_handleStat target); [apply lookup_insert_eq|apply lookup_insert_eq|]. rewrite Hs by done.
    apply fwp_bind. cbn [fwp negb]. by apply quiet_close. }
  destruct expectedSize as [n|] eqn:E; [|exact Hrest]. rewrite <-(Hsize n), Z.eqb_refl by done. cbn [negb].
  apply fwp_bind, quiet_read. intros k. rewrite drop_ge, take_nil by (rewrite (Hsize n) by done; lia). exact Hrest.
Qed.

End QuietCopy.

(** The file system when the final name has been placed, by a link or a copy *)
Definition linked (fs : Fs) : Fs := set_names <[final := i]> fs.
Definition copied (uid : Z) (node : Inode) (fs : Fs) : Fs :=
  {| names := <[final := j]> (names fs); inodes := <[j := newFile uid (in_content node)]> (inodes fs); handles := handles fs |}.

Section QuietPublish.
Variables (node : Inode) (fuel : nat) (expectedSize : option Z) (fs : Fs).
Context (Hpart : names fs !! part = Some i) (Hnode : inodes fs !! i = Some node) (Hkind : in_kind node = RegularFile).
Context (Hfinal : names fs !! final = None) (Hfuel : (length (in_content node) < fuel)%nat).
Context (Hsize : ∀ n, expectedSize = Some n → n = Z.of_nat (length (in_content node))).

Lemma quiet_size s : sizeExpected (statOf s i node) expectedSize = true.
Proof using Hsize Hkind. apply sizeExpected_statOf. by split. Qed.

Lemma quiet_copyPart (Q : FileIdentity → Fs → Prop) :
  (∀ uid, i ≠ j → inodes fs !! j = None → Q j (copied uid node fs)) →
  qwp (copyPartFileExclusive fuel part final i expectedSize) Q fs.
Proof using Hsize Hpart Hnode Hkind Hfuel Hfinal.
  intros HQ. apply fwp_bind, fwp_catch. apply quiet_call; [by intros t []|]. intros t [_ Hs]. cbn [perform]. unfold lookupPath.
  rewrite Hpart, Hnode, bool_decide_eq_false_2 by congruence. rewrite bool_decide_eq_false_2 by (by apply eq_None_not_Some).
  set (source := newHandle t) in *. change {| of_inode := i; of_position := 0; of_writable := false |} with reader.
  apply fwp_bind, fwp_bind, fwp_try, fwp_bind. eapply (quiet_handleStat source reader); [apply lookup_insert_eq|done|].
  rewrite sameFile_statOf by done. cbn [negb]. apply fwp_bind. cbn [fwp reader of_inode]. rewrite quiet_size.
  apply fwp_bind. cbn [fwp negb]. apply quiet_call; [by intros t' []|]. intros t' (_ & Hj & Hjn & Ht). cbn [perform set_handles names inodes handles] in *.
  rewrite Hj, Hfinal, Hjn, Ht, !bool_decide_eq_false_2 by (by intros []). cbn [orb].
  set (target := newHandle t') in *. apply lookup_insert_None in Ht as [Ht Hne].
  assert (i ≠ j) as Hij by congruence. apply fwp_bind, fwp_try.
  change (set_handles <[target := _]> _) with (midCopy source target (owner t') fs []).
  eapply (quiet_handleStat target); [apply lookup_insert_eq|apply lookup_insert_eq|]. apply fwp_bind, fwp_try, fwp_bind.
  eapply fwp_mono; [apply (quiet_copyInto source target (owner t') node fs expectedSize) 
    with (Q := λ _, eq (set_handles (delete target) (midCopy source target (owner t') fs (in_content node)))); done| |done].
  intros [] s <-. cbn [fwp]. rewrite identity_statOf. cbn [writer of_inode fst snd].
  apply fwp_bind, quiet_close, fwp_bind. cbn [fwp].
  replace (set_handles _ _) with (copied (owner t') node fs); [by apply HQ|]. unfold copied, midCopy, set_handles. cbn [names inodes handles]. f_equal.
  rewrite delete_insert_id, delete_insert_id; [done|done|]. by rewrite lookup_insert_ne.
Qed.

(** [linkPartFileExclusive], or the copy where it fails *)
Lemma quiet_place d private (Q : FileIdentity → Fs → Prop) :
  directoryFine (dirname final) d private fs → assertPrivatePartialStat (statOf fs i node) = Ok () →
  Q i (linked fs) → (∀ uid, i ≠ j → inodes fs !! j = None → Q j (copied uid node fs)) →
  qwp (placeFinal fuel part final i expectedSize d private) Q fs.
Proof using Hsize Hpart Hnode Hkind Hfuel Hfinal.
  intros Hd Hpriv HL HC. apply fwp_bind, quiet_directory; [done|]. apply fwp_bind, fwp_bind. eapply quiet_lstat; [done..|].
  rewrite sameFile_statOf, quiet_size by done. cbn [andb negb]. apply fwp_lift. rewrite Hpriv. apply fwp_catch, fwp_bind.
  intros t fs1 <- Hq. split; [done|]. unfold turn. destruct (failure t) as [e|] eqn:Ef; cbn [fst snd].
  { cbn [fwp]. unfold shouldFallbackToExclusiveCopy. cbn [nodeErrorCode]. rewrite bool_decide_eq_true_2 by (exact (Hq e Ef)).
    by apply quiet_copyPart. }
  cbn [perform]. unfold lookupPath. rewrite Hpart, Hnode, Hfinal. cbn [fst snd fwp].
  apply fwp_bind. eapply (quiet_lstat final i node); [apply lookup_insert_eq|done|].
  rewrite sameFile_statOf, quiet_size by done. cbn [andb negb fwp]. by rewrite identity_statOf.
Qed.

Lemma quiet_confirm m n d private s (Q : FileIdentity → Fs → Prop) :
  names s = <[final := m]> (names fs) → inodes s !! i = Some node → inodes s !! m = Some n →
  in_kind n = RegularFile → in_content n = in_content node →
  directoryFine (dirname final) d private s → Q m (set_names (delete part) s) →
  qwp (confirmFinal part final i m expectedSize d private) Q s.
Proof using Hsize Hpart Hkind Hfinal.
  intros Hn Hi Hm Hk Hc Hd HQ. apply fwp_bind, quiet_directory; [done|]. apply fwp_bind, fwp_bind.
  eapply (quiet_lstat final m n); [rewrite Hn; apply lookup_insert_eq|done|]. rewrite sameFile_statOf by done.
  assert (sizeExpected (statOf s m n) expectedSize = true) as ->.
  { unfold sizeExpected. destruct expectedSize as [x|]; [|done]. cbn [statOf st_size]. rewrite Hc, (Hsize x) by done. apply Z.eqb_refl. }
  apply fwp_bind. eapply quiet_remove; [|done..|done]. rewrite Hn, lookup_insert_ne; [done|congruence].
Qed.

End QuietPublish.

(** The arguments are what the receiver gives. *)
Record PublishArguments (node : Inode) (expectedPart expectedSize expectedDirectory : option jsval) (private : bool) (fs : Fs) : Prop := {
  ar_part : publishPathInput (JStr part) "Partial" = Ok part;
  ar_final : publishPathInput (JStr final) "Final" = Ok final;
  ar_identity v : expectedPart = Some v → fileIdentityInput v = Ok i;
  ar_size v : expectedSize = Some v → publishExpectedSizeInput v = Ok (Z.of_nat (length (in_content node)));
  ar_directory v : expectedDirectory = Some v → ∃ d, fileIdentityInput v = Ok d ∧ DirectoryOk (dirname final) d private fs
}.

(** What a publish of [part] as [final] makes of the file system *)
Definition publishedAs (node : Inode) (fs : Fs) (m : FileIdentity) (fs' : Fs) : Prop :=
  m = i ∧ fs' = set_names (delete part) (linked fs) ∨ m = j ∧ i ≠ j ∧ ∃ uid, fs' = set_names (delete part) (copied uid node fs).

Lemma publish_quiet node fuel expectedPart expectedSize expectedDirectory private fs :
  names fs !! part = Some i → inodes fs !! i = Some node → in_kind node = RegularFile → names fs !! final = None →
  assertPrivatePartialStat (statOf fs i node) = Ok () → (length (in_content node) < fuel)%nat →
  PublishArguments node expectedPart expectedSize expectedDirectory private fs →
  qwp (publishPartFile fuel (JStr part) (JStr final) expectedPart expectedSize expectedDirectory private) (publishedAs node fs) fs.
Proof.
  intros Hp Hi Hk Hf Hpriv Hfuel [A1 A2 A3 A4 A5]. unfold publishPartFile. rewrite A1, A2. cbn [ioLift].
  assert (∃ size, match expectedSize with Some v => Some <$> publishExpectedSizeInput v | None => Ok None end = Ok size ∧
    ∀ n, size = Some n → n = Z.of_nat (length (in_content node))) as (size & E4 & Hsize).
  { destruct expectedSize as [v|]; [rewrite (A4 v) by done|]; by eexists; split; [done|]; intros ? [= <-]. }
  assert (∃ d, match expectedDirectory with Some v => Some <$> fileIdentityInput v | None => Ok None end = Ok d ∧
    directoryFine (dirname final) d private fs) as (d & E5 & Hd).
  { destruct expectedDirectory as [v|]; [destruct (A5 v eq_refl) as (d & -> & ?); by exists (Some d)|by exists None]. }
  rewrite E4, E5. cbn [ioLift].
  assert (qwp (finalIdentity ← placeFinal fuel part final i size d private;
    iocatch (confirmFinal part final i finalIdentity size d private)
      (λ e, iocatch (removePathIfIdentity final finalIdentity) (λ _, Return ());; Raise e)) (publishedAs node fs) fs) as Hrest.
  { apply fwp_bind. apply (quiet_place node fuel size fs); [done..| |].
    - apply fwp_catch. eapply fwp_mono; [apply quiet_confirm with (node := node) (fs := fs) (n := node) (Q := publishedAs node fs)|done|done]; try done.
      + destruct d as [d|]; [|done]. apply (DirectoryOk_mono _ _ _ fs); [by apply insert_subseteq|done|exact Hd].
      + by left.
    - intros uid Hij Hj. apply fwp_catch.
      eapply fwp_mono; [apply quiet_confirm with (node := node) (fs := fs) (n := newFile uid (in_content node)) (Q := publishedAs node fs)|done|done]; try done.
      + cbn [copied inodes]. by rewrite lookup_insert_ne.
      + apply lookup_insert_eq.
      + destruct d as [d|]; [|done]. apply (DirectoryOk_mono _ _ _ fs); [by apply insert_subseteq..|exact Hd].
      + right. eauto. }
  destruct expectedPart as [v|]; [by rewrite (A3 v)|].
  do 5 (apply fwp_bind; cbn [ioLift fwp]). apply fwp_bind, fwp_bind. eapply quiet_lstat; [done..|]. apply fwp_bind, fwp_lift. unfold isFile. cbn [statOf st_kind].
  rewrite (bool_decide_eq_true_2 _ Hk). by rewrite identity_statOf.
Qed.

(** ** Digests *)

Lemma quiet_handleRead h f n len pos (Q : list Z → Fs → Prop) E fs :
  handles fs !! h = Some f → inodes fs !! of_inode f = Some n →
  (∀ k, Q (take (Nat.min (Z.to_nat len) (S k)) (drop (Z.to_nat pos) (in_content n))) fs) →
  fwp (=) quiet (λ _ _, True) (call (HandleRead h len pos)) Q E fs.
Proof. intros Hh Hi HQ. apply quiet_call; [by intros t|]. intros t _. cbn [perform]. unfold withHandle. rewrite Hh, Hi. apply HQ. Qed.

Lemma quiet_digestLoop h f node fuel pos size (Q : list Z → Fs → Prop) E fs :
  handles fs !! h = Some f → inodes fs !! of_inode f = Some node →
  (∀ n, size = Some n → n = Z.of_nat (length (in_content node))) →
  (length (in_content node) - pos < fuel)%nat → (pos <= length (in_content node))%nat → Q (in_content node) fs →
  fwp (=) quiet (λ _ _, True) (digestLoop fuel h size (take pos (in_content node))) Q E fs.
Proof.
  intros Hh Hi Hsize. revert pos. induction fuel as [|fuel IH]; intros pos Hfuel Hpos HQ; [lia|]. cbn [digestLoop].
  rewrite length_take_le by done. apply fwp_bind. eapply quiet_handleRead; [done..|]. intros k. rewrite Nat2Z.id. set (data := take _ _).
  assert (length data = Nat.min (Nat.min (Z.to_nat STREAM_CHUNK_BYTES) (S k)) (length (in_content node) - pos)) as Hd.
  { subst data. by rewrite length_take, length_drop. }
  assert (0 < Z.to_nat STREAM_CHUNK_BYTES)%nat as Hc by (unfold STREAM_CHUNK_BYTES; lia).
  destruct (Z.eqb_spec (Z.of_nat (length data)) 0).
  { assert (pos = length (in_content node)) as -> by lia. by rewrite firstn_all. }
  apply fwp_bind, fwp_lift.
  assert (match size with Some n => Z.of_nat pos + Z.of_nat (length data) <=? n | None => true end = true) as ->.
  { destruct size as [n'|]; [|done]. rewrite (Hsize n') by done. lia. }
  cbn [check]. rewrite (take_more pos _ (in_content node) : _ ++ data = take (pos + length data) _). apply IH; [lia..|done].
Qed.

Lemma quiet_digest `{Crypto} fuel path id node expectedIdentity expectedSize fs :
  names fs !! path = Some id → inodes fs !! id = Some node → (length (in_content node) < fuel)%nat →
  digestAccepts id node expectedIdentity expectedSize →
  qwp (digestFilePath fuel path expectedIdentity expectedSize) (λ hex s, hex = digestHex (in_content node) ∧ s = fs) fs.
Proof.
  intros Hp Hi Hfuel (Hk & Hid & Hsize). apply fwp_bind, fwp_bind. eapply quiet_lstat; [done..|]. apply fwp_bind, fwp_lift.
  unfold isFile. cbn [statOf st_kind]. rewrite (bool_decide_eq_true_2 _ Hk). cbn [check fwp]. rewrite identity_statOf.
  apply fwp_bind, fwp_lift.
  assert (match expectedIdentity with Some i' => sameIdentity id i' | None => true end = true) as ->.
  { destruct expectedIdentity as [e|]; [|done]. rewrite (Hid e) by done. unfold sameIdentity. by rewrite !Z.eqb_refl. }
  apply fwp_bind. apply quiet_call; [by intros t []|]. intros t [_ Hh]. cbn [perform]. unfold lookupPath.
  rewrite Hp, Hi, bool_decide_eq_false_2 by congruence. rewrite bool_decide_eq_false_2 by (by apply eq_None_not_Some).
  set (h := newHandle t) in *. set (f := {| of_inode := id; of_position := 0; of_writable := false |}).
  set (fs1 := set_handles <[h := f]> fs). assert (handles fs1 !! h = Some f) as Hf by apply lookup_insert_eq.
  assert (sizeExpected (statOf fs1 id node) expectedSize = true) as Hs.
  { unfold sizeExpected. destruct expectedSize as [n|]; [|done]. cbn [statOf st_size]. rewrite (Hsize n) by done. apply Z.eqb_refl. }
  apply fwp_finally, fwp_bind. eapply quiet_handleStat; [done..|]. apply fwp_bind, fwp_lift. cbn [of_inode f].
  rewrite sameFile_statOf by done. cbn [check]. apply fwp_bind, fwp_lift. rewrite Hs. cbn [check]. apply fwp_bind.
  change (@nil Z) with (take 0 (in_content node)). eapply quiet_digestLoop; [done|done|done| |lia|].
  { destruct expectedSize as [n|]; [rewrite (Hsize n) by done|]; lia. }
  apply fwp_bind, fwp_lift.
  assert (match expectedSize with Some n => Z.of_nat (length (in_content node)) =? n | None => true end = true) as ->.
  { destruct expectedSize as [n|]; [|done]. rewrite (Hsize n) by done. apply Z.eqb_refl. }
  cbn [check fwp]. apply quiet_close. split; [done|]. unfold fs1, set_handles. cbn [names inodes handles].
  rewrite delete_insert_id by done. by destruct fs.
Qed.

End Quiet.

(** ** Checking an environment *)

Lemma undisturbed_refl `{Process} part final i j fs : undisturbed part final i j fs fs.
Proof. by split. Qed.

Section Checkers.
Context `{Process}.
Variables (part final : jsstr) (j : FileIdentity).

Definition isUnused (dir : jsstr) (t : Turn) (fs : Fs) : bool :=
  bool_decide (names fs !! quarantinePath dir (tokenOf t) = None) && bool_decide (quarantinePath dir (tokenOf t) ≠ final).
Lemma isUnused_spec dir t fs : isUnused dir t fs = true → unusedName final dir t fs.
Proof. by intros [? %bool_decide_eq_true ?%bool_decide_eq_true]%andb_prop. Qed.

Definition isFresh (B : Type) (c : Sys B) (t : Turn) (fs : Fs) : bool :=
  bool_decide (newInode t = j) && match c with RandomBytes _ => isUnused part t fs && isUnused final t fs | _ => true end.
Lemma isFresh_spec B c t fs : isFresh B c t fs = true → fresh part final j B c t fs.
Proof.
  intros [Hj%bool_decide_eq_true Hc]%andb_prop. split; [done|]. destruct c; try done.
  apply andb_prop in Hc as [H1 H2]. by split; apply isUnused_spec.
Qed.

Definition isQuiet (B : Type) (c : Sys B) (t : Turn) (fs : Fs) : bool :=
  match c with
  | Link _ _ => match failure t with Some e => bool_decide (e ∈ LINK_FALLBACK_ERROR_CODES) | None => true end
  | _ => bool_decide (failure t = None)
  end &&
  match c with
  | RandomBytes _ => isUnused part t fs && bool_decide (quarantinePath part (tokenOf t) ≠ part)
  | OpenNew _ => bool_decide (newInode t = j) && bool_decide (inodes fs !! j = None) && bool_decide (handles fs !! newHandle t = None)
  | OpenNoFollow _ _ => bool_decide (handles fs !! newHandle t = None)
  | _ => true
  end.
Lemma isQuiet_spec B c t fs : isQuiet B c t fs = true → quiet part final j B c t fs.
Proof.
  unfold isQuiet. intros [Hf Hc]%andb_prop. destruct c; cbn [quiet]; try by apply bool_decide_eq_true in Hf.
  - intros e He. rewrite He in Hf. by apply bool_decide_eq_true in Hf.
  - apply bool_decide_eq_true in Hf, Hc. done.
  - apply bool_decide_eq_true in Hf. apply andb_prop in Hc as [[H1 H2]%andb_prop H3]. by apply bool_decide_eq_true in H1, H2, H3.
  - apply bool_decide_eq_true in Hf. apply andb_prop in Hc as [H1%isUnused_spec H2]. by apply bool_decide_eq_true in H2.
Qed.

End Checkers.

(** ** The theorems *)

(** Any turn is possible. *)
Definition anything (B : Type) (c : Sys B) (t : Turn) (fs : Fs) : Prop := True.

(** The calls that leave names and inodes alone *)
Definition unchanged (fs fs' : Fs) : Prop := names fs' = names fs ∧ inodes fs' = inodes fs.
#[export] Instance unchanged_Guarantee : Guarantee unchanged.
Proof. by split. Qed.

Lemma digest_outcome `{Process, Crypto} fuel path id node expectedIdentity expectedSize env n fs :
  names fs !! path = Some id → inodes fs !! id = Some node → (length (in_content node) < fuel)%nat →
  let program := digestFilePath fuel path expectedIdentity expectedSize in
  permitted (undisturbed path path id id) anything env n program fs →
  ∃ out fs' steps, run env n program fs = Some (out, fs', steps) ∧ Forall (λ s, unchanged s.1 s.2) steps ∧
    ∀ hex, out = inl hex → hex = digestHex (in_content node) ∧ digestAccepts id node expectedIdentity expectedSize.
Proof.
  intros Hp Hi Hfuel program Hperm.
  edestruct (fwp_run (undisturbed path path id id) anything unchanged program) as (out & fs' & steps & Hrun & Hs & Ho).
  - eapply (digestFilePath_wp path path id id); [exact Hfuel|]. by apply Known_single.
  - exact Hperm.
  - exists out, fs', steps. split_and!; [done..|]. by intros hex ->.
Qed.

Lemma digest_success `{Process, Crypto} fuel path id node expectedIdentity expectedSize env n fs :
  names fs !! path = Some id → inodes fs !! id = Some node → (length (in_content node) < fuel)%nat →
  digestAccepts id node expectedIdentity expectedSize →
  let program := digestFilePath fuel path expectedIdentity expectedSize in
  permitted (=) (quiet path path id) env n program fs →
  ∃ steps, run env n program fs = Some (inl (digestHex (in_content node)), fs, steps).
Proof.
  intros Hp Hi Hfuel Ha program Hperm.
  edestruct (fwp_run (=) (quiet path path id) (λ _ _, True) program) as (out & fs' & steps & Hrun & _ & Ho); [by eapply quiet_digest|exact Hperm|].
  destruct out as [hex|]; [|done]. destruct Ho as [-> ->]. by exists steps.
Qed.

(** C21. Whatever fails and whatever others do to the rest of the file system,
    [publishPartFile] ends; no file but the copy it makes changes, and no name
    of another file is taken or given; it returns with the final name a
    regular file with the bytes of the partial, or throws with the partial
    still there, under its name or in quarantine. *)
Theorem publish_safe `{Platform, Process} part final i j node fuel expectedPart expectedSize expectedDirectory private env n fs :
  names fs !! part = Some i → inodes fs !! i = Some node → (length (in_content node) < fuel)%nat →
  let program := publishPartFile fuel (JStr part) (JStr final) expectedPart expectedSize expectedDirectory private in
  permitted (undisturbed part final i j) (fresh part final j) env n program fs →
  ∃ out fs' steps, run env n program fs = Some (out, fs', steps) ∧ Forall (λ s, respects part final i j s.1 s.2) steps ∧
    match out with inl m => Published final i j node m fs' | inr _ => Kept part final i node fs' end.
Proof. apply publish_outcome. Qed.

(** C22. When nobody interferes and no call fails, except that the file system
    may have no hard links, publishing a private partial of the expected size
    succeeds: the only changes are that the final name is the file of the
    partial, or a new file with its bytes, and that the name of the partial is
    gone. *)
Theorem publish_succeeds `{Platform, Process} part final i j node fuel expectedPart expectedSize expectedDirectory private env n fs :
  names fs !! part = Some i → inodes fs !! i = Some node → in_kind node = RegularFile → names fs !! final = None →
  assertPrivatePartialStat (statOf fs i node) = Ok () → (length (in_content node) < fuel)%nat →
  PublishArguments part final i node expectedPart expectedSize expectedDirectory private fs →
  let program := publishPartFile fuel (JStr part) (JStr final) expectedPart expectedSize expectedDirectory private in
  permitted (=) (quiet part final j) env n program fs →
  ∃ m fs' steps, run env n program fs = Some (inl m, fs', steps) ∧ publishedAs part final i j node fs m fs'.
Proof.
  intros Hp Hi Hk Hf Hpriv Hfuel HA program Hperm.
  edestruct (fwp_run (=) (quiet part final j) (λ _ _, True) program) as (out & fs' & steps & Hrun & _ & Ho); [by eapply publish_quiet|exact Hperm|].
  destruct out as [m|e]; [|done]. by exists m, fs', steps.
Qed.

(** [digestFilePath] changes no file; what it returns is the digest of the
    named file, a regular file of the expected identity and size, whatever
    fails and as long as others leave that file alone; and when nothing fails
    it does return. *)
Theorem digest_exact `{Process, Crypto} fuel path id node expectedIdentity expectedSize env n fs :
  names fs !! path = Some id → inodes fs !! id = Some node → (length (in_content node) < fuel)%nat →
  let program := digestFilePath fuel path expectedIdentity expectedSize in
  (permitted (undisturbed path path id id) anything env n program fs →
   ∃ out fs' steps, run env n program fs = Some (out, fs', steps) ∧
     Forall (λ s, names s.2 = names s.1 ∧ inodes s.2 = inodes s.1) steps ∧
     ∀ hex, out = inl hex → hex = digestHex (in_content node) ∧ digestAccepts id node expectedIdentity expectedSize) ∧
  (permitted (=) (quiet path path id) env n program fs → digestAccepts id node expectedIdentity expectedSize →
   ∃ steps, run env n program fs = Some (inl (digestHex (in_content node)), fs, steps)).
Proof. intros Hp Hi Hfuel. split; intros Hperm; [exact (digest_outcome _ _ _ _ _ _ _ _ _ Hp Hi Hfuel Hperm)|].
  intros Ha. exact (digest_success _ _ _ _ _ _ _ _ _ Hp Hi Hfuel Ha Hperm). Qed.

(** ** Witnesses *)

Module Sample.
Definition platform : Platform := {| win32 := false; getuid := Some 1000 |}.
Definition process : Process := {| pid := 7 |}.
Definition part : jsstr := js "/out/.a.part".
Definition final : jsstr := js "/out/a".
Definition i : FileIdentity := {| dev := 1; ino := 10 |}.
Definition j : FileIdentity := {| dev := 1; ino := 11 |}.
Definition d : FileIdentity := {| dev := 1; ino := 2 |}.
Definition node : Inode := newFile 1000 [104; 105; 33].
Definition dirNode : Inode := {| in_kind := Directory; in_content := []; in_target := []; in_mode := 0x1c0; in_uid := 1000 |}.
Definition fs : Fs := {| names := {[part := i; js "/out" := d; js "/" := d]}; inodes := {[i := node; d := dirNode]}; handles := ∅ |}.
Definition identityValue (id : FileIdentity) : jsval := obj [(js "dev", jint (dev id)); (js "ino", jint (ino id))].
Definition program : io FileIdentity :=
  @publishPartFile platform process 10 (JStr part) (JStr final) (Some (identityValue i)) (Some (jint 3)) (Some (identityValue d)) true.
(** Reads and writes of two bytes; the calls with the numbers in [failures] fail. *)
Definition env (failures : list (nat * Errno)) (n : nat) : Turn :=
  {| interfere := id; failure := list_find (λ x, x.1 = n) failures ≫= λ x, Some x.2.2; amount := 1; newHandle := n; newInode := j; owner := 1000; random := [Z.of_nat n]; times := (0, 0) |}.
End Sample.

Lemma sample_arguments : @PublishArguments Sample.platform Sample.part Sample.final Sample.i Sample.node
  (Some (Sample.identityValue Sample.i)) (Some (jint 3)) (Some (Sample.identityValue Sample.d)) true Sample.fs.
Proof.
  split; [by vm_compute..| | |]; [intros v [= <-]; by vm_compute..|].
  intros v [= <-]. exists Sample.d. split; [by vm_compute|]. split.
  - exists Sample.dirNode. split_and!; [by vm_compute|done|by intros _; vm_compute].
  - intros _. exists Sample.d, Sample.dirNode. split_and!; [by vm_compute..|done].
  - intros _ _ _. exists Sample.d, Sample.dirNode. split; by vm_compute.
Qed.

(** Without hard links the partial is copied; then its removal fails in the
    last step, and it is in quarantine. *)
Lemma publish_safe_witness : ∃ out fs' steps,
  run (Sample.env [(4%nat, EPERM); (26%nat, EACCES)]) 0 Sample.program Sample.fs = Some (out, fs', steps) ∧
  Forall (λ s, @respects Sample.process Sample.part Sample.final Sample.i Sample.j s.1 s.2) steps ∧
  match out with inl m => Published Sample.final Sample.i Sample.j Sample.node m fs' | inr _ => @Kept Sample.process Sample.part Sample.final Sample.i Sample.node fs' end.
Proof.
  apply (@publish_safe Sample.platform Sample.process Sample.part Sample.final Sample.i Sample.j Sample.node 10); [by vm_compute..|cbn; lia|].
  eapply (allowed_permitted _ _ (@isFresh Sample.process Sample.part Sample.final Sample.j)).
  - apply undisturbed_refl.
  - done.
  - apply isFresh_spec.
  - by vm_compute.
Defined.

#[local] Existing Instance plainCrypto.
Definition sampleDigest : io jsstr := digestFilePath 10 Sample.part (Some Sample.i) (Some 3).

Lemma digest_exact_witness : ∃ steps,
  run (Sample.env []) 0 sampleDigest Sample.fs = Some (inl (digestHex [104; 105; 33]), Sample.fs, steps).
Proof.
  apply (@digest_exact Sample.process _ 10 Sample.part Sample.i Sample.node (Some Sample.i) (Some 3)); [by vm_compute..|cbn; lia| |].
  - eapply (allowed_permitted _ _ (@isQuiet Sample.process Sample.part Sample.part Sample.i)); [done|done|apply isQuiet_spec|].
    by vm_compute.
  - split_and!; [done|by intros e [= <-]..].
Defined.

Lemma publish_succeeds_witness : ∃ m fs' steps,
  run (Sample.env [(4%nat, EPERM)]) 0 Sample.program Sample.fs = Some (inl m, fs', steps) ∧
  publishedAs Sample.part Sample.final Sample.i Sample.j Sample.node Sample.fs m fs'.
Proof.
  apply (@publish_succeeds Sample.platform Sample.process); [by vm_compute..|cbn; lia|apply sample_arguments|].
  eapply (allowed_permitted _ _ (@isQuiet Sample.process Sample.part Sample.final Sample.j)).
  - done.
  - done.
  - apply isQuiet_spec.
  - by vm_compute.
Defined.
