(* ===== verification/SendPlan.v ===== *)
(** * SendPlan: what [sendFiles] is going to send ([src/cli/transfer.ts]).

    [buildSendPlan] copies the prepared files into a plan that nothing else can
    change: names, sizes, and the hashes that every chunk and every file must
    have when it is sent.  A file that was prepared is the list of its own
    properties, as far as they are plain values, and its handle. *)
From S2P Require Import Prelude.
From S2P Require Import Constants.
From S2P Require Import JsText.
From S2P Require Import JsValue.
From S2P Require Import Authority.
From S2P Require Import Protocol.
From S2P Require Import Messages.
From S2P Require Import Limits.
From S2P Require Import TransferControl.
From S2P Require Import ReceiverState.
#[local] Open Scope Z_scope.
#[local] Ltac Zify.zify_post_hook ::= Z.to_euclidean_division_equations.

(** A file handle: its number, whether [createReadStream] and [read] are found
    along its prototypes as functions ([ownDataMethod]), and whether it has its
    own [close] function. *)
Record SendHandle := { handleNumber : FileHandle; hasCreateReadStream : bool; hasRead : bool; hasClose : bool }.

(** [SendFile]: the own properties without [handle], and [handle] if it is an object *)
Record SendFile := { fileFields : jsval; fileHandle : option SendHandle }.

(** [SendPlanFile] *)
Record SendPlanFile := {
  sp_id : Z;
  sp_name : jsstr;
  sp_size : Z;
  sp_mime : option jsstr;
  sp_handle : FileHandle;
  sp_sha256 : jsstr;
  sp_chunkSha256 : list jsstr
}.

Definition MAX_CHUNK_HASHES_PER_FILE : Z := (MAX_FILE_BYTES + CHUNK_SIZE - 1) / CHUNK_SIZE.

(** The loop of [sendChunkHashesInput] *)
Fixpoint chunkHashes (n : nat) (value : jsval) (index : Z) : result (list jsstr) :=
  match n with
  | O => Ok []
  | S n =>
    match ownArrayDataValue value index with
    | JStr h => check (isSha256Hex h) "Send file chunk hashes are invalid.";; hashes ← chunkHashes n value (index + 1); Ok (h :: hashes)
    | _ => throw "Send file chunk hashes are invalid."
    end
  end.

(** [sendChunkHashesInput] *)
Definition sendChunkHashesInput (value : jsval) (size : Z) : result (list jsstr) :=
  match value with
  | JArr items =>
    let expectedChunks := if size =? 0 then 0 else (size + CHUNK_SIZE - 1) / CHUNK_SIZE in
    let n := Z.of_nat (length items) in
    check ((n =? expectedChunks) && (n <=? MAX_CHUNK_HASHES_PER_FILE)) "Send file chunk hashes are invalid.";;
    chunkHashes (length items) value 0
  | _ => throw "Send file chunk hashes are invalid."
  end.

Section Plan.
Context `{JsCase}.

(** [sendPlanFileInput] *)
Definition sendPlanFileInput (file : SendFile) (index : Z) : result SendPlanFile :=
  let value := fileFields file in
  check (isObjectLike value) "Send file entry is invalid.";;
  match ownDataValue value (js "id"), ownDataValue value (js "name"), ownDataValue value (js "size"), readOptional readString (ownDataValue value (js "mime")) with
  | jint id, JStr name, jint size, Some mime =>
    check ((id =? index) && isIntegerIn 0 MAX_FILE_BYTES (jint size)) "Send file entry is invalid.";;
    assertFileWithinLimits (JStr name) (jint size);;
    match fileHandle file with
    | None => throw "Send file handle is invalid."
    | Some handle =>
      check (hasCreateReadStream handle && hasRead handle) "Send file handle is invalid.";;
      match ownDataValue value (js "sha256") with
      | JStr sha256 =>
        check (isSha256Hex sha256) "Send file hash is invalid.";;
        hashes ← sendChunkHashesInput (ownDataValue value (js "chunkSha256")) size;
        Ok {| sp_id := id; sp_name := name; sp_size := size; sp_mime := mime; sp_handle := handleNumber handle; sp_sha256 := sha256;
              sp_chunkSha256 := hashes |}
      | _ => throw "Send file hash is invalid."
      end
    end
  | _, _, _, _ => throw "Send file entry is invalid."
  end.

(** The loop of [buildSendPlan]; an entry is [None] when the array has no own
    data property at its index. *)
Fixpoint sendPlanFiles (files : list (option SendFile)) (index : Z) : result (list SendPlanFile) :=
  match files with
  | [] => Ok []
  | None :: _ => throw "Send file entry is invalid."
  | Some file :: files =>
    f ← sendPlanFileInput file index;
    plan ← sendPlanFiles files (index + 1);
    Ok (f :: plan)
  end.

(** [buildSendPlan] *)
Definition buildSendPlan (files : list (option SendFile)) : result (list SendPlanFile) :=
  check ((1 <=? Z.of_nat (length files)) && (Z.of_nat (length files) <=? MAX_FILES_PER_SESSION)) "Send file list is invalid.";;
  sendPlanFiles files 0.

End Plan.

(** [transferFiles] and [totalBytes] of [sendFiles] *)
Definition planEntry (f : SendPlanFile) : FileManifestEntry :=
  {| fe_id := Some (sp_id f); fe_name := sp_name f; fe_size := sp_size f; fe_mime := sp_mime f |}.
Definition planBytes (plan : list SendPlanFile) : Z := foldl (λ sum f, sum + sp_size f) 0 plan.

(** The handles that [closeSendFiles] closes. *)
Definition closableHandles (files : list (option SendFile)) : list FileHandle :=
  omap (λ file, file ← file; h ← fileHandle file; if hasClose h then Some (handleNumber h) else None) files.

(** ** Theorems *)

(** What a file of a plan is. *)
Record planFileOk `{JsCase} (index : nat) (f : SendPlanFile) : Prop := {
  pf_id : sp_id f = Z.of_nat index;
  pf_limits : assertFileWithinLimits (JStr (sp_name f)) (jint (sp_size f)) = Ok ();
  pf_size : 0 <= sp_size f <= MAX_FILE_BYTES;
  pf_sha : isSha256Hex (sp_sha256 f) = true;
  pf_hashes : Forall (λ h, isSha256Hex h = true) (sp_chunkSha256 f);
  pf_chunks : Z.of_nat (length (sp_chunkSha256 f)) = (sp_size f + CHUNK_SIZE - 1) / CHUNK_SIZE
}.

Lemma chunkHashes_ok n value index hs : chunkHashes n value index = Ok hs → length hs = n ∧ Forall (λ h, isSha256Hex h = true) hs.
Proof.
  revert index hs. induction n as [|n IH]; intros index hs; cbn [chunkHashes]; [by intros [= <-]|].
  destruct (ownArrayDataValue value index); try done. rewrite check_bind_ok. intros [Hs (hs' & Hhs & Ho)%result_bind_ok].
  apply (inj Ok) in Ho as <-. destruct (IH _ _ Hhs) as [<- HF]. by split; [|constructor].
Qed.

Lemma sendChunkHashesInput_ok value size hs :
  0 <= size → sendChunkHashesInput value size = Ok hs →
  Z.of_nat (length hs) = (size + CHUNK_SIZE - 1) / CHUNK_SIZE ∧ Forall (λ h, isSha256Hex h = true) hs.
Proof.
  intros Hs. unfold sendChunkHashesInput. destruct value as [| | | | | |items|]; try done. cbv zeta. rewrite check_bind_ok, andb_true_iff, Z.eqb_eq.
  intros [[Hn _] [Hl HF]%chunkHashes_ok]. split; [|done]. rewrite Hl, Hn. destruct (Z.eqb_spec size 0) as [->|]; done.
Qed.

Section PlanLemmas.
Context `{JsCase}.

Lemma sendPlanFileInput_ok file index f : sendPlanFileInput file (Z.of_nat index) = Ok f → planFileOk index f.
Proof.
  unfold sendPlanFileInput. cbv zeta. rewrite check_bind_ok. intros [_ Ho].
  destruct (ownDataValue _ (js "id")) as [| | |[id| |]| | | |]; try done. destruct (ownDataValue _ (js "name")) as [| | | |name| | |]; try done.
  destruct (ownDataValue _ (js "size")) as [| | |[size| |]| | | |]; try done. destruct (readOptional _ _) as [mime|]; [|done].
  apply check_bind_ok in Ho as [[->%Z.eqb_eq (z & [= <-] & Hz)%isIntegerIn_spec]%andb_true_iff [Hl Ho]%unit_bind_ok].
  destruct (fileHandle file) as [h|]; [|done]. apply check_bind_ok in Ho as [_ Ho]. destruct (ownDataValue _ (js "sha256")) as [| | | |sha| | |]; try done.
  apply check_bind_ok in Ho as [Hsha (hs & Hhs & Ho)%result_bind_ok]. apply (inj Ok) in Ho as <-.
  destruct (sendChunkHashesInput_ok _ _ _ (proj1 Hz) Hhs) as [Hn HF]. by split.
Qed.

Lemma sendPlanFiles_ok files start plan :
  sendPlanFiles files (Z.of_nat start) = Ok plan → length plan = length files ∧ ∀ i f, plan !! i = Some f → planFileOk (start + i) f.
Proof.
  revert start plan. induction files as [|[file|] files IH]; intros start plan; cbn [sendPlanFiles]; [by intros [= <-]| |done].
  intros (f & Hf & (plan' & Hp & Ho)%result_bind_ok)%result_bind_ok. apply (inj Ok) in Ho as <-.
  replace (Z.of_nat start + 1) with (Z.of_nat (S start)) in Hp by lia. destruct (IH _ _ Hp) as [Hl Hi]. split; [cbn; lia|].
  intros [|i] g; cbn; [intros [= <-]; rewrite Nat.add_0_r; by eapply sendPlanFileInput_ok|]. intros Hg. rewrite Nat.add_succ_r. by apply Hi.
Qed.

(** A plan has between 1 and 100 files, with ids 0, 1, 2, ..., accepted names
    and sizes, and the hash of each file and of each of its chunks. *)
Lemma buildSendPlan_ok files plan :
  buildSendPlan files = Ok plan →
  length plan = length files ∧ 1 <= Z.of_nat (length plan) <= MAX_FILES_PER_SESSION ∧ ∀ i f, plan !! i = Some f → planFileOk i f.
Proof.
  unfold buildSendPlan. rewrite check_bind_ok, andb_true_iff, !Z.leb_le. intros [Hl [Hp Hi]%(sendPlanFiles_ok _ 0)]. rewrite Hp. auto.
Qed.

End PlanLemmas.
