(* ===== verification/Files.v ===== *)
(** * Files: preparing files to send and reserving files to receive
    ([src/cli/files.ts]).

    [buildManifest] hashes the files to send; [reserveOutputFile] finds a free
    name and makes, or finds again, the partial of a file to receive.  Every
    function is the [io] program of the source.  The functions that files.ts
    has in the same words as transfer.ts ([removePathIfIdentity] with what it
    calls, [assertPrivateOutputParent]) are those of [Publish].  The streams
    of [createReadStream] are loops of reads; their buffers of at most
    [highWaterMark] bytes are the chunks. *)
From S2P Require Import Prelude.
From S2P Require Import Constants.
From S2P Require Import JsText.
From S2P Require Import JsValue.
From S2P Require Import Authority.
From S2P Require Import Protocol.
From S2P Require Import Messages.
From S2P Require Import Limits.
From S2P Require Import Bytes.
From S2P Require Import Crypto.
From S2P Require Import Pake.
From S2P Require Import FileStat.
From S2P Require Import FileSystem.
From S2P Require Import ReceiverState.
From S2P Require Import Receiver.
From S2P Require Import Publish.
From S2P Require Import SendPlan.
#[local] Open Scope Z_scope.

(** [ReserveOutputFileOptions] *)
Record ReserveOptions := { op_resume : bool; op_size : jsval; op_opaqueName : bool; op_privateOutputDir : bool }.

(** [FileMutationSnapshot] *)
Record FileMutationSnapshot := { ms_snapshot : FileSnapshot; ms_times : Z * Z }.
Definition sameFileMutationSnapshot (actual expected : FileMutationSnapshot) : bool :=
  sameIdentity (snapshotFile (ms_snapshot actual)) (snapshotFile (ms_snapshot expected)) &&
  (snapshotSize (ms_snapshot actual) =? snapshotSize (ms_snapshot expected)) && bool_decide (ms_times actual = ms_times expected).

(** [isMissingPathError] and [isNodeErrorCode] *)
Definition isNodeErrorCode (e : Failure) (code : Errno) : bool := bool_decide (nodeErrorCode e = Some code).
Definition isMissingPathError (e : Failure) : bool := isNodeErrorCode e ENOENT.

(** [try { return m } catch (e) { if (!code) throw e }], without a value when
    the code was caught *)
Definition unlessCode {A} (m : io A) (code : Errno) : io (option A) :=
  iocatch (a ← m; Return (Some a)) (λ e, if isNodeErrorCode e code then Return None else Raise e).

Section Files.
Context `{Crypto, JsCase, Platform, Process, WorkingDirectory}.

(** ** Streams *)

(** [fileMutationSnapshot] *)
Definition fileMutationSnapshot (handle : nat) : io FileMutationSnapshot :=
  s ← call (HandleStatBig handle);
  Return {| ms_snapshot := fileSnapshot s.1; ms_times := s.2 |}.

(** The loop of [hashOpenFilePrefix], over the stream of the first [bytes]
    bytes; [hash] is what has been absorbed *)
Fixpoint hashPrefixStream (fuel : nat) (handle : nat) (bytes : Z) (hash : list Z) : io (list Z) :=
  match fuel with
  | O => Diverge
  | S fuel =>
    let bytesRead := byteLength hash in
    if bytes <=? bytesRead then Return hash
    else
      payload ← call (HandleRead handle (Z.min STREAM_CHUNK_BYTES (bytes - bytesRead)) bytesRead);
      if byteLength payload =? 0 then Return hash
      else
        ioCheck (bytesRead + byteLength payload <=? bytes) "Resume partial changed while hashing.";;
        hashPrefixStream fuel handle bytes (hash ++ payload)
  end.

(** [hashOpenFilePrefix] *)
Definition hashOpenFilePrefix (handle : nat) (bytes : Z) (expected : FileMutationSnapshot) : io (list Z) :=
  hash ← (if 0 <? bytes then
            hash ← hashPrefixStream (S (Z.to_nat bytes)) handle bytes [];
            ioCheck (byteLength hash =? bytes) "Resume partial changed while hashing.";;
            Return hash
          else Return []);
  actual ← fileMutationSnapshot handle;
  ioCheck (sameFileMutationSnapshot actual expected) "Resume partial changed while hashing.";;
  Return hash.

Definition changedWhilePreparing : string := "Selected file changed while preparing the transfer.".

(** The loop of [hashFileHandle]: what [hash] has absorbed, and [chunkSha256] *)
Fixpoint hashFileStream (fuel : nat) (handle : nat) (size : Z) (hash : list Z) (chunkSha256 : list jsstr) : io (list Z * list jsstr) :=
  match fuel with
  | O => Diverge
  | S fuel =>
    payload ← call (HandleRead handle CHUNK_SIZE (byteLength hash));
    if byteLength payload =? 0 then Return (hash, chunkSha256)
    else
      ioCheck (byteLength hash + byteLength payload <=? size) changedWhilePreparing;;
      hashFileStream fuel handle size (hash ++ payload) (chunkSha256 ++ [digestHex payload])
  end.

(** [hashFileHandle]: every chunk has a byte and they fit the size, so the fuel
    is enough. *)
Definition hashFileHandle (handle : nat) (expected : FileSnapshot) (expectedMutation : FileMutationSnapshot) : io (jsstr * list jsstr) :=
  r ← hashFileStream (S (S (Z.to_nat (snapshotSize expected)))) handle (snapshotSize expected) [] [];
  let '(hash, chunkSha256) := r in
  ioCheck (byteLength hash =? snapshotSize expected) changedWhilePreparing;;
  afterHashStat ← call (HandleStat handle);
  ioCheck (sameFileSnapshot afterHashStat expected) changedWhilePreparing;;
  mutation ← fileMutationSnapshot handle;
  ioCheck (sameFileMutationSnapshot mutation expectedMutation) changedWhilePreparing;;
  Return (digestHex hash, chunkSha256).

(** ** Files to send *)

(** [basename] of [src/shared/format.ts] *)
Definition basename (path : jsstr) : jsstr :=
  if bool_decide (dropWhileEnd isPathSeparator path = []) then path else leafName path.

(** [SendFile] as [buildManifest] makes it *)
Record PreparedFile := { pr_id : Z; pr_name : jsstr; pr_size : Z; pr_path : jsstr; pr_handle : nat; pr_sha256 : jsstr; pr_chunkSha256 : list jsstr }.

(** The [try] block of the loop of [buildManifest], once the file is open *)
Definition prepareOpenFile (filePath : jsstr) (linkStat : Stats) (handle : nat) (id : Z) : io PreparedFile :=
  stat ← call (HandleStat handle);
  ioCheck (st_size stat <=? MAX_FILE_BYTES) "Selected file exceeds the 1 GiB per-file limit.";;
  ioCheck (isFile stat && sameIdentity (identityOf stat) (identityOf linkStat)) changedWhilePreparing;;
  let snapshot := fileSnapshot stat in
  let name := basename filePath in
  ioLift (assertFileWithinLimits (JStr name) (jint (snapshotSize snapshot)));;
  mutationSnapshot ← fileMutationSnapshot handle;
  ioCheck (snapshotSize (ms_snapshot mutationSnapshot) =? snapshotSize snapshot) changedWhilePreparing;;
  hashes ← hashFileHandle handle snapshot mutationSnapshot;
  Return {| pr_id := id; pr_name := name; pr_size := snapshotSize snapshot; pr_path := filePath; pr_handle := handle;
            pr_sha256 := hashes.1; pr_chunkSha256 := hashes.2 |}.

(** One iteration of the loop of [buildManifest] *)
Definition prepareFile (input : jsstr) (id : Z) : io PreparedFile :=
  let filePath := resolvePath input in
  linkStat ← call (Lstat filePath);
  ioCheck (negb (isSymbolicLink linkStat)) "Selected file is a symbolic link. Refusing to follow links; send the real file path explicitly.";;
  ioCheck (isFile linkStat) "Selected path is not a file. Folders are not supported; archive first.";;
  ioCheck (st_size linkStat <=? MAX_FILE_BYTES) "Selected file exceeds the 1 GiB per-file limit.";;
  handle ← call (OpenNoFollow filePath false);
  iocatch (prepareOpenFile filePath linkStat handle id) (λ e, call (HandleClose handle);; Raise e).

(** [closeSendFiles] on prepared files *)
Fixpoint closePrepared (files : list PreparedFile) : io () :=
  match files with
  | [] => Return ()
  | f :: files => closeQuietly (pr_handle f);; closePrepared files
  end.

(** The loop of [buildManifest] with its [catch] block, given the files so far *)
Fixpoint prepareFiles (inputs : list jsstr) (files : list PreparedFile) : io (list PreparedFile) :=
  match inputs with
  | [] => Return files
  | input :: inputs =>
    r ← iotry (prepareFile input (Z.of_nat (length files)));
    match r with
    | inl file => prepareFiles inputs (files ++ [file])
    | inr e => closePrepared files;; Raise e
    end
  end.

Definition preparedEntry (f : PreparedFile) : FileManifestEntry :=
  {| fe_id := Some (pr_id f); fe_name := pr_name f; fe_size := pr_size f; fe_mime := None |}.
Definition preparedBytes (files : list PreparedFile) : Z := foldl (λ sum f, sum + pr_size f) 0 files.
Definition preparedManifest (files : list PreparedFile) : FileManifest :=
  {| fm_files := map preparedEntry files; fm_fileCount := Z.of_nat (length files); fm_totalBytes := preparedBytes files |}.

(** [buildManifest]; when the manifest is refused at the end the files stay open. *)
Definition buildManifest (paths : jsval) : io (list PreparedFile * FileManifest) :=
  inputs ← ioLift (validateSendPathInputs paths);
  files ← prepareFiles inputs [];
  let manifest := preparedManifest files in
  ioLift (assertTransferManifestWithinLimits (manifestValue manifest));;
  Return (files, manifest).

(** ** The output directory *)

(** [outputDirectoryStat] *)
Definition outputDirectoryStat (dir : jsstr) (privateOutputDir : bool) : io Stats :=
  ioWhen privateOutputDir (ioLift assertPrivateOutputDirSupported);;
  ioWhen privateOutputDir
    (linkStat ← call (Lstat dir);
     ioCheck (negb (isSymbolicLink linkStat)) "Output directory must not be a symbolic link in private mode.");;
  stat ← call (Stat dir);
  ioWhen privateOutputDir
    (ioLift (assertPrivateOutputDirStat stat);;
     assertPrivateOutputParent dir);;
  Return stat.

(** [directoryIdentity] and [assertDirectoryIdentity] *)
Definition directoryIdentity (dir : jsstr) (privateOutputDir : bool) : io FileIdentity :=
  stat ← outputDirectoryStat dir privateOutputDir;
  ioCheck (isDirectory stat) "Output path is not a directory.";;
  Return (identityOf stat).
Definition assertDirectoryIdentity (dir : jsstr) (expected : FileIdentity) (privateOutputDir : bool) : io () :=
  stat ← outputDirectoryStat dir privateOutputDir;
  ioCheck (isDirectory stat && sameIdentity (identityOf stat) expected) "Output directory changed during reservation.".

(** ** The resume secret *)

Definition RESUME_SECRET_FILE : jsstr := js ".ff-resume-key".

(** [readResumeSecret] *)
Definition readResumeSecret (secretPath : jsstr) : io (list Z) :=
  handle ← call (OpenNoFollow secretPath false);
  iofinally
    (beforeReadStat ← call (HandleStat handle);
     ioLift (assertResumeSecretStat beforeReadStat);;
     beforeReadSnapshot ← fileMutationSnapshot handle;
     secret ← call (HandleRead handle RESUME_SECRET_BYTES 0);
     ioCheck (byteLength secret =? RESUME_SECRET_BYTES) "Resume secret is invalid.";;
     afterReadSnapshot ← fileMutationSnapshot handle;
     ioCheck (sameFileMutationSnapshot afterReadSnapshot beforeReadSnapshot) "Resume secret changed while reading.";;
     Return secret)
    (closeQuietly handle).

(** What [readOrCreateResumeSecret] does with its new file: [handle.writeFile]
    writes until everything is written. *)
Definition writeResumeSecret (handle : nat) (created : FileIdentity) (secret : list Z) : io () :=
  writeAll handle secret;;
  verifiedStat ← call (HandleStat handle);
  ioCheck (sameFileIdentity verifiedStat created) "Resume secret changed while creating.";;
  ioLift (assertResumeSecretStat verifiedStat).

(** The [try] statement of [readOrCreateResumeSecret] that makes the secret *)
Definition createResumeSecret (secretPath : jsstr) (secret : list Z) : io (list Z) :=
  opened ← iotry (call (OpenNew secretPath));
  match opened with
  | inr e => if isNodeErrorCode e EEXIST then readResumeSecret secretPath else Raise e
  | inl handle =>
    createdStat ← iotry (call (HandleStat handle));
    match createdStat with
    | inr e =>
      iofinally (if isNodeErrorCode e EEXIST then readResumeSecret secretPath else Raise e) (closeQuietly handle)
    | inl s =>
      written ← iotry (writeResumeSecret handle (identityOf s) secret);
      match written with
      | inl _ => closeQuietly handle;; Return secret
      | inr e =>
        if isNodeErrorCode e EEXIST then iofinally (readResumeSecret secretPath) (closeQuietly handle)
        else
          closeQuietly handle;;
          iocatch (removePathIfIdentity secretPath (identityOf s)) (λ _, ioThrow "Resume secret cleanup failed.");;
          Raise e
      end
    end
  end.

(** [readOrCreateResumeSecret] *)
Definition readOrCreateResumeSecret (outputDir : jsstr) : io (list Z) :=
  let secretPath := joinPath outputDir RESUME_SECRET_FILE in
  existing ← unlessCode (readResumeSecret secretPath) ENOENT;
  match existing with
  | Some secret => Return secret
  | None =>
    secret ← call (RandomBytes RESUME_SECRET_BYTES);
    createResumeSecret secretPath secret
  end.

(** ** Names of partials *)

Definition PART_FILE_SUFFIX : jsstr := js ".part".
Definition PART_FILE_TOKEN_HEX_CHARS : Z := 32.

(** The HMAC under the resume secret of a label, a name and a size *)
Definition resumeDigest (secret : list Z) (label : string) (name : jsstr) (size : Z) : jsstr :=
  bytesToHex (hmacSha256 secret (utf8Encode (js label) ++ [0] ++ utf8Encode name ++ [0] ++ utf8Encode (jsInt size))).

(** [randomPartFileName] *)
Definition randomPartFileName : io jsstr :=
  token ← call (RandomBytes (PART_FILE_TOKEN_HEX_CHARS / 2));
  Return (js "ff-" ++ bytesToHex token ++ PART_FILE_SUFFIX).

(** [opaqueOutputFileName] *)
Definition opaqueOutputFileName (outputDir name : jsstr) (size : option Z) : io jsstr :=
  ioLift (safeFileName name SAFE_FILE_NAME_BYTES);;
  match size with
  | None =>
    token ← call (RandomBytes (PART_FILE_TOKEN_HEX_CHARS / 2));
    Return (js "ff-" ++ bytesToHex token)
  | Some size =>
    secret ← readOrCreateResumeSecret outputDir;
    Return (js "ff-" ++ slice 0 PART_FILE_TOKEN_HEX_CHARS (resumeDigest secret "ff-output-v1" name size))
  end.

(** [resumablePartFileName] *)
Definition resumablePartFileName (outputDir finalName : jsstr) (size : Z) : io jsstr :=
  secret ← readOrCreateResumeSecret outputDir;
  Return (js "ff-resume-" ++ resumeDigest secret "ff-resume-v1" finalName size ++ PART_FILE_SUFFIX).

(** ** Reserving *)

(** [createOutputPart] *)
Definition createOutputPart (finalPath partPath outputDir : jsstr) (outputDirIdentity : FileIdentity) (privateOutputDir : bool) : io ReservedOutputFile :=
  assertDirectoryIdentity outputDir outputDirIdentity privateOutputDir;;
  handle ← call (OpenNew partPath);
  stat ← iotry (call (HandleStat handle));
  match stat with
  | inr e => closeQuietly handle;; Raise e
  | inl s =>
    iocatch
      (assertDirectoryIdentity outputDir outputDirIdentity privateOutputDir;;
       Return {| ro_finalPath := finalPath; ro_partPath := partPath; ro_handle := handle; ro_part := identityOf s; ro_dir := outputDirIdentity;
                 ro_resumeBytes := 0; ro_resumeHash := None |})
      (λ e,
        closeQuietly handle;;
        iocatch (removePathIfIdentity partPath (identityOf s)) (λ _, Return ());;
        Raise e)
  end.

(** The [try] block of [reserveExistingResumablePart] *)
Definition resumeOpenPart (finalPath partPath outputDir : jsstr) (outputDirIdentity : FileIdentity) (expectedSize : Z) (privateOutputDir : bool) (handle : nat) : io ReservedOutputFile :=
  stat ← call (HandleStat handle);
  ioCheck (isFile stat) "Resume partial path is not a file.";;
  ioLift (assertSingleLink stat "Resume partial");;
  ioLift (assertPrivatePartialStat stat);;
  assertDirectoryIdentity outputDir outputDirIdentity privateOutputDir;;
  let resumeBytes := resumePrefix (st_size stat) expectedSize in
  ioWhen (negb (resumeBytes =? st_size stat)) (call (HandleTruncate handle resumeBytes));;
  afterTruncateStat ← call (HandleStat handle);
  ioCheck (sameFileSnapshot afterTruncateStat {| snapshotFile := identityOf stat; snapshotSize := resumeBytes |}) "Resume partial changed while hashing.";;
  expectedSnapshot ← fileMutationSnapshot handle;
  resumeHash ← hashOpenFilePrefix handle resumeBytes expectedSnapshot;
  Return {| ro_finalPath := finalPath; ro_partPath := partPath; ro_handle := handle; ro_part := identityOf stat; ro_dir := outputDirIdentity;
            ro_resumeBytes := resumeBytes; ro_resumeHash := Some resumeHash |}.

(** [reserveExistingResumablePart] *)
Definition reserveExistingResumablePart (finalPath partPath outputDir : jsstr) (outputDirIdentity : FileIdentity) (expectedSize : Z) (privateOutputDir : bool) : io ReservedOutputFile :=
  assertDirectoryIdentity outputDir outputDirIdentity privateOutputDir;;
  handle ← call (OpenNoFollow partPath true);
  iocatch (resumeOpenPart finalPath partPath outputDir outputDirIdentity expectedSize privateOutputDir handle)
    (λ e, closeQuietly handle;; Raise e).

(** One iteration of the loop of [reserveOutputFile]; none when it continues *)
Definition reserveCandidate (outputDir : jsstr) (outputDirIdentity : FileIdentity) (safeName : jsstr) (resumeSize : option Z) (privateOutputDir : bool) (i : Z) : io (option ReservedOutputFile) :=
  assertDirectoryIdentity outputDir outputDirIdentity privateOutputDir;;
  candidateName ← ioLift (safeCollisionFileName safeName i SAFE_FILE_NAME_BYTES);
  let finalPath := joinPath outputDir candidateName in
  taken ← unlessCode (call (Lstat finalPath)) ENOENT;
  match taken with
  | Some _ => Return None
  | None =>
    match resumeSize with
    | Some size =>
      partName ← resumablePartFileName outputDir candidateName size;
      let partPath := joinPath outputDir partName in
      existing ← unlessCode (reserveExistingResumablePart finalPath partPath outputDir outputDirIdentity size privateOutputDir) ENOENT;
      match existing with
      | Some reserved => Return (Some reserved)
      | None => unlessCode (createOutputPart finalPath partPath outputDir outputDirIdentity privateOutputDir) EEXIST
      end
    | None =>
      partName ← randomPartFileName;
      unlessCode (createOutputPart finalPath (joinPath outputDir partName) outputDir outputDirIdentity privateOutputDir) EEXIST
    end
  end.

(** The loop of [reserveOutputFile] *)
Fixpoint reserveLoop (attempts : nat) (outputDir : jsstr) (outputDirIdentity : FileIdentity) (safeName : jsstr) (resumeSize : option Z) (privateOutputDir : bool) (i : Z) : io ReservedOutputFile :=
  match attempts with
  | O => Raise (Thrown (js "Could not reserve an output name for " ++ safeName ++ js " after " ++ jsInt MAX_OUTPUT_NAME_ATTEMPTS ++ js " attempts."))
  | S attempts =>
    reserved ← reserveCandidate outputDir outputDirIdentity safeName resumeSize privateOutputDir i;
    match reserved with
    | Some reserved => Return reserved
    | None => reserveLoop attempts outputDir outputDirIdentity safeName resumeSize privateOutputDir (i + 1)
    end
  end.

(** [reserveOutputFile] *)
Definition reserveOutputFile (dir : jsval) (name : jsstr) (options : ReserveOptions) : io ReservedOutputFile :=
  input ← ioLift (outputDirInput dir);
  let outputDir := resolvePath input in
  outputDirIdentity ← directoryIdentity outputDir (op_privateOutputDir options);
  ioWhen (op_resume options) (ioLift assertCliResumeSupported);;
  resumeSize ← (if op_resume options then size ← ioLift (resumeFileSize (op_size options)); Return (Some size) else Return None);
  safeName ← (if op_opaqueName options then opaqueOutputFileName outputDir name resumeSize else ioLift (safeFileName name SAFE_FILE_NAME_BYTES));
  reserveLoop (Z.to_nat MAX_OUTPUT_NAME_ATTEMPTS) outputDir outputDirIdentity safeName resumeSize (op_privateOutputDir options) 0.

End Files.
