(* ===== verification/FilesProps.v ===== *)
(** * FilesProps: what preparing and reserving give, whatever happens.

    [always m Q]: however others interfere and whichever calls fail, [m] ends,
    and if it returns a value, [Q] holds of it.  The theorems need nothing of
    the environment. *)
From S2P Require Import Prelude.
From S2P Require Import Constants.
From S2P Require Import JsText.
From S2P Require Import JsValue.
From S2P Require Import Authority.
From S2P Require Import Protocol.
From S2P Require Import Messages.
From S2P Require Import Limits.
From S2P Require Import Bytes.
From S2P Require Import Crypto.
From S2P Require Import Pake.
From S2P Require Import FileStat.
From S2P Require Import FileSystem.
From S2P Require Import ReceiverState.
From S2P Require Import Receiver.
From S2P Require Import Publish.
From S2P Require Import SendPlan.
From S2P Require Import Files.
#[local] Open Scope Z_scope.

(** ** Always *)

(** The names that a call may change, or whose files it opens for writing *)
Definition touched {A} (c : Sys A) : list jsstr :=
  match c with Link _ q => [q] | Rename p q => [p; q] | RmForce p | OpenNew p | OpenNoFollow p true => [p] | _ => [] end.

(** Only names in [own] change; what exists changes only through a handle for
    writing, and such a handle is opened only for a file with an own name. *)
Record ownOnly (own : jsstr → Prop) (fs fs' : Fs) : Prop := {
  oo_names p : ¬ own p → names fs' !! p = names fs !! p;
  oo_inodes id n : inodes fs !! id = Some n → inodes fs' !! id = Some n ∨
    ∃ h f, handles fs !! h = Some f ∧ of_inode f = id ∧ of_writable f = true;
  oo_handles h f : handles fs' !! h = Some f → of_writable f = true →
    (∃ g, handles fs !! h = Some g ∧ of_inode g = of_inode f ∧ of_writable g = true) ∨ ∃ p, own p ∧ names fs' !! p = Some (of_inode f)
}.

Lemma ownOnly_same own fs fs' :
  (∀ p, ¬ own p → names fs' !! p = names fs !! p) → inodes fs' = inodes fs → handles fs' ⊆ handles fs → ownOnly own fs fs'.
Proof.
  intros Hn Hi Hh. split; [done| |].
  - intros id n Hid. left. by rewrite Hi.
  - intros h f Hf Hw. left. exists f. split_and!; [by eapply lookup_weaken|done..].
Qed.

Lemma ownOnly_refl own fs : ownOnly own fs fs.
Proof. by apply ownOnly_same. Qed.

Lemma ownOnly_withHandle own {A} fs h (k : OpenFile → Inode → (A + Errno) * Fs) :
  (∀ f n, handles fs !! h = Some f → inodes fs !! of_inode f = Some n → ownOnly own fs (k f n).2) → ownOnly own fs (withHandle fs h k).2.
Proof.
  intros Hk. unfold withHandle. destruct (handles fs !! h) as [f|] eqn:Eh; [|apply ownOnly_refl].
  destruct (inodes fs !! of_inode f) as [n|] eqn:En; [by apply Hk|apply ownOnly_refl].
Qed.

(** A write or truncation through a handle *)
Lemma ownOnly_write own fs h f n n' f' :
  handles fs !! h = Some f → inodes fs !! of_inode f = Some n → of_writable f = true → of_inode f' = of_inode f →
  ownOnly own fs (set_handles <[h := f']> (set_inodes <[of_inode f := n']> fs)).
Proof.
  intros Hh Hn Hw Hf. split; cbn [set_handles set_inodes names inodes handles]; [done| |].
  - intros id m Hm. destruct (decide (id = of_inode f)) as [->|]; [right; by exists h, f|]. left. by rewrite lookup_insert_ne.
  - intros h' g Hg Hgw. left. destruct (decide (h' = h)) as [->|]; [|rewrite lookup_insert_ne in Hg by done; by exists g].
    rewrite lookup_insert_eq in Hg. injection Hg as <-. by exists f.
Qed.

Lemma touched_own own {A} (c : Sys A) t fs : Forall own (touched c) → ownOnly own fs (perform c t fs).2.
Proof.
  intros Ho. destruct c as [p|p|p q|p q|p|p w|p|h|h|h len pos|h data|h len|h|n]; cbn [touched perform] in *;
    try apply ownOnly_refl; try (apply ownOnly_withHandle; intros f n Hh Hn; try apply ownOnly_refl).
  - decompose_Forall. repeat case_match; try apply ownOnly_refl. apply ownOnly_same; [|done..]. intros o Hno.
    apply lookup_insert_ne. by intros ->.
  - decompose_Forall. repeat case_match; try apply ownOnly_refl. apply ownOnly_same; [|done..]. intros o Hno.
    cbn [snd set_names names]. rewrite lookup_insert_ne, lookup_delete_ne; [done|by intros ->..].
  - decompose_Forall. apply ownOnly_same; [|done..]. intros o Hno. apply lookup_delete_ne. by intros ->.
  - unfold lookupPath. destruct (names fs !! p) as [id|] eqn:Ep; [|apply ownOnly_refl]. destruct (inodes fs !! id); [|apply ownOnly_refl].
    repeat case_bool_decide; try apply ownOnly_refl. split; cbn [snd set_handles names inodes handles]; [done|by left|].
    intros h g Hg Hgw. destruct (decide (h = newHandle t)) as [->|].
    + rewrite lookup_insert_eq in Hg. injection Hg as <-. cbn [of_writable of_inode] in *. subst w. decompose_Forall. right. by exists p.
    + rewrite lookup_insert_ne in Hg by done. left. by exists g.
  - decompose_Forall. case_bool_decide; [apply ownOnly_refl|]. destruct (bool_decide (is_Some (inodes fs !! newInode t))) eqn:Hi; [apply ownOnly_refl|].
    destruct (bool_decide (is_Some (handles fs !! newHandle t))); [apply ownOnly_refl|].
    cbn [orb]. split; cbn [snd set_handles set_inodes set_names names inodes handles].
    + intros o Hno. apply lookup_insert_ne. by intros ->.
    + intros id m Hm. left. rewrite lookup_insert_ne; [done|]. intros <-. by rewrite Hm in Hi.
    + intros h g Hg Hgw. destruct (decide (h = newHandle t)) as [->|].
      * rewrite lookup_insert_eq in Hg. injection Hg as <-. right. exists p. split; [done|]. apply lookup_insert_eq.
      * rewrite lookup_insert_ne in Hg by done. left. by exists g.
  - destruct (of_writable f) eqn:Hw; [|apply ownOnly_refl]. by eapply ownOnly_write.
  - destruct (of_writable f) eqn:Hw; [|apply ownOnly_refl]. cbn [snd].
    replace (set_inodes _ fs) with (set_handles <[h := f]> (set_inodes <[of_inode f := {| in_kind := in_kind n;
      in_content := take (Z.to_nat len) (in_content n ++ replicate (Z.to_nat len - length (in_content n)) 0);
      in_target := in_target n; in_mode := in_mode n; in_uid := in_uid n |}]> fs)); [by eapply ownOnly_write|].
    unfold set_handles, set_inodes. cbn [names inodes handles]. by rewrite (insert_id (handles fs)).
  - apply ownOnly_same; [done..|]. apply delete_subseteq.
Qed.

Create HintDb ends.

Section General.
Context {own : jsstr → Prop}.

Definition always {A} (m : io A) (Q : A → Prop) : Prop :=
  ∀ fs, fwp (λ _ _, True) (λ _ _ _ _, True) (ownOnly own) m (λ a _, Q a) (λ _ _, True) fs.
#[local] Abbreviation ends m := (always m (λ _, True)).

Lemma always_run {A} (m : io A) Q env n fs :
  always m Q → ∃ out fs' steps, run env n m fs = Some (out, fs', steps) ∧ Forall (λ s, ownOnly own s.1 s.2) steps ∧ ∀ a, out = inl a → Q a.
Proof.
  intros Hm. destruct (fwp_run (λ _ _, True) (λ _ _ _ _, True) (ownOnly own) m (λ a _, Q a) (λ _ _, True) env n fs (Hm fs)) as (out & fs' & steps & Hrun & Hs & Ho).
  { clear Hm. revert n fs. induction m as [a|e|B c k IH|]; intros n fs; cbn [permitted]; auto. }
  exists out, fs', steps. split_and!; [done..|]. by intros a ->.
Qed.

Lemma always_mono {A} (m : io A) (P Q : A → Prop) : always m P → (∀ a, P a → Q a) → always m Q.
Proof. intros Hm HPQ fs. eapply fwp_mono; [apply Hm|cbv beta; intros a _; apply HPQ|done]. Qed.

Lemma always_return {A} (a : A) (Q : A → Prop) : Q a → always (Return a) Q.
Proof. by intros HQ fs. Qed.

Lemma always_raise {A} e (Q : A → Prop) : always (Raise e) Q.
Proof. by intros fs. Qed.

Lemma always_bind {A B} (m : io A) (f : A → io B) P Q : always m P → (∀ a, P a → always (f a) Q) → always (m ≫= f) Q.
Proof. intros Hm Hf fs. apply fwp_bind. eapply fwp_mono; [apply Hm|cbv beta; intros a s Ha; by apply Hf|done]. Qed.

Lemma always_then {A B} (m : io A) (f : A → io B) Q : ends m → (∀ a, always (f a) Q) → always (m ≫= f) Q.
Proof. intros Hm Hf. by eapply always_bind. Qed.

Lemma always_catch {A} (m : io A) h Q : always m Q → (∀ e, always (h e) Q) → always (iocatch m h) Q.
Proof. intros Hm Hh fs. apply fwp_catch. eapply fwp_mono; [apply Hm|done|cbv beta; intros e s _; apply Hh]. Qed.

Lemma always_try {A} (m : io A) (Q : A + Failure → Prop) : always m (λ a, Q (inl a)) → (∀ e, Q (inr e)) → always (iotry m) Q.
Proof. intros Hm He. apply always_catch; [|intros e; by apply always_return]. eapply always_bind; [exact Hm|]. intros a Ha. by apply always_return. Qed.

Lemma always_finally {A} (m : io A) c Q : always m Q → ends c → always (iofinally m c) Q.
Proof.
  intros Hm Hc. eapply (always_bind _ _ (λ r, ∀ a, r = inl a → Q a)).
  - apply always_try; [|done]. eapply always_mono; [exact Hm|]. by intros a Ha a' [= <-].
  - intros r Hr. apply always_then; [exact Hc|]. intros _. destruct r as [a|e]; [by apply always_return, Hr|apply always_raise].
Qed.

Lemma always_unless {A} (m : io A) code Q : always m Q → always (unlessCode m code) (λ r, ∀ a, r = Some a → Q a).
Proof.
  intros Hm. apply always_catch.
  - eapply always_bind; [exact Hm|]. intros a Ha. apply always_return. by intros a' [= <-].
  - intros e. destruct (isNodeErrorCode e code); [by apply always_return|apply always_raise].
Qed.

Lemma always_call {A} (c : Sys A) (Q : A → Prop) : Forall own (touched c) → (∀ t fs a, (perform c t fs).1 = inl a → Q a) → always (call c) Q.
Proof.
  intros Ho HQ fs. apply fwp_call; [by apply ownOnly_refl|done|]. intros t s _ _. split; [by apply touched_own|]. destruct (perform c t s) as [[a|e] s'] eqn:E; cbn [fst snd]; [|done].
  apply (HQ t s). by rewrite E.
Qed.

Lemma ends_call {A} (c : Sys A) : Forall own (touched c) → ends (call c).
Proof. intros Ho. by apply always_call. Qed.

Lemma always_lift {A} (r : result A) (Q : A → Prop) : (∀ a, r = Ok a → Q a) → always (ioLift r) Q.
Proof. intros HQ fs. destruct r; [by apply HQ|done]. Qed.

Lemma always_check b message : always (ioCheck b message) (λ _, b = true).
Proof. apply always_lift. by destruct b. Qed.

Lemma ends_when b m : ends m → ends (ioWhen b m).
Proof. intros Hm. destruct b; [done|by apply always_return]. Qed.

(** A read gives at most what was asked for, a write takes at least a byte. *)
Lemma always_read h len pos : always (call (HandleRead h len pos)) (λ l, Z.of_nat (length l) <= Z.max 0 len).
Proof.
  apply always_call; [constructor|]. intros t fs a. cbn [perform]. unfold withHandle. destruct (handles fs !! h) as [f|]; [|done].
  destruct (inodes fs !! of_inode f) as [n|]; [|done]. intros [= <-]. rewrite length_take. lia.
Qed.

Lemma always_write h data : data ≠ [] → always (call (HandleWrite h data)) (λ n, 0 < n).
Proof.
  intros Hd. apply always_call; [constructor|]. intros t fs a. cbn [perform]. unfold withHandle. destruct (handles fs !! h) as [f|]; [|done].
  destruct (inodes fs !! of_inode f) as [n|]; [|done]. destruct (of_writable f); [|done]. cbn [fst]. intros [= <-].
  destruct data as [|b data]; [done|]. rewrite length_take. cbn [length]. lia.
Qed.

Lemma always_random n : 0 <= n → always (call (RandomBytes n)) (bytesOf n).
Proof.
  intros Hn. apply always_call; [constructor|]. intros t fs a [= <-]. rewrite <-(Z2Nat.id n) at 1 by done. apply randomBytes_size.
Qed.

Lemma always_stat h : always (call (HandleStat h)) (λ s, 0 <= st_size s).
Proof.
  apply always_call; [constructor|]. intros t fs a. cbn [perform]. unfold withHandle. destruct (handles fs !! h) as [f|]; [|done].
  destruct (inodes fs !! of_inode f) as [n|]; [|done]. intros [= <-]. cbn [statOf st_size]. lia.
Qed.

End General.
Arguments always own {A} m Q.
#[export] Hint Extern 1 (Forall _ (touched _)) => constructor : ends.

#[export] Hint Resolve ends_call always_raise ends_when : ends.
#[export] Hint Extern 1 (always _ (Return _) _) => apply always_return : ends.
#[export] Hint Extern 1 (always _ (ioLift _) _) => apply always_lift : ends.
#[export] Hint Extern 2 (always _ (ioCheck _ _) _) => apply always_lift : ends.

(** Through a program of which only the end matters *)
Ltac ends_step :=
  match goal with
  | |- ∀ _, _ => intros ?
  | |- always _ (ioWhen _ _) _ => apply ends_when
  | |- always _ (_ ≫= _) _ => apply always_then; [|intros ?]
  | |- always _ (iocatch _ _) _ => apply always_catch; [|intros ?]
  | |- always _ (iotry _) _ => apply always_try
  | |- always _ (iofinally _ _) _ => apply always_finally
  | |- always _ (if ?b then _ else _) _ => destruct b
  | |- always _ (match ?x with _ => _ end) _ => destruct x
  | |- always _ _ _ => solve [eauto with ends]
  | |- True => exact I
  end.
Ltac solve_ends := solve [repeat ends_step; try done].

(** ** Paths in the output directory *)

(** A segment of a path that [path.normalize] leaves as it is *)
Definition plainSegment (s : jsstr) : Prop := s ≠ [] ∧ s ≠ js "." ∧ s ≠ js ".." ∧ SLASH ∉ s.

Lemma plain_segments allow segs before : Forall plainSegment segs → normalSegments allow segs before = reverse before ++ segs.
Proof.
  intros Hs. revert before. induction Hs as [|s segs (H1 & H2 & H3 & _) _ IH]; intros before; cbn [normalSegments]; [by rewrite app_nil_r|].
  rewrite !bool_decide_eq_false_2 by done. cbn [orb]. by rewrite IH, reverse_cons, <-app_assoc.
Qed.

Lemma normalSegments_plain segs before :
  Forall (λ s, SLASH ∉ s) segs → Forall plainSegment before → Forall plainSegment (normalSegments false segs before).
Proof.
  intros Hs. revert before. induction Hs as [|s segs Hn _ IH]; intros before Hb; cbn [normalSegments]; [by apply Forall_reverse|].
  destruct (bool_decide (s = []) || bool_decide (s = js ".")) eqn:E; [by apply IH|].
  apply orb_false_iff in E as [H1%bool_decide_eq_false H2%bool_decide_eq_false].
  case_bool_decide as H3; [|by apply IH; constructor].
  destruct before as [|b before]; [by apply IH|]. inversion Hb; subst. case_bool_decide; by apply IH.
Qed.

Lemma resolvePath_shape `{WorkingDirectory} p : ∃ segs, Forall plainSegment segs ∧ resolvePath p = SLASH :: joinWith [SLASH] segs.
Proof.
  eexists. split; [|done]. apply normalSegments_plain; [|done]. apply Forall_forall. intros s. apply splitOn_part.
Qed.

Lemma splitOn_joinWith segs rest :
  segs ≠ [] → Forall (λ s, SLASH ∉ s) segs → splitOn SLASH (joinWith [SLASH] segs ++ SLASH :: rest) = segs ++ splitOn SLASH rest.
Proof.
  intros Hne Hs. induction Hs as [|s segs Hn Hs IH]; [done|]. rewrite joinWith_cons. destruct segs as [|s' segs].
  - by rewrite splitOn_app.
  - rewrite <-!app_assoc. cbn [app]. rewrite splitOn_app by done. cbn [app]. f_equal. by apply IH.
Qed.

Lemma splitOn_slash s : splitOn SLASH (SLASH :: s) = [] :: splitOn SLASH s.
Proof. exact (splitOn_app SLASH [] s (not_elem_of_nil _)). Qed.

(** A plain name in a resolved directory is one segment below it. *)
Lemma joinPath_plain segs base :
  Forall plainSegment segs → plainSegment base →
  joinPath (SLASH :: joinWith [SLASH] segs) base = SLASH :: joinWith [SLASH] (segs ++ [base]).
Proof.
  intros Hs Hb. pose proof Hb as (Hne & _ & _ & Hn). unfold joinPath, normalizePath.
  assert (splitOn SLASH ((SLASH :: joinWith [SLASH] segs) ++ [SLASH] ++ base) = [] :: (if decide (segs = []) then [[]] else segs) ++ [base]) as ->.
  { cbn [app]. rewrite splitOn_slash. f_equal. case_decide as He.
    - subst segs. cbn [joinWith app]. rewrite splitOn_slash. by rewrite splitOn_single.
    - rewrite splitOn_joinWith; [by rewrite splitOn_single|done|]. eapply Forall_impl; [exact Hs|]. by intros s (_ & _ & _ & ?). }
  rewrite (bool_decide_eq_true_2 (head _ = _)) by done. cbn [negb].
  assert (normalSegments false ([] :: (if decide (segs = []) then [[]] else segs) ++ [base]) [] = segs ++ [base]) as ->.
  { change (normalSegments false ([] :: ?l) []) with (normalSegments false l []). case_decide as He.
    - subst segs. change (normalSegments false [base] [] = [base]). apply plain_segments. by constructor.
    - apply plain_segments. apply Forall_app. split; [done|]. by constructor. }
  rewrite (bool_decide_eq_false_2 (last _ = _)); cycle 1.
  { rewrite (app_assoc _ [SLASH]), last_app. destruct (last base) as [c|] eqn:El; [|by apply last_None in El].
    intros [= ->]. apply Hn. by apply last_Some_elem_of. }
  destruct (joinWith [SLASH] (segs ++ [base])) as [|c t] eqn:Ej; [|by rewrite app_nil_r].
  exfalso. destruct segs as [|s segs]; cbn [app] in Ej; rewrite joinWith_cons in Ej; [done|]. inversion Hs as [|? ? (? & _)]; subst.
  destruct (segs ++ [base]); by destruct s.
Qed.

Lemma nameOk_plain n base : nameOk n base → plainSegment base.
Proof.
  intros [Hne Hu Hh _]. split_and!; [done|by intros ->..|]. intros Hin. rewrite Forall_forall in Hu. by destruct (Hu _ Hin) as [_ Hp].
Qed.

(** The directory of a path that was joined from a directory and a plain name *)
Lemma dropSlashes_id l : head l ≠ Some SLASH → dropSlashes l = l.
Proof. destruct l as [|c l]; [done|]. cbn. intros Hc. rewrite (proj2 (Z.eqb_neq c SLASH)); [done|congruence]. Qed.

Lemma dropToSlash_app l rest : SLASH ∉ l → dropToSlash (l ++ SLASH :: rest) = SLASH :: rest.
Proof.
  induction l as [|c l IH]; intros Hn; [done|]. apply not_elem_of_cons in Hn as [Hc Hn]. cbn [app].
  change (dropToSlash (c :: l ++ SLASH :: rest)) with (if c =? SLASH then c :: l ++ SLASH :: rest else dropToSlash (l ++ SLASH :: rest)).
  rewrite (proj2 (Z.eqb_neq c SLASH)) by congruence. by apply IH.
Qed.

Lemma dropToSlash_none l : SLASH ∉ l → dropToSlash l = [].
Proof.
  induction l as [|c l IH]; intros Hn; [done|]. apply not_elem_of_cons in Hn as [Hc Hn].
  change (dropToSlash (c :: l)) with (if c =? SLASH then c :: l else dropToSlash l). rewrite (proj2 (Z.eqb_neq c SLASH)) by congruence. by apply IH.
Qed.

Lemma joinWith_last segs base : segs ≠ [] → joinWith [SLASH] (segs ++ [base]) = joinWith [SLASH] segs ++ SLASH :: base.
Proof.
  induction segs as [|s segs IH]; [done|]. intros _. cbn [app]. rewrite !joinWith_cons. destruct segs as [|s' segs]; [done|].
  cbn [app] in *. rewrite IH by done. by rewrite <-!app_assoc.
Qed.

Lemma dirname_plain segs base :
  Forall plainSegment segs → plainSegment base → dirname (SLASH :: joinWith [SLASH] (segs ++ [base])) = SLASH :: joinWith [SLASH] segs.
Proof.
  intros Hs (Hne & _ & _ & Hb). assert (SLASH ∉ rev base) as Hr by (by rewrite list_elem_of_In, <-in_rev, <-list_elem_of_In).
  assert (∀ l, dropSlashes (rev base ++ l) = rev base ++ l) as Hd.
  { intros l. apply dropSlashes_id. destruct (rev base) as [|c r] eqn:E; [by apply (f_equal (@rev Z)) in E; rewrite rev_involutive in E|].
    cbn. intros [= ->]. apply Hr. by left. }
  destruct (decide (segs = [])) as [->|Hse]; unfold dirname.
  - cbn [app joinWith]. pose proof (Hd []) as Hd'. rewrite app_nil_r in Hd'. by rewrite Hd', dropToSlash_none.
  - rewrite joinWith_last by done. rewrite rev_app_distr. cbn [rev]. rewrite <-app_assoc. cbn [app]. rewrite Hd, dropToSlash_app by done.
    rewrite bool_decide_eq_false_2; [by rewrite andb_false_r, rev_involutive|]. intros E. apply (f_equal (@rev Z)) in E. rewrite rev_involutive in E.
    destruct segs as [|s segs]; [done|]. inversion Hs as [|? ? (Hn & _)]; subst. rewrite joinWith_cons in E. destruct segs; [done|]. by destruct s.
Qed.

Section Always.
Context `{Crypto, JsCase, Platform, Process, WorkingDirectory}.
Variable own : jsstr → Prop.
#[local] Abbreviation always := (always own).
#[local] Abbreviation ends m := (always m (λ _, True)).

(** ** Streams *)

Lemma closeQuietly_ends h : ends (closeQuietly h).
Proof. unfold closeQuietly. solve_ends. Qed.
#[local] Hint Resolve closeQuietly_ends : ends.

Lemma fileMutationSnapshot_ends h : ends (fileMutationSnapshot h).
Proof. unfold fileMutationSnapshot. solve_ends. Qed.
#[local] Hint Resolve fileMutationSnapshot_ends : ends.

Lemma hashPrefixStream_ends fuel h bytes hash :
  byteLength hash <= bytes → bytes - byteLength hash < Z.of_nat fuel → ends (hashPrefixStream fuel h bytes hash).
Proof.
  revert hash. induction fuel as [|fuel IH]; intros hash Hl Hf; cbn [hashPrefixStream]; [lia|].
  destruct (Z.leb_spec bytes (byteLength hash)); [solve_ends|]. apply always_then; [solve_ends|]. intros payload.
  destruct (Z.eqb_spec (byteLength payload) 0); [solve_ends|]. eapply always_bind; [apply always_check|]. intros [] Hc.
  unfold byteLength in *. apply IH; unfold byteLength; rewrite length_app; lia.
Qed.

Lemma hashOpenFilePrefix_always h bytes expected :
  0 <= bytes → always (hashOpenFilePrefix h bytes expected) (λ hash, byteLength hash = bytes).
Proof.
  intros Hb. eapply (always_bind _ _ (λ hash, byteLength hash = bytes)).
  - destruct (Z.ltb_spec 0 bytes); [|apply always_return; unfold byteLength; cbn [length]; lia].
    apply always_then; [apply hashPrefixStream_ends; unfold byteLength; cbn [length]; lia|]. intros hash.
    eapply always_bind; [apply always_check|]. intros [] Hc. apply always_return. lia.
  - intros hash Hh. apply always_then; [solve_ends|]. intros actual. apply always_then; [solve_ends|]. intros _. by apply always_return.
Qed.

Lemma hashFileStream_always fuel h size hash chunks :
  byteLength hash <= size → size - byteLength hash < Z.of_nat fuel - 1 →
  ends (hashFileStream fuel h size hash chunks).
Proof.
  revert hash chunks. induction fuel as [|fuel IH]; intros hash chunks Hl Hf; cbn [hashFileStream]; [lia|].
  apply always_then; [solve_ends|]. intros payload. destruct (Z.eqb_spec (byteLength payload) 0); [solve_ends|].
  eapply always_bind; [apply always_check|]. intros [] Hc. unfold byteLength in *. apply IH; unfold byteLength; rewrite length_app; lia.
Qed.

(** ** Directories and the secret *)

Lemma assertPrivateOutputParent_ends dir : ends (assertPrivateOutputParent dir).
Proof. unfold assertPrivateOutputParent. solve_ends. Qed.
#[local] Hint Resolve assertPrivateOutputParent_ends : ends.

Lemma outputDirectoryStat_ends dir private : ends (outputDirectoryStat dir private).
Proof. unfold outputDirectoryStat. solve_ends. Qed.
#[local] Hint Resolve outputDirectoryStat_ends : ends.

Lemma directoryIdentity_ends dir private : ends (directoryIdentity dir private).
Proof. unfold directoryIdentity. solve_ends. Qed.
#[local] Hint Resolve directoryIdentity_ends : ends.

Lemma assertDirectoryIdentity_ends dir expected private : ends (assertDirectoryIdentity dir expected private).
Proof. unfold assertDirectoryIdentity. solve_ends. Qed.
#[local] Hint Resolve assertDirectoryIdentity_ends : ends.

Lemma readResumeSecret_ends path : ends (readResumeSecret path).
Proof. unfold readResumeSecret. solve_ends. Qed.
#[local] Hint Resolve readResumeSecret_ends : ends.

(** A path may be removed when it and its quarantine names are own. *)
Definition removable (path : jsstr) : Prop := own path ∧ ∀ token, bytesOf 8 token → own (joinPath (dirname path) (quarantineName token)).

Lemma quarantineLoop_ends attempts path matches : removable path → ends (quarantineLoop attempts path matches).
Proof.
  intros [Hp Hq]. induction attempts as [|attempts IH]; cbn [quarantineLoop]; [solve_ends|]. unfold cleanupQuarantinePath.
  eapply (always_bind _ _ own). { eapply always_bind; [apply (always_random 8); lia|]. intros token Ht. by apply always_return, Hq. }
  intros q Hown. assert (ends (call (Rename path q))) by (apply ends_call; by repeat constructor).
  assert (ends (call (RmForce q))) by (apply ends_call; by repeat constructor). unfold quarantineAttempt. solve_ends.
Qed.

Lemma removePathIfIdentity_ends path expected : removable path → ends (removePathIfIdentity path expected).
Proof. apply quarantineLoop_ends. Qed.

Lemma openNew_ends path : removable path → ends (call (OpenNew path)).
Proof. intros [Hp _]. apply ends_call. by repeat constructor. Qed.
#[local] Hint Resolve removePathIfIdentity_ends openNew_ends : ends.

Lemma writeAllLoop_ends fuel h rest : (length rest <= fuel)%nat → ends (writeAllLoop fuel h rest).
Proof.
  revert rest. induction fuel as [|fuel IH]; intros [|b rest] Hl; cbn [writeAllLoop]; cbn [length] in Hl; [by apply always_return|lia|by apply always_return|].
  eapply always_bind; [by apply always_write|]. intros n Hn. cbv beta in Hn. rewrite (proj2 (Z.leb_gt _ _)) by lia. apply IH.
  rewrite length_drop. cbn [length]. lia.
Qed.

Lemma writeAll_ends h data : ends (writeAll h data).
Proof. by apply writeAllLoop_ends. Qed.
#[local] Hint Resolve writeAll_ends : ends.

(** The names of partials, and the files that a reservation makes *)
Definition hexText (n : nat) (text : jsstr) : Prop := Forall hexUnit text ∧ length text = n.
Definition isPartName (base : jsstr) : Prop :=
  ∃ token, hexText 32 token ∧ base = js "ff-" ++ token ++ PART_FILE_SUFFIX ∨ hexText 64 token ∧ base = js "ff-resume-" ++ token ++ PART_FILE_SUFFIX.
(** An output name that tells nothing *)
Definition isOpaqueName (base : jsstr) : Prop := ∃ token, hexText 32 token ∧ base = js "ff-" ++ token.

Lemma bytesToHex_text n l : bytesOf (Z.of_nat n) l → hexText (2 * n) (bytesToHex l).
Proof. intros [Hb Hl]. split; [by apply bytesToHex_hex|]. rewrite bytesToHex_length. unfold byteLength in Hl. lia. Qed.

Variable dir : jsstr.
Context (Hdir : ∀ base, base = RESUME_SECRET_FILE ∨ isPartName base → removable (joinPath dir base)).

Lemma readOrCreateResumeSecret_ends : ends (readOrCreateResumeSecret dir).
Proof using Hdir.
  assert (removable (joinPath dir RESUME_SECRET_FILE)) by (apply Hdir; by left). unfold readOrCreateResumeSecret, unlessCode, createResumeSecret, writeResumeSecret. solve_ends.
Qed.
#[local] Hint Resolve readOrCreateResumeSecret_ends : ends.

(** ** Reserving *)

(** What the receiver relies on in a reserved file *)
Definition reservedOk (size : Z) (o : ReservedOutputFile) : Prop :=
  0 <= ro_resumeBytes o <= size ∧ (ro_resumeBytes o = size ∨ ro_resumeBytes o mod CHUNK_SIZE = 0) ∧
  byteLength (default [] (ro_resumeHash o)) = ro_resumeBytes o.

Definition reservedAs (size : Z) (final part : jsstr) (o : ReservedOutputFile) : Prop := reservedOk size o ∧ ro_finalPath o = final ∧ ro_partPath o = part.

Lemma createOutputPart_always final part d private size : removable part → 0 <= size → always (createOutputPart final part dir d private) (reservedAs size final part).
Proof.
  intros Hp Hs. unfold createOutputPart. apply always_then; [solve_ends|]. intros _. apply always_then; [solve_ends|]. intros handle.
  apply always_then; [solve_ends|]. intros [s|e]; [|solve_ends].
  apply always_catch; [|solve_ends]. apply always_then; [solve_ends|]. intros _. apply always_return.
  unfold reservedAs, reservedOk. cbn [ro_resumeBytes ro_resumeHash ro_finalPath ro_partPath default]. split_and!; try done; right; by rewrite Z.mod_0_l.
Qed.

Lemma reserveExisting_always final part d size private : removable part → 0 <= size → always (reserveExistingResumablePart final part dir d size private) (reservedAs size final part).
Proof.
  intros [Hp _] Hs. unfold reserveExistingResumablePart. apply always_then; [solve_ends|]. intros _.
  apply always_then; [apply ends_call; by repeat constructor|]. intros handle.
  apply always_catch; [|solve_ends]. unfold resumeOpenPart. eapply always_bind; [apply always_stat|]. intros stat Hst.
  do 4 (apply always_then; [solve_ends|]; intros _). pose proof (resumePrefix_spec (st_size stat) size Hst Hs) as (Hle & Hm & _).
  set (bytes := resumePrefix (st_size stat) size) in *. apply always_then; [solve_ends|]. intros _.
  apply always_then; [solve_ends|]. intros after. apply always_then; [solve_ends|]. intros _. apply always_then; [solve_ends|]. intros snapshot.
  eapply always_bind; [apply hashOpenFilePrefix_always; lia|]. intros hash Hh. apply always_return. split; [|done]. split_and!; [cbn [ro_resumeBytes]; lia..|exact Hm|exact Hh].
Qed.

Lemma resumablePartFileName_always name size : always (resumablePartFileName dir name size) isPartName.
Proof using Hdir.
  unfold resumablePartFileName. apply always_then; [solve_ends|]. intros secret. apply always_return. exists (resumeDigest secret "ff-resume-v1" name size). right.
  split; [|done]. apply (bytesToHex_text 32), hmac_size.
Qed.

Lemma randomPartFileName_always : always randomPartFileName isPartName.
Proof.
  unfold randomPartFileName. eapply always_bind; [by apply (always_random 16)|]. intros token Ht. apply always_return. exists (bytesToHex token). left.
  split; [|done]. by apply (bytesToHex_text 16).
Qed.

Lemma reserveCandidate_always d name resumeSize private size i :
  0 <= size → (∀ n, resumeSize = Some n → n = size) →
  always (reserveCandidate dir d name resumeSize private i)
    (λ r, ∀ o, r = Some o → ∃ c part, safeCollisionFileName name i SAFE_FILE_NAME_BYTES = Ok c ∧ isPartName part ∧ reservedAs size (joinPath dir c) (joinPath dir part) o).
Proof using Hdir.
  intros Hs Hr. unfold reserveCandidate. apply always_then; [solve_ends|]. intros _.
  eapply (always_bind _ _ (λ c, safeCollisionFileName name i SAFE_FILE_NAME_BYTES = Ok c)); [by apply always_lift|]. intros c Hc.
  assert (∀ m part, isPartName part → always m (reservedAs size (joinPath dir c) (joinPath dir part)) → ∀ code, always (unlessCode m code)
    (λ r, ∀ o, r = Some o → ∃ c part, safeCollisionFileName name i SAFE_FILE_NAME_BYTES = Ok c ∧ isPartName part ∧ reservedAs size (joinPath dir c) (joinPath dir part) o)) as Hm.
  { intros m part Hp Hm code. eapply always_mono; [by apply always_unless|]. cbv beta. eauto 8. }
  apply always_then; [unfold unlessCode; solve_ends|]. intros [taken|]; [by apply always_return|].
  destruct resumeSize as [n|].
  - rewrite (Hr n) by done. eapply always_bind; [apply resumablePartFileName_always|]. intros part Hp.
    eapply always_bind; [apply (Hm _ part); [done|apply reserveExisting_always; [apply Hdir; by right|done]]|].
    intros [o|] Ho; [apply always_return; intros ? [= <-]; by apply Ho|]. apply (Hm _ part); [done|apply createOutputPart_always; [apply Hdir; by right|done]].
  - eapply always_bind; [apply randomPartFileName_always|]. intros part Hp. apply (Hm _ part); [done|apply createOutputPart_always; [apply Hdir; by right|done]].
Qed.

Lemma reserveLoop_always attempts d name resumeSize private size i :
  0 <= size → (∀ n, resumeSize = Some n → n = size) → 0 <= i → i + Z.of_nat attempts <= MAX_OUTPUT_NAME_ATTEMPTS →
  always (reserveLoop attempts dir d name resumeSize private i)
    (λ o, ∃ i c part, 0 <= i < MAX_OUTPUT_NAME_ATTEMPTS ∧ safeCollisionFileName name i SAFE_FILE_NAME_BYTES = Ok c ∧ isPartName part ∧ reservedAs size (joinPath dir c) (joinPath dir part) o).
Proof using Hdir.
  intros Hs Hr. revert i. induction attempts as [|attempts IH]; intros i Hi Ha; cbn [reserveLoop]; [solve_ends|].
  eapply always_bind; [exact (reserveCandidate_always d name resumeSize private size i Hs Hr)|]. intros [o|] Ho; [|apply IH; lia]. apply always_return.
  destruct (Ho o eq_refl) as (c & part & Hc & Hp & Hro). exists i, c, part. split_and!; [lia|lia|done..].
Qed.

Lemma resumeFileSize_ok n m : resumeFileSize (jint n) = Ok m → m = n.
Proof. cbn [resumeFileSize]. rewrite check_bind_ok. by intros [_ [= ->]]. Qed.

Lemma hexText_take n m text : hexText m text → (n <= m)%nat → hexText n (take n text).
Proof. intros [Hh Hl] Hn. split; [by apply Forall_take|]. rewrite length_take. lia. Qed.

Lemma opaqueOutputFileName_always name size : always (opaqueOutputFileName dir name size) isOpaqueName.
Proof using Hdir.
  unfold opaqueOutputFileName. apply always_then; [solve_ends|]. intros _. destruct size as [size|].
  - apply always_then; [solve_ends|]. intros secret. apply always_return. eexists. split; [|done]. unfold slice. rewrite drop_0.
    apply (hexText_take 32 64); [apply (bytesToHex_text 32), hmac_size|lia].
  - eapply always_bind; [by apply (always_random 16)|]. intros token Ht. apply always_return. exists (bytesToHex token).
    split; [|done]. by apply (bytesToHex_text 16).
Qed.

End Always.

(** ** Names *)

Lemma plain_long s : (3 <= length s)%nat → SLASH ∉ s → plainSegment s.
Proof. intros Hl Hn. split_and!; [..|done]; intros ->; vm_compute in Hl; lia. Qed.

Definition noSlash (s : jsstr) : bool := forallb (λ c, negb (c =? SLASH)) s.
Lemma noSlash_spec s : noSlash s = true → SLASH ∉ s.
Proof. unfold noSlash. rewrite forallb_forall. intros Hs Hin%list_elem_of_In. by specialize (Hs _ Hin). Qed.

Lemma plain_prefix a t : (3 <=? length a)%nat && noSlash a = true → SLASH ∉ t → plainSegment (a ++ t).
Proof.
  intros [Hl%Nat.leb_le Ha%noSlash_spec]%andb_true_iff Ht. apply plain_long; [rewrite length_app; lia|]. by rewrite elem_of_app; intros [?|?].
Qed.

Lemma hexText_slash n text : hexText n text → SLASH ∉ text.
Proof. intros [Hh _] Hin. rewrite Forall_forall in Hh. destruct (Hh _ Hin) as [[? ?]|[? ?]]; unfold SLASH in *; lia. Qed.

Lemma jsInt_slash z : SLASH ∉ jsInt z.
Proof.
  assert (∀ n, 0 <= n → SLASH ∉ jsInt n) as Hn.
  { intros n Hn Hin. destruct (jsInt_digits n Hn) as [Hd _]. unfold digits in Hd. rewrite Forall_forall in Hd. by specialize (Hd _ Hin). }
  destruct z as [|p|p]; [by apply Hn|by apply Hn|]. rewrite jsInt_neg. intros [?|?%Hn]%elem_of_cons; [done|done|done].
Qed.

Lemma opaqueName_ok base : isOpaqueName base → nameOk SAFE_FILE_NAME_BYTES base.
Proof.
  intros (token & [Hh Hl] & ->). assert (∀ c, hexUnit c → safeUnit c) as Hs by (intros c [?|?]; apply safeUnit_ascii; lia). split; [done| |done|].
  - apply Forall_app. split; [|eapply Forall_impl; [exact Hh|exact Hs]]. change (js "ff-") with [102; 102; 45]. repeat (apply Forall_cons; split; [apply safeUnit_ascii; lia|]). done.
  - rewrite utf8ByteLength_ascii.
    + unfold jslen. rewrite length_app, Hl. by vm_compute.
    + apply Forall_app. split; [by repeat constructor|]. eapply Forall_impl; [exact Hh|]. intros c [?|?]; lia.
Qed.

Section Reserve.
Context `{Crypto, JsCase, Platform, Process, WorkingDirectory}.

(** The base names that reserving a file may change: the resume secret, the
    partials, and where they are put to be removed *)
Definition reservationBase (base : jsstr) : Prop :=
  base = RESUME_SECRET_FILE ∨ isPartName base ∨ ∃ token, bytesOf 8 token ∧ base = quarantineName token.
(** A name in the directory with these segments *)
Definition inDirectory (segs : list jsstr) (base : jsstr) : jsstr := SLASH :: joinWith [SLASH] (segs ++ [base]).
Definition reservationName (segs : list jsstr) (p : jsstr) : Prop := ∃ base, plainSegment base ∧ reservationBase base ∧ p = inDirectory segs base.

Lemma partName_plain base : isPartName base → plainSegment base.
Proof.
  assert (SLASH ∉ PART_FILE_SUFFIX) as Hsuffix by by apply noSlash_spec.
  intros (token & [[Ht ->]|[Ht ->]]); apply hexText_slash in Ht; (apply plain_prefix; [by vm_compute|]); rewrite elem_of_app; by intros [?|?].
Qed.

Lemma reservationBase_plain base : reservationBase base → plainSegment base.
Proof.
  intros [->|[Hp|(token & Ht & ->)]]; [|by apply partName_plain|].
  - by apply (plain_prefix RESUME_SECRET_FILE []); [vm_compute|apply not_elem_of_nil].
  - pose proof (hexText_slash _ _ (bytesToHex_text 8 _ Ht)) as Hx. pose proof (jsInt_slash pid) as Hi.
    apply plain_prefix; [by vm_compute|]. rewrite !elem_of_app. intros [?|[?%noSlash_spec|[?|?%noSlash_spec]]]; done.
Qed.

Lemma reservation_removable segs base :
  Forall plainSegment segs → base = RESUME_SECRET_FILE ∨ isPartName base → removable (reservationName segs) (joinPath (SLASH :: joinWith [SLASH] segs) base).
Proof.
  intros Hs Hb. assert (∀ b, reservationBase b → reservationName segs (joinPath (SLASH :: joinWith [SLASH] segs) b)) as Hown.
  { intros b Hb'. pose proof (reservationBase_plain b Hb'). exists b. split_and!; [done..|]. by apply joinPath_plain. }
  assert (reservationBase base) as Hbase by (destruct Hb; [by left|by right; left]). split; [by apply Hown|]. intros token Ht.
  rewrite joinPath_plain, dirname_plain by auto using reservationBase_plain. apply Hown. right; right. by exists token.
Qed.

(** The name that is asked for: safe, or one that tells nothing *)
Definition baseName (name : jsstr) (isOpaque : bool) (safeName : jsstr) : Prop :=
  if isOpaque then isOpaqueName safeName else safeFileName name SAFE_FILE_NAME_BYTES = Ok safeName.

Lemma baseName_ok name isOpaque safeName : baseName name isOpaque safeName → nameOk SAFE_FILE_NAME_BYTES safeName.
Proof.
  destruct isOpaque; [apply opaqueName_ok|]. intros Hs. unfold baseName in Hs.
  destruct (safeFileName_ok name SAFE_FILE_NAME_BYTES) as (r & Hr & Hok); [unfold SAFE_FILE_NAME_BYTES; lia|]. congruence.
Qed.

(** Where the file and its partial are put *)
Definition placed (segs : list jsstr) (name : jsstr) (isOpaque : bool) (o : ReservedOutputFile) : Prop :=
  ∃ safeName i base part, baseName name isOpaque safeName ∧ 0 <= i < MAX_OUTPUT_NAME_ATTEMPTS ∧ safeCollisionFileName safeName i SAFE_FILE_NAME_BYTES = Ok base ∧
    nameOk SAFE_FILE_NAME_BYTES base ∧ isPartName part ∧ ro_finalPath o = inDirectory segs base ∧ ro_partPath o = inDirectory segs part.

Lemma reserveOutputFile_always segs dir name options size :
  0 <= size → op_size options = jint size → Forall plainSegment segs → resolvePath dir = SLASH :: joinWith [SLASH] segs →
  always (reservationName segs) (reserveOutputFile (JStr dir) name options) (λ o, reservedOk size o ∧ placed segs name (op_opaqueName options) o).
Proof.
  intros Hs Hopt Hsegs Hres. pose proof (λ base, reservation_removable segs base Hsegs) as Hdir. rewrite <-Hres in Hdir.
  unfold reserveOutputFile. eapply (always_bind _ _ (λ input, input = dir)).
  { apply always_lift. unfold outputDirInput. intros a. rewrite !check_bind_ok. by intros (_ & _ & _ & [= ->]). }
  intros input ->. apply always_then; [apply directoryIdentity_ends|]. intros d. apply always_then; [solve_ends|]. intros _.
  eapply (always_bind _ _ (λ r, ∀ n, r = Some n → n = size)).
  - destruct (op_resume options); [|by apply always_return]. rewrite Hopt.
    eapply always_bind; [by apply (always_lift _ (λ m, m = size)), resumeFileSize_ok|]. intros m ->. apply always_return. by intros ? [= <-].
  - intros resumeSize Hr. eapply (always_bind _ _ (baseName name (op_opaqueName options))).
    + destruct (op_opaqueName options); [by apply opaqueOutputFileName_always|by apply always_lift].
    + intros safeName Hsafe. eapply always_mono; [apply reserveLoop_always; [exact Hdir|done|done|lia|by vm_compute]|]. cbv beta.
      intros o (i & c & part & Hi & Hc & Hp & Hok & Hf & Hpp). pose proof (baseName_ok _ _ _ Hsafe) as Hn.
      assert (nameOk SAFE_FILE_NAME_BYTES c) as Hcok.
      { destruct (safeCollisionFileName_ok safeName i SAFE_FILE_NAME_BYTES) as (r & Hr' & Hok'); [unfold SAFE_FILE_NAME_BYTES; lia|done|done|]. congruence. }
      split; [done|]. exists safeName, i, c, part. rewrite Hf, Hpp, Hres.
      split_and!; [done|lia|lia|done..|apply joinPath_plain; [done|by eapply nameOk_plain]|by apply joinPath_plain, partName_plain].
Qed.

End Reserve.
