(* ===== verification/Sender.v ===== *)
(** * Sender: [sendFiles] of [src/cli/transfer.ts].

    The state that the closures of [sendFiles] share, and each of them as a
    task over it.  The foreground is [sendFiles] itself.  Beside it run the
    events of the channels, the timers of the waiter and the control queue,
    whose tasks run one after the other: [await senderControlQueue] waits until
    as many tasks have finished as had been enqueued.

    A promise that is rejected before anything waits for it is an unhandled
    rejection in JavaScript; [handledPromises] keeps what that takes. *)
From S2P Require Import Prelude.
From S2P Require Import Constants.
From S2P Require Import JsText.
From S2P Require Import JsValue.
From S2P Require Import Base64.
From S2P Require Import Protocol.
From S2P Require Import Messages.
From S2P Require Import Limits.
From S2P Require Import Bytes.
From S2P Require Import Chunks.
From S2P Require Import Crypto.
From S2P Require Import TransferControl.
From S2P Require Import ControlWaiter.
From S2P Require Import Async.
From S2P Require Import ReceiverState.
From S2P Require Import Receiver.
From S2P Require Import SendPlan.
#[local] Open Scope Z_scope.

(** ** State *)

(** [ReadyState] *)
Record ReadyState := { readyOffset : Z; readyPrefix : option jsstr }.

(** A task of [senderControlQueue]: the handler of a control message, or the
    task of [failSender]. *)
Inductive SenderTask := HandleControl (data : Frame) | FailWith (message : jsstr).

Record ControlQueue := { queuedTasks : list SenderTask; taskRunning : bool; enqueued : nat; finished : nat }.

(** What was sent: a control message with its sealed text, or a chunk with its
    payload and its frame. *)
Inductive SentItem :=
| SentControl (m : ControlMessage) (sealed : jsstr)
| SentChunk (id seq : Z) (payload frame : list Z).

(** The variables of [sendFiles]; [listening] says whether the handlers of the
    channels are set, [sendCalls] counts the calls of [send], [closing] holds
    the handles that [closeSendFiles] closes, and [sendResult] is how the call
    ended. *)
Record Sender := {
  acks : ControlAckWaiter;
  handledPromises : list PromiseId;
  senderFailed : option jsstr;
  senderCompleted : bool;
  readyStates : gmap Z ReadyState;
  controlQueue : ControlQueue;
  called : bool;
  listening : bool;
  sendCalls : nat;
  sentItems : list SentItem;
  closing : list FileHandle;
  sendResult : option (result ())
}.

Definition initialSender : Sender :=
  {| acks := newWaiter; handledPromises := []; senderFailed := None; senderCompleted := false; readyStates := ∅;
     controlQueue := {| queuedTasks := []; taskRunning := false; enqueued := 0; finished := 0 |};
     called := false; listening := false; sendCalls := 0; sentItems := []; closing := []; sendResult := None |}.

Definition set_acks (w : ControlAckWaiter) (s : Sender) : Sender :=
  {| acks := w; handledPromises := handledPromises s; senderFailed := senderFailed s; senderCompleted := senderCompleted s;
     readyStates := readyStates s; controlQueue := controlQueue s; called := called s; listening := listening s; sendCalls := sendCalls s;
     sentItems := sentItems s; closing := closing s; sendResult := sendResult s |}.
Definition set_handled (p : PromiseId) (s : Sender) : Sender :=
  {| acks := acks s; handledPromises := p :: handledPromises s; senderFailed := senderFailed s; senderCompleted := senderCompleted s;
     readyStates := readyStates s; controlQueue := controlQueue s; called := called s; listening := listening s; sendCalls := sendCalls s;
     sentItems := sentItems s; closing := closing s; sendResult := sendResult s |}.
Definition set_senderFailed (e : jsstr) (s : Sender) : Sender :=
  {| acks := acks s; handledPromises := handledPromises s; senderFailed := Some e; senderCompleted := senderCompleted s;
     readyStates := readyStates s; controlQueue := controlQueue s; called := called s; listening := listening s; sendCalls := sendCalls s;
     sentItems := sentItems s; closing := closing s; sendResult := sendResult s |}.
Definition set_senderCompleted (s : Sender) : Sender :=
  {| acks := acks s; handledPromises := handledPromises s; senderFailed := senderFailed s; senderCompleted := true;
     readyStates := readyStates s; controlQueue := controlQueue s; called := called s; listening := listening s; sendCalls := sendCalls s;
     sentItems := sentItems s; closing := closing s; sendResult := sendResult s |}.
Definition set_readyStates (f : gmap Z ReadyState → gmap Z ReadyState) (s : Sender) : Sender :=
  {| acks := acks s; handledPromises := handledPromises s; senderFailed := senderFailed s; senderCompleted := senderCompleted s;
     readyStates := f (readyStates s); controlQueue := controlQueue s; called := called s; listening := listening s; sendCalls := sendCalls s;
     sentItems := sentItems s; closing := closing s; sendResult := sendResult s |}.
Definition set_controlQueue (f : ControlQueue → ControlQueue) (s : Sender) : Sender :=
  {| acks := acks s; handledPromises := handledPromises s; senderFailed := senderFailed s; senderCompleted := senderCompleted s;
     readyStates := readyStates s; controlQueue := f (controlQueue s); called := called s; listening := listening s; sendCalls := sendCalls s;
     sentItems := sentItems s; closing := closing s; sendResult := sendResult s |}.
Definition set_listening (c l : bool) (s : Sender) : Sender :=
  {| acks := acks s; handledPromises := handledPromises s; senderFailed := senderFailed s; senderCompleted := senderCompleted s;
     readyStates := readyStates s; controlQueue := controlQueue s; called := c; listening := l; sendCalls := sendCalls s;
     sentItems := sentItems s; closing := closing s; sendResult := sendResult s |}.
Definition set_sent (n : nat) (l : list SentItem) (s : Sender) : Sender :=
  {| acks := acks s; handledPromises := handledPromises s; senderFailed := senderFailed s; senderCompleted := senderCompleted s;
     readyStates := readyStates s; controlQueue := controlQueue s; called := called s; listening := listening s; sendCalls := n;
     sentItems := l; closing := closing s; sendResult := sendResult s |}.
Definition set_end (hs : list FileHandle) (r : option (result ())) (s : Sender) : Sender :=
  {| acks := acks s; handledPromises := handledPromises s; senderFailed := senderFailed s; senderCompleted := senderCompleted s;
     readyStates := readyStates s; controlQueue := controlQueue s; called := called s; listening := listening s; sendCalls := sendCalls s;
     sentItems := sentItems s; closing := hs; sendResult := r |}.

(** ** What is awaited *)

Inductive sendOp : Type → Type :=
| OpenSenderControl (data : Frame) : sendOp jsval
| SealSenderControl (m : ControlMessage) : sendOp jsstr
| SealBulk (id seq : Z) (payload : list Z) : sendOp (list Z)
(** the next chunk of the stream of a file, of which this many bytes, with the
    offset it started at, have been read *)
| StreamNext (h : FileHandle) (position : Z) : sendOp (option Frame)
(** the bytes that a positional read puts into its buffer *)
| ReadAt (h : FileHandle) (length position : Z) : sendOp (list Z)
| WaitForBackpressure : sendOp ()
| AwaitControlQueue (tasks : nat) : sendOp ()
| AwaitPromise (p : PromiseId) : sendOp ()
| CloseSettled : sendOp ()
(** what a loop that goes on without end would do next *)
| OutOfFuel : sendOp ().

(** Anything may be answered but for three: the queue and a promise answer when
    they have, and [Promise.allSettled] succeeds. *)
Definition sendAnswers (B : Type) (o : sendOp B) (s : Sender) (r : result B) : Prop :=
  match o in sendOp B return result B → Prop with
  | AwaitControlQueue tasks => λ r, r = Ok () ∧ (tasks <= finished (controlQueue s))%nat
  | AwaitPromise p => λ r, ∃ pr, promises (acks s) !! p = Some pr ∧ promiseOutcome pr = Some r
  | CloseSettled => λ r, r = Ok ()
  | OutOfFuel => λ _, False
  | _ => λ _, True
  end r.

(** Whether the channels take the n-th call of [send]. *)
Class SendChannels := { sendAccepts : nat → bool }.

Abbreviation TS := (task sendOp Sender).

Section Sender.
Context `{Crypto, JsCase, SendChannels}.

(** ** Acknowledgements *)

Definition ackKind (a : Ack) : jsval := match a with AckReady _ => jstr "ready" | AckFileOk _ => jstr "file-ok" | AckAllDone => jstr "all-done-ok" end.
Definition ackId (a : Ack) : jsval := match a with AckReady id | AckFileOk id => jint id | AckAllDone => JUndefined end.

(** [acks.wait], [acks.mark] and [acks.fail] *)
Definition acksWait (a : Ack) : TS PromiseId :=
  s ← get;
  let '(r, w) := wait (ackKind a) (ackId a) (acks s) in
  modify (set_acks w);;
  lift r.
Definition acksMark (a : Ack) : TS bool :=
  s ← get;
  let '(r, w) := mark (ackKind a) (ackId a) (acks s) in
  modify (set_acks w);;
  lift r.
Definition acksFail (e : jsstr) : TS () := modify (λ s, set_acks (fail e (acks s)) s).

(** [await] of a promise of the waiter *)
Definition awaitPromise (p : PromiseId) : TS () := modify (set_handled p);; await (AwaitPromise p).
Definition awaitAck (a : Ack) : TS () := p ← acksWait a; awaitPromise p.

(** ** The control queue *)

(** [enqueueSenderControl] *)
Definition enqueueSenderControl (t : SenderTask) : TS () :=
  modify (set_controlQueue (λ q, {| queuedTasks := queuedTasks q ++ [t]; taskRunning := taskRunning q; enqueued := S (enqueued q); finished := finished q |})).

(** The task of [failSender] *)
Definition failSenderTask (message : jsstr) : TS () :=
  s ← get;
  if senderCompleted s then Ret () else modify (set_senderFailed message);; acksFail message.

(** [throwIfSenderFailed] *)
Definition throwIfSenderFailed : TS () :=
  s ← get;
  await (AwaitControlQueue (enqueued (controlQueue s)));;
  s ← get;
  match senderFailed s with Some e => Throw e | None => Ret () end.

(** [resumeOffsetInput] and [readyStateInput] *)
Definition resumeOffsetInput (value : jsval) (id : Z) : result Z :=
  match value with
  | jint n => if isIntegerIn 0 MAX_FILE_BYTES (jint n) then Ok n else Err (js "Invalid ready acknowledgement for file " ++ jsInt id ++ js ".")
  | _ => Err (js "Invalid ready acknowledgement for file " ++ jsInt id ++ js ".")
  end.
Definition readyStateInput (offset : option Z) (prefix : option jsstr) (id : Z) : result ReadyState :=
  offset ← resumeOffsetInput (jint (default 0 offset)) id;
  if offset =? 0 then Ok {| readyOffset := 0; readyPrefix := None |}
  else
    match prefix with
    | None => Err (js "Invalid ready acknowledgement for file " ++ jsInt id ++ js ".")
    | Some p => Ok {| readyOffset := offset; readyPrefix := Some p |}
    end.

(** [if (!acks.mark(...)) throw ...] *)
Definition expectAck (a : Ack) (message : jsstr) : TS () :=
  marked ← acksMark a;
  if marked : bool then Ret () else Throw message.

(** The [try] block of [handleSenderControl] after the message has been read *)
Definition dispatchSenderControl (m : ControlMessage) : TS () :=
  match m with
  | Ready id offset prefix =>
    state ← lift (readyStateInput offset prefix id);
    modify (set_readyStates <[id := state]>);;
    expectAck (AckReady id) (js "Unexpected ready acknowledgement for file " ++ jsInt id ++ js ".")
  | FileOk id => expectAck (AckFileOk id) (js "Unexpected file-ok acknowledgement for file " ++ jsInt id ++ js ".")
  | AllDoneOk =>
    expectAck AckAllDone (js "Unexpected all-done-ok acknowledgement.");;
    modify set_senderCompleted
  | Abort _ =>
    modify (set_senderFailed REMOTE_ABORT_MESSAGE);;
    acksFail REMOTE_ABORT_MESSAGE
  | _ => Ret ()
  end.

(** [handleSenderControl] *)
Definition handleSenderControl (data : Frame) : TS () :=
  s ← get;
  if senderCompleted s then Ret ()
  else
    tcatch
      (value ← await (OpenSenderControl data);
       message ← lift (assertControlMessage value ≫= assertSenderControlMessage);
       dispatchSenderControl message)
      failSenderTask.

Definition senderTask (t : SenderTask) : TS () :=
  match t with HandleControl data => handleSenderControl data | FailWith message => failSenderTask message end.

(** The task at the head of the queue runs. *)
Definition runSenderTask (t : SenderTask) : TS () :=
  modify (set_controlQueue (λ q, {| queuedTasks := tail (queuedTasks q); taskRunning := true; enqueued := enqueued q; finished := finished q |}));;
  tfinally (senderTask t)
    (modify (set_controlQueue (λ q, {| queuedTasks := queuedTasks q; taskRunning := false; enqueued := enqueued q; finished := S (finished q) |}))).

(** ** Sending *)

(** [control.send] and [bulk.send] *)
Definition channelSendItem (item : SentItem) : TS () :=
  s ← get;
  let n := sendCalls s in
  if sendAccepts n then modify (set_sent (S n) (sentItems s ++ [item]))
  else modify (set_sent (S n) (sentItems s));; Throw (js "RTCDataChannel send failed").

(** [sendControl]; [stop] says whether it is given [throwIfSenderFailed] *)
Definition sendSenderControl (m : ControlMessage) (stop : bool) : TS () :=
  sealed ← await (SealSenderControl m);
  twhen stop throwIfSenderFailed;;
  channelSendItem (SentControl m sealed).

(** The loop of [hashSendPrefix]: [rest] is what [chunkSha256] holds from
    [seq] on, and [hash] what the hash has absorbed. *)
Fixpoint hashPrefixLoop (file : SendPlanFile) (resumeOffset : Z) (rest : list jsstr) (offset seq : Z) (hash : list Z) : TS (list Z) :=
  if offset <? resumeOffset then
    let length := Z.min CHUNK_SIZE (resumeOffset - offset) in
    payload ← await (ReadAt (sp_handle file) length offset);
    if negb (byteLength payload =? length) then Throw (sp_name file ++ js " changed while resuming.")
    else
      match rest with
      | [] => Throw (sp_name file ++ js " changed while resuming.")
      | expectedChunkSha256 :: rest =>
        if negb (bool_decide (digestHex payload = expectedChunkSha256)) then
          Throw (sp_name file ++ js " changed before resumed chunk " ++ jsInt seq ++ js " could be trusted.")
        else hashPrefixLoop file resumeOffset rest (offset + CHUNK_SIZE) (seq + 1) (hash ++ payload)
      end
  else Ret hash.

(** [hashSendPrefix]: what [hash] has absorbed, and [prefixSha256] *)
Definition hashSendPrefix (file : SendPlanFile) (resumeOffset : Z) : TS (list Z * option jsstr) :=
  if resumeOffset =? 0 then Ret ([], None)
  else
    hash ← hashPrefixLoop file resumeOffset (sp_chunkSha256 file) 0 0 [];
    Ret (hash, Some (digestHex hash)).

(** [verifiedReadyState]; its loop ends only when the receiver stops sending
    prefixes that do not match. *)
Fixpoint verifiedReadyState (fuel : nat) (file : SendPlanFile) : TS ReadyState :=
  match fuel with
  | O => await OutOfFuel;; Throw []
  | S fuel =>
    throwIfSenderFailed;;
    s ← get;
    let ready := default {| readyOffset := 0; readyPrefix := None |} (readyStates s !! sp_id file) in
    modify (set_readyStates (delete (sp_id file)));;
    if (sp_size file <? readyOffset ready) || ((readyOffset ready <? sp_size file) && negb (readyOffset ready mod CHUNK_SIZE =? 0)) then
      Throw (js "Invalid resume offset for " ++ sp_name file ++ js ".")
    else if readyOffset ready =? 0 then Ret ready
    else
      p ← hashSendPrefix file (readyOffset ready);
      throwIfSenderFailed;;
      if bool_decide (p.2 = readyPrefix ready) then Ret ready
      else
        restarted ← acksWait (AckReady (sp_id file));
        sendSenderControl (Restart (sp_id file)) false;;
        awaitPromise restarted;;
        verifiedReadyState fuel file
  end.

(** The loop over the stream of a file; [rest] is what [chunkSha256] holds from
    [seq] on.  It gives [seq], [fileBytes] and the hash at the end. *)
Fixpoint sendChunks (file : SendPlanFile) (rest : list jsstr) (seq fileBytes : Z) (hash : list Z) : TS (Z * Z * list Z) :=
  chunk ← await (StreamNext (sp_handle file) fileBytes);
  match chunk with
  | None => Ret (seq, fileBytes, hash)
  | Some chunk =>
    throwIfSenderFailed;;
    payload ← lift (toBytes chunk);
    throwIfSenderFailed;;
    if sp_size file <? fileBytes + byteLength payload then Throw (sp_name file ++ js " changed while sending.")
    else
      match rest with
      | [] => Throw (sp_name file ++ js " changed while sending.")
      | expectedChunkSha256 :: rest =>
        if negb (bool_decide (digestHex payload = expectedChunkSha256)) then
          Throw (sp_name file ++ js " changed before chunk " ++ jsInt seq ++ js " could be sent.")
        else
          sealed ← await (SealBulk (sp_id file) seq payload);
          throwIfSenderFailed;;
          frame ← lift (encodeChunk (sp_id file) seq (bin sealed));
          channelSendItem (SentChunk (sp_id file) seq payload frame);;
          await WaitForBackpressure;;
          throwIfSenderFailed;;
          sendChunks file rest (seq + 1) (fileBytes + byteLength payload) (hash ++ payload)
      end
  end.

(** One pass of the loop over the plan. *)
Definition sendFile (fuel : nat) (file : SendPlanFile) : TS () :=
  throwIfSenderFailed;;
  sendSenderControl (FileBegin (sp_id file) (sp_name file) (sp_size file)) true;;
  awaitAck (AckReady (sp_id file));;
  throwIfSenderFailed;;
  ready ← verifiedReadyState fuel file;
  let resumeOffset := readyOffset ready in
  p ← hashSendPrefix file resumeOffset;
  throwIfSenderFailed;;
  let count := Z.of_nat (length (sp_chunkSha256 file)) in
  let seq := if resumeOffset =? sp_size file then count else resumeOffset / CHUNK_SIZE in
  r ← sendChunks file (drop (Z.to_nat seq) (sp_chunkSha256 file)) seq resumeOffset p.1;
  let '(seq, fileBytes, hash) := r in
  if negb (seq =? count) then Throw (sp_name file ++ js " changed while sending.")
  else if negb (fileBytes =? sp_size file) then Throw (sp_name file ++ js " changed while sending.")
  else if negb (bool_decide (digestHex hash = sp_sha256 file)) then Throw (sp_name file ++ js " changed while sending.")
  else
    throwIfSenderFailed;;
    sendSenderControl (FileEnd (sp_id file) (sp_sha256 file)) true;;
    awaitAck (AckFileOk (sp_id file)).

Fixpoint sendPlanned (fuel : nat) (plan : list SendPlanFile) : TS () :=
  match plan with
  | [] => Ret ()
  | file :: plan => sendFile fuel file;; sendPlanned fuel plan
  end.

(** The [try] block of [sendFiles] *)
Definition sendFilesBody (fuel : nat) (files : list (option SendFile)) : TS () :=
  plan ← lift (buildSendPlan files);
  lift (assertTransferManifestWithinLimits (manifestValue (manifestOf (map planEntry plan) (planBytes plan))));;
  sendSenderControl (Manifest (map planEntry plan) (planBytes plan)) true;;
  sendPlanned fuel plan;;
  throwIfSenderFailed;;
  sendSenderControl AllDone true;;
  awaitAck AckAllDone.

(** The [finally] block: [cleanupSenderChannels] and [closeSendFiles] *)
Definition finishSend (files : list (option SendFile)) : TS () :=
  modify (λ s, set_listening (called s) false s);;
  modify (λ s, set_end (closableHandles files) (sendResult s) s);;
  await CloseSettled.

(** [sendFiles] *)
Definition sendFiles (fuel : nat) (files : list (option SendFile)) : TS () :=
  modify (set_listening true true);;
  r ← ttry
    (tfinally
      (tcatch (sendFilesBody fuel files) (λ e, tcatch (sendSenderControl abortControlMessage false) (λ _, Ret ());; Throw e))
      (finishSend files));
  modify (λ s, set_end (closing s) (Some r) s).

(** ** Events *)

Inductive sendStarts (files : list (option SendFile)) : Sender → TS () → Prop :=
| start_sendFiles s fuel : called s = false → sendStarts files s (sendFiles fuel files).

(** Messages, close and error events, a timer of the waiter, and the next task
    of the control queue. *)
Inductive sendLaunches : Sender → TS () → Prop :=
| on_sender_message s data : listening s = true → sendLaunches s (enqueueSenderControl (HandleControl data))
| on_sender_event s message :
    listening s = true →
    message ∈ [js "Control channel closed before transfer completed."; js "Bulk channel closed before transfer completed.";
               js "Control channel errored before transfer completed."; js "Bulk channel errored before transfer completed."] →
    sendLaunches s (enqueueSenderControl (FailWith message))
| on_ack_timeout s a : is_Some (pending (acks s) !! keyOf a) → sendLaunches s (modify (λ s, set_acks (timeout (ackInput a) (acks s)) s))
| on_next_task s t rest :
    taskRunning (controlQueue s) = false → queuedTasks (controlQueue s) = t :: rest → sendLaunches s (runSenderTask t).

Definition sendReached (files : list (option SendFile)) : config → Prop :=
  reachable sendAnswers (sendStarts files) sendLaunches initialSender.

End Sender.
