(* ===== verification/SenderInv.v ===== *)
(** * SenderInv: what [sendFiles] may send, and the invariant that it sends
    nothing else.

    [transcript] says which sequences of messages and chunks follow a plan, as
    a relation with one rule per kind of message.  The invariant [SendInv]
    holds whenever control is at the event loop: the messages sent so far are
    a transcript, and what it needs has been acknowledged. *)
From S2P Require Import Prelude.
From S2P Require Import Constants.
From S2P Require Import JsText.
From S2P Require Import JsValue.
From S2P Require Import Base64.
From S2P Require Import Protocol.
From S2P Require Import Messages.
From S2P Require Import Limits.
From S2P Require Import Bytes.
From S2P Require Import Chunks.
From S2P Require Import Crypto.
From S2P Require Import TransferControl.
From S2P Require Import ControlWaiter.
From S2P Require Import Async.
From S2P Require Import ReceiverState.
From S2P Require Import Receiver.
From S2P Require Import SendPlan.
From S2P Require Import Sender.
#[local] Open Scope Z_scope.
#[local] Ltac Zify.zify_post_hook ::= Z.to_euclidean_division_equations.

(** ** Transcripts *)

(** How far a transcript is: before the manifest, after [k] files, within file
    [k] with the sequence number of its first chunk and the payloads that were
    sent, after [all-done], or aborted. *)
Inductive SendPhase :=
| PhaseStart
| PhaseBetween (k : nat)
| PhaseWithin (k : nat) (sent : option (nat * list (list Z)))
| PhaseDone
| PhaseAborted.

(** The chunks of a file before the first one that was sent, and those that
    were sent, are the whole file as it was when the plan was made. *)
Definition wholeFile `{Crypto} (f : SendPlanFile) (before sent : list (list Z)) : Prop :=
  map digestHex (before ++ sent) = sp_chunkSha256 f ∧ digestHex (concat (before ++ sent)) = sp_sha256 f ∧
  byteLength (concat (before ++ sent)) = sp_size f.

Inductive transcript `{Crypto} (plan : list SendPlanFile) : list SentItem → SendPhase → Prop :=
| tr_start : transcript plan [] PhaseStart
| tr_manifest sealed : transcript plan [SentControl (Manifest (map planEntry plan) (planBytes plan)) sealed] (PhaseBetween 0)
| tr_begin l k f sealed :
    transcript plan l (PhaseBetween k) → plan !! k = Some f →
    transcript plan (l ++ [SentControl (FileBegin (Z.of_nat k) (sp_name f) (sp_size f)) sealed]) (PhaseWithin k None)
| tr_restart l k sealed :
    transcript plan l (PhaseWithin k None) → transcript plan (l ++ [SentControl (Restart (Z.of_nat k)) sealed]) (PhaseWithin k None)
| tr_first l k f n payload sealed frame :
    transcript plan l (PhaseWithin k None) → plan !! k = Some f → sp_chunkSha256 f !! n = Some (digestHex payload) →
    encodeChunk (Z.of_nat k) (Z.of_nat n) (bin sealed) = Ok frame →
    transcript plan (l ++ [SentChunk (Z.of_nat k) (Z.of_nat n) payload frame]) (PhaseWithin k (Some (n, [payload])))
| tr_next l k f n ps payload sealed frame :
    transcript plan l (PhaseWithin k (Some (n, ps))) → plan !! k = Some f →
    sp_chunkSha256 f !! (n + length ps)%nat = Some (digestHex payload) →
    encodeChunk (Z.of_nat k) (Z.of_nat (n + length ps)) (bin sealed) = Ok frame →
    transcript plan (l ++ [SentChunk (Z.of_nat k) (Z.of_nat (n + length ps)) payload frame]) (PhaseWithin k (Some (n, ps ++ [payload])))
| tr_end l k f sent before sealed :
    transcript plan l (PhaseWithin k sent) → plan !! k = Some f →
    wholeFile f before (match sent with Some (_, ps) => ps | None => [] end) →
    match sent with Some (n, _) => length before = n | None => True end →
    transcript plan (l ++ [SentControl (FileEnd (Z.of_nat k) (sp_sha256 f)) sealed]) (PhaseBetween (S k))
| tr_done l sealed :
    transcript plan l (PhaseBetween (length plan)) → transcript plan (l ++ [SentControl AllDone sealed]) PhaseDone
| tr_abort l ph sealed :
    transcript plan l ph → ph ≠ PhaseAborted → transcript plan (l ++ [SentControl abortControlMessage sealed]) PhaseAborted.

(** ** Acknowledgements *)

(** The acknowledgement arrived and resolved a promise made for it. *)
Definition acked (w : ControlAckWaiter) (a : Ack) : Prop :=
  ∃ p : nat, promises w !! p = Some {| promiseKey := keyOf a; promiseOutcome := Some (Ok ()) |}.

(** What a transcript in a phase has needed: a chunk the [ready] of its file, a
    file the [file-ok] of the one before it, and [all-done] that of all. *)
Definition ackedFor (plan : list SendPlanFile) (ph : SendPhase) (w : ControlAckWaiter) : Prop :=
  match ph with
  | PhaseStart | PhaseAborted => True
  | PhaseBetween k => (∀ j, (j < k)%nat → acked w (AckReady (Z.of_nat j))) ∧ ∀ j, (S j < k)%nat → acked w (AckFileOk (Z.of_nat j))
  | PhaseWithin k sent =>
    (∀ j, (j < k)%nat → acked w (AckReady (Z.of_nat j)) ∧ acked w (AckFileOk (Z.of_nat j))) ∧
    (is_Some sent → acked w (AckReady (Z.of_nat k)))
  | PhaseDone => ∀ j, (j < length plan)%nat → acked w (AckReady (Z.of_nat j)) ∧ acked w (AckFileOk (Z.of_nat j))
  end.

(** A promise stays what it is once it is settled. *)
Definition promisesEvolve (w w' : ControlAckWaiter) : Prop :=
  ∀ (p : nat) pr, promises w !! p = Some pr →
    ∃ pr', promises w' !! p = Some pr' ∧ promiseKey pr' = promiseKey pr ∧ (∀ r, promiseOutcome pr = Some r → promiseOutcome pr' = Some r).
#[export] Instance promisesEvolve_preorder : PreOrder promisesEvolve.
Proof.
  split; [by intros w p pr Hp; exists pr|]. intros w1 w2 w3 H1 H2 p pr Hp. destruct (H1 _ _ Hp) as (pr2 & Hp2 & Hk2 & Ho2).
  destruct (H2 _ _ Hp2) as (pr3 & Hp3 & Hk3 & Ho3). exists pr3. split_and!; [done|congruence|auto].
Qed.

Lemma acked_evolve w w' a : promisesEvolve w w' → acked w a → acked w' a.
Proof.
  intros He [p Hp]. destruct (He _ _ Hp) as ([k o] & Hp' & Hk & Ho). exists p. cbn in *. rewrite Hp'. f_equal. by rewrite Hk, (Ho (Ok ())).
Qed.

Lemma ackedFor_evolve plan ph w w' : promisesEvolve w w' → ackedFor plan ph w → ackedFor plan ph w'.
Proof.
  intros He. pose proof (λ a, acked_evolve w w' a He) as Ha. destruct ph as [|k|k sent| |]; cbn; [done|..|done].
  - intros [H1 H2]. split; intros j Hj; apply Ha; auto.
  - intros [H1 H2]. split; [intros j Hj; destruct (H1 j Hj); split; auto|auto].
  - intros H1 j Hj. destruct (H1 j Hj). split; auto.
Qed.

Lemma settleAt_evolve p r w : promisesEvolve w (settleAt p r w).
Proof.
  intros q pr Hq. cbn. rewrite list_lookup_alter. destruct (decide (p = q)) as [->|]; [|by exists pr].
  rewrite Hq. eexists. split_and!; [done|done|]. cbn. by intros r' ->.
Qed.
Lemma append_evolve w w' pr : promises w' = promises w ++ [pr] → promisesEvolve w w'.
Proof. intros E p pr' Hp. exists pr'. split_and!; [|done|done]. rewrite E. by apply lookup_app_l_Some. Qed.
Lemma same_evolve w w' : promises w' = promises w → promisesEvolve w w'.
Proof. intros E p pr Hp. exists pr. by rewrite E. Qed.

(** The methods and timers of the waiter do so. *)
Lemma call_evolve c w : promisesEvolve w (call c w).2.
Proof.
  destruct c as [kind id|kind id|a|e]; cbn [call].
  - unfold mark. destruct (controlAckInput kind id) as [a|e]; [|done]. destruct (pending w !! ackKey a) as [p|]; [|done]. apply (settleAt_evolve p (Ok ())).
  - unfold wait. destruct (controlAckInput kind id) as [a|e]; [|done]. destruct (waiterFailed w); [by eapply append_evolve|].
    destruct (pending w !! ackKey a); [done|by eapply append_evolve].
  - unfold timeout. destruct (pending w !! ackKey (ackInput a)) as [p|]; [|done]. apply (settleAt_evolve p (Err (timeoutMessage (ackInput a))) w).
  - unfold fail. destruct (waiterFailed w); [done|]. etransitivity; [by apply (same_evolve w {| pending := pending w; waiterFailed := Some e; promises := promises w |})|].
    cbn [snd]. generalize {| pending := pending w; waiterFailed := Some e; promises := promises w |}, (map_to_list (pending w)).
    intros w' l. revert w'. induction l as [|x l IH]; intros w'; cbn [foldl]; [done|]. etransitivity; [|apply IH]. apply (settleAt_evolve x.2 (Err e)).
Qed.

Definition waiterOk (w : ControlAckWaiter) : Prop := ∃ s, refines w s.

Lemma waiterOk_call c w : waiterOk w → waiterOk (call c w).2.
Proof. intros [s Hs]. exists (specCall c s).2. by apply call_refines. Qed.

(** ** The invariant *)

Section Inv.
Context `{Crypto, JsCase, SendChannels}.
Context (files : list (option SendFile)).

(** The plan, if there is one. *)
Definition planned : list SendPlanFile := match buildSendPlan files with Ok plan => plan | Err _ => [] end.

Record SendInv (s : Sender) : Prop := {
  si_waiter : waiterOk (acks s);
  si_ready : map_Forall (λ _ r, 0 <= readyOffset r) (readyStates s);
  si_fresh : called s = false → sentItems s = [] ∧ sendResult s = None;
  si_phase : ∃ ph, transcript planned (sentItems s) ph ∧ ackedFor planned ph (acks s);
  si_end r : sendResult s = Some r →
    listening s = false ∧ closing s = closableHandles files ∧
    (r = Ok () → transcript planned (sentItems s) PhaseDone ∧ ackedFor planned PhaseDone (acks s) ∧ acked (acks s) AckAllDone)
}.

(** What happens beside [sendFiles] while it waits. *)
Record sendRely (s s' : Sender) : Prop := {
  sr_promises : promisesEvolve (acks s) (acks s');
  sr_called : called s' = called s;
  sr_listening : listening s' = listening s;
  sr_sent : sentItems s' = sentItems s;
  sr_closing : closing s' = closing s;
  sr_result : sendResult s' = sendResult s
}.
#[export] Instance sendRely_preorder : PreOrder sendRely.
Proof.
  split; [by intros s; split|]. intros s1 s2 s3 [A1 A2 A3 A4 A5 A6] [B1 B2 B3 B4 B5 B6]. split; [by etransitivity|congruence..].
Qed.

Definition anything (s s' : Sender) : Prop := True.
#[export] Instance anything_preorder : PreOrder anything.
Proof. by split. Qed.

(** A quiet change keeps the invariant, if what it needs is kept. *)
Lemma rely_inv s s' :
  SendInv s → sendRely s s' → waiterOk (acks s') → map_Forall (λ _ r, 0 <= readyOffset r) (readyStates s') → SendInv s'.
Proof.
  intros [I1 I2 I3 I4 I5] [R1 R2 R3 R4 R5 R6] Hw Hr. split; rewrite ?R2, ?R3, ?R4, ?R5, ?R6; try done.
  - destruct I4 as (ph & ? & ?). exists ph. split; [done|]. by eapply ackedFor_evolve.
  - intros r Hres. destruct (I5 r Hres) as (? & ? & Hd). split_and!; [done..|]. intros Hok. destruct (Hd Hok) as (? & ? & ?).
    split_and!; [done|by eapply ackedFor_evolve|by eapply acked_evolve].
Qed.

Lemma initialSender_inv : SendInv initialSender.
Proof.
  split; cbn; try done.
  - exists {| broken := None; made := [] |}. split; cbn; try done. intros k p. rewrite lookup_empty. split; [done|]. by intros (a & _ & ?).
  - exists PhaseStart. split; [constructor|done].
Qed.

End Inv.
