(* ===== verification/SenderSteps.v ===== *)
(** * SenderSteps: every task of [sendFiles] keeps the invariant.

    First what runs beside [sendFiles], then [sendFiles] itself, function by
    function, as weakest preconditions ([wpB] and [wpF]). *)
From S2P Require Import Prelude.
From S2P Require Import Constants.
From S2P Require Import JsText.
From S2P Require Import JsValue.
From S2P Require Import Base64.
From S2P Require Import Protocol.
From S2P Require Import Messages.
From S2P Require Import Limits.
From S2P Require Import Bytes.
From S2P Require Import Chunks.
From S2P Require Import Crypto.
From S2P Require Import TransferControl.
From S2P Require Import ControlWaiter.
From S2P Require Import Async.
From S2P Require Import ReceiverState.
From S2P Require Import Receiver.
From S2P Require Import SendPlan.
From S2P Require Import Sender.
From S2P Require Import SenderInv.
#[local] Open Scope Z_scope.
#[local] Ltac Zify.zify_post_hook ::= Z.to_euclidean_division_equations.

Section Steps.
#[local] Set Default Proof Using "Type".
Context `{Crypto, JsCase, SendChannels}.
Context (files : list (option SendFile)).
Abbreviation I := (SendInv files).
Abbreviation plan := (planned files).

(** ** Beside [sendFiles] *)

Abbreviation wpB t Q E s := (twp sendAnswers I anything (guarB sendRely anything) t Q E s).
Abbreviation keepsB t := (∀ s, I s → wpB t (λ _, I) (λ _, I) s).

Lemma B_get {A} (f : Sender → TS A) Q E s : wpB (f s) Q E s → wpB (s ← get; f s) Q E s.
Proof. intros Hf. apply twp_bind, twp_get; [split; [reflexivity|done]|exact Hf]. Qed.

(** Changing what the invariant does not mention. *)
Lemma B_quiet f s (Q : () → Sender → Prop) E :
  I s → sendRely s (f s) → acks (f s) = acks s → readyStates (f s) = readyStates s → (I (f s) → Q () (f s)) → wpB (modify f) Q E s.
Proof.
  intros HI Hr Ha Hs HQ. apply twp_modify; [by split|]. apply HQ. eapply rely_inv; [done|done|rewrite Ha; apply HI|rewrite Hs; apply HI].
Qed.

Lemma set_acks_rely c s : sendRely s (set_acks (call c (acks s)).2 s).
Proof. split; try done. apply call_evolve. Qed.
Lemma set_acks_inv c s : I s → I (set_acks (call c (acks s)).2 s).
Proof. intros HI. eapply rely_inv; [done|apply set_acks_rely|apply waiterOk_call, HI|apply HI]. Qed.

Lemma B_acks c s Q E : I s → (∀ s', I s' → Q () s') → wpB (modify (set_acks (call c (acks s)).2)) Q E s.
Proof. intros HI HQ. apply twp_modify; [split; [apply set_acks_rely|done]|]. by apply HQ, set_acks_inv. Qed.

Lemma mark_call kind id w : (call (CallMark kind id) w).2 = (mark kind id w).2.
Proof. cbn. by destruct (mark kind id w). Qed.
Lemma wait_call kind id w : (call (CallWait kind id) w).2 = (wait kind id w).2.
Proof. cbn. by destruct (wait kind id w). Qed.

Lemma B_expect a m : keepsB (expectAck a m).
Proof.
  intros s HI. unfold expectAck, acksMark. do 2 apply twp_bind. apply twp_get; [split; [reflexivity|done]|]. cbv beta.
  pose proof (mark_call (ackKind a) (ackId a) (acks s)) as E. destruct (mark _ _ _) as [r w]. cbn [snd] in E. subst w.
  twp_step. apply B_acks; [done|]. intros s' HI'. apply twp_lift. destruct r as [b|]; [|done]. by destruct b.
Qed.

Lemma B_fail e : keepsB (acksFail e).
Proof.
  intros s HI. unfold acksFail. apply twp_modify; [split; [apply (set_acks_rely (CallFail e))|done]|]. by apply (set_acks_inv (CallFail e)).
Qed.

Lemma B_failSender e : keepsB (failSenderTask e).
Proof.
  intros s HI. apply B_get. destruct (senderCompleted s); [exact HI|]. apply twp_bind. apply B_quiet; try done. intros HI'. by apply B_fail.
Qed.

Lemma readyStateInput_nonneg o p id r : readyStateInput o p id = Ok r → 0 <= readyOffset r.
Proof.
  unfold readyStateInput, resumeOffsetInput. destruct (isIntegerIn _ _ _) eqn:Ei; [|done]. apply isIntegerIn_spec in Ei as (z & [= <-] & Hz).
  change (Ok ?x ≫= ?k) with (k x). cbv beta. destruct (Z.eqb_spec (default 0 o) 0) as [E|E]; [by intros [= <-]|]. destruct p; [|done]. intros [= <-]. cbn. lia.
Qed.

Lemma B_ready id offset prefix : keepsB (dispatchSenderControl (Ready id offset prefix)).
Proof.
  intros s HI. cbn [dispatchSenderControl]. twp_step. apply twp_lift. destruct (readyStateInput offset prefix id) as [r|e] eqn:Er; [|done].
  apply readyStateInput_nonneg in Er. assert (I (set_readyStates <[id:=r]> s)) as HI'.
  { eapply rely_inv; [exact HI|by split|apply HI|]. cbn. apply map_Forall_insert_2; [done|apply HI]. }
  apply twp_bind, twp_modify; [by split; [split|]|]. by apply B_expect.
Qed.

Lemma B_dispatch m : keepsB (dispatchSenderControl m).
Proof.
  intros s HI. destruct m as [es total|id name size|id o p|id|id h|id| | |r]; try exact HI.
  - by apply B_ready.
  - by apply B_expect.
  - cbn [dispatchSenderControl]. twp_step. eapply twp_mono; [by apply B_expect|..]; cbv beta; [|done]. intros _ s' HI'. by apply B_quiet.
  - cbn [dispatchSenderControl]. twp_step. apply B_quiet; try done. intros HI'. by apply B_fail.
Qed.

Lemma B_handle data : keepsB (handleSenderControl data).
Proof.
  intros s HI. apply B_get. destruct (senderCompleted s); [exact HI|]. apply twp_catch.
  assert (∀ e s', I s' → wpB (failSenderTask e) (λ _, I) (λ _, I) s') as Hf by (intros; by apply B_failSender).
  twp_step. apply twp_await; [done|]. intros s' r HI' _ _. destruct r as [v|e]; [|by apply Hf]. twp_step. apply twp_lift.
  destruct (assertControlMessage v ≫= assertSenderControlMessage) as [m|e]; [|by apply Hf].
  eapply twp_mono; [by apply B_dispatch|..]; cbv beta; [done|]. intros e s2 HI2. by apply Hf.
Qed.

Lemma launch_keeps s t : I s → sendLaunches s t → wpB t (λ _, I) (λ _, I) s.
Proof.
  intros HI Hl. destruct Hl as [s data|s message|s a|s t rest].
  - by apply B_quiet.
  - by apply B_quiet.
  - apply twp_modify; [split; [apply (set_acks_rely (TimerFires a))|done]|]. by apply (set_acks_inv (TimerFires a)).
  - unfold runSenderTask. apply twp_bind, B_quiet; try done. intros HI'. apply twp_finally.
    assert (∀ s', I s' → wpB (senderTask t) (λ _, I) (λ _, I) s') as Ht.
    { intros s' Hs'. destruct t as [data|e]; [by apply B_handle|by apply B_failSender]. }
    eapply twp_mono; [by apply Ht|..]; cbv beta; intros ? s2 HI2; by apply B_quiet.
Qed.

(** ** [sendFiles] *)

Abbreviation wpF t Q E s := (twp sendAnswers I sendRely anything t Q E s).

(** The call is running, in this phase. *)
Record At (ph : SendPhase) (s : Sender) : Prop := {
  at_transcript : transcript plan (sentItems s) ph;
  at_acked : ackedFor plan ph (acks s);
  at_waiter : waiterOk (acks s);
  at_ready : map_Forall (λ _ r, 0 <= readyOffset r) (readyStates s);
  at_called : called s = true;
  at_result : sendResult s = None
}.

(** Where an error leaves it: an abort has not been sent. *)
Definition Stopped (_ : jsstr) (s : Sender) : Prop := ∃ ph, ph ≠ PhaseAborted ∧ At ph s.

Lemma At_inv ph s : At ph s → I s.
Proof.
  intros [A1 A2 A3 A4 A5 A6]. split; try done.
  - by rewrite A5.
  - by exists ph.
  - by rewrite A6.
Qed.

Lemma At_rely ph s s' : At ph s → I s' → sendRely s s' → At ph s'.
Proof.
  intros [A1 A2 A3 A4 A5 A6] HI [R1 R2 R3 R4 R5 R6]. split; rewrite ?R2, ?R4, ?R6; try done; [by eapply ackedFor_evolve|apply HI|apply HI].
Qed.

Lemma F_get {A} (f : Sender → TS A) Q E s : wpF (f s) Q E s → wpF (s ← get; f s) Q E s.
Proof. intros Hf. by apply twp_bind, twp_get. Qed.

(** An operation: the phase stays; an error ends the call. *)
Lemma F_await {B} (o : sendOp B) ph (Q : B → Sender → Prop) s :
  At ph s → ph ≠ PhaseAborted → (∀ s' b, At ph s' → sendRely s s' → sendAnswers B o s' (Ok b) → Q b s') → wpF (await o) Q Stopped s.
Proof.
  intros HA Hp HQ. apply twp_await; [by eapply At_inv|]. intros s' r HI Hr Ha. pose proof (At_rely _ _ _ HA HI Hr) as HA'.
  destruct r as [b|e]; [by apply HQ|by exists ph].
Qed.

Lemma F_throwIf ph (Q : () → Sender → Prop) s :
  At ph s → ph ≠ PhaseAborted → (∀ s', At ph s' → sendRely s s' → Q () s') → wpF throwIfSenderFailed Q Stopped s.
Proof.
  intros HA Hp HQ. apply F_get. twp_step. apply (F_await _ ph); [done|done|]. intros s' _ HA' Hr _. apply F_get.
  destruct (senderFailed s'); [by exists ph|]. by apply HQ.
Qed.

(** The promise is for this acknowledgement. *)
Definition promiseFor (a : Ack) (p : PromiseId) (s : Sender) : Prop := ∃ pr, promises (acks s) !! p = Some pr ∧ promiseKey pr = keyOf a.

Lemma promiseFor_rely a p s s' : sendRely s s' → promiseFor a p s → promiseFor a p s'.
Proof. intros Hr (pr & Hp & Hk). destruct (sr_promises _ _ Hr _ _ Hp) as (pr' & ? & ? & _). exists pr'. split; [done|congruence]. Qed.

Lemma wait_key kind id a w p w' :
  waiterOk w → controlAckInput kind id = Ok (ackInput a) → wait kind id w = (Ok p, w') →
  ∃ pr, promises w' !! p = Some pr ∧ promiseKey pr = keyOf a.
Proof.
  intros [sp HR] Ha. unfold wait. rewrite Ha. fold (keyOf a). destruct (waiterFailed w) as [e|].
  - intros [= <- <-]. eexists. cbn. rewrite lookup_app_r, Nat.sub_diag by done. done.
  - destruct (pending w !! keyOf a) as [q|] eqn:Eq.
    + intros [= <- <-]. apply (open_pending w sp a q HR) in Eq. rewrite (rf_promises _ _ HR), list_lookup_fmap, Eq. by eexists.
    + intros [= <- <-]. eexists. cbn. rewrite lookup_app_r, Nat.sub_diag by done. done.
Qed.

Definition ackOk (a : Ack) : Prop := match a with AckReady id | AckFileOk id => 0 <= id <= 255 | AckAllDone => True end.

Lemma ackOk_input a : ackOk a → controlAckInput (ackKind a) (ackId a) = Ok (ackInput a).
Proof.
  intros Ha. pose proof (controlAckInput_named (ackKind a) (ackId a)) as Hn.
  assert (namedAck (ackKind a) (ackId a) = Some a) as E; [|by rewrite E in Hn].
  destruct a as [id|id|]; cbn -[isIntegerIn]; [..|done]; (assert (isIntegerIn 0 255 (jint id) = true) as -> by (apply isIntegerIn_spec; by exists id)); done.
Qed.

Lemma At_acks c ph s : At ph s → At ph (set_acks (call c (acks s)).2 s).
Proof.
  intros HA. pose proof (set_acks_inv c s (At_inv _ _ HA)) as HI. by eapply At_rely; [exact HA|exact HI|apply set_acks_rely].
Qed.

Lemma F_acksWait a ph (Q : PromiseId → Sender → Prop) s :
  At ph s → ph ≠ PhaseAborted → ackOk a → (∀ p s', At ph s' → sentItems s' = sentItems s → sendRely s s' → promiseFor a p s' → Q p s') →
  wpF (acksWait a) Q Stopped s.
Proof.
  intros HA Hp Ha HQ. unfold acksWait. apply F_get. pose proof (wait_call (ackKind a) (ackId a) (acks s)) as E. pose proof (At_acks (CallWait (ackKind a) (ackId a)) _ _ HA) as HA'.
  pose proof (λ p w', wait_key (ackKind a) (ackId a) a (acks s) p w' (at_waiter _ _ HA) (ackOk_input a Ha)) as Hk.
  pose proof (set_acks_rely (CallWait (ackKind a) (ackId a)) s) as Hr. destruct (wait _ _ _) as [r w]. cbn [snd] in E. rewrite E in HA', Hr.
  twp_step. apply twp_modify; [done|]. apply twp_lift. destruct r as [p|e]; [|by exists ph]. apply HQ; [done|done|done|]. by apply (Hk p w).
Qed.

Lemma F_awaitPromise a p ph (Q : () → Sender → Prop) s :
  At ph s → ph ≠ PhaseAborted → promiseFor a p s → (∀ s', At ph s' → sendRely s s' → acked (acks s') a → Q () s') → wpF (awaitPromise p) Q Stopped s.
Proof.
  intros HA Hp Hf HQ. unfold awaitPromise. twp_step. apply twp_modify; [done|]. apply (F_await _ ph); [by destruct HA|done|].
  intros s' [] HA' Hr (pr & Hpr & Ho). assert (sendRely s s') as Hr' by by destruct Hr. apply HQ; [done|done|].
  destruct (promiseFor_rely _ _ _ _ Hr' Hf) as ([k o] & Hpr' & Hk). rewrite Hpr' in Hpr. injection Hpr as <-. cbn in Hk, Ho. subst. by exists p.
Qed.

Lemma F_awaitAck a ph (Q : () → Sender → Prop) s :
  At ph s → ph ≠ PhaseAborted → ackOk a → (∀ s', At ph s' → sendRely s s' → acked (acks s') a → Q () s') → wpF (awaitAck a) Q Stopped s.
Proof.
  intros HA Hp Ha HQ. unfold awaitAck. twp_step. apply (F_acksWait a ph); [done..|]. intros p s1 HA1 _ Hr1 Hf.
  apply (F_awaitPromise a p ph); [done..|]. intros s2 HA2 Hr2 Hack. apply HQ; [done|by etransitivity|done].
Qed.

(** Sending moves the phase on. *)
Lemma F_send item ph ph' (Q : () → Sender → Prop) s :
  At ph s → ph ≠ PhaseAborted → transcript plan (sentItems s ++ [item]) ph' → ackedFor plan ph' (acks s) →
  (∀ s', At ph' s' → acks s' = acks s → Q () s') → wpF (channelSendItem item) Q Stopped s.
Proof.
  intros HA Hp Ht Ha HQ. unfold channelSendItem. apply F_get. cbv zeta. destruct (sendAccepts _).
  - apply twp_modify; [done|]. destruct HA as [? ? ? ? ? ?]. by apply HQ.
  - twp_step. apply twp_modify; [done|]. apply twp_throw. exists ph. split; [done|]. by destruct HA.
Qed.

(** A control message: [next] is the rule of the transcript that allows it. *)
Lemma F_sendControl m stop ph ph' (Q : () → Sender → Prop) s :
  At ph s → ph ≠ PhaseAborted → (∀ l sealed, transcript plan l ph → transcript plan (l ++ [SentControl m sealed]) ph') →
  (∀ w, promisesEvolve (acks s) w → ackedFor plan ph w → ackedFor plan ph' w) →
  (∀ s', At ph' s' → promisesEvolve (acks s) (acks s') → Q () s') → wpF (sendSenderControl m stop) Q Stopped s.
Proof.
  intros HA Hp Ht Ha HQ. unfold sendSenderControl. twp_step. apply (F_await _ ph); [done..|]. intros s1 sealed HA1 Hr1 _.
  assert (∀ s2, At ph s2 → promisesEvolve (acks s) (acks s2) → wpF (channelSendItem (SentControl m sealed)) Q Stopped s2) as Hsend.
  { intros s2 HA2 Hr2. apply (F_send _ ph ph'); [done|done|apply Ht, HA2|apply Ha; [done|apply HA2]|].
    intros s3 HA3 E. apply HQ; [done|]. by rewrite E. }
  twp_step. apply twp_when; intros _; [|by apply Hsend, Hr1]. apply (F_throwIf ph); [done..|]. intros s2 HA2 Hr2. apply Hsend; [done|].
  etransitivity; [apply Hr1|apply Hr2].
Qed.

End Steps.
