(* ===== verification/SenderFiles.v ===== *)
(** * SenderFiles: sending the files of a plan keeps to its transcript.

    The loops of [sendFiles]: over the prefix that the receiver has, over the
    stream of a file, over the files. *)
From S2P Require Import Prelude.
From S2P Require Import Constants.
From S2P Require Import JsText.
From S2P Require Import JsValue.
From S2P Require Import Base64.
From S2P Require Import Protocol.
From S2P Require Import Messages.
From S2P Require Import Limits.
From S2P Require Import Bytes.
From S2P Require Import Chunks.
From S2P Require Import Crypto.
From S2P Require Import TransferControl.
From S2P Require Import ControlWaiter.
From S2P Require Import Async.
From S2P Require Import ReceiverState.
From S2P Require Import Receiver.
From S2P Require Import SendPlan.
From S2P Require Import Sender.
From S2P Require Import SenderInv.
From S2P Require Import SenderSteps.
#[local] Open Scope Z_scope.
#[local] Ltac Zify.zify_post_hook ::= Z.to_euclidean_division_equations.

(** The next chunk with its hash. *)
Lemma hashes_snoc `{Crypto} (chunks : list (list Z)) hashes payload rest :
  map digestHex chunks = take (length chunks) hashes → drop (length chunks) hashes = digestHex payload :: rest →
  map digestHex (chunks ++ [payload]) = take (length (chunks ++ [payload])) hashes ∧ drop (length (chunks ++ [payload])) hashes = rest ∧
  hashes !! length chunks = Some (digestHex payload).
Proof.
  intros Hm Hd. assert (hashes !! length chunks = Some (digestHex payload)) as Hl by (by rewrite <-(Nat.add_0_r (length chunks)), <-lookup_drop, Hd).
  rewrite length_app. cbn [length]. rewrite Nat.add_1_r. split_and!; [|by rewrite <-Nat.add_1_r, <-drop_drop, Hd|done].
  rewrite (take_S_r _ _ _ Hl), map_app, Hm. done.
Qed.

Lemma byteLength_app (l r : list Z) : byteLength (l ++ r) = byteLength l + byteLength r.
Proof. unfold byteLength. rewrite length_app. lia. Qed.

Section Files.
Context `{Crypto, JsCase, SendChannels}.
Context (files : list (option SendFile)).
Abbreviation plan := (planned files).
Abbreviation wpF t Q E s := (twp sendAnswers (SendInv files) sendRely anything t Q E s).
Abbreviation Stopped := (Stopped files).
Abbreviation At := (At files).

(** An error in a phase that is not aborted. *)
#[local] Ltac stops := eexists; split; [|eassumption]; done.

(** ** The prefix of a resumed file *)

(** Chunks of the file, as hashed in the plan. *)
Definition hashed (f : SendPlanFile) (chunks : list (list Z)) : Prop := map digestHex chunks = take (length chunks) (sp_chunkSha256 f).

Lemma F_hashPrefixLoop f resume rest chunks ph (Q : list Z → Sender → Prop) s :
  0 <= resume → hashed f chunks → drop (length chunks) (sp_chunkSha256 f) = rest →
  byteLength (concat chunks) = Z.min (Z.of_nat (length chunks) * CHUNK_SIZE) resume → Z.of_nat (length chunks) * CHUNK_SIZE < resume + CHUNK_SIZE →
  At ph s → ph ≠ PhaseAborted →
  (∀ chunks s', hashed f chunks → byteLength (concat chunks) = resume → Z.of_nat (length chunks) = (resume + CHUNK_SIZE - 1) / CHUNK_SIZE →
    At ph s' → promisesEvolve (acks s) (acks s') → Q (concat chunks) s') →
  wpF (hashPrefixLoop f resume rest (Z.of_nat (length chunks) * CHUNK_SIZE) (Z.of_nat (length chunks)) (concat chunks)) Q Stopped s.
Proof.
  intros Hres. revert chunks s. induction rest as [|h rest IH]; intros chunks s Hh Hd Hb Hn HA Hp HQ; cbn [hashPrefixLoop];
    (destruct (Z.ltb_spec (Z.of_nat (length chunks) * CHUNK_SIZE) resume) as [Hlt|Hge];
      [|apply HQ; [done|lia|unfold CHUNK_SIZE in *; lia|done|done]]);
    twp_step; (eapply F_await; [exact HA|done|]); intros s1 payload HA1 Hr1 _;
    (destruct (Z.eqb_spec (byteLength payload) (Z.min CHUNK_SIZE (resume - Z.of_nat (length chunks) * CHUNK_SIZE))) as [Hl|]; [|by exists ph]); [by exists ph|].
  cbn [negb]. destruct (bool_decide_reflect (digestHex payload = h)) as [<-|]; [|by exists ph]. cbn [negb].
  destruct (hashes_snoc chunks _ payload rest Hh Hd) as (Hh' & Hd' & _).
  assert (byteLength (concat (chunks ++ [payload])) = Z.min (Z.of_nat (length (chunks ++ [payload])) * CHUNK_SIZE) resume) as Hb'.
  { rewrite concat_app, byteLength_app, length_app. cbn [concat length]. rewrite app_nil_r. unfold CHUNK_SIZE in *. lia. }
  assert (Z.of_nat (length (chunks ++ [payload])) = Z.of_nat (length chunks) + 1) as Hlen by (rewrite length_app; cbn; lia).
  replace (concat chunks ++ payload) with (concat (chunks ++ [payload])) by (by rewrite concat_app; cbn; rewrite app_nil_r).
  replace (Z.of_nat (length chunks) * CHUNK_SIZE + CHUNK_SIZE) with (Z.of_nat (length (chunks ++ [payload])) * CHUNK_SIZE) by (rewrite Hlen; lia).
  rewrite <-Hlen. apply IH; [done|done|done|unfold CHUNK_SIZE in *; lia|done|done|].
  intros chunks' s2 ? ? ? ? Hr2. apply HQ; [done..|]. etransitivity; [apply Hr1|exact Hr2].
Qed.

Lemma F_hashSendPrefix f resume ph (Q : list Z * option jsstr → Sender → Prop) s :
  0 <= resume → At ph s → ph ≠ PhaseAborted →
  (∀ chunks o s', hashed f chunks → byteLength (concat chunks) = resume → Z.of_nat (length chunks) = (resume + CHUNK_SIZE - 1) / CHUNK_SIZE →
    At ph s' → promisesEvolve (acks s) (acks s') → Q (concat chunks, o) s') →
  wpF (hashSendPrefix f resume) Q Stopped s.
Proof.
  intros Hres HA Hp HQ. unfold hashSendPrefix. destruct (Z.eqb_spec resume 0) as [->|Hne].
  - by apply (HQ [] None s).
  - twp_step. apply (F_hashPrefixLoop f resume (sp_chunkSha256 f) [] ph); [done|done|done| | |done|done|].
    { change (0 = Z.min 0 resume). lia. }
    { change (0 < resume + CHUNK_SIZE). unfold CHUNK_SIZE. lia. }
    intros chunks s' ? ? ? ? ?. by apply HQ.
Qed.

(** ** The agreed offset *)

Definition offsetOk (f : SendPlanFile) (offset : Z) : Prop :=
  0 <= offset <= sp_size f ∧ (offset = sp_size f ∨ offset mod CHUNK_SIZE = 0).

Lemma F_verified fuel k f (Q : ReadyState → Sender → Prop) s :
  plan !! k = Some f → planFileOk k f → (k < 100)%nat → At (PhaseWithin k None) s →
  (∀ r s', offsetOk f (readyOffset r) → At (PhaseWithin k None) s' → promisesEvolve (acks s) (acks s') → Q r s') →
  wpF (verifiedReadyState fuel f) Q Stopped s.
Proof.
  intros Hf Hok Hk. revert s. induction fuel as [|fuel IH]; intros s HA HQ; cbn [verifiedReadyState].
  { twp_step. by eapply F_await; [exact HA|done|]. }
  twp_step. eapply F_throwIf; [exact HA|done|]. intros s1 HA1 Hr1. apply F_get. cbv zeta.
  set (ready := default _ _). assert (0 <= readyOffset ready) as Hnn.
  { unfold ready. destruct (readyStates s1 !! sp_id f) as [r|] eqn:Er; cbn; [|lia]. by apply (at_ready _ _ _ HA1 _ _ Er). }
  twp_step. apply twp_modify; [done|]. set (s2 := set_readyStates _ s1).
  assert (At (PhaseWithin k None) s2) as HA2. { destruct HA1. split; try done. by apply map_Forall_delete. }
  assert (promisesEvolve (acks s) (acks s2)) as Hr2 by apply Hr1.
  destruct (_ || _) eqn:Eb; [by exists (PhaseWithin k None)|]. apply orb_false_iff in Eb as [Ele%Z.ltb_ge Emod].
  assert (offsetOk f (readyOffset ready)) as Hoff.
  { split; [lia|]. apply andb_false_iff in Emod as [?%Z.ltb_ge|Hm]; [left; lia|right]. apply negb_false_iff in Hm. lia. }
  destruct (Z.eqb_spec (readyOffset ready) 0) as [E0|Hne]; [by apply HQ|].
  twp_step. eapply F_hashSendPrefix; [done|exact HA2|done|]. intros chunks o s3 _ _ _ HA3 Hr3.
  twp_step. eapply F_throwIf; [exact HA3|done|]. intros s4 HA4 Hr4. assert (promisesEvolve (acks s) (acks s4)) as Hr04.
  { etransitivity; [exact Hr2|]. etransitivity; [exact Hr3|apply Hr4]. }
  destruct (bool_decide _); [by apply HQ|]. twp_step. rewrite (pf_id _ _ Hok).
  eapply (F_acksWait _ (AckReady (Z.of_nat k))); [exact HA4|done|cbn; lia|]. intros p s5 HA5 _ Hr5 Hp5.
  twp_step. eapply F_sendControl; [exact HA5|done|intros l sealed Ht; by constructor|done|]. intros s6 HA6 Hr6.
  assert (promiseFor (AckReady (Z.of_nat k)) p s6) as Hp6.
  { destruct Hp5 as (pr & Hp5 & Hk5). destruct (Hr6 _ _ Hp5) as (pr' & ? & ? & _). exists pr'. split; [done|congruence]. }
  twp_step. eapply F_awaitPromise; [exact HA6|done|exact Hp6|]. intros s7 HA7 Hr7 _. apply IH; [done|]. intros r s8 ? ? Hr8. apply HQ; [done|done|].
  etransitivity; [exact Hr04|]. etransitivity; [apply Hr5|]. etransitivity; [exact Hr6|]. etransitivity; [apply Hr7|exact Hr8].
Qed.

(** ** The stream of a file *)

(** The phase after these payloads were sent, from chunk [n] on. *)
Definition sentOf (n : nat) (ps : list (list Z)) : option (nat * list (list Z)) := match ps with [] => None | _ => Some (n, ps) end.

Lemma sentOf_snoc n ps p : sentOf n (ps ++ [p]) = Some (n, ps ++ [p]).
Proof. by destruct ps. Qed.

Lemma sentOf_payloads n ps : match sentOf n ps with Some (_, l) => l | None => [] end = ps.
Proof. by destruct ps. Qed.

(** The next chunk continues the transcript. *)
Lemma transcript_chunk k f before ps payload sealed frame l :
  plan !! k = Some f → sp_chunkSha256 f !! length (before ++ ps) = Some (digestHex payload) →
  encodeChunk (Z.of_nat k) (Z.of_nat (length (before ++ ps))) (bin sealed) = Ok frame →
  transcript plan l (PhaseWithin k (sentOf (length before) ps)) →
  transcript plan (l ++ [SentChunk (Z.of_nat k) (Z.of_nat (length (before ++ ps))) payload frame]) (PhaseWithin k (sentOf (length before) (ps ++ [payload]))).
Proof.
  intros Hf Hh He Ht. rewrite sentOf_snoc. destruct ps as [|p ps].
  - rewrite app_nil_r in *. by eapply tr_first.
  - cbn [sentOf] in Ht. rewrite length_app in *. by eapply tr_next.
Qed.

Lemma F_sendChunks k f before rest ps (Q : Z * Z * list Z → Sender → Prop) s :
  plan !! k = Some f → planFileOk k f → hashed f (before ++ ps) → drop (length (before ++ ps)) (sp_chunkSha256 f) = rest →
  At (PhaseWithin k (sentOf (length before) ps)) s → acked (acks s) (AckReady (Z.of_nat k)) →
  (∀ ps s', hashed f (before ++ ps) → At (PhaseWithin k (sentOf (length before) ps)) s' → promisesEvolve (acks s) (acks s') →
    Q (Z.of_nat (length (before ++ ps)), byteLength (concat (before ++ ps)), concat (before ++ ps)) s') →
  wpF (sendChunks f rest (Z.of_nat (length (before ++ ps))) (byteLength (concat (before ++ ps))) (concat (before ++ ps))) Q Stopped s.
Proof.
  intros Hf Hok. revert ps s. induction rest as [|h rest IH]; intros ps s Hh Hd HA Hack HQ; cbn [sendChunks];
    twp_step; (eapply F_await; [exact HA|done|]); intros s1 chunk HA1 Hr1 _;
    (destruct chunk as [chunk|]; [|by apply HQ; [..|apply Hr1]]);
    twp_step; (eapply F_throwIf; [exact HA1|done|]); intros s2 HA2 Hr2;
    twp_step; apply twp_lift; (destruct (toBytes chunk) as [payload|e]; [|stops]);
    twp_step; (eapply F_throwIf; [exact HA2|done|]); intros s3 HA3 Hr3; (destruct (sp_size f <? _); [stops|]); [stops|].
  destruct (bool_decide_reflect (digestHex payload = h)) as [<-|]; [|stops]. cbn [negb].
  twp_step. eapply F_await; [exact HA3|done|]. intros s4 sealed HA4 Hr4 _. twp_step. eapply F_throwIf; [exact HA4|done|]. intros s5 HA5 Hr5.
  twp_step. apply twp_lift. rewrite (pf_id _ _ Hok). destruct (encodeChunk _ _ _) as [frame|e] eqn:Ee; [|stops].
  destruct (hashes_snoc (before ++ ps) _ payload rest Hh Hd) as (Hh' & Hd' & Hl). rewrite <-app_assoc in Hh', Hd'.
  assert (promisesEvolve (acks s) (acks s5)) as Hr05.
  { etransitivity; [apply Hr1|]. etransitivity; [apply Hr2|]. etransitivity; [apply Hr3|]. etransitivity; [apply Hr4|apply Hr5]. }
  twp_step. eapply (F_send _ _ _ (PhaseWithin k (sentOf (length before) (ps ++ [payload])))); [exact HA5|done| | |].
  { eapply transcript_chunk; [done|done|exact Ee|apply HA5]. }
  { rewrite sentOf_snoc. split; [apply HA5|]. intros _. by eapply acked_evolve. }
  intros s6 HA6 E6. twp_step. eapply F_await; [exact HA6|done|]. intros s7 [] HA7 Hr7 _. twp_step. eapply F_throwIf; [exact HA7|done|]. intros s8 HA8 Hr8.
  assert (promisesEvolve (acks s) (acks s8)) as Hr08.
  { etransitivity; [exact Hr05|]. rewrite <-E6. etransitivity; [apply Hr7|apply Hr8]. }
  assert (concat (before ++ ps) ++ payload = concat (before ++ ps ++ [payload])) as Ec.
  { rewrite (app_assoc before). rewrite (concat_app (before ++ ps)). cbn [concat]. by rewrite app_nil_r. }
  rewrite <-byteLength_app, Ec. replace (Z.of_nat (length (before ++ ps)) + 1) with (Z.of_nat (length (before ++ ps ++ [payload])))
    by (rewrite !length_app; cbn [length]; lia).
  apply IH; [done|done|done|by eapply acked_evolve|]. intros ps' s9 ? ? Hr9. apply HQ; [done|done|]. by etransitivity.
Qed.

(** ** A file *)

Definition allOk (k : nat) (s : Sender) : Prop := ∀ j, (j < k)%nat → acked (acks s) (AckFileOk (Z.of_nat j)).

Lemma allOk_evolve k s s' : promisesEvolve (acks s) (acks s') → allOk k s → allOk k s'.
Proof. intros Hr Ha j Hj. eapply acked_evolve; [done|by apply Ha]. Qed.

Lemma within_between k s w : promisesEvolve (acks s) w → allOk k s → ackedFor plan (PhaseBetween k) w → ackedFor plan (PhaseWithin k None) w.
Proof.
  intros Hr Ha [Hready _]. split; [|by intros [? ?]]. intros j Hj. split; [by apply Hready|]. eapply acked_evolve; [done|by apply Ha].
Qed.

(** Where the stream starts, and the chunks before it. *)
Lemma start_seq f k offset (before : list (list Z)) :
  planFileOk k f → offsetOk f offset → Z.of_nat (length before) = (offset + CHUNK_SIZE - 1) / CHUNK_SIZE →
  (if offset =? sp_size f then Z.of_nat (length (sp_chunkSha256 f)) else offset / CHUNK_SIZE) = Z.of_nat (length before).
Proof.
  intros Hok [Hle Hor] ->. destruct (Z.eqb_spec offset (sp_size f)) as [->|Hne]; [apply (pf_chunks _ _ Hok)|].
  destruct Hor as [|Hm]; [done|]. unfold CHUNK_SIZE in *. lia.
Qed.

Lemma F_sendFile fuel k f (Q : () → Sender → Prop) s :
  plan !! k = Some f → planFileOk k f → (k < 100)%nat → At (PhaseBetween k) s → allOk k s →
  (∀ s', At (PhaseBetween (S k)) s' → allOk (S k) s' → Q () s') → wpF (sendFile fuel f) Q Stopped s.
Proof.
  intros Hf Hok Hk HA Hall HQ. unfold sendFile. rewrite (pf_id _ _ Hok). twp_step. eapply F_throwIf; [exact HA|done|]. intros s1 HA1 Hr1.
  assert (allOk k s1) as Hall1 by (eapply allOk_evolve; [apply Hr1|done]).
  twp_step. eapply F_sendControl; [exact HA1|done|intros l sealed Ht; by constructor|intros w Hw; by eapply within_between|]. intros s2 HA2 Hr2.
  twp_step. eapply (F_awaitAck _ (AckReady (Z.of_nat k))); [exact HA2|done|cbn; lia|]. intros s3 HA3 Hr3 Hack3.
  twp_step. eapply F_throwIf; [exact HA3|done|]. intros s4 HA4 Hr4.
  twp_step. eapply F_verified; [done..|]. intros ready s5 Hoff HA5 Hr5. cbv zeta. twp_step.
  eapply F_hashSendPrefix; [apply Hoff|exact HA5|done|]. intros before o s6 Hbefore Hbytes Hlen HA6 Hr6. cbn [fst].
  twp_step. eapply F_throwIf; [exact HA6|done|]. intros s7 HA7 Hr7.
  assert (promisesEvolve (acks s3) (acks s7)) as Hr37.
  { etransitivity; [apply Hr4|]. etransitivity; [exact Hr5|]. etransitivity; [exact Hr6|apply Hr7]. }
  assert (allOk k s7) as Hall7. { eapply allOk_evolve; [exact Hr37|]. eapply allOk_evolve; [apply Hr3|]. by eapply allOk_evolve. }
  rewrite (start_seq f k _ before) by done. rewrite Nat2Z.id, <-Hbytes. rewrite <-(app_nil_r before) at 1 2 3 4.
  twp_step. apply (F_sendChunks k); [done|done|by rewrite app_nil_r|by rewrite app_nil_r|exact HA7|by eapply acked_evolve|].
  intros ps s8 Hh HA8 Hr8. destruct (Z.eqb_spec (Z.of_nat (length (before ++ ps))) (Z.of_nat (length (sp_chunkSha256 f)))) as [Hn%Nat2Z.inj|]; [|stops].
  cbn [negb]. destruct (Z.eqb_spec (byteLength (concat (before ++ ps))) (sp_size f)) as [Hsz|]; [|stops]. cbn [negb].
  destruct (bool_decide_reflect (digestHex (concat (before ++ ps)) = sp_sha256 f)) as [Hsha|]; [|stops]. cbn [negb].
  twp_step. eapply F_throwIf; [exact HA8|done|]. intros s9 HA9 Hr9.
  assert (allOk k s9) as Hall9. { eapply allOk_evolve; [apply Hr9|]. by eapply allOk_evolve. }
  assert (acked (acks s9) (AckReady (Z.of_nat k))) as Hack9. { eapply acked_evolve; [apply Hr9|]. eapply acked_evolve; [exact Hr8|]. by eapply acked_evolve. }
  twp_step. eapply (F_sendControl _ _ _ _ (PhaseBetween (S k))); [exact HA9|done| | |].
  - intros l sealed Ht. eapply (tr_end plan l k f _ before); [done|done| |by destruct ps].
    rewrite sentOf_payloads. split_and!; [|done|done]. unfold hashed in Hh. rewrite Hn, firstn_all in Hh. exact Hh.
  - intros w Hw [Hj _]. split; intros j Hlt.
    + destruct (decide (j = k)) as [->|]; [by eapply acked_evolve|apply Hj; lia].
    + eapply acked_evolve; [exact Hw|]. apply Hall9. lia.
  - intros s10 HA10 Hr10. eapply (F_awaitAck _ (AckFileOk (Z.of_nat k))); [exact HA10|done|cbn; lia|]. intros s11 HA11 Hr11 Hack11.
    apply HQ; [done|]. intros j Hj. destruct (decide (j = k)) as [->|]; [done|]. eapply acked_evolve; [apply Hr11|].
    eapply acked_evolve; [exact Hr10|]. apply Hall9. lia.
Qed.

End Files.
