(* ===== verification/SenderProps.v ===== *)
(** * SenderProps: what [sendFiles] guarantees.

    In every state that the sender can reach, whatever its files hold by then,
    whatever the receiver and the channels do, and however events, timers,
    queue and [sendFiles] interleave. *)
From S2P Require Import Prelude.
From S2P Require Import Constants.
From S2P Require Import JsText.
From S2P Require Import JsValue.
From S2P Require Import Base64.
From S2P Require Import Protocol.
From S2P Require Import Messages.
From S2P Require Import Limits.
From S2P Require Import Bytes.
From S2P Require Import Chunks.
From S2P Require Import Crypto.
From S2P Require Import TransferControl.
From S2P Require Import ControlWaiter.
From S2P Require Import Async.
From S2P Require Import ReceiverState.
From S2P Require Import Receiver.
From S2P Require Import SendPlan.
From S2P Require Import Sender.
From S2P Require Import SenderInv.
From S2P Require Import SenderSteps.
From S2P Require Import SenderFiles.
#[local] Open Scope Z_scope.

Section Props.
Context `{Crypto, JsCase, SendChannels}.
Context (files : list (option SendFile)).
Abbreviation plan := (planned files).
Abbreviation wpF t Q E s := (twp sendAnswers (SendInv files) sendRely anything t Q E s).
Abbreviation Stopped := (Stopped files).
Abbreviation At := (At files).

Lemma F_sendPlanned fuel l k (Q : () → Sender → Prop) s :
  drop k plan = l → (∀ i f, plan !! i = Some f → planFileOk i f) → (length plan <= 100)%nat → At (PhaseBetween k) s → allOk k s →
  (∀ s', At (PhaseBetween (k + length l)) s' → allOk (k + length l) s' → Q () s') → wpF (sendPlanned fuel l) Q Stopped s.
Proof.
  revert k s. induction l as [|f l IH]; intros k s Hd Hok Hl HA Hall HQ; cbn [sendPlanned length] in *.
  - rewrite Nat.add_0_r in HQ. by apply HQ.
  - assert (plan !! k = Some f) as Hf by (by rewrite <-(Nat.add_0_r k), <-lookup_drop, Hd). pose proof (lookup_lt_Some _ _ _ Hf).
    twp_step. apply (F_sendFile files fuel k); [done|by apply Hok|lia|done|done|]. intros s1 HA1 Hall1.
    apply (IH (S k)); [by rewrite <-Nat.add_1_r, <-drop_drop, Hd|done|done|done|done|]. by rewrite Nat.add_succ_comm.
Qed.

Lemma F_body fuel (Q : () → Sender → Prop) s :
  At PhaseStart s → (∀ s', At PhaseDone s' → acked (acks s') AckAllDone → Q () s') → wpF (sendFilesBody fuel files) Q Stopped s.
Proof.
  intros HA HQ. unfold sendFilesBody. twp_step. apply twp_lift. destruct (buildSendPlan files) as [p|e] eqn:Ep; [|by exists PhaseStart].
  assert (plan = p) as <- by (unfold planned; by rewrite Ep). destruct (buildSendPlan_ok _ _ Ep) as (_ & Hlen & Hok). unfold MAX_FILES_PER_SESSION in Hlen.
  twp_step. apply twp_lift. destruct (assertTransferManifestWithinLimits _) as [[]|e]; [|by exists PhaseStart].
  twp_step. eapply (F_sendControl _ _ _ _ (PhaseBetween 0)); [exact HA|done| |intros w _ _; split; intros; lia|].
  { intros l sealed Ht. inversion Ht; subst. constructor. }
  intros s3 HA3 _. twp_step. apply (F_sendPlanned fuel plan 0); [done|done|lia|done|by intros ? ?%Nat.nlt_0_r|]. cbn [Nat.add]. intros s4 HA4 Hall4.
  twp_step. eapply F_throwIf; [exact HA4|done|]. intros s5 HA5 Hr5. twp_step.
  eapply (F_sendControl _ _ _ _ PhaseDone); [exact HA5|done|intros l x Ht; by constructor| |].
  - intros w Hw [Hready _] j Hj. split; [by apply Hready|]. eapply acked_evolve; [exact Hw|]. eapply acked_evolve; [apply Hr5|]. by apply Hall4.
  - intros s6 HA6 _. eapply (F_awaitAck _ AckAllDone); [exact HA6|done|done|]. intros s7 HA7 _ Hack. by apply HQ.
Qed.

(** The [finally] block leaves the channels alone and closes the handles. *)
Record Ended (ph : SendPhase) (s : Sender) : Prop := {
  en_at : At ph s;
  en_listening : listening s = false;
  en_closing : closing s = closableHandles files
}.

Lemma F_finish ph (Q : () → Sender → Prop) E s :
  At ph s → (∀ s', Ended ph s' → promisesEvolve (acks s) (acks s') → Q () s') → wpF (finishSend files) Q E s.
Proof.
  intros [A1 A2 A3 A4 A5 A6] HQ. unfold finishSend. twp_step. apply twp_modify; [done|]. twp_step. apply twp_modify; [done|]. set (s1 := set_end _ _ _).
  assert (At ph s1) as HA1 by by split. apply twp_await; [by eapply At_inv|]. intros s' r HI Hr ->. apply HQ; [|apply Hr].
  split; [by eapply At_rely|by rewrite (sr_listening _ _ Hr)|by rewrite (sr_closing _ _ Hr)].
Qed.

Lemma F_sendFiles fuel s : SendInv files s → called s = false → wpF (sendFiles fuel files) (λ _, SendInv files) (λ _, SendInv files) s.
Proof.
  intros HI Hc. unfold sendFiles. twp_step. apply twp_modify; [done|]. set (s1 := set_listening true true s).
  assert (At PhaseStart s1) as HA1. { destruct (si_fresh _ _ HI Hc) as [Hs Hr]. split; cbn; try done; [rewrite Hs; constructor|apply HI|apply HI]. }
  twp_step. apply twp_try, twp_finally, twp_catch.
  assert (∀ e ph s', At ph s' → wpF (finishSend files)
    (λ _ s2, wpF (modify (λ s, set_end (closing s) (Some (Err e)) s)) (λ _, SendInv files) (λ _, SendInv files) s2)
    (λ e s2, wpF (modify (λ s, set_end (closing s) (Some (Err e)) s)) (λ _, SendInv files) (λ _, SendInv files) s2) s') as Hfail.
  { intros e ph s' HA. apply (F_finish ph); [done|]. intros s2 [HA2 Hl2 Hc2] _. apply twp_modify; [done|]. destruct HA2 as [B1 B2 B3 B4 B5 B6].
    split; cbn; try done; [by rewrite B5|by exists ph|]. intros r [= <-]. by split_and!. }
  eapply twp_mono; [apply (F_body fuel (λ _ s', At PhaseDone s' ∧ acked (acks s') AckAllDone)); [exact HA1|done]|..]; cbv beta.
  - intros [] s2 [HA2 Hack2]. apply (F_finish PhaseDone); [done|]. intros s3 [HA3 Hl3 Hc3] Hr3. apply twp_modify; [done|]. destruct HA3 as [B1 B2 B3 B4 B5 B6].
    split; cbn; try done; [by rewrite B5|by exists PhaseDone|]. intros r [= <-]. split_and!; [done..|]. intros _. split_and!; [done|done|by eapply acked_evolve].
  - intros e s2 (ph & Hp & HA2). twp_step. apply twp_catch. cbn [twp].
    eapply twp_mono; [apply (F_sendControl files abortControlMessage false ph PhaseAborted (λ _, At PhaseAborted)); [done|done|intros l x Ht; by econstructor|done|done]|..];
      cbv beta.
    + intros [] s3 HA3. by eapply Hfail.
    + intros e' s3 (ph' & _ & HA3). by eapply Hfail.
Qed.

Lemma sendReached_inv c : sendReached files c → SendInv files (shared c).
Proof.
  apply (system_invariant sendAnswers (sendStarts files) sendLaunches (SendInv files) sendRely anything).
  - intros s t HI Hst. destruct Hst as [s fuel Hc]. by apply F_sendFiles.
  - intros s t HI Hl. by apply launch_keeps.
  - apply initialSender_inv.
Qed.

End Props.

(** C12. The sender keeps to its plan.  In every state that [sendFiles] can
    reach, what it has sent is a transcript of its plan: the manifest; for each
    file in order [file-begin], requests to restart, chunks with consecutive
    sequence numbers whose payloads have the hashes of the plan, and [file-end]
    only if the chunks before the first one sent, which were read in this call,
    together with the chunks sent have the size and the hash of the plan; then
    [all-done]; and at any point at most one abort, with nothing after it.  A
    chunk of a file was sent only after its [ready], a file after the [file-ok]
    of every earlier file. *)
Theorem sender_keeps_plan `{Crypto, JsCase, SendChannels} files c :
  sendReached files c →
  ∃ ph, transcript (planned files) (sentItems (shared c)) ph ∧ ackedFor (planned files) ph (acks (shared c)).
Proof. intros Hr. apply (si_phase _ _ (sendReached_inv files c Hr)). Qed.

(** C13. When [sendFiles] has ended it listens to no channel and closes every
    handle it was given; if it resolved, the transcript is complete, every file
    was acknowledged with [ready] and [file-ok], and the transfer with
    [all-done-ok]. *)
Theorem send_end `{Crypto, JsCase, SendChannels} files c r :
  sendReached files c → sendResult (shared c) = Some r →
  listening (shared c) = false ∧ closing (shared c) = closableHandles files ∧
  (r = Ok () → transcript (planned files) (sentItems (shared c)) PhaseDone ∧ acked (acks (shared c)) AckAllDone ∧
    ∀ j, (j < length (planned files))%nat → acked (acks (shared c)) (AckReady (Z.of_nat j)) ∧ acked (acks (shared c)) (AckFileOk (Z.of_nat j))).
Proof.
  intros Hr Hres. destruct (si_end _ _ (sendReached_inv files c Hr) r Hres) as (Hl & Hc & Hok). split_and!; [done..|].
  intros E. destruct (Hok E) as (Ht & Ha & Hd). by split_and!.
Qed.
