(* ===== verification/SenderRun.v ===== *)
(** * SenderRun: a whole transfer, from the sender's files to the receiver's.

    With files that still are what the plan says and a receiver that
    acknowledges, [sendFiles] can run to its end, and what it sends is exactly
    what the honest transfer of ReceiverRun delivers.  A concrete run gives the
    witnesses, and another one shows a rejection that nothing handles. *)
From S2P Require Import Prelude.
From S2P Require Import Constants.
From S2P Require Import JsText.
From S2P Require Import JsValue.
From S2P Require Import Base64.
From S2P Require Import Protocol.
From S2P Require Import Messages.
From S2P Require Import Limits.
From S2P Require Import Bytes.
From S2P Require Import Chunks.
From S2P Require Import Crypto.
From S2P Require Import TransferControl.
From S2P Require Import ControlWaiter.
From S2P Require Import Async.
From S2P Require Import ReceiverState.
From S2P Require Import Receiver.
From S2P Require Import SendPlan.
From S2P Require Import Sender.
From S2P Require Import SenderInv.
From S2P Require Import FileStat.
From S2P Require Import SenderSteps.
From S2P Require Import SenderFiles.
From S2P Require Import SenderProps.
From S2P Require Import ReceiverRun.
#[local] Open Scope Z_scope.
#[local] Ltac Zify.zify_post_hook ::= Z.to_euclidean_division_equations.

(** The chunks of a content. *)
Definition chunksOf (content : list Z) (n : nat) : list (list Z) := map (chunkOf content) (seq 0 n).

Lemma chunksOf_snoc content n : chunksOf content (S n) = chunksOf content n ++ [chunkOf content n].
Proof. unfold chunksOf. by rewrite seq_S, map_app. Qed.

Lemma concat_chunksOf content n : concat (chunksOf content n) = take (n * Z.to_nat CHUNK_SIZE) content.
Proof.
  induction n as [|n IH]; [done|]. rewrite chunksOf_snoc, concat_app, IH. cbn [concat]. rewrite app_nil_r. unfold chunkOf.
  rewrite take_take_drop. f_equal. lia.
Qed.

Section Run.
#[local] Set Default Proof Using "All".
Context `{Crypto, JsCase, SendChannels}.
Context (files : list (option SendFile)) (plan : list SendPlanFile).
(** The contents of the files, and how messages and chunks are sealed. *)
Context (contentOf : nat → list Z) (controlText : ControlMessage → jsstr) (chunkSealed : nat → nat → list Z).

Definition sendingOf : Sending := {| contents := contentOf; controlData m := Text (controlText m); sealedChunk := chunkSealed |}.

(** What is sent. *)
Definition control (m : ControlMessage) : SentItem := SentControl m (controlText m).
Definition chunkItem (k n : nat) : SentItem :=
  SentChunk (Z.of_nat k) (Z.of_nat n) (chunkOf (contentOf k) n) (frameOf {| fileId := Z.of_nat k; chunkSeq := Z.of_nat n; payload := chunkSealed k n |}).
Definition fileItems (k : nat) (f : SendPlanFile) : list SentItem :=
  [control (FileBegin (Z.of_nat k) (sp_name f) (sp_size f))] ++ map (chunkItem k) (seq 0 (chunkCount (contentOf k))) ++
  [control (FileEnd (Z.of_nat k) (sp_sha256 f))].
Definition transferItems : list SentItem :=
  [control (Manifest (map planEntry plan) (planBytes plan))] ++ concat (imap fileItems plan) ++ [control AllDone].

(** The plan is made, the channels take everything, and the files are as they
    were hashed. *)
Record sendable : Prop := {
  sd_plan : buildSendPlan files = Ok plan;
  sd_manifest : assertTransferManifestWithinLimits (manifestValue (manifestOf (map planEntry plan) (planBytes plan))) = Ok ();
  sd_accepts n : sendAccepts n = true;
  sd_sealed k n : bytes (chunkSealed k n) ∧ byteLength (chunkSealed k n) <= SEALED_CHUNK_SIZE;
  sd_size k f : plan !! k = Some f → byteLength (contentOf k) = sp_size f;
  sd_hash k f : plan !! k = Some f → sp_sha256 f = digestHex (contentOf k);
  sd_chunks k f : plan !! k = Some f → sp_chunkSha256 f = map digestHex (chunksOf (contentOf k) (chunkCount (contentOf k)))
}.
Context (Hs : sendable).

Abbreviation can t Q s := (can sendAnswers (sendStarts files) sendLaunches t Q s).
Abbreviation others := (others sendAnswers (sendStarts files) sendLaunches).

(** A transfer without trouble, between two waits. *)
Record Smooth (items : list SentItem) (ready : gmap Z ReadyState) (completed : bool) (s : Sender) : Prop := {
  sm_failed : senderFailed s = None;
  sm_completed : senderCompleted s = completed;
  sm_ready : readyStates s = ready;
  sm_tasks : queuedTasks (controlQueue s) = [];
  sm_running : taskRunning (controlQueue s) = false;
  sm_finished : finished (controlQueue s) = enqueued (controlQueue s);
  sm_listening : listening s = true;
  sm_result : sendResult s = None;
  sm_items : sentItems s = items;
  sm_waiter : waiterFailed (acks s) = None;
  sm_pending : pending (acks s) = ∅;
  sm_handled : Forall (λ p, (p < length (promises (acks s)))%nat) (handledPromises s)
}.

Definition succeeds {A} (Q : A → Sender → Prop) (r : result A) (s : Sender) : Prop := match r with Ok a => Q a s | Err _ => False end.
Abbreviation goes t Q s := (can t (succeeds Q) s).

Lemma C_bind {A B} (t : TS A) (f : A → TS B) Q s : goes t (λ a s', goes (f a) Q s') s → goes (t ≫= f) Q s.
Proof. intros Ht. apply can_bind. eapply can_mono; [exact Ht|]. intros [a|e] s'; [done|intros []]. Qed.

Lemma C_get {A} (f : Sender → TS A) Q s : goes (f s) Q s → goes (s ← get; f s) Q s.
Proof. intros Hf. by apply C_bind. Qed.

Lemma C_modify {A} f (t : TS A) Q s : goes t Q (f s) → goes (modify f;; t) Q s.
Proof. intros Ht. by apply C_bind. Qed.

Lemma C_await {B} (o : sendOp B) (Q : B → Sender → Prop) s b : sendAnswers B o s (Ok b) → Q b s → goes (await o) Q s.
Proof. intros Ha HQ. by eapply can_await. Qed.

Lemma C_catch {A} (t : TS A) h Q s : goes t Q s → goes (tcatch t h) Q s.
Proof. intros Ht. apply can_catch. eapply can_mono; [exact Ht|]. by intros [a|e] s'. Qed.

Lemma C_finally {A} (t : TS A) c Q s : goes t (λ a s', goes c (λ _, Q a) s') s → goes (tfinally t c) Q s.
Proof.
  intros Ht. apply C_bind, can_try. eapply can_mono; [exact Ht|]. intros [a|e] s' Hc; [|done]. by apply C_bind.
Qed.

Lemma C_throwIf items ready done' (Q : () → Sender → Prop) s : Smooth items ready done' s → Q () s → goes throwIfSenderFailed Q s.
Proof.
  intros [] HQ. unfold throwIfSenderFailed. apply C_get, C_bind. eapply (C_await _ _ _ ()).
  - split; [done|]. by rewrite sm_finished0.
  - apply C_get. by rewrite sm_failed0.
Qed.

Lemma C_send item items ready done' (Q : () → Sender → Prop) s :
  Smooth items ready done' s → (∀ s', Smooth (items ++ [item]) ready done' s' → Q () s') → goes (channelSendItem item) Q s.
Proof.
  intros [] HQ. unfold channelSendItem. apply C_get. cbv zeta. rewrite (sd_accepts Hs). apply HQ. split; try done. cbn. by rewrite sm_items0.
Qed.

Lemma C_sendControl m stop items ready done' (Q : () → Sender → Prop) s :
  Smooth items ready done' s → (∀ s', Smooth (items ++ [control m]) ready done' s' → Q () s') → goes (sendSenderControl m stop) Q s.
Proof.
  intros HL HQ. unfold sendSenderControl. apply C_bind, (C_await _ _ _ (controlText m)); [done|]. apply C_bind.
  assert (goes (channelSendItem (SentControl m (controlText m))) Q s) as Hsend by (by eapply C_send).
  destruct stop; [by eapply C_throwIf|exact Hsend].
Qed.

(** ** An acknowledgement *)

(** The message of the receiver; [resumed] is the prefix that it has of a file. *)
Definition ackMessage (a : Ack) (resumed : option (Z * jsstr)) : ControlMessage :=
  match a with
  | AckReady id => Ready id (fst <$> resumed) (snd <$> resumed)
  | AckFileOk id => FileOk id
  | AckAllDone => AllDoneOk
  end.

Definition resumedOk (resumed : option (Z * jsstr)) : Prop :=
  match resumed with Some (n, prefix) => 0 < n <= MAX_FILE_BYTES ∧ isSha256Hex prefix = true | None => True end.
Definition readyOf (resumed : option (Z * jsstr)) : ReadyState :=
  match resumed with
  | Some (n, prefix) => {| readyOffset := n; readyPrefix := Some prefix |}
  | None => {| readyOffset := 0; readyPrefix := None |}
  end.

Definition readyAfter (a : Ack) (resumed : option (Z * jsstr)) (m : gmap Z ReadyState) : gmap Z ReadyState :=
  match a with AckReady id => <[id := readyOf resumed]> m | _ => m end.
Definition completedAfter (a : Ack) : bool := match a with AckAllDone => true | _ => false end.

Lemma ackMessage_ok a resumed :
  ackOk a → resumedOk resumed → assertControlMessage (controlValue (ackMessage a resumed)) ≫= assertSenderControlMessage = Ok (ackMessage a resumed).
Proof.
  intros Ha Hr. rewrite assertControlMessage_complete; [by destruct a|]. destruct a; cbn in *; [|lia|done]. split; [lia|].
  destruct resumed as [[n prefix]|]; cbn in *; [|by split_and!]. destruct Hr as [Hn Hp]. split_and!; [|done|by intros ? [= <-]].
  intros ? [= <-]. unfold MAX_FILE_BYTES, MAX_SAFE_INTEGER in *. split; [lia|done].
Qed.

Lemma readyStateInput_ok resumed id : resumedOk resumed → readyStateInput (fst <$> resumed) (snd <$> resumed) id = Ok (readyOf resumed).
Proof.
  intros Hr. unfold readyStateInput, resumeOffsetInput. destruct resumed as [[n prefix]|]; cbn -[isIntegerIn Z.eqb].
  - destruct Hr as [Hn _]. assert (isIntegerIn 0 MAX_FILE_BYTES (jint n) = true) as -> by (apply isIntegerIn_spec; exists n; split; [done|lia]).
    cbn -[Z.eqb]. by rewrite (proj2 (Z.eqb_neq n 0)) by lia.
  - assert (isIntegerIn 0 MAX_FILE_BYTES (jint 0) = true) as ->; [|done]. apply isIntegerIn_spec. exists 0. by split; [|unfold MAX_FILE_BYTES].
Qed.

(** The waiter waits for this acknowledgement and no other. *)
Record Awaits (a : Ack) (p : PromiseId) (s : Sender) : Prop := {
  aw_failed : waiterFailed (acks s) = None;
  aw_pending : pending (acks s) = {[keyOf a := p]};
  aw_promise : promises (acks s) !! p = Some {| promiseKey := keyOf a; promiseOutcome := None |}
}.

Lemma C_expect a m p (Q : () → Sender → Prop) s :
  ackOk a → Awaits a p s → Q () (set_acks (settleAt p (Ok ()) (forget (keyOf a) (acks s))) s) → goes (expectAck a m) Q s.
Proof.
  intros Ha [_ Hp _] HQ. unfold expectAck, acksMark. apply C_bind, C_get. unfold mark. rewrite (ackOk_input a Ha). fold (keyOf a). rewrite Hp, lookup_singleton_eq.
  apply C_modify. exact HQ.
Qed.

(** The handler of the acknowledgement settles the promise. *)
Lemma C_handle a resumed p data (Q : () → Sender → Prop) s :
  ackOk a → resumedOk resumed → Awaits a p s → senderCompleted s = false →
  (∀ s', s' = set_acks (settleAt p (Ok ()) (forget (keyOf a) (acks s))) (set_readyStates (readyAfter a resumed) s) →
    Q () (if completedAfter a then set_senderCompleted s' else s')) →
  goes (handleSenderControl data) Q s.
Proof.
  intros Ha Hres Haw Hc HQ. unfold handleSenderControl. apply C_get. rewrite Hc. apply C_catch, C_bind, (C_await _ _ _ (controlValue (ackMessage a resumed))); [done|].
  rewrite (ackMessage_ok a resumed Ha Hres). apply C_bind. change (goes (dispatchSenderControl (ackMessage a resumed)) Q s). specialize (HQ _ eq_refl).
  destruct a as [id|id|]; cbn [ackMessage dispatchSenderControl completedAfter] in *.
  - rewrite (readyStateInput_ok resumed id Hres). apply C_bind. cbn [lift can succeeds].
    apply C_modify. eapply (C_expect (AckReady id)); [done| |exact HQ]. by destruct Haw.
  - eapply (C_expect (AckFileOk id)); [done|done|]. by destruct s.
  - apply C_bind. eapply (C_expect AckAllDone); [done|done|]. by destruct s.
Qed.

Lemma C_awaitAck a resumed items ready (Q : () → Sender → Prop) s :
  ackOk a → resumedOk resumed → Smooth items ready false s → (∀ s', Smooth items (readyAfter a resumed ready) (completedAfter a) s' → Q () s') → goes (awaitAck a) Q s.
Proof.
  intros Ha Hresumed HL HQ. unfold awaitAck, acksWait. apply C_bind, C_get. unfold wait. rewrite (ackOk_input a Ha). fold (keyOf a).
  destruct HL as [Hf Hc Hr Hq1 Hq2 Hq3 Hl Hres Hi Hw Hp Hh]. rewrite Hw, Hp, lookup_empty. apply C_modify. cbn [lift can succeeds]. unfold awaitPromise. apply C_modify.
  set (p := length _). set (w := {| pending := _ |}). set (s1 := set_handled p _).
  assert (Awaits a p s1) as Haw1. { split; [done|done|]. cbn. by rewrite lookup_app_r, Nat.sub_diag by done. }
  set (data := Text (controlText (ackMessage a resumed))).
  destruct (can_launch sendAnswers (sendStarts files) sendLaunches (enqueueSenderControl (HandleControl data)) (λ _ s', s' = set_controlQueue (λ q, {| queuedTasks := queuedTasks q ++ [HandleControl data]; taskRunning := taskRunning q; enqueued := S (enqueued q); finished := finished q |}) s1) s1)
    as (r1 & s2 & E2 & Ho1); [by constructor|done|].
  destruct (can_launch sendAnswers (sendStarts files) sendLaunches (runSenderTask (HandleControl data))
    (succeeds (λ _ s', Smooth items (readyAfter a resumed ready) (completedAfter a) s' ∧ promises (acks s') !! p = Some {| promiseKey := keyOf a; promiseOutcome := Some (Ok ()) |})) s2)
    as (r2 & s3 & HQ3 & Ho2).
  - subst s2. apply (on_next_task _ _ []); cbn; [done|by rewrite Hq1].
  - subst s2. unfold runSenderTask. apply C_modify, C_finally. eapply (C_handle a resumed p); [done|done|by destruct Haw1|done|]. intros s' ->.
    cbn [can modify succeeds]. assert (promises w !! p = Some {| promiseKey := keyOf a; promiseOutcome := None |}) as Hpp by apply Haw1.
    assert (Forall (λ q, (q < length (alter (settlePromise (Ok ())) p (promises w)))%nat) (p :: handledPromises s)) as Hh'.
    { rewrite length_alter. unfold w, p. cbn [promises]. rewrite length_app. cbn [length]. constructor; [lia|]. eapply Forall_impl; [exact Hh|]. cbv beta. intros q Hq. lia. }
    destruct (completedAfter a); (split; [split; cbn; try done; [by rewrite Hr|by rewrite Hq1|by rewrite Hq3|exact (delete_singleton_eq (keyOf a) p)]|]);
      exact (eq_trans (list_lookup_alter_eq (settlePromise (Ok ())) (promises w) p) (f_equal (fmap (settlePromise (Ok ()))) Hpp)).
  - destruct r2 as [[]|]; [|done]. destruct HQ3 as [HS3 Hp3]. eapply (can_await _ _ _ _ _ _ s3 (Ok ())); [by etransitivity| |by apply HQ].
    by eexists.
Qed.

(** ** A file *)

Lemma plan_file k f : plan !! k = Some f → planFileOk k f ∧ (k < 100)%nat.
Proof.
  intros Hf. destruct (buildSendPlan_ok _ _ (sd_plan Hs)) as (_ & Hlen & Hok). pose proof (lookup_lt_Some _ _ _ Hf).
  unfold MAX_FILES_PER_SESSION in Hlen. split; [by apply Hok|lia].
Qed.

Lemma chunk_sends k f n :
  plan !! k = Some f → (n < chunkCount (contentOf k))%nat →
  encodeChunk (Z.of_nat k) (Z.of_nat n) (bin (chunkSealed k n)) = Ok (frameOf {| fileId := Z.of_nat k; chunkSeq := Z.of_nat n; payload := chunkSealed k n |}).
Proof.
  intros Hf Hn. destruct (plan_file k f Hf) as [Hok Hk]. destruct (sd_sealed Hs k n) as [Hb Hl].
  apply (encodeChunk_spec {| fileId := Z.of_nat k; chunkSeq := Z.of_nat n; payload := chunkSealed k n |}); [done|]. split; [|done].
  pose proof (pf_size _ _ Hok) as Hsz. pose proof (sd_size Hs k f Hf) as Hc. unfold chunkCount in Hn. unfold MAX_FILE_BYTES, CHUNK_SIZE in *. split; cbn; try done; lia.
Qed.

Lemma chunkCount_covers (c : list Z) : (length c <= chunkCount c * Z.to_nat CHUNK_SIZE)%nat.
Proof. unfold chunkCount, byteLength, CHUNK_SIZE. lia. Qed.

Lemma C_sendChunks k f n m items (Q : Z * Z * list Z → Sender → Prop) s :
  plan !! k = Some f → (n + m = chunkCount (contentOf k))%nat → Smooth items ∅ false s →
  (∀ s', Smooth (items ++ map (chunkItem k) (seq n m)) ∅ false s' →
    Q (Z.of_nat (chunkCount (contentOf k)), byteLength (contentOf k), contentOf k) s') →
  goes (sendChunks f (drop n (sp_chunkSha256 f)) (Z.of_nat n) (byteLength (concat (chunksOf (contentOf k) n))) (concat (chunksOf (contentOf k) n))) Q s.
Proof.
  intros Hf. destruct (plan_file k f Hf) as [Hok Hk]. revert n items s. induction m as [|m IH]; intros n items s Hn HL HQ.
  - assert (concat (chunksOf (contentOf k) n) = contentOf k) as ->.
    { rewrite concat_chunksOf. apply take_ge. replace n with (chunkCount (contentOf k)) by lia. apply chunkCount_covers. }
    replace (Z.of_nat n) with (Z.of_nat (chunkCount (contentOf k))) by lia.
    cbn [seq map] in HQ. rewrite app_nil_r in HQ. destruct (drop n _); cbn [sendChunks]; apply C_bind, (C_await _ _ _ None); try done; by apply HQ.
  - assert (drop n (sp_chunkSha256 f) = digestHex (chunkOf (contentOf k) n) :: drop (S n) (sp_chunkSha256 f)) as ->.
    { apply drop_S. rewrite (sd_chunks Hs k f Hf), list_lookup_fmap. unfold chunksOf. rewrite list_lookup_fmap, lookup_seq_lt by lia. done. }
    cbn [sendChunks]. apply C_bind, (C_await _ _ _ (Some (Binary (bin (chunkOf (contentOf k) n))))); [done|].
    apply C_bind. eapply C_throwIf; [exact HL|]. cbn [toBytes lift]. apply C_bind. cbn [can succeeds]. apply C_bind. eapply C_throwIf; [exact HL|].
    assert (concat (chunksOf (contentOf k) n) ++ chunkOf (contentOf k) n = concat (chunksOf (contentOf k) (S n))) as Ec.
    { rewrite chunksOf_snoc, concat_app. cbn [concat]. by rewrite app_nil_r. }
    rewrite <-byteLength_app, Ec. rewrite (proj2 (Z.ltb_ge _ _)); [|rewrite <-(sd_size Hs k f Hf), concat_chunksOf; unfold byteLength; rewrite length_take; lia].
    rewrite bool_decide_true by done. cbn [negb]. apply C_bind, (C_await _ _ _ (chunkSealed k n)); [done|].
    apply C_bind. eapply C_throwIf; [exact HL|]. rewrite (pf_id _ _ Hok), (chunk_sends k f n) by (done || lia). cbn [lift]. apply C_bind. cbn [can succeeds].
    apply C_bind. eapply C_send; [exact HL|]. intros s1 HL1. apply C_bind, (C_await _ _ _ ()); [done|]. apply C_bind. eapply C_throwIf; [exact HL1|].
    replace (Z.of_nat n + 1) with (Z.of_nat (S n)) by lia. apply (IH _ (items ++ [chunkItem k n])); [lia|exact HL1|]. intros s2 HL2. apply HQ.
    rewrite <-app_assoc in HL2. exact HL2.
Qed.

Lemma C_sendFile k f items (Q : () → Sender → Prop) s :
  plan !! k = Some f → Smooth items ∅ false s → (∀ s', Smooth (items ++ fileItems k f) ∅ false s' → Q () s') → goes (sendFile 1 f) Q s.
Proof.
  intros Hf HL HQ. destruct (plan_file k f Hf) as [Hok Hk]. pose proof (pf_size _ _ Hok) as Hsize. unfold sendFile. rewrite (pf_id _ _ Hok).
  apply C_bind. eapply C_throwIf; [exact HL|]. apply C_bind. eapply C_sendControl; [exact HL|]. clear HL. intros s1 HL.
  apply C_bind. eapply (C_awaitAck (AckReady (Z.of_nat k)) None); [cbn; lia|done|exact HL|]. clear HL. intros s2 HL. apply C_bind. eapply C_throwIf; [exact HL|].
  cbn [verifiedReadyState]. apply C_bind, C_bind. eapply C_throwIf; [exact HL|]. apply C_get. rewrite (pf_id _ _ Hok), (sm_ready _ _ _ _ HL). cbn [readyAfter readyOf].
  rewrite lookup_insert_eq. cbn [default readyOffset]. apply C_modify. assert (Smooth (items ++ [control (FileBegin (Z.of_nat k) (sp_name f) (sp_size f))]) ∅ false (set_readyStates (delete (Z.of_nat k)) s2)) as HL3.
  { destruct HL. split; try done. cbn. rewrite sm_ready0. cbn. by rewrite delete_insert_id. }
  clear HL. revert HL3. generalize (set_readyStates (delete (Z.of_nat k)) s2). clear s2. intros s2 HL.
  assert ((sp_size f <? 0) || ((0 <? sp_size f) && negb (0 mod CHUNK_SIZE =? 0)) = false) as Eoff by (unfold CHUNK_SIZE; cbn; lia).
  cbn [from_option id readyOffset]. rewrite Eoff. change (0 =? 0) with true. cbv iota. cbn [can succeeds]. apply C_bind. unfold hashSendPrefix.
  cbn [readyOffset]. change (0 =? 0) with true. cbn [can succeeds].
  apply C_bind. eapply C_throwIf; [exact HL|]. cbv zeta. cbn [readyOffset fst].
  assert (Z.of_nat (length (sp_chunkSha256 f)) = Z.of_nat (chunkCount (contentOf k))) as Hcount.
  { rewrite (sd_chunks Hs k f Hf). unfold chunksOf. by rewrite !length_map, length_seq. }
  assert ((if 0 =? sp_size f then Z.of_nat (length (sp_chunkSha256 f)) else 0 / CHUNK_SIZE) = Z.of_nat 0) as ->.
  { destruct (Z.eqb_spec 0 (sp_size f)) as [E|]; [|done]. rewrite Hcount. unfold chunkCount. rewrite (sd_size Hs k f Hf), <-E. done. }
  rewrite Nat2Z.id. apply C_bind. eapply (C_sendChunks k f 0 (chunkCount (contentOf k))); [done|done|exact HL|]. clear HL. intros s3 HL.
  rewrite Hcount, Z.eqb_refl, (sd_size Hs k f Hf), Z.eqb_refl, bool_decide_true by (by rewrite (sd_hash Hs k f Hf)). cbn [negb].
  apply C_bind. eapply C_throwIf; [exact HL|]. apply C_bind. eapply C_sendControl; [exact HL|]. clear HL. intros s4 HL.
  eapply (C_awaitAck (AckFileOk (Z.of_nat k)) None); [cbn; lia|done|exact HL|]. clear HL. intros s5 HL. apply HQ. by rewrite <-!app_assoc in HL.
Qed.

(** ** The whole of [sendFiles] *)

Lemma C_planned l k items (Q : () → Sender → Prop) s :
  drop k plan = l → Smooth items ∅ false s → (∀ s', Smooth (items ++ concat (imap (λ i, fileItems (k + i)) l)) ∅ false s' → Q () s') →
  goes (sendPlanned 1 l) Q s.
Proof.
  revert k items s. induction l as [|f l IH]; intros k items s Hd HL HQ; cbn [sendPlanned imap concat] in *.
  - rewrite app_nil_r in HQ. by apply HQ.
  - assert (plan !! k = Some f) as Hf by (by rewrite <-(Nat.add_0_r k), <-lookup_drop, Hd). apply C_bind. eapply (C_sendFile k); [exact Hf|exact HL|].
    clear HL. intros s1 HL. eapply (IH (S k)); [by rewrite <-Nat.add_1_r, <-drop_drop, Hd|exact HL|]. intros s2 HL2. apply HQ. rewrite Nat.add_0_r.
    rewrite app_assoc. replace (imap ((λ i, fileItems (k + i)) ∘ S) l) with (imap (λ i, fileItems (S k + i)) l); [exact HL2|].
    apply imap_ext. intros i x _. unfold compose. f_equal. lia.
Qed.

Lemma C_body (Q : () → Sender → Prop) s :
  Smooth [] ∅ false s → (∀ s', Smooth transferItems ∅ true s' → Q () s') → goes (sendFilesBody 1 files) Q s.
Proof.
  intros HL HQ. unfold sendFilesBody. rewrite (sd_plan Hs). apply C_bind. cbn [lift can succeeds]. rewrite (sd_manifest Hs). apply C_bind. cbn [lift can succeeds].
  apply C_bind. eapply C_sendControl; [exact HL|]. clear HL. intros s1 HL. apply C_bind. eapply (C_planned plan 0); [done|exact HL|]. clear HL. intros s2 HL.
  apply C_bind. eapply C_throwIf; [exact HL|]. apply C_bind. eapply C_sendControl; [exact HL|]. clear HL. intros s3 HL.
  eapply (C_awaitAck AckAllDone None); [done|done|exact HL|]. clear HL. intros s4 HL. apply HQ. unfold transferItems. by rewrite <-app_assoc in HL.
Qed.

Lemma send_run : ∃ s, sendReached files {| shared := s; foreground := None; background := [] |} ∧ sendResult s = Some (Ok ()) ∧ sentItems s = transferItems.
Proof.
  destruct (can_start sendAnswers (sendStarts files) sendLaunches (sendFiles 1 files) (succeeds (λ _ s, sendResult s = Some (Ok ()) ∧ sentItems s = transferItems)) initialSender [])
    as (r & s & HQ & Hrun).
  - by constructor.
  - unfold sendFiles. apply C_modify, C_bind, can_try, can_bind, can_try. apply can_catch. eapply can_mono.
    { apply (C_body (λ _ s', Smooth transferItems ∅ true s')); [by split|done]. }
    intros [[]|e] s1 HL; [|done]. unfold finishSend. apply can_bind. cbn [can modify]. apply can_bind. cbn [can modify].
    eapply (can_await _ _ _ _ _ _ _ (Ok ())); [reflexivity|done|]. destruct HL. by split.
  - destruct r as [[]|]; [|done]. by exists s.
Qed.

(** What a channel delivers of what was sent, control messages and chunks. *)
Definition itemFrame (item : SentItem) : bool * Frame :=
  match item with
  | SentControl _ sealed => (true, Text sealed)
  | SentChunk _ _ _ frame => (false, Binary (bin frame))
  end.

(** It is what the honest transfer of ReceiverRun consists of. *)
Lemma transferItems_frames : map itemFrame transferItems = transferMessages sendingOf (map planEntry plan) (planBytes plan).
Proof.
  unfold transferItems, transferMessages. rewrite !map_app. cbn [map]. do 2 f_equal. rewrite concat_map. f_equal.
  assert (∀ l k, (∀ i f, l !! i = Some f → plan !! (k + i)%nat = Some f) →
    map (map itemFrame) (imap (λ i, fileItems (k + i)) l) = imap (λ i, fileMessages sendingOf (k + i)) (map planEntry l)) as Hl.
  { induction l as [|f l IH]; intros k Hk; [done|]. cbn [map imap]. f_equal.
    - unfold fileItems, fileMessages. rewrite Nat.add_0_r, !map_app, map_map. cbn [map planEntry fe_name fe_size]. f_equal. f_equal.
      rewrite (sd_hash Hs k f); [done|]. rewrite <-(Nat.add_0_r k). by apply Hk.
    - rewrite (imap_ext _ (λ i, fileItems (S k + i))), (imap_ext _ (λ i, fileMessages sendingOf (S k + i)));
        [apply IH|by intros i x _; unfold compose; rewrite Nat.add_succ_r..]. intros i g Hi. rewrite Nat.add_succ_comm. by apply Hk. }
  apply (Hl plan 0%nat). done.
Qed.

(** ** A restart that fails *)

(** Reading the whole file again, as resuming at its end does. *)
Lemma C_hashPrefixLoop k f n m items (Q : list Z → Sender → Prop) s :
  plan !! k = Some f → (n + m = chunkCount (contentOf k))%nat → Smooth items ∅ false s → Q (contentOf k) s →
  goes (hashPrefixLoop f (sp_size f) (drop n (sp_chunkSha256 f)) (Z.of_nat n * CHUNK_SIZE) (Z.of_nat n) (concat (chunksOf (contentOf k) n))) Q s.
Proof.
  intros Hf. pose proof (sd_size Hs k f Hf) as Hc. revert n. induction m as [|m IH]; intros n Hn HL HQ.
  - assert (concat (chunksOf (contentOf k) n) = contentOf k) as ->.
    { rewrite concat_chunksOf. apply take_ge. replace n with (chunkCount (contentOf k)) by lia. apply chunkCount_covers. }
    assert ((Z.of_nat n * CHUNK_SIZE <? sp_size f) = false) as E. { apply Z.ltb_ge. rewrite <-Hc. pose proof (chunkCount_covers (contentOf k)). unfold byteLength, CHUNK_SIZE in *. lia. }
    destruct (drop n _); cbn [hashPrefixLoop]; by rewrite E.
  - assert (drop n (sp_chunkSha256 f) = digestHex (chunkOf (contentOf k) n) :: drop (S n) (sp_chunkSha256 f)) as ->.
    { apply drop_S. rewrite (sd_chunks Hs k f Hf), list_lookup_fmap. unfold chunksOf. rewrite list_lookup_fmap, lookup_seq_lt by lia. done. }
    assert (Z.of_nat n * CHUNK_SIZE < sp_size f) as Hlt. { rewrite <-Hc. unfold chunkCount, byteLength, CHUNK_SIZE in *. lia. }
    cbn [hashPrefixLoop]. rewrite (proj2 (Z.ltb_lt _ _) Hlt). apply C_bind, (C_await _ _ _ (chunkOf (contentOf k) n)); [done|].
    assert (byteLength (chunkOf (contentOf k) n) = Z.min CHUNK_SIZE (sp_size f - Z.of_nat n * CHUNK_SIZE)) as ->.
    { unfold chunkOf, byteLength in *. rewrite length_take, length_drop. unfold CHUNK_SIZE in *. lia. }
    rewrite Z.eqb_refl, bool_decide_true by done. cbn [negb]. replace (Z.of_nat n * CHUNK_SIZE + CHUNK_SIZE) with (Z.of_nat (S n) * CHUNK_SIZE) by lia.
    replace (Z.of_nat n + 1) with (Z.of_nat (S n)) by lia.
    replace (concat (chunksOf (contentOf k) n) ++ chunkOf (contentOf k) n) with (concat (chunksOf (contentOf k) (S n)))
      by (rewrite chunksOf_snoc, concat_app; cbn [concat]; by rewrite app_nil_r).
    apply IH; [lia|done|done].
Qed.

(** A promise that was rejected and that nothing waits for. *)
Definition unhandledRejection (s : Sender) : Prop :=
  ∃ p pr e, promises (acks s) !! p = Some pr ∧ promiseOutcome pr = Some (Err e) ∧ p ∉ handledPromises s.

(** A channel closes while such a promise is open. *)
Lemma close_rejects a p s :
  Awaits a p s → p ∉ handledPromises s → listening s = true → queuedTasks (controlQueue s) = [] → taskRunning (controlQueue s) = false → senderCompleted s = false →
  ∃ s', others s s' ∧ unhandledRejection s'.
Proof.
  intros [Hf Hp Hpr] Hh Hl Hq Hrun Hc. set (message := js "Bulk channel closed before transfer completed.").
  destruct (can_launch sendAnswers (sendStarts files) sendLaunches (enqueueSenderControl (FailWith message))
    (λ _ s', s' = set_controlQueue (λ q, {| queuedTasks := queuedTasks q ++ [FailWith message]; taskRunning := taskRunning q; enqueued := S (enqueued q); finished := finished q |}) s) s)
    as (r1 & s2 & E2 & Ho1); [by apply on_sender_event; [|set_solver]|done|].
  destruct (can_launch sendAnswers (sendStarts files) sendLaunches (runSenderTask (FailWith message)) (λ _, unhandledRejection) s2) as (r2 & s3 & HQ3 & Ho2).
  - subst s2. apply (on_next_task _ _ []); cbn; [done|by rewrite Hq].
  - subst s2. cbn. rewrite Hc. cbn. exists p, {| promiseKey := keyOf a; promiseOutcome := Some (Err message) |}, message. cbn. split_and!; [|done|done].
    unfold fail. rewrite Hf, Hp, map_to_list_singleton. cbn. rewrite list_lookup_alter_eq. by rewrite Hpr.
  - exists s3. split; [by etransitivity|done].
Qed.

Abbreviation waits t Q s := (canWait sendAnswers (sendStarts files) sendLaunches t Q s).

Lemma W_bind {A B} (t : TS A) (f : A → TS B) Q s : goes t (λ a s', waits (f a) Q s') s → waits (t ≫= f) Q s.
Proof. intros Ht. apply canWait_bind. eapply can_mono; [exact Ht|]. by intros [a|e] s'. Qed.

(** The receiver says that it has the whole first file, with another hash. *)
Lemma W_sendFile f prefix items s :
  plan !! 0%nat = Some f → 0 < sp_size f → isSha256Hex prefix = true → prefix ≠ digestHex (contentOf 0) → Smooth items ∅ false s →
  waits (sendFile 1 f) unhandledRejection s.
Proof.
  intros Hf Hpos Hhex Hbad HL. destruct (plan_file 0 f Hf) as [Hok _]. pose proof (pf_size _ _ Hok) as Hsize. unfold sendFile. rewrite (pf_id _ _ Hok).
  apply W_bind. eapply C_throwIf; [exact HL|]. apply W_bind. eapply C_sendControl; [exact HL|]. clear HL. intros s1 HL.
  apply W_bind. eapply (C_awaitAck (AckReady (Z.of_nat 0)) (Some (sp_size f, prefix))); [done|by split; [lia|]|exact HL|]. clear HL. intros s2 HL.
  apply W_bind. eapply C_throwIf; [exact HL|]. cbn [verifiedReadyState]. apply canWait_here, W_bind. eapply C_throwIf; [exact HL|].
  apply W_bind, C_get. cbn [can succeeds]. rewrite (pf_id _ _ Hok), (sm_ready _ _ _ _ HL). cbn [readyAfter readyOf]. rewrite lookup_insert_eq. cbn [default from_option id readyOffset readyPrefix].
  apply W_bind. cbn [can modify succeeds fst snd]. rewrite Z.ltb_irrefl. cbn [orb andb]. rewrite (proj2 (Z.eqb_neq _ _)) by lia.
  assert (Smooth (items ++ [control (FileBegin (Z.of_nat 0) (sp_name f) (sp_size f))]) ∅ false (set_readyStates (delete (Z.of_nat 0)) s2)) as HL3.
  { destruct HL. split; try done. cbn. rewrite sm_ready0. cbn. by rewrite delete_insert_id. }
  clear HL. revert HL3. generalize (set_readyStates (delete (Z.of_nat 0)) s2). clear s2. intros s2 HL.
  apply W_bind. unfold hashSendPrefix. rewrite (proj2 (Z.eqb_neq _ _)) by lia. apply C_bind. eapply (C_hashPrefixLoop 0 f 0 (chunkCount (contentOf 0))); [done|done|exact HL|].
  cbn [can succeeds snd]. apply W_bind. eapply C_throwIf; [exact HL|]. rewrite bool_decide_false by congruence.
  apply W_bind. destruct HL as [Hf' Hc Hr Hq1 Hq2 Hq3 Hl Hres Hi Hw Hp Hh]. unfold acksWait. apply C_get. unfold wait. rewrite (ackOk_input (AckReady (Z.of_nat 0))) by done.
  fold (keyOf (AckReady (Z.of_nat 0))). rewrite Hw, Hp, lookup_empty. apply C_modify. cbn [lift can succeeds]. apply canWait_here. unfold sendSenderControl. apply canWait_here.
  set (p := length _). set (s3 := set_acks _ s2). destruct (close_rejects (AckReady (Z.of_nat 0)) p s3) as (s' & Ho & HQ); try done.
  - split; [done|done|]. cbn. by rewrite lookup_app_r, Nat.sub_diag by done.
  - intros Hin. rewrite Forall_forall in Hh. specialize (Hh p Hin). unfold p in Hh. lia.
  - by eapply canWait_await.
Qed.

Lemma unhandled_run f prefix :
  plan !! 0%nat = Some f → 0 < sp_size f → isSha256Hex prefix = true → prefix ≠ digestHex (contentOf 0) →
  ∃ c, sendReached files c ∧ unhandledRejection (shared c).
Proof.
  intros Hf Hpos Hhex Hbad.
  destruct (canWait_start sendAnswers (sendStarts files) sendLaunches (sendFiles 1 files) unhandledRejection initialSender []) as (fg & s & HQ & Hrun).
  - by constructor.
  - unfold sendFiles. apply W_bind. cbn [can modify succeeds fst snd]. apply canWait_here. unfold tfinally, ttry. apply canWait_catch, canWait_here.
    apply canWait_here, canWait_catch, canWait_here, canWait_catch. unfold sendFilesBody. rewrite (sd_plan Hs). apply W_bind. cbn [lift can succeeds].
    rewrite (sd_manifest Hs). apply W_bind. cbn [lift can succeeds].
    apply W_bind. apply (C_sendControl _ _ [] ∅ false); [by split|]. intros s1 HL. apply canWait_here.
    destruct plan as [|f' plan'] eqn:Eplan; [done|]. injection Hf as ->. cbn [sendPlanned]. apply canWait_here. rewrite <-Eplan in HL.
    eapply W_sendFile; [by rewrite Eplan|done..|exact HL].
  - by exists {| shared := s; foreground := fg; background := [] |}.
Qed.

End Run.

(** [sendFiles] can complete.  For files that make a plan and still are
    what was hashed, with channels that take what is sent and a receiver that
    acknowledges, there is a run in which it resolves, having sent exactly the
    manifest, for each file [file-begin], its chunks in order and [file-end],
    and [all-done]. *)
Theorem send_can_complete `{Crypto, JsCase, SendChannels} files plan contentOf controlText chunkSealed :
  sendable files plan contentOf chunkSealed →
  ∃ s, sendReached files {| shared := s; foreground := None; background := [] |} ∧ sendResult s = Some (Ok ()) ∧
    sentItems s = transferItems plan contentOf controlText chunkSealed.
Proof. apply send_run. Qed.

(** C11. A transfer from end to end.  In such a run of the sender, when what
    it sent reaches a receiver whose operations succeed, the receiver, too,
    resolves, and has received for every file of the plan exactly the content
    that the sender had. *)
Theorem files_arrive `{Crypto, JsCase, Platform, Reception, SendChannels} files plan contentOf controlText chunkSealed oracle :
  let entries := map planEntry plan in
  let total := planBytes plan in
  let snd := sendingOf contentOf controlText chunkSealed in
  sendable files plan contentOf chunkSealed →
  (∀ m, sendsControl snd entries total m → receiveQueueByteLength (Text (controlText m)) <= RECEIVE_QUEUE_MAX_BYTES) →
  honest snd oracle entries total → (∀ n, accepts n = true) →
  (∀ B (o : op B) s, answers B o s (oracle B o s)) →
  (∀ a, acceptedManifest = Some a → a = manifestOf entries total) →
  ∃ s, sendReached files {| shared := s; foreground := None; background := [] |} ∧ sendResult s = Some (Ok ()) ∧
    let r := deliverAll oracle (map itemFrame (sentItems s)) initial in
    reached {| shared := r; foreground := None; background := [] |} ∧ settled (status r) = Resolved ∧
    ∀ k f, plan !! k = Some f → ∃ g, getFile (Z.of_nat k) (ReceiverState.files r) = Some g ∧ rs_done g = true ∧ rs_hash g = contentOf k.
Proof.
  intros entries total snd Hs Hfits Hh Ha Hans Hacc. destruct (send_run files plan contentOf controlText chunkSealed Hs) as (s & Hr & Hres & Hitems).
  exists s. split; [exact Hr|]. split; [exact Hres|]. rewrite Hitems, (transferItems_frames files) by done. cbv zeta.
  destruct (transfer_completes snd oracle entries total) as (Hrun & Hset & Hfiles); try done.
  - split; [exact Hfits|apply (sd_sealed _ _ _ _ Hs)..].
  - apply (sd_manifest _ _ _ _ Hs).
  - intros k e He. unfold entries in He. rewrite list_lookup_fmap in He. destruct (plan !! k) as [f|] eqn:Ef; [|done]. injection He as <-.
    by apply (sd_size _ _ _ _ Hs).
  - split; [exact Hrun|]. split; [exact Hset|]. intros k f Hf. apply (Hfiles k (planEntry f)). unfold entries. by rewrite list_lookup_fmap, Hf.
Qed.

(** A rejection that nothing handles.  When the prefix that the receiver says it
    has does not match, [verifiedReadyState] makes the promise for the next
    [ready] before it sends [restart], and waits for it only afterwards: if the
    transfer fails in between, the promise is rejected while nothing waits for
    it, which Node reports as an unhandled rejection and by default exits on. *)
Theorem restart_rejection_unhandled `{Crypto, JsCase, SendChannels} files plan contentOf chunkSealed f prefix :
  sendable files plan contentOf chunkSealed → plan !! 0%nat = Some f → 0 < sp_size f →
  isSha256Hex prefix = true → prefix ≠ digestHex (contentOf 0%nat) →
  ∃ c, sendReached files c ∧ unhandledRejection (shared c).
Proof. intros. by apply (unhandled_run files plan contentOf (λ _, []) chunkSealed H2 f prefix). Qed.

(** ** A concrete transfer *)

#[local] Existing Instances asciiCase plainCrypto testPlatform testReception.
#[local] Instance testChannels : SendChannels := {| sendAccepts _ := true |}.

(** The two files of ReceiverRun, prepared. *)
Definition preparedFile (k : nat) (e : FileManifestEntry) : option SendFile :=
  Some {| fileFields := obj ([(js "id", jint (Z.of_nat k)); (js "name", JStr (fe_name e)); (js "size", jint (fe_size e))] ++ optionalField "mime" (fe_mime e) ++
            [(js "sha256", JStr (digestHex (testContents k)));
             (js "chunkSha256", arr (map (λ c, JStr (digestHex c)) (chunksOf (testContents k) (chunkCount (testContents k)))))]);
          fileHandle := Some {| handleNumber := k; hasCreateReadStream := true; hasRead := true; hasClose := true |} |}.
Definition testSendFiles : list (option SendFile) := imap preparedFile testFiles.
Definition testPlan : list SendPlanFile := match buildSendPlan testSendFiles with Ok plan => plan | Err _ => [] end.

Lemma test_plan : buildSendPlan testSendFiles = Ok testPlan ∧ map planEntry testPlan = testFiles ∧ planBytes testPlan = 7.
Proof. by vm_compute. Qed.

Definition testSealed : nat → nat → list Z := sealedChunk testSending.

Definition asHashed (k : nat) (f : SendPlanFile) : Prop :=
  byteLength (testContents k) = sp_size f ∧ sp_sha256 f = digestHex (testContents k) ∧
  sp_chunkSha256 f = map digestHex (chunksOf (testContents k) (chunkCount (testContents k))).

#[local] Instance asHashed_dec k f : Decision (asHashed k f).
Proof. unfold asHashed. apply _. Defined.

Lemma test_hashed k f : testPlan !! k = Some f → asHashed k f.
Proof.
  intros Hf. apply (bool_decide_eq_true_1 (asHashed k f)). assert (imap (λ k f, bool_decide (asHashed k f)) testPlan !! k = Some (bool_decide (asHashed k f))) as E.
  { by rewrite list_lookup_imap, Hf. }
  replace (imap _ testPlan) with [true; true] in E by (vm_compute; reflexivity).
  destruct k as [|[|k]]; [symmetry; apply (inj Some); exact E..|discriminate].
Qed.

Lemma test_sendable : sendable testSendFiles testPlan testContents testSealed.
Proof.
  split; [apply test_plan|vm_compute; reflexivity|done|..].
  - intros k n. split; [exact (sealed_bytes _ _ _ test_sending k n)|exact (sealed_fits _ _ _ test_sending k n)].
  - intros k f Hf. by apply test_hashed.
  - intros k f Hf. by apply test_hashed.
  - intros k f Hf. by apply test_hashed.
Qed.

Lemma send_can_complete_witness :
  ∃ s, sendReached testSendFiles {| shared := s; foreground := None; background := [] |} ∧ sendResult s = Some (Ok ()) ∧
    sentItems s = transferItems testPlan testContents testText testSealed.
Proof. exact (send_can_complete testSendFiles testPlan testContents testText testSealed test_sendable). Defined.

Lemma test_fits m : sendsControl (sendingOf testContents testText testSealed) (map planEntry testPlan) (planBytes testPlan) m →
  receiveQueueByteLength (Text (testText m)) <= RECEIVE_QUEUE_MAX_BYTES.
Proof. destruct test_plan as (_ & -> & ->). exact (control_fits _ _ _ test_sending m). Qed.

Lemma test_honest_plan : honest (sendingOf testContents testText testSealed) testOracle (map planEntry testPlan) (planBytes testPlan).
Proof. destruct test_plan as (_ & -> & ->). exact test_honest. Qed.

Lemma test_accepted_plan a : acceptedManifest = Some a → a = manifestOf (map planEntry testPlan) (planBytes testPlan).
Proof. destruct test_plan as (_ & -> & ->). exact (test_accepted a). Qed.

Lemma files_arrive_witness :
  ∃ s, sendReached testSendFiles {| shared := s; foreground := None; background := [] |} ∧ sendResult s = Some (Ok ()) ∧
    let r := deliverAll testOracle (map itemFrame (sentItems s)) initial in
    reached {| shared := r; foreground := None; background := [] |} ∧ settled (status r) = Resolved ∧
    ∀ k f, testPlan !! k = Some f →
      ∃ g, getFile (Z.of_nat k) (ReceiverState.files r) = Some g ∧ rs_done g = true ∧ rs_hash g = testContents k.
Proof.
  exact (files_arrive testSendFiles testPlan testContents testText testSealed testOracle test_sendable test_fits test_honest_plan
    test_accepts test_answers test_accepted_plan).
Defined.

(** The sender after the whole run. *)
Lemma test_sent : ∃ s, sendReached testSendFiles {| shared := s; foreground := None; background := [] |} ∧ sendResult s = Some (Ok ()).
Proof. destruct (send_run testSendFiles testPlan testContents testText testSealed test_sendable) as (s & ? & ? & _). by exists s. Qed.

Lemma sender_keeps_plan_witness :
  ∃ c : config, sendReached testSendFiles c ∧ sendResult (shared c) = Some (Ok ()) ∧
    ∃ ph, transcript (planned testSendFiles) (sentItems (shared c)) ph ∧ ackedFor (planned testSendFiles) ph (acks (shared c)).
Proof.
  destruct test_sent as (s & Hr & Hres). exists {| shared := s; foreground := None; background := [] |}. split; [exact Hr|]. split; [exact Hres|].
  exact (sender_keeps_plan testSendFiles _ Hr).
Defined.

Lemma send_end_witness :
  ∃ c : config, sendReached testSendFiles c ∧ listening (shared c) = false ∧ closing (shared c) = [0; 1]%nat ∧
    transcript (planned testSendFiles) (sentItems (shared c)) PhaseDone.
Proof.
  destruct test_sent as (s & Hr & Hres). exists {| shared := s; foreground := None; background := [] |}. split; [exact Hr|].
  destruct (send_end testSendFiles _ (Ok ()) Hr Hres) as (Hl & Hc & Hok). split; [exact Hl|]. split; [exact Hc|]. exact (proj1 (Hok eq_refl)).
Defined.

Example restart_rejection_happens : ∃ c, sendReached testSendFiles c ∧ unhandledRejection (shared c).
Proof.
  destruct testPlan as [|f plan'] eqn:E; [by vm_compute in E|].
  apply (unhandled_run testSendFiles testPlan testContents (λ _, []) testSealed test_sendable f (repeat 97 64)).
  - by rewrite E.
  - pose proof (test_hashed 0 f) as Hf. rewrite E in Hf. destruct (Hf eq_refl) as [<- _]. reflexivity.
  - reflexivity.
  - vm_compute. discriminate.
Qed.
