(* ===== verification/FilesRun.v ===== *)
(** * FilesRun: reserving is safe, and prepared files can be sent.

    [reserveOutputFile] keeps the contract of the receiver whatever happens;
    [buildManifest] on files that others leave alone gives their contents'
    hashes and, when every read is full, what [sendFiles] needs to send them. *)
From S2P Require Import Prelude.
From S2P Require Import Constants.
From S2P Require Import JsText.
From S2P Require Import JsValue.
From S2P Require Import Base64.
From S2P Require Import Authority.
From S2P Require Import Protocol.
From S2P Require Import Messages.
From S2P Require Import Limits.
From S2P Require Import Bytes.
From S2P Require Import Chunks.
From S2P Require Import Crypto.
From S2P Require Import Pake.
From S2P Require Import TransferControl.
From S2P Require Import FileStat.
From S2P Require Import FileSystem.
From S2P Require Import ReceiverState.
From S2P Require Import Receiver.
From S2P Require Import ReceiverRun.
From S2P Require Import Publish.
From S2P Require Import PublishProps.
From S2P Require Import PublishRun.
From S2P Require Import SendPlan.
From S2P Require Import Sender.
From S2P Require Import SenderRun.
From S2P Require Import Files.
From S2P Require Import FilesProps.
#[local] Open Scope Z_scope.
#[local] Ltac Zify.zify_post_hook ::= Z.to_euclidean_division_equations.

(** ** Reserving *)

(** C23. Whatever fails and whatever others do, [reserveOutputFile] ends.  It
    changes no name but those of the resume secret, of partials and of their
    quarantine, all of them plain segments directly in the output directory,
    opens only such files for writing, and changes no other.  What it returns is
    what the receiver relies on.  The partial has the name of a partial, with a
    token of 32 or 64 hexadecimal digits, and the final path is a safe name, both
    directly in the output directory, with opaque names or without: the name is
    the safe form of what the sender asked for, or "ff-" with 32 hexadecimal
    digits when it is to tell nothing, with a suffix if that was taken. *)
Theorem reservation_safe `{Crypto, JsCase, Platform, Process, WorkingDirectory} dir name options size env n fs :
  0 <= size → op_size options = jint size →
  ∃ segs out fs' steps, Forall plainSegment segs ∧ resolvePath dir = SLASH :: joinWith [SLASH] segs ∧
    run env n (reserveOutputFile (JStr dir) name options) fs = Some (out, fs', steps) ∧
    Forall (λ s, ownOnly (reservationName segs) s.1 s.2) steps ∧
    ∀ o, out = inl o →
      (∀ s, answers ReservedOutputFile (ReserveOutputFile name size) s (Ok o)) ∧
      placed segs name (op_opaqueName options) o.
Proof.
  intros Hs Hopt. destruct (resolvePath_shape dir) as (segs & Hseg & Hdir). exists segs.
  destruct (always_run _ _ env n fs (reserveOutputFile_always segs dir name options size Hs Hopt Hseg Hdir)) as (out & fs' & steps & Hrun & Hst & Ho).
  exists out, fs', steps. split_and!; [done..|]. intros o ->. destruct (Ho o eq_refl) as [Hok Hname]. split; [|done].
  by intros s o' [= <-].
Qed.

(** ** Prepared files *)

(** A file to send, where it is, and that others leave it alone *)
Record Source := { so_path : jsstr; so_id : FileIdentity; so_node : Inode }.
Definition atHand (sources : list Source) (fs : Fs) : Prop :=
  Forall (λ s, names fs !! so_path s = Some (so_id s) ∧ inodes fs !! so_id s = Some (so_node s)) sources.
Definition leftAlone `{Process} (sources : list Source) (fs fs' : Fs) : Prop :=
  (∀ h f, handles fs !! h = Some f → handles fs' !! h = Some f) ∧
  Forall (λ s, undisturbed (so_path s) (so_path s) (so_id s) (so_id s) fs fs') sources.

(** When reads are [full] they give as much as was asked for, up to the end of
    the file; Node does not promise that.  When all is [smooth] no call fails, and
    the times of a file are what they were. *)
Definition preparing (full smooth : bool) (modified : FileIdentity → Z * Z) (B : Type) (c : Sys B) (t : Turn) (fs : Fs) : Prop :=
  (full = true → match c with HandleRead _ _ _ => CHUNK_SIZE <= Z.of_nat (S (amount t)) | _ => True end) ∧
  (smooth = true → failure t = None ∧
     match c with
     | OpenNoFollow _ _ => handles fs !! newHandle t = None
     | HandleStatBig h => ∀ f, handles fs !! h = Some f → times t = modified (of_inode f)
     | _ => True
     end).

(** What the reads of a file can give, one after the other *)
Definition piecesOf (full : bool) (content : list Z) (pieces : list (list Z)) : Prop :=
  concat pieces = content ∧ Forall (λ p, 0 < byteLength p <= CHUNK_SIZE) pieces ∧ (full = true → pieces = chunksOf content (chunkCount content)).

(** What is prepared of a file *)
Definition prepared `{Crypto, JsCase} (full : bool) (k : nat) (s : Source) (f : PreparedFile) : Prop :=
  let content := in_content (so_node s) in
  pr_id f = Z.of_nat k ∧ pr_name f = basename (so_path s) ∧ pr_size f = byteLength content ∧
  assertFileWithinLimits (JStr (pr_name f)) (jint (pr_size f)) = Ok () ∧ pr_size f <= MAX_FILE_BYTES ∧
  pr_sha256 f = digestHex content ∧ ∃ pieces, piecesOf full content pieces ∧ pr_chunkSha256 f = map digestHex pieces.
Definition openAs (hs : gmap nat OpenFile) (s : Source) (f : PreparedFile) : Prop := ∃ o, hs !! pr_handle f = Some o ∧ of_inode o = so_id s.

(** A file that can be sent *)
Definition acceptable `{JsCase} (s : Source) : Prop :=
  let size := byteLength (in_content (so_node s)) in
  in_kind (so_node s) = RegularFile ∧ size <= MAX_FILE_BYTES ∧ assertFileWithinLimits (JStr (basename (so_path s))) (jint size) = Ok ().

Lemma chunk_start (content : list Z) k : (k < chunkCount content)%nat → (k * Z.to_nat CHUNK_SIZE < length content)%nat.
Proof. unfold chunkCount, byteLength, CHUNK_SIZE. intros Hk. lia. Qed.

Lemma chunks_cover (content : list Z) : (length content <= chunkCount content * Z.to_nat CHUNK_SIZE)%nat.
Proof. unfold chunkCount, byteLength, CHUNK_SIZE. lia. Qed.

(** The pieces after some reads *)
Definition readSoFar (full : bool) (content hash : list Z) (pieces : list (list Z)) : Prop :=
  hash = take (length hash) content ∧ concat pieces = hash ∧ Forall (λ p, 0 < byteLength p <= CHUNK_SIZE) pieces ∧
  (full = true → ∃ k, (k <= chunkCount content)%nat ∧ hash = take (k * Z.to_nat CHUNK_SIZE) content ∧ pieces = chunksOf content k).

Lemma readSoFar_end full content hash pieces : readSoFar full content hash pieces → drop (length hash) content = [] → hash = content ∧ piecesOf full content pieces.
Proof.
  intros (Hh' & Hc & Hp & Hk) Hd. assert (hash = content) as ->.
  { rewrite <-(take_drop (length hash) content), Hd, app_nil_r. exact Hh'. }
  split; [done|]. split_and!; [done..|]. intros Hfull. destruct (Hk Hfull) as (k & Hle & Ht & ->). f_equal.
  pose proof (chunk_start content k). assert (length content <= k * Z.to_nat CHUNK_SIZE)%nat; [|lia].
  apply (f_equal length) in Ht. rewrite length_take in Ht. lia.
Qed.

Lemma readSoFar_next full content hash pieces n :
  readSoFar full content hash pieces → (0 < n <= Z.to_nat CHUNK_SIZE)%nat → (full = true → n = Z.to_nat CHUNK_SIZE) →
  take n (drop (length hash) content) ≠ [] → readSoFar full content (hash ++ take n (drop (length hash) content)) (pieces ++ [take n (drop (length hash) content)]).
Proof.
  intros (Hh' & Hc & Hp & Hk) Hn Hfn Hne. set (payload := take n (drop (length hash) content)) in *.
  assert (length payload <= n)%nat as Hlen by (unfold payload; rewrite length_take; lia). assert (0 < length payload)%nat as Hpos by (destruct payload; [done|cbn; lia]).
  split_and!.
  - rewrite Hh' at 1. unfold payload at 1. rewrite take_take_drop. rewrite length_app.
    unfold payload. rewrite length_take, length_drop. destruct (decide (n <= length content - length hash)%nat); [f_equal; lia|]. rewrite !take_ge by lia. done.
  - rewrite concat_app, Hc. cbn [concat]. by rewrite app_nil_r.
  - apply Forall_app. split; [done|]. apply Forall_singleton. unfold byteLength. lia.
  - intros Hfull. destruct (Hk Hfull) as (k & Hle & Ht & Hpk). specialize (Hfn Hfull). exists (S k).
    assert (length (take (k * Z.to_nat CHUNK_SIZE) content) < length content)%nat as Hlt.
    { rewrite <-Ht. unfold payload in Hpos. rewrite length_take, length_drop in Hpos. lia. }
    rewrite length_take in Hlt. pose proof (chunks_cover content) as Hcov. assert (length hash = k * Z.to_nat CHUNK_SIZE)%nat as Hl by (rewrite Ht, length_take; lia).
    assert (payload = chunkOf content k) as Hpay by (unfold payload, chunkOf; by rewrite Hl, Hfn). split_and!.
    + remember (Z.to_nat CHUNK_SIZE) as c. nia.
    + rewrite Ht, Hpay. unfold chunkOf. rewrite take_take_drop. f_equal. lia.
    + by rewrite Hpk, Hpay, chunksOf_snoc.
Qed.

Section Prepare.
Context `{Crypto, JsCase, Platform, Process, WorkingDirectory}.
Variables (full smooth : bool) (modified : FileIdentity → Z * Z).
(** When nothing may go wrong *)
Variable strict : Prop.
Context (Hsmooth : strict → smooth = true).
#[local] Abbreviation turns := (preparing full smooth modified).
#[local] Abbreviation prepared := (prepared full).

Lemma lift_wp {A} rely (r : result A) (Q : A → Fs → Prop) fs :
  (strict → is_ok r = true) → (∀ a, r = Ok a → Q a fs) → fwp rely turns unchanged (ioLift r) Q (λ _ _, ¬ strict) fs.
Proof. intros Hok HQ. destruct r; [by apply HQ|]. intros Hst. by specialize (Hok Hst). Qed.

Lemma check_wp rely b message (Q : () → Fs → Prop) fs :
  (strict → b = true) → (b = true → Q () fs) → fwp rely turns unchanged (ioCheck b message) Q (λ _ _, ¬ strict) fs.
Proof. intros Hb HQ. apply lift_wp; destruct b; [done|by intros Hst; specialize (Hb Hst)|by intros [] _; apply HQ|done]. Qed.

Section OneFile.
Variables (path : jsstr) (id : FileIdentity) (node : Inode).
#[local] Abbreviation src := {| so_path := path; so_id := id; so_node := node |}.
#[local] Abbreviation known := (Known path path id id {[path := id]} {[id := node]}).
#[local] Abbreviation wp m Q := (fwp (undisturbed path path id id) turns unchanged m Q (λ _ _, ¬ strict)).
Context (Hacceptable : strict → acceptable src).

(** A call on what is known, which fails only when something may go wrong *)
Lemma call_wp {A} (c : Sys A) hs (Q : A → Fs → Prop) fs :
  known hs fs →
  (∀ t s, known hs s → turns A c t s →
     match perform c t s with (inl a, s') => unchanged s s' ∧ Q a s' | (inr _, s') => unchanged s s' ∧ ¬ strict end) →
  wp (call c) Q fs.
Proof using Hsmooth.
  intros HK Hc t s Hr Hp. pose proof (Known_rely _ _ _ _ _ _ _ _ _ HK Hr) as HK'. unfold turn. destruct (failure t) as [e|] eqn:Ef.
  - split; [apply guar_refl|]. cbn [fwp fst snd]. intros Hst. destruct Hp as [_ Hp]. destruct (Hp (Hsmooth Hst)) as [? _]. congruence.
  - specialize (Hc t s HK' Hp). by destruct (perform c t s) as [[a|e] s'].
Qed.

Lemma known_at hs s : known hs s → names s !! path = Some id ∧ inodes s !! id = Some node.
Proof. intros [K1 K2 K3 K4 K5]. split; [eapply lookup_weaken, K1|eapply lookup_weaken, K2]; apply lookup_singleton_eq. Qed.

Lemma lstat_wp hs (Q : Stats → Fs → Prop) fs : known hs fs → (∀ s, known hs s → Q (statOf s id node) s) → wp (call (Lstat path)) Q fs.
Proof using Hsmooth.
  intros HK HQ. apply (call_wp _ hs); [done|]. intros t s HK' _. cbn [perform]. unfold lookupPath. destruct (known_at _ _ HK') as [-> ->].
  split; [apply guar_refl|by apply HQ].
Qed.

Lemma open_wp hs (Q : nat → Fs → Prop) fs :
  known hs fs → (∀ h f s, hs !! h = None → of_inode f = id → known (<[h := f]> hs) s → Q h s) → wp (call (OpenNoFollow path false)) Q fs.
Proof using Hsmooth Hacceptable.
  intros HK HQ. apply (call_wp _ hs); [done|]. intros t s HK' [_ Hp]. cbn [perform]. unfold lookupPath. destruct (known_at _ _ HK') as [-> ->].
  case_bool_decide as Hk. { split; [apply guar_refl|]. intros Hst. destruct (Hacceptable Hst) as (Hr & _). cbn [so_node] in Hr. congruence. }
  case_bool_decide as Hh. { split; [apply guar_refl|]. intros Hst. destruct (Hp (Hsmooth Hst)) as [_ Hn]. rewrite Hn in Hh. by destruct Hh. }
  apply eq_None_not_Some in Hh. destruct HK' as [K1 K2 K3 K4 K5]. split; [apply guar_handles|].
  apply (HQ _ {| of_inode := id; of_position := 0; of_writable := false |}); [by eapply lookup_weaken_None|done|].
  split; try done. cbn [set_handles handles]. by apply insert_mono.
Qed.

Section Opened.
Variables (hs : gmap nat OpenFile) (h : nat) (f : OpenFile).
Context (Hh : hs !! h = Some f) (Hf : of_inode f = id).

(** A call on the open file *)
Lemma handle_wp {A} (c : Sys A) (Q : A → Fs → Prop) fs :
  known hs fs →
  (∀ t s, known hs s → handles s !! h = Some f → inodes s !! of_inode f = Some node → turns A c t s →
     ∃ a, perform c t s = (inl a, s) ∧ Q a s) →
  wp (call c) Q fs.
Proof using Hsmooth Hh Hf.
  intros HK Hc. apply (call_wp _ hs); [done|]. intros t s HK' Hp. destruct (known_at _ _ HK') as [_ Hi].
  destruct (Hc t s HK') as (a & -> & HQ); [eapply lookup_weaken, kn_handles, HK'; done|by rewrite Hf|done|]. split; [apply guar_refl|done].
Qed.

Lemma read_wp pos (Q : list Z → Fs → Prop) fs :
  known hs fs →
  (∀ n s, known hs s → (0 < n <= Z.to_nat CHUNK_SIZE)%nat → (full = true → n = Z.to_nat CHUNK_SIZE) → Q (take n (drop (Z.to_nat pos) (in_content node))) s) →
  wp (call (HandleRead h CHUNK_SIZE pos)) Q fs.
Proof using Hsmooth Hh Hf.
  intros HK HQ. apply handle_wp; [done|]. intros t s HK' E1 E2 [Hfull _]. cbn [perform]. unfold withHandle. rewrite E1, E2.
  eexists. split; [done|]. apply HQ; [done|unfold CHUNK_SIZE; lia|]. intros Hf'. specialize (Hfull Hf'). cbv beta iota in Hfull. lia.
Qed.

Lemma handleStat_wp (Q : Stats → Fs → Prop) fs : known hs fs → (∀ s, known hs s → Q (statOf s id node) s) → wp (call (HandleStat h)) Q fs.
Proof using Hsmooth Hh Hf.
  intros HK HQ. apply handle_wp; [done|]. intros t s HK' E1 E2 _. cbn [perform]. unfold withHandle. rewrite E1, E2, Hf.
  eexists. split; [done|]. by apply HQ.
Qed.

Lemma mutationSnapshot_wp (Q : FileMutationSnapshot → Fs → Prop) fs :
  known hs fs →
  (∀ m s, known hs s → snapshotFile (ms_snapshot m) = id → snapshotSize (ms_snapshot m) = byteLength (in_content node) →
     (strict → ms_times m = modified id) → Q m s) →
  wp (fileMutationSnapshot h) Q fs.
Proof using Hsmooth Hh Hf.
  intros HK HQ. apply fwp_bind. apply handle_wp; [done|]. intros t s HK' E1 E2 [_ Hp]. cbn [perform]. unfold withHandle. rewrite E1, E2, Hf.
  eexists. split; [done|]. apply HQ; [done|by apply identity_statOf|done|]. intros Hst. destruct (Hp (Hsmooth Hst)) as [_ Ht]. rewrite <-Hf. by apply Ht.
Qed.

Lemma hashFileStream_wp fuel hash pieces size (Q : list Z * list jsstr → Fs → Prop) fs :
  let content := in_content node in
  size = byteLength content → readSoFar full content hash pieces → (length content - length hash < fuel)%nat → known hs fs →
  (∀ pieces s, known hs s → piecesOf full content pieces → Q (content, map digestHex pieces) s) →
  wp (hashFileStream fuel h size hash (map digestHex pieces)) Q fs.
Proof using Hsmooth Hh Hf.
  intros content Hsize. revert hash pieces fs. induction fuel as [|fuel IH]; intros hash pieces fs Hread Hfuel HK HQ; cbn [hashFileStream]; [lia|].
  apply fwp_bind. apply read_wp; [exact HK|]. intros n s HK' Hn Hfn. fold content. replace (Z.to_nat (byteLength hash)) with (length hash) by (unfold byteLength; lia).
  set (payload := take n (drop (length hash) content)) in *. destruct (Z.eqb_spec (byteLength payload) 0) as [E|E]; unfold byteLength in E.
  - assert (drop (length hash) content = []) as Hd.
    { unfold payload in E. rewrite length_take, length_drop in E. apply length_zero_iff_nil. rewrite length_drop. lia. }
    destruct (readSoFar_end _ _ _ _ Hread Hd) as [-> Hp]. by apply HQ.
  - assert (payload ≠ []) as Hne by (intros Hx; rewrite Hx in E; by apply E). pose proof (readSoFar_next _ _ _ _ n Hread Hn Hfn Hne) as Hread'. fold payload in Hread'.
    assert (length (hash ++ payload) <= length content)%nat as Hle.
    { destruct Hread' as (Ht & _). rewrite Ht, length_take. lia. }
    apply fwp_bind, check_wp. { intros _. apply Z.leb_le. rewrite length_app in Hle. unfold byteLength in *. lia. } intros _.
    assert (map digestHex pieces ++ [digestHex payload] = map digestHex (pieces ++ [payload])) as -> by by rewrite map_app.
    apply IH; [exact Hread'| |exact HK'|exact HQ]. rewrite length_app in Hle |- *. assert (0 < length payload)%nat by (destruct payload; [done|cbn; lia]). lia.
Qed.

Lemma hashFileHandle_wp mutation (Q : jsstr * list jsstr → Fs → Prop) fs :
  let content := in_content node in
  snapshotFile (ms_snapshot mutation) = id → snapshotSize (ms_snapshot mutation) = byteLength content → (strict → ms_times mutation = modified id) → known hs fs →
  (∀ pieces s, known hs s → piecesOf full content pieces → Q (digestHex content, map digestHex pieces) s) →
  wp (hashFileHandle h {| snapshotFile := id; snapshotSize := byteLength content |} mutation) Q fs.
Proof using Hsmooth Hacceptable Hh Hf.
  intros content M1 M2 M3 HK HQ. unfold hashFileHandle. apply fwp_bind. cbn [snapshotSize].
  change (@nil jsstr) with (map digestHex []). apply (hashFileStream_wp _ [] []); [done| |fold content; unfold byteLength; cbn [length]; lia|exact HK|].
  { split_and!; [done..|]. intros _. exists 0%nat. split_and!; [lia|done..]. }
  intros pieces s3 HK3 Hpieces. fold content. apply fwp_bind, check_wp; [intros _; apply Z.eqb_refl|]. intros _. apply fwp_bind.
  apply handleStat_wp; [exact HK3|]. intros s4 HK4. apply fwp_bind, check_wp.
  { intros Hst. destruct (Hacceptable Hst) as (Hr & _). unfold sameFileSnapshot, isFile. cbn [statOf st_kind st_dev st_ino st_size snapshotFile snapshotSize so_node] in *.
    by rewrite Hr, !Z.eqb_refl. }
  intros _. apply fwp_bind, mutationSnapshot_wp; [exact HK4|]. intros m s5 HK5 N1 N2 N3. apply fwp_bind, check_wp.
  { intros Hst. unfold sameFileMutationSnapshot, sameIdentity. rewrite M1, N1, M2, N2, (M3 Hst), (N3 Hst), !Z.eqb_refl. by apply bool_decide_eq_true. }
  intros _. by apply HQ.
Qed.

Lemma prepareOpenFile_wp s0 k fs :
  known hs fs →
  wp (prepareOpenFile path (statOf s0 id node) h (Z.of_nat k)) (λ p s, prepared k src p ∧ pr_handle p = h ∧ known hs s) fs.
Proof using Hsmooth Hacceptable Hh Hf.
  intros HK. apply fwp_bind, handleStat_wp; [exact HK|]. intros s1 HK1.
  set (content := in_content node). assert (st_size (statOf s1 id node) = byteLength content) as Esize by done.
  apply fwp_bind, check_wp. { intros Hst. destruct (Hacceptable Hst) as (_ & Hm & _). rewrite Esize. by apply Z.leb_le. } intros Hmax%Z.leb_le.
  apply fwp_bind, check_wp.
  { intros Hst. destruct (Hacceptable Hst) as (Hr & _). cbn [so_node] in Hr. unfold isFile, sameIdentity. cbn [statOf st_kind]. by rewrite Hr, !Z.eqb_refl. }
  intros _. unfold fileSnapshot. rewrite identity_statOf, Esize in *. cbn [snapshotSize].
  apply fwp_bind, lift_wp. { intros Hst. destruct (Hacceptable Hst) as (_ & _ & Hl). cbn [so_path so_node] in Hl. fold content in Hl. by rewrite Hl. } intros [] Hlim.
  apply fwp_bind, mutationSnapshot_wp; [exact HK1|]. intros m s2 HK2 M1 M2 M3. fold content in M2. apply fwp_bind, check_wp; [by rewrite M2, Z.eqb_refl|]. intros _.
  apply fwp_bind, hashFileHandle_wp; [done..|]. intros pieces s3 HK3 Hpieces. cbn [fwp]. unfold prepared. cbn [pr_id pr_name pr_size pr_path pr_handle pr_sha256 pr_chunkSha256]. split; [|by split]. do 6 (split; [done|]). by exists pieces.
Qed.

End Opened.
End OneFile.

(** One file *)
Lemma prepareFile_wp s input k hs fs :
  resolvePath input = so_path s → names fs !! so_path s = Some (so_id s) → inodes fs !! so_id s = Some (so_node s) → hs ⊆ handles fs →
  (strict → acceptable s) →
  fwp (undisturbed (so_path s) (so_path s) (so_id s) (so_id s)) turns unchanged (prepareFile input (Z.of_nat k))
    (λ p s', prepared k s p ∧ ∃ hs', hs ⊆ hs' ∧ hs' ⊆ handles s' ∧ openAs hs' s p) (λ _ _, ¬ strict) fs.
Proof using Hsmooth.
  destruct s as [path id node]. cbn [so_path so_id so_node]. intros Hp Hn Hi Hhs Hacc. unfold prepareFile. rewrite Hp.
  assert (Known path path id id {[path := id]} {[id := node]} hs fs) as HK.
  { destruct (Known_single path path id id node fs Hn Hi) as [K1 K2 _ K4 K5]. by split. }
  assert (∀ s, strict → st_kind (statOf s id node) = RegularFile ∧ st_size (statOf s id node) <= MAX_FILE_BYTES) as Hst.
  { intros s Hst. destruct (Hacc Hst) as (Hr & Hm & _). by split. }
  apply fwp_bind. eapply lstat_wp; [exact HK|]. intros s1 HK1.
  apply fwp_bind, check_wp. { intros S. unfold isSymbolicLink. by rewrite (proj1 (Hst s1 S)). } intros _.
  apply fwp_bind, check_wp. { intros S. unfold isFile. by rewrite (proj1 (Hst s1 S)). } intros _.
  apply fwp_bind, check_wp. { intros S. by apply Z.leb_le, Hst. } intros _.
  apply fwp_bind. eapply open_wp; [done|exact HK1|]. intros h f s2 Hnew Hf HK2.
  apply fwp_catch. eapply fwp_mono; [eapply (prepareOpenFile_wp path id node Hacc (<[h := f]> hs) h f)|..]; [by rewrite lookup_insert_eq|done|exact HK2|..]; cbv beta.
  - intros p s (Hpr & Hph & HK3). split; [done|]. exists (<[h := f]> hs). split_and!; [by apply insert_subseteq|apply HK3|].
    exists f. by rewrite Hph, lookup_insert_eq.
  - intros e s Hns. apply fwp_bind. apply fwp_call; [done..|]. intros t s' _ _. split; [apply guar_handles|done].
Qed.

(** All of them *)
Lemma closePrepared_wp sources files (Q : () → Fs → Prop) E fs :
  (∀ s, Q () s) → fwp (leftAlone sources) turns unchanged (closePrepared files) Q E fs.
Proof.
  intros HQ. revert fs. induction files as [|f files IH]; intros fs; cbn [closePrepared]; [apply HQ|].
  apply fwp_bind, fwp_catch. apply fwp_call; [done|intros; apply IH|]. intros t s _ _. split; [apply guar_handles|apply IH].
Qed.

Lemma atHand_rely sources fs fs' : atHand sources fs → leftAlone sources fs fs' → atHand sources fs'.
Proof.
  intros Ha [_ Hl]. apply Forall_forall. intros s Hs. unfold atHand in Ha. rewrite Forall_forall in Ha, Hl. destruct (Ha s Hs) as [Hn Hi].
  destruct (Hl s Hs) as [U1 U2 _ _]. split; [apply U1|apply U2]; try done; by left.
Qed.

Lemma atHand_guar sources fs fs' : atHand sources fs → unchanged fs fs' → atHand sources fs'.
Proof. intros Ha [Hn Hi]. unfold atHand. by rewrite Hn, Hi. Qed.

(** The files [new] are the sources, prepared as numbers [start], [start + 1], ..., and open *)
Definition preparedAll (start : nat) (hs : gmap nat OpenFile) (sources : list Source) (new : list PreparedFile) : Prop :=
  length new = length sources ∧
  ∀ k p, new !! k = Some p → ∃ s, sources !! k = Some s ∧ prepared (start + k) s p ∧ openAs hs s p.

Lemma preparedAll_cons start hs s p sources new :
  prepared start s p → openAs hs s p → preparedAll (S start) hs sources new → preparedAll start hs (s :: sources) (p :: new).
Proof.
  intros Hp Ho [Hl Hk]. split; [cbn [length]; lia|]. intros [|k] q; cbn [lookup list_lookup].
  - intros [= <-]. exists s. by rewrite Nat.add_0_r.
  - rewrite Nat.add_succ_r. apply Hk.
Qed.

Lemma openAs_weaken hs hs' s p : hs ⊆ hs' → openAs hs s p → openAs hs' s p.
Proof. intros Hs (o & Ho & Hi). exists o. split; [by eapply lookup_weaken|done]. Qed.

Lemma prepareFiles_wp sources inputs rest files hs fs :
  Forall2 (λ input s, resolvePath input = so_path s) inputs rest → rest ⊆ sources → atHand sources fs → hs ⊆ handles fs →
  (strict → Forall acceptable sources) →
  fwp (leftAlone sources) turns unchanged (prepareFiles inputs files)
    (λ out s', ∃ new hs', out = files ++ new ∧ hs ⊆ hs' ∧ hs' ⊆ handles s' ∧ preparedAll (length files) hs' rest new) (λ _ _, ¬ strict) fs.
Proof using Hsmooth.
  intros HF Hsub Ha Hhs Hacc. revert files hs fs Hsub Ha Hhs. induction HF as [|input s inputs rest Hp HF IH]; intros files hs fs Hsub Ha Hhs; cbn [prepareFiles].
  { cbn [fwp]. exists [], hs. rewrite app_nil_r. by split_and!. }
  assert (s ∈ sources) as Hs by (apply Hsub; left). pose proof Ha as Ha'. unfold atHand in Ha'. rewrite Forall_forall in Ha'.
  destruct (Ha' s Hs) as [Hn Hi]. apply fwp_bind, fwp_try.
  eapply fwp_mono; [apply (fwp_frame _ _ _ (atHand sources))| |].
  - intros s1 s2. apply atHand_rely.
  - intros s1 s2. apply atHand_guar.
  - exact Ha.
  - eapply fwp_rely; [|apply (prepareFile_wp s input (length files) hs fs); [done..|]].
    + intros s1 s2 [_ Hl]. rewrite Forall_forall in Hl. by apply Hl.
    + intros Hst. specialize (Hacc Hst). rewrite Forall_forall in Hacc. by apply Hacc.
  - cbv beta. intros p s1 [(Hf & hs1 & H01 & H1s & Ho) Ha1]. eapply fwp_mono; [apply (IH (files ++ [p]) hs1); [|exact Ha1|exact H1s]|cbv beta|done].
    + intros x Hx. apply Hsub. by right.
    + intros out s2 (new & hs2 & -> & H12 & H2s & Hall). exists (p :: new), hs2. rewrite <-app_assoc. split_and!; [done|by trans hs1|done|].
      apply preparedAll_cons; [done|by eapply openAs_weaken|]. rewrite length_app, Nat.add_1_r in Hall. exact Hall.
  - cbv beta. intros e s1 [Hns _]. apply fwp_bind. by apply closePrepared_wp.
Qed.

End Prepare.

(** ** From prepared files to a plan *)

(** A prepared file as the object that [sendFiles] is given; Node's handles have
    [createReadStream] and [read] on their prototype and an own [close]. *)
Definition sendFileOf (f : PreparedFile) : SendFile :=
  {| fileFields := obj [(js "id", jint (pr_id f)); (js "name", JStr (pr_name f)); (js "size", jint (pr_size f)); (js "path", JStr (pr_path f));
       (js "sha256", JStr (pr_sha256 f)); (js "chunkSha256", arr (map JStr (pr_chunkSha256 f)))];
     fileHandle := Some {| handleNumber := pr_handle f; hasCreateReadStream := true; hasRead := true; hasClose := true |} |}.
Definition planOf (f : PreparedFile) : SendPlanFile :=
  {| sp_id := pr_id f; sp_name := pr_name f; sp_size := pr_size f; sp_mime := None; sp_handle := pr_handle f; sp_sha256 := pr_sha256 f;
     sp_chunkSha256 := pr_chunkSha256 f |}.

Section Plan.
Context `{Crypto, JsCase}.

Lemma chunkHashes_arr hashes before :
  Forall (λ h, isSha256Hex h = true) hashes →
  chunkHashes (length hashes) (arr (map JStr (before ++ hashes))) (Z.of_nat (length before)) = Ok hashes.
Proof.
  intros HF. revert before. induction HF as [|h hashes Hh HF IH]; intros before; cbn [chunkHashes length]; [done|].
  rewrite ownArrayDataValue_literal, Nat2Z.id, list_lookup_fmap, list_lookup_middle by lia. cbn [fmap option_fmap option_map default id].
  unfold id. rewrite Hh. change (check true _) with (Ok ()). cbn [mbind result_bind]. specialize (IH (before ++ [h])). rewrite <-app_assoc, length_app in IH. cbn [app length] in IH.
  replace (Z.of_nat (length before) + 1) with (Z.of_nat (length before + 1)) by lia. by rewrite IH.
Qed.

Lemma digests_sha256 l : Forall (λ h, isSha256Hex h = true) (map digestHex l).
Proof. apply Forall_map, Forall_true. intros x. apply digestHex_sha256. Qed.

Lemma sendFileOf_fields f :
  let value := fileFields (sendFileOf f) in
  isObjectLike value = true ∧ ownDataValue value (js "id") = jint (pr_id f) ∧ ownDataValue value (js "name") = JStr (pr_name f) ∧
  ownDataValue value (js "size") = jint (pr_size f) ∧ ownDataValue value (js "mime") = JUndefined ∧ ownDataValue value (js "sha256") = JStr (pr_sha256 f) ∧
  ownDataValue value (js "chunkSha256") = arr (map JStr (pr_chunkSha256 f)).
Proof. by destruct f. Qed.

(** The plan takes a prepared file as it is. *)
(** With full reads the hashes are those of the chunks. *)
Lemma prepared_chunks k s f : prepared true k s f → pr_chunkSha256 f = map digestHex (chunksOf (in_content (so_node s)) (chunkCount (in_content (so_node s)))).
Proof. intros (_ & _ & _ & _ & _ & _ & pieces & (_ & _ & Hp) & ->). by rewrite Hp. Qed.

Lemma sendPlanFileInput_prepared k s f : prepared true k s f → sendPlanFileInput (sendFileOf f) (Z.of_nat k) = Ok (planOf f).
Proof.
  intros Hprep. pose proof (prepared_chunks k s f Hprep) as Hchunks. destruct Hprep as (Hid & _ & Hsize & Hlim & Hmax & Hsha & _). destruct (sendFileOf_fields f) as (E1 & E2 & E3 & E4 & E5 & E6 & E7).
  unfold sendPlanFileInput. cbv zeta. rewrite E1, E2, E3, E4, E5, E6, E7. cbn [readOptional]. apply check_bind_ok. split; [done|].
  assert (0 <= pr_size f) as Hpos by (rewrite Hsize; unfold byteLength; lia).
  apply check_bind_ok. split. { rewrite Hid, Z.eqb_refl. apply isIntegerIn_spec. by exists (pr_size f). }
  rewrite Hlim. cbn [mbind result_bind fileHandle sendFileOf hasCreateReadStream hasRead]. apply check_bind_ok. split; [done|].
  apply check_bind_ok. split. { rewrite Hsha. apply digestHex_sha256. }
  assert (sendChunkHashesInput (arr (map JStr (pr_chunkSha256 f))) (pr_size f) = Ok (pr_chunkSha256 f)) as ->; [|done].
  unfold sendChunkHashesInput, arr. rewrite !length_map. fold (arr (map JStr (pr_chunkSha256 f))). apply check_bind_ok. split.
  - rewrite Hchunks. unfold chunksOf. rewrite !length_map, length_seq, Hsize. rewrite Hsize in Hmax. apply andb_true_iff. rewrite Z.eqb_eq, Z.leb_le.
    revert Hmax. unfold chunkCount, MAX_CHUNK_HASHES_PER_FILE, MAX_FILE_BYTES, CHUNK_SIZE.
    destruct (Z.eqb_spec (byteLength (in_content (so_node s))) 0) as [->|]; intros; split; lia.
  - apply (chunkHashes_arr _ []). rewrite Hchunks. apply digests_sha256.
Qed.

Lemma sendPlanFiles_prepared files k (sources : list Source) :
  (∀ i f, files !! i = Some f → ∃ s, sources !! i = Some s ∧ prepared true (k + i) s f) →
  sendPlanFiles (map (Some ∘ sendFileOf) files) (Z.of_nat k) = Ok (map planOf files).
Proof.
  revert k sources. induction files as [|f files IH]; intros k sources Hf; cbn [map sendPlanFiles compose]; [done|].
  destruct (Hf 0%nat f eq_refl) as (s & Hs & Hp). rewrite Nat.add_0_r in Hp. rewrite (sendPlanFileInput_prepared k s f Hp). cbn [mbind result_bind].
  replace (Z.of_nat k + 1) with (Z.of_nat (S k)) by lia. rewrite (IH (S k) (tail sources)); [done|].
  intros i g Hg. destruct (Hf (S i) g Hg) as (s' & Hs' & Hp'). exists s'. rewrite Nat.add_succ_r in Hp'. split; [|done]. by destruct sources.
Qed.

Lemma prepared_manifest files : manifestOf (map planEntry (map planOf files)) (planBytes (map planOf files)) = preparedManifest files.
Proof.
  unfold manifestOf, preparedManifest, planBytes, preparedBytes. rewrite map_map, length_map. f_equal.
  generalize 0. induction files as [|f files IH]; intros z; cbn [foldl map]; [done|]. apply IH.
Qed.

End Plan.
(** ** Preparing, then sending *)

Section Sendable.
Context `{Crypto, JsCase, Platform, Process, WorkingDirectory}.

Definition sourceEntry (k : nat) (s : Source) : FileManifestEntry :=
  {| fe_id := Some (Z.of_nat k); fe_name := basename (so_path s); fe_size := byteLength (in_content (so_node s)); fe_mime := None |}.
Definition sourceBytes (sources : list Source) : Z := foldl (λ sum s, sum + byteLength (in_content (so_node s))) 0 sources.
Definition sourcesManifest (sources : list Source) : FileManifest := manifestOf (imap sourceEntry sources) (sourceBytes sources).
Definition sourceContent (sources : list Source) (k : nat) : list Z := match sources !! k with Some s => in_content (so_node s) | None => [] end.

Lemma preparedAll_tail full start hs s sources p new :
  preparedAll full start hs (s :: sources) (p :: new) → prepared full start s p ∧ preparedAll full (S start) hs sources new.
Proof.
  intros [Hl Hk]. split.
  - destruct (Hk 0%nat p eq_refl) as (s' & [= <-] & Hp & _). by rewrite Nat.add_0_r in Hp.
  - split; [by injection Hl|]. intros k q Hq. destruct (Hk (S k) q Hq) as (s' & Hs & Hp & Ho). exists s'. by rewrite Nat.add_succ_r in Hp.
Qed.

Lemma preparedAll_entries full start hs sources new z :
  preparedAll full start hs sources new →
  map preparedEntry new = imap (λ k, sourceEntry (start + k)) sources ∧
  foldl (λ sum f, sum + pr_size f) z new = foldl (λ sum s, sum + byteLength (in_content (so_node s))) z sources.
Proof.
  revert start sources z. induction new as [|p new IH]; intros start [|s sources] z Hall; try (destruct Hall as [Hl _]; discriminate Hl); [done|].
  apply preparedAll_tail in Hall as [Hp Hall]. destruct Hp as (Hid & Hname & Hsize & _). destruct (IH _ _ (z + pr_size p) Hall) as [He Hs]. split.
  - cbn [map imap]. rewrite Nat.add_0_r. f_equal.
    + unfold preparedEntry, sourceEntry. by rewrite Hid, Hname, Hsize.
    + rewrite He. apply imap_ext. intros k x _. cbn [compose]. f_equal. lia.
  - cbn [foldl]. by rewrite Hs, Hsize.
Qed.

Lemma preparedAll_manifest full hs sources new : preparedAll full 0 hs sources new → preparedManifest new = sourcesManifest sources.
Proof.
  intros Hall. destruct (preparedAll_entries full 0 hs sources new 0 Hall) as [He Hs]. unfold preparedManifest, sourcesManifest, manifestOf, preparedBytes, sourceBytes.
  rewrite Hs, <-(length_map preparedEntry), He. done.
Qed.

Lemma sendPathInputs_length n paths index inputs : sendPathInputs n paths index = Ok inputs → length inputs = n.
Proof.
  revert index inputs. induction n as [|n IH]; intros index inputs; cbn [sendPathInputs]; [by intros [= <-]|].
  destruct (ownArrayDataValue paths index); try done. intros (i & _ & (rest & Hr & Ho)%result_bind_ok)%result_bind_ok. apply (inj Ok) in Ho as <-.
  cbn [length]. f_equal. by eapply IH.
Qed.

Lemma validateSendPathInputs_length paths inputs : validateSendPathInputs paths = Ok inputs → 1 <= Z.of_nat (length inputs) <= MAX_FILES_PER_SESSION.
Proof.
  destruct paths as [| | | | | |items|]; try done. cbn [validateSendPathInputs]. rewrite !check_bind_ok, negb_true_iff, Z.eqb_neq, Z.leb_le.
  intros (Hne & Hle & Hin). rewrite (sendPathInputs_length _ _ _ _ Hin). lia.
Qed.

Lemma preparedAll_plan hs sources new :
  preparedAll true 0 hs sources new → 1 <= Z.of_nat (length sources) <= MAX_FILES_PER_SESSION →
  buildSendPlan (map (Some ∘ sendFileOf) new) = Ok (map planOf new).
Proof.
  intros [Hl Hk] Hn. unfold buildSendPlan. apply check_bind_ok. rewrite length_map, Hl. split.
  - apply andb_true_iff. rewrite !Z.leb_le. exact Hn.
  - apply (sendPlanFiles_prepared new 0 sources). intros i f Hf. destruct (Hk i f Hf) as (s & Hs & Hp & _). by exists s.
Qed.

(** What [sendFiles] needs, of the contents of the sources *)
Lemma preparedAll_sendable `{SendChannels} hs sources new chunkSealed :
  preparedAll true 0 hs sources new → 1 <= Z.of_nat (length sources) <= MAX_FILES_PER_SESSION →
  assertTransferManifestWithinLimits (manifestValue (preparedManifest new)) = Ok () →
  (∀ n, sendAccepts n = true) → (∀ k n, bytes (chunkSealed k n) ∧ byteLength (chunkSealed k n) <= SEALED_CHUNK_SIZE) →
  sendable (map (Some ∘ sendFileOf) new) (map planOf new) (sourceContent sources) chunkSealed.
Proof.
  intros Hall Hn Hm Hacc Hsealed. assert (∀ k f, map planOf new !! k = Some f → ∃ s, sourceContent sources k = in_content (so_node s) ∧
    sp_size f = byteLength (in_content (so_node s)) ∧ sp_sha256 f = digestHex (in_content (so_node s)) ∧
    sp_chunkSha256 f = map digestHex (chunksOf (in_content (so_node s)) (chunkCount (in_content (so_node s))))) as Hplan.
  { intros k f Hf. rewrite list_lookup_fmap in Hf. destruct (new !! k) as [p|] eqn:Ep; [|done]. injection Hf as <-.
    destruct Hall as [_ Hk]. destruct (Hk k p Ep) as (s & Hs & Hp & _). pose proof (prepared_chunks _ _ _ Hp) as H3'. destruct Hp as (_ & _ & H1' & _ & _ & H2' & _). exists s. unfold sourceContent. by rewrite Hs. }
  split; [by eapply preparedAll_plan|by rewrite prepared_manifest|done|exact Hsealed|..]; intros k f Hf; destruct (Hplan k f Hf) as (s & -> & ? & ? & ?); done.
Qed.

Lemma buildManifest_wp full smooth modified paths inputs sources fs :
  validateSendPathInputs paths = Ok inputs → Forall2 (λ input s, resolvePath input = so_path s) inputs sources → atHand sources fs →
  fwp (leftAlone sources) (preparing full smooth modified) unchanged (buildManifest paths)
    (λ out s', preparedAll full 0 (handles s') sources out.1 ∧ out.2 = preparedManifest out.1 ∧ assertTransferManifestWithinLimits (manifestValue out.2) = Ok ())
    (λ _ _, ¬ (smooth = true ∧ Forall acceptable sources ∧ assertTransferManifestWithinLimits (manifestValue (sourcesManifest sources)) = Ok ())) fs.
Proof.
  intros Hin HF Ha. set (strict := smooth = true ∧ Forall acceptable sources ∧ _). unfold buildManifest. rewrite Hin. apply fwp_bind. cbn [ioLift fwp].
  apply fwp_bind. eapply fwp_mono; [apply (prepareFiles_wp full smooth modified strict (λ S, proj1 S) sources inputs sources [] ∅ fs)|..]; [done..|apply map_empty_subseteq|by intros (_ & ? & _)|cbv beta|done].
  intros out s' (new & hs & -> & _ & Hs & Hall). cbn [app length] in *. assert (preparedAll full 0 (handles s') sources new) as Hall'.
  { destruct Hall as [Hl Hk]. split; [done|]. intros k p Hp. destruct (Hk k p Hp) as (s & ? & ? & ?). exists s. split_and!; [done..|]. by eapply openAs_weaken. }
  apply fwp_bind, (lift_wp full smooth modified).
  - intros (_ & _ & Hm). by rewrite (preparedAll_manifest _ _ _ _ Hall), Hm.
  - intros [] Hm. by split_and!.
Qed.

End Sendable.

(** C24. [buildManifest] on valid paths of files that others leave alone ends
    and changes no name and no file, whatever the reads give.  If it returns, the
    manifest lists those files by base name and size; each is open, with the hash
    of its content, and with the hashes of the pieces of it that the reads gave,
    none empty and none longer than a chunk.  When every read is full, which Node
    does not promise, these pieces are the chunks that [sendFiles] reads, and the
    files can be given to it: over channels that take everything they are
    [sendable] with the contents they have, so [send_can_complete] and
    [files_arrive] apply.  If it throws, a call failed or a file's times changed,
    or a file or the manifest exceeds a limit. *)
Theorem manifest_sendable `{Crypto, JsCase, Platform, Process, WorkingDirectory} full smooth modified paths inputs sources env n fs :
  validateSendPathInputs paths = Ok inputs → Forall2 (λ input s, resolvePath input = so_path s) inputs sources → atHand sources fs →
  permitted (leftAlone sources) (preparing full smooth modified) env n (buildManifest paths) fs →
  ∃ out fs' steps, run env n (buildManifest paths) fs = Some (out, fs', steps) ∧ Forall (λ s, unchanged s.1 s.2) steps ∧
    match out with
    | inl (files, manifest) =>
      let plan := map planOf files in
      manifest = sourcesManifest sources ∧ manifest = manifestOf (map planEntry plan) (planBytes plan) ∧
      (∀ k f, plan !! k = Some f → ∃ s o pieces, sources !! k = Some s ∧ handles fs' !! sp_handle f = Some o ∧ of_inode o = so_id s ∧
        sp_sha256 f = digestHex (in_content (so_node s)) ∧ sp_chunkSha256 f = map digestHex pieces ∧ piecesOf full (in_content (so_node s)) pieces) ∧
      (full = true → ∀ (channels : SendChannels) chunkSealed,
        (∀ n, sendAccepts n = true) → (∀ k n, bytes (chunkSealed k n) ∧ byteLength (chunkSealed k n) <= SEALED_CHUNK_SIZE) →
        sendable (map (Some ∘ sendFileOf) files) plan (sourceContent sources) chunkSealed)
    | inr _ =>
      ¬ (smooth = true ∧ Forall acceptable sources ∧ assertTransferManifestWithinLimits (manifestValue (sourcesManifest sources)) = Ok ())
    end.
Proof.
  intros Hin HF Ha Hp. destruct (fwp_run _ _ _ _ _ _ _ _ _ (buildManifest_wp full smooth modified paths inputs sources fs Hin HF Ha) Hp) as (out & fs' & steps & Hrun & Hst & Ho).
  exists out, fs', steps. split_and!; [done..|]. destruct out as [[files manifest]|e]; [|exact Ho]. cbn [fst snd] in Ho. destruct Ho as (Hall & -> & Hm).
  pose proof (validateSendPathInputs_length _ _ Hin) as Hn. rewrite (Forall2_length _ _ _ HF) in Hn. split_and!.
  - by eapply preparedAll_manifest.
  - by rewrite prepared_manifest.
  - intros k f Hf. rewrite list_lookup_fmap in Hf. destruct (files !! k) as [p|] eqn:Ep; [|done]. injection Hf as <-.
    destruct Hall as [_ Hk]. destruct (Hk k p Ep) as (s & Hs & (_ & _ & _ & _ & _ & Hsha & pieces & Hpieces & Hch) & o & Ho & Hi). by exists s, o, pieces.
  - intros -> channels chunkSealed Hacc Hsealed. by eapply preparedAll_sendable.
Qed.

(** ** A concrete run *)

Module Preparing.
#[local] Existing Instances plainCrypto asciiCase.
#[export] Instance platform : Platform := {| win32 := false; getuid := Some 1000 |}.
#[export] Instance process : Process := {| pid := 7 |}.
#[export] Instance directory : WorkingDirectory := {| cwd := js "/w" |}.
(** A file of two chunks by a relative path, and an empty one by an absolute path *)
Definition long : Source := {| so_path := js "/w/a.bin"; so_id := {| dev := 1; ino := 10 |}; so_node := newFile 1000 (repeat 7 (Z.to_nat (CHUNK_SIZE + 1))) |}.
Definition empty : Source := {| so_path := js "/b"; so_id := {| dev := 1; ino := 11 |}; so_node := newFile 1000 [] |}.
Definition sources : list Source := [long; empty].
Definition paths : jsval := arr [jstr "./a.bin"; jstr "/b"].
Definition inputs : list jsstr := [js "./a.bin"; js "/b"].
Definition d : FileIdentity := {| dev := 1; ino := 2 |}.
Definition dirNode : Inode := {| in_kind := Directory; in_content := []; in_target := []; in_mode := 0x1c0; in_uid := 1000 |}.
Definition fs : Fs :=
  {| names := {[so_path long := so_id long; so_path empty := so_id empty; js "/out" := d]};
     inodes := {[so_id long := so_node long; so_id empty := so_node empty; d := dirNode]}; handles := ∅ |}.
Definition env (n : nat) : Turn :=
  {| interfere := id; failure := None; amount := Z.to_nat CHUNK_SIZE; newHandle := n; newInode := {| dev := 1; ino := 20 + Z.of_nat n |};
     owner := 1000; random := [Z.of_nat n]; times := (0, 0) |}.
Definition isPreparing (B : Type) (c : Sys B) (t : Turn) (fs : Fs) : bool :=
  bool_decide (failure t = None) &&
  match c with
  | HandleRead _ _ _ => CHUNK_SIZE <=? Z.of_nat (S (amount t))
  | OpenNoFollow _ _ => bool_decide (handles fs !! newHandle t = None)
  | HandleStatBig _ => bool_decide (times t = (0, 0))
  | _ => true
  end.
Lemma isPreparing_spec B c t fs : isPreparing B c t fs = true → preparing true true (λ _, (0, 0)) B c t fs.
Proof.
  unfold isPreparing. intros [Hf%bool_decide_eq_true Hc]%andb_prop. split; [intros _|intros _; split; [exact Hf|]]; destruct c; try done.
  - by apply Z.leb_le in Hc.
  - by apply bool_decide_eq_true in Hc.
  - intros f _. by apply bool_decide_eq_true in Hc.
Qed.
End Preparing.

Section Witnesses.
Import Preparing.
#[local] Existing Instances plainCrypto asciiCase.

Lemma manifest_sendable_witness : ∃ files manifest fs' steps,
  run env 0 (buildManifest paths) fs = Some (inl (files, manifest), fs', steps) ∧ manifest = sourcesManifest sources ∧
  let channels := {| sendAccepts _ := true |} in
  sendable (map (Some ∘ sendFileOf) files) (map planOf files) (sourceContent sources) (λ _ _, []).
Proof.
  destruct (manifest_sendable true true (λ _, (0, 0)) paths inputs sources env 0 fs) as (out & fs' & steps & Hrun & _ & Ho).
  - by vm_compute.
  - repeat constructor.
  - repeat constructor; by vm_compute.
  - apply (allowed_permitted _ _ isPreparing); [..|by vm_compute].
    + intros s. split; [done|]. apply Forall_true. intros x. apply undisturbed_refl.
    + done.
    + apply isPreparing_spec.
  - destruct out as [[files manifest]|e].
    + destruct Ho as (Hm & _ & _ & Hs). exists files, manifest, fs', steps. split_and!; [exact Hrun|exact Hm|]. intros channels. apply Hs; [done|done|]. intros k n. split; [constructor|by vm_compute].
    + destruct Ho. split_and!; [done|repeat constructor; by vm_compute|by vm_compute].
Defined.

(** A name with a path in it *)
Definition reserving : ReserveOptions := {| op_resume := true; op_size := jint 5; op_opaqueName := false; op_privateOutputDir := false |}.

Lemma reservation_safe_witness : ∃ segs out fs' steps,
  run env 0 (reserveOutputFile (jstr "/out") (js "../a/evil.txt") reserving) fs = Some (out, fs', steps) ∧
  Forall (λ s, ownOnly (reservationName segs) s.1 s.2) steps ∧
  ∀ o, out = inl o → placed segs (js "../a/evil.txt") false o.
Proof.
  destruct (reservation_safe (js "/out") (js "../a/evil.txt") reserving 5 env 0 fs) as (segs & out & fs' & steps & _ & _ & Hrun & Hs & Ho); [done..|].
  exists segs, out, fs', steps. split_and!; [exact Hrun|exact Hs|]. intros o Ho'. by apply Ho.
Defined.

Lemma reservation_example : match run env 0 (reserveOutputFile (jstr "/out") (js "../a/evil.txt") reserving) fs with
  | Some (inl o, _, _) => ro_finalPath o = js "/out/evil.txt" ∧ ro_resumeBytes o = 0
  | _ => False
  end.
Proof. by vm_compute. Qed.

End Witnesses.

(** A file of two bytes that the stream gives one by one: the manifest is made,
    and [sendFiles] refuses it. *)
Module ShortReads.
Definition pair : Source := {| so_path := js "/c"; so_id := {| dev := 1; ino := 12 |}; so_node := newFile 1000 [7; 7] |}.
Definition fs : Fs := {| names := {[so_path pair := so_id pair]}; inodes := {[so_id pair := so_node pair]}; handles := ∅ |}.
Definition env (n : nat) : Turn :=
  {| interfere := id; failure := None; amount := 0; newHandle := n; newInode := {| dev := 1; ino := 20 + Z.of_nat n |};
     owner := 1000; random := [Z.of_nat n]; times := (0, 0) |}.
End ShortReads.

Section ShortReads.
#[local] Existing Instances plainCrypto asciiCase Preparing.platform Preparing.process Preparing.directory.

Lemma short_reads_refused :
  match run ShortReads.env 0 (buildManifest (arr [jstr "/c"])) ShortReads.fs with
  | Some (inl (files, _), _, _) => is_ok (buildSendPlan (map (Some ∘ sendFileOf) files)) = false
  | _ => False
  end.
Proof. by vm_compute. Qed.

End ShortReads.
