(* ===== verification/Policy.v ===== *)
(** * Policy: which relayed message a signalling session allows
    ([src/server/policy.ts]).

    A session remembers, in flags, which phases of the pairing protocol it has
    seen.  The main theorem is a refinement: the flag machine accepts exactly
    the message sequences that an abstract specification, stated on the
    history alone, accepts. *)
From S2P Require Import Prelude.
From S2P Require Import Constants.
From S2P Require Import Protocol.
#[local] Open Scope Z_scope.

(** [RelayPolicySession]; a peer is known to the policy by its id. *)
Record RelayPolicySession := {
  rp_sid : jsstr;
  rp_sender : jsstr;
  rp_receiver : jsstr;
  senderPakeSeen : bool;
  receiverPakeSeen : bool;
  senderConfirmed : bool;
  receiverConfirmed : bool;
  pairRequested : bool;
  pairDecided : bool;
  offerSeen : bool;
  answerSeen : bool;
  senderCandidateCount : Z;
  receiverCandidateCount : Z
}.

(** The session as [connect] creates it. *)
Definition newRelaySession (sid senderId receiverId : jsstr) : RelayPolicySession := {|
  rp_sid := sid; rp_sender := senderId; rp_receiver := receiverId;
  senderPakeSeen := false; receiverPakeSeen := false;
  senderConfirmed := false; receiverConfirmed := false;
  pairRequested := false; pairDecided := false;
  offerSeen := false; answerSeen := false;
  senderCandidateCount := 0; receiverCandidateCount := 0 |}.

(** The part of a message the policy reads: its type and signal kind. *)
Inductive RelayType :=
| TPake | TConfirm | TPairRequest | TPairAccept | TPairReject
| TSignal (kind : SignalKind)
| TOther.
#[export] Instance RelayType_eq_dec : EqDecision RelayType.
Proof. solve_decision. Defined.

(** [messageType] and [signalKind] *)
Definition messageType (m : ClientMessage) : RelayType :=
  match m with
  | CPake _ _ => TPake
  | CConfirm _ _ => TConfirm
  | CPairRequest _ _ _ => TPairRequest
  | CPairAccept _ _ => TPairAccept
  | CPairReject _ _ _ => TPairReject
  | CSignal _ kind _ => TSignal kind
  | CRegister _ _ | CConnect _ _ | CBye _ _ => TOther
  end.

(** [sessionPeerId]: the empty id is falsy and belongs to no side. *)
Definition sessionPeerId (s : RelayPolicySession) (peerId : jsstr) : option Role :=
  match peerId with
  | [] => None
  | _ => if decide (rp_sender s = peerId) then Some sender
         else if decide (rp_receiver s = peerId) then Some receiver
         else None
  end.

(** [otherSessionPeerId], on the ids that exist *)
Definition otherSessionPeerId (p : Role) : Role :=
  match p with sender => receiver | receiver => sender end.

(** The switch of [relayAllowedForRole]. *)
Definition roleAllows (p : Role) (t : RelayType) : bool :=
  let isSender := bool_decide (p = sender) in
  match t with
  | TPairRequest => isSender
  | TPairAccept | TPairReject => negb isSender
  | TSignal offer => isSender
  | TSignal answer => negb isSender
  | TSignal candidate => true
  | TPake | TConfirm => true
  | TOther => false
  end.

(** [relayAllowedForRole] *)
Definition relayAllowedForRole (s : RelayPolicySession) (peer : jsstr) (m : ClientMessage) : bool :=
  match sessionPeerId s peer with
  | None => false
  | Some p => roleAllows p (messageType m)
  end.

(** [candidateCountForPeer]: an unusable count reads as the maximum. *)
Definition candidateCountForPeer (s : RelayPolicySession) (p : Role) : Z :=
  let count := match p with sender => senderCandidateCount s | receiver => receiverCandidateCount s end in
  if isSafeNonNegativeInteger count then count else SIGNALING_MAX_ICE_CANDIDATES_PER_PEER.

(** The switch of [relayAllowedForPhase]. *)
Definition phaseAllows (s : RelayPolicySession) (p : Role) (t : RelayType) : bool :=
  match t with
  | TPake =>
    negb (pairRequested s) && negb (pairDecided s) &&
    (match p with sender => negb (senderPakeSeen s) | receiver => negb (receiverPakeSeen s) end)
  | TConfirm =>
    senderPakeSeen s && receiverPakeSeen s && negb (pairRequested s) && negb (pairDecided s) &&
    (match p with sender => negb (senderConfirmed s) | receiver => negb (receiverConfirmed s) end)
  | TPairRequest =>
    senderConfirmed s && receiverConfirmed s && negb (pairRequested s) && negb (pairDecided s)
  | TPairAccept | TPairReject => pairRequested s && negb (pairDecided s)
  | TSignal k =>
    if negb (pairDecided s) then false
    else match k with
         | offer => negb (offerSeen s)
         | answer => offerSeen s && negb (answerSeen s)
         | candidate =>
           offerSeen s && (candidateCountForPeer s p <? SIGNALING_MAX_ICE_CANDIDATES_PER_PEER)
         end
  | TOther => false
  end.

(** [relayAllowedForPhase] *)
Definition relayAllowedForPhase (s : RelayPolicySession) (peer : jsstr) (m : ClientMessage) : bool :=
  match sessionPeerId s peer with
  | None => false
  | Some p => phaseAllows s p (messageType m)
  end.

(** [setCandidateCount]: writes only a count in range. *)
Definition setCandidateCount (s : RelayPolicySession) (p : Role) (count : Z) : RelayPolicySession :=
  if negb (isSafeInteger count) || (count <? 0) || (SIGNALING_MAX_ICE_CANDIDATES_PER_PEER <? count) then s
  else
    {| rp_sid := rp_sid s; rp_sender := rp_sender s; rp_receiver := rp_receiver s;
       senderPakeSeen := senderPakeSeen s; receiverPakeSeen := receiverPakeSeen s;
       senderConfirmed := senderConfirmed s; receiverConfirmed := receiverConfirmed s;
       pairRequested := pairRequested s; pairDecided := pairDecided s;
       offerSeen := offerSeen s; answerSeen := answerSeen s;
       senderCandidateCount := match p with sender => count | receiver => senderCandidateCount s end;
       receiverCandidateCount := match p with sender => receiverCandidateCount s | receiver => count end |}.

(** The flag writes of [applyRelayPhase] for one side and message type. *)
Definition applyPhase (s : RelayPolicySession) (p : Role) (t : RelayType) : RelayPolicySession :=
  let isSender := bool_decide (p = sender) in
  let s' :=
    {| rp_sid := rp_sid s; rp_sender := rp_sender s; rp_receiver := rp_receiver s;
       senderPakeSeen := senderPakeSeen s || (bool_decide (t = TPake) && isSender);
       receiverPakeSeen := receiverPakeSeen s || (bool_decide (t = TPake) && negb isSender);
       senderConfirmed := senderConfirmed s || (bool_decide (t = TConfirm) && isSender);
       receiverConfirmed := receiverConfirmed s || (bool_decide (t = TConfirm) && negb isSender);
       pairRequested := pairRequested s || bool_decide (t = TPairRequest);
       pairDecided := pairDecided s || bool_decide (t = TPairAccept);
       offerSeen := offerSeen s || bool_decide (t = TSignal offer);
       answerSeen := answerSeen s || bool_decide (t = TSignal answer);
       senderCandidateCount := senderCandidateCount s;
       receiverCandidateCount := receiverCandidateCount s |} in
  if decide (t = TSignal candidate) then setCandidateCount s' p (candidateCountForPeer s' p + 1) else s'.

(** [applyRelayPhase] *)
Definition applyRelayPhase (s : RelayPolicySession) (peer : jsstr) (m : ClientMessage) : RelayPolicySession :=
  match sessionPeerId s peer with
  | None => s
  | Some p => applyPhase s p (messageType m)
  end.

(** [sessionHasConfirmedPake] *)
Definition sessionHasConfirmedPake (s : RelayPolicySession) : bool :=
  senderConfirmed s && receiverConfirmed s.

(** [sessionBeforePairAcceptance] *)
Definition sessionBeforePairAcceptance (s : RelayPolicySession) : bool := negb (pairDecided s).

(** [receiverCanRetryPrePair] *)
Definition receiverCanRetryPrePair (s : RelayPolicySession) (peer : jsstr) : bool :=
  bool_decide (rp_receiver s = peer) && sessionBeforePairAcceptance s.

(** [senderDisconnectCanRestoreReceiver] *)
Definition senderDisconnectCanRestoreReceiver (s : RelayPolicySession) (peer : jsstr) : bool :=
  bool_decide (rp_sender s = peer) && sessionBeforePairAcceptance s.

(** One relayed message of a session, as the server handles it: refused, or
    accepted with the flags updated. *)
Definition relayStep (s : RelayPolicySession) (e : Role * RelayType) : option RelayPolicySession :=
  if roleAllows e.1 e.2 && phaseAllows s e.1 e.2 then Some (applyPhase s e.1 e.2) else None.

Fixpoint relayAccepts (s : RelayPolicySession) (trace : list (Role * RelayType)) : bool :=
  match trace with
  | [] => true
  | e :: rest => match relayStep s e with None => false | Some s' => relayAccepts s' rest end
  end.

(** ** Abstract specification, on the history of the session. *)
Definition countEvents (e : Role * RelayType) (h : list (Role * RelayType)) : Z :=
  Z.of_nat (length (filter (λ e', e' = e) h)).

Definition specAllows (h : list (Role * RelayType)) (e : Role * RelayType) : Prop :=
  match e with
  | (p, TPake) => (p, TPake) ∉ h
  | (p, TConfirm) => (sender, TPake) ∈ h ∧ (receiver, TPake) ∈ h ∧ (p, TConfirm) ∉ h
  | (p, TPairRequest) =>
    p = sender ∧ (sender, TConfirm) ∈ h ∧ (receiver, TConfirm) ∈ h ∧ (sender, TPairRequest) ∉ h
  | (p, TPairAccept) | (p, TPairReject) =>
    p = receiver ∧ (sender, TPairRequest) ∈ h ∧ (receiver, TPairAccept) ∉ h
  | (p, TSignal offer) => p = sender ∧ (receiver, TPairAccept) ∈ h ∧ (sender, TSignal offer) ∉ h
  | (p, TSignal answer) => p = receiver ∧ (sender, TSignal offer) ∈ h ∧ (receiver, TSignal answer) ∉ h
  | (p, TSignal candidate) =>
    (sender, TSignal offer) ∈ h ∧ countEvents (p, TSignal candidate) h < SIGNALING_MAX_ICE_CANDIDATES_PER_PEER
  | (_, TOther) => False
  end.

(** A trace is allowed when each event is allowed after the ones before it. *)
Inductive specTrace : list (Role * RelayType) → list (Role * RelayType) → Prop :=
| spec_nil h : specTrace h []
| spec_cons h e rest : specAllows h e → specTrace (h ++ [e]) rest → specTrace h (e :: rest).

(** ** Simulation *)

(** The flags are what the history says, and the history is causally closed. *)
Record reflects (h : list (Role * RelayType)) (s : RelayPolicySession) : Prop := {
  r_spake : senderPakeSeen s = true ↔ (sender, TPake) ∈ h;
  r_rpake : receiverPakeSeen s = true ↔ (receiver, TPake) ∈ h;
  r_sconf : senderConfirmed s = true ↔ (sender, TConfirm) ∈ h;
  r_rconf : receiverConfirmed s = true ↔ (receiver, TConfirm) ∈ h;
  r_req : pairRequested s = true ↔ (sender, TPairRequest) ∈ h;
  r_dec : pairDecided s = true ↔ (receiver, TPairAccept) ∈ h;
  r_offer : offerSeen s = true ↔ (sender, TSignal offer) ∈ h;
  r_answer : answerSeen s = true ↔ (receiver, TSignal answer) ∈ h;
  r_scand : senderCandidateCount s = countEvents (sender, TSignal candidate) h;
  r_rcand : receiverCandidateCount s = countEvents (receiver, TSignal candidate) h;
  r_scand_le : senderCandidateCount s <= SIGNALING_MAX_ICE_CANDIDATES_PER_PEER;
  r_rcand_le : receiverCandidateCount s <= SIGNALING_MAX_ICE_CANDIDATES_PER_PEER;
  r_conf_pake : (sender, TConfirm) ∈ h ∨ (receiver, TConfirm) ∈ h →
    (sender, TPake) ∈ h ∧ (receiver, TPake) ∈ h;
  r_req_conf : (sender, TPairRequest) ∈ h → (sender, TConfirm) ∈ h ∧ (receiver, TConfirm) ∈ h;
  r_dec_req : (receiver, TPairAccept) ∈ h → (sender, TPairRequest) ∈ h;
  r_offer_dec : (sender, TSignal offer) ∈ h → (receiver, TPairAccept) ∈ h;
  r_allowed : specTrace [] h;
}.

(** An allowed trace is extended by what is allowed after it. *)
Lemma specTrace_app h trace rest :
  specTrace h (trace ++ rest) ↔ specTrace h trace ∧ specTrace (h ++ trace) rest.
Proof.
  revert h. induction trace as [|e trace IH]; intros h; simpl.
  { rewrite app_nil_r. split; [by split; [constructor|]|by intros [_ ?]]. }
  replace (h ++ e :: trace) with ((h ++ [e]) ++ trace) by by rewrite <- app_assoc.
  split.
  - inversion 1 as [|? ? ? Hok Hr]; subst. apply IH in Hr as [??]. split; [by constructor|done].
  - intros [Ht Hr]. inversion Ht; subst. constructor; [done|]. by apply IH.
Qed.

Lemma specTrace_snoc h e : specTrace [] h → specAllows h e → specTrace [] (h ++ [e]).
Proof. intros Hh He. apply specTrace_app. split; [done|]. constructor; [done|constructor]. Qed.

Lemma countEvents_snoc e e' h :
  countEvents e (h ++ [e']) = countEvents e h + (if decide (e' = e) then 1 else 0).
Proof.
  unfold countEvents. rewrite filter_app, length_app, filter_cons, filter_nil.
  case_decide; simpl; lia.
Qed.

Lemma countEvents_nonneg e h : 0 <= countEvents e h.
Proof. unfold countEvents. lia. Qed.

Lemma candidateCount_reflects h s p :
  reflects h s → candidateCountForPeer s p = countEvents (p, TSignal candidate) h.
Proof.
  intros R. unfold candidateCountForPeer.
  pose proof (countEvents_nonneg (p, TSignal candidate) h).
  destruct p.
  - rewrite (proj2 (isSafeNonNegativeInteger_spec _)); [apply R|].
    pose proof (r_scand _ _ R). pose proof (r_scand_le _ _ R).
    unfold SIGNALING_MAX_ICE_CANDIDATES_PER_PEER, MAX_SAFE_INTEGER in *. lia.
  - rewrite (proj2 (isSafeNonNegativeInteger_spec _)); [apply R|].
    pose proof (r_rcand _ _ R). pose proof (r_rcand_le _ _ R).
    unfold SIGNALING_MAX_ICE_CANDIDATES_PER_PEER, MAX_SAFE_INTEGER in *. lia.
Qed.

Lemma reflects_new sid a b : reflects [] (newRelaySession sid a b).
Proof.
  split; simpl; try (split; [done|by intros ?%not_elem_of_nil]); try done;
  try (by intros; destruct_or?; exfalso; eapply not_elem_of_nil). constructor.
Qed.

Lemma elem_of_snoc {A} (x y : A) l : x ∈ l ++ [y] ↔ x ∈ l ∨ x = y.
Proof. by rewrite elem_of_app, list_elem_of_singleton. Qed.

Lemma negb_not b : negb b = true ↔ ¬ (b = true).
Proof. by destruct b. Qed.

Lemma if_negb (b c : bool) : (if negb b then false else c) = true ↔ b = true ∧ c = true.
Proof. destruct b; naive_solver. Qed.

(** The guard of the code and the specification agree. *)
Lemma guard_spec h s p t :
  reflects h s → (roleAllows p t && phaseAllows s p t = true ↔ specAllows h (p, t)).
Proof.
  intros R. pose proof (candidateCount_reflects h s p R) as Hc.
  destruct R as [Hsp Hrp Hsc Hrc Hrq Hdc Hof Han _ _ _ _ H1 H2 H3 H4 _].
  destruct p, t as [| | | | |[]|];
    cbn [roleAllows phaseAllows specAllows]; rewrite ?Hc;
    rewrite ?andb_true_iff, ?if_negb, ?andb_true_iff, ?negb_not, ?Z.ltb_lt;
    rewrite ?Hsp, ?Hrp, ?Hsc, ?Hrc, ?Hrq, ?Hdc, ?Hof, ?Han; clear Hsp Hrp Hsc Hrc Hrq Hdc Hof Han Hc;
    rewrite ?bool_decide_eq_true; try (intuition congruence).
Qed.

(** Membership in an extended history, by cases on the new event. *)
Lemma flag_snoc b h (e e' : Role * RelayType) (c : bool) :
  (b = true ↔ e ∈ h) → (c = true ↔ e = e') → (b || c = true ↔ e ∈ h ++ [e']).
Proof. intros H1 H2. by rewrite orb_true_iff, elem_of_snoc, H1, H2. Qed.

(** A count in range is written; an event other than a candidate leaves it. *)
Lemma count_other h p q t :
  t ≠ TSignal candidate →
  countEvents (q, TSignal candidate) (h ++ [(p, t)]) = countEvents (q, TSignal candidate) h.
Proof. intros. rewrite countEvents_snoc. case_decide; [congruence|lia]. Qed.

(** The causal closure of the history survives an allowed event. *)
Lemma closure_snoc h s e :
  reflects h s → specAllows h e →
  ((sender, TConfirm) ∈ h ++ [e] ∨ (receiver, TConfirm) ∈ h ++ [e] →
     (sender, TPake) ∈ h ++ [e] ∧ (receiver, TPake) ∈ h ++ [e]) ∧
  ((sender, TPairRequest) ∈ h ++ [e] → (sender, TConfirm) ∈ h ++ [e] ∧ (receiver, TConfirm) ∈ h ++ [e]) ∧
  ((receiver, TPairAccept) ∈ h ++ [e] → (sender, TPairRequest) ∈ h ++ [e]) ∧
  ((sender, TSignal offer) ∈ h ++ [e] → (receiver, TPairAccept) ∈ h ++ [e]).
Proof.
  intros R Hok. destruct R as [_ _ _ _ _ _ _ _ _ _ _ _ H1 H2 H3 H4 _].
  rewrite !elem_of_snoc. destruct e as [p t].
  split_and!; intros Hin; destruct_or?; simplify_eq; simpl in Hok; intuition.
Qed.

Lemma andb_decide (P Q : Prop) `{Decision P, Decision Q} :
  bool_decide P && bool_decide Q = true ↔ P ∧ Q.
Proof. by rewrite andb_true_iff, !bool_decide_eq_true. Qed.

Lemma andb_negb_decide (P Q : Prop) `{Decision P, Decision Q} :
  bool_decide P && negb (bool_decide Q) = true ↔ P ∧ ¬ Q.
Proof. by rewrite andb_true_iff, negb_not, !bool_decide_eq_true. Qed.

(** Only one side may send a message whose flag is shared. *)
Lemma specAllows_role h p t :
  specAllows h (p, t) →
  (t = TPairRequest ∨ t = TSignal offer → p = sender) ∧
  (t = TPairAccept ∨ t = TSignal answer → p = receiver).
Proof. destruct p, t as [| | | | |[]|]; simpl; intuition congruence. Qed.

(** The flags and counts after an event, before the candidate count is written. *)
Lemma applyPhase_reflects h s p t :
  reflects h s → specAllows h (p, t) → reflects (h ++ [(p, t)]) (applyPhase s p t).
Proof.
  intros R Hok. pose proof (candidateCount_reflects h s p R) as Hc.
  pose proof (countEvents_nonneg (p, TSignal candidate) h) as Hpos.
  destruct (closure_snoc h s (p, t) R Hok) as (K1&K2&K3&K4).
  destruct (specAllows_role h p t Hok) as [Hs Hr].
  pose proof (specTrace_snoc h (p, t) (r_allowed _ _ R) Hok) as Hall.
  destruct R as [Hsp Hrp Hsc Hrc Hrq Hdc Hof Han Hcs Hcr Hls Hlr _ _ _ _ _].
  unfold applyPhase, setCandidateCount. case_decide as Ht.
  - subst t. unfold candidateCountForPeer in *. cbn [senderCandidateCount receiverCandidateCount].
    rewrite Hc. destruct Hok as [_ Hlt].
    assert (Hg : negb (isSafeInteger (countEvents (p, TSignal candidate) h + 1))
      || (countEvents (p, TSignal candidate) h + 1 <? 0)
      || (SIGNALING_MAX_ICE_CANDIDATES_PER_PEER <? countEvents (p, TSignal candidate) h + 1) = false).
    { unfold isSafeInteger, MAX_SAFE_INTEGER, SIGNALING_MAX_ICE_CANDIDATES_PER_PEER in *.
      rewrite !orb_false_iff, negb_false_iff, andb_true_iff, !Z.leb_le, !Z.ltb_ge. lia. }
    rewrite Hg. split; cbn;
      try (apply flag_snoc; [done|rewrite ?andb_false_l; naive_solver]); try done;
      rewrite ?countEvents_snoc; destruct p; repeat case_decide; try congruence; lia.
  - split; cbn; rewrite ?count_other by exact Ht; try done; (apply flag_snoc; [done|]);
      rewrite ?andb_decide, ?andb_negb_decide, ?bool_decide_eq_true; (destruct p; intuition congruence).
Qed.

Lemma relay_refines_gen trace h s :
  reflects h s → (relayAccepts s trace = true ↔ specTrace h trace).
Proof.
  revert h s. induction trace as [|[p t] trace IH]; intros h s R; simpl.
  { split; [constructor|done]. }
  unfold relayStep. simpl. pose proof (guard_spec h s p t R) as Hg.
  destruct (roleAllows p t && phaseAllows s p t) eqn:E.
  - assert (Hok : specAllows h (p, t)) by (by apply Hg).
    pose proof (IH _ _ (applyPhase_reflects h s p t R Hok)) as IH'. rewrite IH'.
    split; [by constructor|]. by inversion 1; subst.
  - split; [done|]. inversion 1 as [|? ? ? Hok ?]; subst. apply Hg in Hok. congruence.
Qed.

(** ** Properties *)

(** How often a message can be relayed for one side: a candidate 512 times, a
    refusal any number of times by the rules of the flags alone, anything else
    once. *)
Definition relayBound (t : RelayType) : option Z :=
  match t with
  | TSignal candidate => Some SIGNALING_MAX_ICE_CANDIDATES_PER_PEER
  | TPairReject => None
  | TOther => Some 0
  | _ => Some 1
  end.

Lemma countEvents_fresh e h : e ∉ h → countEvents e h = 0.
Proof.
  intros Hn. unfold countEvents. destruct (filter (λ e', e' = e) h) as [|x l] eqn:E; [done|].
  assert (x ∈ filter (λ e', e' = e) h) as Hx by (rewrite E; by left).
  apply list_elem_of_filter in Hx as [-> ?]. done.
Qed.

Lemma specAllows_bound h p t b :
  specAllows h (p, t) → relayBound t = Some b → countEvents (p, t) h + 1 <= b.
Proof.
  intros Hok Hb. destruct p, t as [| | | | |[]|]; simpl in Hb; simplify_eq;
    cbn [specAllows] in Hok; destruct_and?; try done; try lia;
    rewrite countEvents_fresh by done; lia.
Qed.

(** An allowed history keeps within the bounds, whoever the next sender is. *)
Lemma specTrace_bound p t b h trace :
  relayBound t = Some b → countEvents (p, t) h <= b →
  specTrace h trace → countEvents (p, t) (h ++ trace) <= b.
Proof.
  intros Hb. revert h. induction trace as [|e trace IH]; intros h Hc Ht.
  { by rewrite app_nil_r. }
  inversion Ht as [|? ? ? Hok Hr]; subst.
  replace (h ++ e :: trace) with ((h ++ [e]) ++ trace) by by rewrite <- app_assoc.
  apply IH; [|done]. rewrite countEvents_snoc. case_decide as He; [|lia].
  subst e. pose proof (specAllows_bound h p t b Hok Hb). lia.
Qed.

(** After an acceptance there is no other decision. *)
Lemma specTrace_decided h trace p t :
  (receiver, TPairAccept) ∈ h → specTrace h trace → (p, t) ∈ trace → t ≠ TPairAccept ∧ t ≠ TPairReject.
Proof.
  intros Hin Ht. revert Hin. induction Ht as [h|h e rest Hok _ IH]; intros Hin Hp.
  { by apply not_elem_of_nil in Hp. }
  apply elem_of_cons in Hp as [<-|Hp].
  - destruct p, t; simpl in Hok; split; try done; intuition congruence.
  - apply IH; [|done]. apply elem_of_app. by left.
Qed.

(** C7. The flag machine of a session implements its specification: starting
    from a fresh session, a sequence of messages passes the role and phase
    guards (with the flags updated after each) exactly when every message is
    allowed by the messages before it: one PAKE share per side; a confirmation
    only after both shares; one pair request, by the sender, after both
    confirmations; a decision, to accept or to refuse, only by the receiver,
    after the request and before any acceptance; the offer after the acceptance,
    the answer after the offer; and candidates after the offer. So a sequence
    that passes has each of these messages at most once per side, at most 512
    candidates per side, and no decision after an acceptance. A refusal sets no
    flag: that nothing follows one is the doing of the hub, which ends the
    session when it has relayed it. *)
Theorem relay_policy_refines_spec sid senderId receiverId trace :
  (relayAccepts (newRelaySession sid senderId receiverId) trace = true ↔ specTrace [] trace) ∧
  (relayAccepts (newRelaySession sid senderId receiverId) trace = true →
    (∀ p t b, relayBound t = Some b → countEvents (p, t) trace <= b) ∧
    ∀ before after p t, trace = before ++ (receiver, TPairAccept) :: after → (p, t) ∈ after →
      t ≠ TPairAccept ∧ t ≠ TPairReject).
Proof.
  pose proof (relay_refines_gen trace [] _ (reflects_new sid senderId receiverId)) as Hg.
  split; [exact Hg|]. intros Ht%Hg. split.
  - intros p t b Hb. apply (specTrace_bound p t b [] trace Hb); [|done].
    destruct t as [| | | | |[]|]; simpl in Hb; simplify_eq; done.
  - intros before after p t -> Hin. apply specTrace_app in Ht as [_ Ht].
    inversion Ht as [|? ? ? _ Hr]; subst.
    eapply specTrace_decided; [|exact Hr|exact Hin]. apply elem_of_app. right. by left.
Qed.

Definition agreedTrace : list (Role * RelayType) :=
  [(sender, TPake); (receiver, TPake); (receiver, TConfirm); (sender, TConfirm); (sender, TPairRequest);
   (receiver, TPairAccept); (sender, TSignal offer); (sender, TSignal candidate); (receiver, TSignal answer)].

Example relay_policy_refines_spec_witness :
  specTrace [] agreedTrace ∧ countEvents (sender, TPake) agreedTrace <= 1.
Proof.
  destruct (relay_policy_refines_spec [1] [2] [3] agreedTrace) as [Hg Hb].
  assert (relayAccepts (newRelaySession [1] [2] [3]) agreedTrace = true) as Hok by (vm_compute; reflexivity).
  split; [by apply Hg|]. by apply (proj1 (Hb Hok)).
Defined.
