(* ===== verification/Admission.v ===== *)
(** * Admission: the decisions the signalling server delegates to its small
    modules: capacity ([src/server/capacity.ts]), availability of a waiting
    receiver ([waiting.ts]), pre-pair attempts ([prepair-attempts.ts]), session
    lifetimes ([session-expiry.ts]), socket back-pressure
    ([src/shared/signaling-backpressure.ts]) and the text of a close frame
    ([close-reason.ts]).

    Times, counts and sizes are the integers the server passes ([Date.now()],
    [Map.size]), so the checks that refuse other types of value are always
    passed and only their numeric content remains. *)
From S2P Require Import Prelude.
From S2P Require Import Constants.
From S2P Require Import JsText.
From S2P Require Import Protocol.
#[local] Open Scope Z_scope.

(** ** capacity.ts *)

(** [canRegisterWaitingCode] *)
Definition canRegisterWaitingCode (waitingCodes maxWaitingCodes : Z) (replacingOwnCode : bool) : bool :=
  replacingOwnCode ||
  (isSafeNonNegativeInteger waitingCodes && isSafeNonNegativeInteger maxWaitingCodes &&
   (waitingCodes <? maxWaitingCodes)).

(** [canCreateSession] *)
Definition canCreateSession (activeSessions maxSessions : Z) : bool :=
  isSafeNonNegativeInteger activeSessions && isSafeNonNegativeInteger maxSessions &&
  (activeSessions <? maxSessions).

(** [staticFileWithinLimit] *)
Definition staticFileWithinLimit (size maxBytes : Z) : bool :=
  isSafeNonNegativeInteger size && isSafeNonNegativeInteger maxBytes && (size <=? maxBytes).

(** ** waiting.ts *)

(** The [readyState] of a WebSocket *)
Inductive ReadyState := CONNECTING | OPEN | CLOSING | CLOSED.
#[export] Instance ReadyState_eq_dec : EqDecision ReadyState.
Proof. solve_decision. Defined.

(** [waitingReceiverAvailable] *)
Definition waitingReceiverAvailable (expiresAt now : Z) (readyState openState : ReadyState) : bool :=
  (now <? expiresAt) && bool_decide (readyState = openState).

(** [waitingCodeOwnedBy], of the receiver id of the entry, if there is one *)
Definition waitingCodeOwnedBy (entryReceiver : option jsstr) (peerId : jsstr) : bool :=
  bool_decide (entryReceiver = Some peerId).

(** ** prepair-attempts.ts *)

(** [initialPrePairAttempts] *)
Definition initialPrePairAttempts : Z := RECEIVER_MAX_PREPAIR_ATTEMPTS.

(** [isValidRemainingPrePairAttempts] *)
Definition isValidRemainingPrePairAttempts (remaining : Z) : bool :=
  isSafeInteger remaining && (0 <? remaining) && (remaining <=? RECEIVER_MAX_PREPAIR_ATTEMPTS).

(** [consumePrePairAttempt] *)
Definition consumePrePairAttempt (remaining : Z) : result Z :=
  if negb (isValidRemainingPrePairAttempts remaining) then throw "No pre-pair attempts remain."
  else Ok (remaining - 1).

(** [canRestorePrePairCode] *)
Definition canRestorePrePairCode (remaining : Z) : bool := isValidRemainingPrePairAttempts remaining.

(** ** session-expiry.ts *)

(** [initialSessionExpiresAt] *)
Definition initialSessionExpiresAt (now : Z) : Z := now + PAKE_TIMEOUT_MS.

(** [nextSessionExpiresAt] *)
Definition nextSessionExpiresAt (current now : Z) (message : ClientMessage) : Z :=
  match message with
  | CPairRequest _ _ _ => now + PAIR_TIMEOUT_MS
  | CPairAccept _ _ => now + PAIR_TIMEOUT_MS
  | _ => current
  end.

(** [remainingExpirySeconds] *)
Definition remainingExpirySeconds (expiresAt now : Z) : Z := Z.max 0 ((expiresAt - now) / 1000).

(** ** signaling-backpressure.ts *)

(** [signalingBackpressureExceeded]; [None] is a socket whose [bufferedAmount]
    throws or is not a finite number. *)
Definition signalingBackpressureExceeded (bufferedAmount : option Z) (maxBufferedBytes : Z) : bool :=
  if maxBufferedBytes <? 0 then true
  else match bufferedAmount with
       | None => true
       | Some amount => maxBufferedBytes <? amount
       end.

(** ** close-reason.ts *)

Definition MAX_CLOSE_REASON_BYTES : Z := 123.

(** [closeReasonChar] *)
Definition closeReasonChar (char : jsstr) : jsstr :=
  let code := codePointAt0 char in
  if bool_decide (char = []) || (code <=? 0x1f) || (code =? 0x7f) ||
     ((0x202a <=? code) && (code <=? 0x202e)) || ((0x2066 <=? code) && (code <=? 0x2069))
  then [32] else char.

(** The loop of [websocketCloseReason] *)
Fixpoint closeReasonLoop (reason : list jsstr) (out : jsstr) (bytes : Z) : jsstr :=
  match reason with
  | [] => out
  | char :: rest =>
    let clean := closeReasonChar char in
    let length := Z.of_nat (length (utf8Encode clean)) in
    if MAX_CLOSE_REASON_BYTES <? bytes + length then out
    else closeReasonLoop rest (out ++ clean) (bytes + length)
  end.

(** [websocketCloseReason] *)
Definition websocketCloseReason (reason : jsstr) : jsstr := closeReasonLoop (chars reason) [] 0.

(** ** Lemmas *)

Lemma canRegisterWaitingCode_spec n m own :
  0 <= n <= MAX_SAFE_INTEGER → 0 <= m <= MAX_SAFE_INTEGER →
  canRegisterWaitingCode n m own = true ↔ own = true ∨ n < m.
Proof.
  intros Hn Hm. unfold canRegisterWaitingCode.
  rewrite (proj2 (isSafeNonNegativeInteger_spec n)), (proj2 (isSafeNonNegativeInteger_spec m)) by done.
  rewrite orb_true_iff, !andb_true_l, Z.ltb_lt. done.
Qed.

Lemma canCreateSession_lt n m : canCreateSession n m = true → n < m.
Proof. unfold canCreateSession. intros H. by bool_hyps. Qed.

Lemma canRegisterWaitingCode_lt n m : canRegisterWaitingCode n m false = true → n < m.
Proof. unfold canRegisterWaitingCode. intros H. simpl in H. by bool_hyps. Qed.

Lemma canRestorePrePairCode_spec n :
  canRestorePrePairCode n = true ↔ 1 <= n <= RECEIVER_MAX_PREPAIR_ATTEMPTS.
Proof.
  unfold canRestorePrePairCode, isValidRemainingPrePairAttempts, isSafeInteger, MAX_SAFE_INTEGER,
    RECEIVER_MAX_PREPAIR_ATTEMPTS.
  rewrite !andb_true_iff, !Z.leb_le, Z.ltb_lt. lia.
Qed.

Lemma consumePrePairAttempt_ok n :
  canRestorePrePairCode n = true → consumePrePairAttempt n = Ok (n - 1).
Proof. unfold consumePrePairAttempt, canRestorePrePairCode. by intros ->. Qed.

Lemma waitingReceiverAvailable_open e n r : waitingReceiverAvailable e n r OPEN = true → r = OPEN.
Proof. unfold waitingReceiverAvailable. intros H. by bool_hyps. Qed.

(** Joining strings only lets surrogates pair up. *)
Lemma utf8ByteLength_cons_bounds c s :
  utf8ByteLength s < utf8ByteLength (c :: s) <= 3 + utf8ByteLength s.
Proof.
  destruct s as [|d r].
  - cbn. repeat case_match; lia.
  - rewrite utf8ByteLength_cons2. repeat case_match; try lia. bool_hyps.
    (* a surrogate pair takes 4 bytes, its low half alone 3 *)
    assert (utf8ByteLength (d :: r) = 3 + utf8ByteLength r) as ->; [|lia].
    unfold isLowSurrogate in *. bool_hyps. destruct r as [|e r'].
    + simpl. rewrite !(proj2 (Z.ltb_ge d _)) by lia. done.
    + rewrite utf8ByteLength_cons2, !(proj2 (Z.ltb_ge d _)) by lia.
      unfold isHighSurrogate. rewrite (proj2 (Z.leb_gt d _)) by lia. by rewrite andb_false_r.
Qed.

Lemma closeReasonLoop_bound reason out bytes :
  Forall wf_units reason → utf8ByteLength out <= bytes → bytes <= MAX_CLOSE_REASON_BYTES →
  utf8ByteLength (closeReasonLoop reason out bytes) <= MAX_CLOSE_REASON_BYTES.
Proof.
  intros Hwf. revert out bytes. induction Hwf as [|char rest Hchar Hrest IH]; intros out bytes Hout Hb; simpl; [lia|].
  case_match; [lia|]. bool_hyps. apply IH; [|done].
  etrans; [apply utf8ByteLength_app_le|].
  rewrite (utf8ByteLength_encode (closeReasonChar char)); [lia|].
  unfold closeReasonChar. case_match; [|done]. repeat constructor; lia.
Qed.

Lemma chars_wf s : wf_units s → Forall wf_units (chars s).
Proof.
  induction s as [|c|c d r IH1 IH2] using jsstr_ind2; intros Hs.
  - constructor.
  - inversion_clear Hs. repeat constructor; lia.
  - inversion_clear Hs as [|?? Hc Hdr]. inversion Hdr as [|?? Hd Hr]; subst.
    rewrite chars_cons2. case_match; (constructor; [by repeat (constructor; try lia)|eauto]).
Qed.

Lemma closeReasonLoop_clean reason out bytes :
  Forall (λ char, closeReasonChar char = char) reason →
  bytes + Z.of_nat (length (concat (map utf8Encode reason))) <= MAX_CLOSE_REASON_BYTES →
  closeReasonLoop reason out bytes = out ++ concat reason.
Proof.
  intros Hclean. revert out bytes. induction Hclean as [|char rest Hchar _ IH]; intros out bytes Hb; simpl.
  - by rewrite app_nil_r.
  - simpl in Hb. rewrite length_app in Hb. rewrite Hchar.
    rewrite (proj2 (Z.ltb_ge _ _)) by lia. rewrite IH by lia. by rewrite app_assoc.
Qed.

(** ** Properties *)

(** Whatever the reason, the text of a close frame fits the 123 bytes
    RFC 6455 leaves for it, so the library never refuses it; and a reason that
    has none of the replaced characters and fits is sent unchanged. *)
Theorem websocketCloseReason_fits (reason : jsstr) :
  wf_units reason →
  utf8ByteLength (websocketCloseReason reason) <= MAX_CLOSE_REASON_BYTES ∧
  (Forall (λ char, closeReasonChar char = char) (chars reason) →
   Z.of_nat (length (concat (map utf8Encode (chars reason)))) <= MAX_CLOSE_REASON_BYTES →
   websocketCloseReason reason = reason).
Proof.
  intros Hwf. unfold websocketCloseReason. split.
  - apply closeReasonLoop_bound; [by apply chars_wf|done..].
  - intros Hclean Hfit. rewrite closeReasonLoop_clean by done. apply chars_concat.
Qed.

Lemma websocketCloseReason_fits_witness :
  wf_units (replicate 200 0x20ac) ∧
  length (websocketCloseReason (replicate 200 0x20ac)) = 41%nat ∧
  utf8ByteLength (websocketCloseReason (replicate 200 0x20ac)) <= MAX_CLOSE_REASON_BYTES.
Proof.
  assert (Hwf : wf_units (replicate 200 0x20ac)) by (apply Forall_replicate; lia).
  split; [done|]. split; [vm_compute; reflexivity|].
  by apply (websocketCloseReason_fits (replicate 200 0x20ac)).
Defined.
