(* ===== verification/Ice.v ===== *)
(** * Ice: copies of ICE server lists ([src/shared/ice.ts]).

    [cloneIceServers] reads a list of servers property by property and gives a
    fresh one, or throws.  The copy satisfies [rtcServerOk], and copying it
    again gives the same list. *)
From S2P Require Import Prelude.
From S2P Require Import JsText.
From S2P Require Import JsValue.
From S2P Require Import Authority.
From S2P Require Import Messages.
#[local] Open Scope Z_scope.

Definition MAX_CLONED_ICE_SERVERS : Z := 16.
Definition MAX_CLONED_ICE_URLS_PER_SERVER : Z := 8.
Definition MAX_CLONED_ICE_URL_CHARS : Z := 512.
Definition MAX_CLONED_ICE_USERNAME_CHARS : Z := 1024.
Definition MAX_CLONED_ICE_CREDENTIAL_CHARS : Z := 1024.

(** [RTCIceServer] as the copies have it; [credentialType] is absent or
    "password". *)
Inductive IceUrls := OneUrl (url : jsstr) | UrlList (urls : list jsstr).
Record RTCIceServer := {
  rtc_urls : IceUrls;
  rtc_username : option jsstr;
  rtc_credential : option jsstr;
  rtc_credentialType : bool
}.

(** [typeof urls === "string" ? [urls] : urls] *)
Definition urlList (urls : IceUrls) : list jsstr := match urls with OneUrl url => [url] | UrlList urls => urls end.

(** [/[\p{Cc}\p{Cf}\s]/u.test(s)] *)
Definition hasControlFormatOrSpace (s : jsstr) : bool := existsb (λ cp, isCcCf cp || isSpace cp) (codePoints s).

(** [optionalOwnDataValue] and [ownDataValue], which throw for accessors; a
    property that is absent and one that is undefined are the same. *)
Definition optionalData (source : jsval) (key : jsstr) (message : string) : result jsval :=
  match getOwnProperty (KStr key) (ownProps source) with
  | None => Ok JUndefined
  | Some (PData _ value) => Ok value
  | Some (PAccessor _) => throw message
  end.
Definition requiredData (source : jsval) (key : jsstr) (message accessor : string) : result jsval :=
  value ← optionalData source key accessor;
  check (negb (isUndefined value)) message;;
  Ok value.
Definition optionalIceData (source : jsval) (key : jsstr) : result jsval := optionalData source key "ICE server fields must be data properties.".
Definition iceData (source : jsval) (key : jsstr) : result jsval :=
  requiredData source key "ICE server is invalid." "ICE server fields must be data properties.".

(** [isSafeBoundedNonEmptyString] *)
Definition isSafeBoundedNonEmptyString (value : jsval) (maxChars : Z) : bool :=
  onString (λ s, (0 <? jslen s) && (jslen s <=? maxChars) && negb (hasControlOrFormat s)) value.

(** [isTurnIceUrl], and the same test in [cloneIceServer] *)
Definition isTurnIceUrl (url : jsstr) : bool :=
  startsWith (js "turn:") (map asciiLowerUnit url) || startsWith (js "turns:") (map asciiLowerUnit url).

(** [for (let index = 0; index < list.length; index += 1) out.push(f(value at index))] *)
Fixpoint cloneEach {A} (f : jsval → result A) (n : nat) (list : jsval) (index : Z) : result (Datatypes.list A) :=
  match n with
  | O => Ok []
  | S n =>
    value ← iceData list (jsInt index);
    item ← f value;
    rest ← cloneEach f n list (index + 1);
    Ok (item :: rest)
  end.

(** A string or undefined; other values have been refused by then *)
Definition optionalText (value : jsval) : option jsstr := match value with JStr s => Some s | _ => None end.

Section Ice.
Context `{UrlParser, JsCase}.

(** [isIceUrl] of ice.ts *)
Definition isIceUrlText (url : jsval) : bool :=
  onString (λ url, (0 <? jslen url) && (jslen url <=? MAX_CLONED_ICE_URL_CHARS) && negb (hasControlFormatOrSpace url) &&
    match iceUrlAuthority url with Some authority => isValidAuthority authority | None => false end) url.

(** [cloneIceUrl] *)
Definition cloneIceUrl (url : jsval) : result jsstr :=
  check (isIceUrlText url) "ICE server URL is invalid.";;
  match url with JStr url => Ok url | _ => throw "ICE server URL is invalid." end.

(** [cloneIceUrlList] *)
Definition cloneIceUrlList (urls : jsval) : result (list jsstr) :=
  match urls with
  | JArr items =>
    check ((1 <=? Z.of_nat (length items)) && (Z.of_nat (length items) <=? MAX_CLONED_ICE_URLS_PER_SERVER)) "ICE server URL list is invalid.";;
    cloneEach cloneIceUrl (length items) urls 0
  | _ => throw "ICE server URL list is invalid."
  end.

(** [cloneIceServer] *)
Definition cloneIceServer (server : jsval) : result RTCIceServer :=
  check (match server with JObj _ _ => true | _ => false end) "ICE server is invalid.";;
  rawUrls ← iceData server (js "urls");
  urls ← match rawUrls with
         | JStr _ => url ← cloneIceUrl rawUrls; Ok (OneUrl url)
         | _ => urls ← cloneIceUrlList rawUrls; Ok (UrlList urls)
         end;
  username ← optionalIceData server (js "username");
  credential ← optionalIceData server (js "credential");
  credentialType ← optionalIceData server (js "credentialType");
  let hasTurnUrl := existsb isTurnIceUrl (urlList urls) in
  let hasNoCredential := isUndefined username && isUndefined credential in
  let hasCompleteCredential :=
    isSafeBoundedNonEmptyString username MAX_CLONED_ICE_USERNAME_CHARS && isSafeBoundedNonEmptyString credential MAX_CLONED_ICE_CREDENTIAL_CHARS in
  check (hasNoCredential || hasCompleteCredential) "ICE server credentials are invalid.";;
  check (negb (hasTurnUrl && negb hasCompleteCredential)) "TURN ICE servers require credentials.";;
  check (negb (negb (isUndefined credentialType) && (negb (isLit credentialType (js "password")) || negb hasCompleteCredential)))
    "ICE server credential type is invalid.";;
  Ok {| rtc_urls := urls; rtc_username := optionalText username; rtc_credential := optionalText credential;
        rtc_credentialType := negb (isUndefined credentialType) |}.

(** [cloneIceServers] *)
Definition cloneIceServers (servers : jsval) : result (list RTCIceServer) :=
  match servers with
  | JArr items =>
    check (Z.of_nat (length items) <=? MAX_CLONED_ICE_SERVERS) "ICE server list is invalid.";;
    cloneEach cloneIceServer (length items) servers 0
  | _ => throw "ICE server list is invalid."
  end.

(** [hasRelayIceServer] *)
Definition hasRelayIceServer (servers : jsval) : result bool :=
  cloned ← cloneIceServers servers;
  Ok (existsb (λ server,
    existsb isTurnIceUrl (urlList (rtc_urls server)) &&
    match rtc_username server, rtc_credential server with
    | Some username, Some credential => (0 <? jslen username) && (0 <? jslen credential)
    | _, _ => false
    end) cloned).

End Ice.

(** The object literal of a copy *)
Definition rtcUrlsValue (urls : IceUrls) : jsval := match urls with OneUrl url => JStr url | UrlList urls => arr (map JStr urls) end.
Definition rtcServerValue (s : RTCIceServer) : jsval :=
  obj ([(js "urls", rtcUrlsValue (rtc_urls s))] ++ optionalField "username" (rtc_username s) ++ optionalField "credential" (rtc_credential s) ++
       (if rtc_credentialType s then [(js "credentialType", jstr "password")] else [])).
Definition rtcServersValue (l : list RTCIceServer) : jsval := arr (map rtcServerValue l).

(** ** Theorems *)

(** What a copy is. *)
Definition credentialOk (s : RTCIceServer) : Prop :=
  match rtc_username s, rtc_credential s with
  | Some username, Some credential =>
    isSafeBoundedNonEmptyString (JStr username) MAX_CLONED_ICE_USERNAME_CHARS = true ∧
    isSafeBoundedNonEmptyString (JStr credential) MAX_CLONED_ICE_CREDENTIAL_CHARS = true
  | None, None => rtc_credentialType s = false ∧ existsb isTurnIceUrl (urlList (rtc_urls s)) = false
  | _, _ => False
  end.
Record rtcServerOk `{UrlParser, JsCase} (s : RTCIceServer) : Prop := {
  rtc_ok_urls : Forall (λ url, isIceUrlText (JStr url) = true) (urlList (rtc_urls s));
  rtc_ok_count : 1 <= Z.of_nat (length (urlList (rtc_urls s))) <= MAX_CLONED_ICE_URLS_PER_SERVER;
  rtc_ok_credential : credentialOk s
}.

Lemma requiredData_ok source key message accessor v : requiredData source key message accessor = Ok v → ownDataValue source key = v ∧ v ≠ JUndefined.
Proof.
  unfold requiredData, optionalData, ownDataValue. destruct (getOwnProperty _ _) as [[e w|e]|]; cbn; [|done..].
  destruct w; cbn; try done; by intros [= <-].
Qed.

Lemma iceData_own source key v : ownDataValue source key = v → v ≠ JUndefined → iceData source key = Ok v.
Proof. unfold iceData, requiredData, optionalData, ownDataValue. destruct (getOwnProperty _ _) as [[e w|e]|]; intros <- Hv; try done. by destruct w. Qed.

Lemma iceData_literal items i v : items !! i = Some v → v ≠ JUndefined → iceData (arr items) (jsInt (Z.of_nat i)) = Ok v.
Proof.
  intros Hi Hv. apply iceData_own; [|done]. change (ownArrayDataValue (arr items) (Z.of_nat i) = v).
  by rewrite ownArrayDataValue_literal, Nat2Z.id, Hi by lia.
Qed.

Lemma cloneEach_length {A} (f : jsval → result A) n list index out : cloneEach f n list index = Ok out → length out = n.
Proof.
  revert index out. induction n as [|n IH]; intros index out; cbn [cloneEach]; [by intros [= <-]|].
  intros (v & _ & (a & _ & (rest & Hr & Ho)%result_bind_ok)%result_bind_ok)%result_bind_ok. apply (inj Ok) in Ho as <-. cbn. f_equal. by eapply IH.
Qed.

Lemma cloneEach_forall {A} (f : jsval → result A) (P : A → Prop) n list index out :
  (∀ v a, f v = Ok a → P a) → cloneEach f n list index = Ok out → Forall P out.
Proof.
  intros HP. revert index out. induction n as [|n IH]; intros index out; cbn [cloneEach]; [by intros [= <-]|].
  intros (v & _ & (a & Ha & (rest & Hr & Ho)%result_bind_ok)%result_bind_ok)%result_bind_ok. apply (inj Ok) in Ho as <-. constructor; eauto.
Qed.

(** An array literal of values that are copied to what they stand for *)
Lemma cloneEach_literal {A} (f : jsval → result A) (value : A → jsval) before l :
  Forall (λ a, value a ≠ JUndefined ∧ f (value a) = Ok a) l →
  cloneEach f (length l) (arr (before ++ map value l)) (Z.of_nat (length before)) = Ok l.
Proof.
  intros Hl. revert before. induction Hl as [|a l [Hu Ha] Hl IH]; intros before; cbn [cloneEach length map]; [done|].
  rewrite (iceData_literal _ _ (value a)) by (done || by rewrite list_lookup_middle). cbn [mbind result_bind]. rewrite Ha. cbn [mbind result_bind].
  specialize (IH (before ++ [value a])). rewrite <-app_assoc, length_app in IH. cbn [app length] in IH.
  replace (Z.of_nat (length before) + 1) with (Z.of_nat (length before + 1)) by lia. by rewrite IH.
Qed.

Section Copies.
Context `{UrlParser, JsCase}.

Lemma cloneIceUrl_ok v url : cloneIceUrl v = Ok url ↔ v = JStr url ∧ isIceUrlText (JStr url) = true.
Proof.
  unfold cloneIceUrl. rewrite check_bind_ok. split.
  - intros [Hv Hu]. destruct v; try done. by apply (inj Ok) in Hu as ->.
  - by intros [-> ->].
Qed.

Lemma cloneIceUrlList_ok v urls :
  cloneIceUrlList v = Ok urls → Forall (λ url, isIceUrlText (JStr url) = true) urls ∧ 1 <= Z.of_nat (length urls) <= MAX_CLONED_ICE_URLS_PER_SERVER.
Proof.
  destruct v as [| | | | | |items|]; try done. cbn [cloneIceUrlList]. rewrite check_bind_ok, andb_true_iff, !Z.leb_le. intros [Hn Hc]. split.
  - eapply cloneEach_forall; [|exact Hc]. by intros v a [_ Ha]%cloneIceUrl_ok.
  - by rewrite (cloneEach_length _ _ _ _ _ Hc).
Qed.

Lemma cloneIceServer_ok v s : cloneIceServer v = Ok s → rtcServerOk s.
Proof.
  unfold cloneIceServer. rewrite check_bind_ok. intros (_ & (raw & _ & (urls & Hurls & (u & _ & (c & _ & (t & _ & Ho)%result_bind_ok)%result_bind_ok)%result_bind_ok)%result_bind_ok)%result_bind_ok).
  assert (Forall (λ url, isIceUrlText (JStr url) = true) (urlList urls) ∧ 1 <= Z.of_nat (length (urlList urls)) <= MAX_CLONED_ICE_URLS_PER_SERVER) as [Hu Hn].
  { destruct raw; try (apply result_bind_ok in Hurls as (l & Hl & [= <-]); by eapply cloneIceUrlList_ok).
    apply result_bind_ok in Hurls as (url & [_ Hl]%cloneIceUrl_ok & [= <-]). split; [by constructor|done]. }
  cbv zeta in Ho. rewrite !check_bind_ok in Ho. destruct Ho as (Hcred & Hturn & Htype & Ho). apply (inj Ok) in Ho as <-. split; [done..|].
  unfold credentialOk. cbn [rtc_username rtc_credential rtc_credentialType rtc_urls].
  apply orb_true_iff in Hcred as [[Eu Ec]%andb_true_iff|[Eu Ec]%andb_true_iff].
  - destruct u, c; try done. cbn in Hturn, Htype |- *. split; [by destruct t; cbn in Htype; rewrite ?orb_true_r in Htype|].
    by destruct (existsb isTurnIceUrl (urlList urls)).
  - destruct u as [| | | |u| | |]; try done. by destruct c as [| | | |c| | |].
Qed.

(** A copy has at most 16 servers with 1 to 8 valid URLs each; credentials are
    complete or absent, and present with a TURN URL. *)
Lemma cloneIceServers_ok v l : cloneIceServers v = Ok l → Forall rtcServerOk l ∧ Z.of_nat (length l) <= MAX_CLONED_ICE_SERVERS.
Proof.
  destruct v as [| | | | | |items|]; try done. cbn [cloneIceServers]. rewrite check_bind_ok, Z.leb_le. intros [Hn Hc]. split.
  - eapply cloneEach_forall; [|exact Hc]. apply cloneIceServer_ok.
  - by rewrite (cloneEach_length _ _ _ _ _ Hc).
Qed.

Lemma rtcServerValue_fields s :
  ownDataValue (rtcServerValue s) (js "urls") = rtcUrlsValue (rtc_urls s) ∧
  optionalIceData (rtcServerValue s) (js "username") = Ok (match rtc_username s with Some u => JStr u | None => JUndefined end) ∧
  optionalIceData (rtcServerValue s) (js "credential") = Ok (match rtc_credential s with Some c => JStr c | None => JUndefined end) ∧
  optionalIceData (rtcServerValue s) (js "credentialType") = Ok (if rtc_credentialType s then jstr "password" else JUndefined).
Proof. by destruct s as [urls [u|] [c|] []]. Qed.

Lemma cloneIceServer_value s : rtcServerOk s → cloneIceServer (rtcServerValue s) = Ok s.
Proof.
  intros [Hu Hn Hc]. destruct (rtcServerValue_fields s) as (E1 & E2 & E3 & E4). unfold cloneIceServer. apply check_bind_ok. split; [done|].
  rewrite (iceData_own _ _ _ E1) by (by destruct (rtc_urls s)). cbn [mbind result_bind]. rewrite E2, E3, E4. cbn [mbind result_bind].
  apply result_bind_ok. exists (rtc_urls s). split.
  { destruct (rtc_urls s) as [url|urls]; cbn [rtcUrlsValue].
    - apply result_bind_ok. exists url. split; [|done]. apply cloneIceUrl_ok. by inversion_clear Hu.
    - unfold arr at 1. cbv iota. apply result_bind_ok. exists urls. split; [|done]. unfold cloneIceUrlList, arr. rewrite !length_map. fold (arr (map JStr urls)).
      apply check_bind_ok. split; [apply andb_true_iff; by rewrite !Z.leb_le|]. apply (cloneEach_literal cloneIceUrl JStr []).
      eapply Forall_impl; [exact Hu|]. intros url Hurl. split; [done|]. by apply cloneIceUrl_ok. }
  cbn [mbind result_bind]. cbv zeta. unfold credentialOk in Hc. destruct s as [urls u c t]; cbn [rtc_username rtc_credential rtc_credentialType rtc_urls] in *.
  destruct u as [u|], c as [c|]; try done.
  - destruct Hc as [Hu' Hc']. rewrite Hu', Hc'. rewrite orb_true_r, andb_false_r. by destruct t.
  - destruct Hc as [-> ->]. done.
Qed.

(** Copying is idempotent. *)
Lemma cloneIceServers_value l : Forall rtcServerOk l → Z.of_nat (length l) <= MAX_CLONED_ICE_SERVERS → cloneIceServers (rtcServersValue l) = Ok l.
Proof.
  intros Hl Hn. unfold cloneIceServers, rtcServersValue, arr. rewrite !length_map. fold (arr (map rtcServerValue l)). apply check_bind_ok. split; [by apply Z.leb_le|].
  apply (cloneEach_literal cloneIceServer rtcServerValue []). eapply Forall_impl; [exact Hl|]. intros s Hs. split; [done|]. by apply cloneIceServer_value.
Qed.

(** *** The validator of signalling messages accepts no list that cannot be copied *)

Lemma space_cases cp : isSpace cp = true → 0 <= cp < 0xd800 ∨ isCcCf cp = true.
Proof. unfold isSpace, inRanges. cbn [existsb]. rewrite !orb_true_iff, !andb_true_iff, !Z.leb_le. intros Hc. assert (cp < 0xd800 ∨ cp = 0xfeff) as [?| ->] by lia; [left; lia|by right]. Qed.

Lemma iceUrlAuthority_split url authority :
  iceUrlAuthority url = Some authority → ∃ scheme query, url = scheme ++ [58] ++ authority ++ query ∧ Forall (λ c, isSpace c = false) scheme ∧ Forall (λ c, isSpace c = false) query.
Proof.
  assert (∀ s, Forall (λ c, isSpace c = false) (map asciiLowerUnit s) → Forall (λ c, isSpace c = false) s) as Hlow.
  { intros s Hs. apply Forall_map in Hs. eapply Forall_impl; [exact Hs|]. unfold compose, asciiLowerUnit, isUpper, isSpace, inRanges. intros c. cbn [existsb]. destruct ((65 <=? c) && (c <=? 90)) eqn:E; [|done]. bool_hyps. intros _.
    rewrite !orb_false_iff, !andb_false_iff, !Z.leb_gt. lia. }
  unfold iceUrlAuthority. intros Ha. pose proof (takeWhile_dropWhile (λ c, negb (c =? 58)) url) as E1. pose proof (dropWhile_head (λ c, negb (c =? 58)) url) as Eh.
  destruct (dropWhile (λ c, negb (c =? 58)) url) as [|c rest]; [done|]. specialize (Eh c rest eq_refl). apply negb_false_iff, Z.eqb_eq in Eh as ->.
  destruct (isIceScheme _) eqn:Es in Ha; [|done]. destruct (bool_decide (_ ∈ _)) eqn:Eq in Ha; [|by rewrite andb_false_r in Ha]. destruct (negb _) in Ha; [|done]. cbn [andb] in Ha. injection Ha as <-.
  exists (takeWhile (λ c, negb (c =? 58)) url), (dropWhile (λ c, negb (c =? 63)) rest). rewrite takeWhile_dropWhile. split_and!.
  - symmetry. exact E1.
  - apply Hlow. unfold isIceScheme in Es. apply bool_decide_eq_true in Es. revert Es. generalize (map asciiLowerUnit (takeWhile (λ c, negb (c =? 58)) url)). intros s Hs.
    rewrite !elem_of_cons, elem_of_nil in Hs. destruct Hs as [->|[->|[->|[->|[]]]]]; repeat constructor.
  - apply Hlow. apply bool_decide_eq_true in Eq. revert Eq. generalize (map asciiLowerUnit (dropWhile (λ c, negb (c =? 63)) rest)). intros s Hs.
    rewrite !elem_of_cons, elem_of_nil in Hs. destruct Hs as [->|[->|[->|[]]]]; repeat constructor.
Qed.

Lemma isIceUrl_text v : isIceUrl v = true → isIceUrlText v = true.
Proof.
  unfold isIceUrl, isSafeBoundedString, isBoundedString. destruct v as [| | | |url| | |]; try done. cbn [onString isIceUrlText]. rewrite !andb_true_iff, negb_true_iff.
  intros [[Hlen Hcc] Ha]. destruct (iceUrlAuthority url) as [authority|] eqn:Eu; [|done]. destruct (iceUrlAuthority_split url authority Eu) as (scheme & query & -> & Hs & Hq).
  split_and!; [|done| |done].
  - unfold jslen. rewrite !length_app. cbn [length]. apply Z.ltb_lt. lia.
  - apply negb_true_iff. unfold hasControlFormatOrSpace. apply not_true_is_false. intros (cp & Hin & Hc)%existsb_exists. apply list_elem_of_In in Hin.
    assert (isCcCf cp = false) as Hno. { apply not_true_is_false. intros Hc'. rewrite <-not_true_iff_false in Hcc. apply Hcc, existsb_exists. exists cp. split; [by apply list_elem_of_In|done]. }
    rewrite Hno in Hc. cbn [orb] in Hc. destruct (space_cases cp Hc) as [Hr|]; [|congruence]. apply codePoints_inv in Hin; [|lia].
    rewrite !elem_of_app in Hin. rewrite Forall_forall in Hs, Hq. destruct Hin as [Hin|[Hin|[Hin|Hin]]]; [by rewrite Hs in Hc|by apply list_elem_of_singleton in Hin as ->| |by rewrite Hq in Hc].
    unfold isValidAuthority in Ha. destruct (authorityInputAllowed authority) eqn:Eal; [|done]. unfold authorityInputAllowed in Eal. rewrite !andb_true_iff, negb_true_iff in Eal. destruct Eal as [_ Eal].
    rewrite <-not_true_iff_false in Eal. apply Eal, existsb_exists. exists cp. split; [by apply list_elem_of_In, codePoints_unit|]. by rewrite Hc, orb_true_r.
Qed.

Lemma optionalData_plain v name : isObject v = true → optionalIceData v (js name) = Ok (field v name).
Proof.
  intros Hv. assert (forallb (λ kp : key * prop jsval, enumerableData kp.2) (ownProps v) = true) as Hp by (destruct v as [| | | | | | |[]]; done).
  unfold optionalIceData, optionalData, field, ownDataValue. induction (ownProps v) as [|[k q] props IH]; cbn [getOwnProperty]; [done|]. cbn [forallb] in Hp.
  apply andb_true_iff in Hp as [Hq Hp]. destruct (decide _); [|by apply IH]. by destruct q.
Qed.

Lemma urls_clone n v index l : ownDataArrayFrom n v index = Some l → forallb isIceUrl l = true → ∃ urls, cloneEach cloneIceUrl n v index = Ok urls ∧ l = map JStr urls.
Proof.
  revert index l. induction n as [|n IH]; intros index l; cbn [ownDataArrayFrom cloneEach]; [intros [= <-] _; by exists []|].
  destruct (isUndefined (ownArrayDataValue v index)) eqn:Eu; [done|]. intros (rest & Hr & ->)%fmap_Some Hall. cbn [app forallb] in Hall. apply andb_true_iff in Hall as [Hu Hall].
  destruct (IH _ _ Hr Hall) as (urls & Hc & ->). apply isIceUrl_text in Hu. unfold ownArrayDataValue in *. destruct (ownDataValue v (jsInt index)) as [| | | |url| | |] eqn:Ev; try done.
  exists (url :: urls). split; [|done]. rewrite (iceData_own _ _ _ Ev) by done. cbn [mbind result_bind]. by rewrite (proj2 (cloneIceUrl_ok (JStr url) url) (conj eq_refl Hu)), Hc.
Qed.

Lemma existsb_turn urls : existsb isTurnUrl (map JStr urls) = existsb isTurnIceUrl urls.
Proof. induction urls as [|url urls IH]; [done|]. cbn. by rewrite IH. Qed.

(** What [isIceServer] accepts [cloneIceServer] copies, and a list likewise. *)
Lemma isIceServer_clones v : isIceServer v = true → ∃ s, cloneIceServer v = Ok s.
Proof.
  unfold isIceServer, cloneIceServer. rewrite !andb_true_iff. cbv zeta. intros [[Ho _] [[[Hurls Hcred] Hturn] Htype]].
  assert (match v with JObj _ _ => true | _ => false end = true) as -> by by destruct v. rewrite !optionalData_plain by done. cbn [check mbind result_bind].
  assert (∃ raw urls, iceData v (js "urls") = Ok raw ∧
    match raw with JStr _ => url ← cloneIceUrl raw; Ok (OneUrl url) | _ => urls ← cloneIceUrlList raw; Ok (UrlList urls) end = Ok urls ∧
    existsb isTurnIceUrl (urlList urls) = match match field v "urls" with JStr s => Some [JStr s] | JArr items => ownDataArrayValues items | _ => None end with Some l => existsb isTurnUrl l | None => false end)
    as (raw & urls & -> & Hraw & Eturn).
  { unfold field in *. destruct (ownDataValue v (js "urls")) as [| | | |url| |items|] eqn:Eu; try done.
    - cbn [forallb length] in Hurls. rewrite !andb_true_iff in Hurls. destruct Hurls as [_ [Hurl _]]. exists (JStr url), (OneUrl url). rewrite (iceData_own _ _ _ Eu) by done. split_and!; [done| |done].
      apply isIceUrl_text in Hurl. by rewrite (proj2 (cloneIceUrl_ok (JStr url) url) (conj eq_refl Hurl)).
    - unfold ownDataArrayValues in *. destruct (ownDataArrayFrom (length items) (JArr items) 0) as [l|] eqn:El; [|done]. rewrite !andb_true_iff in Hurls. destruct Hurls as [[Hn1 Hn2] Hall].
      destruct (urls_clone _ _ _ _ El Hall) as (urls & Hc & ->). rewrite length_map in Hn1, Hn2. exists (JArr items), (UrlList urls). rewrite (iceData_own _ _ _ Eu) by done. split_and!; [done| |by rewrite existsb_turn].
      rewrite (cloneEach_length _ _ _ _ _ Hc) in Hn1, Hn2. apply Z.ltb_lt in Hn1. assert (cloneIceUrlList (JArr items) = Ok urls) as ->; [|done]. apply check_bind_ok. split; [|done].
      apply andb_true_iff. split; [apply Z.leb_le; lia|done]. }
  cbn [mbind result_bind]. rewrite Hraw. cbn [mbind result_bind]. rewrite Eturn.
  assert (∀ w m, isSafeNonEmptyBoundedString w m = isSafeBoundedNonEmptyString w m) as Hsame.
  { intros w m. unfold isSafeNonEmptyBoundedString, isSafeBoundedString, isBoundedString, isSafeBoundedNonEmptyString. destruct w; try done. cbn [onString].
    by rewrite andb_comm, andb_assoc. }
  rewrite !Hsame in *. change MAX_ICE_USERNAME_CHARS with MAX_CLONED_ICE_USERNAME_CHARS in *. change MAX_ICE_CREDENTIAL_CHARS with MAX_CLONED_ICE_CREDENTIAL_CHARS in *. rewrite Hcred. cbn [check mbind result_bind].
  destruct (isSafeBoundedNonEmptyString (field v "username") _ && isSafeBoundedNonEmptyString (field v "credential") _).
  - rewrite andb_false_r. cbn [negb check mbind result_bind]. rewrite orb_false_r. destruct (isUndefined (field v "credentialType")); [by eexists|]. cbn [orb] in Htype. rewrite andb_true_r in Htype. rewrite Htype. by eexists.
  - rewrite orb_false_r in Hturn. apply negb_true_iff in Hturn. rewrite Hturn. cbn [andb negb check mbind result_bind]. rewrite andb_false_r, orb_false_r in Htype. rewrite Htype. by eexists.
Qed.

Lemma isIceServers_clones v : isIceServers v = true → ∃ l, cloneIceServers v = Ok l.
Proof.
  unfold isIceServers, cloneIceServers. destruct v as [| | | | | |items|]; try done. rewrite !andb_true_iff. intros [[_ Hn] Hl]. change MAX_CLONED_ICE_SERVERS with MAX_ICE_SERVERS. rewrite Hn. cbn [check mbind result_bind].
  clear Hn. revert Hl. generalize 0 as index. induction (length items) as [|n IH]; intros index; cbn [iceServersLoop cloneEach]; [by eexists|].
  destruct (isUndefined (ownArrayDataValue (JArr items) index)) eqn:Eu; [done|]. destruct (isIceServer (ownArrayDataValue (JArr items) index)) eqn:Es; [|done]. cbn [negb orb]. intros Hl.
  destruct (isIceServer_clones _ Es) as (s & Hs). destruct (IH _ Hl) as (l & Hc). rewrite (iceData_own (JArr items) (jsInt index) (ownArrayDataValue (JArr items) index) eq_refl) by (intros E; by rewrite E in Eu).
  cbn [mbind result_bind]. rewrite Hs. cbn [mbind result_bind]. rewrite Hc. by eexists.
Qed.

End Copies.
