(* ===== verification/HttpRequest.v ===== *)
(** * HttpRequest: what the server reads of a request ([src/server/request-headers.ts]).

    A request is an untrusted value with the own properties [rawHeaders],
    [url], [method] and [socket].  [net.isIP], [net.BlockList] and the URL
    parser are parameters.  The theorem is about the client's address behind
    proxies: it is the address of the socket, or the one that the outermost
    trusted proxy appended, whatever the client sent. *)
From S2P Require Import Prelude.
From S2P Require Import Constants.
From S2P Require Import JsText.
From S2P Require Import JsValue.
From S2P Require Import Authority.
From S2P Require Import Ice.
#[local] Open Scope Z_scope.

Definition MAX_RAW_HEADER_NAME_CHARS : Z := 64.
Definition MAX_HOST_HEADER_CHARS : Z := 255.
Definition MAX_ORIGIN_HEADER_BYTES : Z := 2048.
Definition MAX_REMOTE_ADDRESS_CHARS : Z := 45.
Definition MAX_X_FORWARDED_FOR_BYTES : Z := 2048.
Definition MAX_X_FORWARDED_FOR_HOPS : Z := 32.
Definition MAX_REQUEST_TARGET_BYTES : Z := 8192.

(** A rule of a [BlockList]: an address, or a subnet with its prefix; and its
    family, 4 or 6 *)
Record BlockRule := { rule_address : jsstr; rule_prefix : option Z; rule_family : Z }.

(** [isIP] (0, 4 or 6), [blockList.check(address, family)] for the rules added
    so far, and [new URL(target, base)] *)
Class NodeNet := {
  isIP : jsstr → Z;
  blockListCheck : list BlockRule → jsstr → Z → bool;
  resolveUrl : jsstr → jsstr → option Url
}.

(** [string | undefined | null]: no single header value, no header, the header *)
Inductive header := HNull | HUndefined | HText (s : jsstr).

(** ** Properties *)

(** [optionalOwnDataValue] (null for an accessor) and [ownDataValue] *)
Definition optionalOwn (value : jsval) (key : jsstr) : jsval :=
  match getOwnProperty (KStr key) (ownProps value) with
  | None => JUndefined
  | Some (PData _ v) => v
  | Some (PAccessor _) => JNull
  end.
Definition ownOrUndefined (value : jsval) (key : jsstr) : jsval := match optionalOwn value key with JNull => JUndefined | data => data end.

(** ** Raw headers *)

(** [RAW_HEADER_NAME] and [isRawHeaderName] *)
Definition isHeaderNameUnit (c : Z) : bool :=
  isDigit c || isAlpha c || bool_decide (c ∈ [33; 35; 36; 37; 38; 39; 42; 43; 45; 46; 94; 95; 96; 124; 126]).
Definition isRawHeaderName (value : jsstr) : bool :=
  (0 <? jslen value) && (jslen value <=? MAX_RAW_HEADER_NAME_CHARS) && forallb isHeaderNameUnit value.

(** The loop of [rawHeaderPairs] *)
Fixpoint headerPairs (n : nat) (rawHeaders : jsval) (index : Z) : option (list (jsstr * jsstr)) :=
  match n with
  | O => Some []
  | S n =>
    match ownArrayDataValue rawHeaders index, ownArrayDataValue rawHeaders (index + 1) with
    | JStr rawName, JStr rawValue =>
      if isRawHeaderName rawName then pairs ← headerPairs n rawHeaders (index + 2); Some ((rawName, rawValue) :: pairs) else None
    | _, _ => None
    end
  end.

(** [rawHeaderPairs] *)
Definition rawHeaderPairs (req : jsval) : option (list (jsstr * jsstr)) :=
  match ownOrUndefined req (js "rawHeaders") with
  | JArr items =>
    let n := Z.of_nat (length items) in
    if negb (n mod 2 =? 0) || (HTTP_MAX_HEADERS_COUNT * 2 <? n) then None
    else headerPairs (Z.to_nat (n / 2)) (JArr items) 0
  | _ => None
  end.

(** ** Host, origin and target *)

(** [UNSAFE_HOST_HEADER_CHARS.test(host)], and [host.includes("://")] *)
Definition hasUnsafeHostChars (host : jsstr) : bool :=
  existsb (λ cp, isCcCf cp || isSpace cp || bool_decide (cp ∈ [44; 47; 92; 64])) (codePoints host).
Fixpoint includesText (text s : jsstr) : bool :=
  startsWith text s || match s with [] => false | _ :: r => includesText text r end.

(** [isOriginFormTarget] *)
Definition isOriginFormTarget (target : jsstr) : bool :=
  (0 <? jslen target) && (jslen target <=? MAX_REQUEST_TARGET_BYTES) && negb (utf8ByteLengthExceeds target MAX_REQUEST_TARGET_BYTES) &&
  startsWith (js "/") target && negb (startsWith (js "//") target) &&
  negb (existsb (λ cp, isCcCf cp || (cp =? 32) || (cp =? 92)) (codePoints target)).

(** [requestMethod] *)
Definition requestMethod (req : jsval) : option jsstr :=
  match ownOrUndefined req (js "method") with JStr method => Some method | _ => None end.

Section Request.
Context `{UrlParser, JsCase, NodeNet}.

(** The loop of [rawHeaderValue] *)
Fixpoint headerValueLoop (name : jsstr) (pairs : list (jsstr * jsstr)) (value : option jsstr) : header :=
  match pairs with
  | [] => match value with Some v => HText v | None => HUndefined end
  | (rawName, rawValue) :: pairs =>
    if negb (bool_decide (toLowerCase rawName = name)) then headerValueLoop name pairs value
    else match value with Some _ => HNull | None => headerValueLoop name pairs (Some rawValue) end
  end.

(** [rawHeaderValue] *)
Definition rawHeaderValue (req : jsval) (name : jsstr) : header :=
  match rawHeaderPairs req with Some pairs => headerValueLoop name pairs None | None => HNull end.

(** [isValidHostHeader] and [requestHostAuthority] *)
Definition isValidHostHeader (host : jsstr) : bool :=
  (0 <? jslen host) && (jslen host <=? MAX_HOST_HEADER_CHARS) && negb (includesText (js "://") host || hasUnsafeHostChars host) &&
  isValidAuthority host.
Definition requestHostAuthority (req : jsval) : option jsstr :=
  match rawHeaderValue req (js "host") with
  | HText host => if isValidHostHeader host then Some host else None
  | _ => None
  end.

(** [requestBaseUrl] and [requestUrl] *)
Definition requestBaseUrl (req : jsval) : option jsstr := host ← requestHostAuthority req; Some (js "http://" ++ host).
Definition requestUrl (req : jsval) : option Url :=
  let target := match optionalOwn req (js "url") with JUndefined => jstr "/" | v => v end in
  match requestBaseUrl req, target with
  | Some baseUrl, JStr target => if isOriginFormTarget target then resolveUrl target baseUrl else None
  | _, _ => None
  end.

(** [isValidOriginHeader] and [requestOriginHeader] *)
Definition hasUnsafeOriginChars (s : jsstr) : bool := existsb (λ cp, isCcCf cp || isSpace cp || (cp =? 44)) (codePoints s).
Definition isValidOriginHeader (origin : jsstr) : bool :=
  (0 <? jslen origin) && (jslen origin <=? MAX_ORIGIN_HEADER_BYTES) && negb (utf8ByteLengthExceeds origin MAX_ORIGIN_HEADER_BYTES) &&
  negb (hasUnsafeOriginChars origin) &&
  match parseUrl origin with
  | Some parsed =>
    bool_decide (url_protocol parsed = js "http:" ∨ url_protocol parsed = js "https:") && bool_decide (url_origin parsed = origin) &&
    bool_decide (url_username parsed = []) && bool_decide (url_password parsed = []) && negb (bool_decide (url_port parsed = js "0")) &&
    bool_decide (url_pathname parsed = js "/") && bool_decide (url_search parsed = []) && bool_decide (url_hash parsed = []) &&
    isValidOriginHostname (url_hostname parsed)
  | None => false
  end.
Definition requestOriginHeader (req : jsval) : header :=
  match rawHeaderValue req (js "origin") with
  | HText origin => if isValidOriginHeader origin then HText origin else HNull
  | h => h
  end.

(** [requestHasForwardedHeaderEvidence] *)
Definition isPresent (h : header) : bool := match h with HUndefined => false | _ => true end.
Definition requestHasForwardedHeaderEvidence (req : jsval) : bool :=
  isPresent (rawHeaderValue req (js "forwarded")) || isPresent (rawHeaderValue req (js "x-forwarded-for")) ||
  isPresent (rawHeaderValue req (js "x-forwarded-host")) || isPresent (rawHeaderValue req (js "x-forwarded-proto")).

(** ** The client's address *)

(** [normalizeIpLiteral]: an IPv4-mapped address is written as the IPv4 one. *)
Definition isIpv4Digits (part : jsstr) : bool := (1 <=? jslen part) && (jslen part <=? 3) && forallb isDigit part.
Definition mappedIpv4 (address : jsstr) : option jsstr :=
  if startsWith (js "::ffff:") (map asciiLowerUnit address) then
    let rest := slice 7 (jslen address) address in
    let parts := splitOn dot rest in
    if (Z.of_nat (length parts) =? 4) && forallb isIpv4Digits parts then Some rest else None
  else None.
Definition normalizeIpLiteral (address : jsstr) : jsstr := default address (mappedIpv4 address).

(** [normalizeRemoteAddress] and [forwardedIp] *)
Definition normalizeRemoteAddress (address : jsstr) : option jsstr :=
  if (jslen address =? 0) || (MAX_REMOTE_ADDRESS_CHARS <? jslen address) || hasControlFormatOrSpace address then None
  else
    let normalized := normalizeIpLiteral address in
    if isIP normalized =? 0 then None else Some normalized.
Definition forwardedIp (value : jsstr) : option jsstr :=
  if (jslen value =? 0) || (45 <? jslen value) then None
  else
    let normalized := normalizeIpLiteral value in
    if isIP normalized =? 0 then None else Some normalized.

(** [isValidForwardedForHeader] with [isValidForwardedIp] *)
Definition isValidForwardedForHeader (value : jsstr) : bool :=
  if (jslen value =? 0) || (MAX_X_FORWARDED_FOR_BYTES <? jslen value) || utf8ByteLengthExceeds value MAX_X_FORWARDED_FOR_BYTES || hasControlOrFormat value then false
  else
    let hops := splitOn 44 value in
    (Z.of_nat (length hops) <=? MAX_X_FORWARDED_FOR_HOPS) && forallb (λ hop, bool_decide (is_Some (forwardedIp (trim hop)))) hops.

Definition unknown : jsstr := js "unknown".

(** [requestSocketRemoteAddress] *)
Definition requestSocketRemoteAddress (req : jsval) : jsstr :=
  match ownOrUndefined req (js "socket") with
  | JObj p props =>
    match ownOrUndefined (JObj p props) (js "remoteAddress") with
    | JStr remoteAddress => default unknown (normalizeRemoteAddress remoteAddress)
    | _ => unknown
    end
  | _ => unknown
  end.

(** [requestForwardedClientAddress] *)
Definition requestForwardedClientAddress (req : jsval) (trustedProxyHops : Z) : option jsstr :=
  match rawHeaderValue req (js "x-forwarded-for") with
  | HText forwardedFor =>
    if isValidForwardedForHeader forwardedFor then
      let hops := map trim (splitOn 44 forwardedFor) in
      if Z.of_nat (length hops) <? trustedProxyHops then None
      else client ← hops !! Z.to_nat (Z.of_nat (length hops) - trustedProxyHops); forwardedIp client
    else None
  | _ => None
  end.

(** [trustedProxyHopsInput] *)
Definition trustedProxyHopsInput (value : jsval) : Z := match value with jint hops => if (0 <=? hops) && (hops <=? 3) then hops else 0 | _ => 0 end.

End Request.

(** [Number(text)], which reads digits as the number they write *)
Class JsToNumber := {
  toNumber : jsstr → jsnum;
  toNumber_digits s : allDigits s = true → decimalValue s <= MAX_SAFE_INTEGER → toNumber s = NInt (decimalValue s)
}.

Section Proxies.
Context `{UrlParser, JsCase, NodeNet, JsToNumber}.

(** [addTrustedProxySource]: the rule it adds, when it returns true *)
Definition trustedProxyRule (source : jsstr) : option BlockRule :=
  let slash := indexOf 47 source in
  if slash <? 0 then
    let address := normalizeIpLiteral source in
    let family := isIP address in
    if family =? 0 then None else Some {| rule_address := address; rule_prefix := None; rule_family := if family =? 4 then 4 else 6 |}
  else if negb (slash =? lastIndexOf 47 source) then None
  else
    let address := normalizeIpLiteral (slice 0 slash source) in
    match toNumber (slice (slash + 1) (jslen source) source) with
    | NInt prefix =>
      let family := isIP address in
      let maxPrefix := if family =? 4 then 32 else 128 in
      if (family =? 0) || (prefix <=? 0) || (maxPrefix <? prefix) then None
      else Some {| rule_address := address; rule_prefix := Some prefix; rule_family := if family =? 4 then 4 else 6 |}
    | _ => None
    end.

(** The loop of [trustedProxyMatches] *)
Fixpoint trustedProxyRules (n : nat) (ips : jsval) (index : Z) : option (list BlockRule) :=
  match n with
  | O => Some []
  | S n =>
    match ownArrayDataValue ips index with
    | JStr source => rule ← trustedProxyRule source; rules ← trustedProxyRules n ips (index + 1); Some (rule :: rules)
    | _ => None
    end
  end.

(** [trustedProxyMatches] *)
Definition trustedProxyMatches (socketAddress : jsstr) (trustedProxyIps : jsval) : bool :=
  match trustedProxyIps with
  | JArr items =>
    if (Z.of_nat (length items) =? 0) || (32 <? Z.of_nat (length items)) then false
    else
      let address := normalizeIpLiteral socketAddress in
      let family := isIP address in
      if family =? 0 then false
      else match trustedProxyRules (length items) trustedProxyIps 0 with
           | Some rules => blockListCheck rules address (if family =? 4 then 4 else 6)
           | None => false
           end
  | _ => false
  end.

(** [requestRemoteAddress] *)
Definition requestRemoteAddress (req trustedProxyHops trustedProxyIps : jsval) : jsstr :=
  let socketAddress := requestSocketRemoteAddress req in
  let hops := trustedProxyHopsInput trustedProxyHops in
  if (hops =? 0) || negb (trustedProxyMatches socketAddress trustedProxyIps) then socketAddress
  else default socketAddress (requestForwardedClientAddress req hops).

End Proxies.

(** ** Theorems *)

Lemma splitOn_app_sep c a b : splitOn c (a ++ c :: b) = splitOn c a ++ splitOn c b.
Proof.
  induction a as [|d a IH]; cbn [app splitOn].
  - destruct (splitOn c b) eqn:E; [by apply splitOn_nonempty in E|]. by rewrite decide_True.
  - rewrite IH. destruct (splitOn c a) eqn:E; [by apply splitOn_nonempty in E|]. cbn [app]. by case_decide.
Qed.

Lemma splitOn_join c w l : Forall (λ s, c ∉ s) (w :: l) → splitOn c (joinWith [c] (w :: l)) = w :: l.
Proof.
  revert w. induction l as [|v l IH]; intros w Hl; inversion_clear Hl; [by apply splitOn_single|].
  rewrite joinWith_cons. cbn [app]. rewrite splitOn_app by done. by rewrite IH.
Qed.

Section Address.
Context `{UrlParser, JsCase, NodeNet, JsToNumber}.

Lemma forwardedIp_ip s a : forwardedIp s = Some a → isIP a ≠ 0.
Proof. unfold forwardedIp. destruct (_ || _); [done|]. cbv zeta. destruct (Z.eqb_spec (isIP (normalizeIpLiteral s)) 0); [done|]. by intros [= <-]. Qed.

Lemma socketAddress_ip req : requestSocketRemoteAddress req = unknown ∨ isIP (requestSocketRemoteAddress req) ≠ 0.
Proof.
  unfold requestSocketRemoteAddress. destruct (ownOrUndefined req _) as [| | | | | | |p props]; try by left.
  destruct (ownOrUndefined (JObj p props) _) as [| | | |s| | |]; try by left. unfold normalizeRemoteAddress.
  destruct (_ || _); [by left|]. cbv zeta. destruct (Z.eqb_spec (isIP (normalizeIpLiteral s)) 0); [by left|]. by right.
Qed.

(** The entry that is taken from a header: the one before the last [h - 1], if
    there are so many. *)
Lemma forwardedClient_entries req h all :
  all ≠ [] → Forall (λ s, 44 ∉ s) all → rawHeaderValue req (js "x-forwarded-for") = HText (joinWith [44] all) →
  requestForwardedClientAddress req h =
    if isValidForwardedForHeader (joinWith [44] all) then
      if Z.of_nat (length all) <? h then None else entry ← all !! Z.to_nat (Z.of_nat (length all) - h); forwardedIp (trim entry)
    else None.
Proof.
  intros Hne Hc Hh. unfold requestForwardedClientAddress. rewrite Hh. destruct (isValidForwardedForHeader _); [|done].
  destruct all as [|w l]; [done|]. rewrite splitOn_join by done. cbv zeta. rewrite length_map. destruct (_ <? h); [done|].
  rewrite list_lookup_fmap. by destruct ((w :: l) !! _).
Qed.

Lemma validHeader_entry all entry :
  Forall (λ s, 44 ∉ s) all → entry ∈ all → isValidForwardedForHeader (joinWith [44] all) = true → is_Some (forwardedIp (trim entry)).
Proof.
  intros Hc Hin E. unfold isValidForwardedForHeader in E. destruct (_ || _); [done|]. cbv zeta in E. apply andb_prop in E as [_ E].
  destruct all as [|w l]; [by apply not_elem_of_nil in Hin|]. rewrite splitOn_join, forallb_forall in E by done.
  apply (bool_decide_unpack _). by apply Is_true_true, E, list_elem_of_In.
Qed.

Lemma remoteAddress_ip req hops ips : requestRemoteAddress req hops ips = unknown ∨ isIP (requestRemoteAddress req hops ips) ≠ 0.
Proof.
  unfold requestRemoteAddress. destruct (_ || _); [apply socketAddress_ip|].
  destruct (requestForwardedClientAddress req _) as [a|] eqn:E; [|apply socketAddress_ip]. right. revert E. unfold requestForwardedClientAddress.
  destruct (rawHeaderValue _ _) as [| |s]; [done..|]. destruct (isValidForwardedForHeader s); [|done]. cbv zeta. destruct (_ <? _); [done|].
  intros (client & _ & Hf)%bind_Some. by eapply forwardedIp_ip.
Qed.

(** C30. The address of a client is "unknown" or an IP address.  Let the header
    be [all], separated by commas.  If the socket's own address is that of a
    trusted proxy, the header is valid and has at least [h] entries for [h]
    configured proxies, the last [h] of them are what these proxies appended: the
    result is the first of these, an IP address, whatever precedes them, and also
    when nothing does.  In every other case (the socket is not a trusted proxy,
    the header is not valid, has fewer entries, is missing or there twice) it is
    the address of the socket as [requestSocketRemoteAddress] gives it. *)
Theorem client_address_trusted req h ips :
  1 <= h <= 3 →
  let a := requestRemoteAddress req (jint h) ips in
  let socket := requestSocketRemoteAddress req in
  (a = unknown ∨ isIP a ≠ 0) ∧
  (trustedProxyMatches socket ips = false → a = socket) ∧
  ((∀ text, rawHeaderValue req (js "x-forwarded-for") ≠ HText text) → a = socket) ∧
  ∀ all, all ≠ [] → Forall (λ s, 44 ∉ s) all → rawHeaderValue req (js "x-forwarded-for") = HText (joinWith [44] all) →
    (isValidForwardedForHeader (joinWith [44] all) = false ∨ Z.of_nat (length all) < h → a = socket) ∧
    (trustedProxyMatches socket ips = true → isValidForwardedForHeader (joinWith [44] all) = true →
      ∀ before entry entries, all = before ++ entry :: entries → Z.of_nat (length (entry :: entries)) = h → forwardedIp (trim entry) = Some a).
Proof.
  intros Hh a socket. split; [apply remoteAddress_ip|]. unfold a, requestRemoteAddress. fold socket. cbn [trustedProxyHopsInput].
  rewrite (proj2 (Z.leb_le 0 h)), (proj2 (Z.leb_le h 3)) by lia. cbn [andb]. rewrite (proj2 (Z.eqb_neq h 0)) by lia. cbn [orb]. split; [by intros ->|].
  destruct (trustedProxyMatches socket ips); cbn [negb]; [|done]. split.
  { intros Hn. unfold requestForwardedClientAddress. destruct (rawHeaderValue _ _) as [| |text] eqn:E; [done..|]. by destruct (Hn text). }
  intros all Hne Hc Hx. rewrite (forwardedClient_entries _ _ _ Hne Hc Hx). split.
  - intros [->|Hl]; [done|]. rewrite (proj2 (Z.ltb_lt _ _)) by done. by destruct (isValidForwardedForHeader _).
  - intros _ E before entry entries Hall Hl. rewrite E. subst h. assert (entry ∈ all) as Hin by (rewrite Hall; apply elem_of_app; right; by left).
    destruct (validHeader_entry all entry Hc Hin E) as [b Hb]. rewrite (proj2 (Z.ltb_ge _ _)) by (rewrite Hall, length_app; lia).
    assert (all !! Z.to_nat (Z.of_nat (length all) - Z.of_nat (length (entry :: entries))) = Some entry) as ->.
    { rewrite Hall. apply list_lookup_middle. rewrite length_app. lia. }
    cbn [mbind option_bind]. by rewrite Hb.
Qed.

(** [net.Socket] has [remoteAddress] as a getter of its prototype, not as an own
    property: such a socket's address is "unknown", whatever the headers and
    the configuration are. *)
Lemma inherited_address_unknown req hops ips p props :
  ownOrUndefined req (js "socket") = JObj p props → getOwnProperty (KStr (js "remoteAddress")) props = None → isIP unknown = 0 →
  requestRemoteAddress req hops ips = unknown.
Proof.
  intros Hs Hp Hip. assert (requestSocketRemoteAddress req = unknown) as Hu.
  { unfold requestSocketRemoteAddress. rewrite Hs. unfold ownOrUndefined at 1, optionalOwn. cbn [ownProps]. by rewrite Hp. }
  assert (trustedProxyMatches unknown ips = false) as Ht.
  { unfold trustedProxyMatches. destruct ips; try done. destruct (_ || _); [done|]. change (normalizeIpLiteral unknown) with unknown. by rewrite Hip. }
  unfold requestRemoteAddress. by rewrite Hu, Ht, orb_true_r.
Qed.

End Address.

(** ** A concrete request *)

(** Addresses in dotted form, and block lists of single addresses *)
Definition dottedNet : NodeNet :=
  {| isIP s := if isStrictDottedIpv4 s then 4 else 0;
     blockListCheck rules address family := existsb (λ r, bool_decide (rule_address r = address) && bool_decide (rule_prefix r = None)) rules;
     resolveUrl target base := None |}.
Definition digitNumbers : JsToNumber.
Proof. refine {| toNumber s := if allDigits s then NInt (decimalValue s) else NNotFinite |}. by intros s ->. Defined.

Section Witness.
#[local] Existing Instances noUrls asciiCase dottedNet digitNumbers.

(** A request through two proxies, with an entry that the client made up *)
Definition sampleRequest : jsval :=
  obj [(js "rawHeaders", arr [jstr "Host"; jstr "files.example"; jstr "X-Forwarded-For"; jstr "1.1.1.1, 203.0.113.9, 10.0.0.2"]);
       (js "socket", obj [(js "remoteAddress", jstr "::ffff:10.0.0.1")])].

(** The header that proxies alone have written *)
Definition plainRequest : jsval :=
  obj [(js "rawHeaders", arr [jstr "Host"; jstr "files.example"; jstr "X-Forwarded-For"; jstr "203.0.113.9, 10.0.0.2"]);
       (js "socket", obj [(js "remoteAddress", jstr "::ffff:10.0.0.1")])].

Lemma client_address_trusted_witness :
  requestRemoteAddress sampleRequest (jint 2) (arr [jstr "10.0.0.1"]) = js "203.0.113.9" ∧
  requestRemoteAddress plainRequest (jint 2) (arr [jstr "10.0.0.1"]) = js "203.0.113.9".
Proof.
  split.
  - destruct (client_address_trusted sampleRequest 2 (arr [jstr "10.0.0.1"])) as (_ & _ & _ & Hx); [lia|].
    destruct (Hx [js "1.1.1.1"; js " 203.0.113.9"; js " 10.0.0.2"]) as [_ Hexact]; [done| |by vm_compute|].
    + repeat constructor; apply (bool_decide_unpack _); by vm_compute.
    + apply (inj Some). rewrite <-(Hexact (eq_refl _) (eq_refl _) [js "1.1.1.1"] (js " 203.0.113.9") [js " 10.0.0.2"]); by vm_compute.
  - destruct (client_address_trusted plainRequest 2 (arr [jstr "10.0.0.1"])) as (_ & _ & _ & Hx); [lia|].
    destruct (Hx [js "203.0.113.9"; js " 10.0.0.2"]) as [_ Hexact]; [done| |by vm_compute|].
    + repeat constructor; apply (bool_decide_unpack _); by vm_compute.
    + apply (inj Some). rewrite <-(Hexact (eq_refl _) (eq_refl _) [] (js "203.0.113.9") [js " 10.0.0.2"]); by vm_compute.
Defined.

End Witness.
