(* ===== verification/ServerConfig.v ===== *)
(** * ServerConfig: the server's configuration ([src/server/config.ts]).

    [loadServerConfig] reads the environment, an untrusted object, and throws
    or gives a configuration; [iceServersForRequest] and
    [iceServersForUnauthenticatedRequest] read that configuration back as an
    object.  The theorems: what a configuration satisfies, in particular that
    of a public deployment; and which ICE servers are handed out. *)
From S2P Require Import Prelude.
From S2P Require Import Constants.
From S2P Require Import JsText.
From S2P Require Import JsValue.
From S2P Require Import Json.
From S2P Require Import Base64.
From S2P Require Import Authority.
From S2P Require Import Messages.
From S2P Require Import Pake.
From S2P Require Import FileSystem.
From S2P Require Import Ice.
From S2P Require Import HttpRequest.
#[local] Open Scope Z_scope.

Definition MAX_ICE_SERVERS_ENV_BYTES : Z := 128 * 1024.
Definition MAX_ALLOWED_ORIGINS_ENV_BYTES : Z := 16 * 1024.
Definition MAX_TURN_URLS_ENV_BYTES : Z := 8 * 1024.
Definition MAX_TRUSTED_PROXY_IPS_ENV_BYTES : Z := 16 * 1024.
Definition MAX_TURN_REST_SECRET_BYTES : Z := 4096.
Definition MAX_WEB_ROOT_ENV_BYTES : Z := 4096.
Definition MAX_SCALAR_ENV_BYTES : Z := 4096.
Definition MAX_TURN_URLS : Z := 8.
Definition MAX_TURN_URL_CHARS : Z := 512.

(** [SignalingTopology], [TurnRestConfig] and [ServerConfig] *)
Inductive SignalingTopology := SingleInstance | StickySessions.
Record TurnRestConfig := { tr_urls : IceUrls; tr_secret : jsstr; tr_ttlSeconds : Z }.
Record ServerConfig := {
  c_port : Z;
  c_host : jsstr;
  c_production : bool;
  c_hardenedDeployment : bool;
  c_iceServers : list RTCIceServer;
  c_webRoot : jsstr;
  c_allowedOrigins : option (list jsstr);
  c_signalingTopology : option SignalingTopology;
  c_browserAllowAnyWss : bool;
  c_browserAllowLoopbackWs : bool;
  c_trustedProxyHops : Z;
  c_trustedProxyIps : list jsstr;
  c_turnRest : option TurnRestConfig
}.

(** [DEFAULT_ICE_SERVERS] of [src/shared/constants.ts] *)
Definition stunServer (url : string) : RTCIceServer :=
  {| rtc_urls := OneUrl (js url); rtc_username := None; rtc_credential := None; rtc_credentialType := false |}.
Definition DEFAULT_ICE_SERVERS : jsval := rtcServersValue [stunServer "stun:stun.l.google.com:19302"; stunServer "stun:stun.cloudflare.com:3478"].

(** The module's own path ([fileURLToPath(import.meta.url)]), and [createHmac("sha1", secret).update(text).digest()] *)
Class ServerPlatform := { modulePath : jsstr; hmacSha1 : jsstr → jsstr → list Z }.

(** ** Values of the environment *)

(** [assertEnvStringByteLength] *)
Definition assertEnvStringByteLength (raw : jsstr) (name : string) (maxBytes : Z) : result () :=
  if maxBytes <? utf8ByteLength raw then Err (js name ++ js " must be at most " ++ jsInt maxBytes ++ js " bytes.") else Ok ().

(** [requiredEnvString] and [optionalEnvString] *)
Definition requiredEnvString (raw : jsval) (name : string) : result jsstr :=
  match raw with JStr s => Ok s | _ => throw (name ++ " must be a string.")%string end.
Definition optionalEnvString (raw : jsval) (name : string) : result (option jsstr) :=
  match raw with JUndefined => Ok None | _ => s ← requiredEnvString raw name; Ok (Some s) end.

(** An optional text of bounded length, as most functions below begin *)
Definition boundedEnvString (raw : jsval) (name : string) (maxBytes : Z) : result (option jsstr) :=
  value ← optionalEnvString raw name;
  match value with Some s => assertEnvStringByteLength s name maxBytes | None => Ok () end;;
  Ok value.

Definition isBlank (s : jsstr) : bool := bool_decide (trim s = []).

(** [envValue] *)
Definition envValue (env : jsval) (name : string) : result jsval :=
  match env with
  | JObj _ _ => optionalData env (js name) (name ++ " must be a data property.")%string
  | _ => throw "Server environment is invalid."
  end.

(** [parseProductionEnv] *)
Definition parseProductionEnv (raw : jsval) : result bool :=
  let message := "NODE_ENV must be exactly production, development, test, or unset." in
  value ← boundedEnvString raw "NODE_ENV" MAX_SCALAR_ENV_BYTES;
  match value with
  | None | Some [] => Ok false
  | Some value =>
    check (bool_decide (value = trim value)) message;;
    if bool_decide (value = js "production") then Ok true
    else if bool_decide (value = js "development" ∨ value = js "test") then Ok false
    else throw message
  end.

(** [parseSignalingTopology] *)
Definition parseSignalingTopology (raw : jsval) : result (option SignalingTopology) :=
  let message := "SIGNALING_TOPOLOGY must be single-instance or sticky-sessions." in
  value ← boundedEnvString raw "SIGNALING_TOPOLOGY" MAX_SCALAR_ENV_BYTES;
  match value with
  | None => Ok None
  | Some value =>
    if isBlank value then Ok None
    else
      check (bool_decide (value = trim value)) message;;
      if bool_decide (value = js "single-instance") then Ok (Some SingleInstance)
      else if bool_decide (value = js "sticky-sessions") then Ok (Some StickySessions)
      else throw message
  end.

(** [parseTrustedProxyHops], [parsePort] and [parseTurnTtl]: a decimal number in
    a range, or a default.  ([Number] of more digits than a double holds is
    above every such range, as the number itself is.) *)
Definition parseDecimal (raw : jsval) (name : string) (default lo hi : Z) (message : string) : result Z :=
  value ← boundedEnvString raw name MAX_SCALAR_ENV_BYTES;
  match value with
  | None => Ok default
  | Some value =>
    if isBlank value then Ok default
    else
      check (allDigits value) message;;
      check ((lo <=? decimalValue value) && (decimalValue value <=? hi)) message;;
      Ok (decimalValue value)
  end.
Definition parseTrustedProxyHops (raw : jsval) : result Z :=
  parseDecimal raw "TRUSTED_PROXY_HOPS" 0 0 3 "TRUSTED_PROXY_HOPS must be an integer between 0 and 3.".
Definition parsePort (raw : jsval) : result Z := parseDecimal raw "PORT" 8787 1 65535 "PORT must be an integer between 1 and 65535.".
Definition parseTurnTtl (raw : jsval) : result Z :=
  parseDecimal raw "TURN_TTL_SECONDS" 3600 60 86400 "TURN_TTL_SECONDS must be an integer between 60 and 86400.".

(** [parseBooleanEnv] *)
Definition parseBooleanEnv (raw : jsval) (name : string) : result bool :=
  value ← boundedEnvString raw name MAX_SCALAR_ENV_BYTES;
  match value with
  | None => Ok false
  | Some value =>
    if isBlank value then Ok false
    else if bool_decide (value = js "true") then Ok true
    else if bool_decide (value = js "false") then Ok false
    else throw (name ++ " must be true or false.")%string
  end.

(** The loops of [parseTrustedProxyIpList] and [parseAllowedOriginList]: the
    entries between commas, up to 32, each accepted by [ok] *)
Fixpoint listEntries (parts : list jsstr) (count : Z) (ok : jsstr → bool) (tooMany empty invalid : string) : result (list jsstr) :=
  match parts with
  | [] => Ok []
  | part :: parts =>
    check (negb (32 <=? count)) tooMany;;
    check (negb (bool_decide (part = []))) empty;;
    check (ok part) invalid;;
    rest ← listEntries parts (count + 1) ok tooMany empty invalid;
    Ok (part :: rest)
  end.

(** [parseTrustedProxyIpList] *)
Definition parseTrustedProxyIpList (raw : jsstr) : result (list jsstr) :=
  if isBlank raw then Ok []
  else listEntries (splitOn 44 raw) 0 (λ source, bool_decide (source = trim source) && negb (hasControlOrFormat source))
    "TRUSTED_PROXY_IPS may contain at most 32 IP addresses or CIDR ranges." "TRUSTED_PROXY_IPS entries must not be empty."
    "TRUSTED_PROXY_IPS entries must not contain whitespace, separators, control characters, or format characters.".

(** [parseAllowedOriginList] *)
Definition invalidOriginEntry : string :=
  "ALLOWED_ORIGINS entries must not contain whitespace, separators, control characters, or format characters.".
Definition parseAllowedOriginList (raw : jsstr) : result (list jsstr) :=
  if isBlank raw then Ok []
  else listEntries (splitOn 44 raw) 0 (λ origin, bool_decide (origin = trim origin))
    "ALLOWED_ORIGINS may contain at most 32 origins." "ALLOWED_ORIGINS entries must not be empty." invalidOriginEntry.

(** [list.map(f)] of a function that may throw *)
Fixpoint mapResult {A B} (f : A → result B) (l : list A) : result (list B) :=
  match l with
  | [] => Ok []
  | a :: l => b ← f a; bs ← mapResult f l; Ok (b :: bs)
  end.

(** [assertTrustedProxyPolicy] *)
Definition assertTrustedProxyPolicy (hops : Z) (trustedProxyIps : list jsstr) : result () :=
  check (negb ((0 <? hops) && bool_decide (trustedProxyIps = []))) "TRUSTED_PROXY_IPS is required when TRUSTED_PROXY_HOPS is enabled.";;
  check (negb ((hops =? 0) && negb (bool_decide (trustedProxyIps = [])))) "TRUSTED_PROXY_HOPS must be enabled when TRUSTED_PROXY_IPS is set.".

(** ** URLs *)

(** [hasUrlCredentials] *)
Definition isSchemeUnit (c : Z) : bool := isAlpha c || isDigit c || bool_decide (c ∈ [43; 46; 45]).
Definition hasUrlCredentials (url : jsstr) : bool :=
  let scheme := takeWhile (λ c, negb (c =? 58)) url in
  match scheme, dropWhile (λ c, negb (c =? 58)) url with
  | c :: _, _ :: rest => isAlpha c && forallb isSchemeUnit scheme && includesUnit 64 (takeWhile (λ c, negb (bool_decide (c ∈ [47; 63; 35]))) rest)
  | _, _ => false
  end.

(** The test of the scheme in [isPublicStunUrl] *)
Definition isStunIceUrl (url : jsstr) : bool :=
  startsWith (js "stun:") (map asciiLowerUnit url) || startsWith (js "stuns:") (map asciiLowerUnit url).

(** [hasStaticTurnCredential] *)
Definition hasStaticTurnCredential (server : RTCIceServer) : bool :=
  existsb (λ url, isTurnIceUrl url &&
    (bool_decide (is_Some (rtc_username server)) || bool_decide (is_Some (rtc_credential server)) || hasUrlCredentials url)) (urlList (rtc_urls server)).

(** [assertNoHardenedStaticTurnCredentials] *)
Definition assertNoHardenedStaticTurnCredentials (iceServers : list RTCIceServer) (hardenedDeployment : bool) : result () :=
  check (negb (hardenedDeployment && existsb hasStaticTurnCredential iceServers))
    "Static TURN credentials in ICE_SERVERS are disabled for public deployments. Use TURN_REST_SECRET and TURN_URLS for ephemeral credentials.".

(** [assertNoUnsupportedOriginBypass] *)
Definition assertNoUnsupportedOriginBypass (env : jsval) : result () :=
  raw ← envValue env "ALLOW_ANY_ORIGIN";
  check (isUndefined raw || isLit raw [] || isLit raw (js "false")) "ALLOW_ANY_ORIGIN is not supported. Set an explicit ALLOWED_ORIGINS allowlist.".

(** [assertRequiredOriginPolicy], [assertRequiredSignalingTopology] and [assertHardenedSecureOrigins] *)
Definition assertRequiredOriginPolicy (allowedOrigins : option (list jsstr)) (hardenedDeployment : bool) : result () :=
  check (bool_decide (is_Some allowedOrigins) || negb hardenedDeployment) "ALLOWED_ORIGINS is required for public deployments.".
Definition assertRequiredSignalingTopology (topology : option SignalingTopology) (hardenedDeployment : bool) : result () :=
  match topology with
  | Some _ => Ok ()
  | None => check (negb hardenedDeployment) "SIGNALING_TOPOLOGY must be single-instance or sticky-sessions for public deployments."
  end.
Definition assertHardenedSecureOrigins (allowedOrigins : option (list jsstr)) (hardenedDeployment allowInsecureOrigins : bool) : result () :=
  if negb hardenedDeployment || allowInsecureOrigins then Ok ()
  else check (negb (existsb (startsWith (js "http://")) (default [] allowedOrigins)))
    "Public ALLOWED_ORIGINS entries must use https. Set ALLOW_INSECURE_ORIGINS=true only for private deployments.".

(** [parseBrowserLoopbackWs] *)
Definition parseBrowserLoopbackWs (env : jsval) (hardenedDeployment : bool) : result bool :=
  value ← envValue env "BROWSER_ALLOW_LOOPBACK_WS";
  raw ← boundedEnvString value "BROWSER_ALLOW_LOOPBACK_WS" MAX_SCALAR_ENV_BYTES;
  match raw with
  | Some raw => if isBlank raw then Ok (negb hardenedDeployment) else parseBooleanEnv (JStr raw) "BROWSER_ALLOW_LOOPBACK_WS"
  | None => Ok (negb hardenedDeployment)
  end.

(** [assertTurnRestPublicIssuanceAcknowledged] *)
Definition assertTurnRestPublicIssuanceAcknowledged (env : jsval) (hardenedDeployment : bool) : result () :=
  raw ← envValue env "TURN_REST_ALLOW_UNVERIFIED_ACCEPT";
  acknowledgement ← parseBooleanEnv raw "TURN_REST_ALLOW_UNVERIFIED_ACCEPT";
  check (acknowledgement || negb hardenedDeployment)
    "TURN_REST_ALLOW_UNVERIFIED_ACCEPT=true is required before enabling TURN REST credentials in public deployments.".

Section Config.
Context `{UrlParser, JsCase, NodeNet, JsNumbers, WorkingDirectory, ServerPlatform}.

(** [normalizeIpLiteral] of config.ts, which throws unless it has an address *)
Definition requireIpLiteral (address : jsstr) (message : string) : result jsstr :=
  let value := normalizeIpLiteral address in
  check (negb (isIP value =? 0)) message;;
  Ok value.

(** [parseTrustedProxySource] *)
Definition parseTrustedProxySource (source : jsstr) : result jsstr :=
  let invalidSource := "TRUSTED_PROXY_IPS entries must be IP addresses or CIDR ranges." in
  let invalidPrefix := "TRUSTED_PROXY_IPS CIDR prefixes are invalid." in
  let slash := indexOf 47 source in
  if slash <? 0 then requireIpLiteral source invalidSource
  else
    check (slash =? lastIndexOf 47 source) invalidSource;;
    address ← requireIpLiteral (slice 0 slash source) invalidSource;
    let prefixText := slice (slash + 1) (jslen source) source in
    check (allDigits prefixText) invalidPrefix;;
    let prefix := decimalValue prefixText in
    let maxPrefix := if isIP address =? 4 then 32 else 128 in
    check (prefix <=? maxPrefix) invalidPrefix;;
    check (negb (prefix =? 0)) "TRUSTED_PROXY_IPS CIDR ranges must not trust every address.";;
    Ok (address ++ js "/" ++ jsInt prefix).

(** [parseTrustedProxyIps] *)
Definition parseTrustedProxyIps (raw : jsval) : result (list jsstr) :=
  value ← boundedEnvString raw "TRUSTED_PROXY_IPS" MAX_TRUSTED_PROXY_IPS_ENV_BYTES;
  match value with
  | None => Ok []
  | Some value => sources ← parseTrustedProxyIpList value; mapResult parseTrustedProxySource sources
  end.

(** [parseHost]; the pattern is tested on code units. *)
Definition isUnsafeHostUnit (c : Z) : bool := (c <=? 31) || (c =? 127) || isSpace c || (c =? 47) || (c =? 92).
Definition parseHost (raw : jsval) : result jsstr :=
  let message := "HOST must be a hostname or IP address, not a URL or path." in
  value ← boundedEnvString raw "HOST" MAX_SCALAR_ENV_BYTES;
  match value with
  | None | Some [] => Ok (js "127.0.0.1")
  | Some host =>
    check (bool_decide (host = trim host)) message;;
    check (negb ((253 <? jslen host) || existsb isUnsafeHostUnit host || includesText (js "://") host)) message;;
    check (isValidHostNameOrIp host) message;;
    Ok host
  end.

(** [isLoopbackBindHost] *)
Definition isLoopbackBindHost (host : jsstr) : bool := bool_decide (host = js "::1") || isLoopbackAuthority host.

(** [parseOrigin] *)
Definition isHttpProtocol (parsed : Url) : bool := bool_decide (url_protocol parsed = js "http:" ∨ url_protocol parsed = js "https:").
Definition parseOrigin (origin : jsstr) : result jsstr :=
  check (negb (hasUnsafeOriginChars origin)) invalidOriginEntry;;
  match parseUrl origin with
  | None => throw "ALLOWED_ORIGINS entries must be exact URL origins."
  | Some parsed =>
    check (bool_decide (url_origin parsed = origin ∧ url_username parsed = [] ∧ url_password parsed = [] ∧ url_pathname parsed = js "/" ∧
             url_search parsed = [] ∧ url_hash parsed = [])) "ALLOWED_ORIGINS entries must be exact URL origins.";;
    check (isHttpProtocol parsed) "ALLOWED_ORIGINS entries must use http or https.";;
    check (negb (bool_decide (url_port parsed = js "0"))) "ALLOWED_ORIGINS entries must not use port 0.";;
    check (isValidOriginHostname (url_hostname parsed)) "ALLOWED_ORIGINS entries must contain valid hostnames or IP addresses.";;
    Ok (url_origin parsed)
  end.

(** [parseAllowedOrigins] *)
Definition parseAllowedOrigins (raw : jsval) : result (option (list jsstr)) :=
  value ← boundedEnvString raw "ALLOWED_ORIGINS" MAX_ALLOWED_ORIGINS_ENV_BYTES;
  match value with
  | None => Ok None
  | Some value =>
    origins ← parseAllowedOriginList value;
    match origins with
    | [] => Ok None
    | _ => parsed ← mapResult parseOrigin origins; Ok (Some parsed)
    end
  end.

(** [originUsesLoopbackAuthority] *)
Definition originUsesLoopbackAuthority (origin : jsstr) : bool :=
  if (jslen origin =? 0) || (MAX_ORIGIN_HEADER_BYTES <? jslen origin) || utf8ByteLengthExceeds origin MAX_ORIGIN_HEADER_BYTES || hasUnsafeOriginChars origin then false
  else match parseUrl origin with
       | Some parsed =>
         isHttpProtocol parsed && bool_decide (url_origin parsed = origin) && negb (bool_decide (url_port parsed = js "0")) && isLoopbackAuthority (url_host parsed)
       | None => false
       end.

(** [hasPublicAllowedOrigin] and [hardenedDeploymentRequired] *)
Definition hasPublicAllowedOrigin (allowedOrigins : option (list jsstr)) : bool :=
  existsb (λ origin, negb (originUsesLoopbackAuthority origin)) (default [] allowedOrigins).
Definition hardenedDeploymentRequired (production : bool) (host : jsstr) (allowedOrigins : option (list jsstr)) (trustedProxyHops : Z) : bool :=
  production || negb (isLoopbackBindHost host) || (0 <? trustedProxyHops) || hasPublicAllowedOrigin allowedOrigins.

(** [parseIceServers] *)
Definition parseIceServers (raw : jsval) : result (list RTCIceServer) :=
  value ← boundedEnvString raw "ICE_SERVERS" MAX_ICE_SERVERS_ENV_BYTES;
  match value with
  | None => cloneIceServers DEFAULT_ICE_SERVERS
  | Some value =>
    if isBlank value then cloneIceServers DEFAULT_ICE_SERVERS
    else match jsonParse value with
         | None => throw "ICE_SERVERS must be valid JSON."
         | Some parsed =>
           check (isIceServers parsed) "ICE_SERVERS must be an array of STUN/TURN server objects.";;
           cloneIceServers parsed
         end
  end.

(** [isTurnUrl] of config.ts and [isPublicStunUrl] *)
Definition isBoundedIceUrl (url : jsstr) : bool :=
  (0 <? jslen url) && (jslen url <=? MAX_TURN_URL_CHARS) && negb (hasControlFormatOrSpace url) &&
  match iceUrlAuthority url with Some authority => isValidAuthority authority | None => false end.
Definition isTurnUrlText (url : jsstr) : bool := isTurnIceUrl url && isBoundedIceUrl url.
Definition isPublicStunUrl (url : jsstr) : bool := isStunIceUrl url && isBoundedIceUrl url.

(** [parseTurnUrlArray] *)
Fixpoint turnUrlArray (n : nat) (value : jsval) (index : Z) : option (list jsstr) :=
  match n with
  | O => Some []
  | S n => match ownArrayDataValue value index with
           | JStr url => urls ← turnUrlArray n value (index + 1); Some (url :: urls)
           | _ => None
           end
  end.
Definition parseTurnUrlArray (value : jsval) : option (list jsstr) :=
  match value with
  | JArr items => if (Z.of_nat (length items) =? 0) || (MAX_TURN_URLS <? Z.of_nat (length items)) then None else turnUrlArray (length items) value 0
  | _ => None
  end.

(** The loop of [parseTurnUrls] *)
Definition invalidTurnUrls : string := "TURN_URLS must be a TURN URL string or JSON array of TURN URL strings.".
Fixpoint assertTurnUrls (list : Datatypes.list jsstr) : result () :=
  match list with
  | [] => Ok ()
  | url :: list =>
    check (negb (hasUrlCredentials url)) "TURN_URLS must not embed credentials. Use TURN_REST_SECRET for ephemeral TURN credentials.";;
    check (isTurnUrlText url) invalidTurnUrls;;
    assertTurnUrls list
  end.

(** [parseTurnUrls] *)
Definition parseTurnUrls (raw : jsstr) : result IceUrls :=
  assertEnvStringByteLength raw "TURN_URLS" MAX_TURN_URLS_ENV_BYTES;;
  let urls :=
    match default (JStr raw) (jsonParse raw) with
    | JStr url => Some (OneUrl url)
    | parsed => UrlList <$> parseTurnUrlArray parsed
    end in
  match urls with
  | None => throw invalidTurnUrls
  | Some urls => assertTurnUrls (urlList urls);; Ok urls
  end.

(** [parseTurnRestConfig] *)
Definition parseTurnRestConfig (env : jsval) (hardenedDeployment : bool) : result (option TurnRestConfig) :=
  rawSecret ← envValue env "TURN_REST_SECRET";
  secret ← optionalEnvString rawSecret "TURN_REST_SECRET";
  rawTurnUrls ← envValue env "TURN_URLS";
  rawUrls ← optionalEnvString rawTurnUrls "TURN_URLS";
  match secret with Some s => assertEnvStringByteLength s "TURN_REST_SECRET" MAX_TURN_REST_SECRET_BYTES | None => Ok () end;;
  match rawUrls with Some s => assertEnvStringByteLength s "TURN_URLS" MAX_TURN_URLS_ENV_BYTES | None => Ok () end;;
  match default [] secret, trim (default [] rawUrls) with
  | [], [] => Ok None
  | [], _ | _, [] => throw "TURN_REST_SECRET and TURN_URLS must be set together."
  | secret, trimmedUrls =>
    assertTurnRestPublicIssuanceAcknowledged env hardenedDeployment;;
    let secretBytes := utf8ByteLength secret in
    check (TURN_REST_SECRET_MIN_BYTES <=? secretBytes) "TURN_REST_SECRET must be at least 32 bytes.";;
    check (secretBytes <=? MAX_TURN_REST_SECRET_BYTES) "TURN_REST_SECRET must be at most 4096 bytes.";;
    check (negb (hasControlOrFormat secret)) "TURN_REST_SECRET must not contain control characters or format characters.";;
    urls ← parseTurnUrls trimmedUrls;
    rawTtl ← envValue env "TURN_TTL_SECONDS";
    ttlSeconds ← parseTurnTtl rawTtl;
    Ok (Some {| tr_urls := urls; tr_secret := secret; tr_ttlSeconds := ttlSeconds |})
  end.

(** [parseWebRoot] and [defaultWebRoot] *)
Definition defaultWebRoot : jsstr := resolvePath (dirname modulePath ++ js "/" ++ js "../../dist-web").
Definition parseWebRoot (raw : jsval) : result jsstr :=
  value ← boundedEnvString raw "WEB_ROOT" MAX_WEB_ROOT_ENV_BYTES;
  match value with
  | None => Ok defaultWebRoot
  | Some value =>
    if isBlank value then Ok defaultWebRoot
    else
      check (negb (hasControlOrFormat value)) "WEB_ROOT must not contain control characters or format characters.";;
      Ok (resolvePath value)
  end.

(** [loadServerConfig] *)
Definition loadServerConfig (env : jsval) : result ServerConfig :=
  production ← (raw ← envValue env "NODE_ENV"; parseProductionEnv raw);
  host ← (raw ← envValue env "HOST"; parseHost raw);
  allowedOrigins ← (raw ← envValue env "ALLOWED_ORIGINS"; parseAllowedOrigins raw);
  signalingTopology ← (raw ← envValue env "SIGNALING_TOPOLOGY"; parseSignalingTopology raw);
  trustedProxyHops ← (raw ← envValue env "TRUSTED_PROXY_HOPS"; parseTrustedProxyHops raw);
  trustedProxyIps ← (raw ← envValue env "TRUSTED_PROXY_IPS"; parseTrustedProxyIps raw);
  assertTrustedProxyPolicy trustedProxyHops trustedProxyIps;;
  let hardenedDeployment := hardenedDeploymentRequired production host allowedOrigins trustedProxyHops in
  iceServers ← (raw ← envValue env "ICE_SERVERS"; parseIceServers raw);
  assertNoHardenedStaticTurnCredentials iceServers hardenedDeployment;;
  assertNoUnsupportedOriginBypass env;;
  allowInsecureOrigins ← (raw ← envValue env "ALLOW_INSECURE_ORIGINS"; parseBooleanEnv raw "ALLOW_INSECURE_ORIGINS");
  assertRequiredOriginPolicy allowedOrigins hardenedDeployment;;
  assertRequiredSignalingTopology signalingTopology hardenedDeployment;;
  assertHardenedSecureOrigins allowedOrigins hardenedDeployment allowInsecureOrigins;;
  port ← (raw ← envValue env "PORT"; parsePort raw);
  webRoot ← (raw ← envValue env "WEB_ROOT"; parseWebRoot raw);
  browserAllowAnyWss ← (raw ← envValue env "BROWSER_ALLOW_ANY_WSS"; parseBooleanEnv raw "BROWSER_ALLOW_ANY_WSS");
  browserAllowLoopbackWs ← parseBrowserLoopbackWs env hardenedDeployment;
  turnRest ← parseTurnRestConfig env hardenedDeployment;
  Ok {| c_port := port; c_host := host; c_production := production; c_hardenedDeployment := hardenedDeployment; c_iceServers := iceServers;
        c_webRoot := webRoot; c_allowedOrigins := allowedOrigins; c_signalingTopology := signalingTopology;
        c_browserAllowAnyWss := browserAllowAnyWss; c_browserAllowLoopbackWs := browserAllowLoopbackWs; c_trustedProxyHops := trustedProxyHops;
        c_trustedProxyIps := trustedProxyIps; c_turnRest := turnRest |}.

(** ** Origins *)

(** [originAllowed], [originAllowedForRequest] and [corsHeaders]; an origin is
    a header value: undefined, null or a string. *)
Definition allowedOriginContains (allowedOrigins : list jsstr) (origin : jsstr) : bool :=
  (Z.of_nat (length allowedOrigins) <=? 32) && bool_decide (origin ∈ allowedOrigins).
Definition originAllowed (origin : header) (allowedOrigins : option (list jsstr)) : bool :=
  match origin, allowedOrigins with
  | HNull, _ => false
  | _, None => true
  | HUndefined, Some _ => false
  | HText origin, Some allowed => allowedOriginContains allowed origin
  end.
Definition originAllowedForRequest (origin : header) (allowedOrigins : option (list jsstr)) (requestAuthority : option jsstr) : bool :=
  if negb (originAllowed origin allowedOrigins) then false
  else match origin, allowedOrigins with
       | _, Some _ | HUndefined, _ => true
       | HText origin, None =>
         match requestAuthority with Some authority => isLoopbackAuthority authority && originUsesLoopbackAuthority origin | None => false end
       | HNull, None => false
       end.
Definition corsHeaders (origin : header) (allowedOrigins : option (list jsstr)) : option (list (jsstr * jsstr)) :=
  match origin, allowedOrigins with
  | HNull, _ => None
  | _, None => Some [(js "access-control-allow-origin", js "*")]
  | HUndefined, Some _ => Some []
  | HText origin, Some allowed =>
    if allowedOriginContains allowed origin then Some [(js "access-control-allow-origin", origin); (js "vary", js "Origin")] else None
  end.

(** ** ICE servers for clients *)

Definition invalidConfig : string := "Server config is invalid.".
Definition fieldsMessage : string := "Server config fields must be data properties.".
Definition turnMessage : string := "TURN REST config is invalid.".
Definition isConfigObject (config : jsval) : result () := check (match config with JObj _ _ => true | _ => false end) invalidConfig.

(** [configIceServers] *)
Definition configIceServers (config : jsval) : result (list RTCIceServer) :=
  isConfigObject config;;
  servers ← requiredData config (js "iceServers") invalidConfig invalidConfig;
  cloneIceServers servers.

(** [assertRuntimeTurnUrlList], [cloneTurnRestUrls] *)
Definition isRuntimeTurnUrl (url : jsval) : bool := onString (λ url, isTurnUrlText url && negb (hasUrlCredentials url)) url.
Fixpoint turnRestUrlValues (n : nat) (value : jsval) (index : Z) : result (list jsval) :=
  match n with
  | O => Ok []
  | S n => url ← requiredData value (jsInt index) turnMessage turnMessage; urls ← turnRestUrlValues n value (index + 1); Ok (url :: urls)
  end.
Definition cloneTurnRestUrls (value : jsval) : result IceUrls :=
  match value with
  | JStr url => check (isRuntimeTurnUrl value) turnMessage;; Ok (OneUrl url)
  | JArr items =>
    check (negb ((Z.of_nat (length items) =? 0) || (MAX_TURN_URLS <? Z.of_nat (length items)))) turnMessage;;
    urls ← turnRestUrlValues (length items) value 0;
    check (forallb isRuntimeTurnUrl urls) turnMessage;;
    Ok (UrlList (omap optionalText urls))
  | _ => throw turnMessage
  end.

(** [cloneTurnRestConfig] with [assertRuntimeTurnSecret] and [assertRuntimeTurnTtl] *)
Definition cloneTurnRestConfig (value : jsval) : result TurnRestConfig :=
  check (match value with JObj _ _ => true | _ => false end) turnMessage;;
  rawUrls ← requiredData value (js "urls") turnMessage turnMessage;
  urls ← cloneTurnRestUrls rawUrls;
  secret ← requiredData value (js "secret") turnMessage turnMessage;
  ttlSeconds ← requiredData value (js "ttlSeconds") turnMessage turnMessage;
  match secret with
  | JStr secret =>
    check (negb ((utf8ByteLength secret <? TURN_REST_SECRET_MIN_BYTES) || (MAX_TURN_REST_SECRET_BYTES <? utf8ByteLength secret) || hasControlOrFormat secret)) turnMessage;;
    match ttlSeconds with
    | jint ttlSeconds =>
      check ((60 <=? ttlSeconds) && (ttlSeconds <=? 86400)) turnMessage;;
      Ok {| tr_urls := urls; tr_secret := secret; tr_ttlSeconds := ttlSeconds |}
    | _ => throw turnMessage
    end
  | _ => throw turnMessage
  end.

(** [configTurnRest] and [hasTurnRestConfig] *)
Definition configTurnRest (config : jsval) : result (option TurnRestConfig) :=
  isConfigObject config;;
  turnRest ← optionalData config (js "turnRest") fieldsMessage;
  if isUndefined turnRest then Ok None else t ← cloneTurnRestConfig turnRest; Ok (Some t).
Definition hasTurnRestConfig (config : jsval) : result bool := t ← configTurnRest config; Ok (bool_decide (is_Some t)).

(** [turnCredentialExpiresAt], with [Date.now()], an integer *)
Definition turnCredentialExpiresAt (now ttlSeconds : Z) : result Z :=
  check (negb ((now <? 0) || (MAX_SAFE_INTEGER <? now))) "TURN credential timestamp is invalid.";;
  Ok (now / 1000 + ttlSeconds).

(** [iceServersForRequest], with the bytes that [randomBytes(8)] draws *)
Definition iceServersForRequest (config : jsval) (now : Z) (random : list Z) : result (list RTCIceServer) :=
  iceServers ← configIceServers config;
  turnRest ← configTurnRest config;
  match turnRest with
  | None => Ok iceServers
  | Some turnRest =>
    expires ← turnCredentialExpiresAt now (tr_ttlSeconds turnRest);
    let username := jsInt expires ++ js ":" ++ bytesToHex random in
    let credential := bytesToBase64 (hmacSha1 (tr_secret turnRest) username) in
    Ok (iceServers ++ [{| rtc_urls := tr_urls turnRest; rtc_username := Some username; rtc_credential := Some credential; rtc_credentialType := false |}])
  end.

(** [urls: publicUrls.length === 1 ? publicUrls[0] : publicUrls] *)
Definition publicServer (publicUrls : list jsstr) : option RTCIceServer :=
  match publicUrls with
  | [] => None
  | [url] => Some {| rtc_urls := OneUrl url; rtc_username := None; rtc_credential := None; rtc_credentialType := false |}
  | _ => Some {| rtc_urls := UrlList publicUrls; rtc_username := None; rtc_credential := None; rtc_credentialType := false |}
  end.

(** [publicIceServer] *)
Definition publicIceServer (server : RTCIceServer) : option RTCIceServer := publicServer (filter (λ url, isPublicStunUrl url = true) (urlList (rtc_urls server))).

(** [runtimeStringArray]; [None] is its undefined *)
Fixpoint runtimeStrings (n : nat) (value : jsval) (index : Z) : result (option (list jsstr)) :=
  match n with
  | O => Ok (Some [])
  | S n =>
    match getOwnProperty (KStr (jsInt index)) (ownProps value) with
    | Some (PData _ (JStr s)) => rest ← runtimeStrings n value (index + 1); Ok (urls ← rest; Some (s :: urls))
    | Some (PData _ _) => Ok None
    | _ => throw fieldsMessage
    end
  end.
Definition runtimeStringArray (value : jsval) : result (option (list jsstr)) :=
  match value with
  | JArr items => if (Z.of_nat (length items) <? 1) || (8 <? Z.of_nat (length items)) then Ok None else runtimeStrings (length items) value 0
  | _ => Ok None
  end.

(** [publicIceServerFromRuntimeValue] *)
Definition publicIceServerFromRuntimeValue (value : jsval) : result (option RTCIceServer) :=
  match value with
  | JObj _ _ =>
    rawUrls ← requiredData value (js "urls") fieldsMessage fieldsMessage;
    urls ← match rawUrls with JStr url => Ok (Some [url]) | _ => runtimeStringArray rawUrls end;
    Ok (match urls with Some urls => publicServer (filter (λ url, isPublicStunUrl url = true) urls) | None => None end)
  | _ => Ok None
  end.

(** The loop of [publicConfigIceServers] *)
Fixpoint publicServers (n : nat) (rawServers : jsval) (index : Z) : result (list RTCIceServer) :=
  match n with
  | O => Ok []
  | S n =>
    match getOwnProperty (KStr (jsInt index)) (ownProps rawServers) with
    | Some (PData _ value) =>
      server ← publicIceServerFromRuntimeValue value;
      rest ← publicServers n rawServers (index + 1);
      Ok (option_list server ++ rest)
    | _ => throw fieldsMessage
    end
  end.

(** [publicConfigIceServers] *)
Definition publicConfigIceServers (config : jsval) : result (list RTCIceServer) :=
  isConfigObject config;;
  rawServers ← requiredData config (js "iceServers") invalidConfig invalidConfig;
  match rawServers with
  | JArr items =>
    check (Z.of_nat (length items) <=? 16) invalidConfig;;
    publicServers (length items) rawServers 0
  | _ => throw invalidConfig
  end.

(** [iceServersForUnauthenticatedRequest] *)
Definition iceServersForUnauthenticatedRequest (config : jsval) : result (list RTCIceServer) :=
  servers ← publicConfigIceServers config;
  match omap publicIceServer servers with
  | [] => cloneIceServers DEFAULT_ICE_SERVERS
  | l => Ok l
  end.

End Config.

(** The configuration as the object that these functions are given *)
Definition topologyValue (t : SignalingTopology) : jsval := match t with SingleInstance => jstr "single-instance" | StickySessions => jstr "sticky-sessions" end.
Definition turnRestValue (t : TurnRestConfig) : jsval :=
  obj [(js "urls", rtcUrlsValue (tr_urls t)); (js "secret", JStr (tr_secret t)); (js "ttlSeconds", jint (tr_ttlSeconds t))].
Definition configValue (c : ServerConfig) : jsval :=
  obj [(js "port", jint (c_port c)); (js "host", JStr (c_host c)); (js "production", JBool (c_production c));
       (js "hardenedDeployment", JBool (c_hardenedDeployment c)); (js "iceServers", rtcServersValue (c_iceServers c));
       (js "webRoot", JStr (c_webRoot c)); (js "allowedOrigins", from_option (arr ∘ map JStr) JUndefined (c_allowedOrigins c));
       (js "signalingTopology", from_option topologyValue JUndefined (c_signalingTopology c));
       (js "browserAllowAnyWss", JBool (c_browserAllowAnyWss c)); (js "browserAllowLoopbackWs", JBool (c_browserAllowLoopbackWs c));
       (js "trustedProxyHops", jint (c_trustedProxyHops c)); (js "trustedProxyIps", arr (map JStr (c_trustedProxyIps c)));
       (js "turnRest", from_option turnRestValue JUndefined (c_turnRest c))].
