(* ===== verification/ServerConfigProps.v ===== *)
(** * ServerConfigProps: what a configuration satisfies, and which ICE servers
    clients are given. *)
From S2P Require Import Prelude.
From S2P Require Import Constants.
From S2P Require Import JsText.
From S2P Require Import JsValue.
From S2P Require Import Json.
From S2P Require Import Base64.
From S2P Require Import Authority.
From S2P Require Import Messages.
From S2P Require Import Pake.
From S2P Require Import FileSystem.
From S2P Require Import Ice.
From S2P Require Import HttpRequest.
From S2P Require Import ServerConfig.
#[local] Open Scope Z_scope.

(** ** Lists and numbers *)

Lemma boundedEnvString_ok raw name maxBytes o : boundedEnvString raw name maxBytes = Ok o → raw = from_option JStr JUndefined o.
Proof.
  unfold boundedEnvString. intros (v & Hv & (_ & _ & Ho)%result_bind_ok)%result_bind_ok. apply (inj Ok) in Ho as <-.
  unfold optionalEnvString, requiredEnvString in Hv. destruct raw; try done; by apply (inj Ok) in Hv as <-.
Qed.

Lemma parseDecimal_ok raw name default lo hi message n :
  lo <= default <= hi → parseDecimal raw name default lo hi message = Ok n → lo <= n <= hi.
Proof.
  intros Hd. unfold parseDecimal. intros (v & _ & Ho)%result_bind_ok. destruct v as [v|]; [|by apply (inj Ok) in Ho as <-].
  destruct (isBlank v); [by apply (inj Ok) in Ho as <-|]. rewrite !check_bind_ok, andb_true_iff, !Z.leb_le in Ho. destruct Ho as (_ & Hr & Ho). by apply (inj Ok) in Ho as <-.
Qed.

Lemma parseBooleanEnv_true raw name : parseBooleanEnv raw name = Ok true → raw = jstr "true".
Proof.
  unfold parseBooleanEnv. intros (v & ->%boundedEnvString_ok & Ho)%result_bind_ok. destruct v as [v|]; [|done].
  destruct (isBlank v); [done|]. case_bool_decide as E; [by subst|]. by case_bool_decide.
Qed.

Lemma listEntries_ok parts count ok t e i out :
  0 <= count <= 32 → listEntries parts count ok t e i = Ok out →
  out = parts ∧ count + Z.of_nat (length parts) <= 32 ∧ Forall (λ s, s ≠ [] ∧ ok s = true) parts.
Proof.
  revert count out. induction parts as [|p parts IH]; intros count out Hc; cbn [listEntries length].
  { intros Ho. apply (inj Ok) in Ho as <-. split_and!; [done|lia|constructor]. }
  rewrite !check_bind_ok, !negb_true_iff, Z.leb_gt, bool_decide_eq_false. intros (Hn & Hne & Hok & (rest & Hr & Ho)%result_bind_ok).
  apply (inj Ok) in Ho as <-. destruct (IH (count + 1) rest ltac:(lia) Hr) as (-> & Hl & HF). split_and!; [done|lia|by constructor].
Qed.

Lemma mapResult_ok {A B} (f : A → result B) l out : mapResult f l = Ok out → Forall2 (λ a b, f a = Ok b) l out.
Proof.
  revert out. induction l as [|a l IH]; intros out; cbn [mapResult]; [intros Ho; apply (inj Ok) in Ho as <-; constructor|].
  intros (b & Hb & (bs & Hbs & Ho)%result_bind_ok)%result_bind_ok. apply (inj Ok) in Ho as <-. constructor; auto.
Qed.

Section Props.
Context `{UrlParser, JsCase, NodeNet, JsNumbers, WorkingDirectory, ServerPlatform}.

(** ** What a configuration is *)

(** An origin as browsers send it *)
Definition exactOrigin (origin : jsstr) : Prop :=
  ∃ u, parseUrl origin = Some u ∧ url_origin u = origin ∧ isHttpProtocol u = true ∧ url_port u ≠ js "0" ∧ isValidOriginHostname (url_hostname u) = true ∧
    url_username u = [] ∧ url_password u = [] ∧ url_pathname u = js "/" ∧ url_search u = [] ∧ url_hash u = [].

Record turnRestOk (t : TurnRestConfig) : Prop := {
  tro_urls : Forall (λ url, isTurnUrlText url = true ∧ hasUrlCredentials url = false) (urlList (tr_urls t));
  tro_count : 1 <= Z.of_nat (length (urlList (tr_urls t))) <= MAX_TURN_URLS;
  tro_secret : TURN_REST_SECRET_MIN_BYTES <= utf8ByteLength (tr_secret t) <= MAX_TURN_REST_SECRET_BYTES ∧ hasControlOrFormat (tr_secret t) = false;
  tro_ttl : 60 <= tr_ttlSeconds t <= 86400
}.

Record configOk (c : ServerConfig) : Prop := {
  co_port : 1 <= c_port c <= 65535;
  co_hops : 0 <= c_trustedProxyHops c <= 3;
  co_proxies : c_trustedProxyHops c = 0 ↔ c_trustedProxyIps c = [];
  co_proxyCount : Z.of_nat (length (c_trustedProxyIps c)) <= 32;
  co_origins l : c_allowedOrigins c = Some l → l ≠ [] ∧ Z.of_nat (length l) <= 32 ∧ Forall exactOrigin l;
  co_ice : Forall rtcServerOk (c_iceServers c) ∧ Z.of_nat (length (c_iceServers c)) <= MAX_CLONED_ICE_SERVERS;
  co_turn t : c_turnRest c = Some t → turnRestOk t
}.

(** A deployment that others can reach: origins and topology are set, origins
    are secure and TURN credentials are short-lived, unless the operator said
    otherwise. *)
Record publicOk (env : jsval) (c : ServerConfig) : Prop := {
  po_origins : ∃ l, c_allowedOrigins c = Some l ∧
    (ownDataValue env (js "ALLOW_INSECURE_ORIGINS") ≠ jstr "true" → Forall (λ o, startsWith (js "http://") o = false) l);
  po_topology : c_signalingTopology c ≠ None;
  po_static : Forall (λ s, hasStaticTurnCredential s = false) (c_iceServers c);
  po_turn : c_turnRest c ≠ None → ownDataValue env (js "TURN_REST_ALLOW_UNVERIFIED_ACCEPT") = jstr "true"
}.

(** A deployment that is not hardened is a local one. *)
Record localOk (c : ServerConfig) : Prop := {
  lo_production : c_production c = false;
  lo_host : isLoopbackBindHost (c_host c) = true;
  lo_hops : c_trustedProxyHops c = 0;
  lo_origins l : c_allowedOrigins c = Some l → Forall (λ o, originUsesLoopbackAuthority o = true) l
}.

(** ** The parts *)

Lemma parseOrigin_ok origin o : parseOrigin origin = Ok o → o = origin ∧ exactOrigin origin.
Proof.
  unfold parseOrigin. rewrite check_bind_ok. intros [_ Ho]. destruct (parseUrl origin) as [u|] eqn:E; [|done].
  rewrite !check_bind_ok, bool_decide_eq_true, negb_true_iff, bool_decide_eq_false in Ho. destruct Ho as ((H1' & H2' & H3' & H4' & H5' & H6') & Hp & Hport & Hh & Ho).
  apply (inj Ok) in Ho as <-. split; [done|]. by exists u.
Qed.

Lemma parseAllowedOrigins_ok raw l : parseAllowedOrigins raw = Ok (Some l) → l ≠ [] ∧ Z.of_nat (length l) <= 32 ∧ Forall exactOrigin l.
Proof.
  unfold parseAllowedOrigins. intros (v & _ & Ho)%result_bind_ok. destruct v as [v|]; [|done]. apply result_bind_ok in Ho as (origins & Hl & Ho).
  destruct origins as [|o origins]; [done|]. apply result_bind_ok in Ho as (parsed & Hp & Ho). injection Ho as <-.
  apply mapResult_ok in Hp. unfold parseAllowedOriginList in Hl. destruct (isBlank v); [done|]. apply listEntries_ok in Hl as (Hl & Hn & _); [|lia].
  pose proof (Forall2_length _ _ _ Hp) as Elen. rewrite <-Hl in Hn. split_and!.
  - intros ->. by inversion Hp.
  - lia.
  - clear Hl Hn Elen. induction Hp as [|a b l1 l2 Hab _ IH]; constructor; [|done]. by apply parseOrigin_ok in Hab as [-> ?].
Qed.

Lemma parseTrustedProxyIps_ok raw l : parseTrustedProxyIps raw = Ok l → Z.of_nat (length l) <= 32.
Proof.
  unfold parseTrustedProxyIps. intros (v & _ & Ho)%result_bind_ok. destruct v as [v|]; [|apply (inj Ok) in Ho as <-; cbn; lia].
  apply result_bind_ok in Ho as (sources & Hs & Hm%mapResult_ok). rewrite <-(Forall2_length _ _ _ Hm).
  unfold parseTrustedProxyIpList in Hs. destruct (isBlank v); [apply (inj Ok) in Hs as <-; cbn; lia|]. apply listEntries_ok in Hs as (-> & Hn & _); lia.
Qed.

Lemma parseIceServers_ok raw l : parseIceServers raw = Ok l → Forall rtcServerOk l ∧ Z.of_nat (length l) <= MAX_CLONED_ICE_SERVERS.
Proof.
  unfold parseIceServers. intros (v & _ & Ho)%result_bind_ok. destruct v as [v|]; [|by eapply cloneIceServers_ok].
  destruct (isBlank v); [by eapply cloneIceServers_ok|]. destruct (jsonParse v) as [p|]; [|done]. apply check_bind_ok in Ho as [_ Ho]. by eapply cloneIceServers_ok.
Qed.

Lemma assertTurnUrls_ok l : assertTurnUrls l = Ok () ↔ Forall (λ url, isTurnUrlText url = true ∧ hasUrlCredentials url = false) l.
Proof.
  induction l as [|u l IH]; cbn [assertTurnUrls]; [by split; [constructor|]|].
  rewrite !check_bind_ok, negb_true_iff, IH, Forall_cons. naive_solver.
Qed.

Lemma turnUrlArray_length n value index urls : turnUrlArray n value index = Some urls → length urls = n.
Proof.
  revert index urls. induction n as [|n IH]; intros index urls; cbn [turnUrlArray]; [by intros [= <-]|].
  destruct (ownArrayDataValue value index); try done. intros (rest & Hr & [= <-])%bind_Some. cbn. f_equal. by eapply IH.
Qed.

Lemma parseTurnUrls_ok raw urls :
  parseTurnUrls raw = Ok urls →
  Forall (λ url, isTurnUrlText url = true ∧ hasUrlCredentials url = false) (urlList urls) ∧ 1 <= Z.of_nat (length (urlList urls)) <= MAX_TURN_URLS.
Proof.
  unfold parseTurnUrls. intros [_ Ho]%unit_bind_ok.
  assert (∀ v us, UrlList <$> parseTurnUrlArray v = Some us → 1 <= Z.of_nat (length (urlList us)) <= MAX_TURN_URLS) as Harr.
  { intros v us (l & Hl & ->)%fmap_Some. unfold parseTurnUrlArray in Hl. destruct v as [| | | | | |items|]; try done.
    destruct (_ || _) eqn:En; [done|]. apply orb_false_iff in En as [Hne%Z.eqb_neq Hle%Z.ltb_ge].
    apply turnUrlArray_length in Hl. cbn [urlList]. lia. }
  destruct (match _ with JStr url => _ | _ => _ end) as [us|] eqn:E in Ho; [|done].
  apply unit_bind_ok in Ho as [Ha Ho]. apply (inj Ok) in Ho as ->. split; [by apply assertTurnUrls_ok|].
  destruct (default (JStr raw) (jsonParse raw)); try by eapply Harr. injection E as <-. cbn. unfold MAX_TURN_URLS. lia.
Qed.

Lemma envValue_own env name v : envValue env name = Ok v → ownDataValue env (js name) = v.
Proof.
  unfold envValue, optionalData, ownDataValue. destruct env as [| | | | | | |p props]; try done.
  destruct (getOwnProperty _ _) as [[e w|e]|]; cbn; [|done|]; intros Ho; by apply (inj Ok) in Ho.
Qed.

Lemma parseTurnRestConfig_ok env hardened t :
  parseTurnRestConfig env hardened = Ok (Some t) →
  turnRestOk t ∧ (hardened = true → ownDataValue env (js "TURN_REST_ALLOW_UNVERIFIED_ACCEPT") = jstr "true").
Proof.
  unfold parseTurnRestConfig.
  intros (rs & _ & (secret & _ & (ru & _ & (urls & _ & [_ [_ Ho]%unit_bind_ok]%unit_bind_ok)%result_bind_ok)%result_bind_ok)%result_bind_ok)%result_bind_ok.
  destruct (default [] secret) as [|c s] eqn:Es; [by destruct (trim _)|]. destruct (trim (default [] urls)) as [|d u] eqn:Eu; [done|].
  apply unit_bind_ok in Ho as [Hack Ho]. cbv zeta in Ho. rewrite !check_bind_ok, negb_true_iff, !Z.leb_le in Ho.
  destruct Ho as (Hlo & Hhi & Hc & (us & Hus & (raw & _ & (ttl & Httl & Ho)%result_bind_ok)%result_bind_ok)%result_bind_ok).
  injection Ho as <-. apply parseTurnUrls_ok in Hus as [Hu Hn]. apply parseDecimal_ok in Httl; [|lia]. split; [by split|].
  intros ->. unfold assertTurnRestPublicIssuanceAcknowledged in Hack.
  apply result_bind_ok in Hack as (v & Hv & (b & Hb & Hcheck)%result_bind_ok). apply check_ok in Hcheck. rewrite orb_false_r in Hcheck. subst b.
  apply parseBooleanEnv_true in Hb as ->. by apply envValue_own.
Qed.

Lemma assertHardenedSecureOrigins_ok allowed insecure l :
  assertHardenedSecureOrigins allowed true insecure = Ok () → allowed = Some l → insecure = false → Forall (λ o, startsWith (js "http://") o = false) l.
Proof.
  unfold assertHardenedSecureOrigins. intros Ha -> ->. cbn in Ha. rewrite check_ok, negb_true_iff in Ha.
  rewrite Forall_forall. intros o Ho. apply not_true_iff_false. intros Hs. apply not_true_iff_false in Ha. apply Ha. apply existsb_exists. exists o. by rewrite <-list_elem_of_In.
Qed.

Lemma loaded_config_ok env c :
  loadServerConfig env = Ok c →
  configOk c ∧ (if c_hardenedDeployment c then publicOk env c else localOk c).
Proof.
  unfold loadServerConfig.
  intros (production & (r1 & _ & Hprod)%result_bind_ok & Hl)%result_bind_ok. apply result_bind_ok in Hl as (host & (r2 & _ & Hhost)%result_bind_ok & Hl).
  apply result_bind_ok in Hl as (origins & (r3 & _ & Horigins)%result_bind_ok & Hl). apply result_bind_ok in Hl as (topology & _ & Hl).
  apply result_bind_ok in Hl as (hops & (r5 & _ & Hhops)%result_bind_ok & Hl). apply result_bind_ok in Hl as (ips & (r6 & _ & Hips)%result_bind_ok & Hl).
  apply unit_bind_ok in Hl as [Hpolicy Hl]. cbv zeta in Hl. apply result_bind_ok in Hl as (ice & (r7 & _ & Hice)%result_bind_ok & Hl).
  apply unit_bind_ok in Hl as [Hstatic Hl]. apply unit_bind_ok in Hl as [_ Hl]. apply result_bind_ok in Hl as (insecure & (r8 & Hr8 & Hins)%result_bind_ok & Hl).
  apply unit_bind_ok in Hl as [Hreq Hl]. apply unit_bind_ok in Hl as [Htop Hl]. apply unit_bind_ok in Hl as [Hsec Hl].
  apply result_bind_ok in Hl as (port & (r9 & _ & Hport)%result_bind_ok & Hl). apply result_bind_ok in Hl as (root & _ & Hl).
  apply result_bind_ok in Hl as (any & _ & Hl). apply result_bind_ok in Hl as (loop & _ & Hl). apply result_bind_ok in Hl as (turn & Hturn & Hl).
  apply (inj Ok) in Hl as <-. cbn [c_hardenedDeployment]. set (hardened := hardenedDeploymentRequired production host origins hops) in *.
  apply parseDecimal_ok in Hport; [|lia]. apply parseDecimal_ok in Hhops; [|lia]. split.
  { split; cbn [c_port c_trustedProxyHops c_trustedProxyIps c_allowedOrigins c_iceServers c_turnRest]; try done.
    - unfold assertTrustedProxyPolicy in Hpolicy. apply check_bind_ok in Hpolicy as [P1 P2%check_ok]. revert P1 P2.
      destruct (Z.eqb_spec hops 0) as [->|]; [by case_bool_decide|]. rewrite (proj2 (Z.ltb_lt 0 hops)) by lia. by case_bool_decide.
    - by eapply parseTrustedProxyIps_ok.
    - intros l ->. by eapply parseAllowedOrigins_ok.
    - by eapply parseIceServers_ok.
    - intros t ->. by eapply parseTurnRestConfig_ok. }
  destruct hardened eqn:Eh.
  - split; cbn [c_allowedOrigins c_signalingTopology c_iceServers c_turnRest].
    + unfold assertRequiredOriginPolicy in Hreq. rewrite orb_false_r in Hreq. apply check_ok, bool_decide_eq_true in Hreq as [l ->]. exists l. split; [done|]. intros Hne.
      eapply assertHardenedSecureOrigins_ok; [done..|]. destruct insecure; [|done]. apply parseBooleanEnv_true in Hins as ->. by apply envValue_own in Hr8.
    + by destruct topology.
    + unfold assertNoHardenedStaticTurnCredentials in Hstatic. rewrite check_ok, negb_true_iff in Hstatic. cbn [andb] in Hstatic.
      rewrite Forall_forall. intros s Hs. apply not_true_iff_false. intros Ht. apply not_true_iff_false in Hstatic. apply Hstatic, existsb_exists. exists s. by rewrite <-list_elem_of_In.
    + destruct turn as [t|]; [|done]. intros _. by eapply parseTurnRestConfig_ok.
  - unfold hardened, hardenedDeploymentRequired in Eh. rewrite !orb_false_iff, negb_false_iff, Z.ltb_ge in Eh. destruct Eh as [[[-> Hhost'] Hh] Hpub].
    split; cbn [c_production c_host c_trustedProxyHops c_allowedOrigins]; [done|done|lia|]. intros l ->. unfold hasPublicAllowedOrigin in Hpub. cbn [default] in Hpub.
    rewrite Forall_forall. intros o Ho. apply not_false_iff_true. intros Hn. apply not_true_iff_false in Hpub. apply Hpub, existsb_exists. exists o.
    rewrite <-list_elem_of_In. by rewrite Hn.
Qed.

(** ** ICE servers *)

Lemma ownDataValue_property v k w : ownDataValue v k = w → w ≠ JUndefined → ∃ e, getOwnProperty (KStr k) (ownProps v) = Some (PData e w).
Proof. unfold ownDataValue. destruct (getOwnProperty _ _) as [[e x|e]|]; intros <- Hw; try done. by exists e. Qed.

Lemma literal_property items i w : items !! i = Some w → w ≠ JUndefined → ∃ e, getOwnProperty (KStr (jsInt (Z.of_nat i))) (ownProps (arr items)) = Some (PData e w).
Proof.
  intros Hi Hw. apply ownDataValue_property; [|done]. change (ownArrayDataValue (arr items) (Z.of_nat i) = w). by rewrite ownArrayDataValue_literal, Nat2Z.id, Hi by lia.
Qed.

Lemma requiredData_own source key message accessor v : ownDataValue source key = v → v ≠ JUndefined → requiredData source key message accessor = Ok v.
Proof. intros Hv Hn. unfold requiredData, optionalData. destruct (ownDataValue_property _ _ _ Hv Hn) as [e ->]. by destruct v. Qed.

Lemma turnRestUrlValues_literal before l :
  turnRestUrlValues (length l) (arr (map JStr (before ++ l))) (Z.of_nat (length before)) = Ok (map JStr l).
Proof.
  revert before. induction l as [|u l IH]; intros before; cbn [turnRestUrlValues length map]; [done|].
  rewrite (requiredData_own _ _ _ _ (JStr u)).
  - cbn [mbind result_bind]. specialize (IH (before ++ [u])). rewrite <-app_assoc, length_app in IH. cbn [app length] in IH.
    replace (Z.of_nat (length before) + 1) with (Z.of_nat (length before + 1)) by lia. by rewrite IH.
  - change (ownArrayDataValue (arr (map JStr (before ++ u :: l))) (Z.of_nat (length before)) = JStr u).
    by rewrite ownArrayDataValue_literal, Nat2Z.id, list_lookup_fmap, list_lookup_middle by lia.
  - done.
Qed.

Lemma cloneTurnRestUrls_value urls :
  Forall (λ url, isTurnUrlText url = true ∧ hasUrlCredentials url = false) (urlList urls) → 1 <= Z.of_nat (length (urlList urls)) <= MAX_TURN_URLS →
  cloneTurnRestUrls (rtcUrlsValue urls) = Ok urls.
Proof.
  intros Hu Hn. destruct urls as [u|l]; cbn [urlList rtcUrlsValue] in *.
  - unfold cloneTurnRestUrls. apply check_bind_ok. split; [|done]. inversion_clear Hu as [|?? [H1' H2'] _]. cbn [isRuntimeTurnUrl onString]. by rewrite H1', H2'.
  - unfold cloneTurnRestUrls, arr. rewrite !length_map. fold (arr (map JStr l)). apply check_bind_ok. split.
    + apply negb_true_iff, orb_false_iff. rewrite Z.eqb_neq, Z.ltb_ge. lia.
    + pose proof (turnRestUrlValues_literal [] l) as E. cbn [app length] in E. change (Z.of_nat 0) with 0 in E. rewrite E. cbn [mbind result_bind]. apply check_bind_ok. split.
      * apply forallb_forall. intros v Hv%list_elem_of_In. apply list_elem_of_fmap in Hv as (u & -> & Hin). rewrite Forall_forall in Hu.
        destruct (Hu u Hin) as [H1' H2']. cbn [isRuntimeTurnUrl onString]. by rewrite H1', H2'.
      * f_equal. f_equal. clear. induction l as [|u l IH]; [done|]. cbn. by f_equal.
Qed.

Lemma cloneTurnRestConfig_value t : turnRestOk t → cloneTurnRestConfig (turnRestValue t) = Ok t.
Proof.
  intros [Hu Hn [Hs Hc] Ht]. unfold cloneTurnRestConfig. apply check_bind_ok. split; [done|].
  rewrite (requiredData_own _ (js "urls") _ _ (rtcUrlsValue (tr_urls t))) by (done || by destruct (tr_urls t)). cbn [mbind result_bind].
  rewrite cloneTurnRestUrls_value by done. cbn [mbind result_bind].
  rewrite (requiredData_own _ (js "secret") _ _ (JStr (tr_secret t))) by done. cbn [mbind result_bind].
  rewrite (requiredData_own _ (js "ttlSeconds") _ _ (jint (tr_ttlSeconds t))) by done. cbn [mbind result_bind].
  apply check_bind_ok. split.
  - apply negb_true_iff. rewrite !orb_false_iff, !Z.ltb_ge. tauto.
  - apply check_bind_ok. split; [apply andb_true_iff; rewrite !Z.leb_le; lia|]. by destruct t.
Qed.

(** The entry with the credentials that expire *)
Definition turnEntry (t : TurnRestConfig) (now : Z) (random : list Z) : RTCIceServer :=
  let username := jsInt (now / 1000 + tr_ttlSeconds t) ++ js ":" ++ bytesToHex random in
  {| rtc_urls := tr_urls t; rtc_username := Some username; rtc_credential := Some (bytesToBase64 (hmacSha1 (tr_secret t) username)); rtc_credentialType := false |}.

Lemma iceServersForRequest_loaded c now random :
  configOk c → 0 <= now <= MAX_SAFE_INTEGER →
  iceServersForRequest (configValue c) now random = Ok (c_iceServers c ++ from_option (λ t, [turnEntry t now random]) [] (c_turnRest c)).
Proof.
  intros Hc Hn. pose proof (co_ice c Hc) as [Hice Hlen]. unfold iceServersForRequest, configIceServers, configTurnRest. change (isConfigObject (configValue c)) with (Ok ()). cbn [mbind result_bind].
  rewrite (requiredData_own _ (js "iceServers") _ _ (rtcServersValue (c_iceServers c))) by done. cbn [mbind result_bind].
  rewrite cloneIceServers_value by done. cbn [mbind result_bind].
  assert (optionalData (configValue c) (js "turnRest") fieldsMessage = Ok (from_option turnRestValue JUndefined (c_turnRest c))) as E by done.
  rewrite E. cbn [mbind result_bind]. destruct (c_turnRest c) as [t|] eqn:Et; cbn [from_option]; [|cbn; by rewrite app_nil_r].
  change (isUndefined (turnRestValue t)) with false. cbv iota. rewrite cloneTurnRestConfig_value by (by eapply co_turn). cbn [mbind result_bind].
  unfold turnCredentialExpiresAt. rewrite (proj2 (Z.ltb_ge now 0)), (proj2 (Z.ltb_ge MAX_SAFE_INTEGER now)) by lia. done.
Qed.

(** The URL of a STUN server, in which no one's name or password is written *)
Definition publicUrl (url : jsstr) : Prop :=
  (startsWith (js "stun:") (map asciiLowerUnit url) = true ∨ startsWith (js "stuns:") (map asciiLowerUnit url) = true) ∧ 64 ∉ url.

(** A server without credentials whose URLs are those of STUN servers *)
Definition publicOnly (s : RTCIceServer) : Prop :=
  rtc_username s = None ∧ rtc_credential s = None ∧ urlList (rtc_urls s) ≠ [] ∧ Forall publicUrl (urlList (rtc_urls s)).

Lemma at_sign_lower l : 64 ∈ l → 64 ∈ map asciiLowerUnit l.
Proof. intros Hl. apply list_elem_of_fmap. by exists 64. Qed.

Lemma authority_no_at authority : isValidAuthority authority = true → 64 ∉ authority.
Proof.
  unfold isValidAuthority, authorityInputAllowed. intros Ha Hin. assert (hasUnsafeAuthorityChars authority = true) as Hu; [|by rewrite Hu, andb_false_r in Ha].
  apply existsb_exists. exists 64. split; [by apply list_elem_of_In, codePoints_unit|by vm_compute].
Qed.

Lemma iceUrl_no_at url authority : iceUrlAuthority url = Some authority → isValidAuthority authority = true → 64 ∉ url.
Proof.
  unfold iceUrlAuthority, isIceScheme. intros Hu Ha%authority_no_at Hin. rewrite <-(takeWhile_dropWhile (λ c, negb (c =? 58)) url) in Hin.
  destruct (dropWhile _ url) as [|c rest] eqn:E; [done|]. apply dropWhile_head, negb_false_iff, Z.eqb_eq in E as ->. cbv zeta in Hu.
  destruct (_ && _) eqn:Ec in Hu; [|done]. injection Hu as <-. rewrite !andb_true_iff, !bool_decide_eq_true in Ec. destruct Ec as [[Hs _] Hq].
  rewrite elem_of_app, elem_of_cons in Hin. destruct Hin as [Hin%at_sign_lower|[Hin|Hin]]; [|done|].
  - revert Hin. rewrite !elem_of_cons in Hs. destruct Hs as [->|[->|[->|[->|[]%not_elem_of_nil]]]]; apply (bool_decide_unpack (64 ∉ _)); by vm_compute.
  - rewrite <-(takeWhile_dropWhile (λ c, negb (c =? 63)) rest), elem_of_app in Hin. destruct Hin as [|Hin%at_sign_lower]; [done|]. revert Hin.
    rewrite !elem_of_cons in Hq. destruct Hq as [->|[->|[->|[]%not_elem_of_nil]]]; apply (bool_decide_unpack (64 ∉ _)); by vm_compute.
Qed.

Lemma isPublicStunUrl_public url : isPublicStunUrl url = true → publicUrl url.
Proof.
  unfold isPublicStunUrl, isStunIceUrl, isBoundedIceUrl. rewrite !andb_true_iff, orb_true_iff. intros (Hs & _ & Hu). split; [done|].
  destruct (iceUrlAuthority url) as [a|] eqn:E; [|done]. by eapply iceUrl_no_at.
Qed.

Lemma publicServer_ok urls s : Forall publicUrl urls → publicServer urls = Some s → publicOnly s ∧ urlList (rtc_urls s) = urls.
Proof. intros Hu. destruct urls as [|u [|v urls]]; intros [= <-]; by repeat split. Qed.

Lemma filter_stun urls : Forall publicUrl (filter (λ url, isPublicStunUrl url = true) urls).
Proof. apply Forall_forall. intros u Hu. apply list_elem_of_filter in Hu as [? _]. by apply isPublicStunUrl_public. Qed.

Lemma publicIceServer_ok s t : publicIceServer s = Some t → publicOnly t.
Proof. intros Ht. eapply publicServer_ok; [apply filter_stun|exact Ht]. Qed.

Lemma defaults_public : ∃ l, cloneIceServers DEFAULT_ICE_SERVERS = Ok l ∧ l ≠ [] ∧ Forall publicOnly l.
Proof.
  exists [stunServer "stun:stun.l.google.com:19302"; stunServer "stun:stun.cloudflare.com:3478"]. split; [by vm_compute|]. split; [done|].
  assert (∀ url, publicUrl (js url) → publicOnly (stunServer url)) as Hs by by intros url Hu; split_and!; [..|constructor].
  constructor; [|constructor; [|done]]; apply Hs; (split; [left|apply (bool_decide_unpack (64 ∉ _))]); by vm_compute.
Qed.

Lemma unauthenticated_public config l : iceServersForUnauthenticatedRequest config = Ok l → l ≠ [] ∧ Forall publicOnly l.
Proof.
  unfold iceServersForUnauthenticatedRequest. intros (servers & _ & Ho)%result_bind_ok. destruct (omap publicIceServer servers) as [|s r] eqn:E.
  - destruct defaults_public as (d & Hd & Hne & Hall). rewrite Hd in Ho. by apply (inj Ok) in Ho as <-.
  - apply (inj Ok) in Ho as <-. split; [done|]. rewrite <-E, Forall_forall. intros t Ht. apply list_elem_of_omap in Ht as (x & _ & Hx). by eapply publicIceServer_ok.
Qed.

(** On a configuration that was loaded the public list is made without an error. *)
Lemma runtimeStrings_literal before l : runtimeStrings (length l) (arr (map JStr (before ++ l))) (Z.of_nat (length before)) = Ok (Some l).
Proof.
  revert before. induction l as [|u l IH]; intros before; cbn [runtimeStrings length]; [done|].
  destruct (literal_property (map JStr (before ++ u :: l)) (length before) (JStr u)) as [e ->]; [by rewrite list_lookup_fmap, list_lookup_middle|done|].
  specialize (IH (before ++ [u])). rewrite <-app_assoc, length_app in IH. cbn [app length] in IH.
  replace (Z.of_nat (length before) + 1) with (Z.of_nat (length before + 1)) by lia. by rewrite IH.
Qed.

Lemma publicIceServerFromRuntimeValue_ok s : rtcServerOk s → is_Some (match publicIceServerFromRuntimeValue (rtcServerValue s) with Ok o => Some o | Err _ => None end).
Proof.
  intros [_ Hn _]. destruct (rtcServerValue_fields s) as (E1 & _). unfold publicIceServerFromRuntimeValue, rtcServerValue, obj.
  fold (obj ([(js "urls", rtcUrlsValue (rtc_urls s))] ++ optionalField "username" (rtc_username s) ++ optionalField "credential" (rtc_credential s) ++
       (if rtc_credentialType s then [(js "credentialType", jstr "password")] else []))). fold (rtcServerValue s).
  rewrite (requiredData_own _ _ _ _ _ E1) by (by destruct (rtc_urls s)). cbn [mbind result_bind].
  destruct (rtc_urls s) as [u|l]; cbn [rtcUrlsValue urlList] in *; [by eexists|]. unfold arr at 1. cbv iota. unfold runtimeStringArray, arr. rewrite !length_map.
  fold (arr (map JStr l)). rewrite (proj2 (Z.ltb_ge _ _)), (proj2 (Z.ltb_ge _ _)) by (unfold MAX_CLONED_ICE_URLS_PER_SERVER in Hn; lia). cbn [orb].
  pose proof (runtimeStrings_literal [] l) as E. cbn [app length] in E. change (Z.of_nat 0) with 0 in E. rewrite E. by eexists.
Qed.

Lemma publicServers_literal before l :
  Forall rtcServerOk l → ∃ out, publicServers (length l) (rtcServersValue (before ++ l)) (Z.of_nat (length before)) = Ok out.
Proof.
  intros Hl. revert before. induction Hl as [|s l Hs Hl IH]; intros before; cbn [publicServers length]; [by eexists|].
  destruct (literal_property (map rtcServerValue (before ++ s :: l)) (length before) (rtcServerValue s)) as [e He]; [by rewrite list_lookup_fmap, list_lookup_middle|done|].
  unfold rtcServersValue at 1. rewrite He. destruct (publicIceServerFromRuntimeValue_ok s Hs) as [o Ho]. destruct (publicIceServerFromRuntimeValue (rtcServerValue s)) as [r|]; [|done].
  cbn [mbind result_bind]. destruct (IH (before ++ [s])) as [out Hout]. rewrite <-app_assoc, length_app in Hout. cbn [app length] in Hout.
  replace (Z.of_nat (length before) + 1) with (Z.of_nat (length before + 1)) by lia. rewrite Hout. by eexists.
Qed.

Lemma unauthenticated_loaded c : configOk c → ∃ l, iceServersForUnauthenticatedRequest (configValue c) = Ok l.
Proof.
  intros Hc. destruct (co_ice c Hc) as [Hice Hlen]. unfold iceServersForUnauthenticatedRequest, publicConfigIceServers.
  change (isConfigObject (configValue c)) with (Ok ()). cbn [mbind result_bind].
  rewrite (requiredData_own _ (js "iceServers") _ _ (rtcServersValue (c_iceServers c))) by done. cbn [mbind result_bind].
  destruct (publicServers_literal [] _ Hice) as [out Hout]. cbn [app length] in Hout. change (Z.of_nat 0) with 0 in Hout.
  unfold rtcServersValue at 1, arr at 1. cbv iota. rewrite !length_map. unfold MAX_CLONED_ICE_SERVERS in Hlen. rewrite (proj2 (Z.leb_le _ 16)) by lia. cbn [check mbind result_bind].
  fold (arr (map rtcServerValue (c_iceServers c))). fold (rtcServersValue (c_iceServers c)). rewrite Hout. cbn [mbind result_bind].
  destruct (omap publicIceServer out); [|by eexists]. destruct defaults_public as (d & -> & _). by eexists.
Qed.

End Props.

(** ** The theorems *)

(** C28. A configuration that [loadServerConfig] accepts has its numbers in
    range, exact origins, valid ICE servers and a usable TURN secret.  It is
    hardened unless the deployment is a local one (not marked as production,
    bound to a loopback address, without a proxy and with loopback origins
    only); a hardened one has its origins and topology set, secure origins and
    no TURN password to hand out, unless the operator asked for it. *)
Theorem hardened_config_safe `{UrlParser, JsCase, NodeNet, JsNumbers, WorkingDirectory, ServerPlatform} env c :
  loadServerConfig env = Ok c →
  configOk c ∧ (if c_hardenedDeployment c then publicOk env c else localOk c).
Proof. apply loaded_config_ok. Qed.

(** C29. Whatever configuration it is given, the list for unauthenticated
    requests has STUN servers only, no credentials and no "@" in a URL, and it
    is never empty;
    with a configuration that was loaded it is made without an error, and an
    accepted session gets the configured servers and, with TURN REST, one entry
    whose user name expires [ttlSeconds] from now and whose password is the
    HMAC of that name. *)
Theorem ice_disclosure `{UrlParser, JsCase, NodeNet, JsNumbers, WorkingDirectory, ServerPlatform} :
  (∀ config l, iceServersForUnauthenticatedRequest config = Ok l → l ≠ [] ∧ Forall publicOnly l) ∧
  (∀ env c now random, loadServerConfig env = Ok c → 0 <= now <= MAX_SAFE_INTEGER →
     is_ok (iceServersForUnauthenticatedRequest (configValue c)) = true ∧
     iceServersForRequest (configValue c) now random = Ok (c_iceServers c ++ from_option (λ t, [turnEntry t now random]) [] (c_turnRest c))).
Proof.
  split; [apply unauthenticated_public|]. intros env c now random [Hc _]%loaded_config_ok Hn. split; [|by apply iceServersForRequest_loaded].
  by destruct (unauthenticated_loaded c Hc) as [l ->].
Qed.

(** ** A public deployment *)

Section Witnesses.
#[local] Existing Instances asciiCase dottedNet decimalNumbers.
(** A parser that knows one URL *)
Definition exampleOrigin : jsstr := js "https://files.example".
Definition exampleUrl : Url :=
  {| url_protocol := js "https:"; url_username := []; url_password := []; url_hostname := js "files.example"; url_host := js "files.example";
     url_port := []; url_pathname := js "/"; url_search := []; url_hash := []; url_href := js "https://files.example/"; url_origin := exampleOrigin |}.
Definition exampleUrls : UrlParser := {| parseUrl s := if decide (s = exampleOrigin) then Some exampleUrl else None |}.
Definition exampleDirectory : WorkingDirectory := {| cwd := js "/srv" |}.
Definition examplePlatform : ServerPlatform := {| modulePath := js "/srv/dist/server/index.js"; hmacSha1 key text := take 20 text |}.
#[local] Existing Instances exampleUrls exampleDirectory examplePlatform.

Definition exampleEnv : jsval :=
  obj [(js "NODE_ENV", jstr "production"); (js "HOST", jstr "0.0.0.0"); (js "ALLOWED_ORIGINS", JStr exampleOrigin);
       (js "SIGNALING_TOPOLOGY", jstr "single-instance"); (js "TRUSTED_PROXY_HOPS", jstr "1"); (js "TRUSTED_PROXY_IPS", jstr "10.0.0.0/8");
       (js "TURN_REST_SECRET", jstr "0123456789abcdef0123456789abcdef"); (js "TURN_URLS", jstr "turn:turn.example:3478");
       (js "TURN_REST_ALLOW_UNVERIFIED_ACCEPT", jstr "true")].

Lemma hardened_config_safe_witness :
  ∃ c, loadServerConfig exampleEnv = Ok c ∧ c_port c = 8787 ∧ configOk c ∧ publicOk exampleEnv c.
Proof.
  destruct (loadServerConfig exampleEnv) as [c|e] eqn:E; [|exfalso; revert E; by vm_compute].
  assert (match loadServerConfig exampleEnv with Ok c => (c_hardenedDeployment c, c_port c) | Err _ => (false, 0) end = (true, 8787)) as Hh by by vm_compute.
  rewrite E in Hh. injection Hh as Hh Hp. exists c. pose proof (hardened_config_safe exampleEnv c E) as [Hc Hpub]. rewrite Hh in Hpub. by split_and!.
Defined.

Lemma ice_disclosure_witness :
  ∃ c, loadServerConfig exampleEnv = Ok c ∧
    match iceServersForRequest (configValue c) 1000000 [1; 2; 3; 4; 5; 6; 7; 8] with
    | Ok l => map rtc_username l = [None; None; Some (js "4600:0102030405060708")]
    | Err _ => False
    end.
Proof.
  destruct (loadServerConfig exampleEnv) as [c|e] eqn:E; [|exfalso; revert E; by vm_compute].
  exists c. split; [done|]. destruct (proj2 ice_disclosure exampleEnv c 1000000 [1; 2; 3; 4; 5; 6; 7; 8] E) as [_ ->]; [by vm_compute|].
  assert (match loadServerConfig exampleEnv with
          | Ok c => map rtc_username (c_iceServers c ++ from_option (λ t, [turnEntry t 1000000 [1; 2; 3; 4; 5; 6; 7; 8]]) [] (c_turnRest c))
          | Err _ => [] end = [None; None; Some (js "4600:0102030405060708")]) as Hv by by vm_compute.
  by rewrite E in Hv.
Defined.

End Witnesses.
