(* ===== verification/StaticPath.v ===== *)
(** * StaticPath: from the path of a URL to a file below the web root
    ([src/server/static-path.ts]), and the candidate that [serveStatic] of
    [src/server/index.ts] makes of it.

    [decodeURIComponent] and POSIX [path] functions are modelled here and in
    [FileSystem].  The theorem: whatever the URL path is, the file it is
    resolved to is the web root or below it, ordinary paths are taken as they
    are, and [isPathInsideRoot] is exact. *)
From S2P Require Import Prelude.
From S2P Require Import Constants.
From S2P Require Import JsText.
From S2P Require Import JsValue.
From S2P Require Import Json.
From S2P Require Import FileSystem.
From S2P Require Import FilesProps.
From S2P Require Import Ice.
From S2P Require Import HttpRequest.
#[local] Open Scope Z_scope.

Definition MAX_STATIC_URL_PATH_BYTES : Z := 8192.

(** ** What the source uses of JavaScript and Node *)

(** [decodeURIComponent(s)]: [pending] has the bytes of the escapes just read,
    whose UTF-8 ends where the escapes do.  [None] when it throws. *)
Fixpoint decodeURIFrom (s : jsstr) (pending : list Z) : option jsstr :=
  match s with
  | [] => utf8DecodeUnits pending
  | c :: r =>
    if c =? 37 then
      match r with
      | h :: l :: r => a ← hexValue h; b ← hexValue l; decodeURIFrom r (pending ++ [a * 16 + b])
      | _ => None
      end
    else text ← utf8DecodeUnits pending; rest ← decodeURIFrom r []; Some (text ++ c :: rest)
  end.
Definition decodeURIComponent (s : jsstr) : option jsstr := decodeURIFrom s [].

(** [path.posix.basename(p)] *)
Definition posixBasename (p : jsstr) : jsstr := default [] (last (splitOn SLASH (dropWhileEnd (λ c, c =? SLASH) p))).

Definition isAbsolute (p : jsstr) : bool := bool_decide (head p = Some SLASH).

Section Paths.
Context `{WorkingDirectory}.

(** [path.resolve(dir, p)], for a [dir] that is not empty *)
Definition resolveIn (dir p : jsstr) : jsstr := resolvePath (if isAbsolute p then p else dir ++ [SLASH] ++ p).

(** [path.relative(from, to)]: up from [from] to the directory they share, and
    down to [to] *)
Definition segmentsOf (p : jsstr) : list jsstr := normalSegments false (splitOn SLASH (if isAbsolute p then p else cwd ++ [SLASH] ++ p)) [].
Fixpoint relativeSegments (from to : list jsstr) : list jsstr :=
  match from, to with
  | a :: from', b :: to' => if decide (a = b) then relativeSegments from' to' else map (λ _, js "..") from ++ to
  | _, _ => map (λ _, js "..") from ++ to
  end.
Definition relativePath (from to : jsstr) : jsstr := joinWith [SLASH] (relativeSegments (segmentsOf from) (segmentsOf to)).

(** ** static-path.ts *)

(** [isPathInsideRoot] *)
Definition isPathInsideRoot (root candidate : jsval) : bool :=
  match root, candidate with
  | JStr root, JStr candidate =>
    let relative := relativePath root candidate in
    bool_decide (relative = []) || (negb (startsWith (js "..") relative) && negb (isAbsolute relative))
  | _, _ => false
  end.

End Paths.

(** [/[\p{Cc}\p{Cf}\\]/u.test(s)] *)
Definition hasControlFormatOrBackslash (s : jsstr) : bool := existsb (λ cp, isCcCf cp || (cp =? 92)) (codePoints s).

(** [staticUrlPathToRelative] *)
Definition staticUrlPathToRelative (urlPath : jsval) : result jsstr :=
  let message := "invalid static URL path" in
  match urlPath with
  | JStr urlPath =>
    check (negb ((jslen urlPath =? 0) || utf8ByteLengthExceeds urlPath MAX_STATIC_URL_PATH_BYTES)) message;;
    check (negb (includesText (js "%2f") (map asciiLowerUnit urlPath) || includesText (js "%5c") (map asciiLowerUnit urlPath))) message;;
    match decodeURIComponent urlPath with
    | None => throw message
    | Some decoded =>
      check (negb (hasControlFormatOrBackslash decoded)) message;;
      let normalized := normalizePath decoded in
      let relative := if bool_decide (normalized = js "/") then js "index.html" else dropWhile (λ c, c =? SLASH) normalized in
      check (negb (bool_decide (relative = []) || bool_decide (js ".." ∈ splitOn SLASH relative))) message;;
      Ok relative
    end
  | _ => throw message
  end.

(** [isSafeStaticRelativePath] *)
Definition isSafeStaticRelativePath (relative : jsstr) : bool :=
  (0 <? jslen relative) && negb (utf8ByteLengthExceeds relative MAX_STATIC_URL_PATH_BYTES) && negb (startsWith (js "/") relative) &&
  negb (startsWith (js "//") relative) && negb (hasControlFormatOrBackslash relative) &&
  negb (existsb (λ part, bool_decide (part = []) || bool_decide (part = js "..")) (splitOn SLASH relative)).

(** [canServeIndexFallback] *)
Definition canServeIndexFallback (relative : jsval) : bool :=
  match relative with
  | JStr relative =>
    if negb (isSafeStaticRelativePath relative) then false
    else if bool_decide (relative = js "index.html") then true
    else if bool_decide (relative = js "v1") || startsWith (js "v1/") relative then false
    else if startsWith (js "assets/") relative then false
    else negb (includesUnit 46 (posixBasename relative))
  | _ => false
  end.

(** [staticRelativePath] and the candidate that [serveStatic] of index.ts checks
    first; [None] is its 404. *)
Definition staticCandidate `{WorkingDirectory} (webRoot : jsstr) (urlPath : jsval) : option jsstr :=
  match staticUrlPathToRelative urlPath with
  | Ok relative =>
    let candidate := resolveIn webRoot relative in
    if isPathInsideRoot (JStr webRoot) (JStr candidate) then Some candidate else None
  | Err _ => None
  end.

(** ** Theorems *)

Lemma relativeSegments_down from rest : relativeSegments from (from ++ rest) = rest.
Proof. induction from as [|a from IH]; cbn [app relativeSegments]; [done|]. by rewrite decide_True. Qed.

(** What [..] in front of a path of plain segments means *)
Lemma relativeSegments_shape from to :
  (∃ rest, to = from ++ rest ∧ relativeSegments from to = rest) ∨ (∃ l, relativeSegments from to = js ".." :: l).
Proof.
  revert to. induction from as [|a from IH]; intros to; [left; by exists to|]. cbn [relativeSegments]. destruct to as [|b to]; [right; by eexists|].
  case_decide as E; [|right; by eexists]. subst b. destruct (IH to) as [(rest & -> & Hr)|(l & Hl)]; [left; by exists rest|right; by exists l].
Qed.

Lemma startsWith_join s l : plainSegment s → startsWith (js "..") (joinWith [SLASH] (s :: l)) = startsWith (js "..") s.
Proof.
  intros (Hne & _ & _ & Hn). rewrite joinWith_cons. destruct l as [|t l]; [done|]. destruct s as [|c [|d s]]; [done| |done].
  unfold startsWith. cbn. apply bool_decide_ext. split; [intros [= _ E]; discriminate E|done].
Qed.

Section Inside.
Context `{WorkingDirectory}.

Lemma segmentsOf_plain p : Forall plainSegment (segmentsOf p).
Proof. apply normalSegments_plain; [|done]. apply Forall_forall. intros s. apply splitOn_part. Qed.

(** [isPathInsideRoot] accepts only the root and what is below it, and all of
    that but names that begin with two dots. *)
Lemma isPathInsideRoot_spec root candidate :
  isPathInsideRoot (JStr root) (JStr candidate) = true ↔
  ∃ rest, segmentsOf candidate = segmentsOf root ++ rest ∧ (∀ s, head rest = Some s → startsWith (js "..") s = false).
Proof.
  unfold isPathInsideRoot, relativePath. cbv zeta. pose proof (segmentsOf_plain candidate) as Hp. split.
  - destruct (relativeSegments_shape (segmentsOf root) (segmentsOf candidate)) as [(rest & E & ->)|(l & ->)].
    + intros Hr. exists rest. split; [done|]. intros s Hs. destruct rest as [|t rest]; [done|]. injection Hs as ->.
      rewrite E, Forall_app, Forall_cons in Hp. destruct Hp as (_ & Hs & _). rewrite startsWith_join in Hr by done.
      destruct (startsWith (js "..") s); [|done]. cbn [negb andb] in Hr. rewrite orb_false_r in Hr. apply bool_decide_eq_true in Hr.
      rewrite joinWith_cons in Hr. destruct Hs as (Hne & _). by destruct rest, s.
    + rewrite joinWith_cons. by destruct l.
  - intros (rest & E & Hh). rewrite E in Hp |- *. rewrite relativeSegments_down.
    destruct rest as [|s rest]; [done|]. apply Forall_app in Hp as [_ Hp]. inversion_clear Hp as [|? ? Hs _].
    rewrite startsWith_join, (Hh s) by done. cbn [negb andb]. apply orb_true_iff. right. apply negb_true_iff, bool_decide_eq_false.
    rewrite joinWith_cons. destruct Hs as (Hne & _ & _ & Hn). destruct s as [|c s]; [done|]. destruct rest; intros [= ->]; apply Hn; by left.
Qed.

(** Without [..] the segments that count are added. *)
Lemma normalSegments_down parts before :
  js ".." ∉ parts → normalSegments false parts before = reverse before ++ filter (λ s, s ≠ [] ∧ s ≠ js ".") parts.
Proof.
  revert before. induction parts as [|s parts IH]; intros before Hn; cbn [normalSegments]; [by rewrite app_nil_r|].
  rewrite not_elem_of_cons in Hn. destruct Hn as [Hs Hn]. rewrite filter_cons.
  case_bool_decide as H1; cbn [orb]; [rewrite decide_False by naive_solver; by apply IH|].
  case_bool_decide as H2; [rewrite decide_False by naive_solver; by apply IH|]. rewrite bool_decide_eq_false_2, decide_True by done.
  by rewrite IH, reverse_cons, <-app_assoc.
Qed.

Lemma normalSegments_app pre rest before : Forall plainSegment pre → normalSegments false (pre ++ rest) before = normalSegments false rest (reverse pre ++ before).
Proof.
  intros Hp. revert before. induction Hp as [|s pre (H1 & H2 & H3 & _) _ IH]; intros before; cbn [app normalSegments]; [done|].
  rewrite !bool_decide_eq_false_2 by done. cbn [orb]. by rewrite IH, reverse_cons, <-app_assoc.
Qed.

Lemma segmentsOf_absolute segs tail :
  Forall plainSegment segs → segmentsOf (SLASH :: joinWith [SLASH] segs ++ SLASH :: tail) = normalSegments false (splitOn SLASH tail) (reverse segs).
Proof.
  intros Hs. unfold segmentsOf, isAbsolute. rewrite bool_decide_eq_true_2 by done. rewrite splitOn_slash.
  change (normalSegments false ([] :: ?l) []) with (normalSegments false l []). destruct segs as [|s segs].
  - cbn [joinWith app]. by rewrite splitOn_slash.
  - rewrite splitOn_joinWith; [|done|eapply Forall_impl; [exact Hs|]; by intros x (_ & _ & _ & ?)]. rewrite normalSegments_app by done. by rewrite app_nil_r.
Qed.

Lemma segmentsOf_root segs : Forall plainSegment segs → segmentsOf (SLASH :: joinWith [SLASH] segs) = segs.
Proof.
  intros Hs. unfold segmentsOf, isAbsolute. rewrite bool_decide_eq_true_2 by done. rewrite splitOn_slash.
  change (normalSegments false ([] :: ?l) []) with (normalSegments false l []). destruct segs as [|s segs]; [done|].
  rewrite splitOn_join; [by rewrite plain_segments|]. eapply Forall_impl; [exact Hs|]. by intros x (_ & _ & _ & ?).
Qed.

(** [p] is [root] or below it. *)
Definition below (root p : jsstr) : Prop := ∃ rest, Forall plainSegment rest ∧ segmentsOf p = segmentsOf root ++ rest.

Lemma staticUrlPathToRelative_ok urlPath relative :
  staticUrlPathToRelative urlPath = Ok relative → relative ≠ [] ∧ isAbsolute relative = false ∧ js ".." ∉ splitOn SLASH relative.
Proof.
  destruct urlPath as [| | | |p| | |]; try done. cbn [staticUrlPathToRelative]. rewrite !check_bind_ok. intros (_ & _ & Ho).
  destruct (decodeURIComponent p) as [decoded|]; [|done]. cbv zeta in Ho. rewrite !check_bind_ok in Ho.
  destruct Ho as (_ & Hc & Ho). rewrite negb_true_iff, orb_false_iff, !bool_decide_eq_false in Hc. destruct Hc as [Hne Hdots]. apply (inj Ok) in Ho as <-. split_and!; [done| |done]. apply bool_decide_eq_false. case_bool_decide; [done|].
  destruct (dropWhile _ (normalizePath decoded)) as [|c r] eqn:E; [done|]. apply dropWhile_head in E. intros [= ->]. by rewrite Z.eqb_refl in E.
Qed.

Lemma resolved_below w urlPath relative :
  staticUrlPathToRelative urlPath = Ok relative → below (resolvePath w) (resolveIn (resolvePath w) relative).
Proof.
  intros (_ & Habs & Hdots)%staticUrlPathToRelative_ok. destruct (resolvePath_shape w) as (segs & Hs & E). unfold below.
  exists (filter (λ s, s ≠ [] ∧ s ≠ js ".") (splitOn SLASH relative)). split.
  { apply Forall_forall. intros s Hin. apply list_elem_of_filter in Hin as [[H1 H2] Hin]. split_and!; [done..|by intros ->|by eapply splitOn_part]. }
  unfold resolveIn. rewrite Habs, E, segmentsOf_root by done.
  assert (∀ p, segmentsOf (resolvePath p) = segmentsOf p) as Hres.
  { intros p. change (resolvePath p) with (SLASH :: joinWith [SLASH] (segmentsOf p)). apply segmentsOf_root, segmentsOf_plain. }
  rewrite Hres. cbn [app]. rewrite segmentsOf_absolute by done. by rewrite normalSegments_down, reverse_involutive.
Qed.

(** *** Paths that are taken as they are *)

(** The relative path of plain segments, one at least *)
Definition plainPath (segs : list jsstr) : Prop := segs ≠ [] ∧ Forall plainSegment segs.

Lemma plainPath_text segs : plainPath segs → ∃ c r, joinWith [SLASH] segs = c :: r ∧ c ≠ SLASH.
Proof.
  intros [Hne Hs]. destruct Hs as [|s segs (Hn & _ & _ & Hsl) Hs]; [done|]. rewrite joinWith_cons. destruct s as [|c s]; [done|].
  exists c. apply not_elem_of_cons in Hsl as [Hc _]. destruct segs; cbn [app]; eauto.
Qed.

Lemma plain_slashes segs : Forall plainSegment segs → Forall (λ s, SLASH ∉ s) segs.
Proof. intros Hs. eapply Forall_impl; [exact Hs|]. by intros x (_ & _ & _ & ?). Qed.

Lemma splitOn_plain segs : plainPath segs → splitOn SLASH (joinWith [SLASH] segs) = segs.
Proof. intros [Hne Hs]. destruct segs as [|s segs]; [done|]. apply splitOn_join. by apply plain_slashes. Qed.

Lemma plainPath_last segs : plainPath segs → last (joinWith [SLASH] segs) ≠ Some SLASH.
Proof.
  intros [Hne Hs]. induction Hs as [|s segs (Hn & _ & _ & Hsl) Hs IH]; [done|]. rewrite joinWith_cons. destruct segs as [|t segs].
  - intros Hl. apply Hsl. by apply last_Some_elem_of.
  - assert (∃ c r, joinWith [SLASH] (t :: segs) = c :: r) as (c & r & E) by (destruct (plainPath_text (t :: segs)) as (c & r & E & _); [done|eauto]).
    rewrite app_assoc, last_app. destruct (last (joinWith [SLASH] (t :: segs))) eqn:El; [by apply IH|]. apply last_None in El. congruence.
Qed.

Lemma normalizePath_plain segs : plainPath segs → normalizePath (SLASH :: joinWith [SLASH] segs) = SLASH :: joinWith [SLASH] segs.
Proof.
  intros Hp. pose proof Hp as [Hne Hs]. destruct (plainPath_text segs Hp) as (c & r & E & Hc). pose proof (plainPath_last segs Hp) as Hl.
  unfold normalizePath. rewrite splitOn_slash, splitOn_plain by done. rewrite (bool_decide_eq_true_2 (head _ = _)) by done. cbn [negb].
  change (normalSegments false ([] :: segs) []) with (normalSegments false segs []). rewrite plain_segments, reverse_nil by done. cbn [app].
  rewrite (bool_decide_eq_false_2 (last _ = _)).
  - rewrite E. cbn [app]. by rewrite app_nil_r.
  - rewrite E in *. intros Hx. by apply Hl.
Qed.

Lemma decodeURI_plain s : 37 ∉ s → decodeURIComponent s = Some s.
Proof.
  unfold decodeURIComponent. induction s as [|c s IH]; [done|]. intros [Hc Hs]%not_elem_of_cons. cbn [decodeURIFrom].
  rewrite (proj2 (Z.eqb_neq c 37)) by congruence. cbn. by rewrite IH.
Qed.

Lemma includesText_absent c t s : c ∉ s → includesText (c :: t) s = false.
Proof.
  induction s as [|d s IH]; intros Hn; cbn [includesText]; [done|]. apply not_elem_of_cons in Hn as [Hc Hn].
  rewrite IH, orb_false_r by done. unfold startsWith. apply bool_decide_eq_false. cbn. by intros [= ->].
Qed.

Lemma lower_absent s : 37 ∉ s → 37 ∉ map asciiLowerUnit s.
Proof.
  intros Hn Hin. apply list_elem_of_fmap in Hin as (c & Hc & Hin). assert (c = 37) as ->; [|done].
  unfold asciiLowerUnit in Hc. destruct (isUpper c) eqn:E; [|done]. unfold isUpper in E. bool_hyps. lia.
Qed.

(** A path that a browser sends for a file with ordinary names *)
Definition ordinary (segs : list jsstr) : Prop :=
  let urlPath := SLASH :: joinWith [SLASH] segs in
  plainPath segs ∧ (37 ∉ urlPath) ∧ hasControlFormatOrBackslash urlPath = false ∧ utf8ByteLength urlPath <= MAX_STATIC_URL_PATH_BYTES.

Lemma staticUrl_ordinary segs : ordinary segs → staticUrlPathToRelative (JStr (SLASH :: joinWith [SLASH] segs)) = Ok (joinWith [SLASH] segs).
Proof.
  intros (Hp & Hpct & Hctl & Hlen). destruct (plainPath_text segs Hp) as (c & r & E & Hc). unfold staticUrlPathToRelative.
  apply check_bind_ok. split.
  { apply negb_true_iff, orb_false_iff. split; [apply Z.eqb_neq; unfold jslen; cbn [length]; lia|]. rewrite utf8ByteLengthExceeds_spec by done. by apply Z.ltb_ge. }
  apply check_bind_ok. split. { apply lower_absent in Hpct. rewrite (includesText_absent 37 (js "2f")), (includesText_absent 37 (js "5c")) by done. done. }
  rewrite decodeURI_plain by done. apply check_bind_ok. split; [by rewrite Hctl|]. cbv zeta. rewrite normalizePath_plain by done.
  rewrite bool_decide_eq_false_2 by (rewrite E; done). cbn [dropWhile]. rewrite Z.eqb_refl.
  assert (dropWhile (λ c, c =? SLASH) (joinWith [SLASH] segs) = joinWith [SLASH] segs) as ->.
  { rewrite E. cbn [dropWhile]. by rewrite (proj2 (Z.eqb_neq c SLASH)). }
  apply check_bind_ok. split; [|done]. apply negb_true_iff, orb_false_iff. rewrite !bool_decide_eq_false, splitOn_plain by done. split; [by rewrite E|].
  destruct Hp as [_ Hs]. rewrite Forall_forall in Hs. intros Hin. by destruct (Hs _ Hin) as (_ & _ & ? & _).
Qed.

Lemma resolved_segments root segs :
  Forall plainSegment root → plainPath segs → resolveIn (SLASH :: joinWith [SLASH] root) (joinWith [SLASH] segs) = SLASH :: joinWith [SLASH] (root ++ segs).
Proof.
  intros Hr Hp. destruct (plainPath_text segs Hp) as (c & r & E & Hc). unfold resolveIn. assert (isAbsolute (joinWith [SLASH] segs) = false) as ->.
  { unfold isAbsolute. rewrite E. apply bool_decide_eq_false. cbn. congruence. }
  change (SLASH :: joinWith [SLASH] (segmentsOf ((SLASH :: joinWith [SLASH] root) ++ [SLASH] ++ joinWith [SLASH] segs)) = SLASH :: joinWith [SLASH] (root ++ segs)).
  cbn [app]. rewrite segmentsOf_absolute, splitOn_plain by done. destruct Hp as [_ Hs]. by rewrite plain_segments, reverse_involutive.
Qed.

End Inside.

(** C31. The file that [serveStatic] looks for, whatever path the request names,
    is below the web root or the root itself: the candidate it makes of the path
    is, and the name next to the root does not begin with two dots.  A path of
    plain segments, without escapes, control, format or backslash characters and
    within the length, is taken as it is: it is the candidate with these segments
    below the root, unless the first begins with two dots; "/" is "index.html".
    [isPathInsideRoot], which is asked before and after links are resolved,
    accepts a path if and only if it is the root or below it and the first name
    below the root does not begin with two dots. *)
Theorem static_path_inside `{WorkingDirectory} w :
  (∀ urlPath candidate, staticCandidate (resolvePath w) urlPath = Some candidate →
    ∃ rest, Forall plainSegment rest ∧ segmentsOf candidate = segmentsOf (resolvePath w) ++ rest ∧ (∀ s, head rest = Some s → startsWith (js "..") s = false)) ∧
  (∀ segs, ordinary segs → (∀ s, head segs = Some s → startsWith (js "..") s = false) →
    staticUrlPathToRelative (JStr (SLASH :: joinWith [SLASH] segs)) = Ok (joinWith [SLASH] segs) ∧
    staticCandidate (resolvePath w) (JStr (SLASH :: joinWith [SLASH] segs)) = Some (SLASH :: joinWith [SLASH] (segmentsOf (resolvePath w) ++ segs))) ∧
  staticUrlPathToRelative (jstr "/") = Ok (js "index.html") ∧
  (∀ urlPath relative, staticUrlPathToRelative urlPath = Ok relative → below (resolvePath w) (resolveIn (resolvePath w) relative)) ∧
  ∀ root candidate, isPathInsideRoot (JStr root) (JStr candidate) = true ↔
    ∃ rest, Forall plainSegment rest ∧ segmentsOf candidate = segmentsOf root ++ rest ∧ (∀ s, head rest = Some s → startsWith (js "..") s = false).
Proof.
  assert (∀ root candidate, isPathInsideRoot (JStr root) (JStr candidate) = true ↔
    ∃ rest, Forall plainSegment rest ∧ segmentsOf candidate = segmentsOf root ++ rest ∧ (∀ s, head rest = Some s → startsWith (js "..") s = false)) as Hin.
  { intros root candidate. rewrite isPathInsideRoot_spec. split.
    - intros (rest & E & Hh). exists rest. split_and!; [|done..]. pose proof (segmentsOf_plain candidate) as Hp. rewrite E in Hp. by apply Forall_app in Hp as [_ ?].
    - intros (rest & _ & E & Hh). by exists rest. }
  split_and!; [| |by vm_compute|intros urlPath relative Hr; by eapply resolved_below|exact Hin].
  - intros urlPath candidate Hc. unfold staticCandidate in Hc. destruct (staticUrlPathToRelative urlPath) as [relative|]; [|done]. cbv zeta in Hc.
    destruct (isPathInsideRoot _ _) eqn:E; [|done]. injection Hc as <-. by apply Hin.
  - intros segs Hord Hh. pose proof (staticUrl_ordinary segs Hord) as Hu. split; [done|]. destruct Hord as [Hp _]. pose proof Hp as [_ Hs].
    destruct (resolvePath_shape w) as (root & Hr & E). unfold staticCandidate. rewrite Hu, E, segmentsOf_root, resolved_segments by done. cbv zeta.
    rewrite (proj2 (Hin _ _)); [done|]. exists segs. rewrite !segmentsOf_root by (try apply Forall_app; done). by split_and!.
Qed.

Section Witness.
Definition webDirectory : WorkingDirectory := {| cwd := js "/srv" |}.
#[local] Existing Instance webDirectory.

(** An escaped path that goes up and down again, and an ordinary one *)
Lemma static_path_inside_witness :
  staticCandidate (js "/srv/web") (jstr "/%61ssets/x/%2e%2e/../../assets/./app.js") = Some (js "/srv/web/assets/app.js") ∧
  below (js "/srv/web") (js "/srv/web/assets/app.js") ∧
  staticCandidate (js "/srv/web") (jstr "/assets/app.js") = Some (js "/srv/web/assets/app.js").
Proof.
  destruct (static_path_inside (js "web")) as (_ & Ho & _ & Hb & _). split; [by vm_compute|]. split.
  - apply (Hb (jstr "/%61ssets/x/%2e%2e/../../assets/./app.js") (js "assets/app.js")). by vm_compute.
  - apply (Ho [js "assets"; js "app.js"]); [|by intros s [= <-]]. split_and!; try by vm_compute.
    + split; [done|]. repeat constructor; apply (bool_decide_unpack _); by vm_compute.
    + apply (bool_decide_unpack _). by vm_compute.
Defined.

End Witness.
