(* ===== verification/HttpServer.v ===== *)
(** * HttpServer: the HTTP side of the server ([src/server/index.ts]).

    The request handler up to the point where a file is served, the check of
    WebSocket upgrades, and the headers of [src/server/security-headers.ts].
    The clock and the package's name and version are parameters; the rate
    limiters are those of [RateLimit].  Reading files below the web root
    ([serveStatic] after its path check) is not modelled. *)
From S2P Require Import Prelude.
From S2P Require Import Constants.
From S2P Require Import JsText.
From S2P Require Import JsValue.
From S2P Require Import Json.
From S2P Require Import Authority.
From S2P Require Import RateLimit.
From S2P Require Import FileSystem.
From S2P Require Import Ice.
From S2P Require Import HttpRequest.
From S2P Require Import ServerConfig.
From S2P Require Import ServerConfigProps.
From S2P Require Import StaticPath.
#[local] Open Scope Z_scope.

(** ** security-headers.ts *)

Abbreviation headers := (list (jsstr * jsstr)).
Definition literalHeaders (l : list (string * string)) : headers := map (λ h, (js h.1, js h.2)) l.

Definition LOOPBACK_WS_SOURCES : list jsstr := [js "ws://localhost:*"; js "ws://127.0.0.1:*"; js "ws://[::1]:*"].
Definition PERMISSIONS_POLICY : jsstr :=
  joinWith (js ", ") (map js
    ["accelerometer=()"; "ambient-light-sensor=()"; "autoplay=()"; "bluetooth=()"; "browsing-topics=()"; "camera=()"; "display-capture=()";
     "encrypted-media=()"; "fullscreen=()"; "gamepad=()"; "geolocation=()"; "gyroscope=()"; "hid=()"; "identity-credentials-get=()"; "idle-detection=()";
     "local-fonts=()"; "magnetometer=()"; "microphone=()"; "midi=()"; "otp-credentials=()"; "payment=()"; "picture-in-picture=()";
     "publickey-credentials-create=()"; "publickey-credentials-get=()"; "screen-wake-lock=()"; "serial=()"; "speaker-selection=()"; "usb=()";
     "web-share=()"; "xr-spatial-tracking=()"]).

(** [ownBooleanOption] and [securityHeaderOptions] *)
Definition ownBooleanOption (options : jsval) (key : string) : bool :=
  match getOwnProperty (KStr (js key)) (ownProps options) with Some (PData _ (JBool b)) => b | _ => false end.
Definition securityHeaderOptions (options : jsval) : bool * bool :=
  match options with
  | JObj _ _ => (ownBooleanOption options "allowAnyWss", ownBooleanOption options "allowLoopbackWs")
  | _ => (false, false)
  end.

(** [securityHeaders] *)
Definition contentSecurityPolicy (connectSrc : jsstr) : jsstr :=
  js "default-src 'self'; script-src 'self'; script-src-elem 'self'; script-src-attr 'none'; style-src 'self'; style-src-elem 'self'; style-src-attr 'none'; connect-src " ++ connectSrc ++
  js "; img-src 'self'; font-src 'none'; media-src 'none'; object-src 'none'; worker-src 'none'; child-src 'none'; frame-src 'none'; prefetch-src 'none'; base-uri 'none'; frame-ancestors 'none'; form-action 'none'; manifest-src 'none'; require-trusted-types-for 'script'; trusted-types ff-static".
Definition securityHeaders (html : bool) (options : jsval) : headers :=
  let '(allowAnyWss, allowLoopbackWs) := securityHeaderOptions options in
  let connectSrc := joinWith (js " ") ([js "'self'"] ++ (if allowAnyWss then [js "wss:"] else []) ++ (if allowLoopbackWs then LOOPBACK_WS_SOURCES else [])) in
  literalHeaders
    [("x-content-type-options", "nosniff"); ("x-download-options", "noopen"); ("x-permitted-cross-domain-policies", "none");
     ("referrer-policy", "no-referrer"); ("x-frame-options", "DENY"); ("strict-transport-security", "max-age=63072000; includeSubDomains; preload");
     ("cross-origin-opener-policy", "same-origin"); ("cross-origin-embedder-policy", "require-corp"); ("cross-origin-resource-policy", "same-origin");
     ("origin-agent-cluster", "?1")] ++
  [(js "permissions-policy", PERMISSIONS_POLICY)] ++
  (if html then [(js "content-security-policy", contentSecurityPolicy connectSrc)] else []).

(** ** Replies *)

(** What the handler does with the response: [json] and [methodNotAllowed]
    write a JSON body, or a file is looked for. *)
Inductive Reply :=
| JsonReply (status : Z) (replyHeaders : headers) (body : jsval)
| ServeStatic (urlPath : jsstr) (cors : headers).

Definition noOptions : jsval := obj [].

(** [errorConnectionHeader], [json] and [methodNotAllowed] *)
Definition errorConnectionHeader (status : Z) : headers := if (200 <=? status) && (status <? 300) then [] else literalHeaders [("connection", "close")].
Definition json (status : Z) (body : jsval) (extraHeaders : headers) : Reply :=
  JsonReply status
    (literalHeaders [("content-type", "application/json; charset=utf-8"); ("cache-control", "no-store")] ++ extraHeaders ++ errorConnectionHeader status ++
     securityHeaders false noOptions) body.
Definition methodNotAllowed (extraHeaders : headers) : Reply :=
  JsonReply 405
    (literalHeaders [("allow", "GET"); ("connection", "close"); ("content-type", "application/json; charset=utf-8"); ("cache-control", "no-store")] ++
     extraHeaders ++ securityHeaders false noOptions)
    (obj [(js "error", jstr "method_not_allowed")]).
Definition errorBody (code : string) : jsval := obj [(js "error", jstr code)].

(** [contentType] *)
Definition contentType (filePath : jsstr) : jsstr :=
  if endsWith (js ".html") filePath then js "text/html; charset=utf-8"
  else if endsWith (js ".js") filePath then js "text/javascript; charset=utf-8"
  else if endsWith (js ".css") filePath then js "text/css; charset=utf-8"
  else if endsWith (js ".svg") filePath then js "image/svg+xml"
  else if endsWith (js ".json") filePath then js "application/json; charset=utf-8"
  else js "application/octet-stream".

(** [PACKAGE_NAME] and [PACKAGE_VERSION] *)
Class PackageInfo := { PACKAGE_NAME : jsstr; PACKAGE_VERSION : jsstr }.

(** The limiters of requests that the module keeps *)
Record HttpLimits := { iceHttpRateLimits : gmap jsstr (list Z); staticHttpRateLimits : gmap jsstr (list Z); websocketConnectionRateLimits : gmap jsstr (list Z) }.
Definition set_ice t l := {| iceHttpRateLimits := t; staticHttpRateLimits := staticHttpRateLimits l; websocketConnectionRateLimits := websocketConnectionRateLimits l |}.
Definition set_static t l := {| iceHttpRateLimits := iceHttpRateLimits l; staticHttpRateLimits := t; websocketConnectionRateLimits := websocketConnectionRateLimits l |}.
Definition set_websocket t l := {| iceHttpRateLimits := iceHttpRateLimits l; staticHttpRateLimits := staticHttpRateLimits l; websocketConnectionRateLimits := t |}.

Section Handler.
Context `{UrlParser, JsCase, NodeNet, JsToNumber, JsNumbers, WorkingDirectory, ServerPlatform, PackageInfo}.
Variable config : ServerConfig.

(** [requestIp] *)
Definition requestIp (req : jsval) : jsstr := requestRemoteAddress req (jint (c_trustedProxyHops config)) (arr (map JStr (c_trustedProxyIps config))).

(** [hitStaticHttpRateLimit], [hitIceConfigHttpRateLimit] and [hitWebSocketConnectionRateLimit] *)
Definition hitStaticHttpRateLimit (req : jsval) (now : Z) (l : HttpLimits) : bool * HttpLimits :=
  let '(ok, t) := hitFixedWindowRateLimit (staticHttpRateLimits l) (requestIp req) now 60000 STATIC_MAX_REQUESTS_PER_MINUTE in (ok, set_static t l).
Definition hitIceConfigHttpRateLimit (req : jsval) (now : Z) (l : HttpLimits) : bool * HttpLimits :=
  let '(ok, t) := hitIceConfigRateLimit (iceHttpRateLimits l) (requestIp req) now in (ok, set_ice t l).
Definition hitWebSocketConnectionRateLimit (req : jsval) (now : Z) (l : HttpLimits) : bool * HttpLimits :=
  let '(ok, t) := hitFixedWindowRateLimit (websocketConnectionRateLimits l) (requestIp req) now 60000 SIGNALING_MAX_CONNECTION_ATTEMPTS_PER_MINUTE in
  (ok, set_websocket t l).

(** [requestLooksPublic] and [versionResponse] *)
Definition requestLooksPublic (req : jsval) : bool :=
  requestHasForwardedHeaderEvidence req || match requestHostAuthority req with None => true | Some authority => negb (isLoopbackAuthority authority) end.
Definition versionResponse (req : jsval) : jsval :=
  obj ([(js "protocolVersion", jint PROTOCOL_VERSION)] ++
       (if c_hardenedDeployment config || requestLooksPublic req then [] else [(js "name", JStr PACKAGE_NAME); (js "version", JStr PACKAGE_VERSION)])).

(** [requestCorsHeaders] *)
Definition requestCorsHeaders (req : jsval) : option headers :=
  match requestOriginHeader req with
  | HNull => None
  | HUndefined => corsHeaders HUndefined (c_allowedOrigins config)
  | HText origin =>
    if negb (originAllowedForRequest (HText origin) (c_allowedOrigins config) (requestHostAuthority req)) then None
    else corsHeaders (HText origin) (c_allowedOrigins config)
  end.

(** The callback of [http.createServer], at the times [now] and [later] *)
Definition handleRequest (req : jsval) (now later : Z) (l : HttpLimits) : result (Reply * HttpLimits) :=
  let '(ok, l) := hitStaticHttpRateLimit req now l in
  if negb ok then Ok (json 429 (errorBody "rate_limited") [], l)
  else match requestCorsHeaders req with
  | None => Ok (json 403 (errorBody "origin_forbidden") [], l)
  | Some cors =>
    match requestUrl req with
    | None => Ok (json 400 (errorBody "bad_request") cors, l)
    | Some url =>
      if negb (bool_decide (requestMethod req = Some (js "GET"))) then Ok (methodNotAllowed cors, l)
      else if bool_decide (url_pathname url = js "/healthz") then Ok (json 200 (obj [(js "ok", JBool true)]) cors, l)
      else if bool_decide (url_pathname url = js "/v1/version") then Ok (json 200 (versionResponse req) cors, l)
      else if bool_decide (url_pathname url = js "/v1/ice") then
        let '(ok, l) := hitIceConfigHttpRateLimit req later l in
        if negb ok then Ok (json 429 (errorBody "rate_limited") cors, l)
        else servers ← iceServersForUnauthenticatedRequest (configValue config); Ok (json 200 (obj [(js "iceServers", rtcServersValue servers)]) cors, l)
      else Ok (ServeStatic (url_pathname url) cors, l)
    end
  end.

(** [verifyOrigin], which decides on a WebSocket upgrade *)
Definition verifyOrigin (req : jsval) (now : Z) (l : HttpLimits) : bool * HttpLimits :=
  let '(ok, l) := hitWebSocketConnectionRateLimit req now l in
  if negb ok then (false, l)
  else match requestHostAuthority req, requestBaseUrl req with
       | Some authority, Some _ =>
         match requestOriginHeader req with
         | HText origin => (originAllowedForRequest (HText origin) (c_allowedOrigins config) (Some authority), l)
         | _ => (false, l)
         end
       | _, _ => (false, l)
       end.

End Handler.

(** ** Theorems *)

Section Props.
Context `{UrlParser, JsCase, NodeNet, JsToNumber, JsNumbers, WorkingDirectory, ServerPlatform, PackageInfo}.

Lemma requestOriginHeader_valid req origin : requestOriginHeader req = HText origin → isValidOriginHeader origin = true.
Proof.
  unfold requestOriginHeader. destruct (rawHeaderValue req (js "origin")) as [| |s]; [done..|]. destruct (isValidOriginHeader s) eqn:E; [|done]. by intros [= <-].
Qed.

Lemma requestHostAuthority_valid req host : requestHostAuthority req = Some host → isValidAuthority host = true.
Proof.
  unfold requestHostAuthority. destruct (rawHeaderValue req (js "host")) as [| |s]; [done..|]. destruct (isValidHostHeader s) eqn:E; [|done]. intros [= <-].
  unfold isValidHostHeader in E. by apply andb_prop in E as [_ E].
Qed.

(** What an upgrade that is accepted has *)
Definition upgradeOk (env : jsval) (c : ServerConfig) (req : jsval) : Prop :=
  ∃ host origin, requestHostAuthority req = Some host ∧ isValidAuthority host = true ∧
    requestOriginHeader req = HText origin ∧ isValidOriginHeader origin = true ∧
    match c_allowedOrigins c with
    | Some allowed => origin ∈ allowed ∧ exactOrigin origin ∧
        (c_hardenedDeployment c = true → ownDataValue env (js "ALLOW_INSECURE_ORIGINS") ≠ jstr "true" → startsWith (js "http://") origin = false)
    | None => c_hardenedDeployment c = false ∧ isLoopbackAuthority host = true ∧ originUsesLoopbackAuthority origin = true
    end.

Lemma accepted_upgrade env c req now l l' :
  loadServerConfig env = Ok c → verifyOrigin c req now l = (true, l') →
  upgradeOk env c req ∧ RateLimit.allowed (recordFixedWindowHit (default [] (websocketConnectionRateLimits l !! requestIp c req)) now 60000 SIGNALING_MAX_CONNECTION_ATTEMPTS_PER_MINUTE) = true.
Proof.
  intros Hc Hv. apply loaded_config_ok in Hc as [Hok Hhard]. unfold verifyOrigin, hitWebSocketConnectionRateLimit, hitFixedWindowRateLimit in Hv.
  destruct (RateLimit.allowed _); [|done]. split; [|done]. cbn [negb] in Hv. unfold upgradeOk.
  destruct (requestHostAuthority req) as [host|] eqn:Eh; [|done]. destruct (requestBaseUrl req); [|done].
  destruct (requestOriginHeader req) as [| |origin] eqn:Eo; [done..|]. injection Hv as Ho _. exists host, origin.
  split_and!; [done|by eapply requestHostAuthority_valid|done|by eapply requestOriginHeader_valid|].
  unfold originAllowedForRequest, originAllowed, allowedOriginContains in Ho. destruct (c_allowedOrigins c) as [allowed|] eqn:Ea.
  - destruct (bool_decide (origin ∈ allowed)) eqn:Ein; [|by rewrite andb_false_r in Ho]. apply bool_decide_eq_true in Ein. destruct (co_origins c Hok _ Ea) as (_ & _ & Hall).
    rewrite Forall_forall in Hall. split_and!; [done|by apply Hall|]. intros Hh Hi. rewrite Hh in Hhard. destruct (po_origins _ _ Hhard) as (m & Hm & Hsec).
    rewrite Ea in Hm. injection Hm as <-. specialize (Hsec Hi). rewrite Forall_forall in Hsec. by apply Hsec.
  - cbn [negb] in Ho. apply andb_prop in Ho as [Hl1 Hl2]. split_and!; [|done..]. destruct (c_hardenedDeployment c); [|done]. destruct (po_origins _ _ Hhard) as (m & Hm & _). congruence.
Qed.

Definition replyHeaders (r : Reply) : headers := match r with JsonReply _ h _ => h | ServeStatic _ h => h end.
Definition ALLOW_ORIGIN : jsstr := js "access-control-allow-origin".

(** The CORS headers of a request *)
Definition corsOf (c : ServerConfig) (req : jsval) (cors : headers) : Prop :=
  ∀ v, (ALLOW_ORIGIN, v) ∈ cors → match c_allowedOrigins c with Some allowed => requestOriginHeader req = HText v ∧ v ∈ allowed | None => v = js "*" end.

Lemma corsOf_nil c req : corsOf c req [].
Proof. by intros v ?%not_elem_of_nil. Qed.

Lemma requestCorsHeaders_of c req cors : requestCorsHeaders c req = Some cors → corsOf c req cors.
Proof.
  unfold requestCorsHeaders, corsHeaders, corsOf, allowedOriginContains. destruct (requestOriginHeader req) as [| |origin]; [done| |].
  - destruct (c_allowedOrigins c); intros [= <-] v; [by intros ?%not_elem_of_nil|]. by intros [= <-]%list_elem_of_singleton.
  - destruct (negb _); [done|]. destruct (c_allowedOrigins c) as [allowed|].
    + destruct (bool_decide (origin ∈ allowed)) eqn:E; [|by rewrite andb_false_r]. apply bool_decide_eq_true in E. destruct (_ && _); [|done].
      intros [= <-] v Hv. rewrite !elem_of_cons in Hv. destruct Hv as [[= ->]|[Hv|Hv]]; [done|discriminate Hv|by apply not_elem_of_nil in Hv].
    + intros [= <-] v. by intros [= <-]%list_elem_of_singleton.
Qed.

(** The headers that every reply has grant nothing. *)
Lemma fixed_headers (l : headers) (v : jsstr) : forallb (λ h, negb (bool_decide (h.1 = ALLOW_ORIGIN))) l = true → (ALLOW_ORIGIN, v) ∉ l.
Proof. intros Hl Hv. rewrite forallb_forall in Hl. specialize (Hl _ (proj1 (list_elem_of_In _ _) Hv)). by rewrite bool_decide_eq_true_2 in Hl. Qed.

Lemma json_cors c req status body cors : corsOf c req cors → corsOf c req (replyHeaders (json status body cors)).
Proof.
  intros Hc v Hv. apply Hc. unfold json, replyHeaders in Hv. rewrite !elem_of_app in Hv. destruct Hv as [Hv|[Hv|[Hv|Hv]]]; [|done|..]; exfalso; revert Hv; apply fixed_headers.
  - by vm_compute.
  - unfold errorConnectionHeader. by destruct (_ && _); vm_compute.
  - by vm_compute.
Qed.

Lemma methodNotAllowed_cors c req cors : corsOf c req cors → corsOf c req (replyHeaders (methodNotAllowed cors)).
Proof.
  intros Hc v Hv. apply Hc. unfold methodNotAllowed, replyHeaders in Hv. rewrite !elem_of_app in Hv. destruct Hv as [Hv|[Hv|Hv]]; [|done|]; exfalso; revert Hv; apply fixed_headers; by vm_compute.
Qed.

(** A reply with ICE servers has public ones only. *)
Definition iceOf (r : Reply) : Prop := ∀ status h v, r = JsonReply status h (obj [(js "iceServers", v)]) → ∃ l, v = rtcServersValue l ∧ l ≠ [] ∧ Forall publicOnly l.

Lemma handleRequest_replies env c req now later l :
  loadServerConfig env = Ok c →
  ∃ reply l', handleRequest c req now later l = Ok (reply, l') ∧ corsOf c req (replyHeaders reply) ∧ iceOf reply.
Proof.
  intros [Hc _]%loaded_config_ok. unfold handleRequest. destruct (hitStaticHttpRateLimit c req now l) as [ok l1]. destruct ok; cbn [negb]; cycle 1.
  { eexists _, _. split; [done|]. split; [apply json_cors, corsOf_nil|done]. }
  destruct (requestCorsHeaders c req) as [cors|] eqn:E; [|by eexists _, _; split; [|split; [apply json_cors, corsOf_nil|]]]. apply requestCorsHeaders_of in E.
  destruct (requestUrl req) as [url|]; [|by eexists _, _; split; [|split; [by apply json_cors|]]].
  case_bool_decide; cbn [negb]; [|by eexists _, _; split; [|split; [by apply methodNotAllowed_cors|]]].
  case_bool_decide; [by eexists _, _; split; [|split; [by apply json_cors|]]|].
  case_bool_decide; [eexists _, _; split; [done|split; [by apply json_cors|]]; intros status h v; unfold versionResponse; by destruct (_ || _)|].
  case_bool_decide; [|by eexists _, _; split; [|split]]. destruct (hitIceConfigHttpRateLimit c req later l1) as [ok l2]. destruct ok; cbn [negb]; cycle 1.
  { eexists _, _. split; [done|]. by split; [apply json_cors|]. }
  destruct (unauthenticated_loaded c Hc) as [servers Es]. rewrite Es. cbn [mbind result_bind]. eexists _, _. split; [done|]. split; [by apply json_cors|].
  intros status h v Hr. exists servers. apply unauthenticated_public in Es. split; [|done]. unfold json in Hr. by injection Hr.
Qed.

End Props.

(** C26. With a configuration that was loaded, a WebSocket upgrade is accepted
    only within the address's budget of connection attempts, with one valid
    Host header and one valid Origin header: the origin is one of the
    configured ones (not a plain-HTTP one on a hardened server that did not ask
    for it) or, where no origins are configured, the server is a local one and
    both headers name loopback hosts. *)
Theorem upgrade_gate `{UrlParser, JsCase, NodeNet, JsToNumber, JsNumbers, WorkingDirectory, ServerPlatform} env c req now l l' :
  loadServerConfig env = Ok c → verifyOrigin c req now l = (true, l') →
  upgradeOk env c req ∧
  RateLimit.allowed (recordFixedWindowHit (default [] (websocketConnectionRateLimits l !! requestIp c req)) now 60000 SIGNALING_MAX_CONNECTION_ATTEMPTS_PER_MINUTE) = true.
Proof. apply accepted_upgrade. Qed.

(** C27. With a configuration that was loaded, the request handler answers every
    request (it does not throw): cross-origin access is granted only to the
    request's own origin when it is configured, or to everyone where no origins
    are configured, and the ICE servers of a reply are STUN servers without
    credentials. *)
Theorem http_replies `{UrlParser, JsCase, NodeNet, JsToNumber, JsNumbers, WorkingDirectory, ServerPlatform, PackageInfo} env c req now later l :
  loadServerConfig env = Ok c →
  ∃ reply l', handleRequest c req now later l = Ok (reply, l') ∧ corsOf c req (replyHeaders reply) ∧ iceOf reply.
Proof. apply handleRequest_replies. Qed.

(** ** Requests to the public deployment of [ServerConfigProps] *)

Section Witnesses.
#[local] Existing Instances asciiCase decimalNumbers digitNumbers exampleUrls exampleDirectory examplePlatform.
Definition examplePackage : PackageInfo := {| PACKAGE_NAME := js "ff"; PACKAGE_VERSION := js "1.0.0" |}.
(** Request targets are taken as paths. *)
Definition pathUrls : NodeNet :=
  {| isIP := @isIP dottedNet; blockListCheck := @blockListCheck dottedNet;
     resolveUrl target base :=
       Some {| url_protocol := js "http:"; url_username := []; url_password := []; url_hostname := js "files.example"; url_host := js "files.example";
               url_port := []; url_pathname := target; url_search := []; url_hash := []; url_href := base ++ target; url_origin := base |} |}.
#[local] Existing Instances examplePackage pathUrls.
Definition exampleRequest (target : string) : jsval :=
  obj [(js "method", jstr "GET"); (js "url", jstr target);
       (js "rawHeaders", arr [jstr "Host"; jstr "files.example"; jstr "Origin"; JStr exampleOrigin]);
       (js "socket", obj [(js "remoteAddress", jstr "203.0.113.9")])].
Definition noHits : HttpLimits := {| iceHttpRateLimits := ∅; staticHttpRateLimits := ∅; websocketConnectionRateLimits := ∅ |}.

Lemma upgrade_gate_witness :
  ∃ c l', loadServerConfig exampleEnv = Ok c ∧ verifyOrigin c (exampleRequest "/v1/ws") 1000 noHits = (true, l') ∧ upgradeOk exampleEnv c (exampleRequest "/v1/ws").
Proof.
  destruct (loadServerConfig exampleEnv) as [c|e] eqn:E; [|exfalso; revert E; by vm_compute].
  assert (match loadServerConfig exampleEnv with Ok c => (verifyOrigin c (exampleRequest "/v1/ws") 1000 noHits).1 | Err _ => false end = true) as Hv by by vm_compute.
  rewrite E in Hv. destruct (verifyOrigin c (exampleRequest "/v1/ws") 1000 noHits) as [ok l'] eqn:Eo. cbn [fst] in Hv. subst ok.
  exists c, l'. split; [done|]. split; [done|]. exact (proj1 (upgrade_gate exampleEnv c _ 1000 noHits l' E Eo)).
Defined.

Lemma http_replies_witness :
  ∃ c reply l', loadServerConfig exampleEnv = Ok c ∧ handleRequest c (exampleRequest "/v1/ice") 1000 1001 noHits = Ok (reply, l') ∧
    iceOf reply ∧ (ALLOW_ORIGIN, exampleOrigin) ∈ replyHeaders reply.
Proof.
  destruct (loadServerConfig exampleEnv) as [c|e] eqn:E; [|exfalso; revert E; by vm_compute].
  destruct (http_replies exampleEnv c (exampleRequest "/v1/ice") 1000 1001 noHits E) as (reply & l' & Hr & _ & Hi). exists c, reply, l'. split_and!; [done..|].
  assert (match loadServerConfig exampleEnv with
          | Ok c => match handleRequest c (exampleRequest "/v1/ice") 1000 1001 noHits with
                    | Ok (reply, _) => bool_decide ((ALLOW_ORIGIN, exampleOrigin) ∈ replyHeaders reply)
                    | Err _ => false
                    end
          | Err _ => false
          end = true) as Hv by by vm_compute.
  rewrite E, Hr in Hv. by apply bool_decide_eq_true in Hv.
Defined.

End Witnesses.
