(* ===== verification/Signals.v ===== *)
(** * Signals: WebRTC signals that arrive before or more than once.

    The queue that keeps signals until someone listens
    ([src/shared/signal-queue.ts]) and the guard against replayed signals
    ([src/shared/signal-replay.ts]).  The theorems give the queue's bounds and
    order over any sequence of operations, and show that the guard, which keeps
    two flags and a set of JSON texts, decides as a comparison with everything
    that was accepted before. *)
From S2P Require Import Prelude.
From S2P Require Import Constants.
From S2P Require Import JsText.
From S2P Require Import JsValue.
From S2P Require Import Json.
From S2P Require Import Authority.
From S2P Require Import Messages.
From S2P Require Import Wire.
#[local] Open Scope Z_scope.

(** ** SignalMessageQueue *)

(** [None] for [maxBytes] is an infinite limit. *)
Record SignalMessageQueue := { sq_messages : list jsval; sq_bufferedBytes : Z; sq_maxMessages : Z; sq_maxBytes : option Z }.

(** [queueLimitInput], but for the infinite limit *)
Definition queueLimitInput (value : jsval) (label : string) (max : Z) : result Z :=
  match value with
  | jint limit => check (isSafeInteger limit && (1 <=? limit) && (limit <=? max)) ("Signal queue " ++ label ++ " limit is invalid.")%string;; Ok limit
  | _ => throw ("Signal queue " ++ label ++ " limit is invalid.")%string
  end.

(** The constructor; its second argument is infinite by default. *)
Definition newSignalMessageQueue (maxMessages : jsval) (maxBytes : option jsval) : result SignalMessageQueue :=
  messageLimit ← queueLimitInput maxMessages "message" MAX_BUFFERED_SIGNAL_MESSAGES;
  byteLimit ← match maxBytes with
              | None => Ok None
              | Some value => limit ← queueLimitInput value "byte" SIGNALING_MAX_BUFFERED_BYTES; Ok (Some limit)
              end;
  Ok {| sq_messages := []; sq_bufferedBytes := 0; sq_maxMessages := messageLimit; sq_maxBytes := byteLimit |}.

Section Queue.
Context `{JsNumbers, UrlParser, JsCase}.

(** [isServerMessage(message) && message.type === "signal"] *)
Definition isSignalMessage (message : jsval) : bool := isServerMessage message && isLit (field message "type") (js "signal").

(** [copySignalMessage] *)
Definition copySignalMessage (message : jsval) : result (jsval * Z) :=
  check (isSignalMessage message) "Buffered WebRTC signal message is invalid.";;
  serialized ← serializeMessage message;
  let parsed := parseJsonMessage serialized in
  check (isSignalMessage parsed) "Buffered WebRTC signal message is invalid.";;
  Ok (parsed, Z.of_nat (length (utf8Encode serialized))).

(** [push] *)
Definition queuePush (q : SignalMessageQueue) (message : jsval) : result SignalMessageQueue :=
  check (negb (sq_maxMessages q <=? Z.of_nat (length (sq_messages q)))) "Too many buffered WebRTC signal messages.";;
  copied ← copySignalMessage message;
  let '(copy, messageBytes) := copied in
  check (match sq_maxBytes q with Some maxBytes => sq_bufferedBytes q + messageBytes <=? maxBytes | None => true end) "Too many buffered WebRTC signal bytes.";;
  Ok {| sq_messages := sq_messages q ++ [copy]; sq_bufferedBytes := sq_bufferedBytes q + messageBytes;
        sq_maxMessages := sq_maxMessages q; sq_maxBytes := sq_maxBytes q |}.

(** [drain] *)
Definition queueDrain (q : SignalMessageQueue) : list jsval * SignalMessageQueue :=
  (sq_messages q, {| sq_messages := []; sq_bufferedBytes := 0; sq_maxMessages := sq_maxMessages q; sq_maxBytes := sq_maxBytes q |}).

End Queue.

(** ** WebRtcSignalReplayGuard *)

Record ReplayGuard := { rg_answerOffers : bool; rg_seenOffer : bool; rg_seenAnswer : bool; rg_seenCandidates : gset jsstr }.

(** The constructor *)
Definition newReplayGuard (answerOffers : bool) : ReplayGuard :=
  {| rg_answerOffers := answerOffers; rg_seenOffer := false; rg_seenAnswer := false; rg_seenCandidates := ∅ |}.

Definition invalidReplay : string := "WebRTC signal replay payload is invalid.".
Definition isString (v : jsval) : bool := match v with JStr _ => true | _ => false end.
Definition isNumber (v : jsval) : bool := match v with JNum _ => true | _ => false end.
(** [v ?? other] *)
Definition orElse (v other : jsval) : jsval := if isNullish v then other else v.

(** The object that [candidateReplayKey] writes *)
Definition replayFields (source : jsval) : jsval :=
  obj [(js "candidate", field source "candidate"); (js "sdpMid", orElse (field source "sdpMid") JNull);
       (js "sdpMLineIndex", orElse (field source "sdpMLineIndex") JNull); (js "usernameFragment", orElse (field source "usernameFragment") (JStr []))].

(** [candidateReplayKey] *)
Definition candidateReplayKey (signal : jsval) : result jsstr :=
  let source := field signal "candidate" in
  check (isObjectLike source) invalidReplay;;
  check (isString (field source "candidate")) invalidReplay;;
  check (isNullish (field source "sdpMid") || isString (field source "sdpMid")) invalidReplay;;
  check (isNullish (field source "sdpMLineIndex") || isNumber (field source "sdpMLineIndex")) invalidReplay;;
  check (isUndefined (field source "usernameFragment") || isString (field source "usernameFragment")) invalidReplay;;
  Ok (jsonStringify (replayFields source)).

(** [accept] *)
Definition replayAccept (g : ReplayGuard) (signal : jsval) : result ReplayGuard :=
  check (isObjectLike signal) invalidReplay;;
  let kind := field signal "kind" in
  if isLit kind (js "offer") then
    check (rg_answerOffers g) "Unexpected WebRTC offer signal.";;
    check (negb (rg_seenOffer g)) "Duplicate WebRTC offer signal.";;
    Ok {| rg_answerOffers := rg_answerOffers g; rg_seenOffer := true; rg_seenAnswer := rg_seenAnswer g; rg_seenCandidates := rg_seenCandidates g |}
  else if isLit kind (js "answer") then
    check (negb (rg_answerOffers g)) "Unexpected WebRTC answer signal.";;
    check (negb (rg_seenAnswer g)) "Duplicate WebRTC answer signal.";;
    Ok {| rg_answerOffers := rg_answerOffers g; rg_seenOffer := rg_seenOffer g; rg_seenAnswer := true; rg_seenCandidates := rg_seenCandidates g |}
  else
    check (isLit kind (js "candidate")) invalidReplay;;
    key ← candidateReplayKey signal;
    check (negb (bool_decide (key ∈ rg_seenCandidates g))) "Duplicate WebRTC ICE candidate signal.";;
    Ok {| rg_answerOffers := rg_answerOffers g; rg_seenOffer := rg_seenOffer g; rg_seenAnswer := rg_seenAnswer g;
          rg_seenCandidates := {[key]} ∪ rg_seenCandidates g |}.

(** ** The queue over any sequence of operations *)

Inductive queueOp := QPush (message : jsval) | QDrain.

(** The messages that were taken in, those that were drained, and the queue;
    a push that throws changes nothing. *)
Definition queueStep `{JsNumbers, UrlParser, JsCase} (op : queueOp) (st : list jsval * list jsval * SignalMessageQueue) : list jsval * list jsval * SignalMessageQueue :=
  let '(pushed, drained, q) := st in
  match op with
  | QPush message => match queuePush q message with Ok q' => (pushed ++ [message], drained, q') | Err _ => st end
  | QDrain => (pushed, drained ++ (queueDrain q).1, (queueDrain q).2)
  end.
Definition queueRun `{JsNumbers, UrlParser, JsCase} (ops : list queueOp) (q : SignalMessageQueue) : list jsval * list jsval * SignalMessageQueue :=
  foldl (λ st op, queueStep op st) ([], [], q) ops.

(** The bytes of the frame that carries a message *)
Definition frameBytes (message : jsval) : Z := Z.of_nat (length (utf8Encode (jsonStringify message))).
Definition framesBytes (l : list jsval) : Z := foldr (λ m n, frameBytes m + n) 0 l.

Section Queue_props.
Context `{JsNumbers, UrlParser, JsCase}.

Lemma framesBytes_app l l' : framesBytes (l ++ l') = framesBytes l + framesBytes l'.
Proof. unfold framesBytes. induction l as [|m l IH]; cbn [app foldr]; [done|]. rewrite IH. lia. Qed.

Lemma copySignalMessage_data m : jsonData m → ∀ copy n, copySignalMessage m = Ok (copy, n) → copy = m ∧ n = frameBytes m ∧ isSignalMessage m = true.
Proof.
  intros Hm copy n. unfold copySignalMessage. rewrite check_bind_ok. intros (Hs & (t & Ht & Ho)%result_bind_ok). cbv zeta in Ho.
  pose proof (serializeMessage_roundtrip m t Hm Ht) as (_ & Hp & _). cbn [parseBrowserJsonMessage] in Hp. rewrite Hp, check_bind_ok in Ho. destruct Ho as [_ Ho].
  injection Ho as <- <-. split_and!; [done| |done]. unfold frameBytes. do 3 f_equal. unfold serializeMessage in Ht. destruct (jsonData_text m Hm) as [t0 Ht0].
  destruct (stringifyJsonData m) as [t1|] eqn:E; [|done]. apply (stringifyJsonData_spec m t0) in E as ->; [|done..]. cbn in Ht.
  destruct (_ <? _); [done|]. destruct (_ && _); [done|]. injection Ht as <-. unfold jsonStringify. by rewrite Ht0.
Qed.

(** What holds of the queue whatever was pushed and drained *)
Record queueOk (q0 : SignalMessageQueue) (st : list jsval * list jsval * SignalMessageQueue) : Prop := {
  qo_order : st.1.2 ++ sq_messages st.2 = st.1.1;
  qo_signals : Forall (λ m, isSignalMessage m = true) st.1.1;
  qo_bytes : sq_bufferedBytes st.2 = framesBytes (sq_messages st.2);
  qo_limits : sq_maxMessages st.2 = sq_maxMessages q0 ∧ sq_maxBytes st.2 = sq_maxBytes q0;
  qo_length : Z.of_nat (length (sq_messages st.2)) <= sq_maxMessages q0;
  qo_size : ∀ n, sq_maxBytes q0 = Some n → sq_bufferedBytes st.2 <= n
}.

Lemma queueStep_ok q0 op st :
  0 <= sq_maxMessages q0 → (∀ n, sq_maxBytes q0 = Some n → 0 <= n) → match op with QPush m => jsonData m | QDrain => True end →
  queueOk q0 st → queueOk q0 (queueStep op st).
Proof.
  intros Hm Hn Hd [Ho Hs Hb Hl Hlen Hsize]. destruct st as [[pushed drained] q]. cbn [fst snd] in *. destruct op as [m|]; cbn [queueStep].
  - destruct (queuePush q m) as [q'|] eqn:E; [|done]. unfold queuePush in E. rewrite check_bind_ok, negb_true_iff, Z.leb_gt in E. destruct E as [Hroom ((copy & n) & Hc & E)%result_bind_ok].
    rewrite check_bind_ok in E. destruct E as [Hfit E]. apply (inj Ok) in E as <-. destruct (copySignalMessage_data m Hd _ _ Hc) as (-> & -> & Hsig). destruct Hl as [Hl1 Hl2].
    split; cbn [fst snd sq_messages sq_bufferedBytes sq_maxMessages sq_maxBytes].
    + by rewrite app_assoc, Ho.
    + apply Forall_app. split; [done|by apply Forall_singleton].
    + rewrite framesBytes_app, Hb. cbn. lia.
    + done.
    + rewrite length_app. cbn [length]. lia.
    + intros k Hk. rewrite Hl2, Hk in Hfit. by apply Z.leb_le.
  - split; cbn [fst snd queueDrain sq_messages sq_bufferedBytes sq_maxMessages sq_maxBytes length]; [by rewrite app_nil_r|done|done|done|lia|auto].
Qed.

Lemma queueRun_ok maxMessages maxBytes q0 ops :
  newSignalMessageQueue maxMessages maxBytes = Ok q0 → Forall (λ op, match op with QPush m => jsonData m | QDrain => True end) ops →
  queueOk q0 (queueRun ops q0) ∧ 1 <= sq_maxMessages q0 <= MAX_BUFFERED_SIGNAL_MESSAGES ∧
  (∀ n, sq_maxBytes q0 = Some n → 1 <= n <= SIGNALING_MAX_BUFFERED_BYTES).
Proof.
  intros Hq Hops. assert (∀ v label max n, queueLimitInput v label max = Ok n → 1 <= n <= max) as Hlim.
  { unfold queueLimitInput. intros v label max n Hv. destruct v as [| | |[z| |]| | | |]; try done. rewrite check_bind_ok, !andb_true_iff, !Z.leb_le in Hv.
    destruct Hv as [[[_ ?] ?] Hv]. apply (inj Ok) in Hv as <-. done. }
  unfold newSignalMessageQueue in Hq. apply result_bind_ok in Hq as (m & Hm%Hlim & (b & Hb & Hq)%result_bind_ok). apply (inj Ok) in Hq as <-.
  assert (∀ n, b = Some n → 1 <= n <= SIGNALING_MAX_BUFFERED_BYTES) as Hb'.
  { intros n ->. destruct maxBytes as [v|]; [|done]. apply result_bind_ok in Hb as (k & Hk%Hlim & Hb). by injection Hb as ->. }
  split; [|done]. set (q0 := {| sq_messages := [] |}) in *. unfold queueRun.
  assert (queueOk q0 ([], [], q0)) as Hinit by (split; cbn; (done || lia || (intros n Hn; apply Hb' in Hn; lia) || constructor)).
  revert Hinit. generalize (@nil jsval, @nil jsval, q0) as st. induction Hops as [|op ops Hop _ IH]; intros st Hst; cbn [foldl]; [done|].
  apply IH, queueStep_ok; [cbn; lia|intros n Hn; apply Hb' in Hn; lia|done|done].
Qed.

End Queue_props.

(** ** The guard as a comparison with what was accepted *)

(** A signal as [wireSignals] gives it to the guard: validated, and a candidate
    copied without a [null] name. *)
Record guardInput (v : jsval) : Prop := {
  gi_valid : isSignalPayload v = true;
  gi_data : jsonData v;
  gi_name : field (field v "candidate") "usernameFragment" ≠ JNull
}.

Definition kindIs (kind : string) (v : jsval) : bool := isLit (field v "kind") (js kind).

(** One description, an offer for the side that answers and an answer for the
    other; and no candidate twice, where absent and [null] fields are the same *)
Definition replaySpec (answerOffers : bool) (history : list jsval) (v : jsval) : Prop :=
  if kindIs "offer" v then answerOffers = true ∧ Forall (λ w, kindIs "offer" w = false) history
  else if kindIs "answer" v then answerOffers = false ∧ Forall (λ w, kindIs "answer" w = false) history
  else Forall (λ w, kindIs "candidate" w = true → replayFields (field w "candidate") ≠ replayFields (field v "candidate")) history.

(** What a guard accepts of a sequence of signals, and the guard afterwards *)
Fixpoint replayRun (g : ReplayGuard) (signals : list jsval) : list jsval * ReplayGuard :=
  match signals with
  | [] => ([], g)
  | v :: signals =>
    match replayAccept g v with
    | Ok g' => let '(accepted, g'') := replayRun g' signals in (v :: accepted, g'')
    | Err _ => replayRun g signals
    end
  end.

Section Guard_props.
Context `{UrlParser, JsCase}.

Lemma isSignalPayload_kind v : isSignalPayload v = true → isObject v = true ∧ (kindIs "offer" v = true ∨ kindIs "answer" v = true ∨
  kindIs "offer" v = false ∧ kindIs "answer" v = false ∧ kindIs "candidate" v = true ∧ isIceCandidateInit (field v "candidate") = true).
Proof.
  unfold isSignalPayload, kindIs. rewrite andb_true_iff. cbv zeta. intros [Ho Hv]. split; [done|]. destruct (isLit (field v "kind") (js "offer")); [by left|].
  destruct (isLit (field v "kind") (js "answer")); [by right; left|]. right. right. cbn [orb] in Hv. rewrite !andb_true_iff in Hv. naive_solver.
Qed.

Lemma isObject_like v : isObject v = true → isObjectLike v = true.
Proof. by destruct v. Qed.

Lemma nullish_string f v : isNullish v || isSafeTokenString v f = true → isNullish v = true ∨ ∃ s, v = JStr s.
Proof. intros [Hn|Hs]%orb_true_iff; [by left|]. right. unfold isSafeTokenString in Hs. destruct v; try done. by eexists. Qed.

(** The shape of a candidate in a valid signal *)
Lemma candidate_shape v :
  guardInput v → kindIs "offer" v = false → kindIs "answer" v = false →
  let source := field v "candidate" in
  candidateReplayKey v = Ok (jsonStringify (replayFields source)) ∧ jsonData (replayFields source).
Proof.
  intros [Hv Hd Hname] Ho Ha. cbv zeta. apply isSignalPayload_kind in Hv as (Hobj & [?|[?|(_ & _ & Hk & Hc)]]); [congruence..|].
  set (source := field v "candidate") in *. unfold isIceCandidateInit in Hc. rewrite !andb_true_iff in Hc. cbv zeta in Hc. destruct Hc as [[Hso _] [[[[Hcand _] Hmid] Hidx] Hfrag]].
  assert (jsonData source) as Hsd. { destruct (data_field v (js "candidate") Hd Hobj) as [E|?]; [|done]. unfold source, field in Hso. by rewrite E in Hso. }
  assert (∀ k, field source k = JUndefined ∨ jsonData (field source k)) as Hf by (intros k; by apply data_field).
  apply nullish_string in Hmid. apply nullish_string in Hfrag.
  assert (∃ c, field source "candidate" = JStr c) as [c Ec]. { unfold isSafeNonEmptyByteBoundedString in Hcand. destruct (field source "candidate"); try done. by eexists. }
  assert (isNullish (field source "sdpMLineIndex") = true ∨ ∃ z, field source "sdpMLineIndex" = jint z ∧ 0 <= z <= 65535) as Hidx'.
  { apply orb_true_iff in Hidx as [|(z & ? & ?)%isIntegerIn_spec]; [by left|right; by exists z]. }
  split.
  - unfold candidateReplayKey. fold source. rewrite (isObject_like source Hso), Ec. cbn [check isString mbind result_bind].
    assert (isNullish (field source "sdpMid") || isString (field source "sdpMid") = true) as -> by (destruct Hmid as [->|[s ->]]; [done|by destruct (isNullish _)]).
    assert (isNullish (field source "sdpMLineIndex") || isNumber (field source "sdpMLineIndex") = true) as -> by (destruct Hidx' as [->|(z & -> & _)]; done).
    assert (isUndefined (field source "usernameFragment") || isString (field source "usernameFragment") = true) as ->; [|done].
    fold source in Hname. destruct Hfrag as [Hn|[s ->]]; [|done]. by destruct (field source "usernameFragment").
  - unfold replayFields. apply jsonData_obj; [apply (bool_decide_unpack _); vm_compute; exact I|]. rewrite Ec. repeat apply Forall_cons_2; try apply Forall_nil_2; (split; [apply wf_js|cbn [snd]]).
    + destruct (Hf "candidate"%string) as [E|Hx]; [by rewrite Ec in E|by rewrite Ec in Hx].
    + unfold orElse. destruct Hmid as [->|[s Es]]; [constructor|]. rewrite Es. cbn [isNullish]. destruct (Hf "sdpMid"%string) as [E|Hx]; [by rewrite Es in E|by rewrite Es in Hx].
    + unfold orElse. destruct Hidx' as [->|(z & -> & Hz)]; [constructor|]. cbn [isNullish]. constructor. unfold isSafeInteger, MAX_SAFE_INTEGER. apply andb_true_iff. rewrite !Z.leb_le. lia.
    + unfold orElse. destruct Hfrag as [->|[s Es]]; [constructor; constructor|]. rewrite Es. cbn [isNullish]. destruct (Hf "usernameFragment"%string) as [E|Hx]; [by rewrite Es in E|by rewrite Es in Hx].
Qed.

(** The guard remembers what its flags and its set say. *)
Record remembers (answerOffers : bool) (history : list jsval) (g : ReplayGuard) : Prop := {
  rm_side : rg_answerOffers g = answerOffers;
  rm_offer : rg_seenOffer g = false ↔ Forall (λ w, kindIs "offer" w = false) history;
  rm_answer : rg_seenAnswer g = false ↔ Forall (λ w, kindIs "answer" w = false) history;
  rm_candidates k : k ∈ rg_seenCandidates g ↔ ∃ w, w ∈ history ∧ kindIs "candidate" w = true ∧ k = jsonStringify (replayFields (field w "candidate"));
  rm_inputs : Forall guardInput history
}.

Lemma kind_exclusive a b v : js a ≠ js b → kindIs a v = true → kindIs b v = false.
Proof. unfold kindIs. intros Hab Ha%isLit_spec. rewrite Ha. cbn [isLit]. by apply bool_decide_eq_false. Qed.

Lemma replayAccept_spec answerOffers history g v :
  remembers answerOffers history g → guardInput v →
  (is_ok (replayAccept g v) = true ↔ replaySpec answerOffers history v) ∧
  ∀ g', replayAccept g v = Ok g' → remembers answerOffers (history ++ [v]) g'.
Proof.
  intros [Hside Hoff Hans Hcand Hin] Hv. pose proof (isSignalPayload_kind v (gi_valid v Hv)) as [Hobj Hkind]. unfold replayAccept, replaySpec. rewrite (isObject_like v Hobj).
  cbn [check mbind result_bind]. fold (kindIs "offer" v) (kindIs "answer" v) (kindIs "candidate" v).
  assert (∀ P : jsval → Prop, Forall P (history ++ [v]) ↔ Forall P history ∧ P v) as Hsnoc. { intros P. by rewrite Forall_app, Forall_singleton. }
  destruct (kindIs "offer" v) eqn:Ko; [|destruct (kindIs "answer" v) eqn:Ka].
  - rewrite <-Hside, <-Hoff. split; [by destruct (rg_answerOffers g), (rg_seenOffer g); cbn; split; (done || naive_solver)|].
    intros g'. rewrite !check_bind_ok. intros (Hao & Hso & Hg). apply (inj Ok) in Hg as <-. split; cbn [rg_answerOffers rg_seenOffer rg_seenAnswer rg_seenCandidates].
    + done.
    + rewrite Hsnoc. split; [done|]. intros [_ ?]. congruence.
    + rewrite Hsnoc, Hans. assert (kindIs "answer" v = false) by (by apply (kind_exclusive "offer")). naive_solver.
    + intros k. rewrite Hcand. assert (kindIs "candidate" v = false) as Kc by (by apply (kind_exclusive "offer")). setoid_rewrite elem_of_app. setoid_rewrite list_elem_of_singleton. split; [naive_solver|].
      intros (w & [Hw| ->] & Hk & ->); [by exists w|congruence].
    + by apply Hsnoc.
  - rewrite <-Hside, <-Hans. split; [by destruct (rg_answerOffers g), (rg_seenAnswer g); cbn; split; (done || naive_solver)|].
    intros g'. rewrite !check_bind_ok. intros (Hao & Hso & Hg). apply (inj Ok) in Hg as <-. split; cbn [rg_answerOffers rg_seenOffer rg_seenAnswer rg_seenCandidates].
    + done.
    + rewrite Hsnoc, Hoff. naive_solver.
    + rewrite Hsnoc. split; [done|]. intros [_ ?]. congruence.
    + intros k. rewrite Hcand. assert (kindIs "candidate" v = false) as Kc by (by apply (kind_exclusive "answer")). setoid_rewrite elem_of_app. setoid_rewrite list_elem_of_singleton. split; [naive_solver|].
      intros (w & [Hw| ->] & Hk & ->); [by exists w|congruence].
    + by apply Hsnoc.
  - destruct Hkind as [?|[?|(_ & _ & Kc & _)]]; [congruence..|]. rewrite Kc. cbn [check mbind result_bind]. destruct (candidate_shape v Hv Ko Ka) as [Ek Hdk]. rewrite Ek. cbn [mbind result_bind].
    assert (∀ w, w ∈ history → kindIs "candidate" w = true →
      jsonStringify (replayFields (field v "candidate")) = jsonStringify (replayFields (field w "candidate")) → replayFields (field w "candidate") = replayFields (field v "candidate")) as Hinj.
    { intros w Hw Hkw E. rewrite Forall_forall in Hin. assert (kindIs "offer" w = false ∧ kindIs "answer" w = false) as [K1 K2] by (split; by apply (kind_exclusive "candidate")).
      destruct (candidate_shape w (Hin w Hw) K1 K2) as [_ Hdw]. symmetry. apply jsonStringify_inj; [done..|]. by rewrite E. }
    split.
    + rewrite Forall_forall. case_bool_decide as Hseen; cbn [negb check mbind result_bind is_ok].
      * split; [done|]. intros Hall. exfalso. apply Hcand in Hseen as (w & Hw & Hkw & E). apply (Hall w Hw Hkw). by apply Hinj.
      * split; [|done]. intros _ w Hw Hkw E. apply Hseen, Hcand. exists w. by rewrite E.
    + intros g'. rewrite check_bind_ok. intros [_ Hg]. apply (inj Ok) in Hg as <-. split; cbn [rg_answerOffers rg_seenOffer rg_seenAnswer rg_seenCandidates].
      * done.
      * rewrite Hsnoc, Hoff. naive_solver.
      * rewrite Hsnoc, Hans. naive_solver.
      * intros k. rewrite elem_of_union, elem_of_singleton, Hcand. setoid_rewrite elem_of_app. setoid_rewrite list_elem_of_singleton. naive_solver.
      * by apply Hsnoc.
Qed.

Lemma replayRun_remembers answerOffers history g signals :
  remembers answerOffers history g → Forall guardInput signals →
  remembers answerOffers (history ++ (replayRun g signals).1) (replayRun g signals).2.
Proof.
  intros Hg Hs. revert history g Hg. induction Hs as [|v signals Hv Hs IH]; intros history g Hg; cbn [replayRun]; [by rewrite app_nil_r|].
  destruct (replayAccept g v) as [g'|] eqn:E; [|by apply IH]. apply (replayAccept_spec _ _ _ _ Hg Hv) in E. specialize (IH _ _ E). destruct (replayRun g' signals) as [accepted g''].
  cbn [fst snd] in *. by rewrite <-app_assoc in IH.
Qed.

Lemma new_remembers answerOffers : remembers answerOffers [] (newReplayGuard answerOffers).
Proof. split; cbn; [done|done|done| |done]. intros k. rewrite elem_of_empty. split; [done|]. by intros (w & ?%not_elem_of_nil & _). Qed.

End Guard_props.

(** ** The theorems *)

(** Whatever is pushed and drained, the queue holds exactly the accepted
    messages that have not been drained, in order and unchanged; all of them
    are valid signals; its byte count is that of their frames, and the limits
    it was made with, at most 300 messages and 1 MiB, are kept. *)
Theorem signal_queue_fifo `{JsNumbers, UrlParser, JsCase} maxMessages maxBytes q0 ops :
  newSignalMessageQueue maxMessages maxBytes = Ok q0 → Forall (λ op, match op with QPush m => jsonData m | QDrain => True end) ops →
  queueOk q0 (queueRun ops q0) ∧ 1 <= sq_maxMessages q0 <= MAX_BUFFERED_SIGNAL_MESSAGES ∧
  (∀ n, sq_maxBytes q0 = Some n → 1 <= n <= SIGNALING_MAX_BUFFERED_BYTES).
Proof. apply queueRun_ok. Qed.

(** Given any sequence of validated signals the replay guard decides as its
    specification does on what it accepted before: at most one description, of
    the kind that its side expects, and no candidate twice, where two
    candidates are the same if their texts, media ids, line indices and
    fragments are (an absent one being as [null] or empty). *)
Theorem replay_guard_refines_spec `{UrlParser, JsCase} answerOffers before v :
  Forall guardInput before → guardInput v →
  let run := replayRun (newReplayGuard answerOffers) before in
  is_ok (replayAccept run.2 v) = true ↔ replaySpec answerOffers run.1 v.
Proof. intros Hb Hv. apply replayAccept_spec; [|done]. exact (replayRun_remembers answerOffers [] _ before (new_remembers answerOffers) Hb). Qed.

(** ** A session with a replayed candidate *)

Section Witnesses.
#[local] Existing Instances noUrls asciiCase decimalNumbers.

Definition sampleMac : jsstr := repeat 65 43 ++ js "=".
Definition sampleOffer : jsval := obj [(js "kind", jstr "offer"); (js "sdp", jstr "v=0"); (js "auth", JStr sampleMac)].
Definition sampleCandidate (line : Z) : jsval :=
  obj [(js "kind", jstr "candidate");
       (js "candidate", obj [(js "candidate", jstr "candidate:1 1 udp 1 192.0.2.1 9 typ host"); (js "sdpMid", JNull); (js "sdpMLineIndex", jint line)]);
       (js "auth", JStr sampleMac)].

Lemma sampleMac_wf : wf_units sampleMac.
Proof. apply (bool_decide_unpack _). by vm_compute. Qed.
#[local] Hint Resolve sampleMac_wf : p2p.
Lemma sampleOffer_input : guardInput sampleOffer.
Proof. split; [by vm_compute|json_obj|done]. Qed.
Lemma sampleCandidate_input line : line = 0 ∨ line = 1 → guardInput (sampleCandidate line).
Proof. intros [->| ->]; (split; [by vm_compute|json_obj; json_obj; by constructor|done]). Qed.

Definition sampleRun : list jsval * ReplayGuard := replayRun (newReplayGuard true) [sampleOffer; sampleCandidate 0; sampleOffer; sampleCandidate 0].

Lemma replay_guard_refines_spec_witness :
  sampleRun.1 = [sampleOffer; sampleCandidate 0] ∧ is_ok (replayAccept sampleRun.2 (sampleCandidate 1)) = true.
Proof.
  split; [by vm_compute|].
  apply (replay_guard_refines_spec true [sampleOffer; sampleCandidate 0; sampleOffer; sampleCandidate 0] (sampleCandidate 1)).
  - repeat apply Forall_cons_2; try apply Forall_nil_2; (apply sampleOffer_input || by apply sampleCandidate_input; left).
  - by apply sampleCandidate_input; right.
  - assert (replayRun (newReplayGuard true) [sampleOffer; sampleCandidate 0; sampleOffer; sampleCandidate 0] = sampleRun) as -> by done.
    assert (sampleRun.1 = [sampleOffer; sampleCandidate 0]) as -> by by vm_compute.
    unfold replaySpec. change (kindIs "offer" (sampleCandidate 1)) with false. change (kindIs "answer" (sampleCandidate 1)) with false. cbv iota.
    repeat apply Forall_cons_2; [by vm_compute| |apply Forall_nil_2]. intros _ E. apply (f_equal (λ v, isLit (field v "sdpMLineIndex") [] || isIntegerIn 0 0 (field v "sdpMLineIndex"))) in E.
    revert E. by vm_compute.
Defined.

(** A queue of two messages, the second of which does not fit *)
Definition sampleSignal (kind : string) : jsval :=
  obj [(js "type", jstr "signal"); (js "sid", jstr "s-1"); (js "kind", jstr kind); (js "sealedSignal", JStr (repeat 65 400))].
Lemma sampleSignal_data kind : jsonData (sampleSignal kind).
Proof. unfold sampleSignal. json_obj. constructor. apply (bool_decide_unpack _). by vm_compute. Qed.

Lemma signal_queue_fifo_witness :
  ∃ q0, newSignalMessageQueue (jint 2) (Some (jint 600)) = Ok q0 ∧
    (queueRun [QPush (sampleSignal "offer"); QPush (sampleSignal "candidate"); QDrain; QPush (sampleSignal "candidate")] q0).1 = ([sampleSignal "offer"; sampleSignal "candidate"], [sampleSignal "offer"]) ∧
    queueOk q0 (queueRun [QPush (sampleSignal "offer"); QPush (sampleSignal "candidate"); QDrain; QPush (sampleSignal "candidate")] q0).
Proof.
  destruct (newSignalMessageQueue (jint 2) (Some (jint 600))) as [q0|e] eqn:E; [|exfalso; revert E; by vm_compute]. exists q0. split; [done|]. split.
  - vm_compute in E. injection E as <-. by vm_compute.
  - apply (signal_queue_fifo (jint 2) (Some (jint 600)) q0); [done|]. repeat apply Forall_cons_2; try apply Forall_nil_2; (apply sampleSignal_data || done).
Defined.

End Witnesses.
