(* ===== verification/SignalingClient.v ===== *)
(** * SignalingClient: the class [SignalingClient] of [src/cli/signaling.ts].

    A WebSocket and its listeners: the messages of the server are checked and
    emitted, signals that come before anyone listens are kept, a failure closes
    the socket.  The socket is the environment: its state, its buffered amount
    and its events are arbitrary.  Of the listeners of the client those of
    [wireSignals] act on it, on the events that end it; the others only settle
    promises.  The theorem says which signals [wireSignals] gets, and when, and
    which messages make the handler throw: the "error" messages, for whose type
    no listener is ever registered. *)
From S2P Require Import Prelude.
From S2P Require Import Constants.
From S2P Require Import JsText.
From S2P Require Import JsValue.
From S2P Require Import Json.
From S2P Require Import Authority.
From S2P Require Import Messages.
From S2P Require Import Wire.
From S2P Require Import Admission.
From S2P Require Import Ice.
From S2P Require Import Signals.
#[local] Open Scope Z_scope.

(** ** State *)

Inductive ReadyState := CONNECTING | OPEN | CLOSING | CLOSED.
#[export] Instance ReadyState_eq_dec : EqDecision ReadyState.
Proof. solve_decision. Defined.

(** What the client emits; a message is emitted as "message" and, unless it is
    kept for later, under its type. *)
Inductive Emission := EMessage (message : jsval) | EClose | ESocketError (error : jsstr) | EProtocolError (error : jsstr).

Record Client := {
  (** [ws.readyState], [ws.bufferedAmount] *)
  cl_ws : option ReadyState;
  cl_bufferedAmount : option Z;
  cl_closeTimer : bool;
  cl_latestIceServers : option (list RTCIceServer);
  cl_earlySignals : SignalMessageQueue;
  cl_disposed : bool;
  (** the promise of [connect] is open; the runtime listeners of the socket are
      registered *)
  cl_connecting : bool;
  cl_attached : bool;
  (** the listeners of [wireSignals] are registered *)
  cl_listening : bool;
  (** what was emitted, the signals that [wireSignals] got, the frames sent *)
  cl_emitted : list Emission;
  cl_delivered : list jsval;
  cl_frames : list jsstr
}.

Definition set_socket ws buffered timer c := {| cl_ws := ws; cl_bufferedAmount := buffered; cl_closeTimer := timer; cl_latestIceServers := cl_latestIceServers c; cl_earlySignals := cl_earlySignals c;
  cl_disposed := cl_disposed c; cl_connecting := cl_connecting c; cl_attached := cl_attached c; cl_listening := cl_listening c; cl_emitted := cl_emitted c; cl_delivered := cl_delivered c; cl_frames := cl_frames c |}.
Definition set_kept latest early c := {| cl_ws := cl_ws c; cl_bufferedAmount := cl_bufferedAmount c; cl_closeTimer := cl_closeTimer c; cl_latestIceServers := latest; cl_earlySignals := early;
  cl_disposed := cl_disposed c; cl_connecting := cl_connecting c; cl_attached := cl_attached c; cl_listening := cl_listening c; cl_emitted := cl_emitted c; cl_delivered := cl_delivered c; cl_frames := cl_frames c |}.
Definition set_listeners disposed connecting attached listening c := {| cl_ws := cl_ws c; cl_bufferedAmount := cl_bufferedAmount c; cl_closeTimer := cl_closeTimer c; cl_latestIceServers := cl_latestIceServers c; cl_earlySignals := cl_earlySignals c;
  cl_disposed := disposed; cl_connecting := connecting; cl_attached := attached; cl_listening := listening; cl_emitted := cl_emitted c; cl_delivered := cl_delivered c; cl_frames := cl_frames c |}.
Definition set_records emitted delivered frames c := {| cl_ws := cl_ws c; cl_bufferedAmount := cl_bufferedAmount c; cl_closeTimer := cl_closeTimer c; cl_latestIceServers := cl_latestIceServers c; cl_earlySignals := cl_earlySignals c;
  cl_disposed := cl_disposed c; cl_connecting := cl_connecting c; cl_attached := cl_attached c; cl_listening := cl_listening c; cl_emitted := emitted; cl_delivered := delivered; cl_frames := frames |}.

Definition setSocket (ws : option ReadyState) (timer : bool) (c : Client) : Client := set_socket ws (cl_bufferedAmount c) timer c.
Definition setLatest (servers : list RTCIceServer) (c : Client) : Client := set_kept (Some servers) (cl_earlySignals c) c.
Definition setQueue (q : SignalMessageQueue) (c : Client) : Client := set_kept (cl_latestIceServers c) q c.
Definition setListening (listening : bool) (c : Client) : Client := set_listeners (cl_disposed c) (cl_connecting c) (cl_attached c) listening c.
Definition logEmission (e : Emission) (c : Client) : Client := set_records (cl_emitted c ++ [e]) (cl_delivered c) (cl_frames c) c.
Definition logDelivered (signals : list jsval) (c : Client) : Client := set_records (cl_emitted c) (cl_delivered c ++ signals) (cl_frames c) c.

Abbreviation client := (ST Client).

Section Client.
Context `{JsNumbers, UrlParser, JsCase}.
(** The buffered amount of a socket after a frame was given to it; the "bye"
    that [wireSignals] sends when it fails; [util.inspect] *)
Variables (bufferedAfter : Client → jsstr → option Z) (bye : jsval) (inspect : jsval → jsstr).

(** ** The class *)

(** The constructor; the message queue has the limits of constants.ts. *)
Definition newClient : result Client :=
  earlySignals ← newSignalMessageQueue (jint MAX_BUFFERED_SIGNAL_MESSAGES) (Some (jint SIGNALING_MAX_BUFFERED_BYTES));
  Ok {| cl_ws := None; cl_bufferedAmount := Some 0; cl_closeTimer := false; cl_latestIceServers := None; cl_earlySignals := earlySignals; cl_disposed := false;
        cl_connecting := false; cl_attached := false; cl_listening := false; cl_emitted := []; cl_delivered := []; cl_frames := [] |}.

(** [dispose]; removing all listeners, those of the socket included *)
Definition disposedClient (c : Client) : Client :=
  set_listeners true (cl_connecting c) false false (set_kept None (queueDrain (cl_earlySignals c)).2 (setSocket (cl_ws c) false c)).
Definition dispose : client () := st_modify (λ c, if cl_disposed c then c else disposedClient c).

(** [close]: [ws.close()], and the timer of [scheduleCloseTermination] *)
Definition close : client () :=
  c ← st_get;
  match cl_disposed c, cl_ws c with
  | true, _ | _, None => mret ()
  | false, Some CLOSED => dispose
  | false, Some _ => st_modify (setSocket (Some CLOSING) true)
  end.

(** [closeSocketAfterFailedConnect] *)
Definition closeSocketAfterFailedConnect : client () :=
  c ← st_get;
  match cl_ws c with
  | None | Some CLOSED => dispose
  | Some _ => st_modify (setSocket (Some CLOSING) (cl_closeTimer c));; dispose
  end.

(** [isClosed], [currentIceServers] *)
Definition isClosed (c : Client) : bool :=
  cl_disposed c || match cl_ws c with None | Some CLOSING | Some CLOSED => true | Some _ => false end.
Definition currentIceServers (c : Client) : result (option (list RTCIceServer)) :=
  match cl_disposed c, cl_latestIceServers c with
  | false, Some servers => cloned ← cloneIceServers (rtcServersValue servers); Ok (Some cloned)
  | _, _ => Ok None
  end.

(** [send] *)
Definition tooMuchBuffered (c : Client) : bool := signalingBackpressureExceeded (cl_bufferedAmount c) SIGNALING_MAX_BUFFERED_BYTES.
Definition refuseIfBuffered : client () :=
  c ← st_get;
  if tooMuchBuffered c then close;; st_lift (throw "signaling socket backpressure exceeded") else mret ().
Definition putFrame (serialized : jsstr) (c : Client) : Client :=
  set_records (cl_emitted c) (cl_delivered c) (cl_frames c ++ [serialized]) (set_socket (cl_ws c) (bufferedAfter c serialized) (cl_closeTimer c) c).
Definition send (message : jsval) : client () :=
  c ← st_get;
  if cl_disposed c then st_lift (throw "signaling socket is closed")
  else if negb (bool_decide (cl_ws c = Some OPEN)) then st_lift (throw "signaling socket is not open")
  else
    refuseIfBuffered;;
    serialized ← st_lift (serializeMessage message);
    st_modify (putFrame serialized);;
    refuseIfBuffered.

(** [drainSignalMessages] *)
Definition drainSignalMessages : client (list jsval) :=
  c ← st_get;
  if cl_disposed c then mret []
  else st_modify (setQueue (queueDrain (cl_earlySignals c)).2);; mret (queueDrain (cl_earlySignals c)).1.

(** Emitting an event that ends the session: [fail] of [wireSignals] sends its
    notice and stops listening. *)
Definition emitEnd (e : Emission) : client () :=
  st_modify (logEmission e);;
  c ← st_get;
  st_when (cl_listening c) (st_catch (send bye) (λ _, mret ());; st_modify (setListening false)).

(** Emitting "message" and the type of the message.  The type "error" is the one
    event that an [EventEmitter] throws on when nobody listens, and nobody ever
    listens to it on a client. *)
Definition emitMessage (message : jsval) : client () := st_modify (logEmission (EMessage message)).
Definition isErrorMessage (message : jsval) : bool := isLit (field message "type") (js "error").
Definition emitTyped (message : jsval) : client () :=
  c ← st_get;
  if isErrorMessage message then st_lift (Err (js "Unhandled error. (" ++ inspect message ++ js ")"))
  else st_when (isLit (field message "type") (js "signal") && cl_listening c) (st_modify (logDelivered [message])).

(** [onMessage] *)
Definition failProtocol (error : jsstr) : client () := emitEnd (EProtocolError error);; close.
Definition onMessage (data : FrameData) (isBinary : bool) : client () :=
  let parsed := parseJsonTextFrame data isBinary in
  if negb (isServerMessage parsed) then failProtocol (js "Malformed signaling server message.")
  else
    st_when (isLit (field parsed "type") (js "ice-config")) (servers ← st_lift (cloneIceServers (field parsed "iceServers")); st_modify (setLatest servers));;
    c ← st_get;
    if isLit (field parsed "type") (js "signal") && negb (cl_listening c) then
      match queuePush (cl_earlySignals c) parsed with
      | Ok q => st_modify (setQueue q);; emitMessage parsed
      | Err error => failProtocol error
      end
    else emitMessage parsed;; emitTyped parsed.

(** [onRuntimeClose] and [onRuntimeError] *)
Definition onRuntimeClose : client () :=
  st_modify (λ c, setSocket (cl_ws c) false c);;
  emitEnd EClose;;
  dispose.
Definition onRuntimeError (error : jsstr) : client () := emitEnd (ESocketError error).

(** [connect], until the socket is made or the constructor throws; [succeed]
    and [fail] *)
Definition failConnect : client () :=
  st_modify (λ c, set_listeners (cl_disposed c) false false (cl_listening c) c);;
  closeSocketAfterFailedConnect.
Definition connect (constructed : bool) : client () :=
  c ← st_get;
  if cl_disposed c then st_lift (throw "signaling client is closed")
  else if bool_decide (is_Some (cl_ws c) ∧ cl_ws c ≠ Some CLOSED) then st_lift (throw "signaling client already has an active socket")
  else if constructed then st_modify (λ c, set_listeners false true false (cl_listening c) (setSocket (Some CONNECTING) (cl_closeTimer c) c))
  else failConnect.
Definition succeedConnect : client () := st_modify (λ c, set_listeners (cl_disposed c) false true (cl_listening c) c).

(** What [wireSignals] does to the client: it listens, takes what was kept, and
    stops listening in the end. *)
Definition wire : client () :=
  c ← st_get;
  if isClosed c then mret ()
  else st_modify (setListening true);; signals ← drainSignalMessages; st_modify (logDelivered signals).
Definition unwire : client () := st_modify (setListening false).

(** ** The events

    A closed socket stays closed, and one opens only while it is connecting. *)

Inductive ClientEvent :=
| Connect (constructed : bool) | Opened | ConnectFailed | ConnectTimeout
| Frame (data : FrameData) (isBinary : bool) | SocketClosed | SocketError (error : jsstr)
| SocketChange (ready : ReadyState) (buffered : option Z) | Terminate
| CallSend (message : jsval) | CallClose | CallWire | CallUnwire.

Definition clientEvent (e : ClientEvent) : client () :=
  c ← st_get;
  match e with
  | Connect constructed => connect constructed
  | Opened => st_when (cl_connecting c && bool_decide (cl_ws c = Some CONNECTING)) (st_modify (setSocket (Some OPEN) (cl_closeTimer c));; succeedConnect)
  | ConnectFailed => st_when (cl_connecting c) failConnect
  | ConnectTimeout => st_when (cl_connecting c) (close;; failConnect)
  | Frame data isBinary => st_when (cl_attached c) (onMessage data isBinary)
  | SocketClosed => st_when (cl_attached c) (st_modify (setSocket (Some CLOSED) (cl_closeTimer c));; onRuntimeClose)
  | SocketError error => st_when (cl_attached c) (onRuntimeError error)
  | SocketChange ready buffered => st_when (bool_decide (is_Some (cl_ws c) ∧ cl_ws c ≠ Some CLOSED)) (st_modify (set_socket (Some ready) buffered (cl_closeTimer c)))
  | Terminate => st_when (cl_closeTimer c) (st_modify (setSocket (match cl_ws c with Some CLOSED => Some CLOSED | _ => Some CLOSING end) false))
  | CallSend message => send message
  | CallClose => close
  | CallWire => wire
  | CallUnwire => unwire
  end.

(** The client after events, whether the calls throw or not; what a handler
    throws ends the process of the command line, and further events are of no
    consequence then. *)
Definition clientAfter (c : Client) (e : ClientEvent) : Client :=
  match clientEvent e c with Done _ c' | Raised _ c' => c' | OutOfFuel => c end.
Definition clientRun (events : list ClientEvent) (c : Client) : Client := foldl clientAfter c events.

(** ** The invariant *)

Definition isSignal (message : jsval) : bool := isLit (field message "type") (js "signal").
(** The signals among the messages that were emitted *)
Definition emittedSignals (c : Client) : list jsval :=
  omap (λ e, match e with EMessage m => if isSignal m then Some m else None | _ => None end) (cl_emitted c).
(** A signal as it was received, or the copy of it that was kept *)
Definition keptSignal (m m' : jsval) : Prop := m' = m ∨ ∃ n, copySignalMessage m = Ok (m', n).

Record queueFits (q : SignalMessageQueue) : Prop := {
  qf_limits : sq_maxMessages q = MAX_BUFFERED_SIGNAL_MESSAGES ∧ sq_maxBytes q = Some SIGNALING_MAX_BUFFERED_BYTES;
  qf_count : Z.of_nat (length (sq_messages q)) <= MAX_BUFFERED_SIGNAL_MESSAGES;
  qf_bytes : 0 <= sq_bufferedBytes q <= SIGNALING_MAX_BUFFERED_BYTES
}.

Record CInv (c : Client) : Prop := {
  ci_signals : ∃ rest, Forall2 keptSignal (emittedSignals c) (cl_delivered c ++ rest) ∧ (cl_disposed c = false → rest = sq_messages (cl_earlySignals c));
  ci_listening : cl_listening c = true → sq_messages (cl_earlySignals c) = [] ∧ cl_disposed c = false;
  ci_disposed : cl_disposed c = true → cl_attached c = false ∧ sq_messages (cl_earlySignals c) = [];
  ci_connecting : cl_connecting c = true → is_Some (cl_ws c) ∧ (cl_disposed c = true → cl_ws c = Some CLOSED);
  ci_queue : queueFits (cl_earlySignals c);
  ci_latest : ∀ l, cl_latestIceServers c = Some l → Forall rtcServerOk l ∧ Z.of_nat (length l) <= MAX_CLONED_ICE_SERVERS;
  ci_frames : Forall (λ s, ∃ m, serializeMessage m = Ok s) (cl_frames c);
  ci_valid : Forall (λ e, match e with EMessage m => isServerMessage m = true | _ => True end) (cl_emitted c)
}.

Ltac client_cbn := cbn [set_socket set_kept set_listeners set_records setSocket setLatest setQueue setListening logEmission logDelivered putFrame disposedClient
  cl_ws cl_bufferedAmount cl_closeTimer cl_latestIceServers cl_earlySignals cl_disposed cl_connecting cl_attached cl_listening cl_emitted cl_delivered cl_frames queueDrain sq_messages sq_bufferedBytes sq_maxMessages sq_maxBytes fst snd] in *.

Lemma drain_fits q : queueFits q → queueFits (queueDrain q).2.
Proof. intros [F1 F2 F3]. by split. Qed.

Lemma dispose_inv c : CInv c → (cl_connecting c = true → cl_ws c = Some CLOSED) → CInv (disposedClient c).
Proof.
  intros [(rest & C1 & C1') C2 C3 C4 C5 C6 C7 C8] Hws. split; client_cbn; try done.
  - by exists rest.
  - intros Hc. split; [by apply C4|auto].
  - by apply drain_fits.
Qed.

(** The socket stays closed once it is. *)
Definition kept (c c' : Client) : Prop := CInv c' ∧ (cl_ws c = Some CLOSED → cl_ws c' = Some CLOSED).

Lemma close_keeps c : CInv c → wpe close (λ _, kept c) (λ _ _, False) c.
Proof.
  intros Hc. unfold close. apply wpe_bind, wpe_get. destruct (cl_disposed c) eqn:Ed; [by apply wpe_ret|]. destruct (cl_ws c) as [r|] eqn:Ew; [|by apply wpe_ret].
  assert (r ≠ CLOSED → kept c (setSocket (Some CLOSING) true c)) as Hopen.
  { intros Hr. split; [|intros E; congruence]. destruct Hc as [C1 C2 C3 C4 C5 C6 C7 C8]. split; client_cbn; try done. intros Hn. split; [done|congruence]. }
  destruct r; try by apply wpe_modify, Hopen. apply wpe_modify. rewrite Ed. split; [by apply dispose_inv|done].
Qed.

Lemma putFrame_inv m s c : CInv c → serializeMessage m = Ok s → CInv (putFrame s c).
Proof. intros [C1 C2 C3 C4 C5 C6 C7 C8] Hs. split; client_cbn; try done. apply Forall_app. split; [done|]. apply Forall_singleton. by exists m. Qed.

Lemma refuse_keeps c : CInv c → wpe refuseIfBuffered (λ _, kept c) (λ _, kept c) c.
Proof.
  intros Hc. unfold refuseIfBuffered. apply wpe_bind, wpe_get. destruct (tooMuchBuffered c); [|by apply wpe_ret].
  apply wpe_bind. eapply wpe_mono; [by apply close_keeps|..]; [|done]. cbv beta. intros _ c' Hk. by apply wpe_lift.
Qed.

Lemma send_keeps m c : CInv c → wpe (send m) (λ _, kept c) (λ _, kept c) c.
Proof.
  intros Hc. unfold send. apply wpe_bind, wpe_get. destruct (cl_disposed c); [by apply wpe_lift|]. case_bool_decide as Ho; cbn [negb]; [|by apply wpe_lift].
  assert (∀ c', CInv c' → kept c c') as Hk by (intros c' Hc'; split; [done|intros E; congruence]).
  apply wpe_bind. eapply wpe_mono; [by apply refuse_keeps|..]; cbv beta; [|intros e c' [? _]; by apply Hk]. intros _ c1 [Hc1 _]. apply wpe_bind, wpe_lift.
  destruct (serializeMessage m) as [s|e] eqn:Es; [|by apply Hk]. apply wpe_bind, wpe_modify. eapply wpe_mono; [by eapply refuse_keeps, putFrame_inv|..]; cbv beta; intros ? c2 [? _]; by apply Hk.
Qed.

Lemma listening_inv b c : CInv c → b = false → CInv (setListening b c).
Proof. intros [C1 C2 C3 C4 C5 C6 C7 C8] ->. by split; client_cbn. Qed.

Lemma emittedSignals_app c e : emittedSignals (logEmission e c) = emittedSignals c ++ match e with EMessage m => if isSignal m then [m] else [] | _ => [] end.
Proof. unfold emittedSignals. client_cbn. rewrite omap_app. f_equal. cbn. destruct e as [m| | |]; try done. by destruct (isSignal m). Qed.

Lemma log_inv e c : match e with EMessage _ => False | _ => True end → CInv c → CInv (logEmission e c).
Proof.
  intros He [(rest & C1 & C1') C2 C3 C4 C5 C6 C7 C8]. split; try done.
  - exists rest. rewrite emittedSignals_app. split; [|done]. destruct e; [done|by rewrite app_nil_r..].
  - client_cbn. apply Forall_app. split; [done|]. apply Forall_singleton. by destruct e.
Qed.

Lemma emitEnd_keeps e c : match e with EMessage _ => False | _ => True end → CInv c → wpe (emitEnd e) (λ _, kept c) (λ _ _, False) c.
Proof.
  intros He Hc. unfold emitEnd. apply wpe_bind, wpe_modify, wpe_bind, wpe_get, wpe_when; intros _; [|by split; [by apply log_inv|]].
  apply wpe_bind, wpe_catch. assert (CInv (logEmission e c)) as Hl by by apply log_inv.
  eapply wpe_mono; [by apply send_keeps|..]; cbv beta; intros ? c' [Hc' Hk]; [|apply wpe_ret]; apply wpe_modify; (split; [by apply listening_inv|exact Hk]).
Qed.

Lemma failProtocol_keeps e c : CInv c → wpe (failProtocol e) (λ _, CInv) (λ _ _, False) c.
Proof.
  intros Hc. unfold failProtocol. apply wpe_bind. eapply wpe_mono; [by apply emitEnd_keeps|..]; cbv beta; [|done]. intros _ c' [Hc' _].
  eapply wpe_mono; [by apply close_keeps|..]; [|done]. by intros _ c2 [? _].
Qed.

(** A message that is emitted, with what becomes of it *)
Lemma message_inv m c c' delivered q new :
  CInv c → isServerMessage m = true → cl_disposed c = false → c' = logDelivered delivered (logEmission (EMessage m) (setQueue q c)) →
  delivered ++ sq_messages q = sq_messages (cl_earlySignals c) ++ new → Forall2 keptSignal (if isSignal m then [m] else []) new →
  queueFits q → (cl_listening c = true → sq_messages q = []) → CInv c'.
Proof.
  intros [(rest & C1 & C1') C2 C3 C4 C5 C6 C7 C8] Hm Hd -> Heq Hnew Hq Hl. rewrite (C1' Hd) in C1. split; client_cbn; try done.
  - exists (sq_messages q). split; [|done]. change (emittedSignals _) with (emittedSignals (logEmission (EMessage m) c)). rewrite emittedSignals_app, <-app_assoc, Heq, app_assoc. by apply Forall2_app.
  - intros E. split; [by apply Hl|done].
  - rewrite Hd. done.
  - apply Forall_app. split; [done|]. by apply Forall_singleton.
Qed.

Lemma logDelivered_nil c : logDelivered [] c = c.
Proof. unfold logDelivered, set_records. rewrite app_nil_r. by destruct c. Qed.

Lemma push_fits q m q' : queuePush q m = Ok q' → queueFits q → ∃ m' n, copySignalMessage m = Ok (m', n) ∧ sq_messages q' = sq_messages q ++ [m'] ∧ queueFits q'.
Proof.
  unfold queuePush. rewrite check_bind_ok, negb_true_iff, Z.leb_gt. intros [Hroom ((m' & n) & Hc & Hq)%result_bind_ok] [[F1 F2] F3 F4]. rewrite check_bind_ok, F2, Z.leb_le in Hq. destruct Hq as [Hfit Hq].
  apply (inj Ok) in Hq as <-. exists m', n. split_and!; [done|done|]. assert (0 <= n).
  { unfold copySignalMessage in Hc. apply check_bind_ok in Hc as [_ (s & _ & Hc)%result_bind_ok]. apply check_bind_ok in Hc as [_ Hc]. injection Hc as _ <-. lia. }
  split; cbn; [done| |lia]. rewrite length_app. cbn [length]. lia.
Qed.

Lemma iceConfig_servers m : isServerMessage m = true → field m "type" = jstr "ice-config" → isIceServers (field m "iceServers") = true.
Proof.
  unfold isServerMessage. intros Hm Ht. rewrite Ht in Hm. apply andb_true_iff in Hm as [_ Hm]. cbv iota in Hm. rewrite !decide_False in Hm by done. rewrite decide_True in Hm by done.
  by apply andb_true_iff in Hm as [_ Hm].
Qed.

(** The frame is a server message that nobody handles *)
Definition errorFrame (data : FrameData) (isBinary : bool) : bool :=
  let message := parseJsonTextFrame data isBinary in isServerMessage message && isErrorMessage message.

(** What the handler does: it throws on an error message and on nothing else. *)
Definition unlessError (thrown : bool) (c : Client) : Prop := CInv c ∧ thrown = false.

Lemma failProtocol_unless e c : CInv c → wpe (failProtocol e) (λ _, unlessError false) (λ _ _, False) c.
Proof. intros Hc. eapply wpe_mono; [by apply failProtocol_keeps|by split|done]. Qed.

Lemma onMessage_keeps data isBinary c :
  CInv c → cl_disposed c = false → wpe (onMessage data isBinary) (λ _, unlessError (errorFrame data isBinary)) (λ _ c', CInv c' ∧ errorFrame data isBinary = true) c.
Proof.
  intros Hc Hd. unfold onMessage, errorFrame. set (m := parseJsonTextFrame data isBinary). destruct (isServerMessage m) eqn:Em; cbn [negb andb]; [|eapply wpe_mono; [by apply failProtocol_unless|done|done]].
  assert (wpe (st_when (isLit (field m "type") (js "ice-config")) (servers ← st_lift (cloneIceServers (field m "iceServers")); st_modify (setLatest servers)))
    (λ _ c', CInv c' ∧ cl_disposed c' = false) (λ _ _, False) c) as Hice.
  { apply wpe_when; intros Ht; [|done]. destruct (isIceServers_clones (field m "iceServers")) as (l & Hl).
    - apply iceConfig_servers; [done|by apply isLit_spec].
    - apply wpe_bind, wpe_lift. rewrite Hl. apply wpe_modify. split; [|done]. destruct Hc. split; client_cbn; try done. intros l' [= <-]. by eapply cloneIceServers_ok. }
  apply wpe_bind. eapply wpe_mono; [exact Hice|..]; cbv beta; [|done]. clear c Hc Hd Hice. intros _ c [Hc Hd]. apply wpe_bind, wpe_get. fold (isSignal m).
  assert (isSignal m = true → isErrorMessage m = false) as Hkind.
  { unfold isSignal, isErrorMessage. intros Hs%isLit_spec. by rewrite Hs. }
  destruct (isSignal m && negb (cl_listening c)) eqn:Es.
  - apply andb_true_iff in Es as [Es Hl%negb_true_iff]. rewrite (Hkind Es). destruct (queuePush (cl_earlySignals c) m) as [q|e] eqn:Eq; [|eapply wpe_mono; [by apply failProtocol_unless|done|done]].
    destruct (push_fits _ _ _ Eq (ci_queue c Hc)) as (m' & n & Hcopy & Hq & Hfit). apply wpe_bind, wpe_modify, wpe_modify. split; [|done].
    apply (message_inv m c _ [] q [m']); [done|done|done|by rewrite logDelivered_nil|done| |done|congruence].
    rewrite Es. constructor; [|constructor]. right. by exists n.
  - unfold emitMessage, emitTyped. apply wpe_bind, wpe_modify, wpe_bind, wpe_get. fold (isSignal m). client_cbn.
    assert (∀ delivered new, delivered ++ sq_messages (cl_earlySignals c) = sq_messages (cl_earlySignals c) ++ new → Forall2 keptSignal (if isSignal m then [m] else []) new →
      CInv (logDelivered delivered (logEmission (EMessage m) c))) as Hinv.
    { intros delivered new E1 E2. apply (message_inv m c _ delivered (cl_earlySignals c) new); try done; [by apply Hc|]. intros Hl. by apply (ci_listening c Hc). }
    destruct (isErrorMessage m) eqn:Ee.
    { apply wpe_lift. split; [|done]. rewrite <-(logDelivered_nil (logEmission _ c)). apply (Hinv [] []); [by rewrite app_nil_r|]. destruct (isSignal m); [|constructor]. by specialize (Hkind eq_refl). }
    apply wpe_when; intros Ew.
    + apply andb_true_iff in Ew as [Ew Hl]. apply wpe_modify. split; [|done]. apply (Hinv [m] [m]); [by rewrite (proj1 (ci_listening c Hc Hl))|]. rewrite Ew. constructor; [by left|constructor].
    + split; [|done]. rewrite <-(logDelivered_nil (logEmission _ c)). apply (Hinv [] []); [by rewrite app_nil_r|]. destruct (isSignal m); [|constructor]. cbn [andb] in *. destruct (cl_listening c); done.
Qed.

Lemma failConnect_keeps c : CInv c → wpe failConnect (λ _, CInv) (λ _ _, False) c.
Proof.
  intros Hc. unfold failConnect. apply wpe_bind, wpe_modify. set (c1 := set_listeners _ _ _ _ c).
  assert (CInv c1) as H1' by (destruct Hc; split; subst c1; client_cbn; try done; intros Hd; split; [done|by apply ci_disposed0]). assert (cl_connecting c1 = false) as Hn by done. clearbody c1.
  assert (∀ c, CInv c → cl_connecting c = false → wpe dispose (λ _, CInv) (λ _ _, False) c) as Hdisp.
  { intros c2 Hc2 Hn2. apply wpe_modify. destruct (cl_disposed c2); [done|]. apply dispose_inv; [done|congruence]. }
  unfold closeSocketAfterFailedConnect. apply wpe_bind, wpe_get. destruct (cl_ws c1) as [[]|] eqn:Ew; try (by apply Hdisp);
    (apply wpe_bind, wpe_modify, Hdisp; [|done]; destruct H1'; split; client_cbn; try done; congruence).
Qed.

Lemma socketClosed_keeps c : CInv c → wpe (st_modify (setSocket (Some CLOSED) (cl_closeTimer c));; onRuntimeClose) (λ _, CInv) (λ _ _, False) c.
Proof.
  intros Hc. apply wpe_bind, wpe_modify. unfold onRuntimeClose. apply wpe_bind, wpe_modify. client_cbn.
  assert (CInv (setSocket (Some CLOSED) false c)) as H1' by (destruct Hc; split; client_cbn; try done; intros _; by split).
  apply wpe_bind. eapply wpe_mono; [by apply emitEnd_keeps|..]; [|done]. cbv beta. intros _ c' [Hc' Hk]. apply wpe_modify. destruct (cl_disposed c'); [done|].
  apply dispose_inv; [done|]. intros _. by apply Hk.
Qed.

Lemma wire_keeps c : CInv c → wpe wire (λ _, CInv) (λ _ _, False) c.
Proof.
  intros Hc. unfold wire. apply wpe_bind, wpe_get. destruct (isClosed c) eqn:Ec; [by apply wpe_ret|]. apply orb_false_iff in Ec as [Ed _].
  apply wpe_bind, wpe_modify, wpe_bind. unfold drainSignalMessages. apply wpe_bind, wpe_get. client_cbn. rewrite Ed. apply wpe_bind, wpe_modify, wpe_ret, wpe_modify.
  destruct Hc as [(rest & C1 & C1') C2 C3 C4 C5 C6 C7 C8]. split; client_cbn; try done.
  - exists []. rewrite app_nil_r. rewrite (C1' Ed) in C1. by split.
  - by rewrite Ed.
  - by apply drain_fits.
Qed.

(** The event is an error message of the server that the client listens to. *)
Definition unhandledError (e : ClientEvent) (c : Client) : bool :=
  match e with Frame data isBinary => cl_attached c && errorFrame data isBinary | _ => false end.
(** Every event keeps the invariant; only [send] and [connect] throw, and the
    handler of messages exactly on an error message. *)
Definition mayThrow (e : ClientEvent) (c : Client) : Prop := match e with CallSend _ | Connect _ => True | _ => unhandledError e c = true end.
Lemma otherEvent_keeps e c :
  CInv c → unhandledError e c = false → wpe (clientEvent e) (λ _, CInv) (λ _ c', CInv c' ∧ mayThrow e c) c.
Proof.
  intros Hc Eu. unfold clientEvent. apply wpe_bind, wpe_get.
  assert (∀ m : client (), wpe m (λ _, CInv) (λ _ _, False) c → wpe m (λ _, CInv) (λ _ c', CInv c' ∧ mayThrow e c) c) as Htotal.
  { intros m Hm. eapply wpe_mono; [exact Hm|done|done]. }
  assert (∀ m : client (), wpe m (λ _, kept c) (λ _ _, False) c → wpe m (λ _, CInv) (λ _ _, False) c) as Hkept.
  { intros m Hm. eapply wpe_mono; [exact Hm| |done]. by intros _ c' [? _]. }
  destruct e; try (match goal with |- wpe (connect _) _ _ _ => fail 1 | |- wpe (send _) _ _ _ => fail 1 | _ => apply Htotal end; try apply wpe_when; intros; try done).
  - unfold connect. apply wpe_bind, wpe_get. destruct (cl_disposed c) eqn:Ed; [by apply wpe_lift|]. case_bool_decide as Hactive; [by apply wpe_lift|].
    destruct constructed; [|eapply wpe_mono; [by apply failConnect_keeps|done|done]]. apply wpe_modify. destruct Hc. split; client_cbn; try done.
    + destruct ci_signals0 as (rest & ? & Hr). exists rest. auto.
    + intros Hl. split; [by apply ci_listening0|done].
  - rewrite andb_true_iff, bool_decide_eq_true in *. destruct_and!. apply wpe_bind, wpe_modify, wpe_modify. assert (cl_disposed c = false) as Hd.
    { apply not_true_is_false. intros Hd. destruct (ci_connecting c Hc) as [_ Hx]; [done|]. rewrite (Hx Hd) in *. done. }
    destruct Hc. split; client_cbn; try done. intros E. congruence.
  - by apply failConnect_keeps.
  - apply wpe_bind. eapply wpe_mono; [by apply close_keeps|..]; [|done]. cbv beta. intros _ c' [Hc' _]. by apply failConnect_keeps.
  - eapply wpe_mono; [apply onMessage_keeps; [done|]|by intros _ c' [? _]|].
    + apply not_true_is_false. intros Hd. destruct (ci_disposed c Hc Hd). congruence.
    + cbv beta. intros _ c' [_ Hf]. unfold unhandledError in Eu. rewrite Hf, andb_true_r in Eu. congruence.
  - by apply socketClosed_keeps.
  - by apply Hkept, emitEnd_keeps.
  - apply wpe_modify. rewrite bool_decide_eq_true in *. destruct_and!. destruct Hc. split; client_cbn; try done. intros Hn. split; [by eexists|]. intros Hd. by destruct (ci_connecting0 Hn) as [_ Hx%(λ f, f Hd)].
  - apply wpe_modify. destruct Hc. split; client_cbn; try done. intros Hn. split; [by repeat case_match; eexists|]. intros Hd. destruct (ci_connecting0 Hn) as [_ Hx]. by rewrite (Hx Hd).
  - eapply wpe_mono; [by apply send_keeps|..]; cbv beta; [by intros _ c' [? _]|]. intros _ c' [? _]. by split.
  - by apply Hkept, close_keeps.
  - by apply wire_keeps.
  - apply wpe_modify. by apply listening_inv.
Qed.

Lemma clientEvent_keeps e c :
  CInv c → wpe (clientEvent e) (λ _, unlessError (unhandledError e c)) (λ _ c', CInv c' ∧ mayThrow e c) c.
Proof.
  intros Hc. destruct (unhandledError e c) eqn:Eu; [|eapply wpe_mono; [by apply otherEvent_keeps|by split|done]].
  destruct e as [| | | |data isBinary| | | | | | | |]; try done. cbn in Eu. apply andb_true_iff in Eu as [Ea Ef].
  unfold clientEvent. apply wpe_bind, wpe_get. rewrite Ea. apply wpe_when; [intros _|done].
  eapply wpe_mono; [apply onMessage_keeps; [done|]|..].
  - apply not_true_is_false. intros Hd. destruct (ci_disposed c Hc Hd). congruence.
  - cbv beta. intros _ c' [_ Hf]. congruence.
  - cbv beta. intros _ c' [Hc' _]. split; [done|]. unfold mayThrow. cbn. by rewrite Ea, Ef.
Qed.

Lemma clientRun_inv events c : CInv c → CInv (clientRun events c).
Proof.
  revert c. induction events as [|e events IH]; intros c Hc; cbn [clientRun foldl]; [done|]. apply IH. pose proof (clientEvent_keeps e c Hc) as He. unfold wpe in He. unfold clientAfter.
  destruct (clientEvent e c); [by destruct He|by destruct He|done].
Qed.

Lemma newClient_inv c : newClient = Ok c → CInv c.
Proof.
  intros E. vm_compute in E. apply (inj Ok) in E as <-. split; cbn; try done; try constructor; try done.
  - exists []. by split.
Qed.

(** C19. [wireSignals] gets every signal once and in order.  After any events of the socket and calls of the client, the
    signals that were emitted are, one for one and in order, those that [wireSignals] got followed by those that are
    kept, each as it was received or as the queue copied it; while it listens nothing is kept.  The queue stays within
    300 messages and 1 MiB.  Everything emitted is a valid server message, everything sent was serialized; the ICE
    servers can be read whenever there are any.  A client that is disposed has no listeners.  Of the
    handlers only that of a message throws, and it does exactly when the message is a valid "error": emitting it under
    its type, which nobody listens to, throws after its "message" listeners ran. *)
Theorem client_signals_in_order c0 events :
  newClient = Ok c0 →
  let c := clientRun events c0 in
  (∃ rest, Forall2 keptSignal (emittedSignals c) (cl_delivered c ++ rest) ∧ (cl_disposed c = false → rest = sq_messages (cl_earlySignals c))) ∧
  (cl_listening c = true → sq_messages (cl_earlySignals c) = []) ∧
  Z.of_nat (length (sq_messages (cl_earlySignals c))) <= MAX_BUFFERED_SIGNAL_MESSAGES ∧ sq_bufferedBytes (cl_earlySignals c) <= SIGNALING_MAX_BUFFERED_BYTES ∧
  Forall (λ e, match e with EMessage m => isServerMessage m = true | _ => True end) (cl_emitted c) ∧
  Forall (λ s, ∃ m, serializeMessage m = Ok s) (cl_frames c) ∧
  currentIceServers c = Ok (if cl_disposed c then None else cl_latestIceServers c) ∧
  (cl_disposed c = true → cl_attached c = false ∧ cl_listening c = false) ∧
  (∀ e, match e with CallSend _ | Connect _ => False | _ => True end →
    ∃ c', if unhandledError e c then ∃ error, clientEvent e c = Raised error c' else clientEvent e c = Done () c').
Proof using H H0 H1.
  intros Hnew. pose proof (clientRun_inv events c0 (newClient_inv c0 Hnew)) as Hc. cbv zeta. set (c := clientRun events c0) in *. clearbody c. split_and!.
  - apply Hc.
  - intros Hl. by apply (ci_listening c Hc).
  - apply (ci_queue c Hc).
  - apply (ci_queue c Hc).
  - apply Hc.
  - apply Hc.
  - unfold currentIceServers. destruct (cl_disposed c); [done|]. destruct (cl_latestIceServers c) as [l|] eqn:El; [|done]. destruct (ci_latest c Hc l El) as [Hl Hn]. by rewrite cloneIceServers_value.
  - intros Hd. split; [by apply Hc|]. apply not_true_is_false. intros Hl. destruct (ci_listening c Hc Hl). congruence.
  - intros e He. pose proof (clientEvent_keeps e c Hc) as Hk. unfold wpe in Hk. destruct (clientEvent e c) as [[] c'|err c'|]; [..|done]; exists c'.
    + destruct Hk as [_ Hk]. by rewrite Hk.
    + destruct Hk as [_ Hk]. assert (unhandledError e c = true) as -> by by destruct e. by exists err.
Qed.

End Client.

(** ** A client that keeps a signal until it is wired *)

#[local] Existing Instances noUrls asciiCase decimalNumbers.

Definition sampleFrame (kind : string) : FrameData := FText (jsonStringify (sampleSignal kind)).
Definition sampleEvents : list ClientEvent :=
  [Connect true; Opened; Frame (sampleFrame "offer") false; CallWire; Frame (sampleFrame "candidate") false; Frame (FText (js "nonsense")) false; SocketClosed].

Definition errorEvent : ClientEvent :=
  Frame (FText (jsonStringify (obj [(js "type", jstr "error"); (js "code", jstr "code_taken"); (js "message", jstr "Code is taken.")]))) false.

Lemma client_signals_in_order_witness :
  ∃ c0, newClient = Ok c0 ∧
    cl_delivered (clientRun (λ _ _, Some 0) JNull (λ _, []) sampleEvents c0) = [sampleSignal "offer"; sampleSignal "candidate"] ∧
    (cl_listening (clientRun (λ _ _, Some 0) JNull (λ _, []) sampleEvents c0) = true → sq_messages (cl_earlySignals (clientRun (λ _ _, Some 0) JNull (λ _, []) sampleEvents c0)) = []) ∧
    ∃ error c', clientEvent (λ _ _, Some 0) JNull (λ _, []) errorEvent (clientRun (λ _ _, Some 0) JNull (λ _, []) [Connect true; Opened] c0) = Raised error c'.
Proof.
  destruct newClient as [c0|e] eqn:E; [|exfalso; revert E; by vm_compute]. exists c0. split; [done|]. split; [|split].
  - vm_compute in E. injection E as <-. by vm_compute.
  - apply (client_signals_in_order (λ _ _, Some 0) JNull (λ _, []) c0 sampleEvents E).
  - destruct (client_signals_in_order (λ _ _, Some 0) JNull (λ _, []) c0 [Connect true; Opened] E) as (_ & _ & _ & _ & _ & _ & _ & _ & Hlast).
    destruct (Hlast errorEvent I) as [c' Hc']. assert (unhandledError errorEvent (clientRun (λ _ _, Some 0) JNull (λ _, []) [Connect true; Opened] c0) = true) as Hu.
    { vm_compute in E. injection E as <-. by vm_compute. }
    rewrite Hu in Hc'. destruct Hc' as [error He]. by exists error, c'.
Defined.
