(* ===== verification/SignalWait.v ===== *)
(** * SignalWait: waiting for a message of the server ([waitForMessage] of
    [src/cli/signaling.ts], [waitForPairAccept] of [src/cli/index.ts]).

    A promise that the first event which decides settles; its listeners and its
    timer are removed then.  The events are those of the client, the timer and
    the abort signal, in any order. *)
From S2P Require Import Prelude.
From S2P Require Import Constants.
From S2P Require Import JsText.
From S2P Require Import JsValue.
From S2P Require Import Json.
From S2P Require Import Base64.
From S2P Require Import Protocol.
From S2P Require Import Authority.
From S2P Require Import Messages.
From S2P Require Import Bytes.
From S2P Require Import Crypto.
From S2P Require Import Pake.
From S2P Require Import Auth.
#[local] Open Scope Z_scope.

Inductive WaitEvent := WMessage (message : jsval) | WClosed | WSocketError (error : jsstr) | WProtocolError (error : jsstr) | WTimedOut | WAborted.

(** What becomes of the promise: open, resolved, or rejected. *)
Fixpoint settle {A} (on : WaitEvent → option (result A)) (events : list WaitEvent) : option (result A) :=
  match events with
  | [] => None
  | e :: events => match on e with Some r => Some r | None => settle on events end
  end.

(** [new SignalingError(message.code)] *)
Definition errorCodeOf (v : jsval) : option ErrorCode := find (λ c, isLit v (errorCodeText c)) ERROR_CODES.
Definition signalingError (code : jsval) : jsstr := match errorCodeOf code with Some c => signalingErrorDisplayMessage c | None => [] end.

Definition isType (message : jsval) (type : string) : bool := isLit (field message "type") (js type).
(** ["sid" in message && message.sid !== sid] *)
Definition otherSession (message : jsval) (sid : jsstr) : bool := hasOwnKey message (js "sid") && negb (isLit (field message "sid") sid).
Definition socketClosed : string := "Signaling socket closed.".

(** ** waitForMessage *)

(** [waitMessageType], [waitTimeout], [waitSessionId] *)
Definition WAIT_MESSAGE_TYPES : list jsstr :=
  map js ["registered"; "peer-joined"; "pake"; "confirm"; "pair-request"; "pair-accept"; "pair-reject"; "signal"; "peer-left"; "ice-config"; "error"].
Definition waitMessageType (type : jsval) : result jsstr :=
  match type with
  | JStr t => check (bool_decide (t ∈ WAIT_MESSAGE_TYPES)) "Signaling wait message type is invalid.";; Ok t
  | _ => throw "Signaling wait message type is invalid."
  end.
Definition waitTimeout (timeoutMs : jsval) : result Z :=
  match timeoutMs with
  | jint ms => check (isSafeInteger ms && (1 <=? ms) && (ms <=? PAIR_TIMEOUT_MS)) "Signaling wait timeout is invalid.";; Ok ms
  | _ => throw "Signaling wait timeout is invalid."
  end.
Definition isTokenUnit (c : Z) : bool := isAlpha c || isDigit c || (c =? 95) || (c =? 45).
Definition waitSessionId (sid : jsval) : result (option jsstr) :=
  match sid with
  | JUndefined => Ok None
  | JStr s => check ((1 <=? jslen s) && (jslen s <=? 128) && forallb isTokenUnit s) "Signaling wait session id is invalid.";; Ok (Some s)
  | _ => throw "Signaling wait session id is invalid."
  end.

Section Wait.
Context `{Crypto, UrlParser, JsCase}.

(** The listeners of [waitForMessage] *)
Definition waitOn (waitType : jsstr) (waitSid : option jsstr) (e : WaitEvent) : option (result jsval) :=
  match e with
  | WMessage message =>
    if negb (isServerMessage message) then None
    else if match waitSid with Some sid => otherSession message sid | None => false end then None
    else if isLit (field message "type") waitType then Some (Ok message)
    else if isType message "error" then Some (Err (signalingError (field message "code")))
    else if isType message "peer-left" && bool_decide (is_Some waitSid) then Some (throw "Peer disconnected.")
    else None
  | WClosed => Some (throw socketClosed)
  | WSocketError error | WProtocolError error => Some (Err error)
  | WTimedOut => Some (Err (js "Timed out waiting for " ++ waitType))
  | WAborted => Some (Err (js "Cancelled waiting for " ++ waitType))
  end.

(** [waitForMessage], on a client that is closed or not and a signal that was
    aborted before or not *)
Definition waitForMessage (closed aborted : bool) (type timeoutMs sid : jsval) (events : list WaitEvent) : option (result jsval) :=
  match (waitType ← waitMessageType type; _ ← waitTimeout timeoutMs; waitSid ← waitSessionId sid; Ok (waitType, waitSid)) with
  | Err error => Some (Err error)
  | Ok (waitType, waitSid) =>
    if closed then Some (throw socketClosed)
    else if aborted then Some (Err (js "Cancelled waiting for " ++ waitType))
    else settle (waitOn waitType waitSid) events
  end.

(** ** waitForPairAccept *)

Definition decisionFailed : string := "Authenticated pair decision check failed. Wrong code or signaling MITM.".
(** [pairRejectMessage] *)
Definition pairRejectMessage (reason : jsval) : string := "Transfer rejected.".

Definition optionalReason (reason : jsval) : option jsstr := match reason with JStr s => Some s | _ => None end.

Definition decisionOn (sid : jsstr) (signalAuthKey : binary) (sealedManifest : jsstr) (e : WaitEvent) : option (result ()) :=
  match e with
  | WMessage message =>
    if negb (isServerMessage message) then None
    else if otherSession message sid then None
    else if isType message "pair-accept" then
      Some (check (verifyPairDecisionAuthTag signalAuthKey sid receiver accept sealedManifest None (field message "auth")) decisionFailed)
    else if isType message "pair-reject" then
      Some (if verifyPairDecisionAuthTag signalAuthKey sid receiver reject sealedManifest (optionalReason (field message "reason")) (field message "auth")
            then throw (pairRejectMessage (field message "reason")) else throw decisionFailed)
    else if isType message "error" then Some (Err (signalingError (field message "code")))
    else if isType message "peer-left" then Some (throw "Peer disconnected.")
    else None
  | WClosed => Some (throw socketClosed)
  | WSocketError error | WProtocolError error => Some (Err error)
  | WTimedOut => Some (throw "Timed out waiting for pair decision")
  | WAborted => None
  end.

Definition waitForPairAccept (closed : bool) (sid : jsstr) (signalAuthKey : binary) (sealedManifest : jsstr) (events : list WaitEvent) : option (result ()) :=
  if closed then Some (throw socketClosed) else settle (decisionOn sid signalAuthKey sealedManifest) events.

(** What the receiver sends when it accepts *)
Definition pairAcceptMessage (sid : jsstr) (signalAuthKey : binary) (sealedManifest : jsstr) : result jsval :=
  auth ← pairDecisionAuthTag signalAuthKey sid receiver accept sealedManifest None;
  Ok (obj [(js "type", jstr "pair-accept"); (js "sid", JStr sid); (js "auth", JStr auth)]).

(** ** Theorems *)

(** The first event that decides settles the promise. *)
Lemma settle_spec {A} (on : WaitEvent → option (result A)) events r :
  settle on events = Some r ↔ ∃ before e after, events = before ++ e :: after ∧ Forall (λ e, on e = None) before ∧ on e = Some r.
Proof.
  induction events as [|e events IH]; cbn [settle].
  - split; [done|]. intros (before & e & after & E & _). by destruct before.
  - destruct (on e) as [r'|] eqn:Ee; split.
    + intros [= ->]. exists [], e, events. split_and!; [done|constructor|done].
    + intros ([|e' before] & e2 & after & E & Hb & He); injection E as -> E; [congruence|]. inversion_clear Hb. congruence.
    + intros (before & e2 & after & -> & Hb & He)%IH. exists (e :: before), e2, after. split_and!; [done|by constructor|done].
    + intros ([|e' before] & e2 & after & E & Hb & He); injection E as -> E; [congruence|]. apply IH. exists before, e2, after. split_and!; [done|by inversion Hb|done].
Qed.

Lemma waitOn_ok waitType waitSid e message :
  waitOn waitType waitSid e = Some (Ok message) ↔
  e = WMessage message ∧ isServerMessage message = true ∧ field message "type" = JStr waitType ∧ (∀ sid, waitSid = Some sid → otherSession message sid = false).
Proof.
  split.
  - destruct e as [m| | | | |]; cbn [waitOn]; try done. destruct (isServerMessage m) eqn:Em; cbn [negb]; [|done]. destruct (match waitSid with Some sid => otherSession m sid | None => false end) eqn:Eo; [done|].
    destruct (isLit (field m "type") waitType) eqn:Et; [|by repeat case_match]. intros [= ->]. split_and!; [done|done|by apply isLit_spec|]. by intros sid ->.
  - intros (-> & Em & Et & Eo). cbn [waitOn]. rewrite Em. cbn [negb]. rewrite Et. assert (match waitSid with Some sid => otherSession message sid | None => false end = false) as -> by (destruct waitSid; auto).
    by rewrite (proj2 (isLit_spec (JStr waitType) waitType) eq_refl).
Qed.

(** A decision of a session names the session. *)
Lemma accept_session m : isServerMessage m = true → field m "type" = jstr "pair-accept" → hasOwnKey m (js "sid") = true.
Proof.
  unfold isServerMessage. intros Hm Ht. rewrite Ht in Hm. apply andb_true_iff in Hm as [_ Hm]. cbv iota in Hm. rewrite !decide_False in Hm by done. unfold isRelayMessage in Hm.
  rewrite !decide_False in Hm by done. rewrite decide_True in Hm by done. rewrite !andb_true_iff in Hm. destruct Hm as [[_ Hs] _]. unfold field, ownDataValue in Hs. unfold hasOwnKey.
  by destruct (getOwnProperty _ _).
Qed.

Lemma otherSession_spec m sid : hasOwnKey m (js "sid") = true → otherSession m sid = false ↔ field m "sid" = JStr sid.
Proof. unfold otherSession. intros ->. cbn [andb]. by rewrite negb_false_iff, isLit_spec. Qed.

Lemma decisionOn_ok sid key sealedManifest e :
  decisionOn sid key sealedManifest e = Some (Ok ()) ↔
  ∃ message auth, e = WMessage message ∧ isServerMessage message = true ∧ field message "type" = jstr "pair-accept" ∧ field message "sid" = JStr sid ∧
    pairDecisionAuthTag key sid receiver accept sealedManifest None = Ok auth ∧ field message "auth" = JStr auth.
Proof.
  split.
  - destruct e as [m| | | | |]; cbn [decisionOn]; try done. destruct (isServerMessage m) eqn:Em; cbn [negb]; [|done]. destruct (otherSession m sid) eqn:Eo; [done|]. unfold isType.
    destruct (isLit (field m "type") (js "pair-accept")) eqn:Et; [|by repeat case_match]. intros [=Hv]. apply check_ok, verifyPairDecision_spec in Hv as (auth & Ha & Hm). apply isLit_spec in Et.
    exists m, auth. split_and!; try done. apply otherSession_spec; [|done]. by apply accept_session.
  - intros (m & auth & -> & Em & Et & Es & Ha & Hm). cbn [decisionOn]. rewrite Em. cbn [negb]. rewrite (proj2 (otherSession_spec m sid (accept_session m Em Et)) Es).
    unfold isType. rewrite Et. change (isLit (jstr "pair-accept") (js "pair-accept")) with true. cbv iota. f_equal. apply check_ok, verifyPairDecision_spec. by exists auth.
Qed.

(** C20. The sender goes on only after the receiver's authenticated consent.  [waitForPairAccept] resolves exactly when
    the client is open and the first event that decides is a valid "pair-accept" of this session whose tag is the one
    that the signal key gives for the receiver accepting exactly this sealed manifest; everything else that decides
    rejects.  The message that an honest receiver sends, undecided events before, resolves it.  Likewise
    [waitForMessage], with valid arguments on an open client without an abort, resolves exactly with the first message of
    the type and session that no deciding event precedes. *)
Theorem pair_accept_verified closed sid key sealedManifest events :
  (waitForPairAccept closed sid key sealedManifest events = Some (Ok ()) ↔
    closed = false ∧ ∃ before message auth after, events = before ++ WMessage message :: after ∧ Forall (λ e, decisionOn sid key sealedManifest e = None) before ∧
      isServerMessage message = true ∧ field message "type" = jstr "pair-accept" ∧ field message "sid" = JStr sid ∧
      pairDecisionAuthTag key sid receiver accept sealedManifest None = Ok auth ∧ field message "auth" = JStr auth) ∧
  (∀ honest before after, pairAcceptMessage sid key sealedManifest = Ok honest → isServerMessage honest = true → Forall (λ e, decisionOn sid key sealedManifest e = None) before →
    waitForPairAccept false sid key sealedManifest (before ++ WMessage honest :: after) = Some (Ok ())) ∧
  (∀ aborted type timeoutMs waitedSid message, waitForMessage closed aborted type timeoutMs waitedSid events = Some (Ok message) ↔
    closed = false ∧ aborted = false ∧ ∃ waitType ms waitSid before after,
      waitMessageType type = Ok waitType ∧ waitTimeout timeoutMs = Ok ms ∧ waitSessionId waitedSid = Ok waitSid ∧
      events = before ++ WMessage message :: after ∧ Forall (λ e, waitOn waitType waitSid e = None) before ∧
      isServerMessage message = true ∧ field message "type" = JStr waitType ∧ (∀ sid, waitSid = Some sid → otherSession message sid = false)).
Proof.
  split_and!.
  - unfold waitForPairAccept. destruct closed; [split; [done|by intros [? _]]|]. rewrite settle_spec. setoid_rewrite decisionOn_ok. split.
    + intros (before & e & after & -> & Hb & m & auth & -> & Hm). split; [done|]. by exists before, m, auth, after.
    + intros (_ & before & m & auth & after & -> & Hb & Hm). exists before, (WMessage m), after. split_and!; [done|done|]. by exists m, auth.
  - intros honest before after Hh Hv Hb. unfold waitForPairAccept. apply settle_spec. exists before, (WMessage honest), after. split_and!; [done|done|]. apply decisionOn_ok.
    unfold pairAcceptMessage in Hh. apply result_bind_ok in Hh as (auth & Ha & [= <-]). by eexists _, auth.
  - intros aborted type timeoutMs waitedSid message. unfold waitForMessage. destruct (waitMessageType type) as [waitType|e] eqn:E1; [|split; [done|by intros (_ & _ & ? & ? & ? & ? & ? & ? & _)]]. cbn [mbind result_bind].
    destruct (waitTimeout timeoutMs) as [ms|e] eqn:E2; [|split; [done|by intros (_ & _ & ? & ? & ? & ? & ? & _ & ? & _)]]. cbn [mbind result_bind].
    destruct (waitSessionId waitedSid) as [waitSid|e] eqn:E3; [|split; [done|by intros (_ & _ & ? & ? & ? & ? & ? & _ & _ & ? & _)]]. cbn [mbind result_bind].
    destruct closed; [split; [done|by intros [? _]]|]. destruct aborted; [split; [done|by intros (_ & ? & _)]|]. rewrite settle_spec. setoid_rewrite waitOn_ok. split.
    + intros (before & e & after & -> & Hb & -> & Hm). split_and!; [done|done|]. by exists waitType, ms, waitSid, before, after.
    + intros (_ & _ & t' & ms' & s' & before & after & Et & _ & Es & -> & Hb & Hm). apply (inj Ok) in Et as <-, Es as <-. exists before, (WMessage message), after. split_and!; try apply Hm; done.
Qed.

End Wait.

(** ** A wait that an accept ends, after a message of another session *)

#[local] Existing Instances plainCrypto noUrls asciiCase.

Definition sampleManifest : jsstr := js "c2VhbGVk".
Definition foreignAccept : jsval := obj [(js "type", jstr "pair-accept"); (js "sid", jstr "other"); (js "auth", JStr (bytesToBase64 (zeros 32)))].

Example sample_accept : ∃ honest, pairAcceptMessage testSid testKeyBytes sampleManifest = Ok honest ∧
  waitForPairAccept false testSid testKeyBytes sampleManifest [WMessage foreignAccept; WMessage honest; WClosed] = Some (Ok ()) ∧
  waitForPairAccept false testSid testKeyBytes sampleManifest [WMessage foreignAccept; WClosed] = Some (throw socketClosed) ∧
  waitForMessage false false (jstr "pair-accept") (jint 1000) (JStr testSid) [WMessage foreignAccept; WMessage honest] = Some (Ok honest).
Proof. eexists. split; [vm_compute; reflexivity|]. split_and!; vm_compute; reflexivity. Qed.
