(* ===== verification/WireSignals.v ===== *)
(** * WireSignals: authenticated WebRTC signals
    ([wireSignals] of [src/cli/index.ts], [handleSignal] of [src/cli/rtc.ts]).

    Every signal that the server delivers runs [onSignal], an async function,
    beside those that are still waiting; all share the queue of candidates, the
    replay guard and the flags.  The peer connection and the WebSocket are the
    environment: operations answer anything, the remote description appears at
    some time after one was given to the connection, and sending may throw.
    Opening and sealing are the functions of [SecureChannel].  The signal key is
    fixed: wiping the session's keys during the exchange is not modelled. *)
From S2P Require Import Prelude.
From S2P Require Import Constants.
From S2P Require Import JsText.
From S2P Require Import JsValue.
From S2P Require Import Json.
From S2P Require Import Authority.
From S2P Require Import Messages.
From S2P Require Import Bytes.
From S2P Require Import Crypto.
From S2P Require Import Pake.
From S2P Require Import Auth.
From S2P Require Import SecureChannel.
From S2P Require Import Async.
From S2P Require Import Signals.
#[local] Open Scope Z_scope.

(** ** State *)

Record Wiring := {
  wi_queuedCandidates : list jsval;
  wi_replayGuard : ReplayGuard;
  wi_disposed : bool;
  (** [failed], with what the promise [failure] is rejected with *)
  wi_failed : option jsstr;
  (** the handlers of the signalling client are registered *)
  wi_listening : bool;
  (** [pc.remoteDescription] is set; [pc.close()] was called *)
  wi_remoteDescription : bool;
  wi_closed : bool;
  (** whether [signaling.send] would go through now *)
  wi_sendable : bool;
  (** the signals that [handleSignal] was called with, the messages sent, and
      the messages whose [onSignal] has ended *)
  wi_handled : list jsval;
  wi_sent : list jsval;
  wi_settled : list jsval
}.

Definition set_queued l g w := {| wi_queuedCandidates := l; wi_replayGuard := g; wi_disposed := wi_disposed w; wi_failed := wi_failed w; wi_listening := wi_listening w;
  wi_remoteDescription := wi_remoteDescription w; wi_closed := wi_closed w; wi_sendable := wi_sendable w; wi_handled := wi_handled w; wi_sent := wi_sent w; wi_settled := wi_settled w |}.
Definition set_disposed w := {| wi_queuedCandidates := []; wi_replayGuard := wi_replayGuard w; wi_disposed := true; wi_failed := wi_failed w; wi_listening := false;
  wi_remoteDescription := wi_remoteDescription w; wi_closed := wi_closed w; wi_sendable := wi_sendable w; wi_handled := wi_handled w; wi_sent := wi_sent w; wi_settled := wi_settled w |}.
Definition set_failure e w := {| wi_queuedCandidates := wi_queuedCandidates w; wi_replayGuard := wi_replayGuard w; wi_disposed := wi_disposed w; wi_failed := Some e; wi_listening := wi_listening w;
  wi_remoteDescription := wi_remoteDescription w; wi_closed := wi_closed w; wi_sendable := wi_sendable w; wi_handled := wi_handled w; wi_sent := wi_sent w; wi_settled := wi_settled w |}.
Definition set_peer remote closed sendable w := {| wi_queuedCandidates := wi_queuedCandidates w; wi_replayGuard := wi_replayGuard w; wi_disposed := wi_disposed w; wi_failed := wi_failed w; wi_listening := wi_listening w;
  wi_remoteDescription := remote; wi_closed := closed; wi_sendable := sendable; wi_handled := wi_handled w; wi_sent := wi_sent w; wi_settled := wi_settled w |}.
Definition set_logs queued handled sent settled w := {| wi_queuedCandidates := queued; wi_replayGuard := wi_replayGuard w; wi_disposed := wi_disposed w; wi_failed := wi_failed w; wi_listening := wi_listening w;
  wi_remoteDescription := wi_remoteDescription w; wi_closed := wi_closed w; wi_sendable := wi_sendable w; wi_handled := handled; wi_sent := sent; wi_settled := settled |}.

Definition logHandled (signal : jsval) (w : Wiring) : Wiring := set_logs (wi_queuedCandidates w) (wi_handled w ++ [signal]) (wi_sent w) (wi_settled w) w.
Definition logSent (message : jsval) (w : Wiring) : Wiring := set_logs (wi_queuedCandidates w) (wi_handled w) (wi_sent w ++ [message]) (wi_settled w) w.
Definition logSettled (message : jsval) (w : Wiring) : Wiring := set_logs (wi_queuedCandidates w) (wi_handled w) (wi_sent w) (wi_settled w ++ [message]) w.
Definition pushCandidate (signal : jsval) (w : Wiring) : Wiring := set_queued (wi_queuedCandidates w ++ [signal]) (wi_replayGuard w) w.
(** [handleSignal(pc, queuedCandidates.shift())] up to the call *)
Definition shiftCandidate (w : Wiring) : Wiring :=
  match wi_queuedCandidates w with
  | [] => w
  | signal :: rest => set_logs rest (wi_handled w ++ [signal]) (wi_sent w) (wi_settled w) w
  end.

(** ** What it waits for *)

Inductive wire_op : Type → Type :=
| OpenSignal (sealedSignal : jsval) : wire_op jsval
| SealSignal (signal : jsval) : wire_op jsstr
| AddIceCandidate (candidate : jsval) : wire_op ()
| SetRemoteDescription (kind sdp : jsval) : wire_op ()
(** the answer's [sdp] *)
| CreateAnswer : wire_op (option jsstr)
(** [pc.localDescription?.sdp] once it is set *)
| SetLocalDescription (sdp : option jsstr) : wire_op (option jsstr).

Abbreviation wtask := (task wire_op Wiring).

(** ** The code *)

(** [copyCandidateSignal] *)
Definition copyCandidateSignal (signal : jsval) : result jsval :=
  let source := field signal "candidate" in
  let auth := field signal "auth" in
  check (isObjectLike source && isString auth) "WebRTC candidate signal is invalid.";;
  let copied (name : string) (keep : bool) := if keep then [(js name, field source name)] else [] in
  Ok (obj [(js "kind", jstr "candidate");
           (js "candidate", obj (copied "candidate" (isString (field source "candidate")) ++
             copied "sdpMid" (negb (isUndefined (field source "sdpMid"))) ++
             copied "sdpMLineIndex" (negb (isUndefined (field source "sdpMLineIndex"))) ++
             copied "usernameFragment" (isString (field source "usernameFragment"))));
           (js "auth", auth)]).

(** [requireSdp] *)
Definition requireSdp (sdp : option jsstr) : result jsstr :=
  match sdp with Some (c :: r) => Ok (c :: r) | _ => throw "WebRTC did not produce an SDP payload." end.

Definition authenticationFailed : string := "Authenticated WebRTC signal check failed. Wrong code or signaling MITM.".

Section Wire.
Context `{Crypto, JsNumbers, UrlParser, JsCase}.
(** [sid], [keys.signalAuthKey], [keys.role] and [answerOffers] *)
Variables (sid : jsstr) (signalAuthKey : binary) (role : PakeRole) (answerOffers : bool).

Definition peerRole : PakeRole := otherRole role.

(** [handleSignal] of rtc.ts *)
Definition handleSignal (signal : jsval) : wtask jsval :=
  lift (check (isSignalPayload signal) "WebRTC signal is invalid.");;
  if kindIs "candidate" signal then await (AddIceCandidate (field signal "candidate"));; mret (jstr "candidate")
  else await (SetRemoteDescription (field signal "kind") (field signal "sdp"));; mret (field signal "kind").

(** [signaling.send], and [safeSend] *)
Definition wireSend (message : jsval) : wtask () :=
  w ← get; if wi_sendable w then modify (logSent message) else Throw (js "signaling socket is not open").
Definition safeSend (message : jsval) : wtask () := tcatch (wireSend message) (λ _, mret ()).

Definition byeMessage : jsval := obj [(js "type", jstr "bye"); (js "sid", JStr sid); (js "reason", jstr "signal_error")].

(** [dispose] and [fail] *)
Definition dispose : wtask () := modify set_disposed.
Definition wireFail (error : jsstr) : wtask () :=
  w ← get;
  if bool_decide (is_Some (wi_failed w)) || wi_disposed w then mret ()
  else
    modify (set_failure error);;
    safeSend byeMessage;;
    modify (λ w, set_peer (wi_remoteDescription w) true (wi_sendable w) w);;
    dispose.

(** [if (disposed) return] before the rest *)
Definition unlessDisposed {A} (returned : A) (rest : wtask A) : wtask A := w ← get; if wi_disposed w then mret returned else rest.

(** The answer to an offer; false if it returned early. *)
Definition answerSignal (sdp auth : jsstr) : jsval := obj [(js "kind", jstr "answer"); (js "sdp", JStr sdp); (js "auth", JStr auth)].
Definition answerMessage (sealedSignal : jsstr) : jsval :=
  obj [(js "type", jstr "signal"); (js "sid", JStr sid); (js "kind", jstr "answer"); (js "sealedSignal", JStr sealedSignal)].
Definition answerOffer : wtask bool :=
  answer ← await CreateAnswer;
  unlessDisposed false (
    local ← await (SetLocalDescription answer);
    unlessDisposed false (
      answerSdp ← lift (requireSdp (match local with Some sdp => Some sdp | None => answer end));
      auth ← lift (sdpAuthTag signalAuthKey sid role (js "answer") answerSdp);
      sealedSignal ← await (SealSignal (answerSignal answerSdp auth));
      unlessDisposed false (wireSend (answerMessage sealedSignal);; mret true))).

(** [while (!disposed && queuedCandidates.length > 0) await handleSignal(...)];
    the queue is never longer than [MAX_QUEUED_ICE_CANDIDATES] and only becomes
    shorter meanwhile. *)
Fixpoint drainCandidates (fuel : nat) : wtask () :=
  match fuel with
  | O => mret ()
  | S fuel =>
    w ← get;
    match wi_disposed w, wi_queuedCandidates w with
    | false, signal :: _ => modify shiftCandidate;; handleSignal signal;; drainCandidates fuel
    | _, _ => mret ()
    end
  end.
Definition DRAIN_FUEL : nat := S (Z.to_nat MAX_QUEUED_ICE_CANDIDATES).

(** What follows [replayGuard.accept] *)
Definition processSignal (signal : jsval) : wtask () :=
  w ← get;
  if kindIs "candidate" signal && negb (wi_remoteDescription w) then
    if MAX_QUEUED_ICE_CANDIDATES <=? Z.of_nat (length (wi_queuedCandidates w)) then Throw (js "Too many queued ICE candidates before SDP.")
    else modify (pushCandidate signal)
  else
    modify (logHandled signal);;
    kind ← handleSignal signal;
    unlessDisposed () (
      continue ← (if isLit kind (js "offer") && answerOffers then answerOffer else mret true);
      if continue : bool then
        w ← get;
        twhen (wi_remoteDescription w) (drainCandidates DRAIN_FUEL)
      else mret ()).

(** [openedSignal.kind !== message.kind], negated *)
Definition sameKind (openedSignal message : jsval) : bool :=
  match field openedSignal "kind" with JStr kind => isLit (field message "kind") kind | _ => false end.

(** [onSignal], whose errors [fail] takes *)
Definition signalBody (message : jsval) : wtask () :=
  unlessDisposed () (
    if negb (isServerMessage message) then mret ()
    else if negb (isLit (field message "type") (js "signal")) || negb (isLit (field message "sid") sid) then mret ()
    else
      openedSignal ← await (OpenSignal (field message "sealedSignal"));
      unlessDisposed () (
        lift (check (sameKind openedSignal message) authenticationFailed);;
        lift (check (verifySignalAuthTag signalAuthKey sid peerRole openedSignal) authenticationFailed);;
        signal ← lift (if kindIs "candidate" openedSignal then copyCandidateSignal openedSignal else Ok openedSignal);
        w ← get;
        g ← lift (replayAccept (wi_replayGuard w) signal);
        modify (λ w, set_queued (wi_queuedCandidates w) g w);;
        processSignal signal)).
Definition onSignal (message : jsval) : wtask () := tcatch (signalBody message) wireFail.

(** ** The event loop *)

(** What an operation may answer *)
Definition wireAnswers (B : Type) (o : wire_op B) (w : Wiring) (r : result B) : Prop :=
  match o in wire_op B return result B → Prop with
  | OpenSignal sealedSignal => λ r, r = openSignal signalAuthKey sid peerRole sealedSignal
  | SealSignal signal => λ r, ∃ nonce, bytesOf 12 nonce ∧ r = sealSignal signalAuthKey sid role signal nonce
  | SetRemoteDescription _ _ => λ r, is_ok r = true → wi_remoteDescription w = true
  | _ => λ _, True
  end r.

(** A call of [onSignal] and its end *)
Definition delivery (message : jsval) : wtask () := onSignal message;; modify (logSettled message).

(** What can happen at the event loop: a message, a close or an error of the
    signalling client, [dispose] by the caller, and what the environment does. *)
Inductive wireEvent (w : Wiring) : wtask () → Prop :=
| event_signal message : wi_listening w = true → wireEvent w (delivery message)
| event_error error : wi_listening w = true → wireEvent w (wireFail error)
| event_dispose : wireEvent w dispose
| event_remote : Exists (λ v, kindIs "candidate" v = false) (wi_handled w) → wireEvent w (modify (λ w, set_peer true (wi_closed w) (wi_sendable w) w))
| event_socket sendable : wireEvent w (modify (λ w, set_peer (wi_remoteDescription w) (wi_closed w) sendable w)).

Definition wireStep : config (op := wire_op) (S := Wiring) → config → Prop := step wireAnswers (λ _ _, False) wireEvent.

(** [for (const message of signaling.drainSignalMessages())]: each runs to its
    first [await]. *)
Fixpoint drainEarly (messages : list jsval) (w : Wiring) (waiting : list (wtask ())) : Wiring * list (wtask ()) :=
  match messages with
  | [] => (w, waiting)
  | message :: messages =>
    if wi_disposed w then (w, waiting)
    else
      let '(t, w') := advance (delivery message) w in
      drainEarly messages w' (option_list (suspended t) ++ waiting)
  end.

Definition newWiring (sendable : bool) : Wiring :=
  {| wi_queuedCandidates := []; wi_replayGuard := newReplayGuard answerOffers; wi_disposed := false; wi_failed := None; wi_listening := true;
     wi_remoteDescription := false; wi_closed := false; wi_sendable := sendable; wi_handled := []; wi_sent := []; wi_settled := [] |}.

(** [wireSignals], on a client that is closed or not, with the signals it had
    buffered *)
Definition wireSignals (closed sendable : bool) (early : list jsval) : config (op := wire_op) (S := Wiring) :=
  if closed then {| shared := (advance (wireFail (js "Signaling socket closed.")) (newWiring sendable)).2; foreground := None; background := [] |}
  else let '(w, waiting) := drainEarly early (newWiring sendable) [] in {| shared := w; foreground := None; background := waiting |}.

End Wire.
