(* ===== verification/WireSignalsProps.v ===== *)
(** * WireSignalsProps: the invariant of [wireSignals].

    What the peer connection is given was sealed and authenticated by the
    other side, nothing is given twice, nothing is lost: when the call that
    handled the description has ended no candidate is waiting. *)
From S2P Require Import Prelude.
From S2P Require Import Constants.
From S2P Require Import JsText.
From S2P Require Import JsValue.
From S2P Require Import Json.
From S2P Require Import Authority.
From S2P Require Import Messages.
From S2P Require Import Bytes.
From S2P Require Import Crypto.
From S2P Require Import Pake.
From S2P Require Import Auth.
From S2P Require Import SecureChannel.
From S2P Require Import Async.
From S2P Require Import Signals.
From S2P Require Import WireSignals.
#[local] Open Scope Z_scope.

Definition descriptions (l : list jsval) : list jsval := filter (λ v, kindIs "candidate" v = false) l.
Definition candidateKeyOf (v : jsval) : option jsstr :=
  if kindIs "candidate" v then match candidateReplayKey v with Ok k => Some k | Err _ => None end else None.
(** The replay keys of the candidates *)
Definition candidateKeys (l : list jsval) : list jsstr := omap candidateKeyOf l.

Section Inv.
Context `{Crypto, JsNumbers, UrlParser, JsCase}.
Context (sid : jsstr) (signalAuthKey : binary) (role : PakeRole) (answerOffers : bool).

(** What came sealed and tagged from the peer *)
Definition authentic (v : jsval) : Prop :=
  ∃ sealed d, openSignal signalAuthKey sid (peerRole role) sealed = Ok d ∧ verifySignalAuthTag signalAuthKey sid (peerRole role) d = true ∧
    (if kindIs "candidate" d then copyCandidateSignal d = Ok v else v = d).

(** What is sent: the notice of failure, or an answer, tagged and sealed *)
Definition isAnswer (m : jsval) : Prop :=
  ∃ sdp auth nonce sealed, sdpAuthTag signalAuthKey sid role (js "answer") sdp = Ok auth ∧ bytesOf 12 nonce ∧
    sealSignal signalAuthKey sid role (answerSignal sdp auth) nonce = Ok sealed ∧ m = answerMessage sid sealed.
Definition isBye (m : jsval) : bool := isLit (field m "type") (js "bye").

(** A call of [onSignal] that has ended did its work, unless all is over. *)
Definition settledOk (w : Wiring) (m : jsval) : Prop :=
  isServerMessage m = true → isLit (field m "type") (js "signal") = true → isLit (field m "sid") sid = true →
  wi_disposed w = true ∨
  ∃ d, openSignal signalAuthKey sid (peerRole role) (field m "sealedSignal") = Ok d ∧
    if kindIs "candidate" d then ∃ v, copyCandidateSignal d = Ok v ∧ v ∈ wi_handled w ++ wi_queuedCandidates w
    else d ∈ wi_handled w ∧ wi_remoteDescription w = true ∧ wi_queuedCandidates w = [].

Record WInv (w : Wiring) : Prop := {
  wv_authentic : Forall authentic (wi_handled w ++ wi_queuedCandidates w);
  wv_keys : NoDup (candidateKeys (wi_handled w ++ wi_queuedCandidates w));
  wv_seen : ∀ k, k ∈ candidateKeys (wi_handled w ++ wi_queuedCandidates w) → k ∈ rg_seenCandidates (wi_replayGuard w);
  wv_keyed : Forall (λ v, kindIs "candidate" v = true → is_Some (candidateKeyOf v)) (wi_handled w ++ wi_queuedCandidates w);
  wv_side : rg_answerOffers (wi_replayGuard w) = answerOffers;
  wv_kind : Forall (λ v, kindIs (if answerOffers then "offer" else "answer") v = true) (descriptions (wi_handled w));
  wv_once : (length (descriptions (wi_handled w)) <= if (if answerOffers then rg_seenOffer (wi_replayGuard w) else rg_seenAnswer (wi_replayGuard w)) then 1 else 0)%nat;
  wv_queued : Forall (λ v, kindIs "candidate" v = true) (wi_queuedCandidates w) ∧ Z.of_nat (length (wi_queuedCandidates w)) <= MAX_QUEUED_ICE_CANDIDATES;
  wv_disposed : wi_disposed w = true → wi_queuedCandidates w = [] ∧ wi_listening w = false;
  wv_failed : is_Some (wi_failed w) → wi_disposed w = true ∧ wi_closed w = true;
  wv_sent : Forall (λ m, m = byeMessage sid ∨ answerOffers = true ∧ isAnswer m ∧ descriptions (wi_handled w) ≠ []) (wi_sent w);
  wv_bye : (length (filter (λ m, isBye m = true) (wi_sent w)) <= (if bool_decide (is_Some (wi_failed w)) then 1 else 0))%nat;
  wv_remote : wi_remoteDescription w = true → descriptions (wi_handled w) ≠ [];
  wv_settled : Forall (settledOk w) (wi_settled w)
}.

(** What the calls may do to one another *)
Record wireRely (w w' : Wiring) : Prop := {
  wr_disposed : wi_disposed w = true → wi_disposed w' = true;
  wr_failed : is_Some (wi_failed w) → is_Some (wi_failed w');
  wr_remote : wi_remoteDescription w = true → wi_remoteDescription w' = true;
  wr_handled : wi_handled w `prefix_of` wi_handled w';
  wr_kept v : v ∈ wi_handled w ++ wi_queuedCandidates w → wi_disposed w' = true ∨ v ∈ wi_handled w' ++ wi_queuedCandidates w';
  wr_shrinks : wi_remoteDescription w = true → (length (wi_queuedCandidates w') <= length (wi_queuedCandidates w))%nat
}.
#[export] Instance wireRely_preorder : PreOrder wireRely.
Proof.
  split; [by split; [..|right|]|]. intros w1 w2 w3 [A1 A2 A3 A4 A5 A6] [B1 B2 B3 B4 B5 B6]. split; [auto..|by etransitivity| |].
  - intros v [Hd|Hv]%A5; [left; auto|by apply B5].
  - intros Hr. specialize (A6 Hr). specialize (B6 (A3 Hr)). lia.
Qed.

Lemma settledOk_stable w w' m : wireRely w w' → settledOk w m → settledOk w' m.
Proof.
  intros [A1 A2 A3 A4 A5 A6] Hs E1 E2 E3. destruct (Hs E1 E2 E3) as [Hd|(d & Hd & Hk)]; [left; auto|]. destruct (kindIs "candidate" d) eqn:Ek.
  - destruct Hk as (v & Hv & Hin). apply A5 in Hin as [|Hin]; [by left|]. right. exists d. split; [done|]. rewrite Ek. by exists v.
  - destruct Hk as (Hin & Hr & Hq). right. exists d. split; [done|]. rewrite Ek. split_and!; [|auto|].
    + destruct A4 as [l ->]. apply elem_of_app. by left.
    + specialize (A6 Hr). rewrite Hq in A6. cbn [length] in A6. destruct (wi_queuedCandidates w'); [done|cbn [length] in A6; lia].
Qed.

Lemma settled_stable w w' l : wireRely w w' → Forall (settledOk w) l → Forall (settledOk w') l.
Proof. intros Hr Hl. eapply Forall_impl; [exact Hl|]. intros m. by apply settledOk_stable. Qed.

Lemma descriptions_app l l' : descriptions (l ++ l') = descriptions l ++ descriptions l'.
Proof. apply filter_app. Qed.

Lemma candidateKeys_app l l' : candidateKeys (l ++ l') = candidateKeys l ++ candidateKeys l'.
Proof. apply omap_app. Qed.

(** *** Steps of the state *)

Ltac wire_cbn := cbn [set_queued set_disposed set_failure set_peer set_logs logHandled logSent logSettled pushCandidate wi_queuedCandidates wi_replayGuard wi_disposed wi_failed wi_listening
  wi_remoteDescription wi_closed wi_sendable wi_handled wi_sent wi_settled] in *.

(** A state that differs in what others do not see *)
Lemma rely_same w w' :
  wi_queuedCandidates w' = wi_queuedCandidates w → wi_handled w' = wi_handled w → (wi_disposed w = true → wi_disposed w' = true) →
  (is_Some (wi_failed w) → is_Some (wi_failed w')) → (wi_remoteDescription w = true → wi_remoteDescription w' = true) → wireRely w w'.
Proof. intros Eq Eh Hd Hf Hr. split; [done|done|done|by rewrite Eh|rewrite Eq, Eh; by right|by rewrite Eq]. Qed.

Lemma rely_logHandled w v : wireRely w (logHandled v w).
Proof. split; wire_cbn; [done|done|done|by eexists| |done]. intros x Hx. right. rewrite !elem_of_app in *. naive_solver. Qed.

Lemma rely_shift w : wireRely w (shiftCandidate w).
Proof.
  unfold shiftCandidate. destruct (wi_queuedCandidates w) as [|v rest] eqn:E; [reflexivity|]. split; wire_cbn; [done|done|done|by eexists| |rewrite E; cbn; lia].
  intros x. rewrite E. right. by rewrite <-app_assoc.
Qed.

Lemma rely_push w v : wi_remoteDescription w = false → wireRely w (pushCandidate v w).
Proof.
  intros Hr. split; wire_cbn; [done|done|done|done| |by rewrite Hr]. intros x Hx. right. rewrite app_assoc. apply elem_of_app. by left.
Qed.

Lemma rely_dispose w : wireRely w (set_disposed w).
Proof. split; wire_cbn; [done|done|done|done|by left|intros _; cbn; lia]. Qed.

(** Only the queue moves. *)
Lemma shift_inv w : WInv w → WInv (shiftCandidate w).
Proof.
  intros Hw. unfold shiftCandidate. destruct (wi_queuedCandidates w) as [|v rest] eqn:E; [done|].
  pose proof (rely_shift w) as Hr. unfold shiftCandidate in Hr. rewrite E in Hr. destruct Hw as [W1 W2 W3 W4 W5 W6 W7 [W8 W8'] W9 W10 W11 W12 W13 W14]. rewrite E in *.
  apply Forall_cons in W8 as [Hk W8]. assert (descriptions (wi_handled w ++ [v]) = descriptions (wi_handled w)) as Ed.
  { rewrite descriptions_app. unfold descriptions at 2. rewrite filter_cons_False by (cbn; congruence). by rewrite filter_nil, app_nil_r. }
  split; wire_cbn; rewrite ?Ed, <-?app_assoc; cbn [app]; try done.
  - split; [done|]. cbn [length] in W8'. lia.
  - intros Hd. apply W9 in Hd as [? _]. done.
  - by eapply settled_stable.
Qed.

Lemma setGuard_rely w g : wireRely w (set_queued (wi_queuedCandidates w) g w).
Proof. by apply rely_same. Qed.

Definition flagOf (g : ReplayGuard) : bool := if answerOffers then rg_seenOffer g else rg_seenAnswer g.

(** What accepting a signal does to the guard *)
Lemma guard_accept g0 v g :
  rg_answerOffers g0 = answerOffers → replayAccept g0 v = Ok g →
  rg_answerOffers g = answerOffers ∧
  ((∃ k, candidateKeyOf v = Some k ∧ kindIs "candidate" v = true ∧ (k ∉ rg_seenCandidates g0) ∧ rg_seenCandidates g = ({[k]} ∪ rg_seenCandidates g0) ∧ flagOf g = flagOf g0) ∨
   candidateKeyOf v = None ∧ kindIs "candidate" v = false ∧ rg_seenCandidates g = rg_seenCandidates g0 ∧
   kindIs (if answerOffers then "offer" else "answer") v = true ∧ flagOf g0 = false ∧ flagOf g = true).
Proof.
  intros Hside. unfold replayAccept, flagOf. fold (kindIs "offer" v) (kindIs "answer" v) (kindIs "candidate" v). rewrite check_bind_ok. cbv zeta. rewrite Hside. intros [_ Hg].
  destruct (kindIs "offer" v) eqn:Ko; [|destruct (kindIs "answer" v) eqn:Ka].
  - rewrite !check_bind_ok, negb_true_iff in Hg. destruct Hg as (Hs & Hn & Hg). apply (inj Ok) in Hg as <-. cbn. rewrite Hs. split; [done|]. right.
    assert (kindIs "candidate" v = false) as Kc by by apply (kind_exclusive "offer"). unfold candidateKeyOf. by rewrite Kc.
  - rewrite !check_bind_ok, !negb_true_iff in Hg. destruct Hg as (Hs & Hn & Hg). apply (inj Ok) in Hg as <-. cbn. rewrite Hs. split; [done|]. right.
    assert (kindIs "candidate" v = false) as Kc by by apply (kind_exclusive "answer"). unfold candidateKeyOf. by rewrite Kc.
  - rewrite check_bind_ok in Hg. destruct Hg as [Kc (k & Hk & Hg)%result_bind_ok]. rewrite check_bind_ok, negb_true_iff, bool_decide_eq_false in Hg. destruct Hg as [Hn Hg].
    apply (inj Ok) in Hg as <-. cbn. split; [done|]. left. exists k. unfold candidateKeyOf. by rewrite Kc, Hk.
Qed.

Lemma keys_insert l1 l2 v :
  Forall (λ x, kindIs "candidate" x = true → is_Some (candidateKeyOf x)) (l1 ++ l2) → (kindIs "candidate" v = true → is_Some (candidateKeyOf v)) →
  Forall (λ x, kindIs "candidate" x = true → is_Some (candidateKeyOf x)) ((l1 ++ [v]) ++ l2).
Proof. rewrite !Forall_app, Forall_singleton. naive_solver. Qed.

(** A state to which [v] was added, in either list, when the guard accepted it *)
Lemma insert_inv w w' v g :
  WInv w → authentic v → replayAccept (wi_replayGuard w) v = Ok g → wireRely w w' →
  wi_handled w' ++ wi_queuedCandidates w' ≡ₚ v :: wi_handled w ++ wi_queuedCandidates w → wi_replayGuard w' = g →
  wi_disposed w' = false → wi_failed w' = wi_failed w → wi_sent w' = wi_sent w → wi_settled w' = wi_settled w → wi_remoteDescription w' = wi_remoteDescription w →
  (wi_handled w' = wi_handled w ++ [v] ∧ wi_queuedCandidates w' = wi_queuedCandidates w ∨
   wi_handled w' = wi_handled w ∧ wi_queuedCandidates w' = wi_queuedCandidates w ++ [v] ∧ kindIs "candidate" v = true ∧
   Z.of_nat (length (wi_queuedCandidates w)) < MAX_QUEUED_ICE_CANDIDATES) → WInv w'.
Proof.
  intros [W1 W2 W3 W4 W5 W6 W7 [W8 W8'] W9 W10 W11 W12 W13 W14] Ha Hg Hrely Hperm Eg Ed Ef Es Et Er Hwhere. apply (guard_accept _ _ _ W5) in Hg as [Hside Hg].
  assert (candidateKeys (wi_handled w' ++ wi_queuedCandidates w') ≡ₚ option_list (candidateKeyOf v) ++ candidateKeys (wi_handled w ++ wi_queuedCandidates w)) as Hkeys.
  { unfold candidateKeys. rewrite Hperm. cbn [omap list_omap]. by destruct (candidateKeyOf v). }
  assert (descriptions (wi_handled w') ≠ [] ∨ descriptions (wi_handled w') = descriptions (wi_handled w)) as Hdesc.
  { destruct Hwhere as [[-> _]|(-> & _)]; [|by right]. rewrite descriptions_app. unfold descriptions at 2 4. destruct (kindIs "candidate" v) eqn:Kc.
    - right. rewrite filter_cons_False by (cbn; congruence). by rewrite app_nil_r.
    - left. rewrite filter_cons_True by done. by destruct (descriptions (wi_handled w)). }
  assert (Forall (λ x, kindIs (if answerOffers then "offer" else "answer") x = true) (descriptions (wi_handled w')) ∧
    (length (descriptions (wi_handled w')) <= if flagOf g then 1 else 0)%nat) as [Hkind Honce].
  { fold (flagOf (wi_replayGuard w)) in W7. destruct Hwhere as [[-> _]|(-> & _ & Kc & _)].
    - rewrite descriptions_app. unfold descriptions at 2 4. destruct Hg as [(k & _ & Kc & _ & _ & ->)|(_ & Kc & _ & Hk & Hf0 & ->)].
      + rewrite filter_cons_False by (cbn; congruence). rewrite filter_nil, app_nil_r. by split.
      + rewrite Hf0 in W7. rewrite filter_cons_True, filter_nil by done. destruct (descriptions (wi_handled w)); [|cbn in W7; lia]. split; [by constructor|done].
    - destruct Hg as [(k & _ & _ & _ & _ & ->)|(_ & Kc' & _)]; [by split|congruence]. }
  split.
  - rewrite Hperm. by constructor.
  - rewrite Hkeys. apply NoDup_app. split_and!; [by destruct (candidateKeyOf v); cbn; [apply NoDup_singleton|constructor]| |done].
    intros k Hk Hin. destruct Hg as [(k' & Ek & _ & Hnew & _)|(Ek & _)]; rewrite Ek in Hk; cbn in Hk; [|by apply not_elem_of_nil in Hk].
    apply list_elem_of_singleton in Hk as ->. by apply Hnew, W3.
  - intros k. rewrite Hkeys, Eg. intros [Hk|Hk%W3]%elem_of_app.
    + destruct Hg as [(k' & Ek & _ & _ & -> & _)|(Ek & _)]; rewrite Ek in Hk; cbn in Hk; [|by apply not_elem_of_nil in Hk]. apply list_elem_of_singleton in Hk as ->. set_solver.
    + destruct Hg as [(k' & _ & _ & _ & -> & _)|(_ & _ & -> & _)]; set_solver.
  - rewrite Hperm. constructor; [|done]. intros Kc. destruct Hg as [(k & -> & _)|(_ & Kc' & _)]; [by eexists|congruence].
  - by rewrite Eg.
  - done.
  - by rewrite Eg.
  - destruct Hwhere as [[_ ->]|(_ & -> & Kc & Hroom)]; [done|]. split; [apply Forall_app; by split; [|apply Forall_singleton]|]. rewrite length_app. cbn [length]. lia.
  - by rewrite Ed.
  - rewrite Ef. intros Hf. apply W10 in Hf as [Hd _]. destruct Hrely as [Hmono _ _ _ _ _]. rewrite (Hmono Hd) in Ed. done.
  - rewrite Es. eapply Forall_impl; [exact W11|]. intros m [->|(? & ? & ?)]; [by left|]. right. split_and!; [done..|]. destruct Hdesc as [?|Hdesc]; [done|by rewrite Hdesc].
  - by rewrite Ef, Es.
  - rewrite Er. intros Hrem. destruct Hdesc as [?|Hdesc]; [done|]. rewrite Hdesc. by apply W13.
  - rewrite Et. by apply (settled_stable w).
Qed.

(** The guard alone *)
Lemma guard_inv w v g : WInv w → replayAccept (wi_replayGuard w) v = Ok g → WInv (set_queued (wi_queuedCandidates w) g w).
Proof.
  intros [W1 W2 W3 W4 W5 W6 W7 W8 W9 W10 W11 W12 W13 W14] Hg. apply (guard_accept _ _ _ W5) in Hg as [Hside Hg]. split; wire_cbn; try done.
  - intros k Hk%W3. destruct Hg as [(k' & _ & _ & _ & -> & _)|(_ & _ & -> & _)]; set_solver.
  - fold (flagOf g). fold (flagOf (wi_replayGuard w)) in W7. destruct Hg as [(k' & _ & _ & _ & _ & ->)|(_ & _ & _ & _ & E & ->)]; [done|]. rewrite E in W7. lia.
Qed.

(** *** The functions *)

Abbreviation wpw t Q E w := (twp (wireAnswers sid signalAuthKey role) WInv wireRely wireRely t Q E w).

Lemma w_get {A} (f : Wiring → wtask A) Q E w : wpw (f w) Q E w → wpw (w ← get; f w) Q E w.
Proof. intros Hf. apply twp_bind, twp_get; [reflexivity|exact Hf]. Qed.

Lemma w_modify f (Q : () → Wiring → Prop) E w : wireRely w (f w) → Q () (f w) → wpw (modify f) Q E w.
Proof. apply twp_modify. Qed.

Lemma w_unlessDisposed {A} (returned : A) rest (Q : A → Wiring → Prop) E w :
  (wi_disposed w = true → Q returned w) → (wi_disposed w = false → wpw rest Q E w) → wpw (unlessDisposed returned rest) Q E w.
Proof. intros Hd Hl. apply w_get. destruct (wi_disposed w); [by apply twp_ret, Hd|by apply Hl]. Qed.

Lemma rely_over w w' : (is_Some (wi_failed w) → is_Some (wi_failed w')) → wi_remoteDescription w' = wi_remoteDescription w → wi_handled w' = wi_handled w →
  wi_disposed w' = true → wi_queuedCandidates w' = [] → wireRely w w'.
Proof. intros Hf Er Eh Ed Eq. split; [done|done|by rewrite Er|by rewrite Eh|by left|rewrite Eq; cbn; lia]. Qed.

(** After failing everything is over. *)
Lemma failed_inv w w' :
  WInv w → wi_disposed w = false → wi_failed w = None →
  wi_queuedCandidates w' = [] → wi_replayGuard w' = wi_replayGuard w → wi_disposed w' = true → is_Some (wi_failed w') → wi_listening w' = false → wi_closed w' = true →
  wi_remoteDescription w' = wi_remoteDescription w → wi_handled w' = wi_handled w → wi_settled w' = wi_settled w →
  (wi_sent w' = wi_sent w ∨ wi_sent w' = wi_sent w ++ [byeMessage sid]) → WInv w'.
Proof.
  intros [W1 W2 W3 W4 W5 W6 W7 W8 W9 W10 W11 W12 W13 W14] Hd Hf Eq Eg Ed Ef El Ec Er Eh Et Es.
  apply Forall_app in W1 as [W1 _], W4 as [W4 _]. rewrite candidateKeys_app in W2, W3. apply NoDup_app in W2 as (W2 & _ & _).
  split; rewrite ?Eq, ?Eh, ?Eg, ?app_nil_r; try done.
  - intros k Hk. apply W3, elem_of_app. by left.
  - destruct Es as [-> | ->]; [done|]. apply Forall_app. split; [done|]. apply Forall_singleton. by left.
  - rewrite Hf, bool_decide_eq_false_2 in W12 by by intros []. rewrite bool_decide_eq_true_2 by done. destruct Es as [-> | ->]; [lia|]. rewrite filter_app, length_app.
    apply Nat.le_0_r in W12. rewrite W12. apply (Nat.le_trans _ (length [byeMessage sid])); [apply length_filter|done].
  - by rewrite Er.
  - rewrite Et. eapply Forall_impl; [exact W14|]. intros m _. by left.
Qed.

Lemma wp_fail e w : WInv w → wpw (wireFail sid e) (λ _ w', WInv w' ∧ wireRely w w' ∧ wi_disposed w' = true) (λ _ _, False) w.
Proof.
  intros Hw. apply w_get. destruct (bool_decide (is_Some (wi_failed w))) eqn:Ef; cbn [orb].
  { apply twp_ret. apply bool_decide_eq_true in Ef. split_and!; [done|done|by apply (wv_failed w Hw)]. }
  destruct (wi_disposed w) eqn:Ed; [by apply twp_ret|]. apply bool_decide_eq_false, eq_None_not_Some in Ef.
  apply twp_bind, w_modify; [by apply rely_same|]. apply twp_bind. unfold safeSend, wireSend. apply twp_catch, w_get. wire_cbn.
  destruct (wi_sendable w) eqn:Es.
  - apply w_modify; [by apply rely_same|]. apply twp_bind, w_modify; [by apply rely_same|]. apply w_modify; [apply rely_dispose|]. wire_cbn. split_and!; [|by apply rely_over|done].
    apply (failed_inv w); wire_cbn; (done || by eexists || by right).
  - apply twp_throw, twp_ret. apply twp_bind, w_modify; [by apply rely_same|]. apply w_modify; [apply rely_dispose|]. wire_cbn. split_and!; [|by apply rely_over|done].
    apply (failed_inv w); wire_cbn; (done || by eexists || by left).
Qed.

(** A call on the peer connection; afterwards the description is set. *)
Lemma wp_handleSignal v (Q : jsval → Wiring → Prop) (E : jsstr → Wiring → Prop) w :
  WInv w → (∀ e w', WInv w' → wireRely w w' → E e w') →
  (∀ w', WInv w' → wireRely w w' → (kindIs "candidate" v = false → wi_remoteDescription w' = true) → Q (if kindIs "candidate" v then jstr "candidate" else field v "kind") w') →
  wpw (handleSignal v) Q E w.
Proof.
  intros Hw HE HQ. unfold handleSignal. apply twp_bind, twp_lift. destruct (check _ _); [|by apply HE; [|reflexivity]].
  destruct (kindIs "candidate" v) eqn:Kc; apply twp_bind, twp_await; try done; intros w' r Hw' Hr Ha; destruct r as [u|e]; try (by apply HE).
  - apply twp_ret. apply HQ; [done|done|congruence].
  - apply twp_ret. apply HQ; [done|done|]. intros _. by apply Ha.
Qed.

Lemma wp_drain fuel w :
  WInv w → wi_remoteDescription w = true → (length (wi_queuedCandidates w) < fuel)%nat →
  wpw (drainCandidates fuel) (λ _ w', WInv w' ∧ wireRely w w' ∧ (wi_disposed w' = true ∨ wi_queuedCandidates w' = [])) (λ _ w', WInv w' ∧ wireRely w w') w.
Proof.
  revert w. induction fuel as [|fuel IH]; intros w Hw Hr Hl; [lia|]. cbn [drainCandidates]. apply w_get.
  destruct (wi_disposed w) eqn:Ed; [apply twp_ret; split_and!; [done|done|by left]|].
  destruct (wi_queuedCandidates w) as [|v rest] eqn:Eq; [apply twp_ret; split_and!; [done|done|by right]|].
  apply twp_bind, w_modify; [apply rely_shift|]. apply twp_bind. pose proof (rely_shift w) as Hs.
  apply wp_handleSignal; [by apply shift_inv|intros e w' ? ?; split; [done|by etransitivity]|].
  intros w' Hw' Hr' _. assert (wireRely w w') as Hww by by etransitivity. assert (length (wi_queuedCandidates w') <= length rest)%nat as Hlen.
  { apply wr_shrinks in Hr'; [|by apply (wr_remote _ _ Hs)]. unfold shiftCandidate in Hr'. by rewrite Eq in Hr'. }
  eapply twp_mono; [apply IH; [done|by apply (wr_remote _ _ Hww)|cbn [length] in Hl; lia]|..]; cbv beta.
  - intros _ w2 (? & ? & ?). split_and!; [done|by etransitivity|done].
  - intros e w2 (? & ?). split; [done|by etransitivity].
Qed.

Lemma descriptions_kept w w' : wireRely w w' → descriptions (wi_handled w) ≠ [] → descriptions (wi_handled w') ≠ [].
Proof. intros [_ _ _ [l ->] _ _] Hd. rewrite descriptions_app. by destruct (descriptions (wi_handled w)). Qed.

Lemma logSent_inv w m : WInv w → answerOffers = true → isAnswer m → descriptions (wi_handled w) ≠ [] → WInv (logSent m w).
Proof.
  intros [W1 W2 W3 W4 W5 W6 W7 W8 W9 W10 W11 W12 W13 W14] Ha Hm Hd. split; wire_cbn; try done.
  - apply Forall_app. split; [done|]. apply Forall_singleton. by right.
  - rewrite filter_app, filter_cons_False, filter_nil, app_nil_r; [done|]. destruct Hm as (sdp & auth & nonce & sealed & _ & _ & _ & ->). by vm_compute.
Qed.

Lemma wp_answer w :
  WInv w → answerOffers = true → descriptions (wi_handled w) ≠ [] →
  wpw (answerOffer sid signalAuthKey role) (λ b w', WInv w' ∧ wireRely w w' ∧ (b = false → wi_disposed w' = true)) (λ _ w', WInv w' ∧ wireRely w w') w.
Proof.
  intros Hw Ha Hd. unfold answerOffer. apply twp_bind, twp_await; [done|]. intros w1 r Hw1 R1 _. destruct r as [answer|e]; [|done].
  apply w_unlessDisposed; intros D1; [by split_and!|]. apply twp_bind, twp_await; [done|]. intros w2 r Hw2 R2 _. assert (wireRely w w2) by (by etransitivity). destruct r as [local|e]; [|done].
  apply w_unlessDisposed; intros D2; [by split_and!|]. apply twp_bind, twp_lift. destruct (requireSdp _) as [sdp|e]; [|done]. apply twp_bind, twp_lift.
  destruct (sdpAuthTag signalAuthKey sid role (js "answer") sdp) as [auth|e] eqn:Etag; [|done]. apply twp_bind, twp_await; [done|]. intros w3 r Hw3 R3 Hr. assert (wireRely w w3) by (by etransitivity).
  destruct r as [sealed|e]; [|done]. apply w_unlessDisposed; intros D3; [by split_and!|]. apply twp_bind. unfold wireSend. apply w_get. destruct (wi_sendable w3); [|by apply twp_throw].
  assert (wireRely w3 (logSent (answerMessage sid sealed) w3)) as R4 by by apply rely_same. apply w_modify; [done|]. apply twp_ret. split_and!; [|by etransitivity|done].
  destruct Hr as (nonce & Hn & Hr). apply logSent_inv; [done|done|by exists sdp, auth, nonce, sealed|by eapply descriptions_kept].
Qed.

(** A signal that the guard has just accepted *)
Lemma wp_process v w w0 g :
  w = set_queued (wi_queuedCandidates w0) g w0 → WInv w0 → wi_disposed w0 = false → authentic v → replayAccept (wi_replayGuard w0) v = Ok g →
  wpw (processSignal sid signalAuthKey role answerOffers v)
    (λ _ w', WInv w' ∧ (wi_disposed w' = true ∨
       if kindIs "candidate" v then v ∈ wi_handled w' ++ wi_queuedCandidates w' else v ∈ wi_handled w' ∧ wi_remoteDescription w' = true ∧ wi_queuedCandidates w' = []))
    (λ _ w', WInv w') w.
Proof.
  intros Ew Hw0 Hd Hv Hg. assert (wireRely w0 w) as R0 by (rewrite Ew; by apply setGuard_rely).
  assert (WInv w) as Hw. { rewrite Ew. apply (guard_inv _ v); [done|done]. }
  assert (kindIs "candidate" v && negb (wi_remoteDescription w) = false → WInv (logHandled v w)) as Hhandled.
  { intros _. apply (insert_inv w0 _ v g Hw0 Hv Hg); rewrite Ew; wire_cbn; try done.
    - etransitivity; [apply (setGuard_rely _ g)|apply (rely_logHandled (set_queued (wi_queuedCandidates w0) g w0))].
    - by rewrite <-app_assoc, (Permutation_middle (wi_handled w0)).
    - by left. }
  unfold processSignal. apply w_get. destruct (kindIs "candidate" v && negb (wi_remoteDescription w)) eqn:Eq.
  - apply andb_true_iff in Eq as [Kc Hr%negb_true_iff]. rewrite Kc. destruct (Z.leb_spec MAX_QUEUED_ICE_CANDIDATES (Z.of_nat (length (wi_queuedCandidates w)))) as [|Hroom]; [by apply twp_throw|].
    apply w_modify; [by apply rely_push|]. split; [|right; wire_cbn; rewrite app_assoc; apply elem_of_app; right; by left].
    apply (insert_inv w0 _ v g Hw0 Hv Hg); rewrite Ew in *; wire_cbn; try done.
    + etransitivity; [apply (setGuard_rely _ g)|by apply (rely_push (set_queued (wi_queuedCandidates w0) g w0))].
    + by rewrite app_assoc, Permutation_app_comm.
    + by right.
  - specialize (Hhandled eq_refl). pose proof (rely_logHandled w v) as R1. apply twp_bind, w_modify; [done|]. apply twp_bind. apply wp_handleSignal; [done|done|]. intros w1 Hw1 R2 Hset.
    assert (v ∈ wi_handled w1) as Hin. { destruct R2 as [_ _ _ [l ->] _ _]. wire_cbn. rewrite !elem_of_app. left. right. by left. }
    apply w_unlessDisposed; intros D1; [split; [done|by left]|]. apply twp_bind.
    apply (twp_mono _ _ _ _ _ (λ b w', WInv w' ∧ wireRely w1 w' ∧ (b = false → wi_disposed w' = true)) _ (λ _ w', WInv w' ∧ wireRely w1 w')); [..|by intros e w' [? _]].
    + destruct (isLit _ (js "offer") && answerOffers) eqn:Eo; [|by apply twp_ret]. apply andb_true_iff in Eo as [Eo Ha]. apply wp_answer; [done|done|].
      destruct (kindIs "candidate" v) eqn:Kc; [by vm_compute in Eo|]. intros E. assert (v ∈ descriptions (wi_handled w1)) as Hx; [by apply list_elem_of_filter|]. rewrite E in Hx. by apply not_elem_of_nil in Hx.
    + intros [] w2 (Hw2 & R3 & Hb); [|apply twp_ret; split; [done|left; by apply Hb]]. apply w_get.
      assert (v ∈ wi_handled w2) as Hin2. { destruct R3 as [_ _ _ [l ->] _ _]. apply elem_of_app. by left. }
      apply twp_when; intros Hrem.
      * eapply twp_mono; [apply wp_drain; [done|done|]|..]; cbv beta.
        { pose proof (proj2 (wv_queued w2 Hw2)). unfold DRAIN_FUEL. lia. }
        -- intros _ w3 (Hw3 & R4 & Hend). split; [done|]. assert (v ∈ wi_handled w3) as Hin3. { destruct R4 as [_ _ _ [l ->] _ _]. apply elem_of_app. by left. }
           destruct Hend as [|Hq]; [by left|]. right. destruct (kindIs "candidate" v); [apply elem_of_app; by left|]. split_and!; [done|by apply (wr_remote _ _ R4)|done].
        -- by intros e w3 [? _].
      * split; [done|]. right. destruct (kindIs "candidate" v) eqn:Kc; [apply elem_of_app; by left|]. rewrite (wr_remote _ _ R3) in Hrem by by apply Hset. done.
Qed.

Lemma copied_kind d v : copyCandidateSignal d = Ok v → kindIs "candidate" v = true.
Proof. unfold copyCandidateSignal. cbv zeta. rewrite check_bind_ok. intros [_ E]. apply (inj Ok) in E as <-. by vm_compute. Qed.

Lemma wp_signalBody m w :
  WInv w → wpw (signalBody sid signalAuthKey role answerOffers m) (λ _ w', WInv w' ∧ settledOk w' m) (λ _ w', WInv w') w.
Proof.
  intros Hw. assert (∀ w', wi_disposed w' = true → settledOk w' m) as Hover by by left. apply w_unlessDisposed; intros D0; [split; [done|by apply Hover]|].
  destruct (isServerMessage m) eqn:E1; cbn [negb]; [|apply twp_ret; split; [done|intros ?; congruence]].
  destruct (isLit (field m "type") (js "signal")) eqn:E2; cbn [negb orb]; [|apply twp_ret; split; [done|intros _ ?; congruence]].
  destruct (isLit (field m "sid") sid) eqn:E3; cbn [negb]; [|apply twp_ret; split; [done|intros _ _ ?; congruence]].
  apply twp_bind, twp_await; [done|]. intros w1 r Hw1 R1 ->. destruct (openSignal signalAuthKey sid (peerRole role) (field m "sealedSignal")) as [d|e] eqn:Eo; [|done].
  apply w_unlessDisposed; intros D1; [split; [done|by apply Hover]|]. apply twp_bind, twp_lift. destruct (sameKind d m); [|done]. cbn [check].
  apply twp_bind, twp_lift. destruct (verifySignalAuthTag signalAuthKey sid (peerRole role) d) eqn:Ev; [|done]. cbn [check]. apply twp_bind, twp_lift.
  destruct (if kindIs "candidate" d then copyCandidateSignal d else Ok d) as [v|e] eqn:Ec; [|done]. apply w_get, twp_bind, twp_lift.
  destruct (replayAccept (wi_replayGuard w1) v) as [g|e] eqn:Eg; [|done]. apply twp_bind, w_modify; [apply setGuard_rely|].
  assert (authentic v ∧ kindIs "candidate" v = kindIs "candidate" d) as [Hv Ek].
  { split.
    - exists (field m "sealedSignal"), d. split_and!; [done..|]. destruct (kindIs "candidate" d); [done|by apply (inj Ok) in Ec].
    - destruct (kindIs "candidate" d) eqn:Kd; [by eapply copied_kind|by apply (inj Ok) in Ec as <-]. }
  eapply twp_mono; [by apply (wp_process v _ w1 g)|..]; cbv beta; [|done]. intros _ w2 [Hw2 Hend]. split; [done|]. intros _ _ _. destruct Hend as [|Hend]; [by left|]. right. exists d. split; [done|].
  rewrite Ek in Hend. destruct (kindIs "candidate" d); [by exists v|]. by apply (inj Ok) in Ec as <-.
Qed.

Lemma wp_delivery m w : WInv w → wpw (delivery sid signalAuthKey role answerOffers m) (λ _, WInv) (λ _ _, False) w.
Proof.
  intros Hw. unfold delivery. apply twp_bind. unfold onSignal. apply twp_catch. eapply twp_mono; [by apply wp_signalBody|..]; cbv beta.
  - intros _ w1 [Hw1 Hs]. assert (wireRely w1 (logSettled m w1)) as R by by apply rely_same. apply w_modify; [done|]. destruct Hw1. split; wire_cbn; try done.
    apply Forall_app. split; [by eapply settled_stable|]. apply Forall_singleton. by eapply settledOk_stable.
  - intros e w1 Hw1. eapply twp_mono; [by apply wp_fail|..]; [|done]. intros _ w2 (Hw2 & _ & Hd). assert (wireRely w2 (logSettled m w2)) as R by by apply rely_same.
    apply w_modify; [done|]. destruct Hw2. split; wire_cbn; try done. apply Forall_app. split; [by eapply settled_stable|]. apply Forall_singleton. by left.
Qed.

(** Every event keeps the invariant. *)
Lemma wp_event t w : WInv w → wireEvent sid signalAuthKey role answerOffers w t → wpw t (λ _, WInv) (λ _, WInv) w.
Proof.
  intros Hw [m Hl|e Hl| |Hx|b].
  - eapply twp_mono; [by apply wp_delivery|done|done].
  - eapply twp_mono; [by apply wp_fail|..]; [|done]. by intros _ w' [? _].
  - apply w_modify; [apply rely_dispose|]. pose proof (rely_dispose w) as R. destruct Hw as [W1 W2 W3 W4 W5 W6 W7 W8 W9 W10 W11 W12 W13 W14].
    apply Forall_app in W1 as [W1 _], W4 as [W4 _]. rewrite candidateKeys_app in W2, W3. apply NoDup_app in W2 as (W2 & _ & _). split; wire_cbn; rewrite ?app_nil_r; try done.
    + intros k Hk. apply W3, elem_of_app. by left.
    + intros Hf. split; [done|]. by apply W10.
    + by eapply settled_stable.
  - assert (wireRely w (set_peer true (wi_closed w) (wi_sendable w) w)) as R by by apply rely_same. apply w_modify; [done|]. destruct Hw. split; wire_cbn; try done; [|by eapply settled_stable].
    intros _. apply Exists_exists in Hx as (v & Hv & Kc). intros E. assert (v ∈ descriptions (wi_handled w)) as Hd; [by apply list_elem_of_filter|]. rewrite E in Hd. by apply not_elem_of_nil in Hd.
  - assert (wireRely w (set_peer (wi_remoteDescription w) (wi_closed w) b w)) as R by by apply rely_same. apply w_modify; [done|]. destruct Hw. by split; wire_cbn.
Qed.

(** *** The whole run *)

Abbreviation settledTask w t := (waiting (λ t, twp (wireAnswers sid signalAuthKey role) WInv wireRely (guarB wireRely wireRely) t (settles WInv) (settles WInv)) w t).
Abbreviation wireSound c := (sound (wireAnswers sid signalAuthKey role) WInv wireRely wireRely c).

Lemma new_inv sendable : WInv (newWiring answerOffers sendable).
Proof. split; cbn; try done; try constructor; try (by intros k ?%not_elem_of_nil); try (by intros []); by destruct answerOffers. Qed.

Lemma event_wpB t w : WInv w → wireEvent sid signalAuthKey role answerOffers w t →
  twp (wireAnswers sid signalAuthKey role) WInv wireRely (guarB wireRely wireRely) t (settles WInv) (settles WInv) w.
Proof. intros Hw He. eapply twp_weaken; [done| |by apply wp_event]. by intros s s' Hr. Qed.

Lemma drainEarly_sound messages w waiting :
  WInv w → Forall (λ t, settledTask w t) waiting →
  let r := drainEarly sid signalAuthKey role answerOffers messages w waiting in WInv r.1 ∧ Forall (λ t, settledTask r.1 t) r.2.
Proof.
  revert w waiting. induction messages as [|m messages IH]; intros w bg Hw Hb; cbn [drainEarly]; [done|]. destruct (wi_disposed w); [done|].
  destruct (advance (delivery sid signalAuthKey role answerOffers m) w) as [t w'] eqn:E.
  assert (twp (wireAnswers sid signalAuthKey role) WInv wireRely (guarB wireRely wireRely) (delivery sid signalAuthKey role answerOffers m) (settles WInv) (settles WInv) w) as Ht.
  { eapply twp_weaken; [done| |eapply twp_mono; [by apply wp_delivery|done|done]]. by intros s s' Hr. }
  destruct (advance_settles (wireAnswers sid signalAuthKey role) WInv wireRely (guarB wireRely wireRely) _ _ _ _ _ (guarB_preorder wireRely wireRely) Ht E) as ([Hg _] & Hw' & Hs).
  apply IH; [done|]. apply Forall_app. split; [destruct (suspended t) as [u|]; cbn; [apply Forall_singleton; by apply Hs|constructor]|].
  eapply Forall_impl; [exact Hb|]. intros u Hu. apply (waiting_stable (wireAnswers sid signalAuthKey role) WInv wireRely (guarB wireRely wireRely) w); [apply _|done|exact Hg|exact Hu].
Qed.

Lemma wireSignals_sound closed sendable early : wireSound (wireSignals sid signalAuthKey role answerOffers closed sendable early).
Proof.
  unfold wireSignals. destruct closed.
  - destruct (advance (wireFail sid (js "Signaling socket closed.")) (newWiring answerOffers sendable)) as [t w'] eqn:E. cbn [snd]. split; [|done|constructor]. cbn [shared].
    assert (wpw (wireFail sid (js "Signaling socket closed.")) (λ _, WInv) (λ _, WInv) (newWiring answerOffers sendable)) as Ht.
    { eapply twp_mono; [apply wp_fail, new_inv|..]; [|done]. by intros _ w [? _]. }
    by destruct (advance_settles (wireAnswers sid signalAuthKey role) WInv wireRely wireRely _ _ _ _ _ _ Ht E) as (_ & ? & _).
  - destruct (drainEarly_sound early (newWiring answerOffers sendable) [] (new_inv sendable)) as [Hw Hb]; [constructor|]. destruct (drainEarly _ _ _ _ _ _ _) as [w waiting]. by split.
Qed.

Lemma wire_reachable closed sendable early c :
  rtc (wireStep sid signalAuthKey role answerOffers) (wireSignals sid signalAuthKey role answerOffers closed sendable early) c → WInv (shared c).
Proof.
  intros Hr. pose proof (wireSignals_sound closed sendable early) as Hs. apply (sound_invariant (wireAnswers sid signalAuthKey role) WInv wireRely wireRely).
  induction Hr as [c|c c' c'' Hstep _ IH]; [done|]. apply IH. eapply step_sound; [apply _|apply _| | |exact Hs|exact Hstep]; [done|]. intros s t Hi He. by apply event_wpB.
Qed.

End Inv.
