(* ===== verification/WireSignalsRun.v ===== *)
(** * WireSignalsRun: what [wireSignals] guarantees, and a complete exchange of
    an offer and an answer between the two sides. *)
From S2P Require Import Prelude.
From S2P Require Import Constants.
From S2P Require Import JsText.
From S2P Require Import JsValue.
From S2P Require Import Json.
From S2P Require Import Base64.
From S2P Require Import Protocol.
From S2P Require Import Authority.
From S2P Require Import Messages.
From S2P Require Import Bytes.
From S2P Require Import Crypto.
From S2P Require Import Pake.
From S2P Require Import Auth.
From S2P Require Import SecureChannel.
From S2P Require Import Async.
From S2P Require Import Signals.
From S2P Require Import WireSignals.
From S2P Require Import WireSignalsProps.
#[local] Open Scope Z_scope.

Section Payload.
Context `{Crypto, JsNumbers, UrlParser, JsCase}.

(** A signal whose tag was verified is a valid signal. *)
Lemma verified_payload key sid r d : verifySignalAuthTag key sid r d = true → isSignalPayload d = true.
Proof.
  intros (p & tag & [Ha _]%unit_bind_ok & (k & text & _ & _ & _ & ->)%signalAuthTag_ok & Et)%verifySignalAuthTag_spec.
  apply signal_validators_agree. split; [done|]. rewrite Et. apply isMac_spec. exists (tagOf k text). split; [done|].
  eexists. split; [apply hmac_size|]. split; [|done]. apply hmac_size.
Qed.

(** The copy of a candidate has what the validator looks at. *)
Lemma copied_fields d v name :
  copyCandidateSignal d = Ok v → isIceCandidateInit (field d "candidate") = true →
  name ∈ ["candidate"; "sdpMid"; "sdpMLineIndex"; "usernameFragment"]%string →
  field (field v "candidate") name = field (field d "candidate") name ∨ field (field v "candidate") name = JUndefined ∧ isNullish (field (field d "candidate") name) = true.
Proof.
  unfold copyCandidateSignal, isIceCandidateInit. rewrite check_bind_ok. cbv zeta. intros [_ Ev] Hc Hn. apply (inj Ok) in Ev as <-. rewrite !andb_true_iff in Hc. destruct Hc as [_ [[[[Hcand _] _] _] Hfrag]].
  change (field (obj _) "candidate") with (obj ((if isString (field (field d "candidate") "candidate") then [(js "candidate", field (field d "candidate") "candidate")] else []) ++
    (if negb (isUndefined (field (field d "candidate") "sdpMid")) then [(js "sdpMid", field (field d "candidate") "sdpMid")] else []) ++
    (if negb (isUndefined (field (field d "candidate") "sdpMLineIndex")) then [(js "sdpMLineIndex", field (field d "candidate") "sdpMLineIndex")] else []) ++
    (if isString (field (field d "candidate") "usernameFragment") then [(js "usernameFragment", field (field d "candidate") "usernameFragment")] else []))).
  set (c := field d "candidate") in *. clearbody c. clear d.
  assert (isString (field c "candidate") = true) as ->. { unfold isSafeNonEmptyByteBoundedString in Hcand. by destruct (field c "candidate"). }
  assert (isUndefined (field c "sdpMid") = true → isNullish (field c "sdpMid") = true) as N1 by by destruct (field c "sdpMid").
  assert (isUndefined (field c "sdpMLineIndex") = true → isNullish (field c "sdpMLineIndex") = true) as N2 by by destruct (field c "sdpMLineIndex").
  assert (isString (field c "usernameFragment") = false → isNullish (field c "usernameFragment") = true) as N3.
  { apply nullish_string in Hfrag as [?|[s ->]]; done. }
  rewrite !elem_of_cons, elem_of_nil in Hn. destruct Hn as [->|[->|[->|[->|[]]]]];
    destruct (isUndefined (field c "sdpMid")), (isUndefined (field c "sdpMLineIndex")), (isString (field c "usernameFragment"));
    (by left) || (right; split; [reflexivity|auto]).
Qed.

Lemma copied_payload d v : isSignalPayload d = true → kindIs "candidate" d = true → copyCandidateSignal d = Ok v → isSignalPayload v = true.
Proof.
  intros Hd Kd Hv. unfold isSignalPayload in Hd. unfold kindIs in Kd. apply andb_true_iff in Hd as [_ Hd]. cbv zeta in Hd.
  pose proof (kind_exclusive "candidate" "offer" d ltac:(done) Kd) as Ko. pose proof (kind_exclusive "candidate" "answer" d ltac:(done) Kd) as Ka. unfold kindIs in Ko, Ka. rewrite Ko, Ka in Hd.
  cbn [orb] in Hd. rewrite !andb_true_iff in Hd. destruct Hd as [[_ Hc] Hm].
  pose proof (copied_fields d v "candidate" Hv Hc ltac:(set_solver)) as F1. pose proof (copied_fields d v "sdpMid" Hv Hc ltac:(set_solver)) as F2.
  pose proof (copied_fields d v "sdpMLineIndex" Hv Hc ltac:(set_solver)) as F3. pose proof (copied_fields d v "usernameFragment" Hv Hc ltac:(set_solver)) as F4.
  unfold copyCandidateSignal in Hv. cbv zeta in Hv. apply check_bind_ok in Hv as [_ Hv]. apply (inj Ok) in Hv.
  set (c := field d "candidate") in *. assert (isObject (field v "candidate") = true ∧ hasOnlyKeys (field v "candidate") [js "candidate"; js "sdpMid"; js "sdpMLineIndex"; js "usernameFragment"] = true) as [O1 O2].
  { rewrite <-Hv. by destruct (isString (field c "candidate")), (isUndefined (field c "sdpMid")), (isUndefined (field c "sdpMLineIndex")), (isString (field c "usernameFragment")). }
  assert (isObject v = true ∧ hasOnlyKeys v [js "kind"; js "candidate"; js "auth"] = true ∧ field v "kind" = jstr "candidate" ∧ field v "auth" = field d "auth") as (P1 & P2 & P3 & P4) by by rewrite <-Hv.
  unfold isSignalPayload, isIceCandidateInit. rewrite P1, P2, P3, P4, Hm, O1, O2. 
  change (isLit (jstr "candidate") (js "offer") || isLit (jstr "candidate") (js "answer")) with false. change (isLit (jstr "candidate") (js "candidate")) with true. cbv zeta iota. rewrite !andb_true_l, andb_true_r.
  unfold isIceCandidateInit in Hc. cbv zeta in Hc. apply andb_true_iff in Hc as [_ Hc]. clear Hv O1 O2 P1 P2 P3 P4.
  destruct F1 as [->|[_ F1]]; [|by destruct (field c "candidate")].
  destruct F2 as [->|[-> F2]], F3 as [->|[-> F3]], F4 as [->|[-> F4]]; try exact Hc; rewrite ?F2, ?F3, ?F4 in Hc; exact Hc.
Qed.

Lemma authentic_payload sid key role v : authentic sid key role v → isSignalPayload v = true.
Proof.
  intros (sealed & d & _ & Hd%verified_payload & Hv). destruct (kindIs "candidate" d) eqn:Kd; [by apply (copied_payload d)|by rewrite Hv].
Qed.

(** C17. Only the peer's signals reach the peer connection.  In every state that [wireSignals] can reach, whatever the
    server sends and however the calls interleave, everything that was given to the peer connection was opened with the
    signal key under the peer's role and carries the peer's tag (for a candidate: is the copy of such a signal); no
    candidate is given twice, at most one description is, and it is of the kind this side expects.  At most 256
    candidates wait; what is sent is one notice of failure or answers, tagged and sealed, after the offer; a failure
    has closed the connection; and no call has ended that lost its signal: it is handled, or, a candidate, waits, and none
    waits once the call of the description has ended. *)
Theorem signals_authentic sid key role answerOffers closed sendable early c :
  rtc (wireStep sid key role answerOffers) (wireSignals sid key role answerOffers closed sendable early) c →
  let w := shared c in
  Forall (λ v, authentic sid key role v ∧ isSignalPayload v = true) (wi_handled w) ∧
  NoDup (candidateKeys (wi_handled w)) ∧
  (length (descriptions (wi_handled w)) <= 1)%nat ∧ Forall (λ v, kindIs (if answerOffers then "offer" else "answer") v = true) (descriptions (wi_handled w)) ∧
  Z.of_nat (length (wi_queuedCandidates w)) <= MAX_QUEUED_ICE_CANDIDATES ∧
  Forall (λ m, m = byeMessage sid ∨ answerOffers = true ∧ isAnswer sid key role m ∧ descriptions (wi_handled w) ≠ []) (wi_sent w) ∧
  (length (filter (λ m, isBye m = true) (wi_sent w)) <= 1)%nat ∧
  (is_Some (wi_failed w) → wi_disposed w = true ∧ wi_closed w = true ∧ wi_queuedCandidates w = []) ∧
  Forall (settledOk sid key role w) (wi_settled w).
Proof.
  intros [W1 W2 W3 W4 W5 W6 W7 [W8 W8'] W9 W10 W11 W12 W13 W14]%wire_reachable. cbv zeta. apply Forall_app in W1 as [W1 _]. rewrite candidateKeys_app in W2. apply NoDup_app in W2 as (W2 & _ & _).
  split_and!; try done.
  - eapply Forall_impl; [exact W1|]. intros v Hv. split; [done|]. by eapply authentic_payload.
  - etransitivity; [exact W7|]. repeat case_match; lia.
  - etransitivity; [exact W12|]. case_match; lia.
  - intros Hf. destruct (W10 Hf) as [Hd Hc]. split_and!; [done|done|]. by apply W9.
Qed.

End Payload.

(** ** An exchange *)

(** The description that one side sends: [const signal = { kind, sdp, auth: sdpAuthTag(...) }]
    and its message, as the sender does for the offer and [wireSignals] for the
    answer. *)
Definition signalMessage (sid : jsstr) (kind : string) (sealedSignal : jsstr) : jsval :=
  obj [(js "type", jstr "signal"); (js "sid", JStr sid); (js "kind", jstr kind); (js "sealedSignal", JStr sealedSignal)].
Definition describedBy (kind : string) (sdp auth : jsstr) : jsval := obj [(js "kind", jstr kind); (js "sdp", JStr sdp); (js "auth", JStr auth)].

Section Exchange.
Context `{Crypto, JsNumbers, UrlParser, JsCase}.
Context (sid : jsstr) (key : binary) (role : PakeRole) (answerOffers : bool).

(** A description sealed and tagged by the side of that role *)
Record sealedDescription (kind : string) (sdp auth nonce sealed : list Z) : Prop := {
  sd_sdp : wf_units sdp;
  sd_auth : sdpAuthTag key sid role (js kind) sdp = Ok auth;
  sd_nonce : bytesOf 12 nonce;
  sd_sealed : sealSignal key sid role (describedBy kind sdp auth) nonce = Ok sealed;
  sd_message : isServerMessage (signalMessage sid kind sealed) = true
}.

Lemma tag_wf kind sdp auth : sdpAuthTag key sid role kind sdp = Ok auth → wf_units auth.
Proof. intros (k & text & _ & _ & _ & ->)%signalAuthTag_ok. apply base64_wf, hmac_size. Qed.

Lemma described_data kind sdp auth : wf_units sdp → wf_units auth → jsonData (describedBy kind sdp auth).
Proof. intros Hs Ha. unfold describedBy. json_obj. Qed.

(** Such a description opens to itself, its tag is right, and it is not empty. *)
Lemma sealed_facts kind sdp auth nonce sealed :
  kind = "offer"%string ∨ kind = "answer"%string → sealedDescription kind sdp auth nonce sealed →
  openSignal key sid role (JStr sealed) = Ok (describedBy kind sdp auth) ∧ verifySignalAuthTag key sid role (describedBy kind sdp auth) = true ∧ requireSdp (Some sdp) = Ok sdp.
Proof.
  intros Hk [Hs Ha Hn He _]. split_and!.
  - eapply signal_roundtrip; [|exact Hn|exact He]. apply described_data; [done|by eapply tag_wf].
  - apply verifySignalAuthTag_spec. unfold sealSignal in He. apply unit_bind_ok in He as [Hv _]. exists (obj [(js "kind", jstr kind); (js "sdp", JStr sdp)]), auth. split_and!; [|done|done].
    unfold signalPayloadForAuth. rewrite Hv. by destruct Hk as [-> | ->].
  - unfold sealSignal in He. apply unit_bind_ok in He as [Hv _]. destruct sdp; [|done]. exfalso. by destruct Hk as [-> | ->].
Qed.

End Exchange.

Section Can_run.
Context `{Crypto, JsNumbers, UrlParser, JsCase}.
Context (sid : jsstr) (key : binary) (role : PakeRole) (answerOffers : bool).

Abbreviation wcan t Q w := (can (wireAnswers sid key role) (λ _ _, False) (wireEvent sid key role answerOffers) t Q w).
Abbreviation wothers := (others (wireAnswers sid key role) (λ _ _, False) (wireEvent sid key role answerOffers)).

Definition withRemote (w : Wiring) : Wiring := set_peer true (wi_closed w) (wi_sendable w) w.

(** The peer connection may set the description any time after it got one. *)
Lemma remote_set v w : v ∈ wi_handled w → kindIs "candidate" v = false → wothers w (withRemote w).
Proof.
  intros Hv Kv. destruct (can_launch (wireAnswers sid key role) (λ _ _, False) (wireEvent sid key role answerOffers) (modify withRemote) (λ _ s, s = withRemote w) w) as (r & s' & -> & Ho); [|done|done].
  apply event_remote, Exists_exists. by exists v.
Qed.

Lemma can_get {A} (f : Wiring → wtask A) Q w : wcan (f w) Q w → wcan (w ← get; f w) Q w.
Proof. done. Qed.

Lemma can_live {A} (returned : A) rest Q w : wi_disposed w = false → wcan rest Q w → wcan (unlessDisposed returned rest) Q w.
Proof. intros Hd Hr. apply can_get. by rewrite Hd. Qed.

Lemma can_candidate v Q w : isSignalPayload v = true → kindIs "candidate" v = true → Q (Ok (jstr "candidate")) w → wcan (handleSignal v) Q w.
Proof.
  intros Hv Kv HQ. unfold handleSignal. apply can_bind, can_lift. rewrite Hv. cbn [check]. rewrite Kv. apply can_bind.
  by apply (can_await _ _ _ _ _ _ w (Ok ())).
Qed.

Lemma can_description v Q w : isSignalPayload v = true → kindIs "candidate" v = false → v ∈ wi_handled w → Q (Ok (field v "kind")) (withRemote w) → wcan (handleSignal v) Q w.
Proof.
  intros Hv Kv Hin HQ. unfold handleSignal. apply can_bind, can_lift. rewrite Hv. cbn [check]. rewrite Kv. apply can_bind.
  apply (can_await _ _ _ _ _ _ (withRemote w) (Ok ())); [by apply (remote_set v)|done|done].
Qed.

(** The waiting candidates, given to the connection *)
Definition drained (w : Wiring) : Wiring := set_logs [] (wi_handled w ++ wi_queuedCandidates w) (wi_sent w) (wi_settled w) w.

Lemma can_drain fuel Q w :
  wi_disposed w = false → Forall (λ v, isSignalPayload v = true ∧ kindIs "candidate" v = true) (wi_queuedCandidates w) → (length (wi_queuedCandidates w) < fuel)%nat →
  Q (Ok ()) (drained w) → wcan (drainCandidates fuel) Q w.
Proof.
  revert w. induction fuel as [|fuel IH]; intros w Hd Hall Hl HQ; [lia|]. cbn [drainCandidates]. apply can_get. rewrite Hd.
  destruct (wi_queuedCandidates w) as [|v rest] eqn:Eq.
  - unfold drained in HQ. rewrite Eq, app_nil_r in HQ. destruct w. cbn in Eq. subst. exact HQ.
  - apply Forall_cons in Hall as [[Hv Kv] Hall]. apply can_bind. cbn [can modify]. unfold shiftCandidate. rewrite Eq. apply can_bind, can_candidate; [done|done|].
    apply IH; [done|done|cbn [length] in Hl; cbn; lia|]. unfold drained in *. rewrite Eq in HQ. cbn. rewrite <-app_assoc. exact HQ.
Qed.

(** An answer is made, sealed and sent. *)
Lemma can_answerOffer sdp auth nonce sealed Q w :
  wi_disposed w = false → wi_sendable w = true → sealedDescription sid key role "answer" sdp auth nonce sealed →
  Q (Ok true) (logSent (signalMessage sid "answer" sealed) w) → wcan (answerOffer sid key role) Q w.
Proof.
  intros Hd Hs Hsd HQ. destruct (sealed_facts sid key role "answer" sdp auth nonce sealed (or_intror eq_refl) Hsd) as (_ & _ & Hreq). destruct Hsd as [Hsdp Ha Hn He Hm].
  unfold answerOffer. apply can_bind, (can_await _ _ _ _ _ _ w (Ok (Some sdp))); [done|done|]. apply can_live; [done|].
  apply can_bind, (can_await _ _ _ _ _ _ w (Ok None)); [done|done|]. apply can_live; [done|]. apply can_bind, can_lift. rewrite Hreq.
  apply can_bind, can_lift. rewrite Ha. apply can_bind, (can_await _ _ _ _ _ _ w (Ok sealed)); [done|by exists nonce|]. apply can_live; [done|].
  apply can_bind. unfold wireSend. apply can_get. rewrite Hs. exact HQ.
Qed.

(** This side can take a description: it listens and has seen none. *)
Record awaiting (w : Wiring) : Prop := {
  aw_listening : wi_listening w = true;
  aw_seen : (if answerOffers then rg_seenOffer (wi_replayGuard w) else rg_seenAnswer (wi_replayGuard w)) = false;
  aw_sendable : answerOffers = true → wi_sendable w = true
}.
Definition expectedKind : string := if answerOffers then "offer" else "answer".

(** After the description was taken, with what was sent meanwhile *)
Record described (v : jsval) (out : list jsval) (w w' : Wiring) : Prop := {
  de_handled : wi_handled w' = wi_handled w ++ v :: wi_queuedCandidates w;
  de_queue : wi_queuedCandidates w' = [];
  de_remote : wi_remoteDescription w' = true;
  de_live : wi_disposed w' = false ∧ wi_failed w' = wi_failed w;
  de_sent : wi_sent w' = wi_sent w ++ out
}.

Lemma described_kind sdp auth : kindIs "candidate" (describedBy expectedKind sdp auth) = false ∧ isLit (field (describedBy expectedKind sdp auth) "kind") (js "offer") = answerOffers ∧
  sameKind (describedBy expectedKind sdp auth) (signalMessage sid expectedKind []) = true.
Proof. unfold expectedKind. by destruct answerOffers. Qed.

Lemma accepts_description w sdp auth :
  rg_answerOffers (wi_replayGuard w) = answerOffers → awaiting w → is_ok (replayAccept (wi_replayGuard w) (describedBy expectedKind sdp auth)) = true.
Proof.
  intros Hside [_ Hseen _]. unfold replayAccept, expectedKind. rewrite Hside. by destruct answerOffers; cbn; rewrite Hseen.
Qed.

(** From [handleSignal] on *)
Lemma can_process w sdp auth out Q :
  wi_disposed w = false → Forall (λ v, isSignalPayload v = true ∧ kindIs "candidate" v = true) (wi_queuedCandidates w) →
  Z.of_nat (length (wi_queuedCandidates w)) <= MAX_QUEUED_ICE_CANDIDATES → isSignalPayload (describedBy expectedKind sdp auth) = true →
  (answerOffers = true → wi_sendable w = true ∧ ∃ sdpA authA nonceA sealedA, sealedDescription sid key role "answer" sdpA authA nonceA sealedA ∧ out = [signalMessage sid "answer" sealedA]) →
  (answerOffers = false → out = []) →
  (∀ w', described (describedBy expectedKind sdp auth) out w w' → Q (Ok ()) w') → wcan (processSignal sid key role answerOffers (describedBy expectedKind sdp auth)) Q w.
Proof.
  intros Hd Hq Hl Hv Hans Hno HQ. destruct (described_kind sdp auth) as (Kv & Ko & _). unfold processSignal. apply can_get. rewrite Kv. cbn [andb]. apply can_bind. cbn [can modify].
  apply can_bind, can_description; [done|done|apply elem_of_app; right; by left|]. apply can_live; [done|]. rewrite Ko. apply can_bind.
  assert (∀ w', wi_remoteDescription w' = true → wi_disposed w' = false → wi_queuedCandidates w' = wi_queuedCandidates w → wi_handled w' = wi_handled w ++ [describedBy expectedKind sdp auth] →
    wi_failed w' = wi_failed w → wi_sent w' = wi_sent w ++ out → wcan (w ← get; twhen (wi_remoteDescription w) (drainCandidates DRAIN_FUEL)) Q w') as Hdrain.
  { intros w' Er Ed Eq Eh Ef Es. apply can_get. rewrite Er. apply can_drain; [done|by rewrite Eq|rewrite Eq; unfold DRAIN_FUEL; lia|]. apply HQ. split; cbn; [|done..]. by rewrite Eh, Eq, <-app_assoc. }
  rewrite andb_diag. destruct (bool_dec answerOffers true) as [Ea|Ea%not_true_is_false]; [replace (if answerOffers then answerOffer sid key role else mret true) with (answerOffer sid key role) by (by rewrite Ea)|
    replace (if answerOffers then answerOffer sid key role else mret true) with (mret true : wtask bool) by (by rewrite Ea)].
  - destruct (Hans Ea) as (Hsend & sdpA & authA & nonceA & sealedA & HA & ->). eapply can_answerOffer; [done|done|exact HA|]. apply Hdrain; try done.
  - rewrite (Hno Ea) in *. apply Hdrain; try done. cbn. by rewrite app_nil_r.
Qed.

(** The message of such a description, delivered *)
Lemma can_delivery w sdp auth nonce sealed out :
  WInv sid key role answerOffers w → awaiting w → sealedDescription sid key (peerRole role) expectedKind sdp auth nonce sealed →
  (answerOffers = true → ∃ sdpA authA nonceA sealedA, sealedDescription sid key role "answer" sdpA authA nonceA sealedA ∧ out = [signalMessage sid "answer" sealedA]) →
  (answerOffers = false → out = []) →
  wcan (delivery sid key role answerOffers (signalMessage sid expectedKind sealed)) (λ _, described (describedBy expectedKind sdp auth) out w) w.
Proof.
  intros Hw Haw Hsd Hans Hno. destruct (described_kind sdp auth) as (Kv & _ & Hsame).
  assert (wi_disposed w = false) as Hd. { destruct (wi_disposed w) eqn:E; [|done]. apply (wv_disposed _ _ _ _ w Hw) in E as [_ E]. by rewrite (aw_listening w Haw) in E. }
  destruct (sealed_facts sid key (peerRole role) expectedKind sdp auth nonce sealed) as (Ho & Hver & _); [unfold expectedKind; destruct answerOffers; auto|done|].
  pose proof (accepts_description w sdp auth (wv_side _ _ _ _ w Hw) Haw) as Hg. destruct (replayAccept _ _) as [g|] eqn:Eg in Hg; [|done]. clear Hg.
  unfold delivery. apply can_bind. apply can_catch. apply can_live; [done|]. rewrite (sd_message _ _ _ _ _ _ _ _ Hsd). cbn [negb].
  change (isLit (field (signalMessage sid expectedKind sealed) "type") (js "signal")) with true. change (field (signalMessage sid expectedKind sealed) "sid") with (JStr sid).
  replace (isLit (JStr sid) sid) with true by (symmetry; by apply isLit_spec). cbn [negb orb]. change (field (signalMessage sid expectedKind sealed) "sealedSignal") with (JStr sealed).
  apply can_bind, (can_await _ _ _ _ _ _ w (Ok (describedBy expectedKind sdp auth))); [done|exact (eq_sym Ho)|]. apply can_live; [done|].
  apply can_bind, can_lift. change (sameKind _ _) with (sameKind (describedBy expectedKind sdp auth) (signalMessage sid expectedKind [])). rewrite Hsame. cbn [check].
  apply can_bind, can_lift. rewrite Hver. cbn [check]. apply can_bind, can_lift. rewrite Kv. apply can_get, can_bind, can_lift. rewrite Eg. apply can_bind. cbn [can modify].
  apply (can_process _ _ _ out).
  - done.
  - pose proof (wv_authentic _ _ _ _ w Hw) as Ha. apply Forall_app in Ha as [_ Ha]. apply Forall_and. split; [|by apply (wv_queued _ _ _ _ w Hw)].
    eapply Forall_impl; [exact Ha|]. intros v. apply authentic_payload.
  - by apply (wv_queued _ _ _ _ w Hw).
  - by eapply verified_payload.
  - intros Ea. split; [by apply Haw|by apply Hans].
  - exact Hno.
  - intros w' [D1 D2 D3 D4 D5]. split; cbn; done.
Qed.

(** Which the event loop may do *)
Lemma description_taken c sdp auth nonce sealed out :
  WInv sid key role answerOffers (shared c) → awaiting (shared c) → sealedDescription sid key (peerRole role) expectedKind sdp auth nonce sealed →
  (answerOffers = true → ∃ sdpA authA nonceA sealedA, sealedDescription sid key role "answer" sdpA authA nonceA sealedA ∧ out = [signalMessage sid "answer" sealedA]) →
  (answerOffers = false → out = []) →
  ∃ c', rtc (wireStep sid key role answerOffers) c c' ∧ described (describedBy expectedKind sdp auth) out (shared c) (shared c').
Proof.
  intros Hw Haw Hsd Hans Hno. pose proof (can_delivery (shared c) sdp auth nonce sealed out Hw Haw Hsd Hans Hno) as Hcan.
  apply can_launch in Hcan as (r & w' & Hd & Hrun); [|by apply event_signal, Haw]. destruct c as [w fg bg]. exists {| shared := w'; foreground := fg; background := bg |}. split; [apply Hrun|exact Hd].
Qed.

End Can_run.

Section Theorem_exchange.
Context `{Crypto, JsNumbers, UrlParser, JsCase}.

(** C18. An offer is answered and the answer arrives.  Take any reachable state of the two sides of a session, with the
    same key and opposite roles, that still listen and have seen no description, whatever candidates arrived early.  When
    the message of an offer that the one side tagged and sealed is delivered to the other, that side can run to a state
    in which it gave the offer to its connection, then every candidate that waited, and has sent its answer; and when
    this answer is delivered, the first side can run to a state in which its connection has the answer and every
    candidate that waited. *)
Theorem offer_answer_exchange sid key role sendable1 sendable2 early1 early2 offering answering offerSdp offerAuth offerNonce offer answerSdp answerAuth answerNonce answer :
  rtc (wireStep sid key role false) (wireSignals sid key role false false sendable1 early1) offering → awaiting false (shared offering) →
  rtc (wireStep sid key (peerRole role) true) (wireSignals sid key (peerRole role) true false sendable2 early2) answering → awaiting true (shared answering) →
  sealedDescription sid key role "offer" offerSdp offerAuth offerNonce offer →
  sealedDescription sid key (peerRole role) "answer" answerSdp answerAuth answerNonce answer →
  (∃ c, rtc (wireStep sid key (peerRole role) true) answering c ∧
    described (describedBy "offer" offerSdp offerAuth) [signalMessage sid "answer" answer] (shared answering) (shared c)) ∧
  (∃ c, rtc (wireStep sid key role false) offering c ∧ described (describedBy "answer" answerSdp answerAuth) [] (shared offering) (shared c)).
Proof.
  intros W1%wire_reachable A1 W2%wire_reachable A2 S1 S2. split.
  - apply (description_taken sid key (peerRole role) true answering offerSdp offerAuth offerNonce offer _ W2 A2); [by destruct role|intros _; by exists answerSdp, answerAuth, answerNonce, answer|done].
  - by apply (description_taken sid key role false offering answerSdp answerAuth answerNonce answer _ W1 A1).
Qed.

End Theorem_exchange.

(** ** Witnesses *)

#[local] Existing Instances plainCrypto decimalNumbers noUrls asciiCase.

Definition sampleSdp : jsstr := js "v=0".
Definition sampleTag : jsstr := bytesToBase64 (zeros 32).
Definition sampleSealed (role : PakeRole) (kind : string) : jsstr := sealedBy (sealSignal testKeyBytes testSid role (describedBy kind sampleSdp sampleTag) (zeros 12)).

Lemma sample_described role kind :
  (role = sender ∧ kind = "offer"%string) ∨ (role = receiver ∧ kind = "answer"%string) →
  sealedDescription testSid testKeyBytes role kind sampleSdp sampleTag (zeros 12) (sampleSealed role kind).
Proof.
  intros [[-> ->]|[-> ->]]; (split; [apply wf_js|vm_compute; reflexivity|by apply (zeros_size 12)|apply sealedBy_ok; vm_compute; reflexivity|vm_compute; reflexivity]).
Qed.

Definition sampleStart (role : PakeRole) (answerOffers : bool) := wireSignals testSid testKeyBytes role answerOffers false true [].

Lemma offer_answer_exchange_witness :
  awaiting false (shared (sampleStart sender false)) ∧ awaiting true (shared (sampleStart receiver true)) ∧
  (∃ c, rtc (wireStep testSid testKeyBytes receiver true) (sampleStart receiver true) c ∧
    described (describedBy "offer" sampleSdp sampleTag) [signalMessage testSid "answer" (sampleSealed receiver "answer")] (shared (sampleStart receiver true)) (shared c)) ∧
  (∃ c, rtc (wireStep testSid testKeyBytes sender false) (sampleStart sender false) c ∧
    described (describedBy "answer" sampleSdp sampleTag) [] (shared (sampleStart sender false)) (shared c)).
Proof.
  assert (A1 : awaiting false (shared (sampleStart sender false))) by by split.
  assert (A2 : awaiting true (shared (sampleStart receiver true))) by by split.
  split; [exact A1|]. split; [exact A2|].
  exact (offer_answer_exchange testSid testKeyBytes sender true true [] [] (sampleStart sender false) (sampleStart receiver true)
    sampleSdp sampleTag (zeros 12) (sampleSealed sender "offer") sampleSdp sampleTag (zeros 12) (sampleSealed receiver "answer")
    (rtc_refl _ _) A1 (rtc_refl _ _) A2 (sample_described sender "offer" ltac:(by left)) (sample_described receiver "answer" ltac:(by right))).
Defined.

(** A message that is waiting to be opened when the run begins *)
Definition sampleEarly := [signalMessage testSid "offer" (sampleSealed sender "offer")].

Lemma signals_authentic_witness :
  length (background (wireSignals testSid testKeyBytes receiver true false true sampleEarly)) = 1%nat ∧
  (length (descriptions (wi_handled (shared (wireSignals testSid testKeyBytes receiver true false true sampleEarly)))) <= 1)%nat.
Proof.
  split; [vm_compute; reflexivity|].
  destruct (signals_authentic testSid testKeyBytes receiver true false true sampleEarly _ (rtc_refl _ _)) as (_ & _ & Hl & _). exact Hl.
Defined.
