(* ===== verification/Session.v ===== *)
(** * Session: the sessions of the command line ([recv] and [send] of
    [src/cli/index.ts], [withInterrupt] of [src/cli/interrupt.ts]).

    The body of [recv] or [send] is a task from the registration to the end of
    the transfer; a process signal, an ICE configuration and the [finally] run
    beside it.  What it waits for are the operations of other components: a
    message of the server ([SignalWait]), the key exchange ([Establish]), the
    user, the peer connection and the transfer.  Printing is left out; the
    options are parameters.  An error message of the server is an answer like any
    other here and the session goes on as the code of [index.ts] says; in a real
    process the emission of its type throws ([SignalingClient]) and the process
    ends, so the sessions here do more than the real ones. *)
From S2P Require Import Prelude.
From S2P Require Import Constants.
From S2P Require Import JsText.
From S2P Require Import JsValue.
From S2P Require Import Json.
From S2P Require Import Protocol.
From S2P Require Import Authority.
From S2P Require Import Wordlist.
From S2P Require Import Messages.
From S2P Require Import Wire.
From S2P Require Import Limits.
From S2P Require Import PublicManifest.
From S2P Require Import Bytes.
From S2P Require Import Crypto.
From S2P Require Import Pake.
From S2P Require Import Auth.
From S2P Require Import SecureChannel.
From S2P Require Import Establish.
From S2P Require Import Async.
From S2P Require Import Ice.
From S2P Require Import SignalWait.
From S2P Require Import WireSignals.
From S2P Require Import ServerConfig.
#[local] Open Scope Z_scope.

(** ** State *)

(** What a session does that others can see, and what was decided *)
Inductive CliEvent :=
| Sent (message : jsval)
| Attempt (sid : jsstr)
| Established (sid : jsstr) (keys : SessionKeys)
| Decided (sealedManifest : jsstr) (manifest : jsval) (accepted : bool)
| PeerCreated (sid : jsstr) (signalAuthKey : binary)
| Transfer (keys : SessionKeys) (manifest : jsval)
(** the [finally] has wiped the keys and closed the connections *)
| Finished.

Record Cli := {
  cs_started : bool;
  (** the variables [sid], [keys], [completed], [iceServers], and
      [signaling.currentIceServers()] *)
  cs_sid : option jsstr;
  cs_keys : option SessionKeys;
  cs_completed : bool;
  cs_iceServers : list RTCIceServer;
  cs_cached : option (list RTCIceServer);
  (** the signal handler has run; [interrupt.dispose()] was called *)
  cs_interrupted : bool;
  cs_disposed : bool;
  (** [signaling.send] goes through; the peer connection is open; the handlers
      of [wireSignals] are registered *)
  cs_open : bool;
  cs_peerOpen : bool;
  cs_wired : bool;
  (** the body has ended; the [finally] has run, with whether the body had ended
      before *)
  cs_ended : option (result ());
  cs_finished : option bool;
  cs_log : list CliEvent
}.

Definition set_vars sid keys completed ice cached c := {| cs_started := cs_started c; cs_sid := sid; cs_keys := keys; cs_completed := completed; cs_iceServers := ice; cs_cached := cached; cs_interrupted := cs_interrupted c; cs_disposed := cs_disposed c;
  cs_open := cs_open c; cs_peerOpen := cs_peerOpen c; cs_wired := cs_wired c; cs_ended := cs_ended c; cs_finished := cs_finished c; cs_log := cs_log c |}.
Definition set_flags started interrupted disposed ended finished c := {| cs_started := started; cs_sid := cs_sid c; cs_keys := cs_keys c; cs_completed := cs_completed c; cs_iceServers := cs_iceServers c; cs_cached := cs_cached c; cs_interrupted := interrupted; cs_disposed := disposed;
  cs_open := cs_open c; cs_peerOpen := cs_peerOpen c; cs_wired := cs_wired c; cs_ended := ended; cs_finished := finished; cs_log := cs_log c |}.
Definition set_links isOpen peerOpen wired c := {| cs_started := cs_started c; cs_sid := cs_sid c; cs_keys := cs_keys c; cs_completed := cs_completed c; cs_iceServers := cs_iceServers c; cs_cached := cs_cached c; cs_interrupted := cs_interrupted c; cs_disposed := cs_disposed c;
  cs_open := isOpen; cs_peerOpen := peerOpen; cs_wired := wired; cs_ended := cs_ended c; cs_finished := cs_finished c; cs_log := cs_log c |}.
Definition set_log log c := {| cs_started := cs_started c; cs_sid := cs_sid c; cs_keys := cs_keys c; cs_completed := cs_completed c; cs_iceServers := cs_iceServers c; cs_cached := cs_cached c; cs_interrupted := cs_interrupted c; cs_disposed := cs_disposed c;
  cs_open := cs_open c; cs_peerOpen := cs_peerOpen c; cs_wired := cs_wired c; cs_ended := cs_ended c; cs_finished := cs_finished c; cs_log := log |}.

Definition note (e : CliEvent) (c : Cli) : Cli := set_log (cs_log c ++ [e]) c.
Definition setSession (sid : option jsstr) (keys : option SessionKeys) (c : Cli) : Cli := set_vars sid keys (cs_completed c) (cs_iceServers c) (cs_cached c) c.
Definition setIce (servers : list RTCIceServer) (c : Cli) : Cli := set_vars (cs_sid c) (cs_keys c) (cs_completed c) servers (cs_cached c) c.
Definition setCompleted (c : Cli) : Cli := set_vars (cs_sid c) (cs_keys c) true (cs_iceServers c) (cs_cached c) c.
Definition setCached (servers : option (list RTCIceServer)) (c : Cli) : Cli := set_vars (cs_sid c) (cs_keys c) (cs_completed c) (default (cs_iceServers c) servers) servers c.
Definition setStarted (c : Cli) : Cli := set_flags true (cs_interrupted c) (cs_disposed c) (cs_ended c) (cs_finished c) c.
Definition setEnded (r : result ()) (c : Cli) : Cli := set_flags (cs_started c) (cs_interrupted c) (cs_disposed c) (Some r) (cs_finished c) c.
Definition setWired (wired : bool) (c : Cli) : Cli := set_links (cs_open c) (cs_peerOpen c) wired c.

(** ** What a session waits for *)

(** The outcome of [waitForMessage] that the callers tell apart *)
Inductive Waited := Got (message : jsval) | Refused (code : ErrorCode) | WaitTimedOut.

Inductive cli_op : Type → Type :=
| WaitMessage (type : string) (sid : option jsstr) : cli_op Waited
| WaitPairAccept (sid : jsstr) (signalAuthKey : binary) (sealedManifest : jsstr) : cli_op ()
| EstablishKeys (sid : jsstr) (role : PakeRole) (code : jsstr) : cli_op SessionKeys
| SealManifest (keys : SessionKeys) (manifest : jsval) : cli_op jsstr
| OpenManifest (keys : SessionKeys) (sealedManifest : jsstr) : cli_op jsval
| GenerateCode : cli_op jsstr
(** the answer of the user, or of the option that stands for it *)
| AskUser (manifest : jsval) : cli_op bool
| CreateOffer : cli_op (option jsstr)
| SetLocalOffer (sdp : option jsstr) : cli_op (option jsstr)
| SealOffer (signalAuthKey : binary) (sid : jsstr) (signal : jsval) : cli_op jsstr
(** the channels are there and open and the peer is connected, or [wireSignals]
    has failed *)
| Connected : cli_op ()
(** [closeSendFiles] *)
| CloseFiles : cli_op ()
| ReceiveFiles (keys : SessionKeys) (manifest : jsval) : cli_op ()
| SendFiles (keys : SessionKeys) : cli_op ().

Abbreviation cli := (task cli_op Cli).

(** ** Errors of a key exchange that allow another attempt *)

Fixpoint includesText (needle s : jsstr) : bool := startsWith needle s || match s with [] => false | _ :: r => includesText needle r end.
(** [isPrePairRetryable]; a case-insensitive pattern *)
Definition isPrePairRetryable (message : jsstr) : bool :=
  let text := map asciiLowerUnit message in
  existsb (λ s, includesText (js s) text) ["pake confirmation failed"; "invalid pake"; "peer disconnected"; "timed out waiting for pake"; "timed out waiting for confirm"]%string.

(** [assertRegisteredRendezvous] *)
Definition assertRegisteredRendezvous (message : jsval) (expected : jsstr) : result () :=
  check (isLit (field message "code") expected) "Signaling server returned a mismatched rendezvous code.".

Definition RECEIVE_CODE_GENERATION_ATTEMPTS : nat := 10.

Section Session.
Context `{Crypto, JsNumbers, UrlParser, JsCase, WordList}.
(** [useServerIce], [options.relay]; whether the native library makes a peer
    connection for these servers; [initialIce] is what was cached or the default
    list *)
Variables (useServerIce relay : bool) (nativePeer : list RTCIceServer → result ()) (initialIce : list RTCIceServer).

(** [parseRequiredCode] *)
Definition parseRequiredCode (code : jsstr) : result ParsedCode :=
  match parseCode code with Some parsed => Ok parsed | None => throw "Code must look like 123456789012-two-words." end.

(** ** Helpers *)

(** [signaling.send], [safeSend] and [safeBye] *)
Definition sendMessage (message : jsval) : cli () :=
  c ← get; if cs_open c then modify (note (Sent message)) else Throw (js "signaling socket is closed").
Definition safeSend (message : jsval) : cli () := tcatch (sendMessage message) (λ _, mret ()).
Definition bye (sid : option jsstr) (reason : string) : jsval :=
  obj ([(js "type", jstr "bye")] ++ match sid with Some sid => [(js "sid", JStr sid)] | None => [] end ++ [(js "reason", jstr reason)]).

(** [waitForMessage], whose failures are thrown *)
Definition waitMessage (type : string) (sid : option jsstr) : cli jsval :=
  waited ← await (WaitMessage type sid);
  match waited with
  | Got message => mret message
  | Refused code => Throw (signalingErrorDisplayMessage code)
  | WaitTimedOut => Throw (js "Timed out waiting for " ++ js type)
  end.

(** [message.sid] and [request.sealedManifest] *)
Definition textField (message : jsval) (name : string) : cli jsstr := lift (match field message name with JStr s => Ok s | _ => throw "Signaling message is invalid." end).

(** [keys] after a check that it is set; the code reads its fields *)
Definition theKeys : cli SessionKeys := c ← get; lift (match cs_keys c with Some keys => Ok keys | None => throw "Session keys are not available." end).

(** [getIceServersAfterAccept] *)
Definition getIceServersAfterAccept : cli (list RTCIceServer) :=
  c ← get;
  if negb useServerIce then mret (cs_iceServers c)
  else match cs_cached c with
  | Some servers => mret servers
  | None =>
    waited ← await (WaitMessage "ice-config" None);
    match waited with
    | Got message => lift (cloneIceServers (field message "iceServers"))
    | Refused code => Throw (signalingErrorDisplayMessage code)
    | WaitTimedOut => mret (cs_iceServers c)
    end
  end.

(** [createPeer] and [wireSignals], whose failure on a closed client closes the
    connection *)
Definition createPeer (sid : jsstr) (iceServers : list RTCIceServer) : cli () :=
  keys ← theKeys;
  relayed ← lift (hasRelayIceServer (rtcServersValue iceServers));
  lift (check (negb (relay && negb relayed)) "Relay-only ICE requires a TURN server.");;
  lift (nativePeer iceServers);;
  modify (note (PeerCreated sid (signalAuthKey keys)));;
  modify (λ c, if cs_open c then set_links true true true c else set_links false false (cs_wired c) c).

(** ** recv *)

(** [registerReceiver]; [n] is the number of further attempts *)
Definition registerMessage (code : jsstr) : jsval :=
  obj [(js "type", jstr "register"); (js "role", jstr "receiver"); (js "code", JStr code); (js "protocolVersion", jint PROTOCOL_VERSION)].
Fixpoint registerReceiver (supplied : option ParsedCode) (n : nat) : cli ParsedCode :=
  parsed ← match supplied with
           | Some parsed => mret parsed
           | None => code ← await GenerateCode; lift (parseRequiredCode (normalizeCode code))
           end;
  sendMessage (registerMessage (rendezvous parsed));;
  waited ← await (WaitMessage "registered" None);
  match waited with
  | Got registered => lift (assertRegisteredRendezvous registered (rendezvous parsed));; mret parsed
  | Refused code =>
    if bool_decide (supplied = None ∧ code = code_taken) then
      match n with
      | O => Throw (js "Could not allocate a receive code after repeated collisions.")
      | S n => registerReceiver supplied n
      end
    else Throw (signalingErrorDisplayMessage code)
  | WaitTimedOut => Throw (js "Timed out waiting for registered")
  end.

(** Waiting for the code to be registered again *)
Definition awaitRestored (expected : jsstr) : cli () :=
  registered ← waitMessage "registered" None;
  lift (assertRegisteredRendezvous registered expected).

(** [waitForConfirmedReceiverSession]: one round of its loop, and the loop; [n]
    is the number of further attempts *)
Definition attemptSession (code : jsstr) : cli (jsstr * result SessionKeys) :=
  joined ← waitMessage "peer-joined" None;
  sid ← textField joined "sid";
  modify (note (Attempt sid));;
  established ← ttry (await (EstablishKeys sid receiver code));
  match established with Ok keys => modify (note (Established sid keys)) | Err _ => mret () end;;
  mret (sid, established).
Fixpoint waitForConfirmedReceiverSession (code expectedRendezvous : jsstr) (n : nat) : cli (jsstr * SessionKeys) :=
  attempted ← attemptSession code;
  match attempted with
  | (sid, Ok keys) => mret (sid, keys)
  | (sid, Err error) =>
    match isPrePairRetryable error, n with
    | true, S n =>
      safeSend (bye (Some sid) "prepair_retry");;
      awaitRestored expectedRendezvous;;
      waitForConfirmedReceiverSession code expectedRendezvous n
    | _, _ => Throw error
    end
  end.

(** The pair request: what was sealed and the manifest in it *)
Definition readRequest (sid : jsstr) (keys : SessionKeys) : cli (jsstr * jsval) :=
  request ← waitMessage "pair-request" (Some sid);
  sealedManifest ← textField request "sealedManifest";
  manifest ← await (OpenManifest keys sealedManifest);
  lift (assertTransferManifestWithinLimits manifest);;
  mret (sealedManifest, manifest).

Definition pairRejectMessageOf (sid : jsstr) (keys : SessionKeys) (sealedManifest : jsstr) : result jsval :=
  auth ← pairDecisionAuthTag (signalAuthKey keys) sid receiver reject sealedManifest (Some (js "user_declined"));
  Ok (obj [(js "type", jstr "pair-reject"); (js "sid", JStr sid); (js "reason", jstr "user_declined"); (js "auth", JStr auth)]).

(** The decision, the connection and the transfer *)
Definition acceptTransfer (sid : jsstr) (sealedManifest : jsstr) (manifest : jsval) : cli () :=
  accepted ← await (AskUser manifest);
  modify (note (Decided sealedManifest manifest accepted));;
  keys ← theKeys;
  if negb (accepted : bool) then
    message ← lift (pairRejectMessageOf sid keys sealedManifest);
    safeSend message;;
    Throw (js "Transfer declined.")
  else
    message ← lift (pairAcceptMessage sid (signalAuthKey keys) sealedManifest);
    sendMessage message;;
    iceServers ← getIceServersAfterAccept;
    modify (setIce iceServers);;
    createPeer sid iceServers;;
    await Connected;;
    modify (setWired false);;
    keys ← theKeys;
    modify (note (Transfer keys manifest));;
    await (ReceiveFiles keys manifest);;
    safeSend (bye (Some sid) "complete");;
    modify setCompleted.

(** [runtime.security.wipeSessionKeys(keys); keys = undefined; sid = undefined] *)
Definition dropSession (c : Cli) : Cli := setSession None None c.

(** The loop over pair requests; [n] is the number of further ones *)
Fixpoint recvLoop (parsed : ParsedCode) (n : nat) : cli () :=
  joined ← waitForConfirmedReceiverSession (handle parsed) (rendezvous parsed) (Z.to_nat RECEIVER_MAX_PREPAIR_ATTEMPTS - 1);
  let '(sid, keys) := joined : jsstr * SessionKeys in
  modify (setSession (Some sid) (Some keys));;
  request ← ttry (readRequest sid keys);
  match request with
  | Ok (sealedManifest, manifest) => acceptTransfer sid sealedManifest manifest
  | Err error =>
    match n with
    | O => Throw error
    | S n =>
      safeSend (bye (Some sid) "prepair_retry");;
      modify dropSession;;
      awaitRestored (rendezvous parsed);;
      recvLoop parsed n
    end
  end.

(** The body of [recv] *)
Definition recvBody (supplied : option ParsedCode) : cli () :=
  parsed ← registerReceiver supplied (RECEIVE_CODE_GENERATION_ATTEMPTS - 1);
  recvLoop parsed (Z.to_nat RECEIVER_MAX_PREPAIR_ATTEMPTS - 1).

(** ** send *)

Definition connectMessage (code : jsstr) : jsval :=
  obj [(js "type", jstr "connect"); (js "role", jstr "sender"); (js "code", JStr code); (js "protocolVersion", jint PROTOCOL_VERSION)].
Definition pairRequestMessage (sid : jsstr) (publicManifest : jsval) (sealedManifest : jsstr) : jsval :=
  obj [(js "type", jstr "pair-request"); (js "sid", JStr sid); (js "manifest", publicManifest); (js "sealedManifest", JStr sealedManifest)].
Definition offerSignal (sdp auth : jsstr) : jsval := obj [(js "kind", jstr "offer"); (js "sdp", JStr sdp); (js "auth", JStr auth)].
Definition offerMessage (sid sealedSignal : jsstr) : jsval :=
  obj [(js "type", jstr "signal"); (js "sid", JStr sid); (js "kind", jstr "offer"); (js "sealedSignal", JStr sealedSignal)].

(** The offer *)
Definition sendOffer (sid : jsstr) : cli () :=
  offer ← await CreateOffer;
  local ← await (SetLocalOffer offer);
  offerSdp ← lift (requireSdp (match local with Some sdp => Some sdp | None => offer end));
  keys ← theKeys;
  auth ← lift (sdpAuthTag (signalAuthKey keys) sid sender (js "offer") offerSdp);
  sealedSignal ← await (SealOffer (signalAuthKey keys) sid (offerSignal offerSdp auth));
  sendMessage (offerMessage sid sealedSignal).

(** The body of [send], from the prepared manifest of the files *)
Definition sendBody (parsed : ParsedCode) (manifest : jsval) : cli () :=
  sendMessage (connectMessage (rendezvous parsed));;
  joined ← waitMessage "peer-joined" None;
  sid ← textField joined "sid";
  modify (λ c, setSession (Some sid) (cs_keys c) c);;
  modify (note (Attempt sid));;
  keys ← await (EstablishKeys sid sender (handle parsed));
  modify (note (Established sid keys));;
  modify (setSession (Some sid) (Some keys));;
  publicManifest ← lift (redactManifestForSignaling manifest);
  sealedManifest ← await (SealManifest keys manifest);
  sendMessage (pairRequestMessage sid (manifestValue publicManifest) sealedManifest);;
  keys ← theKeys;
  await (WaitPairAccept sid (signalAuthKey keys) sealedManifest);;
  modify (note (Decided sealedManifest manifest true));;
  iceServers ← getIceServersAfterAccept;
  modify (setIce iceServers);;
  createPeer sid iceServers;;
  sendOffer sid;;
  await Connected;;
  modify (setWired false);;
  keys ← theKeys;
  modify (note (Transfer keys manifest));;
  await (SendFiles keys);;
  safeSend (bye (Some sid) "complete");;
  modify setCompleted.

(** ** What runs beside the body *)

(** The body as [withInterrupt] watches it *)
Definition session (body : cli ()) : cli () :=
  modify setStarted;;
  r ← ttry body;
  modify (setEnded r).

(** The handler of a process signal *)
Definition onInterrupt : cli () :=
  c ← get;
  twhen (negb (cs_interrupted c) && negb (cs_disposed c)) (
    modify (λ c, set_flags (cs_started c) true (cs_disposed c) (cs_ended c) (cs_finished c) c);;
    safeSend (bye (cs_sid c) "cancelled");;
    modify (set_links false false (cs_wired c))).

(** The end of the [finally]: wiping the keys, closing both connections *)
Definition wipeAndClose (c : Cli) : Cli :=
  note Finished (setSession (cs_sid c) (wipeSessionKeys <$> cs_keys c)
    (set_links false false (cs_wired c) (set_flags (cs_started c) (cs_interrupted c) (cs_disposed c) (cs_ended c) (Some (bool_decide (is_Some (cs_ended c)))) c))).

(** The [finally]; that of [send] closes the files in between. *)
Definition finish (sendsFiles : bool) : cli () :=
  modify (λ c, set_flags (cs_started c) (cs_interrupted c) true (cs_ended c) (cs_finished c) c);;
  c ← get;
  twhen (negb (cs_completed c)) (safeSend (bye (cs_sid c) (if cs_interrupted c then "cancelled" else "error")));;
  modify (setWired false);;
  twhen sendsFiles (await CloseFiles);;
  modify wipeAndClose.

(** What can happen beside the body: a process signal; an ICE configuration;
    the [finally], when the body has ended or was interrupted; the connection
    to the server or to the peer closes. *)
Inductive cliEvent (sendsFiles : bool) (c : Cli) : cli () → Prop :=
| event_interrupt : cs_started c = true → cliEvent sendsFiles c onInterrupt
| event_ice servers : Forall rtcServerOk servers → cliEvent sendsFiles c (modify (λ c, if useServerIce then setCached (Some servers) c else c))
| event_finish : cs_disposed c = false → is_Some (cs_ended c) ∨ cs_interrupted c = true → cliEvent sendsFiles c (finish sendsFiles)
| event_closing : cliEvent sendsFiles c (modify (λ c, set_links false (cs_peerOpen c) (cs_wired c) c))
| event_closed : cliEvent sendsFiles c (modify (λ c, set_links false (cs_peerOpen c) (cs_wired c) (setCached None c)))
| event_peer : cliEvent sendsFiles c (modify (λ c, set_links (cs_open c) false (cs_wired c) c)).

(** What the operations answer.  [waitForPairAccept] reads the key when a
    decision comes: the [finally] may have wiped it. *)
Definition cliAnswers (B : Type) (o : cli_op B) (c : Cli) (r : result B) : Prop :=
  match o in cli_op B return result B → Prop with
  | WaitMessage type sid => λ r, ∀ message, r = Ok (Got message) → ∃ closed timeoutMs events,
      waitForMessage closed false (jstr type) timeoutMs (match sid with Some sid => JStr sid | None => JUndefined end) events = Some (Ok message)
  | WaitPairAccept sid key sealedManifest => λ r, (∃ keys, cs_keys c = Some keys ∧ signalAuthKey keys = key) →
      ∃ closed events, waitForPairAccept closed sid key sealedManifest events = Some r
  | EstablishKeys sid role code => λ r, ∀ keys, r = Ok keys → ∃ sendOk n peer confirm out, establishKeys sendOk sid role code n peer confirm = Ok (Done keys out)
  | SealManifest keys manifest => λ r, ∃ nonce, bytesOf 12 nonce ∧ r = sealManifest keys manifest nonce
  | OpenManifest keys sealedManifest => λ r, r = openManifest keys (JStr sealedManifest)
  | SealOffer signalAuthKey sid signal => λ r, ∃ nonce, bytesOf 12 nonce ∧ r = sealSignal signalAuthKey sid sender signal nonce
  | _ => λ _, True
  end r.

Definition newCli : Cli :=
  {| cs_started := false; cs_sid := None; cs_keys := None; cs_completed := false; cs_iceServers := initialIce; cs_cached := None; cs_interrupted := false; cs_disposed := false;
     cs_open := true; cs_peerOpen := false; cs_wired := false; cs_ended := None; cs_finished := None; cs_log := [] |}.

Definition cliStarts (body : cli ()) (c : Cli) (t : cli ()) : Prop := cs_started c = false ∧ t = session body.
Definition cliReachable (sendsFiles : bool) (body : cli ()) : config (op := cli_op) (S := Cli) → Prop := reachable cliAnswers (cliStarts body) (cliEvent sendsFiles) newCli.
Definition receiving (supplied : option ParsedCode) := cliReachable false (recvBody supplied).
Definition sending (parsed : ParsedCode) (manifest : jsval) := cliReachable true (sendBody parsed manifest).

End Session.
