(* ===== verification/SessionInv.v ===== *)
(** * SessionInv: the invariant of the sessions of the command line.

    The log of a session is lawful: every entry is justified by earlier ones, by
    a law of the receiver or of the sender.  The rest of the invariant is about
    the end of a session.  Here are the weakest preconditions of the steps that
    both sessions take, and that process signals, closing connections and the
    [finally] keep the invariant. *)
From S2P Require Import Prelude.
From S2P Require Import Constants.
From S2P Require Import JsText.
From S2P Require Import JsValue.
From S2P Require Import Json.
From S2P Require Import Protocol.
From S2P Require Import Authority.
From S2P Require Import Wordlist.
From S2P Require Import Messages.
From S2P Require Import Wire.
From S2P Require Import Limits.
From S2P Require Import PublicManifest.
From S2P Require Import Bytes.
From S2P Require Import Crypto.
From S2P Require Import Pake.
From S2P Require Import Auth.
From S2P Require Import SecureChannel.
From S2P Require Import Establish.
From S2P Require Import Async.
From S2P Require Import Ice.
From S2P Require Import SignalWait.
From S2P Require Import WireSignals.
From S2P Require Import ServerConfig.
From S2P Require Import Session.
#[local] Open Scope Z_scope.

(** ** Logs whose entries are justified by earlier ones *)

Section Lawful.
Context (law : list CliEvent → CliEvent → Prop).

Inductive lawful : list CliEvent → Prop :=
| lawful_nil : lawful []
| lawful_snoc l e : lawful l → law l e → lawful (l ++ [e]).

Lemma lawful_split l1 e l2 : lawful (l1 ++ e :: l2) → law l1 e.
Proof.
  intros Hl. remember (l1 ++ e :: l2) as l eqn:E. revert l2 E. induction Hl as [|l e' Hl IH Hlaw]; intros l2 E; [by destruct l1|].
  destruct l2 as [|x l2 _] using rev_ind.
  - apply app_inj_tail in E as [-> ->]. done.
  - rewrite app_comm_cons, app_assoc in E. apply app_inj_tail in E as [E _]. by apply (IH l2).
Qed.

End Lawful.

Lemma logged_note e c : e ∈ cs_log (note e c).
Proof. apply elem_of_app. right. by left. Qed.

Definition isSent (type : string) (e : CliEvent) : bool := match e with Sent m => isType m type | _ => false end.
Definition isAttempt (e : CliEvent) : bool := match e with Attempt _ => true | _ => false end.
Definition isTransfer (e : CliEvent) : bool := match e with Transfer _ _ => true | _ => false end.
Definition count (f : CliEvent → bool) (l : list CliEvent) : nat := length (filter (λ e, f e = true) l).

Lemma count_app f l l' : count f (l ++ l') = (count f l + count f l')%nat.
Proof. unfold count. by rewrite filter_app, length_app. Qed.

Lemma count_one f e : count f [e] = if f e then 1%nat else 0%nat.
Proof. unfold count. destruct (f e) eqn:E; [by rewrite filter_cons_True|by rewrite filter_cons_False by congruence]. Qed.

(** What runs beside the body adds nothing but notices and the mark of the end. *)
Definition isFinished (e : CliEvent) : bool := match e with Finished => true | _ => false end.
Definition isNotice (e : CliEvent) : bool := isSent "bye" e || isFinished e.

Lemma notice_kinds e : isNotice e = true → isSent "pair-accept" e = false ∧ isSent "pair-request" e = false ∧ isSent "signal" e = false ∧ isAttempt e = false ∧ isTransfer e = false.
Proof.
  destruct e as [m| | | | | |]; try done. unfold isNotice, isSent, isType. cbn [isFinished]. rewrite orb_false_r. intros Hb%isLit_spec. rewrite Hb. by repeat split.
Qed.

Lemma count_notices f l : (∀ e, isNotice e = true → f e = false) → Forall (λ e, isNotice e = true) l → count f l = 0%nat.
Proof. intros Hf Hl. unfold count. induction Hl as [|e l He Hl IH]; [done|]. rewrite filter_cons_False; [done|]. rewrite (Hf e He). done. Qed.

Section Common.
Context `{Crypto, JsNumbers, UrlParser, JsCase, WordList}.
Context (law : list CliEvent → CliEvent → Prop) (Hnotice : ∀ l e, isNotice e = true → law l e).

(** What ran beside the body may have changed *)
Record beside (c c' : Cli) : Prop := {
  be_log : ∃ l, cs_log c' = cs_log c ++ l ∧ Forall (λ e, isNotice e = true) l;
  be_open : cs_open c = false → cs_open c' = false;
  be_keys : cs_keys c' = cs_keys c ∨ cs_open c' = false ∧ cs_keys c' = wipeSessionKeys <$> cs_keys c;
  be_same : cs_started c' = cs_started c ∧ cs_sid c' = cs_sid c ∧ cs_completed c' = cs_completed c ∧ cs_ended c' = cs_ended c
}.

Lemma wipe_wiped keys : wipeSessionKeys (wipeSessionKeys keys) = wipeSessionKeys keys.
Proof. unfold wipeSessionKeys at 1. by rewrite wipeSessionKeys_destroyed. Qed.

#[export] Instance beside_preorder : PreOrder beside.
Proof.
  split; [intros c; split; [exists []; by rewrite app_nil_r|done|by left|done]|]. intros c1 c2 c3 [(l & L1 & L2) O K (S1 & S2 & S3 & S4)] [(l' & L1' & L2') O' K' (S1' & S2' & S3' & S4')]. split.
  - exists (l ++ l'). rewrite L1', L1, app_assoc. split; [done|]. by apply Forall_app.
  - auto.
  - destruct K' as [->|[Ho ->]]; [destruct K as [->|[Ho ->]]; [by left|right; split; [auto|done]]|]. destruct K as [->|[_ ->]]; right; (split; [done|]); [done|].
    destruct (cs_keys c1) as [k|]; [|done]. cbn. by rewrite wipe_wiped.
  - split_and!; congruence.
Qed.

(** The session keys, unless they were wiped when everything was closed *)
Definition holds (keys : SessionKeys) (c : Cli) : Prop := cs_keys c = Some keys ∨ cs_open c = false ∧ cs_keys c = Some (wipeSessionKeys keys).

Lemma holds_beside keys c c' : beside c c' → holds keys c → holds keys c'.
Proof.
  unfold holds. intros [_ O K _] [Hk|[Ho Hk]]; destruct K as [->|[Ho' ->]]; rewrite Hk; [by left|by right|right; auto|]. right. split; [done|]. cbn. by rewrite wipe_wiped.
Qed.

(** After the end the only keys that can be used are those of an exchange that the
    body, still running, finished after it. *)
Definition wipedAtEnd (c : Cli) : Prop :=
  ∃ before after, cs_log c = before ++ Finished :: after ∧
    ∀ keys, cs_keys c = Some keys → destroyed keys = true ∨ ∃ sid, Established sid keys ∈ after.

(** Keys the body may set: none, the ones there are, or those just established *)
Definition keysFrom (keys : option SessionKeys) (c : Cli) : Prop :=
  keys = cs_keys c ∨ keys = None ∨ ∃ sid k l, keys = Some k ∧ cs_log c = l ++ [Established sid k].

Lemma wipedAtEnd_log c c' l : wipedAtEnd c → cs_log c' = cs_log c ++ l → cs_keys c' = cs_keys c → wipedAtEnd c'.
Proof.
  intros (before & after & E & Hk) E' Ek. exists before, (after ++ l). split; [by rewrite E', E, <- app_assoc|]. intros keys. rewrite Ek. intros Hc.
  destruct (Hk keys Hc) as [Hd|[sid He]]; [by left|right; exists sid; apply elem_of_app; by left].
Qed.

Lemma wipedAtEnd_keys c c' : wipedAtEnd c → cs_log c' = cs_log c → keysFrom (cs_keys c') c → wipedAtEnd c'.
Proof.
  intros Hw E [Ek|[Ek|(sid & k & l & Ek & El)]]; [apply (wipedAtEnd_log c c' []); [done|by rewrite app_nil_r|done]|..]; destruct Hw as (before & after & E' & Hk).
  - exists before, after. split; [by rewrite E|]. rewrite Ek. intros keys [=].
  - exists before, after. split; [by rewrite E|]. rewrite Ek. intros keys [= <-]. right. exists sid. rewrite E' in El. destruct after as [|x after _] using rev_ind.
    + by apply app_inj_tail in El as [_ [=]].
    + rewrite app_comm_cons, app_assoc in El. apply app_inj_tail in El as [_ ->]. apply elem_of_app. right. by left.
Qed.

(** The invariant that both sessions share *)
Record Common (c : Cli) : Prop := {
  co_lawful : lawful law (cs_log c);
  co_finished : is_Some (cs_finished c) → cs_open c = false ∧ cs_peerOpen c = false;
  co_clean : cs_finished c = Some true → is_Some (cs_ended c) ∧ ∀ keys, cs_keys c = Some keys → destroyed keys = true;
  co_ended : cs_ended c = Some (Ok ()) → cs_completed c = true;
  co_completed : cs_completed c = true → ∃ keys manifest, Transfer keys manifest ∈ cs_log c;
  co_before : cs_started c = false → cs_log c = [] ∧ cs_ended c = None ∧ cs_interrupted c = false;
  co_wiped : is_Some (cs_finished c) → wipedAtEnd c
}.

Context (bound : nat) (useServerIce relay : bool) (nativePeer : list RTCIceServer → result ()).
Definition CI (c : Cli) : Prop := Common c ∧ (count isAttempt (cs_log c) <= bound)%nat.

(** While the body runs *)
Definition live (c : Cli) : Prop := CI c ∧ cs_ended c = None ∧ cs_started c = true.

Lemma live_beside c c' : CI c' → beside c c' → live c → live c'.
Proof. intros Hc [_ _ _ (St & _ & _ & E)] (_ & Hl & Hs). split; [done|by rewrite E, St]. Qed.

Lemma logged_beside c c' e : beside c c' → e ∈ cs_log c → e ∈ cs_log c'.
Proof. intros [(l & -> & _) _ _ _] He. apply elem_of_app. by left. Qed.

Lemma count_beside f c c' : (∀ e, isNotice e = true → f e = false) → beside c c' → count f (cs_log c') = count f (cs_log c).
Proof. intros Hf [(l & -> & Hl) _ _ _]. rewrite count_app, (count_notices f l) by done. lia. Qed.

Lemma note_live e c : live c → law (cs_log c) e → (isAttempt e = true → (count isAttempt (cs_log c) < bound)%nat) → live (note e c).
Proof.
  intros ([[C1 C2 C3 C4 C5 C6 C7] Hb] & Hl & Hs) He Ha. split; [split; [split; try done|]|done].
  - by apply lawful_snoc.
  - intros Hc. destruct (C5 Hc) as (keys & manifest & Ht). exists keys, manifest. apply elem_of_app. by left.
  - cbn. congruence.
  - intros Hf. by apply (wipedAtEnd_log c _ [e]); [apply C7| |].
  - change (cs_log (note e c)) with (cs_log c ++ [e]). rewrite count_app, count_one. destruct (isAttempt e); [specialize (Ha eq_refl)|]; lia.
Qed.

Lemma vars_live sid keys ice cached c : keysFrom keys c → live c → live (set_vars sid keys (cs_completed c) ice cached c).
Proof.
  intros Hk ([[C1 C2 C3 C4 C5 C6 C7] Hb] & Hl & Hs). split; [split; [split; try done|done]|done].
  - intros Hf. destruct (C3 Hf) as [[r Hr] _]. cbn in Hl. congruence.
  - intros Hf. by apply (wipedAtEnd_keys c); [apply C7| |].
Qed.

Lemma links_CI isOpen peerOpen wired c : CI c → (cs_open c = false → cs_peerOpen c = false → isOpen = false ∧ peerOpen = false) → CI (set_links isOpen peerOpen wired c).
Proof. intros [[C1 C2 C3 C4 C5 C6 C7] Hb] Ho. split; [split; try done|done]. cbn. intros Hf. destruct (C2 Hf) as [Hc Hp]. by apply Ho. Qed.

Lemma links_live isOpen peerOpen wired c : live c → (cs_open c = false → cs_peerOpen c = false → isOpen = false ∧ peerOpen = false) → live (set_links isOpen peerOpen wired c).
Proof. intros (Hc & Hl & Hs) Ho. split; [by apply links_CI|done]. Qed.

Lemma completed_live c : live c → (∃ keys manifest, Transfer keys manifest ∈ cs_log c) → live (setCompleted c).
Proof. intros ([[C1 C2 C3 C4 C5 C6 C7] Hb] & Hl & Hs) Ht. split; [split; [by split|done]|done]. Qed.

(** *** Weakest preconditions of the shared steps *)

(** The foreground may do anything that its own obligations allow, but the body
    is not started anew. *)
Definition staysStarted (c c' : Cli) : Prop := cs_started c = true → cs_started c' = true.
#[local] Instance staysStarted_preorder : PreOrder staysStarted.
Proof. split; unfold staysStarted; [by intros c|auto]. Qed.

Abbreviation fwp t Q E c := (twp cliAnswers CI beside staysStarted t Q E c).

Lemma f_get {A} (f : Cli → cli A) Q E c : fwp (f c) Q E c → fwp (c ← get; f c) Q E c.
Proof. intros Hf. apply twp_bind, twp_get; [reflexivity|done]. Qed.

Lemma f_await {B} (o : cli_op B) (Q : B → Cli → Prop) (E : jsstr → Cli → Prop) c :
  live c → (∀ e c', live c' → beside c c' → E e c') → (∀ b c', live c' → beside c c' → cliAnswers B o c' (Ok b) → Q b c') → fwp (await o) Q E c.
Proof.
  intros Hl HE HQ. apply twp_await; [apply Hl|]. intros c' r Hc' Hr Ha. assert (live c') by by apply (live_beside c). destruct r as [b|e]; [by apply HQ|by apply HE].
Qed.

Lemma f_modify f (Q : () → Cli → Prop) E c : (cs_started c = true → cs_started (f c) = true) → Q () (f c) → fwp (modify f) Q E c.
Proof. intros Hs HQ. by apply twp_modify. Qed.

Lemma f_note e (Q : () → Cli → Prop) E c : Q () (note e c) → fwp (modify (note e)) Q E c.
Proof. by apply f_modify. Qed.

Lemma f_send m (Q : () → Cli → Prop) (E : jsstr → Cli → Prop) c :
  (∀ e, cs_open c = false → E e c) → (cs_open c = true → Q () (note (Sent m) c)) → fwp (sendMessage m) Q E c.
Proof. intros HE HQ. apply f_get. destruct (cs_open c); [by apply f_note, HQ|by apply twp_throw, HE]. Qed.

(** A notice that may fail *)
Lemma f_notice m (Q : () → Cli → Prop) E c : isNotice (Sent m) = true → live c → (∀ c', live c' → beside c c' → Q () c') → fwp (safeSend m) Q E c.
Proof using Hnotice.
  intros Hm Hl HQ. apply twp_catch, f_send; [intros _ _; apply twp_ret, HQ; [done|reflexivity]|]. intros Ho. apply HQ.
  - apply note_live; [done|by apply Hnotice|]. by destruct (notice_kinds (Sent m) Hm).
  - split; [exists [Sent m]; by repeat constructor|done|by left|done].
Qed.

Lemma f_waitMessage type sid (Q : jsval → Cli → Prop) (E : jsstr → Cli → Prop) c :
  live c → (∀ e c', live c' → beside c c' → E e c') → (∀ m c', live c' → beside c c' → Q m c') → fwp (waitMessage type sid) Q E c.
Proof.
  intros Hl HE HQ. unfold waitMessage. apply twp_bind, f_await; [done|done|]. intros w c' Hl' Hb _. destruct w as [m|code|]; [apply twp_ret; auto|apply twp_throw; auto..].
Qed.

Lemma f_theKeys keys (Q : SessionKeys → Cli → Prop) E c : holds keys c → (∀ k, cs_keys c = Some k → k = keys ∨ cs_open c = false ∧ k = wipeSessionKeys keys → Q k c) → fwp theKeys Q E c.
Proof.
  intros Hk HQ. apply f_get, twp_lift. destruct Hk as [Hk|[Ho Hk]]; rewrite Hk; (apply HQ; [done|]); [by left|by right].
Qed.

Lemma f_ice (Q : list RTCIceServer → Cli → Prop) (E : jsstr → Cli → Prop) c :
  live c → (∀ e c', live c' → beside c c' → E e c') → (∀ l c', live c' → beside c c' → Q l c') → fwp (getIceServersAfterAccept useServerIce) Q E c.
Proof.
  intros Hl HE HQ. apply f_get. destruct useServerIce; cbn [negb]; [|apply twp_ret, HQ; [done|reflexivity]]. destruct (cs_cached c); [apply twp_ret, HQ; [done|reflexivity]|].
  apply twp_bind, f_await; [done|done|]. intros w c' Hl' Hb _. destruct w as [m|code|]; [|apply twp_throw; auto|apply twp_ret; auto]. apply twp_lift. destruct (cloneIceServers _); auto.
Qed.

Lemma f_createPeer keys sid servers (Q : () → Cli → Prop) (E : jsstr → Cli → Prop) c :
  live c → holds keys c → (∀ e c', live c' → E e c') →
  (∀ k, cs_keys c = Some k → k = keys ∨ cs_open c = false ∧ k = wipeSessionKeys keys → law (cs_log c) (PeerCreated sid (signalAuthKey k))) →
  (∀ k c', live c' → cs_log c' = cs_log c ++ [PeerCreated sid (signalAuthKey k)] → cs_keys c' = cs_keys c → cs_open c' = cs_open c → Q () c') → fwp (createPeer relay nativePeer sid servers) Q E c.
Proof.
  intros Hl Hk HE Hlaw HQ. unfold createPeer. apply twp_bind, (f_theKeys keys); [done|]. intros k Ek Hkeys. apply twp_bind, twp_lift. destruct (hasRelayIceServer _) as [relayed|e]; [|by apply HE].
  apply twp_bind, twp_lift. destruct (check _ _); [|by apply HE]. apply twp_bind, twp_lift. destruct (nativePeer servers); [|by apply HE]. apply twp_bind, f_note, f_modify; [by cbn; destruct (cs_open c)|].
  assert (live (note (PeerCreated sid (signalAuthKey k)) c)) as Hn by (apply note_live; [done|by apply Hlaw|done]).
  change (cs_open (note _ c)) with (cs_open c). destruct (cs_open c) eqn:Eo; apply (HQ k); try done; [|by apply links_live]. apply links_live; [done|]. cbn. congruence.
Qed.

(** *** The whole session, and what runs beside it *)

Definition bodyWp (body : task cli_op Cli ()) : Prop := ∀ c, live c → cs_log c = [] → fwp body (λ _ c', live c' ∧ cs_completed c' = true) (λ _, live) c.

Lemma ended_settles r c : live c → (r = Ok () → cs_completed c = true) → CI (setEnded r c).
Proof.
  intros ([[C1 C2 C3 C4 C5 C6 C7] Hb] & Hl & Hs) Hr. split; [|done]. split; try done.
  - intros Hf. destruct (C3 Hf) as [[r' Hr'] _]. cbn in Hl. congruence.
  - intros [= ->]. by apply Hr.
  - cbn. congruence.
Qed.

Lemma session_wp body c : bodyWp body → CI c → cs_started c = false → fwp (session body) (settles CI) (settles CI) c.
Proof.
  intros Hbody [[C1 C2 C3 C4 C5 C6 C7] Hb] Hs. destruct (C6 Hs) as (Hlog & He & Hi). assert (live (setStarted c)) as Hl by (split; [split; [by split|done]|done]).
  apply twp_bind, f_modify; [done|]. apply twp_bind, twp_try. eapply twp_mono; [by apply Hbody| |].
  - intros [] c' [Hl' Hc']. apply f_modify; [done|]. by apply ended_settles.
  - intros e c' Hl'. apply f_modify; [done|]. by apply ended_settles.
Qed.

Abbreviation bwp t Q E c := (twp cliAnswers CI staysStarted (guarB beside staysStarted) t Q E c).

Lemma b_modify f (Q : () → Cli → Prop) E c : beside c (f c) → Q () (f c) → bwp (modify f) Q E c.
Proof. intros Hb HQ. apply twp_modify; [|done]. split; [done|]. destruct Hb as [_ _ _ (Hs & _)]. intros ?. by rewrite Hs. Qed.

Lemma b_get {A} (f : Cli → task cli_op Cli A) (Q : A → Cli → Prop) E c : bwp (f c) Q E c → bwp (c ← get; f c) Q E c.
Proof. intros Hf. apply twp_bind, twp_get; [|done]. split; [reflexivity|done]. Qed.

Lemma b_notice m (Q : () → Cli → Prop) E c : isNotice (Sent m) = true → CI c → cs_started c = true → (∀ c', CI c' → cs_started c' = true → Q () c') → bwp (safeSend m) Q E c.
Proof using Hnotice.
  intros Hm Hc Hs HQ. apply twp_catch, b_get. destruct (cs_open c) eqn:Ho; [|by apply twp_throw, twp_ret, HQ]. destruct Hc as [[C1 C2 C3 C4 C5 C6 C7] Hb].
  apply b_modify; [split; [exists [Sent m]; by repeat constructor|done|by left|done]|]. apply HQ; [|done]. split; [split; try done|].
  - apply lawful_snoc; [done|by apply Hnotice].
  - intros Hd. destruct (C5 Hd) as (keys & manifest & Ht). exists keys, manifest. apply elem_of_app. by left.
  - cbn. congruence.
  - intros Hf. by apply (wipedAtEnd_log c _ [Sent m]); [apply C7| |].
  - change (cs_log (note (Sent m) c)) with (cs_log c ++ [Sent m]). rewrite count_app, count_one. by cbn; rewrite Nat.add_0_r.
Qed.

Lemma beside_flags interrupted disposed finished isOpen peerOpen wired cached ice c :
  (cs_open c = false → isOpen = false) →
  beside c (set_vars (cs_sid c) (cs_keys c) (cs_completed c) ice cached (set_links isOpen peerOpen wired (set_flags (cs_started c) interrupted disposed (cs_ended c) finished c))).
Proof. intros Ho. split; [exists []; by rewrite app_nil_r|done|by left|done]. Qed.

Lemma wp_interrupt c : CI c → cs_started c = true → bwp onInterrupt (settles CI) (settles CI) c.
Proof using Hnotice.
  intros Hc Hs. apply b_get, twp_when; [intros _|by intros _]. apply twp_bind, b_modify; [by apply (beside_flags true _ _ (cs_open c))|]. apply twp_bind, b_notice; [by destruct (cs_sid c)| |done|].
  - destruct Hc as [[C1 C2 C3 C4 C5 C6 C7] Hb]. split; [split; try done|done]. cbn. congruence.
  - intros c' Hc' Hs'. apply b_modify; [by apply (beside_flags _ _ _ false)|by apply links_CI].
Qed.

Lemma wiped_CI c : CI c → cs_started c = true → CI (wipeAndClose c).
Proof using Hnotice.
  intros [[C1 C2 C3 C4 C5 C6 C7] Hb] Hs. assert (∀ keys, cs_keys (wipeAndClose c) = Some keys → destroyed keys = true) as Hw.
  { intros keys Hk. apply fmap_Some in Hk as (k & _ & ->). apply wipeSessionKeys_destroyed. }
  split; [split; try done|].
  - by apply lawful_snoc; [|apply Hnotice].
  - cbn. intros [= Hf%bool_decide_eq_true]. by split.
  - intros Hd. destruct (C5 Hd) as (keys & manifest & Ht). exists keys, manifest. apply elem_of_app. by left.
  - cbn. congruence.
  - intros _. exists (cs_log c), []. split; [done|]. intros keys Hk. left. by apply Hw.
  - change (cs_log (wipeAndClose c)) with (cs_log c ++ [Finished]). rewrite count_app, count_one. cbn. lia.
Qed.

Lemma wp_finish sendsFiles c : CI c → cs_started c = true → bwp (finish sendsFiles) (settles CI) (settles CI) c.
Proof using Hnotice.
  intros Hc Hs. apply twp_bind, b_modify; [by apply (beside_flags (cs_interrupted c) true _ (cs_open c) (cs_peerOpen c) (cs_wired c) (cs_cached c) (cs_iceServers c))|].
  set (c1 := set_flags _ _ _ _ _ c). assert (CI c1 ∧ cs_started c1 = true) as [Hc1 Hs1] by (destruct Hc as [[C1 C2 C3 C4 C5 C6 C7] Hb]; split; [split; [split|]|]; done). clearbody c1.
  assert (∀ c', CI c' → cs_started c' = true → bwp (modify wipeAndClose) (settles CI) (settles CI) c') as Hend.
  { intros c' Hc' Hs'. apply b_modify; [|by apply wiped_CI]. split; [exists [Finished]; by repeat constructor|done|by right|done]. }
  assert (∀ c', CI c' → cs_started c' = true → bwp (modify (setWired false);; twhen sendsFiles (await CloseFiles);; modify wipeAndClose) (settles CI) (settles CI) c') as Hrest.
  { intros c' Hc' Hs'. apply twp_bind, b_modify; [by apply (beside_flags (cs_interrupted c') (cs_disposed c') (cs_finished c') (cs_open c') (cs_peerOpen c') false (cs_cached c') (cs_iceServers c'))|].
    assert (CI (setWired false c')) as Hw by by apply links_CI. apply twp_bind, twp_when; [intros _|intros _; by apply Hend]. apply twp_await; [done|]. intros c2 [[]|e] Hc2 Hr2 _; [apply Hend; [done|by apply Hr2]|exact Hc2]. }
  apply b_get. apply twp_bind, twp_when; [intros _|intros _; by apply Hrest]. apply b_notice; [by destruct (cs_sid c1), (cs_interrupted c1)|done..|]. intros c2 Hc2 Hs2. by apply Hrest.
Qed.

Lemma wp_beside sendsFiles c t : CI c → cliEvent useServerIce sendsFiles c t → bwp t (settles CI) (settles CI) c.
Proof using Hnotice.
  intros Hc Ht. destruct Ht as [Hs|servers _|_ He| | |].
  - by apply wp_interrupt.
  - apply b_modify; [|destruct useServerIce; [|done]; destruct Hc as [[C1 C2 C3 C4 C5 C6 C7] Hb]; by split; [split|]].
    destruct useServerIce; [|reflexivity]. by apply (beside_flags (cs_interrupted c) (cs_disposed c) (cs_finished c) (cs_open c) (cs_peerOpen c) (cs_wired c)).
  - apply wp_finish; [done|]. destruct (cs_started c) eqn:Es; [done|]. destruct Hc as [[C1 C2 C3 C4 C5 C6 C7] Hb]. destruct (C6 Es) as (_ & E1 & E2). destruct He as [[r Hr]|Hi]; congruence.
  - apply b_modify; [by apply (beside_flags (cs_interrupted c) (cs_disposed c) (cs_finished c) false (cs_peerOpen c) (cs_wired c) (cs_cached c) (cs_iceServers c))|by apply links_CI].
  - apply b_modify; [by apply (beside_flags (cs_interrupted c) (cs_disposed c) (cs_finished c) false (cs_peerOpen c) (cs_wired c) None (cs_iceServers c))|].
    apply links_CI; [|done]. destruct Hc as [[C1 C2 C3 C4 C5 C6 C7] Hb]. by split; [split|].
  - apply b_modify; [by apply (beside_flags (cs_interrupted c) (cs_disposed c) (cs_finished c) (cs_open c) false (cs_wired c) (cs_cached c) (cs_iceServers c))|by apply links_CI].
Qed.

(** Every session keeps the invariant. *)
Lemma session_reaches sendsFiles initialIce body c : bodyWp body → cliReachable useServerIce initialIce sendsFiles body c → CI (shared c).
Proof using Hnotice.
  intros Hbody. apply system_invariant with (relyF := beside) (relyB := staysStarted); [apply _..| | |].
  - intros c' t Hc' [Hs ->]. eapply twp_weaken; [| |by apply session_wp]; done.
  - intros c' t Hc' Ht. by apply (wp_beside sendsFiles).
  - split; [split; try done|by apply Nat.le_0_l]; [constructor|by intros [? [=]]..].
Qed.

Definition sessionResult (c : Cli) : Prop :=
  (∀ before e after, cs_log c = before ++ e :: after → law before e) ∧ (count isAttempt (cs_log c) <= bound)%nat ∧
  (cs_ended c = Some (Ok ()) → ∃ keys manifest, Transfer keys manifest ∈ cs_log c) ∧
  (is_Some (cs_finished c) → cs_open c = false ∧ cs_peerOpen c = false) ∧
  (cs_finished c = Some true → ∀ keys, cs_keys c = Some keys → destroyed keys = true) ∧
  (is_Some (cs_finished c) → ∃ before after, cs_log c = before ++ Finished :: after ∧
    ∀ keys, cs_keys c = Some keys → destroyed keys = true ∨ ∃ sid, Established sid keys ∈ after).

Lemma session_result sendsFiles initialIce body c : bodyWp body → cliReachable useServerIce initialIce sendsFiles body c → sessionResult (shared c).
Proof using Hnotice.
  intros Hbody Hr. destruct (session_reaches sendsFiles initialIce body c Hbody Hr) as [[C1 C2 C3 C4 C5 _ C7] Hb]. split_and!; [|done|auto|done| |exact C7].
  - intros before e after E. apply (lawful_split law _ e after). by rewrite <- E.
  - intros Hf keys. by apply C3.
Qed.

(** *** Before the message that matters, with room for further attempts *)

Context (kind : string) (Hkind : ∀ e, isNotice e = true → isSent kind e = false).

Record fresh (room : nat) (c : Cli) : Prop := {
  fr_live : live c;
  fr_room : (count isAttempt (cs_log c) + room <= bound)%nat;
  fr_sent : count (isSent kind) (cs_log c) = 0%nat;
  fr_transfers : count isTransfer (cs_log c) = 0%nat
}.

Lemma fresh_beside room c c' : live c' → beside c c' → fresh room c → fresh room c'.
Proof using Hkind.
  intros Hl Hb [_ F2 F3 F4]. split; [done| | |].
  - rewrite (count_beside isAttempt c c'); [done| |done]. intros e He. by apply notice_kinds.
  - by rewrite (count_beside _ c c').
  - rewrite (count_beside _ c c'); [done| |done]. intros e He. by apply notice_kinds.
Qed.

Lemma fresh_note room room' e c :
  fresh room c → law (cs_log c) e → isSent kind e = false → isTransfer e = false → (room' + (if isAttempt e then 1 else 0) <= room)%nat → fresh room' (note e c).
Proof.
  intros [F1 F2 F3 F4] He Ha Ht Hr. assert (∀ f, count f (cs_log (note e c)) = (count f (cs_log c) + if f e then 1 else 0)%nat) as Hc.
  { intros f. change (cs_log (note e c)) with (cs_log c ++ [e]). by rewrite count_app, count_one. }
  split; rewrite ?Hc, ?Ha, ?Ht; try lia. apply note_live; [done|done|]. intros Hat. rewrite Hat in Hr. lia.
Qed.

Lemma fresh_less room room' c : fresh room c → (room' <= room)%nat → fresh room' c.
Proof. intros [F1 F2 F3 F4] Hr. split; [done|lia|done|done]. Qed.

Lemma fresh_session room sid keys c : keysFrom keys c → fresh room c → fresh room (setSession sid keys c).
Proof. intros Hk [F1 F2 F3 F4]. split; [|done..]. by apply vars_live. Qed.

Lemma fresh_start room c : live c → cs_log c = [] → (room <= bound)%nat → fresh room c.
Proof. intros Hl E Hr. split; [done|by rewrite E..]. Qed.

End Common.
