(* ===== verification/SessionProps.v ===== *)
(** * SessionProps: what the sessions of the command line guarantee.

    The receiver announces its consent once, after the user agreed to the
    manifest that a confirmed peer sealed, and receives exactly that; the sender
    sends files only after the receiver's verified consent to the manifest it
    sealed; the attempts of a session are bounded; and the end closes the
    connections and wipes the keys, however it comes. *)
From S2P Require Import Prelude.
From S2P Require Import Constants.
From S2P Require Import JsText.
From S2P Require Import JsValue.
From S2P Require Import Json.
From S2P Require Import Protocol.
From S2P Require Import Authority.
From S2P Require Import Wordlist.
From S2P Require Import Messages.
From S2P Require Import Wire.
From S2P Require Import Limits.
From S2P Require Import PublicManifest.
From S2P Require Import Base64.
From S2P Require Import Bytes.
From S2P Require Import Crypto.
From S2P Require Import Pake.
From S2P Require Import Auth.
From S2P Require Import SecureChannel.
From S2P Require Import Establish.
From S2P Require Import Async.
From S2P Require Import Ice.
From S2P Require Import SignalWait.
From S2P Require Import WireSignals.
From S2P Require Import ServerConfig.
From S2P Require Import Session.
From S2P Require Import SessionInv.
#[local] Open Scope Z_scope.

(** ** The receiver *)

Section Recv.
Context `{Crypto, JsNumbers, UrlParser, JsCase, WordList}.
Context (useServerIce relay : bool) (nativePeer : list RTCIceServer → result ()) (initialIce : list RTCIceServer).

(** The keys are of a confirmed exchange. *)
Definition runOf (role : PakeRole) (code sid : jsstr) (keys : SessionKeys) : Prop :=
  ∃ sendOk n peer confirm out, establishKeys sendOk sid role code n peer confirm = Ok (Done keys out).

(** The receiver's consent to what was sealed under keys of this log *)
Definition consented (l : list CliEvent) (sid : jsstr) (keys : SessionKeys) (sealed : jsstr) (manifest : jsval) (message : jsval) : Prop :=
  Established sid keys ∈ l ∧ Decided sealed manifest true ∈ l ∧ openManifest keys (JStr sealed) = Ok manifest ∧ assertTransferManifestWithinLimits manifest = Ok () ∧
  pairAcceptMessage sid (signalAuthKey keys) sealed = Ok message.

Definition recvLaw (l : list CliEvent) (e : CliEvent) : Prop :=
  match e with
  | Attempt _ | Finished => True
  | Established sid keys => ∃ parsed, Sent (registerMessage (rendezvous parsed)) ∈ l ∧ runOf receiver (handle parsed) sid keys
  | Decided sealed manifest _ => ∃ sid keys, Established sid keys ∈ l ∧ openManifest keys (JStr sealed) = Ok manifest
  | Sent m => isType m "pair-accept" = true → count (isSent "pair-accept") l = 0%nat ∧ ∃ sid keys sealed manifest, consented l sid keys sealed manifest m
  | PeerCreated sid key => ∃ keys sealed manifest m, Sent m ∈ l ∧ consented l sid keys sealed manifest m ∧ (key = signalAuthKey keys ∨ key = signalAuthKey (wipeSessionKeys keys))
  | Transfer keys' manifest => count isTransfer l = 0%nat ∧ ∃ sid keys sealed m, Sent m ∈ l ∧ consented l sid keys sealed manifest m ∧ (keys' = keys ∨ keys' = wipeSessionKeys keys)
  end.

Lemma recvNotice l e : isNotice e = true → recvLaw l e.
Proof. intros He. destruct (notice_kinds e He) as (Ha & _ & _ & _ & _). destruct e; try done. cbn in Ha |- *. congruence. Qed.

Lemma consented_grows l l' sid keys sealed manifest m : consented l sid keys sealed manifest m → consented (l ++ l') sid keys sealed manifest m.
Proof. intros (E & C & R). split_and!; [apply elem_of_app; by left..|apply R|apply R|apply R]. Qed.

Definition recvBound : nat := 9.
Abbreviation live := (live recvLaw recvBound).
Abbreviation fresh := (fresh recvLaw recvBound "pair-accept").
Abbreviation fwp t Q E c := (twp cliAnswers (CI recvLaw recvBound) beside staysStarted t Q E c).


Lemma notAccept e : isNotice e = true → isSent "pair-accept" e = false.
Proof. intros He. by apply notice_kinds. Qed.

Lemma fresh_modest room m c : isType m "pair-accept" = false → fresh room c → fresh room (note (Sent m) c).
Proof. intros Hm Hf. apply (fresh_note _ _ _ room); [done| |done|done|cbn; lia]. cbn. congruence. Qed.

(** A code that is registered *)
Lemma wp_register supplied n (Q : ParsedCode → Cli → Prop) (E : jsstr → Cli → Prop) room c :
  fresh room c → (∀ e c', live c' → E e c') → (∀ p c', fresh room c' → Sent (registerMessage (rendezvous p)) ∈ cs_log c' → Q p c') → fwp (registerReceiver supplied n) Q E c.
Proof.
  intros Hf HE HQ. revert c Hf. induction n as [|n IH]; intros c Hf; cbn [registerReceiver]; (apply twp_bind;
    apply (twp_mono _ _ _ _ _ (λ _ c', fresh room c') _ (λ _ c', live c')); [destruct supplied; [by apply twp_ret|]; apply twp_bind, f_await; [apply Hf|by intros e c' ? ?|]; intros code c' Hl Hb _;
      assert (fresh room c') by (by apply (fresh_beside _ _ _ notAccept room c)); apply twp_lift; destruct (parseRequiredCode _); [done|apply Hl]| |by intros e c' ?; apply HE]).
  all: intros p c1 Hf1; apply twp_bind, f_send; [intros e _; apply HE, Hf1|]; intros _.
  all: assert (fresh room (note (Sent (registerMessage (rendezvous p))) c1)) as Hf2 by (by apply fresh_modest).
  all: apply twp_bind, f_await; [apply Hf2|intros; by apply HE|]; intros w c3 Hl3 Hb3 _; pose proof (fresh_beside _ _ _ notAccept _ _ _ Hl3 Hb3 Hf2) as Hf3.
  all: destruct w as [m|code|]; [apply twp_bind, twp_lift; destruct (assertRegisteredRendezvous _ _); [|by apply HE]; apply twp_ret, HQ; [done|]; eapply logged_beside; [exact Hb3|apply logged_note]| |by apply twp_throw, HE].
  all: case_bool_decide; [|by apply twp_throw, HE].
  - by apply twp_throw, HE.
  - by apply IH.
Qed.

Definition registeredAs (p : ParsedCode) (c : Cli) : Prop := Sent (registerMessage (rendezvous p)) ∈ cs_log c.

Lemma wp_restored expected (Q : () → Cli → Prop) (E : jsstr → Cli → Prop) c :
  live c → (∀ e c', live c' → E e c') → (∀ c', live c' → beside c c' → Q () c') → fwp (awaitRestored expected) Q E c.
Proof.
  intros Hl HE HQ. unfold awaitRestored. apply twp_bind, f_waitMessage; [done|by intros; apply HE|]. intros m c' Hl' Hb. apply twp_lift. destruct (assertRegisteredRendezvous _ _) as [[]|e]; [by apply HQ|by apply HE].
Qed.

(** The last entry says that these keys were established. *)
Definition justEstablished (sid : jsstr) (keys : SessionKeys) (c : Cli) : Prop := ∃ l, cs_log c = l ++ [Established sid keys].

Lemma established_logged sid keys c : justEstablished sid keys c → Established sid keys ∈ cs_log c.
Proof. intros [l ->]. apply elem_of_app. right. by left. Qed.

Lemma established_keys sid keys c : justEstablished sid keys c → keysFrom (Some keys) c.
Proof. intros [l Hl]. right; right. by exists sid, keys, l. Qed.

Lemma wp_attempt p room (Q : jsstr * result SessionKeys → Cli → Prop) (E : jsstr → Cli → Prop) c :
  fresh (S room) c → registeredAs p c → (∀ e c', live c' → E e c') →
  (∀ sid r c', fresh room c' → registeredAs p c' → (∀ keys, r = Ok keys → justEstablished sid keys c') → Q (sid, r) c') → fwp (attemptSession (handle p)) Q E c.
Proof.
  intros Hf Hp HE HQ. unfold attemptSession. apply twp_bind, f_waitMessage; [apply Hf|by intros; apply HE|]. intros m c1 Hl1 Hb1. apply twp_bind, twp_lift.
  destruct (match field m "sid" with JStr s => Ok s | _ => _ end) as [sid|e]; [|by apply HE]. apply twp_bind, f_note. pose proof (fresh_beside _ _ _ notAccept _ _ _ Hl1 Hb1 Hf) as Hf1. pose proof (logged_beside _ _ _ Hb1 Hp) as Hp1.
  assert (fresh room (note (Attempt sid) c1)) as Hf2 by (apply (fresh_note _ _ _ (S room)); [done|done|done|done|cbn; lia]).
  assert (registeredAs p (note (Attempt sid) c1)) as Hp2 by (apply elem_of_app; by left). apply twp_bind, twp_try, f_await; [apply Hf2|..].
  - intros e c3 Hl3 Hb3. apply twp_bind, twp_ret, twp_ret, HQ; [by apply (fresh_beside _ _ _ notAccept _ _ _ Hl3 Hb3)|by apply (logged_beside _ _ _ Hb3)|done].
  - intros keys c3 Hl3 Hb3 Hans. pose proof (fresh_beside _ _ _ notAccept _ _ _ Hl3 Hb3 Hf2) as Hf3. pose proof (logged_beside _ _ _ Hb3 Hp2) as Hp3. apply twp_bind, f_note, twp_ret, HQ.
    + apply (fresh_note _ _ _ room); [done| |done|done|cbn; lia]. exists p. split; [done|]. by apply Hans.
    + apply elem_of_app. by left.
    + intros k [= <-]. by exists (cs_log c3).
Qed.

Lemma wp_confirmed p n room (Q : jsstr * SessionKeys → Cli → Prop) (E : jsstr → Cli → Prop) c :
  fresh (S (n + room)) c → registeredAs p c → (∀ e c', live c' → E e c') →
  (∀ sid keys c', fresh room c' → registeredAs p c' → justEstablished sid keys c' → Q (sid, keys) c') → fwp (waitForConfirmedReceiverSession (handle p) (rendezvous p) n) Q E c.
Proof.
  intros Hf Hp HE HQ. revert c Hf Hp. induction n as [|n IH]; intros c Hf Hp; cbn [waitForConfirmedReceiverSession];
    (apply twp_bind; eapply wp_attempt; [exact Hf|exact Hp|by intros; apply HE|]; intros sid [keys|e] c1 Hf1 Hp1 Hk; [apply twp_ret, HQ; [eapply fresh_less; [exact Hf1|lia]|done|by apply Hk]|]).
  - destruct (isPrePairRetryable e); by apply twp_throw, HE, Hf1.
  - destruct (isPrePairRetryable e); [|by apply twp_throw, HE, Hf1]. apply twp_bind, f_notice; [apply recvNotice|done|apply Hf1|]. intros c2 Hl2 Hb2.
    apply twp_bind, wp_restored; [done|by intros; apply HE|]. intros c3 Hl3 Hb3. apply IH.
    + by apply (fresh_beside _ _ _ notAccept _ _ _ Hl3 Hb3), (fresh_beside _ _ _ notAccept _ _ _ Hl2 Hb2).
    + by apply (logged_beside _ _ _ Hb3), (logged_beside _ _ _ Hb2).
Qed.

Lemma wp_request sid keys (Q : jsstr * jsval → Cli → Prop) (E : jsstr → Cli → Prop) c :
  live c → (∀ e c', live c' → beside c c' → E e c') →
  (∀ sealed manifest c', live c' → beside c c' → openManifest keys (JStr sealed) = Ok manifest → assertTransferManifestWithinLimits manifest = Ok () → Q (sealed, manifest) c') →
  fwp (readRequest sid keys) Q E c.
Proof.
  intros Hl HE HQ. unfold readRequest. apply twp_bind, f_waitMessage; [done|done|]. intros m c1 Hl1 Hb1. apply twp_bind, twp_lift.
  destruct (match field m "sealedManifest" with JStr s => Ok s | _ => _ end) as [sealed|e]; [|by apply HE]. apply twp_bind, f_await; [done| |].
  - intros e c2 Hl2 Hb2. apply HE; [done|by etransitivity].
  - intros manifest c2 Hl2 Hb2 Hans. apply twp_bind, twp_lift. assert (beside c c2) by by etransitivity. destruct (assertTransferManifestWithinLimits manifest) as [[]|e] eqn:Ea; [|by apply HE].
    apply twp_ret, HQ; [done|done|exact (eq_sym Hans)|done].
Qed.

(** After the consent has been sent *)
Record agreed (sid : jsstr) (keys : SessionKeys) (manifest : jsval) (c : Cli) : Prop := {
  ag_live : live c;
  ag_keys : holds keys c;
  ag_accepted : ∃ sealed m, Sent m ∈ cs_log c ∧ consented (cs_log c) sid keys sealed manifest m;
  ag_transfers : count isTransfer (cs_log c) = 0%nat
}.

Lemma agreed_beside sid keys manifest c c' : live c' → beside c c' → agreed sid keys manifest c → agreed sid keys manifest c'.
Proof.
  intros Hl Hb [_ A2 (sealed & m & A3 & A4) A5]. split; [done|by apply (holds_beside _ _ _ Hb)| |].
  - exists sealed, m. destruct Hb as [(l & -> & _) _ _ _]. split; [apply elem_of_app; by left|by apply consented_grows].
  - rewrite (count_beside isTransfer c c'); [done| |done]. intros e He. by apply notice_kinds.
Qed.

Lemma agreed_with sid keys manifest c c' l :
  live c' → cs_keys c' = cs_keys c → cs_open c' = cs_open c → cs_log c' = cs_log c ++ l → count isTransfer l = 0%nat → agreed sid keys manifest c → agreed sid keys manifest c'.
Proof.
  intros Hl Ek Eo E Ht [_ A2 (sealed & m & A3 & A4) A5]. split; [done|unfold holds; by rewrite Ek, Eo| |].
  - exists sealed, m. rewrite E. split; [apply elem_of_app; by left|by apply consented_grows].
  - by rewrite E, count_app, A5, Ht.
Qed.

(** From there to the end *)
Lemma wp_connect sid servers keys manifest (E : jsstr → Cli → Prop) c : agreed sid keys manifest c → (∀ e c', live c' → E e c') →
  fwp (createPeer relay nativePeer sid servers;;
       await Connected;; modify (setWired false);; keys ← theKeys; modify (note (Transfer keys manifest));; await (ReceiveFiles keys manifest);;
       safeSend (bye (Some sid) "complete");; modify setCompleted) (λ _ c', live c' ∧ cs_completed c' = true) E c.
Proof.
  intros Ha HE. apply twp_bind, (f_createPeer recvLaw recvBound relay nativePeer keys); [apply Ha|apply Ha|done|..].
  { destruct Ha as [_ _ (sealed & m & A3 & A4) _]. intros k _ Hk. exists keys, sealed, manifest, m. split_and!; [done|apply A4..|]. destruct Hk as [->|[_ ->]]; [by left|by right]. }
  intros k c1 Hl1 E1 Ek Eo. pose proof (agreed_with _ keys manifest c c1 _ Hl1 Ek Eo E1 eq_refl Ha) as Ha1. clear k E1 Ek Eo.
  apply twp_bind, f_await; [done|by intros; apply HE|]. intros [] c2 Hl2 Hb2 _. apply (agreed_beside _ _ _ _ _ Hl2 Hb2) in Ha1. apply twp_bind, f_modify; [done|].
  assert (agreed sid keys manifest (setWired false c2)) as Ha3 by (by apply (agreed_with _ _ _ c2 _ []); [apply links_live| | |rewrite app_nil_r|..]).
  apply twp_bind, (f_theKeys recvLaw recvBound keys); [apply Ha3|]. intros k _ Hkeys. apply twp_bind, f_note. destruct Ha3 as [Hl3 _ (sealed & m & A3 & A4) A5].
  assert (live (note (Transfer k manifest) (setWired false c2))) as Hl4.
  { apply note_live; [done| |done]. split; [done|]. exists sid, keys, sealed, m. split_and!; [done|apply A4..|]. destruct Hkeys as [->|[_ ->]]; [by left|by right]. }
  apply twp_bind, f_await; [done|by intros; apply HE|]. intros [] c5 Hl5 Hb5 _. apply twp_bind, f_notice; [apply recvNotice|done|done|]. intros c6 Hl6 Hb6.
  apply f_modify; [done|]. split; [|done]. apply completed_live; [done|]. exists k, manifest. apply (logged_beside _ _ _ Hb6), (logged_beside _ _ _ Hb5), elem_of_app. right. by left.
Qed.

(** From the question to the end *)
Lemma wp_accept sid keys sealed manifest (E : jsstr → Cli → Prop) c :
  fresh 0 c → holds keys c → Established sid keys ∈ cs_log c → openManifest keys (JStr sealed) = Ok manifest → assertTransferManifestWithinLimits manifest = Ok () →
  (∀ e c', live c' → E e c') →
  fwp (acceptTransfer useServerIce relay nativePeer sid sealed manifest) (λ _ c', live c' ∧ cs_completed c' = true) E c.
Proof.
  intros Hf Hk He Ho Hm HE. unfold acceptTransfer. apply twp_bind, f_await; [apply Hf|by intros; apply HE|]. intros accepted c1 Hl1 Hb1 _.
  pose proof (fresh_beside _ _ _ notAccept _ _ _ Hl1 Hb1 Hf) as Hf1. pose proof (logged_beside _ _ _ Hb1 He) as He1. pose proof (holds_beside _ _ _ Hb1 Hk) as Hk1.
  apply twp_bind, f_note. assert (fresh 0 (note (Decided sealed manifest accepted) c1)) as Hf2 by (apply (fresh_note _ _ _ 0); [done|by exists sid, keys|done|done|done]).
  set (c2 := note (Decided sealed manifest accepted) c1) in *. assert (holds keys c2) as Hk2 by exact Hk1.
  assert (Established sid keys ∈ cs_log c2 ∧ Decided sealed manifest accepted ∈ cs_log c2) as [He2 Hc2] by (split; apply elem_of_app; [by left|right; by left]).
  clearbody c2. apply twp_bind, (f_theKeys recvLaw recvBound keys); [done|]. intros k Ek Hkeys. destruct accepted; cbn [negb].
  2:{ apply twp_bind, twp_lift. destruct (pairRejectMessageOf sid k sealed) as [m|e] eqn:Em; [|by apply HE, Hf2]. apply twp_bind, twp_catch, f_send; [intros _ _; by apply twp_ret, twp_throw, HE, Hf2|].
      intros _. apply twp_throw, HE, (fresh_modest 0); [|done]. unfold pairRejectMessageOf in Em. apply result_bind_ok in Em as (auth & _ & [= <-]). done. }
  apply twp_bind, twp_lift. destruct (pairAcceptMessage sid (signalAuthKey k) sealed) as [m|e] eqn:Em; [|by apply HE, Hf2]. apply twp_bind, f_send; [intros e _; by apply HE, Hf2|]. intros Hopen.
  assert (k = keys) as -> by (destruct Hkeys as [->|[Hno _]]; [done|congruence]).
  assert (consented (cs_log c2) sid keys sealed manifest m) as Hcons by by split_and!.
  assert (agreed sid keys manifest (note (Sent m) c2)) as Ha3.
  { split; [|exact Hk2| |].
    - apply note_live; [apply Hf2| |done]. intros _. split; [apply Hf2|]. by exists sid, keys, sealed, manifest.
    - exists sealed, m. split; [apply logged_note|by apply consented_grows].
    - change (cs_log (note (Sent m) c2)) with (cs_log c2 ++ [Sent m]). by rewrite count_app, (fr_transfers _ _ _ _ _ Hf2). }
  apply twp_bind, f_ice; [apply Ha3|by intros; apply HE|]. intros servers c4 Hl4 Hb4. pose proof (agreed_beside _ _ _ _ _ Hl4 Hb4 Ha3) as Ha4. apply twp_bind, f_modify; [done|].
  apply (wp_connect sid servers keys manifest E (setIce servers c4)); [|done]. by apply (agreed_with _ _ _ c4 _ []); [apply vars_live; [by left|]| | |rewrite app_nil_r|..].
Qed.

(** Every further pair request allows the attempts of one confirmation again. *)
Definition roomFor (n : nat) : nat := (S n * Z.to_nat RECEIVER_MAX_PREPAIR_ATTEMPTS)%nat.

(** One round of the loop; [rest] is what follows an invalid request. *)
Lemma wp_round p room (rest : jsstr → jsstr → task cli_op Cli ()) (E : jsstr → Cli → Prop) c :
  fresh (Z.to_nat RECEIVER_MAX_PREPAIR_ATTEMPTS + room) c → registeredAs p c → (∀ e c', live c' → E e c') →
  (∀ sid e c', fresh room c' → registeredAs p c' → fwp (rest sid e) (λ _ c', live c' ∧ cs_completed c' = true) E c') →
  fwp (joined ← waitForConfirmedReceiverSession (handle p) (rendezvous p) (Z.to_nat RECEIVER_MAX_PREPAIR_ATTEMPTS - 1);
       let '(sid, keys) := joined : jsstr * SessionKeys in
       modify (setSession (Some sid) (Some keys));;
       request ← ttry (readRequest sid keys);
       match request with Ok (sealedManifest, manifest) => acceptTransfer useServerIce relay nativePeer sid sealedManifest manifest | Err error => rest sid error end)
    (λ _ c', live c' ∧ cs_completed c' = true) E c.
Proof.
  intros Hf Hp HE Hrest. apply twp_bind, (wp_confirmed _ _ room); [exact Hf|exact Hp|done|]. intros sid keys c1 Hf1 Hp1 He1.
  apply twp_bind, f_modify; [done|]. pose proof (fresh_session _ _ _ _ (Some sid) (Some keys) _ (established_keys _ _ _ He1) Hf1) as Hf2. apply established_logged in He1. apply twp_bind, twp_try, wp_request; [apply Hf2|..].
  - intros e c2 Hl2 Hb2. apply Hrest; [by apply (fresh_beside _ _ _ notAccept _ _ _ Hl2 Hb2)|by apply (logged_beside _ _ _ Hb2)].
  - intros sealed manifest c2 Hl2 Hb2 Ho Hm. eapply wp_accept; [|by apply (holds_beside _ _ _ Hb2); left|by apply (logged_beside _ _ _ Hb2)|done..].
    apply (fresh_less _ _ _ room); [by apply (fresh_beside _ _ _ notAccept _ _ _ Hl2 Hb2)|lia].
Qed.

Lemma wp_recvLoop p n (E : jsstr → Cli → Prop) c : fresh (roomFor n) c → registeredAs p c → (∀ e c', live c' → E e c') →
  fwp (recvLoop useServerIce relay nativePeer p n) (λ _ c', live c' ∧ cs_completed c' = true) E c.
Proof.
  intros Hf Hp HE. revert c Hf Hp. induction n as [|n IH]; intros c Hf Hp; cbn [recvLoop].
  - apply (wp_round p 0 (λ _ e, Throw e)); [exact Hf|done|done|]. intros sid e c1 Hf1 _. by apply twp_throw, HE, Hf1.
  - apply (wp_round p (roomFor n) (λ sid _, safeSend (bye (Some sid) "prepair_retry");; modify dropSession;; awaitRestored (rendezvous p);; recvLoop useServerIce relay nativePeer p n)); [exact Hf|done|done|].
    intros sid e c1 Hf1 Hp1. apply twp_bind, f_notice; [apply recvNotice|done|apply Hf1|]. intros c2 Hl2 Hb2. apply twp_bind, f_modify; [done|].
    pose proof (fresh_session _ _ _ _ None None _ (or_intror (or_introl eq_refl)) (fresh_beside _ _ _ notAccept _ _ _ Hl2 Hb2 Hf1)) as Hf2. apply twp_bind, wp_restored; [apply Hf2|done|]. intros c3 Hl3 Hb3. apply IH.
    + by apply (fresh_beside _ _ _ notAccept _ _ _ Hl3 Hb3).
    + by apply (logged_beside _ _ _ Hb3), (logged_beside _ _ _ Hb2).
Qed.

Lemma wp_recv supplied : bodyWp recvLaw recvBound (recvBody useServerIce relay nativePeer supplied).
Proof.
  intros c Hl Hlog. unfold recvBody. apply twp_bind, (wp_register _ _ _ _ (roomFor 2)); [|done|].
  - by apply fresh_start.
  - intros p c' Hf Hp. by apply wp_recvLoop.
Qed.

(** C15. Whatever the server and the peer send, whenever the user interrupts and
    connections close: the receiver announces its consent at most once, with the
    verified tag of keys that a confirmed exchange under the registered code
    made, and only after the user agreed to the very manifest that was sealed
    under these keys and is within the limits; it opens the peer connection and
    receives files only after that, and only that manifest, once; it makes at
    most nine attempts; it ends without an error only after the transfer; and
    the end closes both connections and wipes the keys there are, so that afterwards
    the only keys not wiped are those of an exchange that the body, still running
    when it was interrupted, finishes after the end (none once the body has ended
    before it). *)
Theorem receiver_consents_first supplied c : receiving useServerIce relay nativePeer initialIce supplied c →
  (∀ before e after, cs_log (shared c) = before ++ e :: after → recvLaw before e) ∧
  (count isAttempt (cs_log (shared c)) <= recvBound)%nat ∧
  (cs_ended (shared c) = Some (Ok ()) → ∃ keys manifest, Transfer keys manifest ∈ cs_log (shared c)) ∧
  (is_Some (cs_finished (shared c)) → cs_open (shared c) = false ∧ cs_peerOpen (shared c) = false) ∧
  (cs_finished (shared c) = Some true → ∀ keys, cs_keys (shared c) = Some keys → destroyed keys = true) ∧
  (is_Some (cs_finished (shared c)) → ∃ before after, cs_log (shared c) = before ++ Finished :: after ∧
    ∀ keys, cs_keys (shared c) = Some keys → destroyed keys = true ∨ ∃ sid, Established sid keys ∈ after).
Proof.
  intros Hr. by apply (session_result recvLaw recvNotice recvBound useServerIce false initialIce _ c (wp_recv supplied)).
Qed.

End Recv.

(** ** The sender *)

Section Send.
Context `{Crypto, JsNumbers, UrlParser, JsCase, WordList}.
Context (useServerIce relay : bool) (nativePeer : list RTCIceServer → result ()) (initialIce : list RTCIceServer) (parsed : ParsedCode) (manifest : jsval).

(** The request for this manifest, sealed under keys of this log *)
Definition requested (l : list CliEvent) (sid : jsstr) (keys : SessionKeys) (sealed : jsstr) (message : jsval) : Prop :=
  Established sid keys ∈ l ∧ ∃ nonce publicManifest, bytesOf 12 nonce ∧ sealManifest keys manifest nonce = Ok sealed ∧
    redactManifestForSignaling manifest = Ok publicManifest ∧ message = pairRequestMessage sid (manifestValue publicManifest) sealed.

(** The receiver's consent to what was sealed *)
Definition acceptOf (sid : jsstr) (keys : SessionKeys) (sealed : jsstr) (message : jsval) : Prop :=
  isServerMessage message = true ∧ field message "type" = jstr "pair-accept" ∧ field message "sid" = JStr sid ∧
  ∃ auth, pairDecisionAuthTag (signalAuthKey keys) sid receiver accept sealed None = Ok auth ∧ field message "auth" = JStr auth.

Definition agreedTo (l : list CliEvent) (sid : jsstr) (keys : SessionKeys) : Prop :=
  ∃ sealed request message, Sent request ∈ l ∧ requested l sid keys sealed request ∧ acceptOf sid keys sealed message.

(** The offer of this session *)
Definition offerOf (sid : jsstr) (keys : SessionKeys) (message : jsval) : Prop :=
  ∃ sdp auth nonce sealedSignal, bytesOf 12 nonce ∧ sdpAuthTag (signalAuthKey keys) sid sender (js "offer") sdp = Ok auth ∧
    sealSignal (signalAuthKey keys) sid sender (offerSignal sdp auth) nonce = Ok sealedSignal ∧ message = offerMessage sid sealedSignal.

Definition sendLaw (l : list CliEvent) (e : CliEvent) : Prop :=
  match e with
  | Attempt _ | Finished => True
  | Established sid keys => Sent (connectMessage (rendezvous parsed)) ∈ l ∧ runOf sender (handle parsed) sid keys
  | Sent m =>
    (isType m "pair-request" = true → count (isSent "pair-request") l = 0%nat ∧ ∃ sid keys sealed, requested l sid keys sealed m) ∧
    (isType m "signal" = true → ∃ sid keys, agreedTo l sid keys ∧ offerOf sid keys m)
  | Decided sealed manifest' accepted => manifest' = manifest ∧ accepted = true ∧ ∃ sid keys request, Sent request ∈ l ∧ requested l sid keys sealed request
  | PeerCreated sid key => ∃ keys, key = signalAuthKey keys ∧ agreedTo l sid keys ∨ key = signalAuthKey (wipeSessionKeys keys)
  | Transfer keys manifest' => count isTransfer l = 0%nat ∧ manifest' = manifest ∧ (destroyed keys = false → ∃ sid, agreedTo l sid keys)
  end.

Lemma sendNotice l e : isNotice e = true → sendLaw l e.
Proof. intros He. destruct (notice_kinds e He) as (_ & Hr & Hs & _ & _). destruct e; try done. cbn in Hr, Hs |- *. split; congruence. Qed.

Lemma notRequest e : isNotice e = true → isSent "pair-request" e = false.
Proof. intros He. by apply notice_kinds. Qed.

Lemma requested_grows l l' sid keys sealed m : requested l sid keys sealed m → requested (l ++ l') sid keys sealed m.
Proof. intros [E R]. split; [apply elem_of_app; by left|done]. Qed.

Lemma agreedTo_grows l l' sid keys : agreedTo l sid keys → agreedTo (l ++ l') sid keys.
Proof. intros (sealed & request & m & S & R & A). exists sealed, request, m. split_and!; [apply elem_of_app; by left|by apply requested_grows|done]. Qed.

Lemma accept_verified sid keys sealed closed events : waitForPairAccept closed sid (signalAuthKey keys) sealed events = Some (Ok ()) → ∃ message, acceptOf sid keys sealed message.
Proof.
  unfold waitForPairAccept. destruct closed; [done|]. intros (before & e & after & _ & _ & He)%settle_spec. apply decisionOn_ok in He as (m & auth & _ & Hm & Ht & Hs & Ha & Hf). exists m. split_and!; [done..|]. by exists auth.
Qed.

Abbreviation live := (live sendLaw 1).
Abbreviation fresh := (fresh sendLaw 1 "pair-request").
Abbreviation fwp t Q E c := (twp cliAnswers (CI sendLaw 1) beside staysStarted t Q E c).

(** After the receiver has agreed, unless the end has wiped the keys *)
Record granted (sid : jsstr) (keys : SessionKeys) (c : Cli) : Prop := {
  gr_live : live c;
  gr_keys : cs_keys c = Some keys ∧ agreedTo (cs_log c) sid keys ∨ cs_open c = false ∧ cs_keys c = Some (wipeSessionKeys keys);
  gr_transfers : count isTransfer (cs_log c) = 0%nat
}.

Lemma granted_holds sid keys c : granted sid keys c → holds keys c.
Proof. intros [_ [[G _]|G] _]; [by left|by right]. Qed.

Lemma granted_beside sid keys c c' : live c' → beside c c' → granted sid keys c → granted sid keys c'.
Proof.
  intros Hl Hb [_ G T]. split; [done| |].
  - destruct Hb as [(l & L & _) O K _]. destruct G as [[G A]|[G1 G2]].
    + destruct K as [->|[Ho ->]]; [left; split; [done|rewrite L; by apply agreedTo_grows]|right; by rewrite G].
    + right. split; [auto|]. destruct K as [->|[_ ->]]; [done|]. rewrite G2. cbn. by rewrite wipe_wiped.
  - rewrite (count_beside isTransfer c c'); [done| |done]. intros e He. by apply notice_kinds.
Qed.

Lemma granted_with sid keys c c' l : live c' → cs_keys c' = cs_keys c → cs_open c' = cs_open c → cs_log c' = cs_log c ++ l → count isTransfer l = 0%nat → granted sid keys c → granted sid keys c'.
Proof.
  intros Hl Ek Eo E Ht [_ G T]. split; [done| |by rewrite E, count_app, T, Ht]. rewrite Ek, Eo, E. destruct G as [[G A]|G]; [left; split; [done|by apply agreedTo_grows]|by right].
Qed.

(** The keys that are read while they are granted *)
Lemma granted_keys sid keys k c : granted sid keys c → cs_keys c = Some k → cs_open c = true ∨ destroyed k = false → k = keys ∧ agreedTo (cs_log c) sid keys.
Proof.
  intros [_ [[G A]|[G1 G2]] _] Hk Ho; [split; [congruence|done]|]. destruct Ho as [Ho|Hd]; [congruence|]. rewrite G2 in Hk. injection Hk as <-. by rewrite wipeSessionKeys_destroyed in Hd.
Qed.

Lemma wp_offer sid keys (Q : () → Cli → Prop) (E : jsstr → Cli → Prop) c :
  granted sid keys c → (∀ e c', live c' → E e c') → (∀ c', granted sid keys c' → Q () c') → fwp (sendOffer sid) Q E c.
Proof.
  intros Hg HE HQ. unfold sendOffer. apply twp_bind, f_await; [apply Hg|by intros; apply HE|]. intros offer c1 Hl1 Hb1 _. apply (granted_beside _ _ _ _ Hl1 Hb1) in Hg.
  apply twp_bind, f_await; [done|by intros; apply HE|]. intros local c2 Hl2 Hb2 _. apply (granted_beside _ _ _ _ Hl2 Hb2) in Hg.
  apply twp_bind, twp_lift. destruct (requireSdp _) as [sdp|e]; [|by apply HE]. apply twp_bind, (f_theKeys sendLaw 1 keys); [by apply granted_holds in Hg|]. intros k Ek Hk.
  apply twp_bind, twp_lift. destruct (sdpAuthTag _ _ _ _ _) as [auth|e] eqn:Ea; [|by apply HE]. apply twp_bind, f_await; [done|by intros; apply HE|].
  intros sealedSignal c3 Hl3 Hb3 (nonce & Hn & Hs). pose proof (granted_beside _ _ _ _ Hl3 Hb3 Hg) as Hg3. apply f_send; [intros e _; by apply HE|]. intros Ho.
  assert (k = keys ∧ agreedTo (cs_log c3) sid keys) as [-> Ha].
  { destruct (cs_open c2) eqn:Eo2; [|by rewrite (be_open _ _ Hb3 Eo2) in Ho]. destruct (granted_keys _ _ _ _ Hg Ek) as [-> A]; [by left|]. split; [done|]. destruct Hb3 as [(l & -> & _) _ _ _]. by apply agreedTo_grows. }
  apply HQ, (granted_with sid keys c3 _ [Sent (offerMessage sid sealedSignal)]); [|done..]. apply note_live; [done| |done]. split; [done|]. intros _. exists sid, keys. split; [done|]. by exists sdp, auth, nonce, sealedSignal.
Qed.

(** From the verified consent to the end *)
Lemma wp_sendFiles sid servers keys (E : jsstr → Cli → Prop) c : granted sid keys c → (∀ e c', live c' → E e c') →
  fwp (createPeer relay nativePeer sid servers;; sendOffer sid;;
       await Connected;; modify (setWired false);; keys ← theKeys; modify (note (Transfer keys manifest));; await (SendFiles keys);;
       safeSend (bye (Some sid) "complete");; modify setCompleted) (λ _ c', live c' ∧ cs_completed c' = true) E c.
Proof.
  intros Hg HE. apply twp_bind, (f_createPeer sendLaw 1 relay nativePeer keys); [apply Hg|by apply granted_holds in Hg|done|..].
  { intros k Ek Hk. exists keys. destruct Hk as [->|[_ ->]]; [|by right]. destruct Hg as [_ [[_ A]|[_ G]] _]; [by left|right]. congruence. }
  intros k c1 Hl1 E1 Ek Eo. assert (granted sid keys c1) as Hg1 by by apply (granted_with sid keys c _ _ Hl1 Ek Eo E1). clear k E1 Ek Eo Hg.
  apply twp_bind, (wp_offer sid keys); [done|done|]. intros c2 Hg2. apply twp_bind, f_await; [apply Hg2|by intros; apply HE|]. intros [] c3 Hl3 Hb3 _. apply (granted_beside _ _ _ _ Hl3 Hb3) in Hg2.
  apply twp_bind, f_modify; [done|]. assert (granted sid keys (setWired false c3)) as Hg4 by (by apply (granted_with _ _ c3 _ []); [apply links_live| | |rewrite app_nil_r|..]).
  apply twp_bind, (f_theKeys sendLaw 1 keys); [by apply granted_holds in Hg4|]. intros k Ek _. apply twp_bind, f_note.
  assert (live (note (Transfer k manifest) (setWired false c3))) as Hl5.
  { apply note_live; [apply Hg4| |done]. split_and!; [apply Hg4|done|]. intros Hd. exists sid. by destruct (granted_keys _ _ _ _ Hg4 Ek) as [-> A]; [right|]. }
  apply twp_bind, f_await; [done|by intros; apply HE|]. intros [] c6 Hl6 Hb6 _. apply twp_bind, f_notice; [apply sendNotice|done|done|]. intros c7 Hl7 Hb7.
  apply f_modify; [done|]. split; [|done]. apply completed_live; [done|]. exists k, manifest. apply (logged_beside _ _ _ Hb7), (logged_beside _ _ _ Hb6), logged_note.
Qed.

(** From the confirmed keys to the end *)
Lemma wp_pairing sid keys (E : jsstr → Cli → Prop) c : fresh 0 c → holds keys c → Established sid keys ∈ cs_log c → (∀ e c', live c' → E e c') →
  fwp (publicManifest ← lift (redactManifestForSignaling manifest);
       sealedManifest ← await (SealManifest keys manifest);
       sendMessage (pairRequestMessage sid (manifestValue publicManifest) sealedManifest);;
       keys ← theKeys;
       await (WaitPairAccept sid (signalAuthKey keys) sealedManifest);;
       modify (note (Decided sealedManifest manifest true));;
       iceServers ← getIceServersAfterAccept useServerIce;
       modify (setIce iceServers);;
       createPeer relay nativePeer sid iceServers;; sendOffer sid;;
       await Connected;; modify (setWired false);; keys ← theKeys; modify (note (Transfer keys manifest));; await (SendFiles keys);;
       safeSend (bye (Some sid) "complete");; modify setCompleted) (λ _ c', live c' ∧ cs_completed c' = true) E c.
Proof.
  intros Hf Hk He HE. apply twp_bind, twp_lift. destruct (redactManifestForSignaling manifest) as [public|e] eqn:Ep; [|by apply HE, Hf].
  apply twp_bind, f_await; [apply Hf|by intros; apply HE|]. intros sealed c1 Hl1 Hb1 (nonce & Hn & Hs).
  pose proof (fresh_beside _ _ _ notRequest _ _ _ Hl1 Hb1 Hf) as Hf1. pose proof (logged_beside _ _ _ Hb1 He) as He1. pose proof (holds_beside _ _ _ Hb1 Hk) as Hk1.
  apply twp_bind, f_send; [intros e _; by apply HE, Hf1|]. intros _. set (m := pairRequestMessage sid (manifestValue public) sealed).
  assert (requested (cs_log c1) sid keys sealed m) as Hr by (split; [done|by exists nonce, public]). assert (live (note (Sent m) c1)) as Hl2.
  { apply note_live; [done| |done]. split; [|done]. intros _. split; [apply Hf1|by exists sid, keys, sealed]. }
  assert (Sent m ∈ cs_log (note (Sent m) c1) ∧ requested (cs_log (note (Sent m) c1)) sid keys sealed m) as Hreq by (split; [apply logged_note|by apply requested_grows]).
  assert (count isTransfer (cs_log (note (Sent m) c1)) = 0%nat) as Ht2 by (change (cs_log (note (Sent m) c1)) with (cs_log c1 ++ [Sent m]); by rewrite count_app, (fr_transfers _ _ _ _ _ Hf1)).
  assert (holds keys (note (Sent m) c1)) as Hk2 by exact Hk1. set (c2 := note (Sent m) c1) in *. clearbody c2 m.
  apply twp_bind, (f_theKeys sendLaw 1 keys); [done|]. intros k Ek Hkeys. apply twp_bind, f_await; [done|by intros; apply HE|]. intros [] c3 Hl3 Hb3 Hans. apply twp_bind, f_note.
  assert (granted sid keys (note (Decided sealed manifest true) c3)) as Hg.
  { pose proof (holds_beside _ _ _ Hb3 Hk2) as Hk3. destruct Hreq as [Hm Hreq], Hb3 as [(l & L & Hl) Hop Hke _]. split.
    - apply note_live; [done| |done]. split_and!; [done|done|]. exists sid, keys, m. rewrite L. split; [apply elem_of_app; by left|by apply requested_grows].
    - destruct Hk3 as [Hk3|Hk3]; [|by right]. left. split; [done|]. assert (k = keys) as ->.
      { destruct Hkeys as [->|[_ ->]]; [done|]. destruct Hke as [Hke|[Ho Hke]]; rewrite Hk3, Ek in Hke; cbn in Hke; rewrite ?wipe_wiped in Hke; congruence. }
      destruct Hans as (closed & events & Hw); [by exists keys|]. destruct (accept_verified _ _ _ _ _ Hw) as [a Ha]. exists sealed, m, a.
      change (cs_log (note (Decided sealed manifest true) c3)) with (cs_log c3 ++ [Decided sealed manifest true]). rewrite L.
      split_and!; [apply elem_of_app; left; apply elem_of_app; by left|by do 2 apply requested_grows|done].
    - change (cs_log (note (Decided sealed manifest true) c3)) with (cs_log c3 ++ [Decided sealed manifest true]). rewrite L, !count_app, Ht2, (count_notices isTransfer l); [done| |done]. intros e' He'. by apply notice_kinds. }
  apply twp_bind, f_ice; [apply Hg|by intros; apply HE|]. intros servers c4 Hl4 Hb4. apply (granted_beside _ _ _ _ Hl4 Hb4) in Hg. apply twp_bind, f_modify; [done|].
  apply (wp_sendFiles sid servers keys E (setIce servers c4)); [|done]. by apply (granted_with _ _ c4 _ []); [apply vars_live; [by left|]| | |rewrite app_nil_r|..].
Qed.

Lemma wp_send : bodyWp sendLaw 1 (sendBody useServerIce relay nativePeer parsed manifest).
Proof.
  intros c Hl Hlog. pose proof (fresh_start _ _ "pair-request" 1 c Hl Hlog (le_n 1)) as Hf. apply twp_bind, f_send; [by intros e _|]. intros _. set (m := connectMessage (rendezvous parsed)).
  assert (fresh 1 (note (Sent m) c)) as Hf1 by (apply (fresh_note _ _ _ 1); [done|by split|done|done|done]). assert (Sent m ∈ cs_log (note (Sent m) c)) as Hm by apply logged_note.
  set (c1 := note (Sent m) c) in *. clearbody c1. apply twp_bind, f_waitMessage; [apply Hf1|by intros|]. intros joined c2 Hl2 Hb2. apply twp_bind, twp_lift.
  pose proof (fresh_beside _ _ _ notRequest _ _ _ Hl2 Hb2 Hf1) as Hf2. pose proof (logged_beside _ _ _ Hb2 Hm) as Hm2. destruct (match field joined "sid" with JStr s => Ok s | _ => _ end) as [sid|e]; [|done].
  apply twp_bind, f_modify; [done|]. apply twp_bind, f_note. set (c3 := note (Attempt sid) (setSession (Some sid) (cs_keys c2) c2)).
  assert (fresh 0 c3) as Hf3 by (apply (fresh_note _ _ _ 1); [apply fresh_session; [by left|done]|done..]). assert (Sent m ∈ cs_log c3) as Hm3 by (apply elem_of_app; by left). clearbody c3.
  apply twp_bind, f_await; [apply Hf3|by intros|]. intros keys c4 Hl4 Hb4 Hans. pose proof (fresh_beside _ _ _ notRequest _ _ _ Hl4 Hb4 Hf3) as Hf4. pose proof (logged_beside _ _ _ Hb4 Hm3) as Hm4.
  apply twp_bind, f_note, twp_bind, f_modify; [done|]. apply (wp_pairing sid keys); [|by left|apply logged_note|done].
  apply fresh_session; [by apply (established_keys sid); exists (cs_log c4)|]. apply (fresh_note _ _ _ 0); [done| |done|done|done]. split; [done|]. by apply Hans.
Qed.

(** C16. Whatever the server and the peer send, whenever the user interrupts and
    connections close: the sender makes one attempt, under the code it was given;
    the request it announces is the redacted form of the manifest it prepared and
    that manifest sealed under the keys of the confirmed exchange; it sends an
    offer, and starts the transfer with keys that are not wiped, only after a
    consent of the receiver whose tag verifies under these keys for what was
    sealed; it transfers once, and ends without an error only after that; and the
    end closes both connections and wipes the keys there are, with the same
    exception for an exchange that a body still running finishes after it. *)
Theorem sender_waits_for_consent c : sending useServerIce relay nativePeer initialIce parsed manifest c →
  (∀ before e after, cs_log (shared c) = before ++ e :: after → sendLaw before e) ∧
  (count isAttempt (cs_log (shared c)) <= 1)%nat ∧
  (cs_ended (shared c) = Some (Ok ()) → ∃ keys manifest, Transfer keys manifest ∈ cs_log (shared c)) ∧
  (is_Some (cs_finished (shared c)) → cs_open (shared c) = false ∧ cs_peerOpen (shared c) = false) ∧
  (cs_finished (shared c) = Some true → ∀ keys, cs_keys (shared c) = Some keys → destroyed keys = true) ∧
  (is_Some (cs_finished (shared c)) → ∃ before after, cs_log (shared c) = before ++ Finished :: after ∧
    ∀ keys, cs_keys (shared c) = Some keys → destroyed keys = true ∨ ∃ sid, Established sid keys ∈ after).
Proof. intros Hr. by apply (session_result sendLaw sendNotice 1 useServerIce true initialIce _ c wp_send). Qed.

End Send.

(** ** Two sessions that complete *)

#[local] Existing Instances plainCrypto decimalNumbers noUrls asciiCase twoWords.

Definition sampleParsed : ParsedCode := {| handle := testCode; rendezvous := js "123456789012"; secret := js "apple-anchor" |}.
Definition sampleFiles : jsval := manifestValue twoFiles.

(** The share and the confirmation of a peer, the keys of the other side, what the
    sender seals and the receiver's consent *)
Definition peerShare (role : PakeRole) (code sid : jsstr) : result jsstr :=
  share ← ownPakeShareB64 (startedState (otherRole role) code sid PROTOCOL_VERSION 0); Ok (jsonStringify (pakeShareMessage share)).
Definition sampleKeys (role : PakeRole) (code sid : jsstr) : result SessionKeys :=
  match establishKeys (λ _, Ok ()) sid role code 0 (peerShare role code sid) (Ok (bytesToBase64 (zeros 32))) with Ok (Done keys _) => Ok keys | _ => throw "Failed." end.
Definition sampleRequest : jsstr := sealedBy (keys ← sampleKeys sender testCode testSid; sealManifest keys sampleFiles (zeros 12)).
Definition sampleConsent : jsval := obj [(js "type", jstr "pair-accept"); (js "sid", JStr testSid); (js "auth", JStr (bytesToBase64 (zeros 32)))].

(** A server that delivers, and a user who agrees *)
Definition sampleMessage (type : string) : jsval :=
  if bool_decide (type = "registered"%string) then obj [(js "type", jstr "registered"); (js "code", jstr "123456789012"); (js "expiresInSec", jint 600)]
  else if bool_decide (type = "peer-joined"%string) then obj [(js "type", jstr "peer-joined"); (js "sid", JStr testSid)]
  else pairRequestMessage testSid (manifestValue constantPublicManifest) sampleRequest.
Definition sampleWait (type : string) (sid : option jsstr) : Waited :=
  match waitForMessage false false (jstr type) (jint 1000) (match sid with Some sid => JStr sid | None => JUndefined end) [WMessage (sampleMessage type)] with Some (Ok m) => Got m | _ => WaitTimedOut end.
Definition sampleOracle (B : Type) (o : cli_op B) (c : Cli) : result B :=
  match o in cli_op B return result B with
  | WaitMessage type sid => Ok (sampleWait type sid)
  | WaitPairAccept sid key sealed => default (throw "Waiting.") (waitForPairAccept false sid key sealed [WMessage sampleConsent; WClosed])
  | EstablishKeys sid role code => sampleKeys role code sid
  | SealManifest keys manifest => sealManifest keys manifest (zeros 12)
  | OpenManifest keys sealed => openManifest keys (JStr sealed)
  | GenerateCode => Ok testCode
  | AskUser _ => Ok true
  | CreateOffer => Ok (Some (js "v=0"))
  | SetLocalOffer sdp => Ok sdp
  | SealOffer key sid signal => sealSignal key sid sender signal (zeros 12)
  | Connected | CloseFiles | ReceiveFiles _ _ | SendFiles _ => Ok ()
  end.

Lemma sampleDecision sid key sealed : is_Some (waitForPairAccept false sid key sealed [WMessage sampleConsent; WClosed]).
Proof. unfold waitForPairAccept. generalize (WMessage sampleConsent). intros e. cbn [settle]. by destruct (decisionOn _ _ _ e). Qed.

Lemma sampleOracle_answers B (o : cli_op B) c : cliAnswers B o c (sampleOracle B o c).
Proof.
  destruct o as [type sid|sid key sealed|sid role code|keys manifest| | | | | |key sid signal| | | |]; try done; cbn [cliAnswers sampleOracle].
  - intros message [=Hm]. unfold sampleWait in Hm. destruct (waitForMessage _ _ _ _ _ _) as [[m|]|] eqn:E; try done. injection Hm as <-. by eexists _, _, _.
  - intros _. exists false, [WMessage sampleConsent; WClosed]. by destruct (sampleDecision sid key sealed) as [r ->].
  - unfold sampleKeys. intros keys Hk. destruct (establishKeys _ _ _ _ _ _ _) as [[k out| |]|] eqn:E; try done. injection Hk as <-. by eexists _, _, _, _, _.
  - exists (zeros 12). split; [by apply zeros_size|done].
  - exists (zeros 12). split; [by apply zeros_size|done].
Qed.

Definition settled (c : Cli) : config (op := cli_op) (S := Cli) := {| shared := c; foreground := None; background := [] |}.

(** The session and its [finally] *)
Definition sampleRun (sendsFiles : bool) (body : task cli_op Cli ()) : Cli :=
  (exec sampleOracle (finish sendsFiles) (exec sampleOracle (session body) (newCli [])).2).2.

Lemma sampleRun_reachable sendsFiles body :
  cs_disposed (exec sampleOracle (session body) (newCli [])).2 = false → is_Some (cs_ended (exec sampleOracle (session body) (newCli [])).2) →
  cliReachable false [] sendsFiles body (settled (sampleRun sendsFiles body)).
Proof.
  intros Hd He. unfold cliReachable, reachable. etransitivity; [apply (exec_start sampleOracle); [exact sampleOracle_answers|done]|].
  apply (exec_launch sampleOracle); [exact sampleOracle_answers|]. apply event_finish; [done|by left].
Qed.

Definition sampleReceiver : Cli := sampleRun false (recvBody false false (λ _, Ok ()) None).
Definition sampleSender : Cli := sampleRun true (sendBody false false (λ _, Ok ()) sampleParsed sampleFiles).

(** What the logs hold: the attempts, the messages of a type, the transfers *)
Definition tally (type : string) (c : Cli) : nat * nat * nat := (count isAttempt (cs_log c), count (isSent type) (cs_log c), count isTransfer (cs_log c)).

Lemma receiver_consents_first_witness :
  receiving false false (λ _, Ok ()) [] None (settled sampleReceiver) ∧
  (cs_ended sampleReceiver = Some (Ok ()) ∧ cs_finished sampleReceiver = Some true ∧ tally "pair-accept" sampleReceiver = (1, 1, 1)%nat) ∧
  ∀ before e after, cs_log (shared (settled sampleReceiver)) = before ++ e :: after → recvLaw before e.
Proof.
  assert (Hr : receiving false false (λ _, Ok ()) [] None (settled sampleReceiver)).
  { apply sampleRun_reachable; [vm_compute; reflexivity|exists (Ok ()); vm_compute; reflexivity]. }
  split; [exact Hr|]. split; [by vm_compute|]. exact (proj1 (receiver_consents_first false false (λ _, Ok ()) [] None _ Hr)).
Defined.

Lemma sender_waits_for_consent_witness :
  sending false false (λ _, Ok ()) [] sampleParsed sampleFiles (settled sampleSender) ∧
  (cs_ended sampleSender = Some (Ok ()) ∧ cs_finished sampleSender = Some true ∧ tally "pair-request" sampleSender = (1, 1, 1)%nat) ∧
  ∀ before e after, cs_log (shared (settled sampleSender)) = before ++ e :: after → sendLaw sampleParsed sampleFiles before e.
Proof.
  assert (Hs : sending false false (λ _, Ok ()) [] sampleParsed sampleFiles (settled sampleSender)).
  { apply sampleRun_reachable; [vm_compute; reflexivity|exists (Ok ()); vm_compute; reflexivity]. }
  split; [exact Hs|]. split; [by vm_compute|]. exact (proj1 (sender_waits_for_consent false false (λ _, Ok ()) [] sampleParsed sampleFiles _ Hs)).
Defined.
