(* ===== verification/ServerState.v ===== *)
(** * ServerState: the state of the signalling server
    ([src/server/index.ts]) and the primitive operations on it.

    A [Peer] object is known by its id: [peersBySocket] and every reference to
    a peer hold the id, and [peers] is the store of the objects.  Session and
    waiting-code objects are shared by reference only through their maps, so a
    write to one is a write to its map entry.

    The WebSocket library, the serializer of messages, the configured ICE
    servers, the clock and [nanoid] are interfaces: classes with the documented
    behaviour the code relies on as laws. *)
From S2P Require Import Prelude.
From S2P Require Import Constants.
From S2P Require Import JsText.
From S2P Require Import RateLimit.
From S2P Require Import Protocol.
From S2P Require Import Policy.
From S2P Require Import Admission.
#[local] Open Scope Z_scope.

(** ** Interfaces *)

(** The [ws] library's WebSocket: an abstract socket state, its [readyState]
    and [bufferedAmount] ([None]: not a finite number), and the calls the server
    makes.  The boolean of a call is [false] when it throws.  After [close]
    returns and after [terminate] the socket is not open, and no call reopens a
    socket. *)
Class WsLib := {
  sock : Type;
  readyState : sock → ReadyState;
  bufferedAmount : sock → option Z;
  ws_send : jsstr → sock → bool * sock;
  ws_close : Z → jsstr → sock → bool * sock;
  ws_ping : sock → bool * sock;
  ws_terminate : sock → sock;
  deadSock : sock;
  deadSock_closed : readyState deadSock = CLOSED;
  ws_send_open data s : readyState (ws_send data s).2 = OPEN → readyState s = OPEN;
  ws_close_open c r s : readyState (ws_close c r s).2 = OPEN → readyState s = OPEN;
  ws_close_not_open c r s : (ws_close c r s).1 = true → readyState (ws_close c r s).2 ≠ OPEN;
  ws_ping_open s : readyState (ws_ping s).2 = OPEN → readyState s = OPEN;
  ws_terminate_not_open s : readyState (ws_terminate s) ≠ OPEN
}.

(** [serializeMessage] of [src/shared/messages.ts]: a text frame, or it throws. *)
Class Serializer := { serializeMessage : ServerMessage → result jsstr }.

(** [hasTurnRestConfig] and [iceServersForRequest] of [src/server/config.ts]
    on the loaded configuration, at a random draw and a time. *)
Class IceProvider := {
  hasTurnRest : bool;
  iceServersForRequest : nat → Z → list IceServer
}.

(** [Date.now()] at each reading, and the ids [nanoid] returns, by length and
    draw: they are not empty and do not
    repeat. *)
Class Environment := {
  clock : nat → Z;
  nanoid : Z → nat → jsstr;
  nanoid_inj n i j : nanoid n i = nanoid n j → i = j;
  nanoid_nonempty n i : 0 < n → nanoid n i ≠ []
}.

(** ** State *)

(** [Peer] *)
Record Peer `{WsLib} := mkPeer {
  p_ws : sock;
  p_ip : jsstr;
  p_role : option Role;
  p_sid : option jsstr;
  p_code : option jsstr;
  p_badMessages : Z;
  p_messageTimes : list Z;
  p_idleTimer : bool;
  p_closeTimer : bool;
  p_awaitingHeartbeatPong : bool;
  p_connectionReleased : bool
}.

(** [WaitingCode]; the receiver by its id *)
Record WaitingCode := {
  wc_code : jsstr;
  wc_receiver : jsstr;
  wc_expiresAt : Z;
  wc_attempts : Z
}.

(** [Session]: the relay policy part holds sid, sender, receiver, the flags and
    the candidate counts. *)
Record Session := {
  s_policy : RelayPolicySession;
  s_code : jsstr;
  s_codeExpiresAt : Z;
  s_expiresAt : Z;
  s_attempts : Z
}.

Abbreviation s_sid s := (rp_sid (s_policy s)).
Abbreviation s_sender s := (rp_sender (s_policy s)).
Abbreviation s_receiver s := (rp_receiver (s_policy s)).

(** What the server does to the outside world. *)
Inductive Effect :=
| Sent (p : jsstr) (m : ServerMessage)
| Closed (p : jsstr) (code : Z) (reason : jsstr)
| Terminated (p : jsstr)
| Pinged (p : jsstr).

(** The module-level variables of index.ts; [log] is newest first, [ticks] and
    [ids] count the readings of the clock and of [nanoid]. *)
Record Server `{WsLib} := mkServer {
  peers : jsstr → Peer;
  codes : gmap jsstr WaitingCode;
  sessions : gmap jsstr Session;
  rateLimits : gmap jsstr (list Z);
  turnIssueRateLimits : gmap jsstr (list Z);
  activeConnections : gmap jsstr Z;
  peersBySocket : list jsstr;
  ticks : nat;
  ids : nat;
  log : list Effect
}.

Section State.
Context `{WsLib, Environment}.

Abbreviation M := (ST Server).

(** *** Field writes *)

Definition set_peers (f : (jsstr → Peer) → jsstr → Peer) (st : Server) : Server :=
  mkServer _ (f (peers st)) (codes st) (sessions st) (rateLimits st) (turnIssueRateLimits st)
    (activeConnections st) (peersBySocket st) (ticks st) (ids st) (log st).
Definition set_codes (f : gmap jsstr WaitingCode → gmap jsstr WaitingCode) (st : Server) : Server :=
  mkServer _ (peers st) (f (codes st)) (sessions st) (rateLimits st) (turnIssueRateLimits st)
    (activeConnections st) (peersBySocket st) (ticks st) (ids st) (log st).
Definition set_sessions (f : gmap jsstr Session → gmap jsstr Session) (st : Server) : Server :=
  mkServer _ (peers st) (codes st) (f (sessions st)) (rateLimits st) (turnIssueRateLimits st)
    (activeConnections st) (peersBySocket st) (ticks st) (ids st) (log st).
Definition set_limits (f : gmap jsstr (list Z) → gmap jsstr (list Z)) (st : Server) : Server :=
  mkServer _ (peers st) (codes st) (sessions st) (f (rateLimits st)) (turnIssueRateLimits st)
    (activeConnections st) (peersBySocket st) (ticks st) (ids st) (log st).
Definition set_turnLimits (f : gmap jsstr (list Z) → gmap jsstr (list Z)) (st : Server) : Server :=
  mkServer _ (peers st) (codes st) (sessions st) (rateLimits st) (f (turnIssueRateLimits st))
    (activeConnections st) (peersBySocket st) (ticks st) (ids st) (log st).
Definition set_connections (f : gmap jsstr Z → gmap jsstr Z) (g : list jsstr → list jsstr) (st : Server) : Server :=
  mkServer _ (peers st) (codes st) (sessions st) (rateLimits st) (turnIssueRateLimits st)
    (f (activeConnections st)) (g (peersBySocket st)) (ticks st) (ids st) (log st).
Definition set_counters (t i : nat) (st : Server) : Server :=
  mkServer _ (peers st) (codes st) (sessions st) (rateLimits st) (turnIssueRateLimits st)
    (activeConnections st) (peersBySocket st) (t + ticks st) (i + ids st) (log st).
Definition set_log (e : Effect) (st : Server) : Server :=
  mkServer _ (peers st) (codes st) (sessions st) (rateLimits st) (turnIssueRateLimits st)
    (activeConnections st) (peersBySocket st) (ticks st) (ids st) (e :: log st).

(** Writing the object of peer [p]. *)
Definition upd (p : jsstr) (f : Peer → Peer) (st : Server) : Server :=
  set_peers (λ ps q, if decide (q = p) then f (ps q) else ps q) st.

Definition p_setWs (w : sock) (x : Peer) : Peer :=
  mkPeer _ w (p_ip x) (p_role x) (p_sid x) (p_code x) (p_badMessages x) (p_messageTimes x)
    (p_idleTimer x) (p_closeTimer x) (p_awaitingHeartbeatPong x) (p_connectionReleased x).
Definition p_setLink (r : option Role) (s c : option jsstr) (x : Peer) : Peer :=
  mkPeer _ (p_ws x) (p_ip x) r s c (p_badMessages x) (p_messageTimes x)
    (p_idleTimer x) (p_closeTimer x) (p_awaitingHeartbeatPong x) (p_connectionReleased x).
Definition p_setMessages (bad : Z) (times : list Z) (x : Peer) : Peer :=
  mkPeer _ (p_ws x) (p_ip x) (p_role x) (p_sid x) (p_code x) bad times
    (p_idleTimer x) (p_closeTimer x) (p_awaitingHeartbeatPong x) (p_connectionReleased x).
Definition p_setTimers (idle close : bool) (x : Peer) : Peer :=
  mkPeer _ (p_ws x) (p_ip x) (p_role x) (p_sid x) (p_code x) (p_badMessages x) (p_messageTimes x)
    idle close (p_awaitingHeartbeatPong x) (p_connectionReleased x).
Definition p_setPong (b : bool) (x : Peer) : Peer :=
  mkPeer _ (p_ws x) (p_ip x) (p_role x) (p_sid x) (p_code x) (p_badMessages x) (p_messageTimes x)
    (p_idleTimer x) (p_closeTimer x) b (p_connectionReleased x).
Definition p_setReleased (b : bool) (x : Peer) : Peer :=
  mkPeer _ (p_ws x) (p_ip x) (p_role x) (p_sid x) (p_code x) (p_badMessages x) (p_messageTimes x)
    (p_idleTimer x) (p_closeTimer x) (p_awaitingHeartbeatPong x) b.

(** *** Reads *)

Definition peer (st : Server) (p : jsstr) : Peer := peers st p.
Definition isOpen (st : Server) (p : jsstr) : bool := bool_decide (readyState (p_ws (peer st p)) = OPEN).

(** [Date.now()] *)
Definition dateNow : M Z := λ st, Done (clock (ticks st)) (set_counters 1 0 st).
(** [nanoid(size)] *)
Definition drawId (size : Z) : M jsstr := λ st, Done (nanoid size (ids st)) (set_counters 0 1 st).

Definition mapSize {A} (m : gmap jsstr A) : Z := Z.of_nat (size m).

(** *** Operations that do not send *)

(** [clearPeerSessionState] *)
Definition clearPeerSessionState (p : jsstr) : M () := st_modify (upd p (p_setLink None None None)).

(** [clearIdleTimer] *)
Definition clearIdleTimer (p : jsstr) : M () :=
  st_modify (upd p (λ x, p_setTimers false (p_closeTimer x) x)).

(** [clearCloseTimer] *)
Definition clearCloseTimer (p : jsstr) : M () :=
  st_modify (upd p (λ x, p_setTimers (p_idleTimer x) false x)).

(** [scheduleCloseTermination]: arms the close timer if it is not armed. *)
Definition scheduleCloseTermination (p : jsstr) : M () :=
  st_modify (upd p (λ x, p_setTimers (p_idleTimer x) true x)).

(** [peer.ws.terminate()] *)
Definition terminate (p : jsstr) : M () :=
  st_modify (λ st, set_log (Terminated p) (upd p (λ x, p_setWs (ws_terminate (p_ws x)) x) st)).

(** [wireCloseReason] *)
Definition wireCloseReason (code : Z) : jsstr :=
  if code =? 1001 then js "server shutdown"
  else if code =? 1008 then js "policy violation"
  else js "closed".

(** [peer.ws.close(code, reason)]: whether it returned. *)
Definition wsClose (p : jsstr) (code : Z) (reason : jsstr) : M bool := λ st,
  let r := ws_close code reason (p_ws (peer st p)) in
  Done r.1 ((if r.1 then set_log (Closed p code reason) else id) (upd p (p_setWs r.2) st)).

(** [closePeerWithCode]; its [reason] parameter is not used by the source
    either. *)
Definition closePeerWithCode (p : jsstr) (code : Z) : M () :=
  st ← st_get;
  if decide (readyState (p_ws (peer st p)) = CLOSED) then mret ()
  else
    closed ← wsClose p code (websocketCloseReason (wireCloseReason code));
    if (closed : bool) then scheduleCloseTermination p else terminate p.

(** [addActiveConnection] *)
Definition addActiveConnection (p : jsstr) : M () :=
  st_modify (λ st, set_connections (<[p_ip (peer st p) := default 0 (activeConnections st !! p_ip (peer st p)) + 1]>) id st).

(** [releaseActiveConnection] *)
Definition releaseActiveConnection (p : jsstr) (keepCloseTimer : bool) : M () :=
  st ← st_get;
  if p_connectionReleased (peer st p) then mret ()
  else
    st_modify (upd p (p_setReleased true));;
    st_modify (set_connections id (filter (λ q, q ≠ p)));;
    clearIdleTimer p;;
    (if keepCloseTimer then mret () else clearCloseTimer p);;
    st_modify (λ st,
      let ip := p_ip (peer st p) in
      let count := default 0 (activeConnections st !! ip) in
      set_connections (if count <=? 1 then delete ip else <[ip := count - 1]>) id st).

(** [closePeerWithCodeAndRelease] *)
Definition closePeerWithCodeAndRelease (p : jsstr) (code : Z) : M () :=
  closePeerWithCode p code;; releaseActiveConnection p true.

(** [closePeer] and [closePeerAndRelease] *)
Definition closePeer (p : jsstr) : M () := closePeerWithCode p 1000.
Definition closePeerAndRelease (p : jsstr) : M () := closePeer p;; releaseActiveConnection p true.

(** [closeSessionPeers] *)
Definition closeSessionPeers (s : Session) : M () :=
  st_modify (set_sessions (delete (s_sid s)));;
  clearPeerSessionState (s_sender s);;
  clearPeerSessionState (s_receiver s);;
  closePeerAndRelease (s_sender s);;
  closePeerAndRelease (s_receiver s).

(** [peerAcceptsClientMessages] *)
Definition peerAcceptsClientMessages (st : Server) (p : jsstr) : bool :=
  isOpen st p && negb (p_closeTimer (peer st p)) && negb (p_connectionReleased (peer st p)).

(** [peerLeftReason] *)
Definition peerLeftReason (reason : jsstr) : jsstr :=
  if decide (reason = js "complete") then js "complete"
  else if decide (reason = js "cancelled") then js "cancelled"
  else if decide (reason = js "bye") then js "bye"
  else js "closed".

(** [peerVisibleByeReason] *)
Definition peerVisibleByeReason (reason : option jsstr) : jsstr :=
  if decide (reason = Some (js "complete")) then js "complete"
  else if decide (reason = Some (js "cancelled")) then js "cancelled"
  else js "bye".

(** The receiver of the entry of [code], if there is an entry. *)
Definition waitingReceiver (st : Server) (code : jsstr) : option jsstr :=
  wc_receiver <$> codes st !! code.

End State.

Arguments Server {_}.
Arguments Peer {_}.
