(* ===== verification/Server.v ===== *)
(** * Server: the signalling hub of [src/server/index.ts].

    Sending a message can fail; a failed send cleans the peer up, which can
    restore or end a session, which sends further messages.  The source's
    mutual recursion is opened on [send]: every function of the cluster takes
    the [send] it calls, [sendFuel] closes the knot, and [send] runs with one
    unit of fuel per live session and one more.  [ServerInv] proves that this
    fuel always suffices and that [send] satisfies the source's own equation.

    The handlers follow the source's order of checks and effects.  An [Event]
    is a callback of the runtime: a connection, a message, a timer, an interval,
    a socket event. *)
From S2P Require Import Prelude.
From S2P Require Import Constants.
From S2P Require Import JsText.
From S2P Require Import Wordlist.
From S2P Require Import RateLimit.
From S2P Require Import Protocol.
From S2P Require Import Policy.
From S2P Require Import Admission.
From S2P Require Import ServerState.
#[local] Open Scope Z_scope.

(** [manifestWithinLimits] of index.ts ([assertManifestWithinLimits] of
    [src/shared/limits.ts] does not throw) and
    [publicPairRequestManifestIsRedacted] of [src/shared/public-manifest.ts];
    [System] gives the instance of the program. *)
Class ManifestRules := {
  manifestWithinLimits : FileManifest → bool;
  publicPairRequestManifestIsRedacted : FileManifest → bool
}.

(** ** The recursive cluster, open on [send] *)
Section Cluster.
Context `{WsLib, Serializer, Environment}.
Abbreviation M := (ST Server).
Variable send : jsstr → ServerMessage → M bool.

(** [fail] *)
Definition fail (p : jsstr) (code : ErrorCode) (message : jsstr) : M () :=
  send p (SError code message);; mret ().

(** [notifyPeerLeft] *)
Definition notifyPeerLeft (s : Session) (leaving : option jsstr) (reason : jsstr) : M () :=
  st_iter (λ p,
    if decide (Some p = leaving) then mret ()
    else send p (SPeerLeft (s_sid s) (peerLeftReason reason));; mret ())
    [s_sender s; s_receiver s].

(** [expireReceiverAfterPrePairAttempts] *)
Definition expireReceiverAfterPrePairAttempts (s : Session) (existing : option WaitingCode) : M () :=
  (match existing with
   | Some entry => st_modify (set_codes (delete (wc_code entry)))
   | None => mret ()
   end);;
  notifyPeerLeft s (Some (s_sender s)) (js "too many invalid pairing attempts");;
  clearPeerSessionState (s_sender s);;
  clearPeerSessionState (s_receiver s);;
  fail (s_receiver s) expired (js "Receive code expired after too many invalid pairing attempts.");;
  closePeerAndRelease (s_sender s);;
  closePeerAndRelease (s_receiver s).

(** [sendRestoredRegistration] *)
Definition sendRestoredRegistration (s : Session) (expiresAt : Z) : M () :=
  now ← dateNow;
  sent ← send (s_receiver s) (SRegistered (s_code s) (remainingExpirySeconds expiresAt now));
  if (sent : bool) then mret ()
  else
    st ← st_get;
    st_when (bool_decide (waitingReceiver st (s_code s) = Some (s_receiver s)))
      (st_modify (set_codes (delete (s_code s))));;
    clearPeerSessionState (s_receiver s);;
    closePeerAndRelease (s_receiver s).

(** The three writes to the receiver that make it wait for its code again. *)
Definition receiverWaitsAgain (s : Session) : M () :=
  st_modify (upd (s_receiver s) (p_setLink (Some receiver) None (Some (s_code s)))).

(** [restoreWaitingReceiver] *)
Definition restoreWaitingReceiver (s : Session) (reason : jsstr) (notifyReceiver : bool) : M () :=
  st ← st_get;
  match codes st !! s_code s with
  | Some existing =>
    st_modify (set_sessions (delete (s_sid s)));;
    if decide (wc_receiver existing = s_receiver s) then
      clearPeerSessionState (s_sender s);;
      receiverWaitsAgain s;;
      let remaining := Z.min (wc_attempts existing) (s_attempts s) in
      let existing := {| wc_code := wc_code existing; wc_receiver := wc_receiver existing;
                         wc_expiresAt := wc_expiresAt existing; wc_attempts := remaining |} in
      st_modify (set_codes (<[s_code s := existing]>));;
      if negb (canRestorePrePairCode remaining) then
        expireReceiverAfterPrePairAttempts s (Some existing)
      else
        st_when notifyReceiver (notifyPeerLeft s (Some (s_sender s)) reason);;
        closePeerAndRelease (s_sender s);;
        sendRestoredRegistration s (wc_expiresAt existing)
    else
      notifyPeerLeft s None (js "rendezvous_conflict");;
      closeSessionPeers s
  | None =>
    st_modify (set_sessions (delete (s_sid s)));;
    clearPeerSessionState (s_sender s);;
    receiverWaitsAgain s;;
    if negb (canRestorePrePairCode (s_attempts s)) then
      expireReceiverAfterPrePairAttempts s None
    else
      st_modify (set_codes (<[s_code s :=
        {| wc_code := s_code s; wc_receiver := s_receiver s;
           wc_expiresAt := s_codeExpiresAt s; wc_attempts := s_attempts s |}]>));;
      st_when notifyReceiver (notifyPeerLeft s (Some (s_sender s)) reason);;
      closePeerAndRelease (s_sender s);;
      sendRestoredRegistration s (s_codeExpiresAt s)
  end.

(** The session field a peer id names, [session[id]]. *)
Definition sessionPeer (s : Session) (p : Role) : jsstr :=
  match p with sender => s_sender s | receiver => s_receiver s end.

(** [endSession] *)
Definition endSession (s : Session) (reason : jsstr) (leavingPeerId : option Role) : M () :=
  st_modify (set_sessions (delete (s_sid s)));;
  let leaving := sessionPeer s <$> leavingPeerId in
  let remaining := sessionPeer s <$> (otherSessionPeerId <$> leavingPeerId) in
  notifyPeerLeft s leaving reason;;
  clearPeerSessionState (s_sender s);;
  clearPeerSessionState (s_receiver s);;
  match remaining with Some p => closePeerAndRelease p | None => mret () end.

(** [cleanupPeer] *)
Definition cleanupPeer (p : jsstr) (reason : jsstr) : M () :=
  st ← st_get;
  (match p_code (peer st p) with
   | Some c => st_when (bool_decide (waitingReceiver st c = Some p)) (st_modify (set_codes (delete c)))
   | None => mret ()
   end);;
  match p_sid (peer st p) ≫= λ sid, sessions st !! sid with
  | None => mret ()
  | Some s =>
    if senderDisconnectCanRestoreReceiver (s_policy s) p then
      restoreWaitingReceiver s (js "disconnected") true
    else
      match sessionPeerId (s_policy s) p with
      | None => mret ()
      | Some peerId => endSession s reason (Some peerId)
      end
  end.

(** [closePeerForSendFailure] *)
Definition closePeerForSendFailure (p : jsstr) (reason : jsstr) : M () :=
  cleanupPeer p reason;; closePeerAndRelease p.

(** [peer.ws.send(data)] *)
Definition wsSend (p : jsstr) (m : ServerMessage) (data : jsstr) : M () := λ st,
  let r := ws_send data (p_ws (peer st p)) in
  let st' := upd p (p_setWs r.2) st in
  if r.1 then Done () (set_log (Sent p m) st') else Raised [] st'.

(** [signalingBackpressureExceeded(peer.ws, SIGNALING_MAX_BUFFERED_BYTES)] *)
Definition peerBackpressure (st : Server) (p : jsstr) : bool :=
  signalingBackpressureExceeded (bufferedAmount (p_ws (peer st p))) SIGNALING_MAX_BUFFERED_BYTES.

(** The body of [send], its recursive calls being [send]. *)
Definition sendBody (p : jsstr) (m : ServerMessage) : M bool :=
  st ← st_get;
  if negb (isOpen st p) then mret false
  else if peerBackpressure st p then
    closePeerForSendFailure p (js "signaling backpressure");; mret false
  else
    st_catch
      (data ← st_lift (serializeMessage m);
       wsSend p m data;;
       st ← st_get;
       if peerBackpressure st p then
         closePeerForSendFailure p (js "signaling backpressure");; mret false
       else mret true)
      (λ _, closePeerForSendFailure p (js "send_error");; mret false).

End Cluster.

(** ** Closing the recursion *)
Section Hub.
Context `{WsLib, Serializer, Environment, IceProvider, ManifestRules, JsCase}.
Abbreviation M := (ST Server).

Fixpoint sendFuel (fuel : nat) : jsstr → ServerMessage → M bool :=
  match fuel with
  | O => λ _ _ _, OutOfFuel
  | S fuel => sendBody (sendFuel fuel)
  end.

(** [send] *)
Definition send (p : jsstr) (m : ServerMessage) : M bool := λ st,
  sendFuel (S (size (sessions st))) p m st.

(** ** Handlers *)

(** [hitRateLimit] *)
Definition hitRateLimit (p : jsstr) : M bool :=
  now ← dateNow;
  st ← st_get;
  let r := hitFixedWindowRateLimit (rateLimits st) (p_ip (peer st p)) now 60000 60 in
  st_modify (set_limits (λ _, r.2));;
  if (r.1 : bool) then mret true
  else fail send p rate_limited (js "Too many attempts. Try again shortly.");; mret false.

(** [rejectMalformedPrePairSenderMessage] *)
Definition rejectMalformedPrePairSenderMessage (p : jsstr) (message : jsstr) : M bool :=
  st ← st_get;
  match p_sid (peer st p) ≫= λ sid, sessions st !! sid with
  | None => mret false
  | Some s =>
    if senderDisconnectCanRestoreReceiver (s_policy s) p then
      fail send p bad_message message;;
      restoreWaitingReceiver send s (js "invalid sender pre-pair message") true;;
      mret true
    else mret false
  end.

(** [badMessage] *)
Definition badMessage (p : jsstr) (message : jsstr) : M () :=
  rejected ← rejectMalformedPrePairSenderMessage p message;
  if (rejected : bool) then mret ()
  else
    st_modify (upd p (λ x, p_setMessages (p_badMessages x + 1) (p_messageTimes x) x));;
    fail send p bad_message message;;
    st ← st_get;
    st_when (SIGNALING_MAX_BAD_MESSAGES <=? p_badMessages (peer st p)) (closePeerWithCodeAndRelease p 1008).

(** [hitMessageLimit] *)
Definition hitMessageLimit (p : jsstr) : M bool :=
  now ← dateNow;
  st ← st_get;
  let r := recordFixedWindowHit (p_messageTimes (peer st p)) now 60000 SIGNALING_MAX_MESSAGES_PER_MINUTE in
  st_modify (upd p (λ x, p_setMessages (p_badMessages x) (hits r) x));;
  if allowed r then mret true
  else
    fail send p rate_limited (js "Too many signaling messages. Try again shortly.");;
    closePeerWithCodeAndRelease p 1008;;
    mret false.

(** The waiting receiver and its code are discarded and the receiver closed. *)
Definition discardWaiting (code p : jsstr) (message : jsstr) : M () :=
  st_modify (set_codes (delete code));;
  clearPeerSessionState p;;
  fail send p expired message;;
  closePeerAndRelease p.

(** [register] *)
Definition register (p : jsstr) (messageCode : jsstr) (protocolVersion : Z) : M () :=
  ok ← hitRateLimit p;
  if negb ok then mret ()
  else
  st ← st_get;
  if bool_decide (p_sid (peer st p) ≠ None) then fail send p bad_message (js "Peer is already paired.")
  else if bool_decide (p_role (peer st p) = Some sender)
  then fail send p bad_message (js "Peer is already registered as a sender.")
  else if negb (isProtocolSupported protocolVersion)
  then fail send p bad_protocol (js "Only protocolVersion 10 is supported.")
  else
  let code := normalizeCode messageCode in
  if negb (isValidRendezvous code) then fail send p bad_message (js "Rendezvous id is invalid.")
  else
  now ← dateNow;
  match codes st !! code with
  | Some existingCode =>
    if waitingCodeOwnedBy (Some (wc_receiver existingCode)) p then
      if negb (waitingReceiverAvailable (wc_expiresAt existingCode) now (readyState (p_ws (peer st p))) OPEN)
      then discardWaiting code p (js "Code expired before a sender connected.")
      else
        st_modify (upd p (λ x, p_setLink (Some receiver) (p_sid x) (Some code) x));;
        clearIdleTimer p;;
        send p (SRegistered code (remainingExpirySeconds (wc_expiresAt existingCode) now));;
        mret ()
    else fail send p code_taken (js "That code is already waiting for a sender.")
  | None =>
    let replacingPreviousOwnCode :=
      match p_code (peer st p) with
      | Some own => bool_decide (own ≠ code) && waitingCodeOwnedBy (waitingReceiver st own) p
      | None => false
      end in
    if negb (canRegisterWaitingCode (mapSize (codes st)) SIGNALING_MAX_WAITING_CODES replacingPreviousOwnCode)
    then fail send p rate_limited (js "Signaling server is at capacity. Try again shortly.")
    else
      (match p_code (peer st p) with
       | Some own => st_when replacingPreviousOwnCode (st_modify (set_codes (delete own)))
       | None => mret ()
       end);;
      st_modify (upd p (λ x, p_setLink (Some receiver) (p_sid x) (Some code) x));;
      clearIdleTimer p;;
      st_modify (set_codes (<[code := {| wc_code := code; wc_receiver := p;
        wc_expiresAt := now + CODE_TTL_MS; wc_attempts := initialPrePairAttempts |}]>));;
      send p (SRegistered code (CODE_TTL_MS / 1000));;
      mret ()
  end.

(** The session [connect] creates. *)
Definition newSession (sid code : jsstr) (waiting : WaitingCode) (senderId : jsstr) (now remaining : Z) : Session :=
  {| s_policy := newRelaySession sid senderId (wc_receiver waiting);
     s_code := code;
     s_codeExpiresAt := wc_expiresAt waiting;
     s_expiresAt := initialSessionExpiresAt now;
     s_attempts := remaining |}.

(** The part of [connect] after its checks. *)
Definition createSession (p code : jsstr) (waiting : WaitingCode) : M () :=
  remaining ← st_lift (consumePrePairAttempt (wc_attempts waiting));
  st_modify (set_codes (delete code));;
  st ← st_get;
  (match p_code (peer st p) with
   | Some own => st_when (bool_decide (waitingReceiver st own = Some p)) (st_modify (set_codes (delete own)))
   | None => mret ()
   end);;
  sid ← drawId 32;
  st_modify (upd p (p_setLink (Some sender) (Some sid) (Some code)));;
  clearIdleTimer p;;
  st_modify (upd (wc_receiver waiting) (λ x, p_setLink (p_role x) (Some sid) (p_code x) x));;
  now ← dateNow;
  let s := newSession sid code waiting p now remaining in
  st_modify (set_sessions (<[sid := s]>));;
  joined ← send (wc_receiver waiting) (SPeerJoined sid);
  if negb joined then
    st_modify (set_sessions (delete sid));;
    clearPeerSessionState p;;
    clearPeerSessionState (wc_receiver waiting);;
    closePeerAndRelease (wc_receiver waiting);;
    fail send p peer_unavailable (js "Receiver is no longer connected.")
  else
    joined ← send p (SPeerJoined sid);
    if (joined : bool) then mret ()
    else restoreWaitingReceiver send s (js "sender unavailable") true.

(** [connect] *)
Definition connect (p : jsstr) (messageCode : jsstr) (protocolVersion : Z) : M () :=
  ok ← hitRateLimit p;
  if negb ok then mret ()
  else
  st ← st_get;
  if bool_decide (p_sid (peer st p) ≠ None) then fail send p bad_message (js "Peer is already paired.")
  else if bool_decide (p_role (peer st p) = Some receiver)
  then fail send p bad_message (js "Peer is already registered as a receiver.")
  else if negb (isProtocolSupported protocolVersion)
  then fail send p bad_protocol (js "Only protocolVersion 10 is supported.")
  else
  let code := normalizeCode messageCode in
  if negb (isValidRendezvous code) then fail send p bad_message (js "Rendezvous id is invalid.")
  else
  match codes st !! code with
  | None => fail send p code_not_found (js "No receiver is waiting for that code.")
  | Some waiting =>
    now ← dateNow;
    if negb (waitingReceiverAvailable (wc_expiresAt waiting) now
               (readyState (p_ws (peer st (wc_receiver waiting)))) OPEN) then
      discardWaiting code (wc_receiver waiting) (js "Code expired before a sender connected.");;
      fail send p code_not_found (js "No receiver is waiting for that code.")
    else if negb (canRestorePrePairCode (wc_attempts waiting)) then
      discardWaiting code (wc_receiver waiting) (js "Receive code expired after too many invalid pairing attempts.");;
      fail send p code_not_found (js "No receiver is waiting for that code.")
    else if decide (wc_receiver waiting = p) then
      badMessage p (js "Cannot connect to your own receiver code.")
    else if negb (canCreateSession (mapSize (sessions st)) SIGNALING_MAX_SESSIONS) then
      fail send p rate_limited (js "Signaling server is at capacity. Try again shortly.")
    else createSession p code waiting
  end.
End Hub.

(** ** Relay, cleanup events and timers *)
Section Relay.
Context `{WsLib, Serializer, Environment, IceProvider, ManifestRules, JsCase}.
Abbreviation M := (ST Server).

(** [SendIceConfigResult] and [sendIceConfig] *)
Inductive SendIceConfigResult := ice_sent | ice_rate_limited | ice_send_failed.

Definition sendIceConfig (p : jsstr) : M SendIceConfigResult :=
  limited ← (if hasTurnRest then
    now ← dateNow;
    st ← st_get;
    let r := hitTurnCredentialIssueRateLimit (turnIssueRateLimits st) (p_ip (peer st p)) now in
    st_modify (set_turnLimits (λ _, r.2));; mret (negb r.1)
  else mret false);
  if (limited : bool) then mret ice_rate_limited
  else
    st ← st_get;
    now ← dateNow;
    sent ← send p (SIceConfig (iceServersForRequest (ticks st) now));
    mret (if (sent : bool) then ice_sent else ice_send_failed).

(** [closeSessionForTurnRateLimit] *)
Definition closeSessionForTurnRateLimit (s : Session) : M () :=
  fail send (s_sender s) rate_limited (js "TURN credential issuance is rate limited. Try again shortly.");;
  fail send (s_receiver s) rate_limited (js "TURN credential issuance is rate limited. Try again shortly.");;
  closeSessionPeers s.

(** [rejectRelayMessage] *)
Definition rejectRelayMessage (s : Session) (p : jsstr) (message : jsstr) : M () :=
  if senderDisconnectCanRestoreReceiver (s_policy s) p then
    fail send p bad_message message;;
    restoreWaitingReceiver send s (js "invalid sender pre-pair message") true
  else badMessage p message.

(** [relayDeliveryFailed] *)
Definition relayDeliveryFailed (s : Session) (p target reason : jsstr) (restoreReceiverOnSenderFailure : bool) : M () :=
  fail send p peer_unavailable (js "Peer is no longer connected.");;
  let targetPeerId := sessionPeerId (s_policy s) target in
  if restoreReceiverOnSenderFailure && bool_decide (targetPeerId = Some sender) &&
     sessionBeforePairAcceptance (s_policy s)
  then restoreWaitingReceiver send s reason true
  else endSession send s reason targetPeerId.

(** [applyRelayPhase(session, peer, message)] and the new expiry, on the shared
    session object. *)
Definition advanceSession (s : Session) (p : jsstr) (m : ClientMessage) : M () :=
  now ← dateNow;
  st_modify (set_sessions (alter (λ s,
    {| s_policy := applyRelayPhase (s_policy s) p m; s_code := s_code s; s_codeExpiresAt := s_codeExpiresAt s;
       s_expiresAt := nextSessionExpiresAt (s_expiresAt s) now m; s_attempts := s_attempts s |}) (s_sid s))).

(** The "pair-accept" branch of [relay]. *)
Definition relayPairAccept (s : Session) (p target : jsstr) (m : ClientMessage) : M () :=
  senderIce ← sendIceConfig (s_sender s);
  match senderIce with
  | ice_rate_limited => closeSessionForTurnRateLimit s
  | ice_send_failed => relayDeliveryFailed s p target (js "peer unavailable") true
  | ice_sent =>
    sent ← send target (SRelay m);
    if negb sent then relayDeliveryFailed s p target (js "peer unavailable") true
    else
      receiverIce ← sendIceConfig (s_receiver s);
      match receiverIce with
      | ice_rate_limited => closeSessionForTurnRateLimit s
      | ice_send_failed => closeSessionPeers s
      | ice_sent => advanceSession s p m
      end
  end.

(** The part of [relay] after its checks. *)
Definition relayForward (s : Session) (p : jsstr) (m : ClientMessage) : M () :=
  let target := if decide (s_sender s = p) then s_receiver s else s_sender s in
  let terminalReject := bool_decide (messageType m = TPairReject) in
  let reason := if terminalReject then js "pair rejected" else js "peer unavailable" in
  st ← st_get;
  if negb (isOpen st target) then relayDeliveryFailed s p target reason (negb terminalReject)
  else if bool_decide (messageType m = TPairAccept) then relayPairAccept s p target m
  else
    sent ← send target (SRelay m);
    if negb sent then relayDeliveryFailed s p target reason (negb terminalReject)
    else
      advanceSession s p m;;
      st_when terminalReject (
        st_modify (set_sessions (delete (s_sid s)));;
        closeSessionPeers s).

(** The manifest checks of [relay], on a pair request. *)
Definition pairRequestManifest (m : ClientMessage) : option FileManifest :=
  match m with CPairRequest _ manifest _ => Some manifest | _ => None end.

(** [relay] *)
Definition relay (p : jsstr) (sid : jsstr) (m : ClientMessage) : M () :=
  st ← st_get;
  match sessions st !! sid with
  | None => fail send p session_not_found (js "Session is no longer active.")
  | Some s =>
    if bool_decide (s_sender s ≠ p) && bool_decide (s_receiver s ≠ p)
    then fail send p session_not_found (js "Session is no longer active.")
    else if from_option (λ f, negb (manifestWithinLimits f)) false (pairRequestManifest m)
    then rejectRelayMessage s p (js "Manifest exceeds transfer limits.")
    else if from_option (λ f, negb (publicPairRequestManifestIsRedacted f)) false (pairRequestManifest m)
    then rejectRelayMessage s p (js "Pair request manifest must be redacted.")
    else if negb (relayAllowedForRole (s_policy s) p m)
    then rejectRelayMessage s p (js "Message is not valid for this peer role.")
    else if negb (relayAllowedForPhase (s_policy s) p m)
    then rejectRelayMessage s p (js "Message is not valid in this session phase.")
    else relayForward s p m
  end.

(** [retryReceiver] *)
Definition retryReceiver (p : jsstr) : M bool :=
  st ← st_get;
  match p_sid (peer st p) with
  | None =>
    match p_code (peer st p) ≫= λ code, (code,.) <$> codes st !! code with
    | None => mret false
    | Some (code, waiting) =>
      if decide (wc_receiver waiting = p) then
        now ← dateNow;
        if negb (waitingReceiverAvailable (wc_expiresAt waiting) now (readyState (p_ws (peer st p))) OPEN) then
          discardWaiting code p (js "Code expired before a sender connected.");; mret true
        else
          now ← dateNow;
          send p (SRegistered code (remainingExpirySeconds (wc_expiresAt waiting) now));; mret true
      else mret false
    end
  | Some sid =>
    match sessions st !! sid with
    | None => mret false
    | Some s =>
      if negb (receiverCanRetryPrePair (s_policy s) p) then mret false
      else restoreWaitingReceiver send s (js "receiver retry") false;; mret true
    end
  end.

(** The "bye" case of [handleMessage]. *)
Definition handleBye (p : jsstr) (reason : option jsstr) : M () :=
  retried ← (if decide (reason = Some (js "prepair_retry")) then retryReceiver p else mret false);
  if (retried : bool) then mret ()
  else
    cleanupPeer send p (peerVisibleByeReason reason);;
    closePeerAndRelease p.

(** [handleMessage] *)
Definition handleMessage (p : jsstr) (m : ClientMessage) : M () :=
  match m with
  | CRegister code version => register p code version
  | CConnect code version => connect p code version
  | CPake sid _ | CConfirm sid _ | CPairRequest sid _ _ | CPairAccept sid _
  | CPairReject sid _ _ | CSignal sid _ _ => relay p sid m
  | CBye _ reason => handleBye p reason
  end.

(** The "message" listener; [parsed] is the frame after [parseJsonTextFrame]
    and [isClientMessage], [None] when they refuse it. *)
Definition onMessage (p : jsstr) (parsed : option ClientMessage) : M () :=
  st ← st_get;
  if negb (peerAcceptsClientMessages st p) then mret ()
  else
    ok ← hitMessageLimit p;
    if negb ok then mret ()
    else match parsed with
         | None => badMessage p (js "Malformed signaling message.")
         | Some m => handleMessage p m
         end.

(** The "connection" listener *)
Definition newPeer (w : sock) (ip : jsstr) : Peer :=
  mkPeer _ w ip None None None 0 [] false false false false.

Definition onConnection (w : sock) (ip : jsstr) : M () :=
  p ← drawId 10;
  st_modify (upd p (λ _, newPeer w ip));;
  st_modify (set_connections id (λ l, l ++ [p]));;
  addActiveConnection p;;
  st ← st_get;
  if SIGNALING_MAX_CONNECTIONS_PER_IP <? default 0 (activeConnections st !! ip) then
    fail send p rate_limited (js "Too many concurrent signaling connections.");;
    closePeerWithCodeAndRelease p 1008
  else st_modify (upd p (λ x, p_setTimers true (p_closeTimer x) x)).

(** The "close", "error" and "pong" listeners *)
Definition onClose (p : jsstr) : M () :=
  releaseActiveConnection p false;; cleanupPeer send p (js "disconnected").
Definition onError (p : jsstr) : M () :=
  cleanupPeer send p (js "socket_error");; releaseActiveConnection p false.
Definition onPong (p : jsstr) : M () := st_modify (upd p (p_setPong false)).

(** The idle timer of a connection, if it is still armed *)
Definition onIdleTimer (p : jsstr) : M () :=
  st ← st_get;
  st_when (p_idleTimer (peer st p) &&
           bool_decide (p_role (peer st p) = None ∧ p_sid (peer st p) = None ∧ p_code (peer st p) = None))
    (closePeerWithCodeAndRelease p 1008).

(** The close timer of [scheduleCloseTermination], if it is still armed *)
Definition onCloseTimer (p : jsstr) : M () :=
  st ← st_get;
  st_when (p_closeTimer (peer st p)) (
    st_modify (upd p (λ x, p_setTimers (p_idleTimer x) false x));;
    st_when (bool_decide (readyState (p_ws (peer st p)) ≠ CLOSED)) (terminate p)).

(** [heartbeatPeer] *)
Definition heartbeatPeer (p : jsstr) : M () :=
  st ← st_get;
  if negb (isOpen st p) then mret ()
  else if p_awaitingHeartbeatPong (peer st p) then
    cleanupPeer send p (js "heartbeat_timeout");;
    releaseActiveConnection p false;;
    terminate p
  else
    st_modify (upd p (p_setPong true));;
    st ← st_get;
    let r := ws_ping (p_ws (peer st p)) in
    st_modify (upd p (p_setWs r.2));;
    if (r.1 : bool) then st_modify (set_log (Pinged p))
    else
      cleanupPeer send p (js "heartbeat_error");;
      releaseActiveConnection p false;;
      terminate p.

(** The heartbeat interval: the entries of [peersBySocket] in order, skipping
    those deleted before their turn. *)
Definition onHeartbeat : M () :=
  st ← st_get;
  st_iter (λ p,
    st ← st_get;
    st_when (bool_decide (p ∈ peersBySocket st)) (heartbeatPeer p)) (peersBySocket st).

(** One waiting code of the expiry interval *)
Definition expireCode (now : Z) (code : jsstr) : M () :=
  st ← st_get;
  match codes st !! code with
  | None => mret ()
  | Some entry =>
    st_when (wc_expiresAt entry <=? now) (
      send (wc_receiver entry) (SError expired (js "Code expired before a sender connected."));;
      clearPeerSessionState (wc_receiver entry);;
      closePeerAndRelease (wc_receiver entry);;
      st_modify (set_codes (delete code)))
  end.

(** One session of the expiry interval *)
Definition expireSession (now : Z) (sid : jsstr) : M () :=
  st ← st_get;
  match sessions st !! sid with
  | None => mret ()
  | Some s =>
    st_when (s_expiresAt s <=? now) (
      if sessionBeforePairAcceptance (s_policy s) && (now <? s_codeExpiresAt s) && isOpen st (s_receiver s)
      then restoreWaitingReceiver send s (js "expired") true
      else
        notifyPeerLeft send s None (js "expired");;
        st_modify (set_sessions (delete sid));;
        closeSessionPeers s)
  end.

(** The expiry interval; the two lists are the iteration orders of the maps. *)
Definition onExpiry (codeOrder sidOrder : list jsstr) : M () :=
  now ← dateNow;
  st_iter (expireCode now) codeOrder;;
  st_iter (expireSession now) sidOrder;;
  st_modify (set_limits (λ t, pruneFixedWindowRateLimits t now 60000));;
  st_modify (set_turnLimits (λ t, pruneFixedWindowRateLimits t now 60000)).

(** [shutdown]: every client is closed. *)
Definition onShutdown : M () :=
  st ← st_get; st_iter (λ p, closePeerWithCode p 1001) (peersBySocket st).

(** The callbacks of the runtime; [ESocket] is a change of a socket that the
    library makes on its own. *)
Inductive Event :=
| EConnection (w : sock) (ip : jsstr)
| EMessage (p : jsstr) (parsed : option ClientMessage)
| EClose (p : jsstr)
| EError (p : jsstr)
| EPong (p : jsstr)
| EIdleTimer (p : jsstr)
| ECloseTimer (p : jsstr)
| EHeartbeat
| EExpiry (codeOrder sidOrder : list jsstr)
| EShutdown
| ESocket (p : jsstr) (w : sock).

Definition handle (e : Event) : M () :=
  match e with
  | EConnection w ip => onConnection w ip
  | EMessage p parsed => onMessage p parsed
  | EClose p => onClose p
  | EError p => onError p
  | EPong p => onPong p
  | EIdleTimer p => onIdleTimer p
  | ECloseTimer p => onCloseTimer p
  | EHeartbeat => onHeartbeat
  | EExpiry codeOrder sidOrder => onExpiry codeOrder sidOrder
  | EShutdown => onShutdown
  | ESocket p w => st_modify (upd p (p_setWs w))
  end.

(** When the runtime can call back: the library never reopens a socket on its
    own, and it reports "close" and "error" once the socket has left the OPEN
    state. *)
Definition enabled (st : Server) (e : Event) : Prop :=
  match e with
  | ESocket p w => readyState w = OPEN → isOpen st p = true
  | EClose p | EError p => isOpen st p = false
  | _ => True
  end.

(** One callback of the server. *)
Definition server_step (st : Server) (e : Event) (st' : Server) : Prop :=
  enabled st e ∧ handle e st = Done () st'.

(** The server when it starts; an id no connection has is a closed, released
    peer. *)
Definition initialServer : Server :=
  mkServer _ (λ _, p_setReleased true (newPeer deadSock [])) ∅ ∅ ∅ ∅ ∅ [] 0 0 [].

End Relay.
