(* ===== verification/ServerInv.v ===== *)
(** * ServerInv: the invariant of the signalling server and how its primitive
    operations preserve it.

    [Inv X] links the maps to the peers: a live session's two peers point back
    at it, a waiting code's receiver is in no session and points back at its
    code (unless it is closed, or exempted by [X] while a handler is between
    two writes), the connection counters are the numbers of unreleased peers.
    [evolves] says what any step may do to a state: sessions only disappear,
    closed sockets stay closed, an entry of [codes] disappears only with its
    receiver closed, and no [Weight] (a count over codes, sessions and the
    log) grows. *)
From S2P Require Import Prelude.
From S2P Require Import Constants.
From S2P Require Import JsText.
From S2P Require Import Protocol.
From S2P Require Import Policy.
From S2P Require Import Admission.
From S2P Require Import ServerState.
#[local] Open Scope Z_scope.

#[local] Set Default Proof Using "Type*".

(** Effects every part of the server may have: all but the delivery of a
    relayed message, of "peer-joined" and of "ice-config". *)
Definition housekeeping (e : Effect) : Prop :=
  match e with
  | Sent _ (SRelay _) | Sent _ (SPeerJoined _) | Sent _ (SIceConfig _) => False
  | _ => True
  end.

(** A bound on effects that admits housekeeping. *)
Class Allows (P : Effect → Prop) : Prop := allows e : housekeeping e → P e.
#[export] Instance allows_housekeeping : Allows housekeeping.
Proof. by intros e. Qed.

(** What counts towards a bound: a waiting code, a session, an effect. *)
Record Weight := mkWeight {
  w_code : WaitingCode → Z;
  w_session : Session → Z;
  w_effect : Effect → Z;
  w_code_nonneg e : 0 <= w_code e;
  w_session_nonneg s : 0 <= w_session s;
  w_effect_nonneg e : 0 <= w_effect e;
  w_less e e' : wc_receiver e = wc_receiver e' → wc_attempts e <= wc_attempts e' → w_code e <= w_code e';
  w_restore e s : wc_receiver e = s_receiver s → wc_attempts e <= s_attempts s → w_code e <= w_session s;
  w_create e s : s_receiver s = wc_receiver e → s_attempts s = wc_attempts e - 1 → 1 <= wc_attempts e →
    ∀ sid, w_session s + w_effect (Sent (s_receiver s) (SPeerJoined sid)) <= w_code e;
  w_advance s s' : s_receiver s = s_receiver s' → s_attempts s = s_attempts s' → w_session s = w_session s';
  w_joined p sid sid' : w_effect (Sent p (SPeerJoined sid)) = w_effect (Sent p (SPeerJoined sid'));
  w_others e : (∀ p sid, e ≠ Sent p (SPeerJoined sid)) → w_effect e = 0
}.

Section Invariant.
Context `{WsLib, Environment}.
Implicit Types st : Server.

(** The total weight of a state *)
Definition weight (w : Weight) st : Z :=
  msum (w_code w) (codes st) + msum (w_session w) (sessions st) + foldr (λ e n, w_effect w e + n) 0 (log st).

(** The connected and not yet released peers of an address *)
Definition connCount st (ip : jsstr) : Z :=
  Z.of_nat (length (filter (λ p, p_ip (peer st p) = ip) (peersBySocket st))).

(** Ids that [nanoid] has returned for a connection *)
Definition known st (p : jsstr) : Prop := ∃ j, (j < ids st)%nat ∧ p = nanoid 10 j.

Definition SessionOk st (sid : jsstr) (s : Session) : Prop :=
  s_sid s = sid ∧ s_sender s ≠ s_receiver s ∧
  p_sid (peer st (s_sender s)) = Some sid ∧ p_role (peer st (s_sender s)) = Some sender ∧
  p_sid (peer st (s_receiver s)) = Some sid ∧ p_role (peer st (s_receiver s)) = Some receiver ∧
  0 <= s_attempts s < RECEIVER_MAX_PREPAIR_ATTEMPTS ∧
  (∃ h, reflects h (s_policy s)) ∧
  known st (s_sender s) ∧ known st (s_receiver s) ∧ (∃ j, (j < ids st)%nat ∧ sid = nanoid 32 j).

Definition CodeOk (X : gset jsstr) st (c : jsstr) (e : WaitingCode) : Prop :=
  wc_code e = c ∧ 1 <= wc_attempts e <= RECEIVER_MAX_PREPAIR_ATTEMPTS ∧
  p_sid (peer st (wc_receiver e)) = None ∧ known st (wc_receiver e) ∧
  (wc_receiver e ∈ X ∨ isOpen st (wc_receiver e) = false ∨
   p_code (peer st (wc_receiver e)) = Some c ∧ p_role (peer st (wc_receiver e)) = Some receiver).

Record ConnOk st : Prop := {
  conn_nodup : NoDup (peersBySocket st);
  conn_released p : p ∈ peersBySocket st ↔ p_connectionReleased (peer st p) = false;
  conn_known p : p ∈ peersBySocket st → known st p;
  conn_count ip : activeConnections st !! ip = if connCount st ip =? 0 then None else Some (connCount st ip)
}.

Record Inv (X : gset jsstr) st : Prop := {
  inv_sessions sid s : sessions st !! sid = Some s → SessionOk st sid s;
  inv_codes c e : codes st !! c = Some e → CodeOk X st c e;
  inv_conn : ConnOk st;
  inv_capacity : mapSize (sessions st) <= SIGNALING_MAX_SESSIONS
}.

(** [P] bounds the effects, [X] exempts receivers whose entries a handler has
    removed before closing them. *)
Record evolves (P : Effect → Prop) (X : gset jsstr) st0 st : Prop := {
  ev_sessions : sessions st ⊆ sessions st0;
  ev_sid p : p_sid (peer st p) = p_sid (peer st0 p) ∨ p_sid (peer st p) = None;
  ev_open p : isOpen st p = true → isOpen st0 p = true;
  ev_ip p : p_ip (peer st p) = p_ip (peer st0 p);
  ev_ids : ids st = ids st0;
  ev_conn : peersBySocket st `sublist_of` peersBySocket st0;
  ev_entry c e : codes st0 !! c = Some e → wc_receiver e ∉ X → isOpen st (wc_receiver e) = true →
    ∃ e', codes st !! c = Some e' ∧ wc_receiver e' = wc_receiver e ∧ wc_attempts e' <= wc_attempts e;
  ev_weight w : weight w st <= weight w st0;
  ev_log : ∃ ext, log st = ext ++ log st0 ∧ Forall P ext
}.

Definition ok P X st0 st : Prop := Inv X st ∧ evolves P X st0 st.

(** ** Composition *)

Lemma isOpen_spec st p : isOpen st p = true ↔ readyState (p_ws (peer st p)) = OPEN.
Proof. unfold isOpen. apply bool_decide_eq_true. Qed.

Lemma evolves_refl P X st : evolves P X st st.
Proof.
  split; try done; [by left|by intros c e; exists e|by exists []].
Qed.

Lemma evolves_mono P Q X Y st st' :
  (∀ e, P e → Q e) → X ⊆ Y → evolves P X st st' → evolves Q Y st st'.
Proof.
  intros HPQ HXY [????????(ext&Hl&Hext)]. split; try assumption.
  - intros c e Hc HY. apply ev_entry0; [done|set_solver].
  - exists ext. split; [done|]. eapply Forall_impl; [exact Hext|done].
Qed.

Lemma evolves_trans P X st st' st'' :
  evolves P X st st' → evolves P X st' st'' → evolves P X st st''.
Proof.
  intros E1 E2. split.
  - etrans; [apply E2|apply E1].
  - intros p. destruct (ev_sid _ _ _ _ E2 p) as [->|]; [apply E1|by right].
  - intros p Hp. by apply E1, E2.
  - intros p. rewrite (ev_ip _ _ _ _ E2). apply E1.
  - rewrite (ev_ids _ _ _ _ E2). apply E1.
  - etrans; [apply E2|apply E1].
  - intros c e Hc HX Hop.
    destruct (ev_entry _ _ _ _ E1 c e Hc HX) as (e'&Hc'&Hr&Ha); [by apply (ev_open _ _ _ _ E2)|].
    rewrite <-Hr in HX, Hop.
    destruct (ev_entry _ _ _ _ E2 c e' Hc' HX Hop) as (e''&?&?&?).
    exists e''. split_and!; [done|congruence|lia].
  - intros w. etrans; [apply E2|apply E1].
  - destruct (ev_log _ _ _ _ E1) as (l1&Hl1&?), (ev_log _ _ _ _ E2) as (l2&Hl2&?).
    exists (l2 ++ l1). rewrite Hl2, Hl1, app_assoc. split; [done|by apply Forall_app].
Qed.

Lemma CodeOk_weaken X Y st c e :
  CodeOk X st c e → (wc_receiver e ∈ X → wc_receiver e ∈ Y ∨ isOpen st (wc_receiver e) = false) →
  CodeOk Y st c e.
Proof. unfold CodeOk. tauto. Qed.

Lemma Inv_mono X Y st : X ⊆ Y → Inv X st → Inv Y st.
Proof.
  intros HXY [????]. split; try assumption. intros c e Hc.
  eapply CodeOk_weaken; [by apply inv_codes0|]. set_solver.
Qed.

Lemma ok_refl P X st : Inv X st → ok P X st st.
Proof. split; [done|apply evolves_refl]. Qed.

Lemma ok_mono P Q X Y st st' : (∀ e, P e → Q e) → X ⊆ Y → ok P X st st' → ok Q Y st st'.
Proof. intros ?? []. split; [by eapply Inv_mono|by eapply evolves_mono]. Qed.

Lemma ok_trans P X st st' st'' : ok P X st st' → ok P X st' st'' → ok P X st st''.
Proof. intros [] []. split; [done|by eapply evolves_trans]. Qed.

(** A closed peer need not be exempted. *)
Lemma ok_closed P X p st0 st : ok P (X ∪ {[p]}) st0 st → isOpen st p = false → ok P X st0 st.
Proof.
  intros [I E] Hp. split.
  - destruct I as [I1 I2 I3 I4]. split; try assumption. intros c e Hc.
    eapply CodeOk_weaken; [by apply I2|]. intros [HX|Hs%elem_of_singleton]%elem_of_union; [by left|].
    right. congruence.
  - destruct E as [E1 E2 E3 E4 E4' E5 E6 E7 E8]. split; try assumption. intros c e Hc HX Hop.
    apply E6; [done| |done]. intros Hin. assert (wc_receiver e = p) by set_solver. congruence.
Qed.

(** ** Peers in no live session *)

Definition unattached st p : Prop := ∀ sid, p_sid (peer st p) = Some sid → sessions st !! sid = None.

Definition detached st (s : Session) : Prop :=
  sessions st !! s_sid s = None ∧ unattached st (s_sender s) ∧ unattached st (s_receiver s).

Lemma evolves_unattached P X st st' p : evolves P X st st' → unattached st p → unattached st' p.
Proof.
  intros E Hun sid Hsid. destruct (ev_sid _ _ _ _ E p) as [Hs|Hs]; [|congruence].
  rewrite Hs in Hsid. specialize (Hun sid Hsid).
  destruct (sessions st' !! sid) eqn:Es; [|done].
  eapply lookup_weaken in Es; [|apply E]. congruence.
Qed.

Lemma evolves_none P X st st' sid : evolves P X st st' → sessions st !! sid = None → sessions st' !! sid = None.
Proof. intros E Hs. eapply lookup_weaken_None; [done|apply E]. Qed.

Lemma evolves_detached P X st st' s : evolves P X st st' → detached st s → detached st' s.
Proof. intros E (?&?&?). split_and!; eauto using evolves_none, evolves_unattached. Qed.

Lemma evolves_closed P X st st' p : evolves P X st st' → isOpen st p = false → isOpen st' p = false.
Proof.
  intros E Hp. destruct (isOpen st' p) eqn:Hp'; [|done]. apply (ev_open _ _ _ _ E) in Hp'. congruence.
Qed.

(** A peer of a live session is in no other, and waits for no code. *)
Lemma session_member_unique X st sid s p sid' s' :
  Inv X st → sessions st !! sid = Some s → sessions st !! sid' = Some s' →
  p = s_sender s ∨ p = s_receiver s → p = s_sender s' ∨ p = s_receiver s' → sid = sid'.
Proof.
  intros I Hs Hs' Hp Hp'. destruct (inv_sessions _ _ I _ _ Hs) as (_&_&H1&_&H2&_).
  destruct (inv_sessions _ _ I _ _ Hs') as (_&_&H3&_&H4&_).
  destruct Hp as [->| ->], Hp' as [Hp'|Hp']; rewrite <-Hp' in *; congruence.
Qed.

Definition noEntry st p : Prop := ∀ c e, codes st !! c = Some e → wc_receiver e ≠ p.

Lemma session_member_noEntry X st sid s p :
  Inv X st → sessions st !! sid = Some s → p = s_sender s ∨ p = s_receiver s → noEntry st p.
Proof.
  intros I Hs Hp c e Hc Hr. destruct (inv_sessions _ _ I _ _ Hs) as (_&_&H1&_&H2&_).
  destruct (inv_codes _ _ I _ _ Hc) as (_&_&H3&_). destruct Hp as [->| ->]; rewrite <-Hr in *; congruence.
Qed.

(** The entries of an open receiver have its code as their key. *)
Lemma entry_key X st c e p :
  Inv X st → codes st !! c = Some e → wc_receiver e = p → p ∉ X → isOpen st p = true →
  p_code (peer st p) = Some c ∧ p_role (peer st p) = Some receiver.
Proof.
  intros I Hc <- HX Hop. destruct (inv_codes _ _ I _ _ Hc) as (_&_&_&_&[?|[?|?]]); [done|congruence|done].
Qed.

Lemma delete_detached X st sid s :
  Inv X st → sessions st !! sid = Some s → detached (set_sessions (delete (s_sid s)) st) s.
Proof.
  intros I Hs. destruct (inv_sessions _ _ I _ _ Hs) as (Hsid&_&H1&_&H2&_).
  rewrite Hsid. split_and!.
  - cbn. by rewrite Hsid, lookup_delete_eq.
  - intros sid' Hs'. change (p_sid (peer st (s_sender s)) = Some sid') in Hs'.
    rewrite H1 in Hs'. injection Hs' as <-. cbn. apply lookup_delete_eq.
  - intros sid' Hs'. change (p_sid (peer st (s_receiver s)) = Some sid') in Hs'.
    rewrite H2 in Hs'. injection Hs' as <-. cbn. apply lookup_delete_eq.
Qed.

End Invariant.

(** ** The primitive operations *)
Section Primitives.
Context `{WsLib, Environment}.
Implicit Types st : Server.
Context {P : Effect → Prop} {HP : Allows P}.

Lemma peer_upd p f st q : peer (upd p f st) q = if decide (q = p) then f (peer st q) else peer st q.
Proof. done. Qed.

(** *** Writes that the invariant does not see *)

Definition sameLinks (x y : Peer) : Prop :=
  p_sid y = p_sid x ∧ p_code y = p_code x ∧ p_role y = p_role x ∧ p_ip y = p_ip x ∧
  p_connectionReleased y = p_connectionReleased x ∧
  (readyState (p_ws y) = OPEN → readyState (p_ws x) = OPEN).

Definition notJoined (e : Effect) : Prop := ∀ p sid, e ≠ Sent p (SPeerJoined sid).

Record quiet (P : Effect → Prop) st st' : Prop := {
  q_peers p : sameLinks (peer st p) (peer st' p);
  q_codes : codes st' = codes st;
  q_sessions : sessions st' = sessions st;
  q_active : activeConnections st' = activeConnections st;
  q_sockets : peersBySocket st' = peersBySocket st;
  q_ids : ids st' = ids st;
  q_log : ∃ ext, log st' = ext ++ log st ∧ Forall P ext ∧ Forall notJoined ext
}.

Lemma sameLinks_refl x : sameLinks x x.
Proof. by unfold sameLinks. Qed.

Lemma sameLinks_trans x y z : sameLinks x y → sameLinks y z → sameLinks x z.
Proof. unfold sameLinks. intuition congruence. Qed.

Lemma quiet_refl st : quiet P st st.
Proof. split; try done. by exists []. Qed.

Lemma quiet_trans st st' st'' : quiet P st st' → quiet P st' st'' → quiet P st st''.
Proof.
  intros [????? ? (l1&E1&?&?)] [????? ? (l2&E2&?&?)]. split; try congruence.
  - eauto using sameLinks_trans.
  - exists (l2 ++ l1). rewrite E2, E1, app_assoc. split_and!; [done|by apply Forall_app..].
Qed.

Lemma quiet_upd p f st : sameLinks (peer st p) (f (peer st p)) → quiet P st (upd p f st).
Proof.
  intros Hf. split; try done; [|by exists []].
  intros q. rewrite peer_upd. case_decide; [by subst|apply sameLinks_refl].
Qed.

Lemma quiet_log e st : P e → notJoined e → quiet P st (set_log e st).
Proof.
  intros. split; try done. exists [e]. split_and!; [done|by constructor..].
Qed.

Lemma quiet_tick n st : quiet P st (set_counters n 0 st).
Proof. split; try done. by exists []. Qed.

Lemma quiet_limits f st : quiet P st (set_limits f st).
Proof. split; try done. by exists []. Qed.

Lemma quiet_turnLimits f st : quiet P st (set_turnLimits f st).
Proof. split; try done. by exists []. Qed.

Lemma quiet_open st st' p : quiet P st st' → isOpen st' p = true → isOpen st p = true.
Proof. intros Q. rewrite !isOpen_spec. apply (q_peers _ _ _ Q p). Qed.

Lemma quiet_closed st st' p : quiet P st st' → isOpen st p = false → isOpen st' p = false.
Proof.
  intros Q Hp. destruct (isOpen st' p) eqn:E; [|done]. apply (quiet_open _ _ _ Q) in E. congruence.
Qed.

Lemma connCount_ext st st' ip :
  (∀ p, p_ip (peer st' p) = p_ip (peer st p)) → peersBySocket st' = peersBySocket st →
  connCount st' ip = connCount st ip.
Proof.
  intros Hip Hs. unfold connCount. rewrite Hs. f_equal. f_equal.
  apply list_filter_iff. intros p. by rewrite Hip.
Qed.

Lemma effects_app (f : Effect → Z) ext l :
  foldr (λ e n, f e + n) 0 (ext ++ l) = foldr (λ e n, f e + n) 0 ext + foldr (λ e n, f e + n) 0 l.
Proof. induction ext as [|e ext IH]; simpl; [done|]. lia. Qed.

Lemma effects_notJoined (w : Weight) ext :
  Forall notJoined ext → foldr (λ e n, w_effect w e + n) 0 ext = 0.
Proof. induction 1 as [|e ext He Hext IH]; simpl; [done|]. rewrite (w_others w e He). lia. Qed.

Lemma quiet_weight w st st' : quiet P st st' → weight w st' = weight w st.
Proof.
  intros [????? ? (ext&Hl&_&Hj)]. unfold weight.
  rewrite q_codes0, q_sessions0, Hl, effects_app, effects_notJoined by done. lia.
Qed.

Lemma quiet_known st st' p : quiet P st st' → known st p → known st' p.
Proof. intros Q (j&?&?). exists j. by rewrite (q_ids _ _ _ Q). Qed.

Lemma quiet_Inv X st st' : quiet P st st' → Inv X st → Inv X st'.
Proof.
  intros Q [I1 I2 [I3 I4 I5 I6] I7].
  pose proof (q_peers _ _ _ Q) as Hp. split.
  - intros sid s Hs. rewrite (q_sessions _ _ _ Q) in Hs.
    destruct (I1 sid s Hs) as (?&?&?&?&?&?&?&?&?&?&?). unfold SessionOk.
    destruct (Hp (s_sender s)) as (->&_&->&_), (Hp (s_receiver s)) as (->&_&->&_).
    rewrite (q_ids _ _ _ Q). split_and?; try done; try lia; by eapply quiet_known.
  - intros c e Hc. rewrite (q_codes _ _ _ Q) in Hc. destruct (I2 c e Hc) as (?&?&?&?&Hor).
    unfold CodeOk. pose proof (quiet_closed st st' (wc_receiver e) Q).
    destruct (Hp (wc_receiver e)) as (->&->&->&_).
    split_and!; [done|lia|lia|done|by eapply quiet_known|tauto].
  - split; try (rewrite (q_sockets _ _ _ Q)); try done.
    + intros p. rewrite I4. by destruct (Hp p) as (_&_&_&_&->&_).
    + eauto using quiet_known.
    + intros ip. rewrite (q_active _ _ _ Q), (connCount_ext st st'); [done| |apply Q].
      intros p. apply Hp.
  - by rewrite (q_sessions _ _ _ Q).
Qed.

Lemma quiet_evolves X st st' : quiet P st st' → evolves P X st st'.
Proof.
  intros Q. pose proof (q_peers _ _ _ Q) as Hp. split.
  - by rewrite (q_sessions _ _ _ Q).
  - intros p. left. apply Hp.
  - intros p. by apply quiet_open.
  - intros p. apply Hp.
  - apply Q.
  - by rewrite (q_sockets _ _ _ Q).
  - intros c e Hc _ _. rewrite (q_codes _ _ _ Q). by exists e.
  - intros w. by rewrite (quiet_weight w _ _ Q).
  - destruct (q_log _ _ _ Q) as (ext&?&?&_). by exists ext.
Qed.

Lemma quiet_ok X st st' : Inv X st → quiet P st st' → ok P X st st'.
Proof. intros. split; [by eapply quiet_Inv|by apply quiet_evolves]. Qed.

(** *** Closing a socket *)

Lemma terminate_wp p st :
  wp (terminate p) (λ _ st', quiet P st st' ∧ isOpen st' p = false) st.
Proof.
  apply wp_modify. split.
  - eapply quiet_trans; [|apply quiet_log; [by apply allows|done]].
    apply quiet_upd. unfold sameLinks; cbn. split_and?; try done.
    intros Ho. by apply ws_terminate_not_open in Ho.
  - unfold isOpen. apply bool_decide_eq_false. cbn. rewrite decide_True by done.
    apply ws_terminate_not_open.
Qed.

Lemma closePeerWithCode_wp p code st :
  wp (closePeerWithCode p code) (λ _ st', quiet P st st' ∧ isOpen st' p = false) st.
Proof.
  unfold closePeerWithCode. wp_steps.
  { split; [apply quiet_refl|]. unfold isOpen. rewrite e. done. }
  unfold wsClose. unfold wp at 1.
  set (r := ws_close code _ (p_ws (peer st p))).
  assert (Q : quiet P st (upd p (p_setWs r.2) st)).
  { apply quiet_upd. unfold sameLinks; cbn. split_and?; try done. apply ws_close_open. }
  destruct r.1 eqn:Er; cbn [id].
  - apply wp_modify. split.
    + eapply quiet_trans; [apply Q|].
      eapply quiet_trans; [|apply quiet_upd; by unfold sameLinks].
      apply quiet_log; [by apply allows|done].
    + unfold isOpen. apply bool_decide_eq_false. cbn. rewrite !decide_True by done. cbn.
      by apply ws_close_not_open.
  - eapply wp_mono; [apply terminate_wp|]. intros _ st' [Q' ?]. split; [by eapply quiet_trans|done].
Qed.


(** *** Releasing a connection *)

Lemma filter_sublist {A} (Q : A → Prop) `{!∀ x, Decision (Q x)} (l : list A) : filter Q l `sublist_of` l.
Proof.
  induction l as [|x l IH]; [done|]. destruct (decide (Q x)).
  - rewrite filter_cons_True by done. by constructor.
  - rewrite filter_cons_False by done. by constructor.
Qed.

Lemma filter_remove_length {A} `{EqDecision A} (Q : A → Prop) `{!∀ x, Decision (Q x)} (l : list A) p :
  NoDup l → p ∈ l →
  Z.of_nat (length (filter Q (filter (λ q, q ≠ p) l))) =
  Z.of_nat (length (filter Q l)) - (if decide (Q p) then 1 else 0).
Proof.
  induction l as [|x l IH]; intros Hnd Hp; [by apply not_elem_of_nil in Hp|].
  apply NoDup_cons in Hnd as [Hx Hnd]. destruct (decide (x = p)) as [->|Hne].
  - rewrite (filter_cons_False (λ q, q ≠ p)) by tauto.
    rewrite (filter_all (λ q, q ≠ p)) by (apply Forall_forall; intros y Hy ->; done).
    rewrite filter_cons. case_decide; simpl; lia.
  - apply elem_of_cons in Hp as [?|Hp]; [congruence|].
    rewrite (filter_cons_True (λ q, q ≠ p)) by done. rewrite !filter_cons.
    specialize (IH Hnd Hp). destruct (decide (Q x)); simpl; lia.
Qed.

Lemma connCount_nonneg st ip : 0 <= connCount st ip.
Proof. unfold connCount. lia. Qed.

(** The state after the release of an unreleased connection. *)
Definition released (p : jsstr) (keep : bool) st : Server :=
  let st := upd p (p_setReleased true) st in
  let st := set_connections id (filter (λ q, q ≠ p)) st in
  let st := upd p (λ x, p_setTimers false (p_closeTimer x) x) st in
  let st := if keep then st else upd p (λ x, p_setTimers (p_idleTimer x) false x) st in
  let ip := p_ip (peer st p) in
  let count := default 0 (activeConnections st !! ip) in
  set_connections (if count <=? 1 then delete ip else <[ip := count - 1]>) id st.

Lemma released_peer p keep st q :
  let y := peer (released p keep st) q in
  p_sid y = p_sid (peer st q) ∧ p_code y = p_code (peer st q) ∧ p_role y = p_role (peer st q) ∧
  p_ip y = p_ip (peer st q) ∧ p_ws y = p_ws (peer st q) ∧
  (p_connectionReleased y = if decide (q = p) then true else p_connectionReleased (peer st q)).
Proof. unfold released, peer. destruct keep; simpl; by case_decide. Qed.

Lemma released_sockets p keep st :
  peersBySocket (released p keep st) = filter (λ q, q ≠ p) (peersBySocket st) ∧
  (∀ ip, activeConnections (released p keep st) !! ip =
    let count := default 0 (activeConnections st !! p_ip (peer st p)) in
    (if count <=? 1 then delete (p_ip (peer st p)) else <[p_ip (peer st p) := count - 1]>)
      (activeConnections st) !! ip).
Proof. unfold released, peer. destruct keep; simpl; by rewrite !decide_True by done. Qed.

Lemma release_conn p keep st :
  p_connectionReleased (peer st p) = false → ConnOk st → ConnOk (released p keep st).
Proof.
  intros Hp [I1 I2 I3 I4]. pose proof (proj2 (I2 p) Hp) as Hin.
  destruct (released_sockets p keep st) as [Hs Ha]. split; try rewrite Hs.
  - by apply NoDup_filter.
  - intros q. rewrite list_elem_of_filter, I2.
    destruct (released_peer p keep st q) as (_&_&_&_&_&->). case_decide; naive_solver.
  - intros q [_ Hq]%list_elem_of_filter. destruct (I3 q Hq) as (j&?&?). exists j. by destruct keep.
  - intros ip. assert (Hc : connCount (released p keep st) ip =
      connCount st ip - (if decide (p_ip (peer st p) = ip) then 1 else 0)).
    { trans (Z.of_nat (length (filter (λ q, p_ip (peer st q) = ip) (filter (λ q, q ≠ p) (peersBySocket st))))).
      - unfold connCount. rewrite Hs. f_equal. f_equal. apply list_filter_iff. intros q.
        by destruct (released_peer p keep st q) as (_&_&_&->&_).
      - exact (filter_remove_length (λ q, p_ip (peer st q) = ip) (peersBySocket st) p I1 Hin). }
    rewrite Hc, Ha. clear Hc Ha Hs.
    pose proof (I4 ip) as Hip. pose proof (connCount_nonneg st ip).
    rewrite (I4 (p_ip (peer st p))).
    assert (Hpos : 0 < connCount st (p_ip (peer st p))).
    { unfold connCount. assert (p ∈ filter (λ q, p_ip (peer st q) = p_ip (peer st p)) (peersBySocket st)) as Hf
        by (by apply list_elem_of_filter).
      destruct (filter _ _); [by apply not_elem_of_nil in Hf|simpl; lia]. }
    rewrite (proj2 (Z.eqb_neq (connCount st _) 0)) by lia. simpl.
    destruct (connCount st (p_ip (peer st p)) <=? 1) eqn:E; bool_hyps; case_decide as Hd.
    + subst ip. rewrite lookup_delete_eq. rewrite (proj2 (Z.eqb_eq _ 0)) by lia. done.
    + rewrite lookup_delete_ne by done. rewrite Hip. by rewrite Z.sub_0_r.
    + subst ip. rewrite lookup_insert_eq. rewrite (proj2 (Z.eqb_neq _ 0)) by lia. done.
    + rewrite lookup_insert_ne by done. rewrite Hip. by rewrite Z.sub_0_r.
Qed.

Lemma release_ok X p keep st :
  p_connectionReleased (peer st p) = false → Inv X st → ok P X st (released p keep st).
Proof.
  intros Hp [I1 I2 I3 I4]. pose proof (released_peer p keep st) as Hq.
  assert (Ho : ∀ q, isOpen (released p keep st) q = isOpen st q).
  { intros q. unfold isOpen. by destruct (Hq q) as (_&_&_&_&->&_). }
  assert (Hk : ∀ q, known st q → known (released p keep st) q).
  { intros q (j&?&?). exists j. by destruct keep. }
  assert (Hf : codes (released p keep st) = codes st ∧ sessions (released p keep st) = sessions st ∧
    ids (released p keep st) = ids st ∧ log (released p keep st) = log st) by (by destruct keep).
  destruct Hf as (Hfc&Hfs&Hfi&Hfl).
  split; [split|split].
  - intros sid s Hsid. rewrite Hfs in Hsid. specialize (I1 sid s Hsid). unfold SessionOk in *. rewrite Hfi.
    destruct (Hq (s_sender s)) as (->&_&->&_), (Hq (s_receiver s)) as (->&_&->&_).
    intuition.
  - intros c e Hc. rewrite Hfc in Hc. specialize (I2 c e Hc). unfold CodeOk in *.
    rewrite Ho. destruct (Hq (wc_receiver e)) as (->&->&->&_). intuition.
  - by apply release_conn.
  - by rewrite Hfs.
  - by rewrite Hfs.
  - intros q. left. apply Hq.
  - intros q. by rewrite Ho.
  - intros q. apply Hq.
  - done.
  - rewrite (proj1 (released_sockets p keep st)). apply filter_sublist.
  - intros c e Hc _ _. rewrite Hfc. by exists e.
  - intros w. unfold weight. by rewrite Hfc, Hfs, Hfl.
  - exists []. by rewrite Hfl.
Qed.

Lemma releaseActiveConnection_wp X p keep st :
  Inv X st →
  wp (releaseActiveConnection p keep) (λ _ st',
    ok P X st st' ∧ p_connectionReleased (peer st' p) = true ∧
    (∀ q, p_ws (peer st' q) = p_ws (peer st q))) st.
Proof.
  intros I. unfold releaseActiveConnection. apply wp_bind, wp_get.
  destruct (p_connectionReleased (peer st p)) eqn:Hr.
  { apply wp_ret. split_and!; auto. by apply ok_refl. }
  apply (wp_intro _ _ _ () (released p keep st)); [by destruct keep|].
  destruct (released_peer p keep st p) as (_&_&_&_&_&Hp). rewrite decide_True in Hp by done.
  split_and!; [by apply release_ok|done|]. intros q. by apply released_peer.
Qed.

(** [closePeerAndRelease] and [closePeerWithCodeAndRelease] *)
Lemma closeAndRelease_wp X p code st :
  Inv X st →
  wp (closePeerWithCodeAndRelease p code) (λ _ st',
    ok P X st st' ∧ isOpen st' p = false ∧ p_connectionReleased (peer st' p) = true) st.
Proof.
  intros I. unfold closePeerWithCodeAndRelease. apply wp_bind.
  eapply wp_mono; [apply (closePeerWithCode_wp)|]. intros _ st' [Q Hc].
  pose proof (quiet_ok X st st' I Q) as O.
  eapply wp_mono; [apply (releaseActiveConnection_wp X), O|]. intros _ st'' (O'&?&Hw).
  split_and!; [by eapply ok_trans| |done].
  unfold isOpen in *. by rewrite Hw.
Qed.

Lemma closePeerAndRelease_wp X p st :
  Inv X st →
  wp (closePeerAndRelease p) (λ _ st',
    ok P X st st' ∧ isOpen st' p = false ∧ p_connectionReleased (peer st' p) = true) st.
Proof. apply closeAndRelease_wp. Qed.

(** *** Writes to the links and the maps *)

(** Dropping the session of a peer that is in no live session; its code and
    role may change when nothing relies on them. *)
Lemma unlink_gen_ok X p f r c st :
  Inv X st → unattached st p → f (peer st p) = p_setLink r None c (peer st p) →
  p ∈ X ∨ isOpen st p = false ∨
    (∀ c' e, codes st !! c' = Some e → wc_receiver e = p → r = Some receiver ∧ c = Some c') →
  ok P X st (upd p f st).
Proof.
  intros [I1 I2 [C1 C2 C3 C4] I4] Hun Hf Hexempt.
  set (st' := upd p f st).
  assert (Hq : ∀ q, p_ip (peer st' q) = p_ip (peer st q) ∧ isOpen st' q = isOpen st q ∧
     p_connectionReleased (peer st' q) = p_connectionReleased (peer st q)).
  { intros q. unfold isOpen, st'. rewrite peer_upd. case_decide; [subst q; by rewrite Hf|done]. }
  assert (Hne : ∀ q, q ≠ p → peer st' q = peer st q).
  { intros q ?. unfold st'. rewrite peer_upd. by rewrite decide_False. }
  split; [split|split]; try done.
  - intros sid s Hs. change (sessions st !! sid = Some s) in Hs. specialize (I1 sid s Hs). unfold SessionOk in *.
    destruct I1 as (?&?&H1&?&H2&I1).
    assert (s_sender s ≠ p) by (intros <-; apply Hun in H1; congruence).
    assert (s_receiver s ≠ p) by (intros <-; apply Hun in H2; congruence).
    by rewrite !Hne.
  - intros cc e Hc. change (codes st !! cc = Some e) in Hc. pose proof (I2 cc e Hc) as Ie. unfold CodeOk in *.
    rewrite (proj1 (proj2 (Hq _))).
    destruct (decide (wc_receiver e = p)) as [Hr|Hr].
    + rewrite Hr in *. destruct Ie as (?&?&?&?&_). unfold st' at 1. rewrite peer_upd, decide_True, Hf by done.
      split_and!; try done; try lia. destruct Hexempt as [?|[?|Hkey]]; [by left|by right; left|].
      destruct (Hkey cc e Hc Hr) as [-> ->]. right; right.
      unfold st'. by rewrite peer_upd, decide_True, Hf by done.
    + by rewrite Hne.
  - split; try done.
    + intros q. by rewrite (proj2 (proj2 (Hq q))).
    + intros ip. rewrite (connCount_ext st st'); [done| |done]. intros q. apply Hq.
  - intros q. destruct (decide (q = p)) as [->|]; [|left; by rewrite Hne].
    right. unfold st'. by rewrite peer_upd, decide_True, Hf by done.
  - intros q. by rewrite (proj1 (proj2 (Hq q))).
  - intros q. apply Hq.
  - intros cc e Hc _ _. by exists e.
  - by exists [].
Qed.

Lemma unlink_ok X p r c st :
  Inv X st → unattached st p →
  p ∈ X ∨ isOpen st p = false ∨
    (∀ c' e, codes st !! c' = Some e → wc_receiver e = p → r = Some receiver ∧ c = Some c') →
  ok P X st (upd p (p_setLink r None c) st).
Proof. intros. by eapply unlink_gen_ok. Qed.

Lemma size_mono {A} (m m' : gmap jsstr A) : m ⊆ m' → mapSize m <= mapSize m'.
Proof. intros Hs%map_subseteq_size. unfold mapSize. lia. Qed.

Lemma deleteSession_ok X sid st : Inv X st → ok P X st (set_sessions (delete sid) st).
Proof.
  intros [I1 I2 [C1 C2 C3 C4] I4].
  assert (Hsub : delete sid (sessions st) ⊆ sessions st) by apply delete_subseteq.
  split; [split|split]; try done.
  - intros sid' s Hs. apply I1. by eapply lookup_weaken.
  - etrans; [by apply size_mono|done].
  - intros q. by left.
  - intros c e Hc _ _. by exists e.
  - intros w. unfold weight. cbn. destruct (sessions st !! sid) as [s|] eqn:Hs.
    + rewrite (msum_delete (w_session w) (sessions st) sid s Hs). pose proof (w_session_nonneg w s). lia.
    + rewrite delete_id by done. lia.
  - by exists [].
Qed.

Lemma deleteCode_Inv X c st : Inv X st → Inv X (set_codes (delete c) st).
Proof.
  intros [I1 I2 [C1 C2 C3 C4] I4]. split; try done.
  intros c' e He. apply I2. eapply lookup_weaken; [done|apply delete_subseteq].
Qed.

Lemma deleteCode_ok X c st :
  Inv X st → (∀ e, codes st !! c = Some e → wc_receiver e ∈ X ∨ isOpen st (wc_receiver e) = false) →
  ok P X st (set_codes (delete c) st).
Proof.
  intros I Hc. split; [by apply deleteCode_Inv|]. split; try done.
  - intros q. by left.
  - intros c' e He HX Hop. destruct (decide (c' = c)) as [->|].
    + destruct (Hc e He) as [?|Hcl]; [done|]. change (isOpen st (wc_receiver e) = true) in Hop. congruence.
    + exists e. cbn. by rewrite lookup_delete_ne by done.
  - intros w. unfold weight. cbn. destruct (codes st !! c) as [e|] eqn:He.
    + rewrite (msum_delete (w_code w) (codes st) c e He). pose proof (w_code_nonneg w e). lia.
    + rewrite delete_id by done. lia.
  - by exists [].
Qed.

Lemma insertCode_Inv X c e st : Inv X st → CodeOk X st c e → Inv X (set_codes (<[c:=e]>) st).
Proof.
  intros [I1 I2 [C1 C2 C3 C4] I4] He. split; try done.
  intros c' e' Hc'. change (<[c:=e]> (codes st) !! c' = Some e') in Hc'.
  apply lookup_insert_Some in Hc' as [[<- <-]|[_ Hc']]; [done|by apply I2].
Qed.

(** Lowering the attempts of an entry. *)
Lemma lowerCode_ok X c e e' st :
  Inv X st → codes st !! c = Some e → wc_code e' = wc_code e → wc_receiver e' = wc_receiver e →
  1 <= wc_attempts e' <= wc_attempts e →
  ok P X st (set_codes (<[c:=e']>) st).
Proof.
  intros I He Hcode Hr Ha. split.
  - apply insertCode_Inv; [done|]. pose proof (inv_codes _ _ I _ _ He) as Ie. unfold CodeOk in *.
    rewrite Hr, Hcode. intuition lia.
  - split; try done.
    + intros q. by left.
    + intros c' e'' Hc _ _. cbn. destruct (decide (c' = c)) as [->|].
      * simplify_eq. exists e'. rewrite lookup_insert_eq. split_and!; [done|done|lia].
      * exists e''. by rewrite lookup_insert_ne by done.
    + intros w. unfold weight. cbn. rewrite (msum_update _ _ _ e) by done.
      pose proof (w_less w e' e Hr ltac:(lia)). lia.
    + by exists [].
Qed.

(** The entry [restoreWaitingReceiver] writes. *)
Definition restoredEntry (s : Session) : WaitingCode :=
  {| wc_code := s_code s; wc_receiver := s_receiver s; wc_expiresAt := s_codeExpiresAt s; wc_attempts := s_attempts s |}.

(** The writes that put the receiver of a live session back into [codes]. *)
Definition unlinked (s : Session) st : Server :=
  upd (s_receiver s) (p_setLink (Some receiver) None (Some (s_code s)))
    (upd (s_sender s) (p_setLink None None None) (set_sessions (delete (s_sid s)) st)).

Lemma unlinked_ok X s st :
  Inv X st → detached (set_sessions (delete (s_sid s)) st) s →
  (noEntry st (s_sender s) ∨ isOpen st (s_sender s) = false) →
  s_receiver s ∈ X ∨ isOpen st (s_receiver s) = false ∨
    (∀ c e, codes st !! c = Some e → wc_receiver e = s_receiver s → c = s_code s) →
  ok P X st (unlinked s st) ∧ detached (unlinked s st) s.
Proof.
  intros I D Hs Hr. unfold unlinked.
  set (st1 := set_sessions (delete (s_sid s)) st) in *.
  assert (O1 : ok P X st st1) by by apply deleteSession_ok.
  set (st2 := upd (s_sender s) (p_setLink None None None) st1).
  assert (O2 : ok P X st1 st2).
  { apply unlink_ok; [apply O1|apply D|]. destruct Hs as [Hs|?]; [right; right|by right; left].
    intros c e Hc Hr'. by destruct (Hs c e Hc). }
  assert (D2 : detached st2 s) by (by eapply evolves_detached; [apply O2|]).
  assert (O3 : ok P X st2 (upd (s_receiver s) (p_setLink (Some receiver) None (Some (s_code s))) st2)).
  { apply unlink_ok; [apply O2|apply D2|]. destruct Hr as [?|[Hcl|Hkey]]; [by left| |].
    - right; left. eapply evolves_closed; [apply O2|]. done.
    - right; right. intros c e Hc Hr. by rewrite (Hkey c e Hc Hr). }
  split; [eapply ok_trans; [|done]; by eapply ok_trans|].
  by eapply evolves_detached; [apply O3|].
Qed.

Lemma restored_ok X s st :
  Inv X st → sessions st !! s_sid s = Some s → codes st !! s_code s = None →
  canRestorePrePairCode (s_attempts s) = true →
  ok P X st (set_codes (<[s_code s := restoredEntry s]>) (unlinked s st)).
Proof.
  intros I Hs Hc Hrem. pose proof (inv_sessions _ _ I _ _ Hs) as Is.
  assert (Hn : noEntry st (s_sender s) ∧ noEntry st (s_receiver s)).
  { split; eapply session_member_noEntry; eauto. }
  destruct (unlinked_ok X s st I) as [[I' E'] D]; [by eapply delete_detached|tauto| |].
  { right; right. intros c e He Hr. by destruct (proj2 Hn c e He). }
  split.
  - apply insertCode_Inv; [done|]. unfold CodeOk, restoredEntry. cbn [wc_code wc_receiver wc_attempts].
    apply canRestorePrePairCode_spec in Hrem. destruct Is as (_&_&_&_&_&_&_&_&_&Hk&_).
    split_and!; try done; try lia.
    + unfold unlinked. by rewrite peer_upd, decide_True.
    + right; right. unfold unlinked. by rewrite peer_upd, decide_True.
  - destruct E' as [E1 E2 E3 E4 E5 E6 E7 E8 E9]. split; try done.
    + intros c e He HX Hop. destruct (E7 c e He HX Hop) as (e'&?&?). exists e'. cbn.
      rewrite lookup_insert_ne; [done|congruence].
    + intros w. unfold weight. cbn. rewrite msum_insert by done.
      rewrite (msum_delete (w_session w) (sessions st) (s_sid s) s) by done.
      pose proof (w_restore w (restoredEntry s) s eq_refl ltac:(done)). lia.
Qed.

End Primitives.
