(* ===== verification/ServerCluster.v ===== *)
(** * ServerCluster: the recursive cluster of the server meets its contract.

    A failed send cleans its peer up, and the cleanup sends to the peers of a
    session that it has already deleted: those sends find nothing more to clean
    up.  [SendSpec] is the contract a function of the cluster needs from the
    [send] it calls, only on peers of no live session; with it, [sendBody]
    keeps the invariant on every peer, so two levels of fuel close the
    recursion. *)
From S2P Require Import Prelude.
From S2P Require Import Constants.
From S2P Require Import JsText.
From S2P Require Import Protocol.
From S2P Require Import Policy.
From S2P Require Import Admission.
From S2P Require Import ServerState.
From S2P Require Import Server.
From S2P Require Import ServerInv.
#[local] Open Scope Z_scope.

#[local] Set Default Proof Using "Type*".

Section Contract.
Context `{WsLib, Serializer, Environment}.
Implicit Types st : Server.

(** [m] was delivered to [p], and nothing else happened. *)
Definition sentTo p m st st' : Prop :=
  ∃ w, (readyState w = OPEN → isOpen st p = true) ∧ st' = set_log (Sent p m) (upd p (p_setWs w) st).

(** The receiver of an ended session is closed, or waits for its code again
    with no more attempts than the session had. *)
Definition parked (s : Session) st : Prop :=
  detached st s ∧
  (isOpen st (s_receiver s) = false ∨
   ∃ e, codes st !! s_code s = Some e ∧ wc_receiver e = s_receiver s ∧ wc_attempts e <= s_attempts s).

Definition settled (s : Session) st : Prop := parked s st ∧ isOpen st (s_sender s) = false.

(** What [send] may do, and what it says when it fails. *)
Definition sendPost P X p m st (b : bool) st' : Prop :=
  if b then sentTo p m st st'
  else isOpen st' p = false ∧
    (st' = st ∨
     (ok P X st st' ∨ ∃ st1, sentTo p m st st1 ∧ ok P X st1 st') ∧
     ∀ s, sessions st !! s_sid s = Some s → p = s_sender s ∨ p = s_receiver s →
       s_receiver s ∉ X → settled s st').

Record SendSpec P (send : jsstr → ServerMessage → ST Server bool) : Prop := {
  send_closed p m st : isOpen st p = false → send p m st = Done false st;
  send_unattached X p m st : Inv X st → unattached st p → wp (send p m) (sendPost P X p m st) st
}.

Lemma sentTo_quiet P `{!Allows P} p m st st' : P (Sent p m) → notJoined (Sent p m) → sentTo p m st st' → quiet P st st'.
Proof.
  intros HPm Hj (w&Hw&->). eapply quiet_trans; [|by apply quiet_log].
  apply quiet_upd. unfold sameLinks; cbn. split_and?; try done. intros Ho.
  apply isOpen_spec. auto.
Qed.

End Contract.

(** ** Composite writes that do not send *)
Section Blocks.
Context `{WsLib, Serializer, Environment}.
Context {P : Effect → Prop} {HP : Allows P}.
Implicit Types st : Server.

(** Closing both peers of a session whose links have been cleared. *)
Lemma clearPeerSessionState_ok X p st :
  Inv X st → unattached st p →
  wp (clearPeerSessionState p) (λ _ st', ok P (X ∪ {[p]}) st st') st.
Proof.
  intros I Hun. unfold clearPeerSessionState. apply wp_modify. apply unlink_ok; [|done|left; set_solver].
  eapply Inv_mono; [|done]. set_solver.
Qed.

Lemma clear_detached X s p st :
  Inv X st → detached st s → p = s_sender s ∨ p = s_receiver s →
  wp (clearPeerSessionState p) (λ _ st', ok P (X ∪ {[p]}) st st') st.
Proof. intros I D Hp. apply clearPeerSessionState_ok; [done|]. destruct Hp as [->| ->]; apply D. Qed.

Lemma ok_weaken X Y st st' : X ⊆ Y → ok P X st st' → ok P Y st st'.
Proof. by apply ok_mono. Qed.

Lemma ok_step X Y st st' st'' : ok P X st st' → X ⊆ Y → ok P Y st' st'' → ok P Y st st''.
Proof. intros O ? O'. eapply ok_trans; [by eapply ok_weaken|done]. Qed.

Lemma ok_closed2 X p q st st' :
  ok P (X ∪ {[p]} ∪ {[q]}) st st' → isOpen st' p = false → isOpen st' q = false → ok P X st st'.
Proof. intros O Hp Hq. apply (ok_closed P X p); [by apply (ok_closed P (X ∪ {[p]}) q)|done]. Qed.

Lemma ok_drop X p st st' : ok P (X ∪ {[p]}) st st' → p ∈ X ∨ isOpen st' p = false → ok P X st st'.
Proof.
  intros O [Hp|Hp]; [|by eapply ok_closed]. eapply ok_weaken; [|exact O]. set_solver.
Qed.

(** The tail shared by [closeSessionPeers] and [expireReceiverAfterPrePairAttempts]. *)
Lemma closeBoth_ok X p q st :
  Inv X st →
  wp (closePeerAndRelease p;; closePeerAndRelease q) (λ _ st',
    ok P X st st' ∧ isOpen st' p = false ∧ isOpen st' q = false) st.
Proof.
  intros I. apply wp_bind. eapply wp_mono; [by apply (closePeerAndRelease_wp (P:=P) X)|].
  intros [] st1 (O1&Hp&_). eapply wp_mono; [apply (closePeerAndRelease_wp (P:=P) X), O1|].
  intros [] st2 (O2&Hq&_). split_and!; [by eapply ok_trans| |done]. by eapply evolves_closed; [apply O2|].
Qed.

Lemma closeSessionPeers_ok X s st :
  Inv X st → sessions st !! s_sid s = Some s ∨ detached st s →
  wp (closeSessionPeers s) (λ _ st', ok P X st st' ∧ detached st' s ∧
    isOpen st' (s_sender s) = false ∧ isOpen st' (s_receiver s) = false) st.
Proof.
  intros I Hs. unfold closeSessionPeers. apply wp_bind, wp_modify.
  set (st1 := set_sessions (delete (s_sid s)) st).
  assert (O1 : ok P X st st1) by by apply deleteSession_ok.
  assert (D1 : detached st1 s).
  { destruct Hs; [by eapply delete_detached|]. by eapply evolves_detached; [apply O1|]. }
  apply wp_bind. eapply wp_mono; [apply (clear_detached X s); [apply O1|done|by left]|].
  intros [] st2 O2. assert (D2 : detached st2 s) by (by eapply evolves_detached; [apply O2|]).
  apply wp_bind. eapply wp_mono; [apply (clear_detached (X ∪ {[s_sender s]}) s); [apply O2|done|by right]|].
  intros [] st3 O3. eapply wp_mono; [eapply closeBoth_ok, O3|].
  intros [] st4 (O4&Hc1&Hc2).
  assert (O : ok P (X ∪ {[s_sender s]} ∪ {[s_receiver s]}) st1 st4).
  { eapply ok_trans; [|exact O4]. eapply ok_step; [exact O2|set_solver|exact O3]. }
  split_and!; try done; [|by eapply evolves_detached; [apply O|]].
  eapply ok_trans; [exact O1|]. by eapply ok_closed2.
Qed.

Lemma parked_evolves X s st st' :
  evolves P X st st' → s_receiver s ∉ X → parked s st → parked s st'.
Proof.
  intros E HX [D Hp]. split; [by eapply evolves_detached|].
  destruct (isOpen st' (s_receiver s)) eqn:Ho; [right|by left].
  destruct Hp as [Hcl|(e&Hc&Hr&Ha)].
  - apply (ev_open _ _ _ _ E) in Ho. congruence.
  - rewrite <-Hr in HX, Ho. destruct (ev_entry _ _ _ _ E _ _ Hc HX Ho) as (e'&?&?&?).
    exists e'. split_and!; [done|congruence|lia].
Qed.

Lemma settled_evolves X s st st' :
  evolves P X st st' → s_receiver s ∉ X → settled s st → settled s st'.
Proof. intros E HX [? ?]. split; [by eapply parked_evolves|by eapply evolves_closed]. Qed.

(** Closing a peer does not look at [codes]. *)
Lemma close_frame p st :
  ∃ st', closePeerAndRelease p st = Done () st' ∧ codes st' = codes st ∧
    ∀ f, closePeerAndRelease p (set_codes f st) = Done () (set_codes f st').
Proof.
  unfold closePeerAndRelease, closePeer, closePeerWithCode, releaseActiveConnection, wsClose,
    scheduleCloseTermination, terminate, clearIdleTimer, clearCloseTimer.
  unfold mbind, st_bind, st_get, mret, st_ret, st_modify.
  cbn -[websocketCloseReason wireCloseReason].
  destruct (decide _); cbn -[websocketCloseReason wireCloseReason].
  - destruct (p_connectionReleased _); cbn; eexists; (split; [reflexivity|]); split; [done|done| |]; try done.
  - set (r := ws_close _ _ _). destruct r as [[] w]; cbn;
      (destruct (p_connectionReleased _); cbn; eexists; (split; [reflexivity|]); split; done).
Qed.

(** Whatever happens after the receiver's entry is back, it is settled. *)
Lemma entry_settled X s e st st' :
  ok P X st st' → s_receiver s ∉ X → detached st s → codes st !! s_code s = Some e →
  wc_receiver e = s_receiver s → wc_attempts e <= s_attempts s → isOpen st' (s_sender s) = false →
  settled s st'.
Proof.
  intros [_ E] HX D Hc Hr Ha Hs. split; [|done]. eapply parked_evolves; [exact E|done|].
  split; [done|]. right. by exists e.
Qed.

Definition restorable (s : Session) st : Prop := sessions st !! s_sid s = Some s ∨ settled s st.

Lemma restorable_detached X s st :
  Inv X st → restorable s st → detached (set_sessions (delete (s_sid s)) st) s.
Proof.
  intros I [Hl|[[D _] _]]; [by eapply delete_detached|].
  eapply evolves_detached; [apply (deleteSession_ok (P:=housekeeping) X (s_sid s) st I)|done].
Qed.

(** The state after the writes that unlink the session. *)
Lemma restore_unlinked X s st :
  Inv X st → restorable s st → s_receiver s ∉ X →
  ok P X st (unlinked s st) ∧ detached (unlinked s st) s.
Proof.
  intros I Hr HX. pose proof (restorable_detached X s st I Hr) as D.
  apply unlinked_ok; [done|done|..]; destruct Hr as [Hl|[[_ Hp] Hs]].
  - left. eapply session_member_noEntry; eauto.
  - by right.
  - right; right. intros c e Hc He. exfalso. eapply session_member_noEntry; eauto.
  - right. destruct (isOpen st (s_receiver s)) eqn:Ho; [right|by left].
    destruct Hp as [?|(e&Hc&He&_)]; [congruence|]. intros c' e' Hc' He'.
    destruct (entry_key X st (s_code s) e (s_receiver s)) as [K1 _]; try done.
    destruct (entry_key X st c' e' (s_receiver s)) as [K2 _]; try done. congruence.
Qed.

Lemma closed_parked s st : detached st s → isOpen st (s_receiver s) = false → parked s st.
Proof. intros D Hc. split; [done|by left]. Qed.

Lemma sessionPeerId_member s p side :
  sessionPeerId (s_policy s) p = Some side → p = sessionPeer s side.
Proof. unfold sessionPeerId, sessionPeer. intros H'. by repeat case_match; simplify_eq. Qed.

Lemma member_sessionPeerId X sid s st p :
  Inv X st → sessions st !! sid = Some s → p = s_sender s ∨ p = s_receiver s →
  ∃ side, sessionPeerId (s_policy s) p = Some side.
Proof.
  intros I Hs Hp. destruct (inv_sessions _ _ I _ _ Hs) as (_&_&_&_&_&_&_&_&K1&K2&_).
  assert (Hk : known st p) by (by destruct Hp as [->| ->]).
  destruct Hk as (j&_&Hj). pose proof (nanoid_nonempty 10 j ltac:(lia)) as Hne. rewrite <-Hj in Hne.
  unfold sessionPeerId. destruct p as [|c p]; [done|]. repeat case_decide; eauto.
  destruct Hp; congruence.
Qed.

Lemma deleteOwnCode_ok X p st :
  Inv X st →
  wp (match p_code (peer st p) with
      | Some c => st_when (bool_decide (waitingReceiver st c = Some p)) (st_modify (set_codes (delete c)))
      | None => mret ()
      end) (λ _ st', ok P (X ∪ {[p]}) st st' ∧ sessions st' = sessions st ∧ peers st' = peers st) st.
Proof.
  intros I. assert (I' : Inv (X ∪ {[p]}) st) by (eapply Inv_mono; [|done]; set_solver).
  assert (O : ok P (X ∪ {[p]}) st st) by by apply ok_refl.
  destruct (p_code (peer st p)) as [c|]; [|by apply wp_ret].
  apply wp_when; intros Hw; [|done]. apply wp_modify. split_and!; [|done..].
  apply deleteCode_ok; [done|]. intros e He. left. bool_hyps. unfold waitingReceiver in Hw.
  rewrite He in Hw. injection Hw as ->. set_solver.
Qed.

Lemma quiet_ws p w st :
  (readyState w = OPEN → readyState (p_ws (peer st p)) = OPEN) → quiet P st (upd p (p_setWs w) st).
Proof. intros. apply quiet_upd. unfold sameLinks; cbn. split_and?; done. Qed.

(** Delivering a message keeps the invariant whatever the message is. *)
Lemma sentTo_Inv X p m st st' : sentTo p m st st' → Inv X st → Inv X st'.
Proof.
  intros (w&Hw&->) I.
  assert (I' : Inv X (upd p (p_setWs w) st)).
  { eapply (quiet_Inv (P:=housekeeping)); [|exact I]. apply quiet_upd. unfold sameLinks; cbn.
    split_and?; try done. intros Ho. apply isOpen_spec. auto. }
  destruct I' as [I1 I2 [C1 C2 C3 C4] I4]. split; [exact I1|exact I2|by split|exact I4].
Qed.

End Blocks.

Section Cluster.
Context `{WsLib, Serializer, Environment}.
Context {P : Effect → Prop} {HP : Allows P}.
Context (send : jsstr → ServerMessage → ST Server bool) (Hsend : SendSpec P send).
Implicit Types st : Server.

Lemma send_ok X p m st :
  P (Sent p m) → notJoined (Sent p m) → Inv X st → unattached st p →
  wp (send p m) (λ b st', ok P X st st' ∧ (b = false → isOpen st' p = false)) st.
Proof.
  intros HPm Hj I Hun. eapply wp_mono; [by apply (send_unattached _ _ Hsend X)|].
  intros [] st'; cbn.
  - intros Hs. split; [|done]. apply quiet_ok; [done|]. by eapply sentTo_quiet.
  - intros (Hcl&[->|[[O|(st1&Hs&O)] _]]); (split; [|done]); [by apply ok_refl|done|].
    eapply ok_trans; [|done]. apply quiet_ok; [done|]. by eapply sentTo_quiet.
Qed.

Lemma fail_ok X p code msg st :
  Inv X st → unattached st p → wp (fail send p code msg) (λ _ st', ok P X st st') st.
Proof.
  intros I Hun. unfold fail. apply wp_bind. eapply wp_mono; [apply (send_ok X)|]; try done; [by apply allows|].
  intros b st' [? _]. by apply wp_ret.
Qed.

Lemma notifyPeerLeft_ok X s leaving reason st :
  Inv X st → detached st s → wp (notifyPeerLeft send s leaving reason) (λ _ st', ok P X st st') st.
Proof.
  intros I D. unfold notifyPeerLeft.
  apply (wp_iter _ (λ st', ok P X st st')); [|by apply ok_refl].
  intros p st' Hp O. case_decide; [by apply wp_ret|].
  assert (Hun : unattached st' p).
  { eapply evolves_unattached; [apply O|]. apply elem_of_cons in Hp as [->|Hp%list_elem_of_singleton]; [|subst p]; apply D. }
  apply wp_bind. eapply wp_mono; [apply (send_ok X)|]; try done; [by apply allows|apply O|].
  intros b st'' [? _]. apply wp_ret. by eapply ok_trans.
Qed.

Lemma expireReceiver_ok X s existing st :
  Inv X st → detached st s →
  (∀ e, existing = Some e → ∀ e', codes st !! wc_code e = Some e' → wc_receiver e' = s_receiver s) →
  wp (expireReceiverAfterPrePairAttempts send s existing) (λ _ st',
    ok P X st st' ∧ detached st' s ∧ isOpen st' (s_sender s) = false ∧ isOpen st' (s_receiver s) = false) st.
Proof.
  intros I D He. unfold expireReceiverAfterPrePairAttempts.
  set (Y := X ∪ {[s_sender s]} ∪ {[s_receiver s]}).
  apply wp_bind. eapply (wp_mono _ (λ _ st', ok P Y st st')).
  { assert (IY : Inv Y st) by (eapply Inv_mono; [|done]; set_solver).
    destruct existing as [e|]; [apply wp_modify|apply wp_ret; by apply ok_refl].
    apply deleteCode_ok; [done|]. intros e' He'. left. rewrite (He e eq_refl e' He'). set_solver. }
  intros [] st1 O1. assert (D1 : detached st1 s) by (by eapply evolves_detached; [apply O1|]).
  apply wp_bind. eapply wp_mono; [apply (notifyPeerLeft_ok Y); [apply O1|done]|].
  intros [] st2 O2. assert (D2 : detached st2 s) by (by eapply evolves_detached; [apply O2|]).
  apply wp_bind. eapply wp_mono; [apply (clear_detached (P:=P) Y s); [apply O2|done|by left]|].
  intros [] st3 O3. assert (D3 : detached st3 s) by (by eapply evolves_detached; [apply O3|]).
  apply wp_bind. eapply wp_mono; [apply (clear_detached (P:=P) (Y ∪ {[s_sender s]}) s); [apply O3|done|by right]|].
  intros [] st4 O4. assert (D4 : detached st4 s) by (by eapply evolves_detached; [apply O4|]).
  assert (O : ok P Y st st4).
  { eapply ok_trans; [exact O1|]. eapply ok_trans; [exact O2|].
    eapply ok_weaken; [|eapply ok_step; [exact O3| |exact O4]]; set_solver. }
  apply wp_bind. eapply wp_mono; [apply (fail_ok Y); [apply O|apply D4]|].
  intros [] st5 O5. eapply wp_mono; [eapply closeBoth_ok, O5|].
  intros [] st6 (O6&Hc1&Hc2).
  assert (O' : ok P Y st st6) by (eapply ok_trans; [exact O|]; by eapply ok_trans).
  split_and!; try done; [by eapply ok_closed2|]. by eapply evolves_detached; [apply O'|].
Qed.

Lemma sendRestoredRegistration_ok X s expiresAt st :
  Inv X st → detached st s →
  wp (sendRestoredRegistration send s expiresAt) (λ _ st', ok P X st st') st.
Proof.
  intros I D. unfold sendRestoredRegistration, dateNow. apply wp_bind. unfold wp at 1.
  set (st1 := set_counters 1 0 st).
  assert (O1 : ok P X st st1) by (apply quiet_ok; [done|apply quiet_tick]).
  assert (D1 : detached st1 s) by (by eapply evolves_detached; [apply O1|]).
  apply wp_bind. eapply wp_mono; [apply (send_ok X)|]; try done; [by apply allows|apply O1|apply D1|].
  intros b st2 [O2 Hcl]. destruct b; [apply wp_ret; by eapply ok_trans|].
  specialize (Hcl eq_refl). apply wp_bind, wp_get.
  assert (D2 : detached st2 s) by (by eapply evolves_detached; [apply O2|]).
  apply wp_bind. eapply (wp_mono _ (λ _ st3, ok P X st2 st3)).
  { apply wp_when; intros Hw; [|apply ok_refl, O2]. apply wp_modify. bool_hyps.
    apply deleteCode_ok; [apply O2|]. intros e He. right. unfold waitingReceiver in Hw.
    rewrite He in Hw. simpl in Hw. injection Hw as ->. done. }
  intros [] st3 O3. assert (D3 : detached st3 s) by (by eapply evolves_detached; [apply O3|]).
  apply wp_bind. eapply wp_mono; [apply (clear_detached (P:=P) X s); [apply O3|done|by right]|].
  intros [] st4 O4. eapply wp_mono; [eapply (closePeerAndRelease_wp (P:=P)), O4|].
  intros [] st5 (O5&Hc&_).
  eapply ok_trans; [eapply ok_trans; [exact O1|exact O2]|].
  eapply ok_closed; [|exact Hc]. eapply ok_step; [exact O3|set_solver|]. by eapply ok_trans.
Qed.

(** *** [restoreWaitingReceiver] *)

Lemma afterRestore_ok X s reason notify expiresAt st :
  Inv X st → detached st s →
  wp (st_when notify (notifyPeerLeft send s (Some (s_sender s)) reason);;
      closePeerAndRelease (s_sender s);;
      sendRestoredRegistration send s expiresAt)
    (λ _ st', ok P X st st' ∧ isOpen st' (s_sender s) = false) st.
Proof.
  intros I D. apply wp_bind. eapply (wp_mono _ (λ _ st', ok P X st st')).
  { apply wp_when; intros _; [by apply notifyPeerLeft_ok|by apply ok_refl]. }
  intros [] st1 O1. assert (D1 : detached st1 s) by (by eapply evolves_detached; [apply O1|]).
  apply wp_bind. eapply wp_mono; [apply (closePeerAndRelease_wp (P:=P) X), O1|].
  intros [] st2 (O2&Hc&_). assert (D2 : detached st2 s) by (by eapply evolves_detached; [apply O2|]).
  eapply wp_mono; [apply (sendRestoredRegistration_ok X); [apply O2|done]|].
  intros [] st3 O3. split; [|by eapply evolves_closed; [apply O3|]].
  eapply ok_trans; [exact O1|]. by eapply ok_trans.
Qed.

(** A closed receiver gets nothing, and the entry written for it is deleted
    again: the net effect is that of the cleared links. *)
Lemma afterRestore_closed X s reason notify st :
  Inv X st → detached st s → isOpen st (s_receiver s) = false → codes st !! s_code s = None →
  wp (st_modify (set_codes (<[s_code s := restoredEntry s]>));;
      st_when notify (notifyPeerLeft send s (Some (s_sender s)) reason);;
      closePeerAndRelease (s_sender s);;
      sendRestoredRegistration send s (s_codeExpiresAt s))
    (λ _ st', ok P X st st' ∧ isOpen st' (s_sender s) = false) st.
Proof.
  intros I D Hcl Hc. set (put := <[s_code s := restoredEntry s]>).
  apply wp_bind, wp_modify, wp_bind.
  apply (wp_intro _ _ _ () (set_codes put st)).
  { destruct notify; [|done]. cbn. unfold notifyPeerLeft. cbn.
    assert (Hsd : send (s_receiver s) (SPeerLeft (s_sid s) (peerLeftReason reason)) (set_codes put st)
      = Done false (set_codes put st)) by (by apply (send_closed _ _ Hsend)).
    unfold mbind, st_bind, mret, st_ret. repeat case_decide; simplify_eq; try done. by rewrite Hsd. }
  destruct (close_frame (s_sender s) st) as (st1&E1&Hc1&Ef).
  apply wp_bind, (wp_intro _ _ _ () (set_codes put st1)); [apply Ef|].
  pose proof (closePeerAndRelease_wp (P:=P) X (s_sender s) st I) as Hw. unfold wp in Hw. rewrite E1 in Hw.
  destruct Hw as (O1&Hcs&_).
  assert (Hcl1 : isOpen st1 (s_receiver s) = false) by (by eapply evolves_closed; [apply O1|]).
  unfold sendRestoredRegistration, dateNow. apply wp_bind. unfold wp at 1.
  set (st2 := set_counters 1 0 st1).
  apply wp_bind, (wp_intro _ _ _ false (set_codes put st2)); [by apply (send_closed _ _ Hsend)|].
  apply wp_bind, wp_get, wp_bind.
  assert (Hl : waitingReceiver (set_codes put st2) (s_code s) = Some (s_receiver s)).
  { unfold waitingReceiver, put. cbn. by rewrite lookup_insert_eq. }
  rewrite bool_decide_true by done. cbn [st_when]. apply wp_modify.
  assert (E2 : set_codes (delete (s_code s)) (set_codes put st2) = st2).
  { unfold set_codes, put. cbn. rewrite delete_insert_id by congruence. done. }
  rewrite E2.
  assert (O2 : ok P X st1 st2) by (apply quiet_ok; [apply O1|apply quiet_tick]).
  assert (O12 : ok P X st st2) by (by eapply ok_trans).
  apply wp_bind. eapply wp_mono.
  { apply (clear_detached (P:=P) X s); [apply O12| |by right]. by eapply evolves_detached; [apply O12|]. }
  intros [] st3 O3. eapply wp_mono; [eapply (closePeerAndRelease_wp (P:=P)), O3|].
  intros [] st4 (O4&Hc4&_). assert (O34 : ok P (X ∪ {[s_receiver s]}) st2 st4) by (by eapply ok_trans).
  split.
  - eapply ok_trans; [exact O12|]. by eapply ok_closed.
  - eapply evolves_closed; [apply O34|]. done.
Qed.

Lemma expire_lowered s e e' st :
  wc_code e = s_code s → wc_code e' = s_code s →
  expireReceiverAfterPrePairAttempts send s (Some e') (set_codes (<[s_code s := e']>) st) =
  expireReceiverAfterPrePairAttempts send s (Some e) st.
Proof.
  intros He He'. unfold expireReceiverAfterPrePairAttempts. rewrite He, He'.
  unfold mbind, st_bind, st_modify.
  assert (E : set_codes (delete (s_code s)) (set_codes (<[s_code s := e']>) st) = set_codes (delete (s_code s)) st).
  { unfold set_codes. cbn. by rewrite delete_insert_eq. }
  by rewrite E.
Qed.

Lemma restore_existing X s e reason notify st :
  Inv X st → restorable s st → s_receiver s ∉ X →
  codes st !! s_code s = Some e →
  wp (restoreWaitingReceiver send s reason notify) (λ _ st', ok P X st st' ∧ settled s st') st.
Proof.
  intros I Hr HX Hc. unfold restoreWaitingReceiver. apply wp_bind, wp_get. rewrite Hc.
  pose proof (inv_codes _ _ I _ _ Hc) as (Hcode&Hatt&_).
  apply wp_bind, wp_modify. destruct (decide (wc_receiver e = s_receiver s)) as [He|He].
  - destruct (restore_unlinked X s st I Hr HX) as [O D].
    unfold clearPeerSessionState, receiverWaitsAgain. do 2 apply wp_bind, wp_modify.
    change (upd (s_receiver s) _ _) with (unlinked s st).
    apply wp_bind, wp_modify. set (e' := Build_WaitingCode _ _ _ _).
    destruct (canRestorePrePairCode (Z.min (wc_attempts e) (s_attempts s))) eqn:Hcan; cbn [negb].
    + apply canRestorePrePairCode_spec in Hcan.
      assert (O1 : ok P X (unlinked s st) (set_codes (<[s_code s := e']>) (unlinked s st))).
      { eapply lowerCode_ok; [apply O|exact Hc|done|done|]. cbn. lia. }
      assert (D1 : detached (set_codes (<[s_code s := e']>) (unlinked s st)) s)
        by (by eapply evolves_detached; [apply O1|]).
      eapply wp_mono; [apply (afterRestore_ok X); [apply O1|done]|].
      intros [] st' [O2 Hs]. split; [eapply ok_trans; [exact O|]; by eapply ok_trans|].
      eapply (entry_settled X s e'); [exact O2|done|done| |done| |done].
      * cbn. by rewrite lookup_insert_eq.
      * cbn. lia.
    + unfold wp. rewrite (expire_lowered s e); [|done|done].
      pose proof (expireReceiver_ok X s (Some e) (unlinked s st)) as Hw.
      eapply wp_mono; [apply Hw; [apply O|done|]|].
      * intros e0 [= <-] e1 He1. rewrite Hcode in He1. change (codes st !! s_code s = Some e1) in He1. congruence.
      * intros [] st' (O2&D2&?&?). split; [by eapply ok_trans|]. split; [split; [done|by left]|done].
  - pose proof (restorable_detached X s st I Hr) as D.
    assert (O : ok P X st (set_sessions (delete (s_sid s)) st)) by (by apply deleteSession_ok).
    apply wp_bind. eapply wp_mono; [apply (notifyPeerLeft_ok X); [apply O|done]|].
    intros [] st1 O1. eapply wp_mono; [apply (closeSessionPeers_ok X); [apply O1|right]|].
    { by eapply evolves_detached; [apply O1|]. }
    intros [] st2 (O2&D2&?&?). split; [eapply ok_trans; [exact O|]; by eapply ok_trans|].
    split; [split; [done|by left]|done].
Qed.

Lemma restore_absent X s reason notify st :
  Inv X st → restorable s st → s_receiver s ∉ X →
  codes st !! s_code s = None →
  wp (restoreWaitingReceiver send s reason notify) (λ _ st', ok P X st st' ∧ settled s st') st.
Proof.
  intros I Hr HX Hc. unfold restoreWaitingReceiver. apply wp_bind, wp_get. rewrite Hc.
  destruct (restore_unlinked X s st I Hr HX) as [O D].
  unfold clearPeerSessionState at 1, receiverWaitsAgain. do 3 apply wp_bind, wp_modify.
  change (upd (s_receiver s) _ _) with (unlinked s st).
  destruct (canRestorePrePairCode (s_attempts s)) eqn:Hcan; cbn [negb].
  - destruct Hr as [Hl|[[_ Hp] Hs]].
    + pose proof (restored_ok (P:=P) X s st I Hl Hc Hcan) as O1.
      apply wp_bind, wp_modify. fold (restoredEntry s).
      set (stR := set_codes (<[s_code s := restoredEntry s]>) (unlinked s st)) in *.
      assert (D1 : detached stR s) by done.
      eapply wp_mono; [apply (afterRestore_ok X); [apply O1|done]|].
      intros [] st' [O2 Hcl]. split; [by eapply ok_trans|].
      eapply (entry_settled X s (restoredEntry s)); [exact O2|done|done| |done|done|done].
      unfold stR. cbn. by rewrite lookup_insert_eq.
    + destruct Hp as [Hcl|(e&?&_)]; [|congruence]. fold (restoredEntry s).
      assert (Hcl1 : isOpen (unlinked s st) (s_receiver s) = false) by (by eapply evolves_closed; [apply O|]).
      eapply wp_mono; [apply (afterRestore_closed X); [apply O|done|done|done]|].
      intros [] st' [O2 ?]. split; [by eapply ok_trans|]. split; [|done].
      split; [by eapply evolves_detached; [apply O2|]|]. left. by eapply evolves_closed; [apply O2|].
  - eapply wp_mono; [apply (expireReceiver_ok X); [apply O|done|done]|].
    intros [] st' (O2&D2&?&?). split; [by eapply ok_trans|]. split; [split; [done|by left]|done].
Qed.

Lemma restoreWaitingReceiver_ok X s reason notify st :
  Inv X st → restorable s st → s_receiver s ∉ X →
  wp (restoreWaitingReceiver send s reason notify) (λ _ st', ok P X st st' ∧ settled s st') st.
Proof.
  intros I Hr HX. destruct (codes st !! s_code s) eqn:Hc; [by eapply restore_existing|by eapply restore_absent].
Qed.

(** *** [endSession] and [cleanupPeer] *)

Lemma endSession_ok X s reason side st :
  Inv X st → sessions st !! s_sid s = Some s ∨ detached st s →
  sessionPeer s side ∈ X ∨ isOpen st (sessionPeer s side) = false →
  wp (endSession send s reason (Some side)) (λ _ st', ok P X st st' ∧ detached st' s ∧
    isOpen st' (sessionPeer s (otherSessionPeerId side)) = false) st.
Proof.
  intros I Hs Hleave. unfold endSession. apply wp_bind, wp_modify.
  set (st1 := set_sessions (delete (s_sid s)) st).
  assert (O1 : ok P X st st1) by by apply deleteSession_ok.
  assert (D1 : detached st1 s).
  { destruct Hs; [by eapply delete_detached|]. by eapply evolves_detached; [apply O1|]. }
  apply wp_bind. eapply wp_mono; [apply (notifyPeerLeft_ok X); [apply O1|done]|].
  intros [] st2 O2. assert (D2 : detached st2 s) by (by eapply evolves_detached; [apply O2|]).
  apply wp_bind. eapply wp_mono; [apply (clear_detached (P:=P) X s); [apply O2|done|by left]|].
  intros [] st3 O3. assert (D3 : detached st3 s) by (by eapply evolves_detached; [apply O3|]).
  apply wp_bind. eapply wp_mono; [apply (clear_detached (P:=P) (X ∪ {[s_sender s]}) s); [apply O3|done|by right]|].
  intros [] st4 O4. cbn [fmap option_fmap option_map].
  eapply wp_mono; [eapply (closePeerAndRelease_wp (P:=P)), O4|].
  intros [] st5 (O5&Hc&_). set (Y := X ∪ {[s_sender s]} ∪ {[s_receiver s]}) in *.
  assert (O : ok P Y st st5).
  { eapply ok_step; [exact O1|set_solver|]. eapply ok_step; [exact O2|set_solver|].
    eapply ok_step; [exact O3|set_solver|]. by eapply ok_trans. }
  split_and!; [|eapply evolves_detached; [apply O5|]; by eapply evolves_detached; [apply O4|]|done].
  - assert (Hl : sessionPeer s side ∈ X ∨ isOpen st5 (sessionPeer s side) = false).
    { destruct Hleave; [by left|right]. by eapply evolves_closed; [apply O|]. }
    destruct side; cbn in Hl, Hc; unfold Y in O.
    + eapply ok_drop; [eapply ok_drop; [exact O|by right]|done].
    + eapply ok_drop; [eapply ok_drop; [exact O|]|by right]. destruct Hl; [left; set_solver|by right].
Qed.

(** What [cleanupPeer p] leaves of a session of [p]. *)
Definition cleaned (p : jsstr) (s : Session) st : Prop :=
  detached st s ∧ (s_sender s ≠ p → isOpen st (s_sender s) = false) ∧ (s_receiver s ≠ p → parked s st).

Lemma cleanupPeer_ok X p reason st :
  Inv X st → (∀ sid s, sessions st !! sid = Some s → p = s_sender s → s_receiver s ∉ X) →
  wp (cleanupPeer send p reason) (λ _ st', ok P (X ∪ {[p]}) st st' ∧
    ∀ sid s, sessions st !! sid = Some s → p = s_sender s ∨ p = s_receiver s → cleaned p s st') st.
Proof.
  intros I HX. unfold cleanupPeer. apply wp_bind, wp_get, wp_bind.
  eapply wp_mono; [by apply (deleteOwnCode_ok X)|]. intros [] st1 (O1&Hs1&Hp1).
  assert (Hmem : ∀ sid s, sessions st !! sid = Some s → p = s_sender s ∨ p = s_receiver s →
    p_sid (peer st p) = Some sid ∧ s_sid s = sid ∧ s_sender s ≠ s_receiver s).
  { intros sid s Hs Hp. destruct (inv_sessions _ _ I _ _ Hs) as (?&?&?&_&?&_).
    split_and!; [by destruct Hp as [->| ->]|done..]. }
  destruct (p_sid (peer st p) ≫= λ sid, sessions st !! sid) as [s|] eqn:Hs0; cycle 1.
  { apply wp_ret. split; [done|]. intros sid s Hs Hp. destruct (Hmem sid s Hs Hp) as (Hsid&_).
    rewrite Hsid in Hs0. simpl in Hs0. congruence. }
  apply bind_Some in Hs0 as (sid0&Hsid0&Hs0).
  assert (Hone : ∀ sid s', sessions st !! sid = Some s' → p = s_sender s' ∨ p = s_receiver s' → s' = s).
  { intros sid s' Hs' Hp. destruct (Hmem sid s' Hs' Hp) as (Hsid&_). congruence. }
  assert (Hlive : sessions st1 !! s_sid s = Some s).
  { rewrite Hs1. destruct (inv_sessions _ _ I _ _ Hs0) as (->&_). done. }
  assert (Hd : s_sender s ≠ s_receiver s) by apply (inv_sessions _ _ I _ _ Hs0).
  unfold senderDisconnectCanRestoreReceiver.
  destruct (bool_decide (s_sender s = p) && sessionBeforePairAcceptance (s_policy s)) eqn:Hrest.
  - bool_hyps. subst p. eapply wp_mono.
    + apply (restoreWaitingReceiver_ok (X ∪ {[s_sender s]})); [apply O1|by left|].
      pose proof (HX _ _ Hs0 eq_refl). set_solver.
    + intros [] st2 [O2 [Hpk Hc]]. split; [by eapply ok_trans|]. intros sid s' Hs' Hp'.
      rewrite (Hone sid s' Hs' Hp'). split_and!; [apply Hpk|done..].
  - destruct (sessionPeerId (s_policy s) p) as [side|] eqn:Hside; cycle 1.
    { apply wp_ret. split; [done|]. intros sid s' Hs' Hp'. pose proof (Hone sid s' Hs' Hp') as ->.
      destruct (member_sessionPeerId X sid s st p I Hs' Hp') as [? ?]. congruence. }
    pose proof (sessionPeerId_member s p side Hside) as ->.
    eapply wp_mono; [apply (endSession_ok (X ∪ {[sessionPeer s side]})); [apply O1|by left|left; set_solver]|].
    intros [] st2 (O2&D2&Hc). split; [by eapply ok_trans|]. intros sid s' Hs' Hp'.
    rewrite (Hone sid s' Hs' Hp'). destruct side; cbn in *; split_and!; try done;
      by intros _; apply closed_parked.
Qed.

(** *** [sendBody] *)

(** The sessions [p] sends for have receivers that are not exempted. *)
Definition exemptOk (X : gset jsstr) p st : Prop :=
  ∀ sid s, sessions st !! sid = Some s → p = s_sender s → s_receiver s ∉ X.

Lemma closePeerForSendFailure_ok X p reason st :
  Inv X st → exemptOk X p st →
  wp (closePeerForSendFailure send p reason) (λ _ st', ok P X st st' ∧ isOpen st' p = false ∧
    ∀ sid s, sessions st !! sid = Some s → p = s_sender s ∨ p = s_receiver s →
      s_receiver s ∉ X → settled s st') st.
Proof.
  intros I HX. unfold closePeerForSendFailure. apply wp_bind.
  eapply wp_mono; [by apply (cleanupPeer_ok X)|]. intros [] st1 (O1&Hclean).
  eapply wp_mono; [apply (closePeerAndRelease_wp (P:=P) (X ∪ {[p]})), O1|].
  intros [] st2 (O2&Hc&_). split_and!; [|done|].
  - eapply ok_closed; [|exact Hc]. by eapply ok_trans.
  - intros sid s Hs Hp Hr. destruct (Hclean sid s Hs Hp) as (D&Hsd&Hpk).
    assert (D2 : detached st2 s) by (by eapply evolves_detached; [apply O2|]).
    split.
    + destruct (decide (s_receiver s = p)) as [<-|Hne]; [by apply closed_parked|].
      eapply parked_evolves; [apply O2|set_solver|auto].
    + destruct (decide (s_sender s = p)) as [<-|Hne]; [done|]. eapply evolves_closed; [apply O2|auto].
Qed.

Lemma failure_post X p m reason st st1 :
  Inv X st → exemptOk X p st → sessions st1 = sessions st →
  quiet P st st1 ∨ sentTo p m st st1 ∧ Inv X st1 →
  wp (closePeerForSendFailure send p reason;; mret false) (sendPost P X p m st) st1.
Proof.
  intros I HX Hs Hst. apply wp_bind.
  assert (I1 : Inv X st1) by (destruct Hst as [Q|[_ ?]]; [by eapply quiet_Inv|done]).
  eapply wp_mono; [apply (closePeerForSendFailure_ok X p reason st1 I1)|].
  { intros sid s Hl. rewrite Hs in Hl. by eapply HX. }
  intros [] st2 (O2&Hc&Hset). apply wp_ret. cbn. split; [done|right]. split.
  - destruct Hst as [Q|[Hsent _]]; [left|right; by exists st1].
    eapply ok_trans; [|exact O2]. by apply quiet_ok.
  - intros s Hl Hp Hr. rewrite <-Hs in Hl. by eapply Hset.
Qed.

Lemma sendBody_spec X p m st :
  Inv X st → exemptOk X p st → wp (sendBody send p m) (sendPost P X p m st) st.
Proof.
  intros I HX. unfold sendBody. apply wp_bind, wp_get.
  destruct (isOpen st p) eqn:Ho; cbn [negb]; [|apply wp_ret; by split; [|left]].
  destruct (peerBackpressure st p); [apply failure_post; auto; left; apply quiet_refl|].
  unfold wp, st_catch. unfold mbind at 1, st_bind at 1, st_lift at 1.
  destruct (serializeMessage m) as [data|err]; cbn; cycle 1.
  { apply (failure_post X p m (js "send_error") st st); auto. left; apply quiet_refl. }
  unfold mbind at 1, st_bind at 1, wsSend at 1.
  destruct (ws_send data (p_ws (peer st p))) as [[] w] eqn:Ew; cbn.
  - set (st1 := set_log (Sent p m) (upd p (p_setWs w) st)).
    assert (Hsent : sentTo p m st st1).
    { exists w. split; [|done]. intros Hw. apply isOpen_spec. apply (ws_send_open data). by rewrite Ew. }
    unfold mbind at 1, st_bind at 1, st_get at 1. destruct (peerBackpressure st1 p); [|done].
    assert (Hf : wp (closePeerForSendFailure send p (js "signaling backpressure");; mret false)
      (sendPost P X p m st) st1).
    { apply failure_post; auto. right. split; [done|]. by eapply sentTo_Inv. }
    unfold wp in Hf. by destruct ((closePeerForSendFailure send p (js "signaling backpressure");; mret false) st1).
  - apply (failure_post X p m (js "send_error") st (upd p (p_setWs w) st)); auto. left.
    apply quiet_ws. intros Hw. apply (ws_send_open data). by rewrite Ew.
Qed.

End Cluster.

(** ** Closing the recursion: two levels of fuel suffice *)
Section Closed.
Context `{WsLib, Serializer, Environment}.
Context {P : Effect → Prop} {HP : Allows P}.
Implicit Types st : Server.

Lemma unattached_exempt X p st : Inv X st → unattached st p → exemptOk X p st.
Proof.
  intros I Hun sid s Hs ->. destruct (inv_sessions _ _ I _ _ Hs) as (_&_&Hl&_).
  apply Hun in Hl. congruence.
Qed.

Lemma closed_done (send' : jsstr → ServerMessage → ST Server bool) p m st :
  isOpen st p = false → sendBody send' p m st = Done false st.
Proof. intros Hc. unfold sendBody, mbind, st_bind, st_get. by rewrite Hc. Qed.

(** On a peer of no live session, [sendBody] does not use its [send]. *)
Lemma cleanupPeer_unattached s1 s2 p reason st :
  unattached st p → cleanupPeer s1 p reason st = cleanupPeer s2 p reason st.
Proof.
  intros Hun. unfold cleanupPeer, mbind, st_bind, st_get.
  assert (Hn : (p_sid (peer st p) ≫= λ sid, sessions st !! sid) = None).
  { destruct (p_sid (peer st p)) as [sid|] eqn:E; [|done]. by apply Hun. }
  unfold mbind in Hn. rewrite Hn. done.
Qed.

Lemma closePeerForSendFailure_unattached s1 s2 p reason st :
  unattached st p →
  closePeerForSendFailure s1 p reason st = closePeerForSendFailure s2 p reason st ∧
  ∃ st', closePeerForSendFailure s2 p reason st = Done () st'.
Proof.
  intros Hun. unfold closePeerForSendFailure, mbind, st_bind.
  rewrite (cleanupPeer_unattached s1 s2) by done. split; [done|].
  assert (Hc : ∃ st', cleanupPeer s2 p reason st = Done () st').
  { unfold cleanupPeer, mbind, st_bind, st_get.
    assert (Hn : (p_sid (peer st p) ≫= λ sid, sessions st !! sid) = None).
    { destruct (p_sid (peer st p)) as [sid|] eqn:E; [|done]. by apply Hun. }
    unfold mbind in Hn. rewrite Hn.
    destruct (p_code (peer st p)) as [c|]; [|by eexists]. destruct (bool_decide _); by eexists. }
  destruct Hc as [st1 ->]. destruct (close_frame p st1) as (st2&->&_). by eexists.
Qed.

Lemma unattached_ws p w st q : unattached st q → unattached (upd p (p_setWs w) st) q.
Proof.
  intros Hun sid. rewrite peer_upd. case_decide as Hd; [|apply Hun].
  cbn. subst q. apply (Hun sid).
Qed.

Lemma sendBody_unattached s1 s2 p m st :
  unattached st p → sendBody s1 p m st = sendBody s2 p m st.
Proof.
  intros Hun. unfold sendBody, st_catch, mbind, st_bind, st_get, st_lift, wsSend.
  assert (Hc : ∀ reason st', unattached st' p →
    closePeerForSendFailure s1 p reason st' = closePeerForSendFailure s2 p reason st')
    by (intros; by eapply closePeerForSendFailure_unattached).
  destruct (negb (isOpen st p)); [done|]. destruct (peerBackpressure st p); [by rewrite Hc|].
  destruct (serializeMessage m); [|by rewrite Hc].
  destruct (ws_send a (p_ws (peer st p))) as [[] w]; cbn; [|by rewrite Hc by by apply unattached_ws].
  destruct (peerBackpressure _ p); [|done].
  rewrite Hc by by apply unattached_ws.
  edestruct (closePeerForSendFailure_unattached s1 s2 p) as [_ [st' ->]]; [by apply (unattached_ws p w st)|done].
Qed.

(** A sender that only closes the peer meets the contract, so every sender
    meets it on the peers where it is not used. *)
Definition closingSend (p : jsstr) (m : ServerMessage) : ST Server bool :=
  st ← st_get;
  if isOpen st p then terminate p;; mret false else mret false.

Lemma closingSend_spec : SendSpec P closingSend.
Proof.
  split.
  - intros p m st Hc. unfold closingSend, mbind, st_bind, st_get. by rewrite Hc.
  - intros X p m st I Hun. unfold closingSend. apply wp_bind, wp_get.
    destruct (isOpen st p) eqn:Ho; [|apply wp_ret; by split; [|left]].
    apply wp_bind. eapply wp_mono; [apply (terminate_wp (P:=P))|]. intros [] st' [Q Hc]. apply wp_ret.
    split; [done|right]. split; [left; by apply quiet_ok|]. intros s Hs Hp _.
    destruct (inv_sessions _ _ I _ _ Hs) as (_&_&H3&_&H4&_). destruct Hp as [->| ->];
      [apply Hun in H3|apply Hun in H4]; congruence.
Qed.

Lemma sendBody_any X (send' : jsstr → ServerMessage → ST Server bool) p m st :
  Inv X st → unattached st p → wp (sendBody send' p m) (sendPost P X p m st) st.
Proof.
  intros I Hun. unfold wp. rewrite (sendBody_unattached send' closingSend) by done.
  apply (sendBody_spec _ closingSend_spec); [done|by apply unattached_exempt].
Qed.

Lemma sendFuel_spec n : SendSpec P (sendFuel (S n)).
Proof.
  split; [intros; by apply closed_done|]. intros X p m st I Hun. by apply sendBody_any.
Qed.

Lemma unattached_dec st p : Decision (unattached st p).
Proof.
  destruct (p_sid (peer st p)) as [sid|] eqn:E; [destruct (sessions st !! sid) eqn:E'|].
  - right. intros Hun. specialize (Hun sid E). congruence.
  - left. intros sid' Hs. congruence.
  - left. intros sid' Hs. congruence.
Defined.

Lemma attached_size st p : ¬ unattached st p → (1 <= size (sessions st))%nat.
Proof.
  intros Hun. destruct (size (sessions st)) eqn:E; [|lia]. exfalso. apply Hun.
  apply map_size_empty_iff in E. intros sid _. by rewrite E.
Qed.

(** *** [send] on every peer *)
Lemma send_spec X p m st :
  Inv X st → exemptOk X p st → wp (send p m) (sendPost P X p m st) st.
Proof.
  intros I HX. unfold wp, send. change (wp (sendFuel (S (size (sessions st))) p m) (sendPost P X p m st) st).
  destruct (unattached_dec st p) as [Hun|Hat]; [by apply sendBody_any|].
  apply attached_size in Hat. destruct (size (sessions st)) as [|n]; [lia|].
  by apply (sendBody_spec _ (sendFuel_spec n)).
Qed.

Lemma send_meets_contract : SendSpec P send.
Proof.
  split.
  - intros p m st Hc. by apply closed_done.
  - intros X p m st I Hun. apply send_spec; [done|by apply unattached_exempt].
Qed.

(** *** The source's equation *)

Definition refines {A} (m m' : ST Server A) : Prop := ∀ st a st', m st = Done a st' → m' st = Done a st'.

Lemma refines_refl {A} (m : ST Server A) : refines m m.
Proof. by intros ?. Qed.

Lemma refines_bind {A B} (m m' : ST Server A) (f f' : A → ST Server B) :
  refines m m' → (∀ a, refines (f a) (f' a)) → refines (m ≫= f) (m' ≫= f').
Proof.
  intros Hm Hf st b st'. unfold mbind, st_bind. destruct (m st) eqn:E; [|done..].
  rewrite (Hm _ _ _ E). apply Hf.
Qed.

Lemma refines_iter {A} (f f' : A → ST Server ()) l : (∀ x, refines (f x) (f' x)) → refines (st_iter f l) (st_iter f' l).
Proof. intros Hf. induction l; simpl; [apply refines_refl|]. by apply refines_bind. Qed.

Lemma refines_when b (m m' : ST Server ()) : refines m m' → refines (st_when b m) (st_when b m').
Proof. destruct b; [done|]. intros _. apply refines_refl. Qed.

Ltac refine_cluster :=
  repeat (intros; match goal with
  | H : ∀ p m, refines _ _ |- _ => apply H
  | |- refines ?m ?m => apply refines_refl
  | |- refines (_ ≫= _) (_ ≫= _) => apply refines_bind
  | |- refines (st_iter _ _) (st_iter _ _) => apply refines_iter
  | |- refines (st_when _ _) (st_when _ _) => apply refines_when
  | |- refines (if ?b then _ else _) _ => destruct b
  | |- refines (match ?x with _ => _ end) _ => destruct x
  end).

Lemma closePeerForSendFailure_refines s1 s2 p reason :
  (∀ p m, refines (s1 p m) (s2 p m)) →
  refines (closePeerForSendFailure s1 p reason) (closePeerForSendFailure s2 p reason).
Proof.
  intros Hs. unfold closePeerForSendFailure, cleanupPeer, endSession, restoreWaitingReceiver,
    expireReceiverAfterPrePairAttempts, sendRestoredRegistration, notifyPeerLeft, fail.
  refine_cluster.
Qed.

(** A sender that refuses the calls the contract does not cover. *)
Definition guardedSend (p : jsstr) (m : ServerMessage) : ST Server bool := λ st,
  if isOpen st p then
    if unattached_dec st p then sendBody closingSend p m st else Raised [] st
  else Done false st.

Lemma guardedSend_spec : SendSpec P guardedSend.
Proof.
  split.
  - intros p m st Hc. unfold guardedSend. by rewrite Hc.
  - intros X p m st I Hun. pose proof (sendBody_any X closingSend p m st I Hun) as Hw.
    unfold wp, guardedSend in *. destruct (isOpen st p) eqn:Ho; [by destruct (unattached_dec st p)|].
    split; [done|by left].
Qed.

Lemma guardedSend_refines s' p m : refines (guardedSend p m) (sendBody s' p m).
Proof.
  intros st a st'. unfold guardedSend. destruct (isOpen st p) eqn:Ho.
  - destruct (unattached_dec st p); [|done]. by rewrite (sendBody_unattached s' closingSend).
  - by rewrite closed_done.
Qed.

Definition coversGuarded (s : jsstr → ServerMessage → ST Server bool) : Prop :=
  ∀ p m, refines (guardedSend p m) (s p m).

End Closed.

Section Equation.
Context `{WsLib, Serializer, Environment}.
Implicit Types st : Server.

Lemma closePeerForSendFailure_eq X s1 s2 p reason st :
  coversGuarded s1 → coversGuarded s2 → Inv X st → exemptOk X p st →
  closePeerForSendFailure s1 p reason st = closePeerForSendFailure s2 p reason st ∧
  ∃ st', closePeerForSendFailure s2 p reason st = Done () st'.
Proof.
  intros H1' H2' I HX.
  pose proof (closePeerForSendFailure_ok _ (guardedSend_spec (P:=housekeeping)) X p reason st I HX) as Hw.
  apply wp_inv in Hw as ([] & st' & E & _).
  assert (E1 : closePeerForSendFailure s1 p reason st = Done () st')
    by (by apply (closePeerForSendFailure_refines guardedSend)).
  assert (E2 : closePeerForSendFailure s2 p reason st = Done () st')
    by (by apply (closePeerForSendFailure_refines guardedSend)).
  rewrite E1, E2. eauto.
Qed.

Lemma sendBody_eq X s1 s2 p m st :
  coversGuarded s1 → coversGuarded s2 → Inv X st → exemptOk X p st →
  sendBody s1 p m st = sendBody s2 p m st.
Proof.
  intros H1' H2' I HX. unfold sendBody, st_catch, mbind, st_bind, st_get, st_lift, wsSend.
  assert (Hc : ∀ reason st', Inv X st' → sessions st' = sessions st →
    closePeerForSendFailure s1 p reason st' = closePeerForSendFailure s2 p reason st' ∧
    ∃ st'', closePeerForSendFailure s2 p reason st' = Done () st'').
  { intros reason st' I' Hs. eapply (closePeerForSendFailure_eq X); [done..|].
    intros sid s Hl. rewrite Hs in Hl. by eapply HX. }
  destruct (negb (isOpen st p)); [done|].
  destruct (peerBackpressure st p); [by rewrite (proj1 (Hc _ st I eq_refl))|].
  destruct (serializeMessage m) as [data|err]; [|by rewrite (proj1 (Hc _ st I eq_refl))].
  destruct (ws_send data (p_ws (peer st p))) as [[] w] eqn:Ew; cbn.
  - destruct (peerBackpressure _ p); [|done].
    set (st1 := set_log (Sent p m) (upd p (p_setWs w) st)).
    assert (I1 : Inv X st1).
    { eapply sentTo_Inv; [|exact I]. exists w. split; [|done]. intros Hw.
      apply isOpen_spec. apply (ws_send_open data). by rewrite Ew. }
    destruct (Hc (js "signaling backpressure") st1 I1 eq_refl) as [-> [st2 ->]]. done.
  - assert (I1 : Inv X (upd p (p_setWs w) st)).
    { eapply (quiet_Inv (P:=housekeeping)); [|exact I]. apply quiet_ws. intros Hw.
      apply (ws_send_open data). by rewrite Ew. }
    by rewrite (proj1 (Hc _ _ I1 eq_refl)).
Qed.

Lemma send_covers : coversGuarded send.
Proof. intros p m st a st'. unfold send. apply guardedSend_refines. Qed.

Lemma sendFuel_covers n : coversGuarded (sendFuel (S n)).
Proof. intros p m. apply guardedSend_refines. Qed.

(** [send] satisfies the source's own recursive equation. *)
Lemma send_unfold X p m st :
  Inv X st → exemptOk X p st → send p m st = sendBody send p m st.
Proof.
  intros I HX. unfold send at 1. cbn [sendFuel].
  destruct (unattached_dec st p) as [Hun|Hat]; [by apply sendBody_unattached|].
  apply attached_size in Hat. destruct (size (sessions st)) as [|n]; [lia|].
  eapply sendBody_eq; eauto using sendFuel_covers, send_covers.
Qed.

End Equation.
