(* ===== verification/ServerHandlers.v ===== *)
(** * ServerHandlers: every callback of the server completes and keeps the
    invariant.

    [progress] is what one callback does: the invariant holds again, weights
    grow by at most the budget of the event, the capacity bounds are kept and
    every effect is one the event allows. *)
From S2P Require Import Prelude.
From S2P Require Import Constants.
From S2P Require Import JsText.
From S2P Require Import Wordlist.
From S2P Require Import RateLimit.
From S2P Require Import Protocol.
From S2P Require Import Policy.
From S2P Require Import Admission.
From S2P Require Import ServerState.
From S2P Require Import Server.
From S2P Require Import ServerInv.
From S2P Require Import ServerCluster.
#[local] Open Scope Z_scope.

#[local] Set Default Proof Using "Type*".

(** The bound on waiting codes and sessions together. *)
Definition MAX_TOTAL : Z := SIGNALING_MAX_WAITING_CODES + SIGNALING_MAX_SESSIONS.

(** Counting waiting codes and sessions together. *)
Program Definition totalWeight : Weight := {|
  w_code _ := 1; w_session _ := 1; w_effect _ := 0 |}.
Solve All Obligations with (intros; simpl; lia).

Section Progress.
Context `{WsLib, Environment}.
Implicit Types st : Server.

Definition total st : Z := mapSize (codes st) + mapSize (sessions st).

Definition connLimit st : Prop := ∀ ip, connCount st ip <= SIGNALING_MAX_CONNECTIONS_PER_IP.

Record progress (P : Effect → Prop) (B : Weight → Z) st0 st : Prop := {
  pg_inv : Inv ∅ st;
  pg_weight w : weight w st <= weight w st0 + B w;
  pg_total : total st0 <= MAX_TOTAL → total st <= MAX_TOTAL;
  pg_log : ∃ ext, log st = ext ++ log st0 ∧ Forall P ext;
  pg_limit : connLimit st0 → connLimit st
}.

Lemma effects_zero (w : Weight) l : (∀ e, w_effect w e = 0) → foldr (λ e n, w_effect w e + n) 0 l = 0.
Proof. intros Hw. induction l as [|e l IH]; simpl; [done|]. rewrite Hw. lia. Qed.

Lemma total_weight st : weight totalWeight st = total st.
Proof.
  unfold weight, total, mapSize. cbn. rewrite !msum_size.
  pose proof (effects_zero totalWeight (log st) ltac:(done)) as E. cbn in E. rewrite E. lia.
Qed.

Lemma sublist_filter {A} (Q : A → Prop) `{!∀ x, Decision (Q x)} (l k : list A) :
  l `sublist_of` k → (length (filter Q l) <= length (filter Q k))%nat.
Proof.
  induction 1 as [|x l k ? IH|x l k ? IH]; [done|..]; rewrite !filter_cons; repeat case_decide; simpl; lia.
Qed.

Lemma evolves_connCount P X st st' ip : evolves P X st st' → connCount st' ip <= connCount st ip.
Proof.
  intros E. unfold connCount.
  assert (Hf : filter (λ p, p_ip (peer st' p) = ip) (peersBySocket st') =
    filter (λ p, p_ip (peer st p) = ip) (peersBySocket st')).
  { apply list_filter_iff. intros p. by rewrite (ev_ip _ _ _ _ E). }
  rewrite Hf. apply inj_le. apply sublist_filter, E.
Qed.

Lemma evolves_total P X st st' : evolves P X st st' → total st' <= total st.
Proof. intros E. pose proof (ev_weight _ _ _ _ E totalWeight) as Hw. by rewrite !total_weight in Hw. Qed.

(** A step whose evolution is known and which ends in the invariant. *)
Lemma evolves_progress P X B st st' :
  (∀ w, 0 <= B w) → Inv ∅ st' → evolves P X st st' → progress P B st st'.
Proof.
  intros HB I E. split; [done|..].
  - intros w. pose proof (ev_weight _ _ _ _ E w). specialize (HB w). lia.
  - pose proof (evolves_total _ _ _ _ E). lia.
  - apply E.
  - intros Hl ip. etrans; [by eapply evolves_connCount|]. apply Hl.
Qed.

Lemma ok_progress P B st st' : (∀ w, 0 <= B w) → ok P ∅ st st' → progress P B st st'.
Proof. intros HB [I E]. by eapply evolves_progress. Qed.

Lemma progress_trans P B B' st st' st'' :
  progress P B st st' → progress P B' st' st'' → progress P (λ w, B w + B' w) st st''.
Proof.
  intros P1 P2. split.
  - apply P2.
  - intros w. pose proof (pg_weight _ _ _ _ P1 w). pose proof (pg_weight _ _ _ _ P2 w). lia.
  - intros. by apply P2, P1.
  - destruct (pg_log _ _ _ _ P1) as (l1&E1&?), (pg_log _ _ _ _ P2) as (l2&E2&?).
    exists (l2 ++ l1). rewrite E2, E1, app_assoc. split; [done|by apply Forall_app].
  - intros. by apply P2, P1.
Qed.

Lemma progress_budget P B B' st st' : (∀ w, B w <= B' w) → progress P B st st' → progress P B' st st'.
Proof. intros HB [P1 P2 P3 P4 P5]. split; try done. intros w. specialize (P2 w). specialize (HB w). lia. Qed.

Lemma ok_progress_r P B st st' st'' :
  progress P B st st' → ok P ∅ st' st'' → progress P B st st''.
Proof.
  intros P1 O. eapply progress_budget; [|eapply progress_trans; [exact P1|by apply (ok_progress P (λ _, 0))]].
  intros w. simpl. lia.
Qed.

Lemma ok_progress_l P B st st' st'' :
  ok P ∅ st st' → progress P B st' st'' → progress P B st st''.
Proof.
  intros O P1. eapply progress_budget; [|eapply progress_trans; [by apply (ok_progress P (λ _, 0))|exact P1]].
  intros w. simpl. lia.
Qed.

End Progress.

Section Sending.
Context `{WsLib, Serializer, Environment}.
Context {P : Effect → Prop} {HP : Allows P}.
Implicit Types st : Server.

Lemma no_exempt p st : exemptOk ∅ p st.
Proof. intros sid s _ _. apply not_elem_of_empty. Qed.

(** [send] to any peer, of a message the event allows. *)
Lemma send_any p m st :
  P (Sent p m) → notJoined (Sent p m) → Inv ∅ st →
  wp (send p m) (λ b st', ok P ∅ st st' ∧ (b = true → sentTo p m st st') ∧ (b = false → isOpen st' p = false) ∧
    ∀ s, restorable s st → p = s_sender s ∨ p = s_receiver s → restorable s st') st.
Proof.
  intros HPm Hj I. eapply wp_mono; [apply (send_spec (P:=P) ∅); [done|apply no_exempt]|].
  intros [] st' Hpost; cbn in Hpost.
  - assert (Q : quiet P st st') by (by eapply sentTo_quiet).
    assert (O : ok P ∅ st st') by by apply quiet_ok.
    split_and!; [done|done|done|]. intros s [Hl|Hset] _.
    + left. by rewrite (q_sessions _ _ _ Q).
    + right. eapply settled_evolves; [apply O|apply not_elem_of_empty|done].
  - destruct Hpost as (Hc&Hor).
    assert (O : ok P ∅ st st').
    { destruct Hor as [->|[[O|(st1&Hs&O)] _]]; [by apply ok_refl|done|].
      eapply ok_trans; [apply quiet_ok; [done|by eapply sentTo_quiet]|done]. }
    split_and!; [done|done|done|]. intros s [Hl|Hset] Hp.
    + destruct Hor as [->|[_ Hset]]; [by left|right]. apply Hset; [done|done|apply not_elem_of_empty].
    + right. eapply settled_evolves; [apply O|apply not_elem_of_empty|done].
Qed.

Lemma fail_any p code msg st :
  Inv ∅ st → wp (fail send p code msg) (λ _ st', ok P ∅ st st' ∧
    ∀ s, restorable s st → p = s_sender s ∨ p = s_receiver s → restorable s st') st.
Proof.
  intros I. unfold fail. apply wp_bind.
  eapply wp_mono; [apply (send_any p (SError code msg)); [by apply allows|done|done]|].
  intros b st' (O&_&_&Hr). by apply wp_ret.
Qed.

Lemma restore_any s reason notify st :
  Inv ∅ st → restorable s st →
  wp (restoreWaitingReceiver send s reason notify) (λ _ st', ok P ∅ st st') st.
Proof.
  intros I Hr. eapply wp_mono; [apply (restoreWaitingReceiver_ok send send_meets_contract ∅); [done|done|]|].
  - apply not_elem_of_empty.
  - by intros [] st' [? _].
Qed.

(** [cleanupPeer] on a peer that is, or ends up, closed. *)
Lemma cleanup_any p reason st :
  Inv ∅ st → wp (cleanupPeer send p reason) (λ _ st', ok P {[p]} st st') st.
Proof.
  intros I. eapply wp_mono; [apply (cleanupPeer_ok send send_meets_contract ∅); [done|]|].
  - intros sid s _ _. apply not_elem_of_empty.
  - intros [] st' [O _]. by rewrite union_empty_l_L in O.
Qed.

(** Dropping the exemption of a peer that is closed at the end. *)
Lemma ok_close_single p st st' : ok P {[p]} st st' → isOpen st' p = false → ok P ∅ st st'.
Proof. intros O Hc. apply (ok_closed P ∅ p); [by rewrite union_empty_l_L|done]. Qed.

Lemma quiet_any st st' : Inv ∅ st → quiet P st st' → ok P ∅ st st'.
Proof. apply quiet_ok. Qed.

End Sending.

(** ** Handlers that end in the cluster *)
Section Simple.
Context `{WsLib, Serializer, Environment, IceProvider, ManifestRules, JsCase}.
Context {P : Effect → Prop} {HP : Allows P}.
Implicit Types st : Server.

(** The state changed only in ways the invariant and the sockets do not see. *)
Definition still st st' : Prop := quiet P st st' ∧ (∀ q, p_ws (peer st' q) = p_ws (peer st q)).

Lemma still_open st st' q : still st st' → isOpen st' q = isOpen st q.
Proof. intros [_ Hw]. unfold isOpen. by rewrite Hw. Qed.

Lemma hitRateLimit_ok p st :
  Inv ∅ st → wp (hitRateLimit p) (λ b st', ok P ∅ st st' ∧ (b = true → still st st')) st.
Proof.
  intros I. unfold hitRateLimit, dateNow. apply wp_bind. unfold wp at 1. apply wp_bind, wp_get.
  set (r := hitFixedWindowRateLimit _ _ _ _ _). apply wp_bind, wp_modify.
  set (st1 := set_limits _ _).
  assert (Q : quiet P st st1) by (eapply quiet_trans; [apply quiet_tick|apply quiet_limits]).
  destruct r.1.
  - apply wp_ret. split; [by apply quiet_ok|]. intros _. by split.
  - apply wp_bind. eapply wp_mono; [apply (fail_any (P:=P)); by eapply quiet_Inv|].
    intros [] st2 [O _]. apply wp_ret. split; [|done]. eapply ok_trans; [by apply quiet_ok|done].
Qed.

Lemma hitMessageLimit_ok p st :
  Inv ∅ st → wp (hitMessageLimit p) (λ b st', ok P ∅ st st' ∧ (b = true → still st st')) st.
Proof.
  intros I. unfold hitMessageLimit, dateNow. apply wp_bind. unfold wp at 1. apply wp_bind, wp_get.
  set (r := recordFixedWindowHit _ _ _ _). apply wp_bind, wp_modify.
  set (st1 := upd p _ _).
  assert (Q : quiet P st st1).
  { eapply quiet_trans; [apply (quiet_tick 1)|]. apply quiet_upd. by unfold sameLinks. }
  destruct (allowed r).
  - apply wp_ret. split; [by apply quiet_ok|]. intros _. split; [done|].
    intros q. unfold st1. rewrite peer_upd. by case_decide.
  - apply wp_bind. eapply wp_mono; [apply (fail_any (P:=P)); by eapply quiet_Inv|].
    intros [] st2 [O _]. apply wp_bind.
    eapply wp_mono; [apply (closeAndRelease_wp (P:=P)), O|].
    intros [] st3 (O'&_). apply wp_ret. split; [|done].
    eapply ok_trans; [by apply quiet_ok|]. by eapply ok_trans.
Qed.

Lemma live_of_inv sid s st : Inv ∅ st → sessions st !! sid = Some s → sessions st !! s_sid s = Some s.
Proof. intros I Hs. by destruct (inv_sessions _ _ I _ _ Hs) as (->&_). Qed.

Lemma failThenRestore_ok s p code msg reason st :
  Inv ∅ st → restorable s st → p = s_sender s ∨ p = s_receiver s →
  wp (fail send p code msg;; restoreWaitingReceiver send s reason true) (λ _ st', ok P ∅ st st') st.
Proof.
  intros I Hr Hp. apply wp_bind. eapply wp_mono; [by apply (fail_any (P:=P))|].
  intros [] st1 [O1 Hr1]. eapply wp_mono; [apply restore_any; [apply O1|auto]|].
  intros [] st2 O2. by eapply ok_trans.
Qed.

Lemma rejectMalformed_ok p msg st :
  Inv ∅ st → wp (rejectMalformedPrePairSenderMessage p msg) (λ _ st', ok P ∅ st st') st.
Proof.
  intros I. unfold rejectMalformedPrePairSenderMessage. apply wp_bind, wp_get.
  destruct (p_sid (peer st p) ≫= λ sid, sessions st !! sid) as [s|] eqn:Hs; [|apply wp_ret; by apply ok_refl].
  apply bind_Some in Hs as (sid&_&Hs).
  destruct (senderDisconnectCanRestoreReceiver (s_policy s) p) eqn:Hd; [|apply wp_ret; by apply ok_refl].
  unfold senderDisconnectCanRestoreReceiver in Hd. bool_hyps.
  pose proof (failThenRestore_ok s p bad_message msg (js "invalid sender pre-pair message") st I) as Hw.
  unfold wp, mbind, st_bind in *.
  specialize (Hw (or_introl (live_of_inv sid s st I Hs)) (or_introl (eq_sym H5))).
  destruct (fail send p bad_message msg st); [|done..].
  by destruct (restoreWaitingReceiver send s _ true s0).
Qed.

Lemma badMessage_ok p msg st : Inv ∅ st → wp (badMessage p msg) (λ _ st', ok P ∅ st st') st.
Proof.
  intros I. unfold badMessage. apply wp_bind. eapply wp_mono; [by apply rejectMalformed_ok|].
  intros [] st1 O1; [by apply wp_ret|]. apply wp_bind, wp_modify.
  set (st2 := upd p _ st1).
  assert (O2 : ok P ∅ st1 st2) by (apply quiet_ok; [apply O1|apply quiet_upd; by unfold sameLinks]).
  apply wp_bind. eapply wp_mono; [apply (fail_any (P:=P)), O2|]. intros [] st3 [O3 _].
  assert (O : ok P ∅ st st3) by (eapply ok_trans; [exact O1|]; by eapply ok_trans).
  apply wp_bind, wp_get, wp_when; intros _; [|done].
  eapply wp_mono; [apply (closeAndRelease_wp (P:=P)), O3|]. intros [] st4 (O4&_). by eapply ok_trans.
Qed.

Lemma waiting_unattached X c e st : Inv X st → codes st !! c = Some e → unattached st (wc_receiver e).
Proof. intros I Hc sid. destruct (inv_codes _ _ I _ _ Hc) as (_&_&->&_). done. Qed.

Lemma discardWaiting_ok c e msg st :
  Inv ∅ st → codes st !! c = Some e →
  wp (discardWaiting c (wc_receiver e) msg) (λ _ st', ok P ∅ st st') st.
Proof.
  intros I Hc. set (p := wc_receiver e). pose proof (waiting_unattached _ _ _ _ I Hc) as Hun.
  assert (I' : Inv {[p]} st) by (eapply Inv_mono; [|done]; set_solver).
  unfold discardWaiting. apply wp_bind, wp_modify.
  assert (O1 : ok P {[p]} st (set_codes (delete c) st)).
  { apply deleteCode_ok; [done|]. intros e' He'. left. assert (e' = e) as -> by congruence. set_solver. }
  apply wp_bind. eapply wp_mono; [apply (clearPeerSessionState_ok (P:=P) {[p]}); [apply O1|]|].
  { eapply evolves_unattached; [apply O1|done]. }
  intros [] st2 O2. rewrite union_idemp_L in O2.
  apply wp_bind. eapply wp_mono; [apply (fail_ok send send_meets_contract {[p]}); [apply O2|]|].
  { eapply evolves_unattached; [apply O2|]. by eapply evolves_unattached; [apply O1|]. }
  intros [] st3 O3. eapply wp_mono; [apply (closePeerAndRelease_wp (P:=P)), O3|].
  intros [] st4 (O4&Hcl&_). eapply ok_close_single; [|exact Hcl].
  eapply ok_trans; [exact O1|]. eapply ok_trans; [exact O2|]. by eapply ok_trans.
Qed.

(** [closeSessionPeers] on a session a handler holds *)
Lemma closeSession_any s st :
  Inv ∅ st → restorable s st → wp (closeSessionPeers s) (λ _ st', ok P ∅ st st') st.
Proof.
  intros I Hr. eapply wp_mono; [apply (closeSessionPeers_ok (P:=P) ∅); [done|]|].
  - destruct Hr as [?|[[? _] _]]; [by left|by right].
  - by intros [] st' [? _].
Qed.

Lemma closeSessionForTurnRateLimit_ok s st :
  Inv ∅ st → restorable s st → wp (closeSessionForTurnRateLimit s) (λ _ st', ok P ∅ st st') st.
Proof.
  intros I Hr. unfold closeSessionForTurnRateLimit.
  apply wp_bind. eapply wp_mono; [by apply (fail_any (P:=P))|]. intros [] st1 [O1 Hr1].
  apply wp_bind. eapply wp_mono; [apply (fail_any (P:=P)), O1|]. intros [] st2 [O2 Hr2].
  eapply wp_mono; [apply closeSession_any; [apply O2|auto]|]. intros [] st3 O3.
  eapply ok_trans; [exact O1|]. by eapply ok_trans.
Qed.

Lemma relayDeliveryFailed_ok s p target reason flag st :
  Inv ∅ st → restorable s st → p = s_sender s ∨ p = s_receiver s →
  target = s_sender s ∨ target = s_receiver s → isOpen st target = false →
  (∃ side, sessionPeerId (s_policy s) target = Some side) →
  wp (relayDeliveryFailed s p target reason flag) (λ _ st', ok P ∅ st st') st.
Proof.
  intros I Hr Hp Ht Hc [side Hside]. unfold relayDeliveryFailed.
  apply wp_bind. eapply wp_mono; [by apply (fail_any (P:=P))|]. intros [] st1 [O1 Hr1].
  specialize (Hr1 s Hr Hp). rewrite Hside.
  destruct (flag && bool_decide (Some side = Some sender) && sessionBeforePairAcceptance (s_policy s)).
  - eapply wp_mono; [apply restore_any; [apply O1|done]|]. intros [] st2 O2. by eapply ok_trans.
  - eapply wp_mono; [apply (endSession_ok send send_meets_contract ∅ s reason side); [apply O1| |]|].
    + destruct Hr1 as [?|[[? _] _]]; [by left|by right].
    + right. rewrite <-(sessionPeerId_member s target side Hside). by eapply evolves_closed; [apply O1|].
    + intros [] st2 (O2&_). by eapply ok_trans.
Qed.

Lemma rejectRelayMessage_ok s p msg st :
  Inv ∅ st → restorable s st → wp (rejectRelayMessage s p msg) (λ _ st', ok P ∅ st st') st.
Proof.
  intros I Hr. unfold rejectRelayMessage.
  destruct (senderDisconnectCanRestoreReceiver (s_policy s) p) eqn:Hd; [|by apply badMessage_ok].
  unfold senderDisconnectCanRestoreReceiver in Hd. bool_hyps. by apply failThenRestore_ok; auto.
Qed.

Lemma retryReceiver_ok p st : Inv ∅ st → wp (retryReceiver p) (λ _ st', ok P ∅ st st') st.
Proof.
  intros I. unfold retryReceiver. apply wp_bind, wp_get.
  destruct (p_sid (peer st p)) as [sid|] eqn:Hsid.
  - destruct (sessions st !! sid) as [s|] eqn:Hs; [|apply wp_ret; by apply ok_refl].
    destruct (negb _); [apply wp_ret; by apply ok_refl|]. apply wp_bind.
    eapply wp_mono; [apply restore_any; [done|left; by eapply live_of_inv]|]. by intros [] st1 O1.
  - destruct (p_code (peer st p) ≫= _) as [[c e]|] eqn:Hc; [|apply wp_ret; by apply ok_refl].
    apply bind_Some in Hc as (c'&_&Hc). apply fmap_Some in Hc as (e'&Hc&[= <- <-]).
    case_decide as He; [|apply wp_ret; by apply ok_refl]. subst p.
    unfold dateNow. apply wp_bind. unfold wp at 1. set (st1 := set_counters 1 0 st).
    assert (O1 : ok P ∅ st st1) by (apply quiet_ok; [done|apply quiet_tick]).
    destruct (negb _).
    + apply wp_bind. eapply wp_mono; [apply (discardWaiting_ok c e); [apply O1|done]|].
      intros [] st2 O2. apply wp_ret. by eapply ok_trans.
    + apply wp_bind. unfold wp at 1. set (st2 := set_counters 1 0 st1).
      assert (O2 : ok P ∅ st1 st2) by (apply quiet_ok; [apply O1|apply quiet_tick]).
      apply wp_bind. eapply wp_mono; [apply (send_any (P:=P)); [by apply allows|done|apply O2]|].
      intros b st3 (O3&_). apply wp_ret. eapply ok_trans; [exact O1|]. by eapply ok_trans.
Qed.

Lemma handleBye_ok p reason st : Inv ∅ st → wp (handleBye p reason) (λ _ st', ok P ∅ st st') st.
Proof.
  intros I. unfold handleBye. apply wp_bind. eapply (wp_mono _ (λ _ st', ok P ∅ st st')).
  { case_decide; [by apply retryReceiver_ok|apply wp_ret; by apply ok_refl]. }
  intros [] st1 O1; [by apply wp_ret|]. apply wp_bind.
  eapply wp_mono; [apply (cleanup_any (P:=P)), O1|]. intros [] st2 O2.
  eapply wp_mono; [apply (closePeerAndRelease_wp (P:=P)), O2|]. intros [] st3 (O3&Hc&_).
  eapply ok_trans; [exact O1|]. eapply ok_close_single; [|exact Hc]. by eapply ok_trans.
Qed.

End Simple.

(** ** Socket events, timers and intervals *)
Section Timers.
Context `{WsLib, Serializer, Environment, IceProvider, ManifestRules, JsCase}.
Context {P : Effect → Prop} {HP : Allows P}.
Implicit Types st : Server.

Lemma onClose_ok p st : Inv ∅ st → isOpen st p = false → wp (onClose p) (λ _ st', ok P ∅ st st') st.
Proof.
  intros I Hc. unfold onClose. apply wp_bind.
  eapply wp_mono; [by apply (releaseActiveConnection_wp (P:=P))|]. intros [] st1 (O1&_).
  eapply wp_mono; [apply (cleanup_any (P:=P)), O1|]. intros [] st2 O2.
  eapply ok_trans; [exact O1|]. eapply ok_close_single; [exact O2|].
  eapply evolves_closed; [apply O2|]. by eapply evolves_closed; [apply O1|].
Qed.

Lemma onError_ok p st : Inv ∅ st → isOpen st p = false → wp (onError p) (λ _ st', ok P ∅ st st') st.
Proof.
  intros I Hc. unfold onError. apply wp_bind.
  eapply wp_mono; [by apply (cleanup_any (P:=P))|]. intros [] st1 O1.
  eapply wp_mono; [eapply (releaseActiveConnection_wp (P:=P)), O1|]. intros [] st2 (O2&_).
  assert (O : ok P {[p]} st st2) by (by eapply ok_trans).
  eapply ok_close_single; [exact O|]. by eapply evolves_closed; [apply O|].
Qed.

Lemma onPong_ok p st : Inv ∅ st → wp (onPong p) (λ _ st', ok P ∅ st st') st.
Proof.
  intros I. apply wp_modify. apply quiet_ok; [done|]. apply quiet_upd. by unfold sameLinks.
Qed.

Lemma onIdleTimer_ok p st : Inv ∅ st → wp (onIdleTimer p) (λ _ st', ok P ∅ st st') st.
Proof.
  intros I. unfold onIdleTimer. apply wp_bind, wp_get, wp_when; intros _; [|by apply ok_refl].
  eapply wp_mono; [by apply (closeAndRelease_wp (P:=P))|]. by intros [] st1 (?&_).
Qed.

Lemma onCloseTimer_ok p st : Inv ∅ st → wp (onCloseTimer p) (λ _ st', ok P ∅ st st') st.
Proof.
  intros I. unfold onCloseTimer. apply wp_bind, wp_get, wp_when; intros _; [|by apply ok_refl].
  apply wp_bind, wp_modify.
  assert (Q : quiet P st (upd p (λ x, p_setTimers (p_idleTimer x) false x) st))
    by (apply quiet_upd; by unfold sameLinks).
  apply wp_when; intros _; [|by apply quiet_ok].
  eapply wp_mono; [apply (terminate_wp (P:=P))|]. intros [] st2 [Q2 _].
  apply quiet_ok; [done|]. by eapply quiet_trans.
Qed.

(** [cleanupPeer], [releaseActiveConnection], [terminate]: the end of a dead peer. *)
Lemma dropPeer_ok p reason st :
  Inv ∅ st →
  wp (cleanupPeer send p reason;; releaseActiveConnection p false;; terminate p) (λ _ st', ok P ∅ st st') st.
Proof.
  intros I. apply wp_bind. eapply wp_mono; [by apply (cleanup_any (P:=P))|]. intros [] st1 O1.
  apply wp_bind. eapply wp_mono; [eapply (releaseActiveConnection_wp (P:=P)), O1|]. intros [] st2 (O2&_).
  eapply wp_mono; [apply (terminate_wp (P:=P))|]. intros [] st3 [Q3 Hc].
  eapply ok_close_single; [|exact Hc]. eapply ok_trans; [exact O1|]. eapply ok_trans; [exact O2|].
  apply quiet_ok; [apply O2|done].
Qed.

Lemma heartbeatPeer_ok p st : Inv ∅ st → wp (heartbeatPeer p) (λ _ st', ok P ∅ st st') st.
Proof.
  intros I. unfold heartbeatPeer. apply wp_bind, wp_get.
  destruct (negb (isOpen st p)) eqn:Ho; [apply wp_ret; by apply ok_refl|]. bool_hyps.
  destruct (p_awaitingHeartbeatPong (peer st p)); [by apply dropPeer_ok|].
  apply wp_bind, wp_modify, wp_bind, wp_get, wp_bind, wp_modify.
  set (st1 := upd p (p_setPong true) st). set (r := ws_ping _). set (st2 := upd p (p_setWs r.2) st1).
  assert (Q : quiet P st st2).
  { eapply quiet_trans; [apply (quiet_upd p (p_setPong true)); by unfold sameLinks|].
    apply quiet_ws. intros Hw. by apply ws_ping_open in Hw. }
  destruct r.1.
  - apply wp_modify. apply quiet_ok; [done|]. eapply quiet_trans; [exact Q|].
    apply quiet_log; [by apply allows|done].
  - eapply wp_mono; [apply dropPeer_ok; by eapply quiet_Inv|]. intros [] st3 O3.
    eapply ok_trans; [by apply quiet_ok|done].
Qed.

Lemma iter_ok {A} (f : A → ST Server ()) l st :
  (∀ x st', Inv ∅ st' → wp (f x) (λ _ st'', ok P ∅ st' st'') st') →
  Inv ∅ st → wp (st_iter f l) (λ _ st', ok P ∅ st st') st.
Proof.
  intros Hf I. apply (wp_iter _ (λ st', ok P ∅ st st')); [|by apply ok_refl].
  intros x st' _ O. eapply wp_mono; [apply Hf, O|]. intros [] st'' O'. by eapply ok_trans.
Qed.

Lemma onHeartbeat_ok st : Inv ∅ st → wp onHeartbeat (λ _ st', ok P ∅ st st') st.
Proof.
  intros I. unfold onHeartbeat. apply wp_bind, wp_get. apply iter_ok; [|done].
  intros p st' I'. apply wp_bind, wp_get, wp_when; intros _; [by apply heartbeatPeer_ok|by apply ok_refl].
Qed.

(** As [ok], up to the entries that a handler has removed. *)
Definition fine st st' : Prop := Inv ∅ st' ∧ ∃ X, evolves P X st st'.

Lemma ok_fine st st' : ok P ∅ st st' → fine st st'.
Proof. intros [I E]. split; [done|by exists ∅]. Qed.

Lemma fine_trans st st' st'' : fine st st' → fine st' st'' → fine st st''.
Proof.
  intros [_ [X E]] [I' [X' E']]. split; [done|]. exists (X ∪ X').
  eapply evolves_trans; [eapply evolves_mono; [|..|exact E]|eapply evolves_mono; [|..|exact E']];
    auto; set_solver.
Qed.

Lemma fine_progress B st st' : (∀ w, 0 <= B w) → fine st st' → progress P B st st'.
Proof. intros HB [I [X E]]. by eapply evolves_progress. Qed.

Lemma deleteCode_fine c st : Inv ∅ st → fine st (set_codes (delete c) st).
Proof.
  intros I. split; [by apply deleteCode_Inv|].
  destruct (codes st !! c) as [e|] eqn:Hc.
  - exists {[wc_receiver e]}. apply deleteCode_ok; [eapply Inv_mono; [|done]; set_solver|].
    intros e' He'. left. assert (e' = e) as -> by congruence. set_solver.
  - exists ∅. apply deleteCode_ok; [done|]. intros e He. congruence.
Qed.

Lemma iter_fine {A} (f : A → ST Server ()) l st :
  (∀ x st', Inv ∅ st' → wp (f x) (λ _ st'', fine st' st'') st') →
  Inv ∅ st → wp (st_iter f l) (λ _ st', fine st st') st.
Proof.
  intros Hf I. apply (wp_iter _ (λ st', fine st st')); [|apply ok_fine; by apply ok_refl].
  intros x st' _ O. eapply wp_mono; [apply Hf, O|]. intros [] st'' O'. by eapply fine_trans.
Qed.

Lemma expireCode_fine now c st : Inv ∅ st → wp (expireCode now c) (λ _ st', fine st st') st.
Proof.
  intros I. unfold expireCode. apply wp_bind, wp_get.
  destruct (codes st !! c) as [e|] eqn:Hc; [|apply wp_ret, ok_fine; by apply ok_refl].
  apply wp_when; intros _; [|apply ok_fine; by apply ok_refl]. set (p := wc_receiver e).
  pose proof (waiting_unattached _ _ _ _ I Hc) as Hun.
  assert (I' : Inv {[p]} st) by (eapply Inv_mono; [|done]; set_solver).
  apply wp_bind. eapply wp_mono.
  { apply (send_ok send send_meets_contract {[p]}); [by apply allows|done|done|exact Hun]. }
  intros b st1 [O1 _].
  apply wp_bind. eapply wp_mono; [apply (clearPeerSessionState_ok (P:=P) {[p]}); [apply O1|]|].
  { by eapply evolves_unattached; [apply O1|]. }
  intros [] st2 O2. rewrite union_idemp_L in O2.
  apply wp_bind. eapply wp_mono; [apply (closePeerAndRelease_wp (P:=P)), O2|]. intros [] st3 (O3&Hcl&_).
  assert (O : ok P ∅ st st3).
  { eapply ok_close_single; [|exact Hcl]. eapply ok_trans; [exact O1|]. by eapply ok_trans. }
  apply wp_modify. eapply fine_trans; [by apply ok_fine|]. apply deleteCode_fine, O.
Qed.

Lemma notifyPeerLeft_live s leaving reason st :
  Inv ∅ st → restorable s st →
  wp (notifyPeerLeft send s leaving reason) (λ _ st', ok P ∅ st st' ∧ restorable s st') st.
Proof.
  intros I Hr. unfold notifyPeerLeft.
  apply (wp_iter _ (λ st', ok P ∅ st st' ∧ restorable s st')); [|split; [by apply ok_refl|done]].
  intros p st' Hp [O Hr']. case_decide; [by apply wp_ret|].
  assert (Hm : p = s_sender s ∨ p = s_receiver s).
  { apply elem_of_cons in Hp as [->|Hp%list_elem_of_singleton]; [by left|subst p; by right]. }
  apply wp_bind. eapply wp_mono; [apply (send_any (P:=P)); [by apply allows|done|apply O]|].
  intros b st'' (O'&_&_&Hr''). apply wp_ret. split; [by eapply ok_trans|auto].
Qed.

Lemma expireSession_ok now sid st : Inv ∅ st → wp (expireSession now sid) (λ _ st', ok P ∅ st st') st.
Proof.
  intros I. unfold expireSession. apply wp_bind, wp_get.
  destruct (sessions st !! sid) as [s|] eqn:Hs; [|apply wp_ret; by apply ok_refl].
  pose proof (live_of_inv sid s st I Hs) as Hl.
  apply wp_when; intros _; [|by apply ok_refl].
  destruct (sessionBeforePairAcceptance (s_policy s) && _ && _); [by apply restore_any; [|left]|].
  apply wp_bind. eapply wp_mono; [apply notifyPeerLeft_live; [done|by left]|]. intros [] st1 [O1 Hr1].
  apply wp_bind, wp_modify.
  assert (Hsid : sid = s_sid s) by (by destruct (inv_sessions _ _ I _ _ Hs) as (->&_)).
  assert (O2 : ok P ∅ st1 (set_sessions (delete sid) st1)) by (apply deleteSession_ok, O1).
  eapply wp_mono; [apply (closeSessionPeers_ok (P:=P) ∅); [apply O2|right]|].
  { rewrite Hsid. eapply restorable_detached; [apply O1|done]. }
  intros [] st3 (O3&_). eapply ok_trans; [exact O1|]. by eapply ok_trans.
Qed.

Lemma onExpiry_fine codeOrder sidOrder st :
  Inv ∅ st → wp (onExpiry codeOrder sidOrder) (λ _ st', fine st st') st.
Proof.
  intros I. unfold onExpiry, dateNow. apply wp_bind. unfold wp at 1. set (st0 := set_counters 1 0 st).
  assert (O0 : ok P ∅ st st0) by (apply quiet_ok; [done|apply quiet_tick]).
  apply wp_bind. eapply wp_mono; [apply iter_fine; [|apply O0]|].
  { intros c st' I'. by apply expireCode_fine. }
  intros [] st1 F1. apply wp_bind. eapply wp_mono; [apply iter_ok; [|apply F1]|].
  { intros c st' I'. by apply expireSession_ok. }
  intros [] st2 O2. apply wp_bind, wp_modify, wp_modify.
  eapply fine_trans; [by apply ok_fine|]. eapply fine_trans; [exact F1|].
  eapply fine_trans; [by apply ok_fine|]. apply ok_fine, quiet_ok; [apply O2|].
  eapply quiet_trans; [apply quiet_limits|apply quiet_turnLimits].
Qed.

Lemma onShutdown_ok st : Inv ∅ st → wp onShutdown (λ _ st', ok P ∅ st st') st.
Proof.
  intros I. unfold onShutdown. apply wp_bind, wp_get. apply iter_ok; [|done].
  intros p st' I'. eapply wp_mono; [apply (closePeerWithCode_wp (P:=P))|].
  intros [] st'' [Q _]. by apply quiet_ok.
Qed.

Lemma socket_ok p w st :
  Inv ∅ st → (readyState w = OPEN → isOpen st p = true) → ok P ∅ st (upd p (p_setWs w) st).
Proof.
  intros I Hw. apply quiet_ok; [done|]. apply quiet_ws. intros Ho. apply isOpen_spec. auto.
Qed.

End Timers.
