(* ===== verification/ServerRequests.v ===== *)
(** * ServerRequests: connections and client messages keep the invariant.

    The callbacks that add something to the state: a connection, a waiting
    code, a session, a relayed message. *)
From S2P Require Import Prelude.
From S2P Require Import Constants.
From S2P Require Import JsText.
From S2P Require Import Wordlist.
From S2P Require Import RateLimit.
From S2P Require Import Protocol.
From S2P Require Import Policy.
From S2P Require Import Admission.
From S2P Require Import ServerState.
From S2P Require Import Server.
From S2P Require Import ServerInv.
From S2P Require Import ServerCluster.
From S2P Require Import ServerHandlers.
#[local] Open Scope Z_scope.

#[local] Set Default Proof Using "Type*".

Section Connection.
Context `{WsLib, Serializer, Environment, IceProvider, ManifestRules, JsCase}.
Context {P : Effect → Prop} {HP : Allows P}.
Implicit Types st : Server.

Lemma filter_ext_in {A} (Q R : A → Prop) `{!∀ x, Decision (Q x), !∀ x, Decision (R x)} (l : list A) :
  (∀ x, x ∈ l → Q x ↔ R x) → filter Q l = filter R l.
Proof.
  induction l as [|x l IH]; intros HQR; [done|].
  assert (Hl : filter Q l = filter R l) by (apply IH; intros y Hy; apply HQR; by right).
  specialize (HQR x (list_elem_of_here _ _)). rewrite !filter_cons, Hl.
  by repeat case_decide; try tauto.
Qed.

Lemma known_fresh st : ¬ known st (nanoid 10 (ids st)).
Proof. intros (j&Hj&E). apply nanoid_inj in E. lia. Qed.

(** The state in which a new connection is counted. *)
Definition connected (w : sock) (ip : jsstr) st : Server :=
  let p := nanoid 10 (ids st) in
  let st := set_connections id (λ l, l ++ [p]) (upd p (λ _, newPeer w ip) (set_counters 0 1 st)) in
  set_connections (<[ip := default 0 (activeConnections st !! ip) + 1]>) id st.

Lemma connected_peer w ip st q :
  peer (connected w ip st) q = if decide (q = nanoid 10 (ids st)) then newPeer w ip else peer st q.
Proof. done. Qed.

Lemma connected_other w ip st q : known st q → peer (connected w ip st) q = peer st q.
Proof.
  intros Hk. rewrite connected_peer. case_decide; [|done]. subst q. by apply known_fresh in Hk.
Qed.

Lemma connected_known w ip st q : known st q → known (connected w ip st) q.
Proof. intros (j&?&?). exists j. split; [cbn; lia|done]. Qed.

Lemma connected_count w ip st ip' :
  Inv ∅ st → connCount (connected w ip st) ip' = connCount st ip' + (if decide (ip = ip') then 1 else 0).
Proof.
  intros I. unfold connCount. cbn [peersBySocket connected set_connections id].
  change (peersBySocket (set_connections _ _ _)) with (peersBySocket st ++ [nanoid 10 (ids st)]).
  rewrite filter_app, length_app.
  rewrite (filter_ext_in (λ p, p_ip (peer (connected w ip st) p) = ip') (λ p, p_ip (peer st p) = ip')
    (peersBySocket st)).
  - rewrite filter_cons, filter_nil, connected_peer. destruct (decide (nanoid 10 (ids st) = nanoid 10 (ids st))); [|done].
    cbn [p_ip newPeer]. case_decide; simpl; lia.
  - intros q Hq. rewrite connected_other; [done|]. by apply (conn_known _ (inv_conn _ _ I)).
Qed.

Lemma connected_Inv w ip st : Inv ∅ st → Inv ∅ (connected w ip st).
Proof.
  intros I. pose proof I as [I1 I2 [C1 C2 C3 C4] I4].
  assert (Hnew : nanoid 10 (ids st) ∉ peersBySocket st) by (intros Hin; by apply (known_fresh st), C3).
  split; [..|split|done].
  - intros sid s Hs. change (sessions st !! sid = Some s) in Hs. pose proof (I1 sid s Hs) as Is.
    unfold SessionOk in *. destruct Is as (?&?&?&?&?&?&?&?&K1&K2&(j&?&?)).
    rewrite !connected_other by done.
    split_and!; try done; try lia; try by apply connected_known.
    exists j. split; [cbn; lia|done].
  - intros c e Hc. change (codes st !! c = Some e) in Hc. pose proof (I2 c e Hc) as Ie.
    unfold CodeOk, isOpen in *. destruct Ie as (?&?&?&K&?). rewrite !connected_other by done.
    split_and!; try done; try lia. by apply connected_known.
  - cbn. apply NoDup_app. split_and!; [done| |apply NoDup_singleton].
    intros q Hq ->%list_elem_of_singleton. done.
  - intros q. rewrite connected_peer. cbn. rewrite elem_of_app, list_elem_of_singleton, C2.
    case_decide as Hd; cbn; [subst q; tauto|tauto].
  - intros q [Hq|Hq%list_elem_of_singleton]%elem_of_app; [by apply connected_known, C3|].
    subst q. exists (ids st). split; [cbn; lia|done].
  - intros ip'. rewrite connected_count by done. pose proof (connCount_nonneg st ip').
    pose proof (C4 ip') as Hip.
    change (activeConnections (connected w ip st)) with
      (<[ip := default 0 (activeConnections st !! ip) + 1]> (activeConnections st)).
    destruct (decide (ip = ip')) as [<-|].
    + rewrite lookup_insert_eq, Hip. rewrite (proj2 (Z.eqb_neq (_ + 1) 0)) by lia.
      destruct (connCount st ip =? 0) eqn:E; bool_hyps; cbn; [by rewrite E|done].
    + by rewrite lookup_insert_ne, Z.add_0_r by done.
Qed.

Lemma sublist_snoc_notin {A} (l k : list A) x : l `sublist_of` k ++ [x] → x ∉ l → l `sublist_of` k.
Proof.
  intros Hl Hx. apply sublist_app_r in Hl as (l1&l2&->&H1'&H2').
  apply sublist_cons_r in H2' as [H2'|(l3&->&_)].
  - apply sublist_nil_r in H2' as ->. by rewrite app_nil_r.
  - exfalso. apply Hx, elem_of_app. right. left.
Qed.

Lemma onConnection_progress w ip st :
  Inv ∅ st → wp (onConnection w ip) (λ _ st', progress P (λ _, 0) st st') st.
Proof.
  intros I. unfold onConnection, drawId. apply wp_bind. unfold wp at 1. set (p := nanoid 10 (ids st)).
  apply wp_bind, wp_modify, wp_bind, wp_modify, wp_bind, wp_modify, wp_bind, wp_get.
  assert (Ep : peer (set_connections id (λ l, l ++ [p]) (upd p (λ _, newPeer w ip) (set_counters 0 1 st))) p
    = newPeer w ip).
  { unfold peer. cbn. by rewrite decide_True. }
  cbv beta. rewrite Ep. cbn [p_ip newPeer].
  change (set_connections _ id _) with (connected w ip st).
  pose proof (connected_Inv w ip st I) as Ic.
  assert (Hcount : default 0 (activeConnections (connected w ip st) !! ip) = connCount (connected w ip st) ip).
  { rewrite (conn_count _ (inv_conn _ _ Ic)). destruct (_ =? 0) eqn:E; bool_hyps; simpl; lia. }
  rewrite Hcount.
  assert (Hprog : ∀ st', ok P ∅ (connected w ip st) st' → (connLimit st → connLimit st') →
    progress P (λ _, 0) st st').
  { intros st' [I' E'] Hl. split; [done|..|exact Hl].
    - intros w'. pose proof (ev_weight _ _ _ _ E' w'). unfold weight in *. cbn in *. lia.
    - intros. pose proof (evolves_total _ _ _ _ E'). unfold total in *. cbn in *. lia.
    - apply E'. }
  destruct (SIGNALING_MAX_CONNECTIONS_PER_IP <? connCount (connected w ip st) ip) eqn:Hover; bool_hyps.
  - apply wp_bind. eapply wp_mono; [by apply (fail_any (P:=P))|]. intros [] st1 [O1 _].
    eapply wp_mono; [apply (closeAndRelease_wp (P:=P)), O1|]. intros [] st2 (O2&_&Hrel).
    assert (O : ok P ∅ (connected w ip st) st2) by (by eapply ok_trans).
    apply Hprog; [done|]. intros Hl ip'. etrans; [|apply (Hl ip')].
    assert (Hsub : peersBySocket st2 `sublist_of` peersBySocket st).
    { apply (sublist_snoc_notin _ _ p); [apply O|].
      rewrite (conn_released _ (inv_conn _ _ (proj1 O))). by rewrite Hrel. }
    unfold connCount. rewrite (filter_ext_in (λ q, p_ip (peer st2 q) = ip') (λ q, p_ip (peer st q) = ip')).
    + apply inj_le. by apply sublist_filter.
    + intros q Hq. rewrite (ev_ip _ _ _ _ (proj2 O)), connected_other; [done|].
      apply (conn_known _ (inv_conn _ _ I)). by eapply elem_of_sublist.
  - apply wp_modify. assert (Q : quiet P (connected w ip st)
      (upd p (λ x, p_setTimers true (p_closeTimer x) x) (connected w ip st))).
    { apply quiet_upd. by unfold sameLinks. }
    apply Hprog; [by apply quiet_ok|]. intros Hl ip'.
    etrans; [apply (evolves_connCount P ∅), quiet_evolves, Q|].
    destruct (decide (ip = ip')) as [<-|]; [lia|].
    rewrite connected_count by done. rewrite decide_False by done. specialize (Hl ip'). lia.
Qed.

End Connection.

(** ** [register] *)
Section Register.
Context `{WsLib, Serializer, Environment, IceProvider, ManifestRules, JsCase}.
Context {P : Effect → Prop} {HP : Allows P}.
Implicit Types st : Server.

(** A waiting code with all its attempts: what registering may add. *)
Definition freshCode (c p : jsstr) (expiresAt : Z) : WaitingCode :=
  {| wc_code := c; wc_receiver := p; wc_expiresAt := expiresAt; wc_attempts := initialPrePairAttempts |}.

Definition registerBudget (p : jsstr) (w : Weight) : Z := w_code w (freshCode [] p 0).

Lemma freshCode_weight w c p t : w_code w (freshCode c p t) = registerBudget p w.
Proof.
  unfold registerBudget. apply Z.le_antisymm; by apply w_less.
Qed.

Lemma registerBudget_nonneg p w : 0 <= registerBudget p w.
Proof. apply w_code_nonneg. Qed.

Lemma evolves_known X st st' p : evolves P X st st' → known st p → known st' p.
Proof. intros E (j&?&?). exists j. by rewrite (ev_ids _ _ _ _ E). Qed.

Lemma linkOf_none st p r c :
  p_sid (peer st p) = None → p_setLink r (p_sid (peer st p)) c (peer st p) = p_setLink r None c (peer st p).
Proof. by intros ->. Qed.

(** The waiting code is written for a receiver that has no other. *)
Lemma insertFresh_progress p c t X st st' :
  evolves P X st st' → Inv ∅ st' → known st' p →
  codes st' !! c = None → p_sid (peer st' p) = None →
  p_code (peer st' p) = Some c → p_role (peer st' p) = Some receiver →
  (total st <= MAX_TOTAL → total st' < MAX_TOTAL) →
  progress P (registerBudget p) st (set_codes (<[c := freshCode c p t]>) st').
Proof.
  intros E I Hk Hc Hsid Hcode Hrole Htotal.
  assert (Hw : ∀ w, weight w (set_codes (<[c := freshCode c p t]>) st') = weight w st' + registerBudget p w).
  { intros w. unfold weight. cbn. rewrite msum_insert by done. rewrite freshCode_weight. lia. }
  split.
  - apply insertCode_Inv; [done|]. unfold CodeOk, freshCode, initialPrePairAttempts, RECEIVER_MAX_PREPAIR_ATTEMPTS.
    cbn [wc_code wc_receiver wc_attempts]. split_and!; try done; try lia. by right; right.
  - intros w. rewrite Hw. pose proof (ev_weight _ _ _ _ E w). lia.
  - intros Ht%Htotal. rewrite <-total_weight, Hw, total_weight. unfold registerBudget. cbn. lia.
  - apply E.
  - intros Hl ip. etrans; [apply (evolves_connCount _ _ _ _ ip E)|]. apply Hl.
Qed.

(** Whether the peer's previous code is replaced, as [register] computes it. *)
Definition replacing st (p code : jsstr) : bool :=
  match p_code (peer st p) with
  | Some own => bool_decide (own ≠ code) && waitingCodeOwnedBy (waitingReceiver st own) p
  | None => false
  end.

Lemma replacing_delete p code st :
  Inv ∅ st → isOpen st p = true → codes st !! code = None →
  canRegisterWaitingCode (mapSize (codes st)) SIGNALING_MAX_WAITING_CODES (replacing st p code) = true →
  wp (match p_code (peer st p) with
      | Some own => st_when (replacing st p code) (st_modify (set_codes (delete own)))
      | None => mret ()
      end) (λ _ st', Inv ∅ st' ∧ evolves P {[p]} st st' ∧ codes st' !! code = None ∧
        peers st' = peers st ∧ ids st' = ids st ∧ noEntry st' p ∧
        (total st <= MAX_TOTAL → total st' < MAX_TOTAL)) st.
Proof.
  intros I Ho Hc Hcan. unfold MAX_TOTAL.
  assert (Hkey : ∀ c e, codes st !! c = Some e → wc_receiver e = p → p_code (peer st p) = Some c).
  { intros c e He Hr. by apply (entry_key ∅ st c e p I He Hr). }
  pose proof (inv_capacity _ _ I) as Hcap.
  assert (Hnone : replacing st p code = false → noEntry st p ∧ total st < MAX_TOTAL).
  { intros Hr. rewrite Hr in Hcan. apply canRegisterWaitingCode_lt in Hcan. split.
    - intros c e He Hrec. pose proof (Hkey c e He Hrec) as Hown. unfold replacing in Hr. rewrite Hown in Hr.
      apply andb_false_iff in Hr as [Hr|Hr]; unfold waitingCodeOwnedBy in *; bool_hyps.
      + destruct (decide (c = code)); [congruence|tauto].
      + apply Hr. unfold waitingReceiver. rewrite He. simpl. by rewrite Hrec.
    - unfold total, MAX_TOTAL. lia. }
  destruct (p_code (peer st p)) as [own|] eqn:Hown; cycle 1.
  { apply wp_ret. destruct Hnone as [? ?]; [unfold replacing; by rewrite Hown|].
    split_and!; try done. apply evolves_refl. }
  apply wp_when; intros Hr; [|by destruct (Hnone Hr); split_and!; try done; apply evolves_refl].
  apply wp_modify. unfold replacing in Hr. rewrite Hown in Hr. unfold waitingCodeOwnedBy in Hr. bool_hyps.
  unfold waitingReceiver in *. destruct (codes st !! own) as [e|] eqn:He; [|done].
  simpl in *. simplify_eq.
  split_and!; try done.
  - by apply deleteCode_Inv.
  - apply deleteCode_ok; [eapply Inv_mono; [|done]; set_solver|].
    intros e' He'. left. assert (e' = e) as -> by congruence. set_solver.
  - cbn. by rewrite lookup_delete_ne.
  - intros c e' Hc' Hr'. cbn in Hc'. apply lookup_delete_Some in Hc' as [Hne Hc'].
    pose proof (Hkey c e' Hc' Hr'). congruence.
  - unfold total. cbn. unfold mapSize in *. rewrite map_size_delete, He. simpl.
    assert (size (codes st) ≠ 0%nat) by (intros E%map_size_empty_iff; rewrite E in He; done). lia.
Qed.

Lemma registerNew_progress p c now st :
  Inv ∅ st → isOpen st p = true → known st p → p_sid (peer st p) = None → codes st !! c = None →
  canRegisterWaitingCode (mapSize (codes st)) SIGNALING_MAX_WAITING_CODES (replacing st p c) = true →
  wp ((match p_code (peer st p) with
       | Some own => st_when (replacing st p c) (st_modify (set_codes (delete own)))
       | None => mret ()
       end);;
      st_modify (upd p (λ x, p_setLink (Some receiver) (p_sid x) (Some c) x));;
      clearIdleTimer p;;
      st_modify (set_codes (<[c := freshCode c p (now + CODE_TTL_MS)]>));;
      send p (SRegistered c (CODE_TTL_MS / 1000));;
      mret ()) (λ _ st', progress P (registerBudget p) st st') st.
Proof.
  intros I Ho Hk Hsid Hc Hcan. apply wp_bind. eapply wp_mono; [by apply replacing_delete|].
  intros [] st1 (I1&E1&Hc1&Hp1&Hi1&Hno1&Ht1). apply wp_bind, wp_modify.
  assert (Hsid1 : p_sid (peer st1 p) = None) by (unfold peer in *; by rewrite Hp1).
  set (st2 := upd p (λ x, p_setLink (Some receiver) (p_sid x) (Some c) x) st1).
  assert (O2 : ok P ∅ st1 st2).
  { apply (unlink_gen_ok ∅ p _ (Some receiver) (Some c)); [done| |by rewrite Hsid1|].
    - intros sid' Hs'. congruence.
    - right; right. intros c' e' He' Hr'. by destruct (Hno1 c' e'). }
  unfold clearIdleTimer. apply wp_bind, wp_modify.
  set (st3 := upd p (λ x, p_setTimers false (p_closeTimer x) x) st2).
  assert (O3 : ok P ∅ st2 st3) by (apply quiet_ok; [apply O2|apply quiet_upd; by unfold sameLinks]).
  assert (O23 : ok P ∅ st1 st3) by (by eapply ok_trans).
  assert (Hpeer : p_sid (peer st3 p) = None ∧ p_code (peer st3 p) = Some c ∧ p_role (peer st3 p) = Some receiver).
  { unfold st3, st2. rewrite !peer_upd, !decide_True by done. by split_and!. }
  destruct Hpeer as (K1&K2&K3).
  apply wp_bind, wp_modify, wp_bind.
  set (st4 := set_codes _ st3).
  assert (Pg : progress P (registerBudget p) st st4).
  { apply (insertFresh_progress p c _ {[p]}); try done.
    - eapply evolves_trans; [exact E1|]. apply (evolves_mono P P ∅); [done|apply empty_subseteq|apply O23].
    - apply O23.
    - eapply evolves_known; [apply O23|]. by eapply evolves_known; [apply E1|]. }
  eapply wp_mono; [apply (send_any (P:=P)); [by apply allows|done|apply Pg]|].
  intros b st5 (O5&_). apply wp_ret. by eapply ok_progress_r.
Qed.

Lemma fail_progress B p code msg st0 st :
  (∀ w, 0 <= B w) → ok P ∅ st0 st → wp (fail send p code msg) (λ _ st', progress P B st0 st') st.
Proof.
  intros HB O. eapply wp_mono; [apply (fail_any (P:=P)), O|].
  intros [] st' [O' _]. apply ok_progress; [done|]. by eapply ok_trans.
Qed.

Lemma register_progress p messageCode version st :
  Inv ∅ st → isOpen st p = true → known st p →
  wp (register p messageCode version) (λ _ st', progress P (registerBudget p) st st') st.
Proof.
  intros I Ho Hk. pose proof (registerBudget_nonneg p) as HB. unfold register. apply wp_bind.
  eapply wp_mono; [by apply (hitRateLimit_ok (P:=P))|]. intros [] st1 [O1 Hst]; cbn [negb]; cycle 1.
  { apply wp_ret. by apply ok_progress. }
  specialize (Hst eq_refl). apply wp_bind, wp_get.
  destruct (bool_decide (p_sid (peer st1 p) ≠ None)) eqn:Hsid; [by apply fail_progress|]. bool_hyps.
  apply dec_stable in Hsid.
  destruct (bool_decide _); [by apply fail_progress|]. destruct (negb _); [by apply fail_progress|].
  set (c := normalizeCode messageCode).
  destruct (negb (isValidRendezvous c)); [by apply fail_progress|].
  unfold dateNow. apply wp_bind. unfold wp at 1. set (st2 := set_counters 1 0 st1).
  assert (O2 : ok P ∅ st1 st2) by (apply quiet_ok; [apply O1|apply quiet_tick]).
  assert (O12 : ok P ∅ st st2) by (by eapply ok_trans).
  assert (Hopen : isOpen st2 p = true).
  { change (isOpen st1 p = true). by rewrite (still_open _ _ _ Hst). }
  assert (Hk2 : known st2 p) by (eapply evolves_known; [apply O12|done]).
  destruct (codes st1 !! c) as [e|] eqn:Hc.
  - destruct (waitingCodeOwnedBy (Some (wc_receiver e)) p) eqn:Hown; [|by apply fail_progress].
    unfold waitingCodeOwnedBy in Hown. bool_hyps. injection Hown as <-.
    destruct (negb _).
    + eapply wp_mono; [apply (discardWaiting_ok (P:=P) c e); [apply O2|done]|].
      intros [] st3 O3. apply ok_progress; [done|]. by eapply ok_trans.
    + apply wp_bind, wp_modify. unfold clearIdleTimer. apply wp_bind, wp_modify, wp_bind.
      set (st3 := upd _ _ st2). set (st4 := upd _ _ st3).
      assert (O3 : ok P ∅ st2 st3).
      { apply (unlink_gen_ok ∅ _ _ (Some receiver) (Some c)); [apply O2| |by rewrite linkOf_none|].
        - intros sid' Hs'. change (p_sid (peer st1 (wc_receiver e)) = Some sid') in Hs'. congruence.
        - right; right. intros c' e' He' Hr'. split; [done|].
          destruct (entry_key ∅ st2 c e (wc_receiver e)) as [K _]; try done; [apply O2|].
          destruct (entry_key ∅ st2 c' e' (wc_receiver e)) as [K' _]; try done; [apply O2|]. congruence. }
      assert (O4 : ok P ∅ st3 st4) by (apply quiet_ok; [apply O3|apply quiet_upd; by unfold sameLinks]).
      eapply wp_mono; [apply (send_any (P:=P)); [by apply allows|done|apply O4]|].
      intros b st5 (O5&_). apply wp_ret. apply ok_progress; [done|].
      eapply ok_trans; [exact O12|]. eapply ok_trans; [exact O3|]. by eapply ok_trans.
  - change (match p_code (peer st1 p) with
      | Some own => bool_decide (own ≠ c) && waitingCodeOwnedBy (waitingReceiver st1 own) p
      | None => false end) with (replacing st2 p c).
    destruct (negb _) eqn:Hcan; [by apply fail_progress|]. bool_hyps.
    eapply wp_mono; [apply (registerNew_progress p c (clock (ticks st1)) st2); try done; apply O2|].
    intros [] st3 Pg. by eapply ok_progress_l.
Qed.

End Register.

(** ** [connect] *)
Section Connect.
Context `{WsLib, Serializer, Environment, IceProvider, ManifestRules, JsCase}.
Context {P : Effect → Prop} {HP : Allows P}.
Implicit Types st : Server.

Lemma sentTo_progress p m st st' :
  P (Sent p m) → Inv ∅ st → sentTo p m st st' → progress P (λ w, w_effect w (Sent p m)) st st'.
Proof.
  intros HPm I Hs. pose proof (sentTo_Inv ∅ p m st st' Hs I) as I'. destruct Hs as (w&Hw&->).
  split; [done|..].
  - intros w'. unfold weight. cbn. lia.
  - done.
  - exists [Sent p m]. split; [done|by constructor].
  - intros Hl ip. rewrite (connCount_ext st); [apply Hl| |done]. intros q. unfold peer. cbn. by case_decide.
Qed.

(** Sending any message the event allows, counted. *)
Lemma send_progress p m st :
  P (Sent p m) → Inv ∅ st →
  wp (send p m) (λ b st', progress P (λ w, w_effect w (Sent p m)) st st' ∧
    (b = true → sentTo p m st st') ∧ (b = false → isOpen st' p = false) ∧
    ∀ s, sessions st !! s_sid s = Some s → p = s_sender s ∨ p = s_receiver s →
      restorable s st' ∧ (b = false → isOpen st p = true → settled s st')) st.
Proof.
  intros HPm I. eapply wp_mono; [apply (send_spec (P:=P) ∅); [done|apply no_exempt]|].
  intros [] st' Hpost; cbn in Hpost.
  - split_and!; [by apply sentTo_progress|done|done|]. intros s Hl _. split; [|done]. left.
    destruct Hpost as (w&_&->). done.
  - destruct Hpost as (Hc&Hor). split_and!; [|done|done|].
    + destruct Hor as [->|[[O|(st1&Hs&O)] _]].
      * apply ok_progress; [intros; apply w_effect_nonneg|by apply ok_refl].
      * apply ok_progress; [intros; apply w_effect_nonneg|done].
      * eapply ok_progress_r; [by apply sentTo_progress|done].
    + intros s Hl Hp. destruct Hor as [->|[_ Hset]]; [split; [by left|congruence]|].
      assert (settled s st') by (apply Hset; [done..|apply not_elem_of_empty]).
      split; [by right|done].
Qed.

Definition connectBudget (p : jsstr) (w : Weight) : Z := w_effect w (Sent p (SPeerJoined [])).

Lemma connectBudget_nonneg p w : 0 <= connectBudget p w.
Proof. apply w_effect_nonneg. Qed.

Lemma session_key_fresh st : Inv ∅ st → sessions st !! nanoid 32 (ids st) = None.
Proof.
  intros I. destruct (sessions st !! nanoid 32 (ids st)) as [s|] eqn:Hs; [|done].
  destruct (inv_sessions _ _ I _ _ Hs) as (_&_&_&_&_&_&_&_&_&_&(j&Hj&E)). apply nanoid_inj in E. lia.
Qed.

(** The state once [connect] has created its session. *)
Definition paired (p c : jsstr) (waiting : WaitingCode) (s : Session) st : Server :=
  let r := wc_receiver waiting in
  let st := set_counters 0 1 (set_codes (delete c) st) in
  let st := upd p (p_setLink (Some sender) (Some (s_sid s)) (Some c)) st in
  let st := upd p (λ x, p_setTimers false (p_closeTimer x) x) st in
  let st := upd r (λ x, p_setLink (p_role x) (Some (s_sid s)) (p_code x) x) st in
  set_sessions (<[s_sid s := s]>) (set_counters 1 0 st).

Lemma paired_other p c waiting s st q :
  q ≠ p → q ≠ wc_receiver waiting → peer (paired p c waiting s st) q = peer st q.
Proof. intros. unfold paired, peer. cbn. by rewrite !decide_False by done. Qed.

Lemma paired_frame p c waiting s st q :
  let x := peer (paired p c waiting s st) q in
  p_ws x = p_ws (peer st q) ∧ p_ip x = p_ip (peer st q) ∧
  p_connectionReleased x = p_connectionReleased (peer st q).
Proof. unfold paired, peer. cbn. by repeat case_decide. Qed.

Section Pairing.
Context (p c : jsstr) (waiting : WaitingCode) (now : Z) (st : Server).
Context (I : Inv ∅ st) (Hc : codes st !! c = Some waiting) (Hr : isOpen st (wc_receiver waiting) = true)
  (Hne : wc_receiver waiting ≠ p) (Ho : isOpen st p = true) (Hk : known st p)
  (Hsid : p_sid (peer st p) = None) (Hrole : p_role (peer st p) ≠ Some receiver)
  (Hcap : mapSize (sessions st) < SIGNALING_MAX_SESSIONS).

Let s := newSession (nanoid 32 (ids st)) c waiting p now (wc_attempts waiting - 1).

Lemma pairing_noEntry : noEntry st p.
Proof.
  intros c' e He Hr'. destruct (entry_key ∅ st c' e p I He Hr') as [_ K]; done.
Qed.

Lemma pairing_entry : p_role (peer st (wc_receiver waiting)) = Some receiver ∧
  ∀ c' e, codes st !! c' = Some e → wc_receiver e = wc_receiver waiting → c' = c.
Proof.
  destruct (entry_key ∅ st c waiting (wc_receiver waiting) I Hc eq_refl) as [K1 K2]; try done.
  split; [done|]. intros c' e He Hr'.
  destruct (entry_key ∅ st c' e (wc_receiver waiting) I He Hr') as [K3 _]; try done. congruence.
Qed.

Lemma paired_known q : known st q → known (paired p c waiting s st) q.
Proof. intros (j&?&?). exists j. split; [cbn; lia|done]. Qed.

Lemma paired_session : SessionOk (paired p c waiting s st) (nanoid 32 (ids st)) s.
Proof.
  destruct pairing_entry as [Hrr _]. destruct (inv_codes _ _ I _ _ Hc) as (_&Hatt&_&Hkr&_).
  unfold RECEIVER_MAX_PREPAIR_ATTEMPTS in *.
  assert (Hp : peer (paired p c waiting s st) p =
    p_setTimers false (p_closeTimer (peer st p)) (p_setLink (Some sender) (Some (s_sid s)) (Some c) (peer st p))).
  { unfold paired, peer. cbn. by rewrite (decide_False (P := p = wc_receiver waiting)), !decide_True by done. }
  assert (Hrp : peer (paired p c waiting s st) (wc_receiver waiting) =
    p_setLink (p_role (peer st (wc_receiver waiting))) (Some (s_sid s)) (p_code (peer st (wc_receiver waiting)))
      (peer st (wc_receiver waiting))).
  { unfold paired, peer. cbn. by rewrite decide_True, !(decide_False (P := wc_receiver waiting = p)) by done. }
  unfold SessionOk. change (s_sender s) with p. change (s_receiver s) with (wc_receiver waiting).
  rewrite Hp, Hrp. cbn. split_and!; try done; try lia; try by apply paired_known.
  - unfold RECEIVER_MAX_PREPAIR_ATTEMPTS. lia.
  - exists []. apply reflects_new.
  - exists (ids st). split; [lia|done].
Qed.

Lemma paired_Inv : Inv ∅ (paired p c waiting s st).
Proof.
  pose proof I as [I1 I2 [C1 C2 C3 C4] I4]. destruct pairing_entry as [_ Hkey].
  destruct (inv_codes _ _ I _ _ Hc) as (_&_&Hrsid&_).
  pose proof (paired_frame p c waiting s st) as Hf. split.
  - intros sid' s' Hs'. change (<[nanoid 32 (ids st) := s]> (sessions st) !! sid' = Some s') in Hs'.
    apply lookup_insert_Some in Hs' as [[<- <-]|[_ Hs']]; [apply paired_session|].
    pose proof (I1 sid' s' Hs') as Is. unfold SessionOk in *. destruct Is as (?&?&L1&?&L2&?&?&?&?&?&(j&?&?)).
    assert (Hd : s_sender s' ≠ p ∧ s_sender s' ≠ wc_receiver waiting ∧
      s_receiver s' ≠ p ∧ s_receiver s' ≠ wc_receiver waiting) by (split_and!; intros E; rewrite E in *; congruence).
    destruct Hd as (?&?&?&?). rewrite !paired_other by done.
    split_and!; try done; try lia; try by apply paired_known. exists j. split; [cbn; lia|done].
  - intros c' e He. change (delete c (codes st) !! c' = Some e) in He.
    apply lookup_delete_Some in He as [Hcc He]. pose proof (I2 c' e He) as Ie.
    assert (wc_receiver e ≠ p) by (by apply (pairing_noEntry c')).
    assert (wc_receiver e ≠ wc_receiver waiting) by (intros E; by apply (Hkey c' e) in E).
    unfold CodeOk, isOpen in *. destruct Ie as (?&?&?&?&?). rewrite !paired_other by done.
    split_and!; try done; try lia. by apply paired_known.
  - split; [done|..].
    + intros q. change (peersBySocket (paired p c waiting s st)) with (peersBySocket st).
      rewrite C2. by destruct (Hf q) as (_&_&->).
    + intros q Hq. by apply paired_known, C3.
    + intros ip. rewrite (connCount_ext st); [apply C4| |done]. intros q. apply Hf.
  - change (mapSize (<[nanoid 32 (ids st) := s]> (sessions st)) <= SIGNALING_MAX_SESSIONS).
    unfold mapSize in *. rewrite map_size_insert_None by by apply session_key_fresh. lia.
Qed.

(** A session takes the place of the waiting code and pays for the
    "peer-joined" its receiver is about to get. *)
Lemma paired_progress : progress P (λ w, - w_effect w (Sent (wc_receiver waiting) (SPeerJoined (s_sid s)))) st
  (paired p c waiting s st).
Proof.
  pose proof (paired_frame p c waiting s st) as Hf.
  assert (Hw : ∀ w, weight w (paired p c waiting s st) = weight w st - w_code w waiting + w_session w s).
  { intros w. unfold weight, paired. cbn. rewrite (msum_delete (w_code w) (codes st) c waiting) by done.
    rewrite msum_insert by by apply session_key_fresh. lia. }
  split.
  - apply paired_Inv.
  - intros w. rewrite Hw. destruct (inv_codes _ _ I _ _ Hc) as (_&Hatt&_).
    pose proof (w_create w waiting s eq_refl eq_refl ltac:(lia) (s_sid s)) as Hcr.
    change (s_receiver s) with (wc_receiver waiting) in Hcr. lia.
  - intros Ht. rewrite <-total_weight, Hw, total_weight. cbn. lia.
  - by exists [].
  - intros Hl ip. rewrite (connCount_ext st); [apply Hl| |done]. intros q. apply Hf.
Qed.

Lemma paired_open q : isOpen (paired p c waiting s st) q = isOpen st q.
Proof. unfold isOpen. by destruct (paired_frame p c waiting s st q) as (->&_). Qed.

End Pairing.
(** After a failed "peer-joined" to the receiver everything is already
    settled; [connect] closes and clears once more. *)
Lemma joinFailed_ok s p sid st :
  Inv ∅ st → settled s st → s_sender s = p →
  wp (st_modify (set_sessions (delete sid));;
      clearPeerSessionState p;;
      clearPeerSessionState (s_receiver s);;
      closePeerAndRelease (s_receiver s);;
      fail send p peer_unavailable (js "Receiver is no longer connected.")) (λ _ st', ok P ∅ st st') st.
Proof.
  intros I [[D _] Hcl] <-. apply wp_bind, wp_modify.
  assert (O1 : ok P ∅ st (set_sessions (delete sid) st)) by by apply deleteSession_ok.
  set (st1 := set_sessions (delete sid) st) in *.
  assert (D1 : detached st1 s) by (by eapply evolves_detached; [apply O1|]).
  apply wp_bind. eapply wp_mono; [apply (clear_detached (P:=P) ∅ s); [apply O1|done|by left]|].
  intros [] st2 O2. assert (D2 : detached st2 s) by (by eapply evolves_detached; [apply O2|]).
  apply wp_bind. eapply wp_mono; [apply (clear_detached (P:=P) (∅ ∪ {[s_sender s]}) s); [apply O2|done|by right]|].
  intros [] st3 O3. apply wp_bind. eapply wp_mono; [eapply (closePeerAndRelease_wp (P:=P)), O3|].
  intros [] st4 (O4&Hcr&_).
  assert (O : ok P (∅ ∪ {[s_sender s]} ∪ {[s_receiver s]}) st1 st4).
  { eapply ok_step; [exact O2|set_solver|]. by eapply ok_trans. }
  assert (O' : ok P ∅ st1 st4).
  { eapply ok_closed2; [exact O| |done]. eapply evolves_closed; [apply O|]. done. }
  eapply wp_mono; [apply (fail_any (P:=P)), O'|]. intros [] st5 [O5 _].
  eapply ok_trans; [exact O1|]. by eapply ok_trans.
Qed.

Lemma createSession_progress p c waiting st :
  (∀ q sid, P (Sent q (SPeerJoined sid))) →
  Inv ∅ st → codes st !! c = Some waiting → isOpen st (wc_receiver waiting) = true →
  wc_receiver waiting ≠ p → isOpen st p = true → known st p →
  p_sid (peer st p) = None → p_role (peer st p) ≠ Some receiver →
  canRestorePrePairCode (wc_attempts waiting) = true →
  mapSize (sessions st) < SIGNALING_MAX_SESSIONS →
  wp (createSession p c waiting) (λ _ st', progress P (connectBudget p) st st') st.
Proof.
  intros HPj I Hc Hr Hne Ho Hk Hsid Hrole Hcan Hcap. unfold createSession.
  rewrite consumePrePairAttempt_ok by done. apply wp_bind, wp_lift_ok, wp_bind, wp_modify, wp_bind, wp_get.
  set (stA := set_codes (delete c) st).
  apply wp_bind. apply (wp_intro _ _ _ () stA).
  { assert (Hno : noEntry st p) by (by eapply (pairing_noEntry p c waiting 0 st)).
    destruct (p_code (peer stA p)) as [own|]; [|done]. rewrite bool_decide_false; [done|].
    unfold waitingReceiver, stA. cbn. intros (e&He&E)%fmap_Some.
    apply lookup_delete_Some in He as [_ He]. by apply (Hno own e). }
  unfold drawId. apply wp_bind. unfold wp at 1. cbn [ids set_codes stA].
  apply wp_bind, wp_modify. unfold clearIdleTimer. apply wp_bind, wp_modify, wp_bind, wp_modify.
  unfold dateNow. apply wp_bind. unfold wp at 1.
  match goal with |- context [newSession _ _ _ _ ?n _] => set (now := n) end.
  set (sid := nanoid 32 (ids st)). set (s := newSession sid c waiting p now (wc_attempts waiting - 1)).
  apply wp_bind, wp_modify.
  change (set_sessions (<[sid := s]>) _) with (paired p c waiting s st).
  pose proof (paired_progress p c waiting now st I Hc Hr Hne Ho Hk Hsid Hrole Hcap) as Pg.
  fold sid s in Pg. change (s_sid s) with sid in Pg.
  assert (Hl : sessions (paired p c waiting s st) !! s_sid s = Some s) by (cbn; apply lookup_insert_eq).
  apply wp_bind. eapply wp_mono; [apply send_progress; [done|apply Pg]|].
  intros [] st1 (Pg1&Hsent&Hfail&Hres); cbn [negb].
  - specialize (Hsent eq_refl). destruct Hsent as (w1&_&Est1).
    assert (Pg01 : progress P (λ _, 0) st st1).
    { eapply progress_budget; [|eapply progress_trans; [exact Pg|exact Pg1]]. intros w. simpl. lia. }
    assert (Hl1 : sessions st1 !! s_sid s = Some s) by (by rewrite Est1).
    apply wp_bind. eapply wp_mono; [apply send_progress; [done|apply Pg01]|].
    intros b st2 (Pg2&_&_&Hres2). destruct (Hres2 s Hl1 ltac:(by left)) as [Hr2 _].
    assert (Pg02 : progress P (connectBudget p) st st2).
    { eapply progress_budget; [|eapply progress_trans; [exact Pg01|exact Pg2]].
      intros w. unfold connectBudget. rewrite (w_joined w p [] sid). lia. }
    destruct b; [by apply wp_ret|].
    eapply wp_mono; [apply (restore_any (P:=P)); [apply Pg02|done]|].
    intros [] st3 O3. by eapply ok_progress_r.
  - destruct (Hres s Hl ltac:(by right)) as [_ Hset].
    specialize (Hset eq_refl). assert (Hro : isOpen (paired p c waiting s st) (wc_receiver waiting) = true).
    { rewrite <-Hr. by apply (paired_open p c waiting now st). }
    specialize (Hset Hro).
    eapply wp_mono; [apply (joinFailed_ok s p sid); [apply Pg1|exact Hset|done]|].
    intros [] st2 O2. eapply progress_budget; [|eapply ok_progress_r; [|exact O2]];
      [|eapply progress_trans; [exact Pg|exact Pg1]].
    intros w. pose proof (connectBudget_nonneg p w). simpl. lia.
Qed.

Lemma connect_progress p messageCode version st :
  (∀ q sid, P (Sent q (SPeerJoined sid))) →
  Inv ∅ st → isOpen st p = true → known st p →
  wp (connect p messageCode version) (λ _ st', progress P (connectBudget p) st st') st.
Proof.
  intros HPj I Ho Hk. pose proof (connectBudget_nonneg p) as HB. unfold connect. apply wp_bind.
  eapply wp_mono; [by apply (hitRateLimit_ok (P:=P))|]. intros [] st1 [O1 Hst]; cbn [negb]; cycle 1.
  { apply wp_ret. by apply ok_progress. }
  specialize (Hst eq_refl). apply wp_bind, wp_get.
  destruct (bool_decide (p_sid (peer st1 p) ≠ None)) eqn:Hsid; [by apply fail_progress|]. bool_hyps.
  apply dec_stable in Hsid.
  destruct (bool_decide (p_role (peer st1 p) = Some receiver)) eqn:Hrole; [by apply fail_progress|]. bool_hyps.
  destruct (negb _); [by apply fail_progress|].
  set (c := normalizeCode messageCode).
  destruct (negb (isValidRendezvous c)); [by apply fail_progress|].
  destruct (codes st1 !! c) as [waiting|] eqn:Hc; [|by apply fail_progress].
  unfold dateNow. apply wp_bind. unfold wp at 1. set (st2 := set_counters 1 0 st1).
  assert (O2 : ok P ∅ st1 st2) by (apply quiet_ok; [apply O1|apply quiet_tick]).
  assert (O12 : ok P ∅ st st2) by (by eapply ok_trans).
  assert (Hdiscard : ∀ msg, wp (discardWaiting c (wc_receiver waiting) msg;;
      fail send p code_not_found (js "No receiver is waiting for that code."))
      (λ _ st', progress P (connectBudget p) st st') st2).
  { intros msg. apply wp_bind. eapply wp_mono; [apply (discardWaiting_ok (P:=P) c waiting); [apply O2|done]|].
    intros [] st3 O3. apply fail_progress; [done|]. by eapply ok_trans. }
  destruct (negb (waitingReceiverAvailable _ _ _ _)) eqn:Hav; [apply Hdiscard|]. bool_hyps.
  apply waitingReceiverAvailable_open in Hav.
  destruct (negb (canRestorePrePairCode _)) eqn:Hcan; [apply Hdiscard|]. bool_hyps.
  case_decide as Hown.
  { eapply wp_mono; [apply (badMessage_ok (P:=P)), O2|]. intros [] st3 O3. apply ok_progress; [done|]. by eapply ok_trans. }
  destruct (negb (canCreateSession _ _)) eqn:Hcap; [by apply fail_progress|]. bool_hyps.
  apply canCreateSession_lt in Hcap.
  eapply wp_mono; [apply (createSession_progress p c waiting st2); try done|].
  - apply O2.
  - by apply isOpen_spec.
  - change (isOpen st1 p = true). by rewrite (still_open _ _ _ Hst).
  - eapply evolves_known; [apply O12|done].
  - intros [] st3 Pg. by eapply ok_progress_l.
Qed.

End Connect.

(** ** [relay] *)
Section RelayRequests.
Context `{WsLib, Serializer, Environment, IceProvider, ManifestRules, JsCase}.
Context {P : Effect → Prop} {HP : Allows P}.
Implicit Types st : Server.

Lemma sendIceConfig_ok q st :
  (∀ l, P (Sent q (SIceConfig l))) → Inv ∅ st →
  wp (sendIceConfig q) (λ r st', ok P ∅ st st' ∧ (r = ice_sent → sessions st' = sessions st) ∧
    (r = ice_send_failed → isOpen st' q = false) ∧
    ∀ s, restorable s st → q = s_sender s ∨ q = s_receiver s → restorable s st') st.
Proof.
  intros HPq I. unfold sendIceConfig. apply wp_bind.
  apply (wp_mono _ (λ _ st', quiet P st st')).
  { destruct hasTurnRest; [|apply wp_ret; apply quiet_refl].
    unfold dateNow. apply wp_bind. unfold wp at 1. apply wp_bind, wp_get, wp_bind, wp_modify, wp_ret.
    eapply quiet_trans; [apply quiet_tick|apply quiet_turnLimits]. }
  intros b st1 Q1. assert (O1 : ok P ∅ st st1) by by apply quiet_ok.
  assert (Hres1 : ∀ s, restorable s st → restorable s st1).
  { intros s [Hl|Hset]; [left; by rewrite (q_sessions _ _ _ Q1)|right].
    eapply settled_evolves; [apply O1|apply not_elem_of_empty|done]. }
  destruct b; [apply wp_ret; split_and!; auto; done|].
  apply wp_bind, wp_get. unfold dateNow. apply wp_bind. unfold wp at 1. set (st2 := set_counters 1 0 st1).
  assert (Q2 : quiet P st1 st2) by apply quiet_tick.
  assert (O2 : ok P ∅ st1 st2) by (apply quiet_ok; [apply O1|done]).
  apply wp_bind. eapply wp_mono; [apply (send_any (P:=P)); [done|done|apply O2]|].
  intros b st3 (O3&Hsent&Hc&Hres). apply wp_ret.
  assert (O : ok P ∅ st st3) by (eapply ok_trans; [exact O1|]; by eapply ok_trans).
  split_and!; [done| | |].
  - destruct b; [|done]. intros _. destruct (Hsent eq_refl) as (w&_&->).
    change (sessions st1 = sessions st). apply Q1.
  - destruct b; [done|]. intros _. by apply Hc.
  - intros s Hs Hq. apply Hres; [|done]. destruct (Hres1 s Hs) as [Hl|Hset]; [by left|right].
    eapply settled_evolves; [apply O2|apply not_elem_of_empty|done].
Qed.

Lemma applyRelayPhase_ids s p m :
  rp_sid (applyRelayPhase s p m) = rp_sid s ∧ rp_sender (applyRelayPhase s p m) = rp_sender s ∧
  rp_receiver (applyRelayPhase s p m) = rp_receiver s.
Proof.
  unfold applyRelayPhase. destruct (sessionPeerId s p); [|done]. unfold applyPhase, setCandidateCount.
  case_decide; [|done]. by destruct (_ || _ || _).
Qed.

Lemma applyRelayPhase_reflects h s p m :
  reflects h s → relayAllowedForRole s p m = true → relayAllowedForPhase s p m = true →
  ∃ side, sessionPeerId s p = Some side ∧ specAllows h (side, messageType m) ∧
    reflects (h ++ [(side, messageType m)]) (applyRelayPhase s p m).
Proof.
  unfold relayAllowedForRole, relayAllowedForPhase, applyRelayPhase. intros R Hr Hp.
  destruct (sessionPeerId s p) as [side|]; [|done]. exists side.
  assert (Hok : specAllows h (side, messageType m)) by (apply (guard_spec h s); [done|by rewrite Hr, Hp]).
  split_and!; [done|done|]. by apply applyPhase_reflects.
Qed.

(** The session after [advanceSession] *)
Definition advanced (s : Session) (p : jsstr) (m : ClientMessage) (now : Z) : Session :=
  {| s_policy := applyRelayPhase (s_policy s) p m; s_code := s_code s; s_codeExpiresAt := s_codeExpiresAt s;
     s_expiresAt := nextSessionExpiresAt (s_expiresAt s) now m; s_attempts := s_attempts s |}.

Lemma advanceSession_progress s p m st :
  Inv ∅ st → sessions st !! s_sid s = Some s →
  relayAllowedForRole (s_policy s) p m = true → relayAllowedForPhase (s_policy s) p m = true →
  wp (advanceSession s p m) (λ _ st', progress P (λ _, 0) st st' ∧
    ∃ now, sessions st' !! s_sid s = Some (advanced s p m now)) st.
Proof.
  intros I Hl Hrole Hphase. unfold advanceSession, dateNow. apply wp_bind. unfold wp at 1. apply wp_modify.
  set (st1 := set_counters 1 0 st). set (now := clock (ticks st)). set (st2 := set_sessions _ st1).
  destruct (applyRelayPhase_ids (s_policy s) p m) as (E1&E2&E3).
  assert (Hs2 : sessions st2 = <[s_sid s := advanced s p m now]> (sessions st)).
  { unfold st2. cbn. apply map_eq. intros k. destruct (decide (k = s_sid s)) as [->|].
    - by rewrite lookup_alter_eq, lookup_insert_eq, Hl.
    - by rewrite lookup_alter_ne, lookup_insert_ne by done. }
  assert (Hw : ∀ w, weight w st2 = weight w st).
  { intros w. unfold weight. rewrite Hs2, (msum_update _ _ _ s) by done. cbn.
    rewrite (w_advance w (advanced s p m now) s); [lia|done|done]. }
  pose proof I as [I1 I2 [C1 C2 C3 C4] I4].
  split; [split|exists now; by rewrite Hs2, lookup_insert_eq].
  - split; [|exact I2|by split|].
    + intros sid s' Hs'. rewrite Hs2 in Hs'. apply lookup_insert_Some in Hs' as [[<- <-]|[_ Hs']]; [|by apply I1].
      pose proof (I1 _ _ Hl) as (?&?&?&?&?&?&?&(h&Hh)&?&?&?). unfold SessionOk, advanced.
      cbn [s_policy s_attempts]. rewrite E1, E2, E3. split_and!; try done; try lia.
      destruct (applyRelayPhase_reflects h _ p m Hh Hrole Hphase) as (side&_&_&Hr). by eexists.
    + rewrite Hs2. unfold mapSize in *. by rewrite map_size_insert_Some.
  - intros w. rewrite Hw. lia.
  - by rewrite <-!total_weight, Hw.
  - by exists [].
  - done.
Qed.

Lemma relayPairAccept_progress s p target m st :
  Inv ∅ st → sessions st !! s_sid s = Some s → p = s_receiver s → target = s_sender s →
  (∃ side, sessionPeerId (s_policy s) target = Some side) →
  P (Sent target (SRelay m)) →
  (∀ q l, q = s_sender s ∨ q = s_receiver s → P (Sent q (SIceConfig l))) →
  relayAllowedForRole (s_policy s) p m = true → relayAllowedForPhase (s_policy s) p m = true →
  wp (relayPairAccept s p target m) (λ _ st', progress P (λ _, 0) st st') st.
Proof.
  intros I Hl -> -> Hside HPm HPi Hrole Hphase. unfold relayPairAccept.
  assert (Hp0 : ∀ st', ok P ∅ st st' → progress P (λ _, 0) st st') by (by intros; apply ok_progress).
  assert (Hfailed : ∀ st1, ok P ∅ st st1 → restorable s st1 → isOpen st1 (s_sender s) = false →
    wp (relayDeliveryFailed s (s_receiver s) (s_sender s) (js "peer unavailable") true)
      (λ _ st', progress P (λ _, 0) st st') st1).
  { intros st1 O1 Hr1 Hc1. eapply wp_mono; [apply relayDeliveryFailed_ok; auto; apply O1|].
    intros [] st2 O2. apply Hp0. by eapply ok_trans. }
  assert (Hturn : ∀ st1, ok P ∅ st st1 → restorable s st1 →
    wp (closeSessionForTurnRateLimit s) (λ _ st', progress P (λ _, 0) st st') st1).
  { intros st1 O1 Hr1. eapply wp_mono; [apply closeSessionForTurnRateLimit_ok; [apply O1|done]|].
    intros [] st2 O2. apply Hp0. by eapply ok_trans. }
  apply wp_bind. eapply wp_mono; [apply (sendIceConfig_ok (s_sender s)); [intros l; apply HPi; by left|done]|].
  intros r1 st1 (O1&Hs1&Hc1&Hr1). specialize (Hr1 s (or_introl Hl) (or_introl eq_refl)).
  destruct r1; [|by apply Hturn|by apply Hfailed; auto].
  apply wp_bind. eapply wp_mono; [apply (send_any (P:=P)); [done|done|apply O1]|].
  intros b st2 (O2&Hsent&Hc2&Hr2). specialize (Hr2 s Hr1 (or_introl eq_refl)).
  assert (O02 : ok P ∅ st st2) by (by eapply ok_trans).
  destruct b; cbn [negb]; [|by apply Hfailed; auto].
  apply wp_bind. eapply wp_mono; [apply (sendIceConfig_ok (s_receiver s)); [intros l; apply HPi; by right|apply O2]|].
  intros r3 st3 (O3&Hs3&Hc3&Hr3). specialize (Hr3 s Hr2 (or_intror eq_refl)).
  assert (O03 : ok P ∅ st st3) by (by eapply ok_trans).
  destruct r3; [|by apply Hturn|].
  - assert (Hl3 : sessions st3 !! s_sid s = Some s).
    { rewrite Hs3 by done. destruct (Hsent eq_refl) as (w&_&->). cbn. by rewrite Hs1. }
    eapply wp_mono; [apply advanceSession_progress; [apply O03|done..]|].
    intros [] st4 [Pg _]. by eapply ok_progress_l.
  - eapply wp_mono; [apply closeSession_any; [apply O03|done]|]. intros [] st4 O4.
    apply Hp0. by eapply ok_trans.
Qed.

Lemma relayForward_progress s p m st :
  Inv ∅ st → sessions st !! s_sid s = Some s → p = s_sender s ∨ p = s_receiver s →
  (∀ q, q = s_sender s ∨ q = s_receiver s → q ≠ p → P (Sent q (SRelay m))) →
  (messageType m = TPairAccept → ∀ q l, q = s_sender s ∨ q = s_receiver s → P (Sent q (SIceConfig l))) →
  relayAllowedForRole (s_policy s) p m = true → relayAllowedForPhase (s_policy s) p m = true →
  wp (relayForward s p m) (λ _ st', progress P (λ _, 0) st st') st.
Proof.
  intros I Hl Hp HPm HPi Hrole Hphase. unfold relayForward.
  set (target := if decide (s_sender s = p) then s_receiver s else s_sender s).
  assert (Hne : s_sender s ≠ s_receiver s) by apply (inv_sessions _ _ I _ _ Hl).
  assert (Ht : (target = s_sender s ∨ target = s_receiver s) ∧ target ≠ p).
  { unfold target. case_decide; [split; [by right|congruence]|split; [by left|done]]. }
  destruct Ht as [Ht Htp].
  assert (Hside : ∃ side, sessionPeerId (s_policy s) target = Some side) by (by eapply member_sessionPeerId).
  assert (Hp0 : ∀ st', ok P ∅ st st' → progress P (λ _, 0) st st') by (by intros; apply ok_progress).
  assert (Hfailed : ∀ reason flag st1, ok P ∅ st st1 → restorable s st1 → isOpen st1 target = false →
    wp (relayDeliveryFailed s p target reason flag) (λ _ st', progress P (λ _, 0) st st') st1).
  { intros reason flag st1 O1 Hr1 Hc1. eapply wp_mono; [by apply relayDeliveryFailed_ok; auto; apply O1|].
    intros [] st2 O2. apply Hp0. by eapply ok_trans. }
  apply wp_bind, wp_get.
  destruct (isOpen st target) eqn:Hopen; cbn [negb]; [|apply Hfailed; auto; [by apply ok_refl|by left]].
  destruct (bool_decide (messageType m = TPairAccept)) eqn:Hacc; bool_hyps.
  { assert (Hpr : p = s_receiver s).
    { unfold relayAllowedForRole in Hrole. rewrite Hacc in Hrole.
      destruct (sessionPeerId (s_policy s) p) as [side|] eqn:Es; [|done].
      rewrite (sessionPeerId_member s p side Es). destruct side; [done|done]. }
    apply relayPairAccept_progress; auto; unfold target; rewrite decide_False; congruence. }
  apply wp_bind. eapply wp_mono; [apply (send_any (P:=P)); [by apply HPm|done|done]|].
  intros b st1 (O1&Hsent&Hc1&Hr1). specialize (Hr1 s (or_introl Hl) Ht).
  destruct b; cbn [negb]; [|by apply Hfailed; auto].
  assert (Hl1 : sessions st1 !! s_sid s = Some s) by (by destruct (Hsent eq_refl) as (w&_&->)).
  apply wp_bind. eapply wp_mono; [apply advanceSession_progress; [apply O1|done..]|].
  intros [] st2 [Pg (now&Hl2)].
  assert (Pg2 : progress P (λ _, 0) st st2) by (by eapply ok_progress_l).
  apply wp_when; intros _; [|done]. apply wp_bind, wp_modify.
  destruct (applyRelayPhase_ids (s_policy s) p m) as (E1&E2&E3).
  assert (O3 : ok P ∅ st2 (set_sessions (delete (s_sid s)) st2)) by (apply deleteSession_ok, Pg2).
  eapply wp_mono; [apply (closeSessionPeers_ok (P:=P) ∅ s); [apply O3|right]|].
  - assert (D : detached (set_sessions (delete (s_sid (advanced s p m now))) st2) (advanced s p m now)).
    { eapply delete_detached; [apply Pg2|exact Hl2]. }
    unfold detached in *. cbn [s_policy advanced] in D. by rewrite E1, E2, E3 in D.
  - intros [] st3 (O4&_). eapply ok_progress_r; [exact Pg2|]. by eapply ok_trans.
Qed.

Lemma relay_progress p sid m st :
  Inv ∅ st →
  (∀ s, sessions st !! sid = Some s → p = s_sender s ∨ p = s_receiver s →
    relayAllowedForRole (s_policy s) p m = true → relayAllowedForPhase (s_policy s) p m = true →
    from_option manifestWithinLimits true (pairRequestManifest m) = true →
    from_option publicPairRequestManifestIsRedacted true (pairRequestManifest m) = true →
    (∀ q, q = s_sender s ∨ q = s_receiver s → q ≠ p → P (Sent q (SRelay m))) ∧
    (messageType m = TPairAccept → ∀ q l, q = s_sender s ∨ q = s_receiver s → P (Sent q (SIceConfig l)))) →
  wp (relay p sid m) (λ _ st', progress P (λ _, 0) st st') st.
Proof.
  intros I HPs. unfold relay. apply wp_bind, wp_get.
  assert (Hp0 : ∀ st', ok P ∅ st st' → progress P (λ _, 0) st st') by (by intros; apply ok_progress).
  assert (Hfail : ∀ code msg, wp (fail send p code msg) (λ _ st', progress P (λ _, 0) st st') st).
  { intros. eapply wp_mono; [by apply (fail_any (P:=P))|]. intros [] st1 [O1 _]. by apply Hp0. }
  destruct (sessions st !! sid) as [s|] eqn:Hs; [|apply Hfail].
  pose proof (live_of_inv sid s st I Hs) as Hl.
  assert (Hrej : ∀ msg, wp (rejectRelayMessage s p msg) (λ _ st', progress P (λ _, 0) st st') st).
  { intros msg. eapply wp_mono; [apply (rejectRelayMessage_ok (P:=P)); [done|by left]|].
    intros [] st1 O1. by apply Hp0. }
  destruct (bool_decide (s_sender s ≠ p) && bool_decide (s_receiver s ≠ p)) eqn:Hm; [apply Hfail|].
  destruct (from_option (λ f, negb (manifestWithinLimits f)) false (pairRequestManifest m)) eqn:Hm1; [apply Hrej|].
  destruct (from_option (λ f, negb (publicPairRequestManifestIsRedacted f)) false (pairRequestManifest m)) eqn:Hm2;
    [apply Hrej|].
  destruct (negb (relayAllowedForRole _ _ _)) eqn:Hrole; [apply Hrej|].
  destruct (negb (relayAllowedForPhase _ _ _)) eqn:Hphase; [apply Hrej|]. bool_hyps.
  assert (Hp : p = s_sender s ∨ p = s_receiver s).
  { apply andb_false_iff in Hm as [Hm|Hm]; bool_hyps; apply dec_stable in Hm; auto. }
  destruct (HPs s eq_refl Hp Hrole Hphase) as [HPm HPi].
  - destruct (pairRequestManifest m); [|done]. simpl in *. by bool_hyps.
  - destruct (pairRequestManifest m); [|done]. simpl in *. by bool_hyps.
  - by apply relayForward_progress.
Qed.

End RelayRequests.
