(* ===== verification/ServerProps.v ===== *)
(** * ServerProps: the properties of the signalling server.

    Everything is stated of the states reachable from the server's start by
    any sequence of callbacks, whatever the sockets do, whatever the clients
    send and whatever the clock says. *)
From S2P Require Import Prelude.
From S2P Require Import Constants.
From S2P Require Import JsText.
From S2P Require Import Wordlist.
From S2P Require Import RateLimit.
From S2P Require Import Protocol.
From S2P Require Import Policy.
From S2P Require Import Admission.
From S2P Require Import ServerState.
From S2P Require Import Server.
From S2P Require Import ServerInv.
From S2P Require Import ServerCluster.
From S2P Require Import ServerHandlers.
From S2P Require Import ServerRequests.
#[local] Open Scope Z_scope.

#[local] Set Default Proof Using "Type*".

Section Reachable.
Context `{WsLib, Serializer, Environment, IceProvider, ManifestRules, JsCase}.
Implicit Types st : Server.

(** The message [m] of [p] may be relayed to [q]: both are the two peers of the
    session it names, and the session allows it now. *)
Definition mayRelay st (p q : jsstr) (m : ClientMessage) : Prop :=
  ∃ sid s, relay_sid m = Some sid ∧ sessions st !! sid = Some s ∧
    (p = s_sender s ∧ q = s_receiver s ∨ p = s_receiver s ∧ q = s_sender s) ∧
    relayAllowedForRole (s_policy s) p m = true ∧ relayAllowedForPhase (s_policy s) p m = true ∧
    from_option manifestWithinLimits true (pairRequestManifest m) = true ∧
    from_option publicPairRequestManifestIsRedacted true (pairRequestManifest m) = true.

(** [p] accepts the pairing of a session that waits for its decision, and [q]
    is one of the two peers. *)
Definition mayIssueIce st (p q : jsstr) (m : ClientMessage) : Prop :=
  ∃ sid s, messageType m = TPairAccept ∧ relay_sid m = Some sid ∧ sessions st !! sid = Some s ∧
    p = s_receiver s ∧ (q = s_sender s ∨ q = s_receiver s) ∧
    pairRequested (s_policy s) = true ∧ pairDecided (s_policy s) = false.

(** The effects a callback may have. *)
Definition allowedEffect st (e : Event) (eff : Effect) : Prop :=
  match eff with
  | Sent q (SRelay m) => ∃ p, e = EMessage p (Some m) ∧ mayRelay st p q m
  | Sent q (SIceConfig _) => ∃ p m, e = EMessage p (Some m) ∧ mayIssueIce st p q m
  | Sent q (SPeerJoined _) => ∃ p c v, e = EMessage p (Some (CConnect c v))
  | _ => True
  end.

#[export] Instance allowedEffect_allows st e : Allows (allowedEffect st e).
Proof. intros eff Hh. destruct eff as [q []| | |]; done. Qed.

(** What a callback may add to a weight. *)
Definition budget (e : Event) (w : Weight) : Z :=
  match e with
  | EMessage p (Some (CRegister _ _)) => registerBudget p w
  | EMessage p (Some (CConnect _ _)) => connectBudget p w
  | _ => 0
  end.

Lemma budget_nonneg e w : 0 <= budget e w.
Proof.
  destruct e as [|p [[]|]| | | | | | | | |]; simpl; try lia;
    [apply registerBudget_nonneg|apply connectBudget_nonneg].
Qed.

Lemma mayRelay_same st st' p q m :
  sessions st' = sessions st → mayRelay st' p q m → mayRelay st p q m.
Proof. intros Hs (sid&s&?&Hl&?). exists sid, s. by rewrite Hs in Hl. Qed.

(** The checks of [relay] give what the effects of relaying need. *)
Lemma relay_allowed st p sid m s :
  Inv ∅ st → relay_sid m = Some sid → sessions st !! sid = Some s → p = s_sender s ∨ p = s_receiver s →
  relayAllowedForRole (s_policy s) p m = true → relayAllowedForPhase (s_policy s) p m = true →
  from_option manifestWithinLimits true (pairRequestManifest m) = true →
  from_option publicPairRequestManifestIsRedacted true (pairRequestManifest m) = true →
  (∀ q, q = s_sender s ∨ q = s_receiver s → q ≠ p → allowedEffect st (EMessage p (Some m)) (Sent q (SRelay m))) ∧
  (messageType m = TPairAccept → ∀ q l, q = s_sender s ∨ q = s_receiver s →
    allowedEffect st (EMessage p (Some m)) (Sent q (SIceConfig l))).
Proof.
  intros I Hsid Hs Hp Hrole Hphase Hm1 Hm2. split.
  - intros q Hq Hne. exists p. split; [done|]. exists sid, s. split_and!; try done.
    destruct Hp as [->| ->], Hq as [->| ->]; try done; [by left|by right].
  - intros Hacc q l Hq. exists p, m. split; [done|]. exists sid, s.
    unfold relayAllowedForRole, relayAllowedForPhase in *. rewrite Hacc in *.
    destruct (sessionPeerId (s_policy s) p) as [side|] eqn:Es; [|done].
    rewrite (sessionPeerId_member s p side Es). destruct side; [done|]. simpl in Hphase. bool_hyps.
    by split_and!.
Qed.

Lemma handleMessage_progress st0 p m st :
  Inv ∅ st → isOpen st p = true → known st p → sessions st = sessions st0 → Inv ∅ st0 →
  wp (handleMessage p m) (λ _ st',
    progress (allowedEffect st0 (EMessage p (Some m))) (budget (EMessage p (Some m))) st st') st.
Proof.
  intros I Ho Hk Hs I0.
  assert (Hrelay : ∀ sid, relay_sid m = Some sid → budget (EMessage p (Some m)) = (λ _, 0) →
    wp (relay p sid m) (λ _ st', progress (allowedEffect st0 (EMessage p (Some m)))
      (budget (EMessage p (Some m))) st st') st).
  { intros sid Hsid ->. apply relay_progress; [done|]. intros s Hl. rewrite Hs in Hl.
    intros. by eapply relay_allowed. }
  destruct m; cbn [handleMessage]; try by apply Hrelay.
  - by apply register_progress.
  - apply connect_progress; try done. intros q sid. by exists p, code, protocolVersion.
  - eapply wp_mono; [by apply handleBye_ok|]. intros [] st' O. by apply ok_progress.
Qed.

Lemma onMessage_progress p parsed st :
  Inv ∅ st →
  wp (onMessage p parsed) (λ _ st',
    progress (allowedEffect st (EMessage p parsed)) (budget (EMessage p parsed)) st st') st.
Proof.
  intros I. pose proof (budget_nonneg (EMessage p parsed)) as HB. unfold onMessage. apply wp_bind, wp_get.
  destruct (negb (peerAcceptsClientMessages st p)) eqn:Hacc.
  { apply wp_ret. apply ok_progress; [done|by apply ok_refl]. }
  bool_hyps. unfold peerAcceptsClientMessages in Hacc. bool_hyps.
  assert (Hk : known st p) by (by apply (conn_known _ (inv_conn _ _ I)), (conn_released _ (inv_conn _ _ I))).
  apply wp_bind. eapply wp_mono; [by apply hitMessageLimit_ok|]. intros [] st1 [O1 Hst]; cbn [negb].
  - specialize (Hst eq_refl). pose proof (still_open _ _ p Hst) as Ho1. destruct Hst as [Q _].
    destruct parsed as [m|].
    + eapply wp_mono; [apply (handleMessage_progress st)|].
      * apply O1.
      * congruence.
      * by eapply quiet_known.
      * apply Q.
      * done.
      * intros [] st2 Pg. by eapply ok_progress_l.
    + eapply wp_mono; [apply badMessage_ok, O1|]. intros [] st2 O2. apply ok_progress; [done|]. by eapply ok_trans.
  - apply wp_ret. by apply ok_progress.
Qed.

(** Every enabled callback completes: nothing is thrown, the recursion of
    [send] never runs out of fuel, and the server is in order again. *)
Lemma handle_progress st e :
  Inv ∅ st → enabled st e →
  wp (handle e) (λ _ st', progress (allowedEffect st e) (budget e) st st') st.
Proof.
  intros I Hen. pose proof (budget_nonneg e) as HB.
  assert (Hok : ∀ m : ST Server (), wp m (λ _ st', ok (allowedEffect st e) ∅ st st') st →
    wp m (λ _ st', progress (allowedEffect st e) (budget e) st st') st).
  { intros m Hm. eapply wp_mono; [exact Hm|]. intros [] st' O. by apply ok_progress. }
  destruct e; cbn [handle enabled] in *.
  - eapply wp_mono; [by apply onConnection_progress|]. intros [] st' Pg. exact Pg.
  - by apply onMessage_progress.
  - by apply Hok, onClose_ok.
  - by apply Hok, onError_ok.
  - by apply Hok, onPong_ok.
  - by apply Hok, onIdleTimer_ok.
  - by apply Hok, onCloseTimer_ok.
  - by apply Hok, onHeartbeat_ok.
  - eapply wp_mono; [by apply onExpiry_fine|]. intros [] st' F. by eapply fine_progress.
  - by apply Hok, onShutdown_ok.
  - apply Hok, wp_modify. by apply socket_ok.
Qed.

Lemma initial_Inv : Inv ∅ initialServer.
Proof.
  split; [|..|split|]; try done.
  - constructor.
  - intros p. split; [by intros ?%not_elem_of_nil|done].
  - by intros p ?%not_elem_of_nil.
Qed.

Lemma step_progress st e st' :
  Inv ∅ st → server_step st e st' → progress (allowedEffect st e) (budget e) st st'.
Proof.
  intros I [Hen Hh]. pose proof (handle_progress st e I Hen) as Hw. unfold wp in Hw. by rewrite Hh in Hw.
Qed.

Definition reachable (tr : list Event) st : Prop := run server_step initialServer tr st.

Lemma reachable_Inv tr st : reachable tr st → Inv ∅ st.
Proof.
  apply (run_invariant server_step (Inv ∅)); [|apply initial_Inv].
  intros a e b I Hs. by destruct (step_progress a e b I Hs).
Qed.

(** ** Properties *)

(** C1. The server never gets stuck: in every reachable state, every
    callback the runtime can make runs to completion.  No handler throws, and
    the mutual recursion between sending, cleaning up and restoring a receiver
    always ends within the fuel [send] is given. *)
Theorem server_callbacks_complete tr st e :
  reachable tr st → enabled st e → ∃ st', server_step st e st'.
Proof.
  intros Hr Hen. pose proof (handle_progress st e (reachable_Inv tr st Hr) Hen) as Hw.
  apply wp_inv in Hw as ([]&st'&Hh&_). by exists st'.
Qed.

(** In every reachable state [send] satisfies the recursive equation of
    the source: it is its own body, with the recursive calls being [send]
    itself, so the fuel of the model is not observable. *)
Theorem send_is_its_body tr st p m :
  reachable tr st → send p m st = sendBody send p m st.
Proof.
  intros Hr. apply (send_unfold ∅); [by eapply reachable_Inv|apply no_exempt].
Qed.

(** C2. In every reachable state the maps and the peers agree: the two
    peers of a live session point back at it, in their roles, and belong to no
    other session; the receiver of a waiting code is in no session and, while its
    socket is open, waits for exactly that code; a code has between one and
    three attempts left; and the flags of a session are those of a sequence of
    messages each of which its protocol allows after the ones before it. *)
Theorem server_links tr st :
  reachable tr st →
  (∀ sid s, sessions st !! sid = Some s →
    s_sid s = sid ∧ s_sender s ≠ s_receiver s ∧
    p_sid (peer st (s_sender s)) = Some sid ∧ p_role (peer st (s_sender s)) = Some sender ∧
    p_sid (peer st (s_receiver s)) = Some sid ∧ p_role (peer st (s_receiver s)) = Some receiver ∧
    (∀ sid' s' p, sessions st !! sid' = Some s' → p = s_sender s ∨ p = s_receiver s →
      p = s_sender s' ∨ p = s_receiver s' → sid' = sid) ∧
    ∃ h, specTrace [] h ∧ reflects h (s_policy s)) ∧
  (∀ c e, codes st !! c = Some e →
    wc_code e = c ∧ 1 <= wc_attempts e <= RECEIVER_MAX_PREPAIR_ATTEMPTS ∧
    p_sid (peer st (wc_receiver e)) = None ∧
    (isOpen st (wc_receiver e) = true →
      p_code (peer st (wc_receiver e)) = Some c ∧ p_role (peer st (wc_receiver e)) = Some receiver)).
Proof.
  intros Hr. pose proof (reachable_Inv tr st Hr) as I. split.
  - intros sid s Hs. destruct (inv_sessions _ _ I _ _ Hs) as (?&?&?&?&?&?&_&[h Hh]&_).
    split_and!; try done.
    + intros sid' s' p Hs' Hp Hp'. symmetry. by eapply (session_member_unique ∅ st sid s p sid' s').
    + exists h. split; [apply Hh|exact Hh].
  - intros c e Hc. destruct (inv_codes _ _ I _ _ Hc) as (?&?&?&_&Hor). split_and!; try done; try lia.
    intros Ho. destruct Hor as [Hx|[Hx|?]]; [by apply not_elem_of_empty in Hx|congruence|done].
Qed.

Lemma reachable_bounds tr st : reachable tr st → total st <= MAX_TOTAL ∧ connLimit st.
Proof.
  intros Hr. assert (Inv ∅ st ∧ total st <= MAX_TOTAL ∧ connLimit st) as (_&?&?); [|done].
  apply (run_invariant server_step (λ st, Inv ∅ st ∧ total st <= MAX_TOTAL ∧ connLimit st) initialServer tr);
    [|split_and!; [apply initial_Inv|by vm_compute|]|exact Hr].
  - intros a e b (I&Ht&Hl) Hs. pose proof (step_progress a e b I Hs) as Pg.
    split_and!; [apply Pg|by apply Pg|by apply Pg].
  - intros ip. unfold connCount. simpl. unfold SIGNALING_MAX_CONNECTIONS_PER_IP. lia.
Qed.

(** C6. The server's memory is bounded whatever the clients do: at most
    10 000 sessions, at most 20 000 waiting codes and sessions together, and at
    most 32 connections per address, each counted exactly by
    [activeConnections], which holds no address without a connection. *)
Theorem server_capacity tr st :
  reachable tr st →
  mapSize (sessions st) <= SIGNALING_MAX_SESSIONS ∧
  mapSize (codes st) + mapSize (sessions st) <= SIGNALING_MAX_WAITING_CODES + SIGNALING_MAX_SESSIONS ∧
  ∀ ip, connCount st ip <= SIGNALING_MAX_CONNECTIONS_PER_IP ∧
    activeConnections st !! ip = if connCount st ip =? 0 then None else Some (connCount st ip).
Proof.
  intros Hr. pose proof (reachable_Inv tr st Hr) as I. destruct (reachable_bounds tr st Hr) as [Ht Hl].
  split; [apply I|]. split; [exact Ht|]. intros ip. split; [apply Hl|apply I].
Qed.

(** C3. A message is delivered only where it belongs: when a callback
    delivers a relayed message [m] to [q], the callback is the arrival of [m]
    itself from a peer [p], [p] and [q] are the two different peers of the live
    session [m] names, and the session's role and phase rules (and, for a pair
    request, the manifest limits and redaction) allow it. *)
Theorem relay_stays_in_session tr st e st' :
  reachable tr st → server_step st e st' →
  ∃ ext, log st' = ext ++ log st ∧
    ∀ q m, Sent q (SRelay m) ∈ ext → ∃ p, e = EMessage p (Some m) ∧ p ≠ q ∧ mayRelay st p q m.
Proof.
  intros Hr Hs. pose proof (reachable_Inv tr st Hr) as I. pose proof (step_progress st e st' I Hs) as Pg.
  destruct (pg_log _ _ _ _ Pg) as (ext&Hl&Hext). exists ext. split; [done|].
  intros q m Hin. rewrite Forall_forall in Hext. destruct (Hext _ Hin) as (p&->&Hm).
  exists p. split_and!; [done| |done]. destruct Hm as (sid&s&_&Hsid&Hor&_).
  destruct (inv_sessions _ _ I _ _ Hsid) as (_&Hne&_). intros ->. destruct Hor as [[? ?]|[? ?]]; congruence.
Qed.

(** C5. TURN credentials go out only when a receiver accepts: when a
    callback delivers an ICE configuration to [q], the callback is the
    receiver's "pair-accept" for a live session that has a pair request and no
    decision yet, and [q] is one of that session's two peers. *)
Theorem ice_config_only_on_accept tr st e st' :
  reachable tr st → server_step st e st' →
  ∃ ext, log st' = ext ++ log st ∧
    ∀ q servers, Sent q (SIceConfig servers) ∈ ext → ∃ p m, e = EMessage p (Some m) ∧ mayIssueIce st p q m.
Proof.
  intros Hr Hs. pose proof (step_progress st e st' (reachable_Inv tr st Hr) Hs) as Pg.
  destruct (pg_log _ _ _ _ Pg) as (ext&Hl&Hext). exists ext. split; [done|].
  intros q servers Hin. rewrite Forall_forall in Hext. apply (Hext _ Hin).
Qed.

(** *** The number of times a receiver can be joined *)

(** "peer-joined" messages delivered to [r] *)
Fixpoint joinedCount (r : jsstr) (l : list Effect) : Z :=
  match l with
  | [] => 0
  | Sent q (SPeerJoined _) :: l => (if decide (q = r) then 1 else 0) + joinedCount r l
  | _ :: l => joinedCount r l
  end.

(** "register" and "connect" messages that arrived from [r] *)
Fixpoint registerCount (r : jsstr) (tr : list Event) : Z :=
  match tr with
  | [] => 0
  | EMessage q (Some (CRegister _ _)) :: tr => (if decide (q = r) then 1 else 0) + registerCount r tr
  | _ :: tr => registerCount r tr
  end.

Fixpoint connectCount (r : jsstr) (tr : list Event) : Z :=
  match tr with
  | [] => 0
  | EMessage q (Some (CConnect _ _)) :: tr => (if decide (q = r) then 1 else 0) + connectCount r tr
  | _ :: tr => connectCount r tr
  end.

Definition joinedBy (r : jsstr) (e : Effect) : Z :=
  match e with Sent q (SPeerJoined _) => if decide (q = r) then 1 else 0 | _ => 0 end.

(** Attempts that can still be made on [r], and those already made. *)
Definition guessWeight (r : jsstr) : Weight.
Proof.
  refine (mkWeight
    (λ e, if decide (wc_receiver e = r) then Z.max 0 (wc_attempts e) else 0)
    (λ s, if decide (s_receiver s = r) then Z.max 0 (s_attempts s) else 0)
    (joinedBy r) _ _ _ _ _ _ _ _ _).
  - intros e. case_decide; lia.
  - intros s. case_decide; lia.
  - intros [q []| | |]; simpl; try lia. case_decide; lia.
  - intros e e' Hr ?. rewrite Hr. case_decide; lia.
  - intros e s Hr ?. rewrite Hr. case_decide; lia.
  - intros e s Hr ???. simpl. rewrite Hr. case_decide; lia.
  - intros s s' Hr ->. by rewrite Hr.
  - done.
  - intros [q []| | |] Hj; try done. by destruct (Hj q sid).
Defined.

Lemma joinedCount_weight r l : joinedCount r l = foldr (λ e n, joinedBy r e + n) 0 l.
Proof. induction l as [|[q []| | |] l IH]; simpl; try done; by rewrite IH. Qed.

Lemma joinedCount_le r st : joinedCount r (log st) <= weight (guessWeight r) st.
Proof.
  unfold weight. rewrite joinedCount_weight.
  pose proof (msum_nonneg (w_code (guessWeight r)) (codes st) (w_code_nonneg _)).
  pose proof (msum_nonneg (w_session (guessWeight r)) (sessions st) (w_session_nonneg _)).
  change (w_effect (guessWeight r)) with (joinedBy r). lia.
Qed.

Lemma guess_budget r e tr :
  budget e (guessWeight r) + RECEIVER_MAX_PREPAIR_ATTEMPTS * registerCount r tr + connectCount r tr =
  RECEIVER_MAX_PREPAIR_ATTEMPTS * registerCount r (e :: tr) + connectCount r (e :: tr).
Proof.
  unfold RECEIVER_MAX_PREPAIR_ATTEMPTS.
  destruct e as [|q [[]|]| | | | | | | | |]; cbn [registerCount connectCount budget]; try lia.
  - unfold registerBudget, freshCode, initialPrePairAttempts, RECEIVER_MAX_PREPAIR_ATTEMPTS. simpl.
    case_decide; lia.
  - unfold connectBudget. simpl. case_decide; lia.
Qed.

Lemma guess_run r st tr st' :
  run server_step st tr st' → Inv ∅ st →
  weight (guessWeight r) st' <= weight (guessWeight r) st +
    (RECEIVER_MAX_PREPAIR_ATTEMPTS * registerCount r tr + connectCount r tr).
Proof.
  induction 1 as [st|st e st1 tr st2 Hs Hrun IH]; intros I; [simpl; lia|].
  pose proof (step_progress st e st1 I Hs) as Pg. specialize (IH (pg_inv _ _ _ _ Pg)).
  pose proof (pg_weight _ _ _ _ Pg (guessWeight r)) as Hw. pose proof (guess_budget r e tr). lia.
Qed.

(** C4. A receive code cannot be brute-forced through the server: over any
    run, the "peer-joined" messages delivered to a peer are at most three for
    every "register" it sent, plus one for every "connect" it sent itself, even
    though every failed attempt restores the waiting code and whatever the
    connecting peers do. *)
Theorem join_attempts_bounded tr st r :
  reachable tr st →
  joinedCount r (log st) <= RECEIVER_MAX_PREPAIR_ATTEMPTS * registerCount r tr + connectCount r tr.
Proof.
  intros Hr. etrans; [apply joinedCount_le|].
  pose proof (guess_run r _ tr st Hr initial_Inv) as Hw.
  assert (Hz : weight (guessWeight r) initialServer = 0) by reflexivity. lia.
Qed.

(** *** The expiry interval *)

Lemma fine_sessions P st st' : fine (P:=P) st st' → sessions st' ⊆ sessions st.
Proof. intros [_ [X E]]. apply E. Qed.

Lemma expireSession_removes P `{!Allows P} now sid st :
  Inv ∅ st → wp (expireSession now sid) (λ _ st', fine (P:=P) st st' ∧
    ∀ s, sessions st' !! sid = Some s → now < s_expiresAt s) st.
Proof.
  intros I. unfold expireSession. apply wp_bind, wp_get.
  destruct (sessions st !! sid) as [s|] eqn:Hs; cycle 1.
  { apply wp_ret. split; [apply ok_fine; by apply ok_refl|congruence]. }
  pose proof (live_of_inv sid s st I Hs) as Hl.
  assert (Hsid : s_sid s = sid) by (by destruct (inv_sessions _ _ I _ _ Hs) as (->&_)).
  apply wp_when; intros Hnow; bool_hyps; cycle 1.
  { split; [apply ok_fine; by apply ok_refl|]. intros s' Hs'. assert (s' = s) as -> by congruence. done. }
  destruct (sessionBeforePairAcceptance (s_policy s) && _ && _).
  - eapply wp_mono; [apply (restoreWaitingReceiver_ok (P:=P) send send_meets_contract ∅); [done|by left|]|].
    { apply not_elem_of_empty. }
    intros [] st1 [O1 [[[D _] _] _]]. split; [by apply ok_fine|]. rewrite Hsid in D. congruence.
  - apply wp_bind. eapply wp_mono; [apply (notifyPeerLeft_live (P:=P)); [done|by left]|]. intros [] st1 [O1 Hr1].
    apply wp_bind, wp_modify.
    assert (O2 : ok P ∅ st1 (set_sessions (delete sid) st1)) by (apply deleteSession_ok, O1).
    eapply wp_mono; [apply (closeSessionPeers_ok (P:=P) ∅); [apply O2|right]|].
    { rewrite <-Hsid. eapply restorable_detached; [apply O1|done]. }
    intros [] st3 (O3&[D _]&_). split; [|rewrite Hsid in D; congruence].
    apply ok_fine. eapply ok_trans; [exact O1|]. by eapply ok_trans.
Qed.

Lemma expireSessions_remove P `{!Allows P} now order st :
  Inv ∅ st → wp (st_iter (expireSession now) order) (λ _ st', fine (P:=P) st st' ∧
    ∀ sid s, sid ∈ order → sessions st' !! sid = Some s → now < s_expiresAt s) st.
Proof.
  revert st. induction order as [|sid order IH]; intros st I.
  { apply wp_ret. split; [apply ok_fine; by apply ok_refl|]. by intros ? ? ?%not_elem_of_nil. }
  cbn [st_iter]. apply wp_bind. eapply wp_mono; [by apply (expireSession_removes P)|].
  intros [] st1 [F1 H1']. eapply wp_mono; [apply IH, F1|]. intros [] st2 [F2 H2'].
  split; [by eapply fine_trans|]. intros sid' s [->|Hin]%elem_of_cons Hs; [|by eapply H2'].
  apply H1'. eapply lookup_weaken; [exact Hs|]. by eapply fine_sessions.
Qed.

(** The expiry interval removes every expired session: if it visits the
    keys of [sessions], no session whose time has passed is left, and no session
    is created or changed. *)
Theorem expiry_removes_expired_sessions tr st codeOrder sidOrder st' :
  reachable tr st → server_step st (EExpiry codeOrder sidOrder) st' →
  (∀ sid s, sessions st !! sid = Some s → sid ∈ sidOrder) →
  ∀ sid s, sessions st' !! sid = Some s →
    sessions st !! sid = Some s ∧ clock (ticks st) < s_expiresAt s.
Proof.
  intros Hr [_ Hh] Horder. pose proof (reachable_Inv tr st Hr) as I. cbn [handle] in Hh.
  assert (Hw : wp (onExpiry codeOrder sidOrder) (λ _ st', fine (P:=housekeeping) st st' ∧
    ∀ sid s, sid ∈ sidOrder → sessions st' !! sid = Some s → clock (ticks st) < s_expiresAt s) st).
  { unfold onExpiry, dateNow. apply wp_bind. unfold wp at 1. set (st0 := set_counters 1 0 st).
    assert (O0 : ok housekeeping ∅ st st0) by (apply quiet_ok; [done|apply quiet_tick]).
    apply wp_bind. eapply wp_mono; [apply (iter_fine (P:=housekeeping)); [|apply O0]|].
    { intros c st1 I1. by apply expireCode_fine. }
    intros [] st1 F1. apply wp_bind. eapply wp_mono; [apply (expireSessions_remove housekeeping), F1|].
    intros [] st2 [F2 Hexp]. apply wp_bind, wp_modify, wp_modify. split; [|done].
    eapply fine_trans; [by apply ok_fine|]. eapply fine_trans; [exact F1|].
    eapply fine_trans; [exact F2|]. apply ok_fine, quiet_ok; [apply F2|].
    eapply quiet_trans; [apply quiet_limits|apply quiet_turnLimits]. }
  unfold wp in Hw. rewrite Hh in Hw. destruct Hw as [F Hexp]. intros sid s Hs.
  assert (Hs0 : sessions st !! sid = Some s) by (eapply lookup_weaken; [exact Hs|by eapply fine_sessions]).
  split; [done|]. by eapply Hexp; [eapply Horder|].
Qed.

(** Running a list of callbacks. *)
Definition exec (st : Server) (e : Event) : Server :=
  match handle e st with Done _ st' => st' | _ => st end.

Fixpoint execAll (st : Server) (es : list Event) : Server :=
  match es with [] => st | e :: es => execAll (exec st e) es end.

(** Callbacks that are enabled in every state *)
Definition alwaysEnabled (e : Event) : Prop :=
  match e with ESocket _ _ | EClose _ | EError _ => False | _ => True end.

Lemma exec_step st e : Inv ∅ st → enabled st e → server_step st e (exec st e).
Proof.
  intros I Hen. pose proof (handle_progress st e I Hen) as Hw. apply wp_inv in Hw as ([]&st'&Hh&_).
  split; [done|]. unfold exec. by rewrite Hh.
Qed.

Lemma execAll_run st es : Inv ∅ st → Forall alwaysEnabled es → run server_step st es (execAll st es).
Proof.
  intros I Hes. revert st I. induction Hes as [|e es He Hes IH]; intros st I; simpl; [constructor|].
  assert (Hs : server_step st e (exec st e)) by (apply exec_step; [done|by destruct e]).
  econstructor; [exact Hs|]. apply IH. by destruct (step_progress st e _ I Hs).
Qed.

Lemma execAll_reachable es : Forall alwaysEnabled es → reachable es (execAll initialServer es).
Proof. apply execAll_run, initial_Inv. Qed.

End Reachable.

(** ** A concrete server, for the witnesses

    Sockets that never fail, an empty frame for every message, a clock that
    advances one second per reading. *)
Definition testWs : WsLib.
Proof.
  refine {| sock := ReadyState; readyState s := s; bufferedAmount _ := Some 0;
    ws_send _ s := (true, s); ws_close _ _ s := (true, match s with CLOSED => CLOSED | _ => CLOSING end);
    ws_ping s := (true, s); ws_terminate _ := CLOSED; deadSock := CLOSED |}; try done.
  - by intros c r []. 
  - by intros c r [].
Defined.

Definition testSerializer : Serializer := {| serializeMessage _ := Ok [] |}.

Definition testEnvironment : Environment.
Proof.
  refine {| clock n := 1000 * Z.of_nat n; nanoid size n := [size; Z.of_nat n] |}; [|done].
  intros n i j [= E]. lia.
Defined.

Definition testIce : IceProvider := {| hasTurnRest := true; iceServersForRequest _ _ := [] |}.
Definition testManifests : ManifestRules :=
  {| manifestWithinLimits _ := true; publicPairRequestManifestIsRedacted _ := true |}.

#[local] Existing Instances testWs testSerializer testEnvironment testIce testManifests asciiCase.

(** A receiver registers, a sender connects, both exchange their PAKE shares
    and confirmations, the sender asks and the receiver is about to answer. *)
Definition testReceiver : jsstr := [10; 0].
Definition testSender : jsstr := [10; 1].
Definition testSid : jsstr := [32; 2].
Definition testManifest : FileManifest := {| fm_files := []; fm_fileCount := 0; fm_totalBytes := 0 |}.

Definition testEvents : list Event :=
  [EConnection OPEN (js "10.0.0.1"); EConnection OPEN (js "10.0.0.2");
   EMessage testReceiver (Some (CRegister (js "123456789012") 10));
   EMessage testSender (Some (CConnect (js "123456789012") 10));
   EMessage testSender (Some (CPake testSid [])); EMessage testReceiver (Some (CPake testSid []));
   EMessage testSender (Some (CConfirm testSid [])); EMessage testReceiver (Some (CConfirm testSid []));
   EMessage testSender (Some (CPairRequest testSid testManifest []))].

Definition testState : Server := execAll initialServer testEvents.
Definition testAccept : Event := EMessage testReceiver (Some (CPairAccept testSid [])).

Lemma testState_reachable : reachable testEvents testState.
Proof. apply execAll_reachable. by repeat constructor. Qed.

Lemma testAccept_step : server_step testState testAccept (exec testState testAccept).
Proof. apply exec_step; [eapply reachable_Inv, testState_reachable|done]. Qed.

Lemma server_callbacks_complete_witness :
  mapSize (sessions testState) = 1 ∧ ∃ st', server_step testState testAccept st'.
Proof.
  split; [vm_compute; reflexivity|].
  exact (server_callbacks_complete testEvents testState testAccept testState_reachable I).
Defined.

Lemma send_is_its_body_witness :
  send testSender (SError bad_message []) testState =
    sendBody send testSender (SError bad_message []) testState.
Proof. exact (send_is_its_body testEvents testState testSender _ testState_reachable). Defined.

Lemma server_links_witness :
  (∃ s, sessions testState !! testSid = Some s ∧ s_sender s = testSender) ∧
  (∀ s, sessions testState !! testSid = Some s → p_sid (peer testState (s_sender s)) = Some testSid).
Proof.
  split; [eexists; split; vm_compute; reflexivity|].
  intros s Hs. destruct (server_links testEvents testState testState_reachable) as [Hl _].
  by destruct (Hl testSid s Hs) as (_&_&?&_).
Defined.

Lemma server_capacity_witness :
  mapSize (sessions testState) = 1 ∧ mapSize (sessions testState) <= SIGNALING_MAX_SESSIONS.
Proof.
  split; [vm_compute; reflexivity|].
  by destruct (server_capacity testEvents testState testState_reachable) as [? _].
Defined.

Lemma relay_stays_in_session_witness :
  log (exec testState testAccept) =
    [Sent testReceiver (SIceConfig []); Sent testSender (SRelay (CPairAccept testSid []));
     Sent testSender (SIceConfig [])] ++ log testState ∧
  ∃ ext, log (exec testState testAccept) = ext ++ log testState ∧
    ∀ q m, Sent q (SRelay m) ∈ ext → ∃ p, testAccept = EMessage p (Some m) ∧ p ≠ q ∧ mayRelay testState p q m.
Proof.
  split; [vm_compute; reflexivity|].
  exact (relay_stays_in_session testEvents testState testAccept _ testState_reachable testAccept_step).
Defined.

Lemma ice_config_only_on_accept_witness :
  log (exec testState testAccept) =
    [Sent testReceiver (SIceConfig []); Sent testSender (SRelay (CPairAccept testSid []));
     Sent testSender (SIceConfig [])] ++ log testState ∧
  ∃ ext, log (exec testState testAccept) = ext ++ log testState ∧
    ∀ q servers, Sent q (SIceConfig servers) ∈ ext →
      ∃ p m, testAccept = EMessage p (Some m) ∧ mayIssueIce testState p q m.
Proof.
  split; [vm_compute; reflexivity|].
  exact (ice_config_only_on_accept testEvents testState testAccept _ testState_reachable testAccept_step).
Defined.

Lemma join_attempts_bounded_witness :
  joinedCount testReceiver (log testState) = 1 ∧
  joinedCount testReceiver (log testState) <=
    RECEIVER_MAX_PREPAIR_ATTEMPTS * registerCount testReceiver testEvents + connectCount testReceiver testEvents.
Proof.
  split; [vm_compute; reflexivity|].
  exact (join_attempts_bounded testEvents testState testReceiver testState_reachable).
Defined.

Lemma expiry_removes_expired_sessions_witness :
  let e := EExpiry [] [testSid] in
  sessions testState !! testSid ≠ None ∧
  ∀ sid s, sessions (exec testState e) !! sid = Some s →
    sessions testState !! sid = Some s ∧ clock (ticks testState) < s_expiresAt s.
Proof.
  intros e. split; [by vm_compute|].
  apply (expiry_removes_expired_sessions testEvents testState [] [testSid] (exec testState e)).
  - exact testState_reachable.
  - apply exec_step; [eapply reachable_Inv, testState_reachable|done].
  - intros sid s Hs. assert (Hk : map_to_list (sessions testState) = [(testSid, s)] → sid = testSid → sid ∈ [testSid])
      by (intros _ ->; apply list_elem_of_here).
    assert (E : dom (sessions testState) = {[testSid]}) by (vm_compute; reflexivity).
    assert (Hd : sid ∈ dom (sessions testState)) by (by apply elem_of_dom; exists s).
    rewrite E in Hd. apply elem_of_singleton in Hd as ->. apply list_elem_of_here.
Defined.
