(* ===== verification/System.v ===== *)
(** * System: the server with the program's own rules.

    The server's theorems hold for any serializer and any manifest rules.  Here
    they are instantiated with the ones of the program, [Wire.serializeMessage]
    and the rules of [Limits] and [PublicManifest]. *)
From S2P Require Import Prelude.
From S2P Require Import Constants.
From S2P Require Import JsText.
From S2P Require Import JsValue.
From S2P Require Import Json.
From S2P Require Import Authority.
From S2P Require Import Protocol.
From S2P Require Import Messages.
From S2P Require Import Wire.
From S2P Require Import Limits.
From S2P Require Import PublicManifest.
From S2P Require Import Policy.
From S2P Require Import Admission.
From S2P Require Import ServerState.
From S2P Require Import Server.
From S2P Require Import ServerInv.
From S2P Require Import ServerCluster.
From S2P Require Import ServerHandlers.
From S2P Require Import ServerRequests.
From S2P Require Import ServerProps.
#[local] Open Scope Z_scope.

(** [serializeMessage] on a message of the server *)
Definition programSerializer `{JsNumbers, UrlParser, JsCase} : Serializer :=
  {| ServerState.serializeMessage m := Wire.serializeMessage (serverValue m) |}.

(** [manifestWithinLimits] of index.ts and [publicPairRequestManifestIsRedacted], on the literal of a manifest *)
Definition programRules `{JsCase} : ManifestRules := {|
  Server.manifestWithinLimits := PublicManifest.manifestWithinLimits;
  Server.publicPairRequestManifestIsRedacted m := PublicManifest.publicPairRequestManifestIsRedacted (manifestValue m)
|}.

Section System.
Context `{JsNumbers, UrlParser, JsCase, WsLib, Environment, IceProvider}.
#[local] Existing Instances programSerializer programRules.

(** C35. The server never forwards what a sender offers: in every reachable state of the server, whatever a peer
    sends, the manifest in a pair request that is delivered to the other peer is the constant public manifest. *)
Theorem pair_request_reveals_nothing tr st e st' :
  reachable tr st → server_step st e st' →
  ∃ ext, log st' = ext ++ log st ∧
    ∀ q sid m sealed, Sent q (SRelay (CPairRequest sid m sealed)) ∈ ext → m = constantPublicManifest.
Proof.
  intros Hr Hs. pose proof (step_progress st e st' (reachable_Inv tr st Hr) Hs) as Pg.
  destruct (pg_log _ _ _ _ Pg) as (ext & Hl & Hext). exists ext. split; [done|].
  intros q sid m sealed Hin. rewrite Forall_forall in Hext.
  destruct (Hext _ Hin) as (p & _ & sid' & s & _ & _ & _ & _ & _ & _ & Hred). by apply redacted_value.
Qed.

End System.

(** ** A concrete run *)

Definition systemEnvironment : Environment.
Proof.
  refine {| clock n := 1000 * Z.of_nat n; nanoid size n := 115 :: jsInt (Z.of_nat n) |}; [|done].
  intros n i j [= E%(inj jsInt)]. lia.
Defined.

#[local] Existing Instances programSerializer programRules decimalNumbers noUrls asciiCase testWs systemEnvironment testIce.

Definition zeroMac : jsstr := repeat 65 43 ++ js "=".

(** Two peers exchange their PAKE shares and confirmations; the sender is about to ask. *)
Definition confirmedEvents : list Event :=
  [EConnection OPEN (js "10.0.0.1"); EConnection OPEN (js "10.0.0.2");
   EMessage (js "s0") (Some (CRegister (js "123456789012") 10));
   EMessage (js "s1") (Some (CConnect (js "123456789012") 10));
   EMessage (js "s1") (Some (CPake (js "s2") (js "x"))); EMessage (js "s0") (Some (CPake (js "s2") (js "y")));
   EMessage (js "s1") (Some (CConfirm (js "s2") zeroMac)); EMessage (js "s0") (Some (CConfirm (js "s2") zeroMac))].
Definition confirmedState : Server := execAll initialServer confirmedEvents.
Definition pairRequest : ClientMessage := CPairRequest (js "s2") constantPublicManifest (repeat 65 20).
Definition askEvent : Event := EMessage (js "s1") (Some pairRequest).

Lemma confirmedState_reachable : reachable confirmedEvents confirmedState.
Proof. apply execAll_reachable. by repeat constructor. Qed.

Lemma askEvent_step : server_step confirmedState askEvent (exec confirmedState askEvent).
Proof. apply exec_step; [eapply reachable_Inv, confirmedState_reachable|done]. Qed.

Lemma pair_request_reveals_nothing_witness :
  log (exec confirmedState askEvent) = Sent (js "s0") (SRelay pairRequest) :: log confirmedState ∧
  ∃ ext, log (exec confirmedState askEvent) = ext ++ log confirmedState ∧
    ∀ q sid m sealed, Sent q (SRelay (CPairRequest sid m sealed)) ∈ ext → m = constantPublicManifest.
Proof.
  split; [vm_compute; reflexivity|].
  exact (pair_request_reveals_nothing confirmedEvents confirmedState askEvent _ confirmedState_reachable askEvent_step).
Defined.
